(* ===== verification/_CoqProject ===== *)
-Q . S2P
Prelude.v
GoStr.v
Lifecycle.v
Reserve.v
ReserveSpec.v
ReserveProps.v
ReserveExpiry.v
ReserveStock.v
Errs.v
CallsPolicy.v
Breaker.v
Dependency.v
ExtState.v
ExtCommands.v
ExtProps.v
ExtSafety.v
ProjDecide.v
Projection.v
ProjConverge.v
ProjAlign.v
ProjAligned.v
Work.v
CronSpec.v
CronProps.v
WorkSys.v
WorkProps.v
WorkSafety.v
AuthzDefs.v
AuthzDeclared.v
AuthzEval.v
AuthzEvalProps.v
AuthzSql.v
AuthzSqlProps.v
AuthzList.v
AuthzCompile.v
AuthzView.v
AuthzViewProps.v
AuthzViewSafety.v
AuthzSubject.v
Money.v
ListQuery.v
ListProps.v
ListPages.v
ListSafety.v
EventsStream.v
EventsEnvelope.v
EventsOutbox.v
EventsSys.v
EventsOrder.v
EventsForward.v
EventsQueue.v
EventsBus.v
EventsBusProps.v
EventsBusFate.v
Canon.v
CanonProps.v
Idem.v
AuditLog.v
AuditProps.v
AuditSys.v
EventsProgress.v
EventsResend.v
EventsResendProps.v
EventsRedelivery.v
EventsRedeliveryProps.v
TierPlan.v
TierRows.v
TierRead.v
TierStore.v
TierSys.v
TierSame.v
TierInv.v
TierKept.v
TierForward.v
TierMove.v
TierStart.v
TierStep.v
TierArchive.v
TierDemo.v
TierFaults.v
