(* ===== verification/Prelude.v ===== *)
(** * A verification of the component SDK

    The program is a Go SDK for components ("members") of a business system.  A member
    serves requests, keeps its tables in its own PostgreSQL database, and works with other
    members by calls, by events and by reservations.  The SDK's packages are the parts each
    member is made of.  This library models the ones that carry its own logic, as
    executable definitions over the tables and texts the code uses, and proves what makes
    them correct.

    ** How code is modelled

    - A Go function is a definition of the same name.  A fallible function answers a [res]
      ([Ok] or [Err]); one that may dereference nil or index out of range answers an
      [option].
    - A database transaction is a value of the monad [tx] below: it reads and changes a
      store and either succeeds with a new store or fails and leaves the old one
      ([commit]).  The store is a record with one [gmap] for each table, the columns as
      record fields.  An SQL statement is an atomic function on the store.
    - Concurrent parts are step relations over a system state: every transaction is one
      step, and any number of workers, publishers, forwarders or operators interleave,
      crash and act late.  Invariants are proved by induction on the run ([rtc]).  Ghost
      fields (lists of what was committed, claimed or sent) are named as such where they
      are declared.
    - Durations and instants are nanoseconds in [Z] with the saturation or wrap-around of
      Go where the code can reach it; identifiers and texts are strings; Go maps are
      [gmap]s, and a loop over one is a fold over one of its orders.
    - Libraries outside the repository (JSON, SHA-256, decimal arithmetic, time zones,
      object storage, the database's collation) are type classes or section variables
      with the documented behaviour the proofs need as laws; each file that has one ends
      with a concrete instance.

    ** Files

    - [Prelude], [GoStr]: results, transactions, machine integers, generic lemmas; the
      parts of [strings] and [strconv] the code uses.
    - Reservations (reserve/): [Lifecycle] (the transition table), [Reserve] (the
      commands and the expiry job), [ReserveSpec] (abstract effects and the refinement),
      [ReserveProps], [ReserveExpiry], [ReserveStock] (a concrete owner).
    - Errors (errs/): [Errs].
    - Calls (calls/): [CallsPolicy] (deadlines, retries, budget), [Breaker],
      [Dependency] (the loop of one call).
    - External commands (extcmd/): [ExtState], [ExtCommands], [ExtProps], [ExtSafety].
    - Projections (projection/): [ProjDecide], [Projection], [ProjConverge],
      [ProjAlign], [ProjAligned].
    - Background work (work/): [Work], [CronSpec], [CronProps], [WorkSys], [WorkProps],
      [WorkSafety].
    - Authorization (authz/, guard/, reqctx/): [AuthzDefs] and [AuthzDeclared]
      (declarations), [AuthzEval] and [AuthzEvalProps] (deciding one record), [AuthzSql],
      [AuthzSqlProps], [AuthzList], [AuthzCompile] (the query compiler), [AuthzView],
      [AuthzViewProps], [AuthzViewSafety] (the held view), [AuthzSubject] (a request).
    - Money (money/): [Money].  Lists (list/, search/): [ListQuery], [ListProps],
      [ListPages], [ListSafety].
    - Events (events/): [EventsStream] (epochs, positions, subjects, subscriptions),
      [EventsEnvelope] (from [Emit] to the handler), [EventsOutbox], [EventsSys],
      [EventsOrder], [EventsForward] (outbox, numbering, forwarder), [EventsQueue],
      [EventsBus], [EventsBusProps], [EventsBusFate] (the PostgreSQL queue and its
      consumers),
      [EventsProgress] (how far a subscription is), [EventsResend] and [EventsResendProps]
      (a producer sends a partition again), [EventsRedelivery] and [EventsRedeliveryProps]
      (a consumer whose database went back asks for it).
    - Canonical records (canon/, records/): [Canon], [CanonProps].  Idempotent requests
      (idem/): [Idem].  Audit (audit/): [AuditLog] (the log, denials, reads, purges),
      [AuditProps], [AuditSys].
    - Tiering (tiering/): [TierPlan] (classes and the plan), [TierRows] (the unit digest),
      [TierRead] (a unit's rows as aggregates and back), [TierStore] (the catalog's tables and
      each transaction on them), [TierSys] (the workers as processes over the catalog and the
      object store, a transaction or a store call a step, with deadlines, crashes and
      the replays of a full recovery; [wstep]).  The proof of what they keep: [TierSame] (equal content, equal digest),
      [TierInv] (the invariant), [TierKept] (time, moves of the catalog, the store),
      [TierMove] (each transaction), [TierStart], [TierStep] (each step), [TierForward] (units move forward), [TierArchive] (runs).
      [TierDemo] runs a deployment, [TierFaults] three runs that go wrong.

    ** How the parts meet

    A request is admitted by [AuthzSubject] through the held view of [AuthzView] and the
    declarations of [AuthzDefs]; one record is decided by [AuthzEval], a list by the query
    of [AuthzSql], which [ListQuery] joins with the request's filters and its cursor.  A
    command writes business rows and outbox rows ([EventsEnvelope]) in one transaction;
    [EventsOutbox] numbers and publishes them after the commit; [EventsQueue] delivers
    them; a consumer ([EventsBus]) applies each once, for instance to a projection
    ([Projection]), which an alignment ([ProjAlign]) re-reads from its source.  Slow or
    external effects are work items ([Work]) and external commands ([ExtCommands]);
    dependencies are called through [Dependency].

    ** What is proved

    - Reservations: no sequence of commands loses, duplicates or oversells a resource;
      a branch lives through its states and ends for ever; a consumption is counted once;
      locks are taken in one order; the expiry job, with other commands, the clock and
      failing functions between its transactions, ends every branch overdue at its start
      when it returns without an error, and it returns.
    - Calls: attempts, waiting and retries are bounded and the token of the limit is given
      back; the breaker opens exactly on the failing windows; errors survive the wire, their
      retry times up to 97 days, internal causes never leave.
    - External commands: when a request leaves, the writing of its issue record taking
      time between the check and the sending, and why a second may; idempotence; a settled
      command stays settled.
    - Projections: any order and repetition of inputs gives the newest row, an answer that
      the record is purged taking back what came before it; an alignment
      leaves the projection equal to the source; nothing of an old one lands later.
    - Work: one claim commits, an item completes once, a slot becomes one item, a
      non-idempotent call has one caller until its outcome is settled.
    - Authorization: validation accepts exactly the stated declarations; a record is
      allowed exactly when active segments grant it, each atom met by the meaning of its
      kind; the compiled list selects exactly the records the evaluation allows, for
      segments without the shapes that [segmentReady] names (an empty path, a value set on
      an amount, bounds that are no decimals); an allowed request rests on the principal's
      own segments in a renewed shard of the current generation, or, for a tightening
      operation, in a stale one the context names, and ends at its cutoff.
    - Money and lists: parts sum to the amount; pages cover the list once; a page reveals
      nothing unreadable.
    - Events: an emitted event arrives as it was emitted; positions are dense, follow the
      order of commits and are published in order; a forwarder drains its outbox; the
      queue skips no message, loses no delivery silently, and an event takes effect once; after
      a restore, each row past a subscription's progress that no purge takes meanwhile is sent
      again or recorded as a gap, and the epoch is settled only after every producer answered.
    - Canonical records: two values have one encoding exactly when they mean the same; a
      digest binds type, version and value.
    - Idempotent requests: one execution for a key within the retention; a repetition is
      answered with the stored outcome and changes nothing.
    - Audit: a committed record is never lost before a backup covers its receipt; denials
      over the budget are counted and summarized once; a strict read is released with a
      receipt; the purge is the row by row decision of its reference.
    - Tiering: units have one digest exactly when they have the same rows; a unit that was
      sealed reads back as it was sealed until it is destroyed, in every run without
      erasures; it is destroyed only past its retention, approved and not held, or by a
      recovery that replays its recorded destruction; states only move forward.  The class [TierOk] states what this rests on: checked classes with tables
      of their own, a hash without collisions, canonical rows out of Parquet files, a grace
      longer than an hour and an orphans' window longer than seven (the jobs' timeouts).

    Some theorems state where the code differs from its own comments; they are the
    concrete runs in [ExtSafety], [WorkSafety], [AuthzViewSafety], [AuthzCompile],
    [EventsStream], [EventsBusFate], [EventsResendProps], [AuditSys]
    and [TierFaults].

    ** Fuel and bounds

    Loops that are not structural take fuel, and their theorems ask only for as much as is
    enough: an alignment one unit a page and local row; a walk over pages one unit a row of
    the table; [forward] one unit for each unfinished row and one more; the expiry job one for
    each held branch and one more; a call's loop three turns.  The days of a cron window and the doublings of a backoff take the fuel their
    definitions compute from the window or the limit.  [AuditLog.Drain] takes
    fuel for its rounds, and its theorems hold for any; a redelivery takes one unit a row of the
    outbox and one more; the parts of a table's copy one a row and one more.

    ** Not modelled

    The HTTP and gRPC clients and servers, the database access layer (pools, sessions,
    migrations, lint), configuration, identity tokens and signing, assembling and stopping
    processes, observability and generated code are I/O or glue over libraries.  The
    in-memory and JetStream transports implement the contract modelled for the queue over
    code outside the repository.  Watermark pulls and record reads of the events package, the history reads and the
    member wiring of tiering, its converters of older structures, evidence, recovery checks and the reconciliation service are outside this library so far.  In the system of the outbox a database is
    never restored to an earlier state, and leases, which only reduce contention, are not
    taken. *)
From stdpp Require Export base tactics list gmap strings sorting.
From Stdlib Require Export ZArith Lia.
Open Scope Z_scope.
#[export] Set Warnings "-clear-no-such-hyp".

(** ** Results and transactions *)

(** A Go call that returns a value and an error. *)
Inductive res (E A : Type) : Type :=
| Ok (a : A)
| Err (e : E).
Arguments Ok {E A} a.
Arguments Err {E A} e.
#[export] Instance res_eq_dec `{EqDecision E, EqDecision A} : EqDecision (res E A).
Proof. solve_decision. Defined.

(** A piece of code that runs inside one database transaction: it reads and writes
    the store [S] and may fail. *)
Definition tx (S E A : Type) : Type := S → res E (A * S).

Definition tret {S E A} (a : A) : tx S E A := λ s, Ok (a, s).
Definition tfail {S E A} (e : E) : tx S E A := λ _, Err e.
Definition tget {S E} : tx S E S := λ s, Ok (s, s).
Definition tmod {S E} (f : S → S) : tx S E unit := λ s, Ok (tt, f s).
Definition tbind {S E A B} (c : tx S E A) (k : A → tx S E B) : tx S E B :=
  λ s, match c s with Ok (a, s') => k a s' | Err e => Err e end.

Declare Scope tx_scope.
Delimit Scope tx_scope with tx.
Notation "x <~ c ; k" := (tbind c (λ x, k))
  (at level 100, c at next level, right associativity) : tx_scope.
Notation "' p <~ c ; k" := (tbind c (λ x, match x with p => k end))
  (at level 20, p pattern, c at level 100, k at level 200) : tx_scope.
Notation "c ;~ k" := (tbind c (λ _, k))
  (at level 100, right associativity) : tx_scope.

(** [db.BackgroundTx] and [db.Tx]: an error rolls the store back. *)
Definition commit {S E A} (c : tx S E A) (s : S) : res E A * S :=
  match c s with Ok (a, s') => (Ok a, s') | Err e => (Err e, s) end.

(** The store a transaction leaves behind. *)
Definition after {S E A} (c : tx S E A) (s : S) : S := (commit c s).2.

Lemma tbind_ok {S E A B} (c : tx S E A) (k : A → tx S E B) s b s' :
  tbind c k s = Ok (b, s') ↔ ∃ a s1, c s = Ok (a, s1) ∧ k a s1 = Ok (b, s').
Proof.
  unfold tbind. destruct (c s) as [[a s1]|e] eqn:Hc; split.
  - intros H. eauto.
  - intros (a' & s1' & H1 & H2). by simplify_eq.
  - done.
  - by intros (a' & s1' & H1 & H2).
Qed.

Lemma tbind_get {S E B} (k : S → tx S E B) s : tbind tget k s = k s s.
Proof. done. Qed.
Lemma tbind_ret {S E A B} (a : A) (k : A → tx S E B) s : tbind (tret a) k s = k a s.
Proof. done. Qed.
Lemma tbind_mod {S E B} (f : S → S) (k : unit → tx S E B) s : tbind (tmod f) k s = k tt (f s).
Proof. done. Qed.
Lemma tbind_assoc {S E A B D} (c : tx S E A) (f : A → tx S E B) (g : B → tx S E D) s :
  tbind (tbind c f) g s = tbind c (λ a, tbind (f a) g) s.
Proof. unfold tbind. by destruct (c s) as [[]|]. Qed.

Lemma after_ok {S E A} (c : tx S E A) s a s' : c s = Ok (a, s') → after c s = s'.
Proof. unfold after, commit. by intros ->. Qed.

Lemma after_cases {S E A} (c : tx S E A) s :
  after c s = s ∨ ∃ a s', c s = Ok (a, s') ∧ after c s = s'.
Proof. unfold after, commit. destruct (c s) as [[a s']|e]; eauto. Qed.

(** A state predicate kept by a successful transaction. *)
Definition keeps {S E A} (P : S → Prop) (c : tx S E A) : Prop :=
  ∀ s a s', P s → c s = Ok (a, s') → P s'.

Lemma keeps_ret {S E A} (P : S → Prop) (a : A) : keeps P (tret (E:=E) a).
Proof. intros s a' s' H Hr. by injection Hr as <- <-. Qed.
Lemma keeps_fail {S E A} (P : S → Prop) (e : E) : keeps P (tfail (A:=A) e).
Proof. by intros s a' s' H Hr. Qed.
Lemma keeps_get {S E} (P : S → Prop) : keeps P (tget (E:=E)).
Proof. intros s a' s' H Hr. by injection Hr as <- <-. Qed.
Lemma keeps_bind {S E A B} (P : S → Prop) (c : tx S E A) (k : A → tx S E B) :
  keeps P c → (∀ a, keeps P (k a)) → keeps P (tbind c k).
Proof.
  intros Hc Hk s b s' Hs (a & s1 & H1 & H2)%tbind_ok.
  eapply Hk; [eapply Hc|]; eauto.
Qed.
Lemma keeps_after {S E A} (P : S → Prop) (c : tx S E A) s : keeps P c → P s → P (after c s).
Proof. intros Hk Hs. destruct (after_cases c s) as [->|(a & s' & H & ->)]; eauto. Qed.

(** ** Go integers and durations *)

Definition int64_max : Z := 9223372036854775807.
Definition int64_min : Z := -9223372036854775808.

(** Durations are nanoseconds. *)
Definition Nanosecond : Z := 1.
Definition Millisecond : Z := 1000000.
Definition Second : Z := 1000000000.
Definition Minute : Z := 60 * Second.
Definition Hour : Z := 60 * Minute.

(** [t.Sub(u)] saturates at the range of [time.Duration]. *)
Definition timeSub (t u : Z) : Z := Z.max int64_min (Z.min int64_max (t - u)).

Lemma timeSub_lt t u d : -d ≤ int64_max → d ≤ int64_max → int64_min < d →
  timeSub t u < d ↔ t - u < d.
Proof. unfold timeSub, int64_min, int64_max. lia. Qed.

Lemma timeSub_gt t u d : 0 ≤ d < int64_max → d < timeSub t u ↔ d < t - u.
Proof. unfold timeSub, int64_min, int64_max. lia. Qed.

(** [uint64] arithmetic wraps. *)
Definition uint64 (n : Z) : Z := n mod 2 ^ 64.
(** The 64-bit number of an integer, in two's complement. *)
Definition int64 (n : Z) : Z := (n + 2 ^ 63) mod 2 ^ 64 - 2 ^ 63.

(** ** Automation *)

Create HintDb sdk.
#[export] Hint Resolve keeps_ret keeps_fail keeps_get keeps_bind : sdk.

(** Split every [if] and [match] of the goal or a hypothesis. *)
Ltac cases := repeat (case_match || case_decide || case_bool_decide); simplify_eq/=.

(** Invert a successful run of a monadic computation, step by step. *)
Ltac inv_tx :=
  repeat match goal with
  | H : tbind tget _ _ = Ok _ |- _ => rewrite tbind_get in H; cbv beta in H
  | H : tbind (tret _) _ _ = Ok _ |- _ => rewrite tbind_ret in H; cbv beta in H
  | H : tbind (tmod _) _ _ = Ok _ |- _ => rewrite tbind_mod in H; cbv beta in H
  | H : tbind (tfail _) _ _ = Ok _ |- _ => discriminate H
  | H : tbind (tbind ?c ?k) ?k' ?s = Ok _ |- _ =>
      rewrite (tbind_assoc c k k') in H
  | H : tbind _ _ _ = Ok _ |- _ =>
      let a := fresh "v" in let s1 := fresh "s" in let H1 := fresh "Hrun" in
      apply tbind_ok in H as (a & s1 & H1 & H); cbv beta in H
  | H : tret _ _ = Ok _ |- _ => unfold tret in H; simplify_eq/=
  | H : tfail _ _ = Ok _ |- _ => discriminate H
  | H : tget _ = Ok _ |- _ => unfold tget in H; simplify_eq/=
  | H : tmod _ _ = Ok _ |- _ => unfold tmod in H; simplify_eq/=
  end.

(** ** Lists *)

(** Sum of an integer function over a list. *)
Fixpoint sumZ {A} (f : A → Z) (l : list A) : Z :=
  match l with [] => 0 | x :: l => f x + sumZ f l end.

Lemma sumZ_app {A} (f : A → Z) l1 l2 : sumZ f (l1 ++ l2) = sumZ f l1 + sumZ f l2.
Proof. induction l1; simpl; lia. Qed.
Lemma sumZ_ext {A} (f g : A → Z) l : (∀ x, x ∈ l → f x = g x) → sumZ f l = sumZ g l.
Proof. induction l; intros H; simpl; [done|]. rewrite H, IHl; set_solver. Qed.
Lemma sumZ_perm {A} (f : A → Z) l1 l2 : l1 ≡ₚ l2 → sumZ f l1 = sumZ f l2.
Proof. induction 1; simpl; lia. Qed.
Lemma sumZ_nonneg {A} (f : A → Z) l : (∀ x, x ∈ l → 0 ≤ f x) → 0 ≤ sumZ f l.
Proof.
  induction l as [|x l IH]; intros H; simpl; [done|].
  assert (0 ≤ f x) by (apply H; set_solver).
  assert (0 ≤ sumZ f l) by (apply IH; set_solver). lia.
Qed.
Lemma sumZ_bound {A} (f : A → Z) (c : Z) l :
  (∀ x, x ∈ l → f x ≤ c) → sumZ f l ≤ c * Z.of_nat (length l).
Proof.
  induction l as [|x l IH]; intros H; simpl; [lia|].
  assert (f x ≤ c) by (apply H; set_solver).
  assert (sumZ f l ≤ c * Z.of_nat (length l)) by (apply IH; set_solver). lia.
Qed.
Lemma sumZ_scale {A} (f : A → Z) (c : Z) l : sumZ (λ x, c * f x) l = c * sumZ f l.
Proof. induction l; simpl; lia. Qed.
Lemma sumZ_add {A} (f g : A → Z) l : sumZ (λ x, f x + g x) l = sumZ f l + sumZ g l.
Proof. induction l; simpl; lia. Qed.

(** ** The first rows of an ordered query *)

Section firsts.
Context {A : Type} (R : relation A) `{∀ x y, Decision (R x y)} (n : nat) (l : list A).

Lemma firsts_elem x : x ∈ take n (merge_sort R l) → x ∈ l.
Proof. intros (i & Hi & _)%elem_of_take. rewrite <- (merge_sort_Permutation R l). by eapply list_elem_of_lookup_2. Qed.

Lemma firsts_nil : (0 < n)%nat → take n (merge_sort R l) = [] → l = [].
Proof.
  intros Hn H0. assert (Hl : merge_sort R l = []) by (destruct n, (merge_sort R l); simpl in *; (lia || done)).
  pose proof (merge_sort_Permutation R l) as Hp. rewrite Hl in Hp. by apply Permutation_nil_l in Hp.
Qed.

Lemma firsts_NoDup : NoDup l → NoDup (take n (merge_sort R l)).
Proof. intros Hl. eapply sublist_NoDup; [|apply sublist_take]. by rewrite merge_sort_Permutation. Qed.

End firsts.

Lemma sorted_lookup {A} (R : relation A) (l : list A) i j x y :
  StronglySorted R l → l !! i = Some x → l !! j = Some y → (i < j)%nat → R x y.
Proof.
  intros Hs Hx Hy Hij. rewrite <- (take_drop_middle l i x Hx) in Hs.
  apply StronglySorted_app_1_r, StronglySorted_inv in Hs as [_ Hs]. rewrite Forall_forall in Hs. apply Hs.
  apply list_elem_of_lookup. exists (j - S i)%nat. rewrite lookup_drop. by replace (S i + (j - S i))%nat with j by lia.
Qed.

Lemma firsts_before {A} (R : relation A) `{∀ x y, Decision (R x y)} `{!Transitive R, !Total R} n (l : list A) x y j :
  x ∈ l → take n (merge_sort R l) !! j = Some y → ¬ R y x → ∃ i, (i < j)%nat ∧ take n (merge_sort R l) !! i = Some x.
Proof.
  intros Hx Hj Hyx. rewrite <- (merge_sort_Permutation R l) in Hx. apply list_elem_of_lookup in Hx as [i Hi].
  apply lookup_take_Some in Hj as [Hj Hjn].
  pose proof (StronglySorted_merge_sort R l) as Hs.
  destruct (decide (i < j)%nat) as [Hij|Hij].
  - exists i. split; [done|]. apply lookup_take_Some. split; [done|lia].
  - destruct (decide (i = j)) as [->|Hne]; [simplify_eq; by destruct (total R x x)|].
    destruct Hyx. by eapply (sorted_lookup R _ j i _ _ Hs); [..|lia].
Qed.

Lemma firsts_full {A} (R : relation A) `{∀ x y, Decision (R x y)} n (l : list A) x :
  x ∈ l → x ∉ take n (merge_sort R l) → length (take n (merge_sort R l)) = n.
Proof.
  intros Hx Hn. rewrite length_take. destruct (decide (n ≤ length (merge_sort R l))%nat); [lia|].
  destruct Hn. rewrite take_ge by lia. by rewrite merge_sort_Permutation.
Qed.

(** The keys of the rows a query selects. *)
Section selected.
Context {A : Type} (P : string * A → Prop) `{∀ x, Decision (P x)} (m : gmap string A).

Lemma selected_elem k : k ∈ map fst (filter P (map_to_list m)) ↔ ∃ a, m !! k = Some a ∧ P (k, a).
Proof.
  rewrite list_elem_of_fmap. split.
  - intros ([k' a] & -> & Hf). apply list_elem_of_filter in Hf as [Hp Hm]. apply elem_of_map_to_list in Hm. eauto.
  - intros (a & Hm & Hp). exists (k, a). split; [done|]. apply list_elem_of_filter. by rewrite elem_of_map_to_list.
Qed.

Lemma selected_NoDup : NoDup (map fst (filter P (map_to_list m))).
Proof. eapply sublist_NoDup; [apply (NoDup_fst_map_to_list m)|]. apply fmap_sublist, sublist_filter. Qed.

End selected.
