(* ===== verification/GoStr.v ===== *)
(** * What the sources use of Go's strings and numbers

    [strings.Cut], [strconv.ParseUint] and [strconv.ParseInt] in base ten at 64 bits, as
    the standard library implements them: a syntax error gives zero, a value out of range
    gives the nearest one, the first of the two met from the left is the one reported. *)
From S2P Require Import Prelude.
From stdpp Require Import pretty.
From Stdlib Require Import Ascii String.
Open Scope string_scope.
Open Scope Z_scope.

Definition uint64_max : Z := 18446744073709551615.

(** [strings.Cut] on a separator of one byte. *)
Fixpoint cut (sep : ascii) (s : string) : string * string * bool :=
  match s with
  | EmptyString => ("", "", false)
  | String a s' =>
      if decide (a = sep) then ("", s', true)
      else let '(x, y, ok) := cut sep s' in (String a x, y, ok)
  end.

Definition digit (a : ascii) : option Z :=
  let n := Z.of_N (N_of_ascii a) in
  if decide (48 ≤ n ≤ 57) then Some (n - 48) else None.

Inductive numErr := ErrSyntax | ErrRange.
#[export] Instance numErr_eq_dec : EqDecision numErr.
Proof. solve_decision. Defined.

(** The digits after the accumulator [n]. *)
Fixpoint digits (n : Z) (s : string) : Z * option numErr :=
  match s with
  | EmptyString => (n, None)
  | String a s' =>
      match digit a with
      | None => (0, Some ErrSyntax)
      | Some d => if decide (uint64_max < n * 10 + d) then (uint64_max, Some ErrRange) else digits (n * 10 + d) s'
      end
  end.

Definition ParseUint (s : string) : Z * option numErr :=
  match s with EmptyString => (0, Some ErrSyntax) | _ => digits 0 s end.

Definition ParseInt (s : string) : Z * option numErr :=
  match s with
  | EmptyString => (0, Some ErrSyntax)
  | String a s' =>
      let neg := bool_decide (a = "-"%char) in
      let s0 := if neg || bool_decide (a = "+"%char) then s' else s in
      match ParseUint s0 with
      | (_, Some ErrSyntax) => (0, Some ErrSyntax)
      | (un, e) =>
          let cutoff := 9223372036854775808 in
          if negb neg && bool_decide (cutoff ≤ un) then (cutoff - 1, Some ErrRange)
          else if neg && bool_decide (cutoff < un) then (- cutoff, Some ErrRange)
          else (if neg then - un else un, None)
      end
  end.

(** [strconv.Atoi]. *)
Definition Atoi : string → Z * option numErr := ParseInt.

Definition contains (c : ascii) (s : string) : bool := (cut c s).2.

(** [strings.Split] on a separator of one byte. *)
Fixpoint split (sep : ascii) (s : string) : list string :=
  match s with
  | EmptyString => [""]
  | String a s' =>
      if decide (a = sep) then "" :: split sep s'
      else match split sep s' with
           | x :: l => String a x :: l
           | [] => [String a ""]
           end
  end.

(** The ASCII white space of [unicode.IsSpace]. *)
Definition isSpace (a : ascii) : bool :=
  let n := Z.of_N (N_of_ascii a) in bool_decide (9 ≤ n ≤ 13) || bool_decide (n = 32).

(** [strings.Fields]; [w] is the field read so far. *)
Fixpoint fieldsFrom (w : string) (s : string) : list string :=
  match s with
  | EmptyString => if decide (w = "") then [] else [w]
  | String a s' =>
      if isSpace a then (if decide (w = "") then fieldsFrom "" s' else w :: fieldsFrom "" s')
      else fieldsFrom (w ++ String a "") s'
  end.
Definition fields : string → list string := fieldsFrom "".

(** Go compares strings byte by byte. *)
Definition strLe (a b : string) : Prop := String.leb a b = true.
#[export] Instance strLe_dec a b : Decision (strLe a b).
Proof. unfold strLe. apply _. Defined.

(** [sort.Strings]. *)
Definition sortStrings (l : list string) : list string := merge_sort strLe l.

(** [strings.HasPrefix]. *)
Fixpoint HasPrefix (s p : string) : bool :=
  match p, s with
  | EmptyString, _ => true
  | String b p', String a s' => bool_decide (a = b) && HasPrefix s' p'
  | _, _ => false
  end.

(** [strconv.FormatInt] in base ten and [strconv.Itoa]. *)
Definition FormatInt (n : Z) : string :=
  if decide (n < 0) then String "-" (pretty (Z.to_N (- n))) else pretty (Z.to_N n).

(** ** The order of strings *)

Lemma strLe_String a s b t :
  strLe (String a s) (String b t) ↔ (N_of_ascii a < N_of_ascii b)%N ∨ (a = b ∧ strLe s t).
Proof.
  unfold strLe, String.leb. cbn [String.compare]. unfold Ascii.compare.
  destruct (N.compare_spec (N_of_ascii a) (N_of_ascii b)) as [He|Hl|Hg].
  - assert (a = b) as -> by (rewrite <- (ascii_N_embedding a), He; apply ascii_N_embedding).
    split; [by right|]. intros [?|[_ ?]]; [lia|done].
  - naive_solver.
  - split; [done|]. intros [?|[-> _]]; lia.
Qed.

#[export] Instance strLe_trans : Transitive strLe.
Proof.
  intros x. induction x as [|a x IH]; intros [|b y] [|d z]; try done.
  rewrite !strLe_String. intros [H1|[-> H1]] [H2|[-> H2]]; [left; lia|by left|by left|].
  right. split; [done|]. by eapply IH.
Qed.
#[export] Instance strLe_antisym : AntiSymm (=) strLe.
Proof. intros x y. apply String.leb_antisym. Qed.
#[export] Instance strLe_total : Total strLe.
Proof. intros x y. apply String.leb_total. Qed.

Lemma sortStrings_Sorted l : Sorted strLe (sortStrings l).
Proof. apply Sorted_merge_sort, _. Qed.
Lemma sortStrings_Permutation l : sortStrings l ≡ₚ l.
Proof. apply merge_sort_Permutation. Qed.
Lemma sortStrings_elem x l : x ∈ sortStrings l ↔ x ∈ l.
Proof. by rewrite sortStrings_Permutation. Qed.

(** The order of the input does not matter: the result of sorting is unique. *)
Lemma sortStrings_unique l1 l2 : l1 ≡ₚ l2 → sortStrings l1 = sortStrings l2.
Proof.
  intros Hp. apply (Sorted_unique strLe); [apply sortStrings_Sorted..|]. by rewrite !sortStrings_Permutation.
Qed.

(** ** Bounds *)

Lemma digits_bound n s v e : 0 ≤ n ≤ uint64_max → digits n s = (v, e) → 0 ≤ v ≤ uint64_max.
Proof.
  revert n. induction s as [|a s IH]; intros n Hn; simpl; [intros; by simplify_eq|].
  unfold digit. case_decide as Ha; [|intros [= <- <-]; unfold uint64_max; lia].
  case_decide; [intros [= <- <-]; unfold uint64_max; lia|]. intros H'. eapply IH; [|exact H']. lia.
Qed.

Lemma ParseUint_bound s v e : ParseUint s = (v, e) → 0 ≤ v ≤ uint64_max.
Proof.
  destruct s as [|a s]; simpl; [intros [= <- <-]; unfold uint64_max; lia|].
  intros H. eapply (digits_bound 0 (String a s)); [unfold uint64_max; lia|exact H].
Qed.

Lemma ParseInt_bound s v e : ParseInt s = (v, e) → int64_min ≤ v ≤ int64_max.
Proof.
  unfold ParseInt, int64_min, int64_max. destruct s as [|a s]; [intros [= <- <-]; lia|].
  destruct (ParseUint _) as [un e'] eqn:Hp. apply ParseUint_bound in Hp.
  destruct e' as [[]|]; [intros [= <- <-]; lia|..];
    (destruct (bool_decide (a = "-"%char)); simpl; case_bool_decide; intros [= <- <-]; lia).
Qed.

(** ** Reading back what was written *)

Lemma digits_char n d s :
  (d < 10)%N → n * 10 + Z.of_N d ≤ uint64_max → digits n (String (pretty_N_char d) s) = digits (n * 10 + Z.of_N d) s.
Proof.
  intros Hd Hn. cbn [digits].
  assert (Hc : digit (pretty_N_char d) = Some (Z.of_N d)).
  { assert (d = 0 ∨ d = 1 ∨ d = 2 ∨ d = 3 ∨ d = 4 ∨ d = 5 ∨ d = 6 ∨ d = 7 ∨ d = 8 ∨ d = 9)%N as Hcases by lia.
    by repeat destruct Hcases as [->|Hcases]; [..|subst d]. }
  rewrite Hc. by rewrite decide_False by lia.
Qed.

Lemma digits_pretty x s :
  (0 < x)%N → Z.of_N x ≤ uint64_max → digits 0 (pretty_N_go x s) = digits (Z.of_N x) s.
Proof.
  revert s. induction (N.lt_wf_0 x) as [x _ IH]. intros s Hx Hb. rewrite pretty_N_go_step by done.
  pose proof (N.mod_lt x 10 ltac:(lia)) as Hm. pose proof (N.div_mod x 10 ltac:(lia)) as Hdm.
  destruct (decide (x / 10 = 0)%N) as [H0|H0].
  - rewrite H0, pretty_N_go_0, digits_char by lia. f_equal. lia.
  - pose proof (N.div_lt x 10 Hx ltac:(lia)) as Hlt. set (q := (x / 10)%N) in *. set (m := (x mod 10)%N) in *.
    clearbody q m. rewrite IH by lia. rewrite digits_char by lia. f_equal. lia.
Qed.

Lemma ParseUint_pretty x : Z.of_N x ≤ uint64_max → ParseUint (pretty x) = (Z.of_N x, None).
Proof.
  intros Hb. destruct (decide (x = 0)%N) as [->|Hx]; [done|].
  unfold pretty, pretty_N. rewrite decide_False by done.
  assert (Hd : digits 0 (pretty_N_go x "") = (Z.of_N x, None)) by (rewrite digits_pretty by lia; done).
  unfold ParseUint. destruct (pretty_N_go x "") eqn:Hp; [|done].
  cbn in Hd. injection Hd as Hd. lia.
Qed.

Lemma pretty_digit (x : N) : ∃ a s, pretty x = String a s ∧ a ≠ "-"%char ∧ a ≠ "+"%char.
Proof.
  assert (Hgo : ∀ y s, (∃ a t, s = String a t ∧ a ≠ "-"%char ∧ a ≠ "+"%char) →
    ∃ a t, pretty_N_go y s = String a t ∧ a ≠ "-"%char ∧ a ≠ "+"%char).
  { intros y. induction (N.lt_wf_0 y) as [y _ IH]. intros s Hs.
    destruct (decide (y = 0)%N) as [->|Hy]; [by rewrite pretty_N_go_0|]. rewrite pretty_N_go_step by lia.
    apply IH; [apply N.div_lt; lia|]. eexists _, _. split; [done|].
    pose proof (N.mod_lt y 10 ltac:(lia)) as Hm. set (d := (y mod 10)%N) in *.
    assert (d = 0 ∨ d = 1 ∨ d = 2 ∨ d = 3 ∨ d = 4 ∨ d = 5 ∨ d = 6 ∨ d = 7 ∨ d = 8 ∨ d = 9)%N as Hcases by lia.
    by repeat destruct Hcases as [->|Hcases]; [..|rewrite Hcases]. }
  unfold pretty, pretty_N. destruct (decide (x = 0)%N); [by eexists _, _|].
  rewrite pretty_N_go_step by lia. apply Hgo. eexists _, _. split; [done|].
  pose proof (N.mod_lt x 10 ltac:(lia)) as Hm. set (d := (x mod 10)%N) in *.
  assert (d = 0 ∨ d = 1 ∨ d = 2 ∨ d = 3 ∨ d = 4 ∨ d = 5 ∨ d = 6 ∨ d = 7 ∨ d = 8 ∨ d = 9)%N as Hcases by lia.
  by repeat destruct Hcases as [->|Hcases]; [..|rewrite Hcases].
Qed.

Lemma ParseInt_FormatInt n : int64_min ≤ n ≤ int64_max → ParseInt (FormatInt n) = (n, None).
Proof.
  unfold int64_min, int64_max. intros Hn. unfold FormatInt. case_decide as Hneg.
  - unfold ParseInt. cbn [bool_decide]. rewrite bool_decide_eq_true_2 by done. cbn [orb].
    rewrite ParseUint_pretty by (unfold uint64_max; lia). cbn [negb andb].
    rewrite bool_decide_eq_false_2 by lia. f_equal. lia.
  - pose proof (ParseUint_pretty (Z.to_N n) ltac:(unfold uint64_max; lia)) as Hp.
    destruct (pretty_digit (Z.to_N n)) as (a & s & Hs & Ha & Hb). rewrite Hs in *. unfold ParseInt.
    rewrite !bool_decide_eq_false_2 by done. cbn [orb negb andb]. rewrite Hp.
    rewrite bool_decide_eq_false_2 by lia. f_equal. lia.
Qed.

(** ** Texts of joined parts *)

Fixpoint allChars (f : ascii → bool) (s : string) : bool :=
  match s with EmptyString => true | String a s => f a && allChars f s end.

Lemma allChars_impl (f g : ascii → bool) s : (∀ a, f a = true → g a = true) → allChars f s = true → allChars g s = true.
Proof. intros Hfg. induction s as [|a s IH]; [done|]. cbn. rewrite !andb_true_iff. naive_solver. Qed.

Lemma pretty_allChars (f : ascii → bool) (x : N) :
  (∀ d, (d < 10)%N → f (pretty_N_char d) = true) → allChars f (pretty x) = true.
Proof.
  intros Hf. assert (Hgo : ∀ y s, allChars f s = true → allChars f (pretty_N_go y s) = true).
  { intros y. induction (N.lt_wf_0 y) as [y _ IH]. intros s Hs.
    destruct (decide (y = 0)%N) as [->|Hy]; [by rewrite pretty_N_go_0|]. rewrite pretty_N_go_step by lia.
    apply IH; [apply N.div_lt; lia|]. cbn. rewrite Hf by (apply N.mod_lt; lia). done. }
  unfold pretty, pretty_N. destruct (decide (x = 0)%N) as [_|_]; [|by apply Hgo]. specialize (Hf 0%N ltac:(lia)). cbn in Hf |- *. by rewrite Hf.
Qed.

Definition notChar (c a : ascii) : bool := negb (bool_decide (a = c)).

Lemma digit_notChar c d : (d < 10)%N → digit c = None → notChar c (pretty_N_char d) = true.
Proof.
  intros Hd Hc. unfold notChar. rewrite negb_true_iff, bool_decide_eq_false. intros <-. revert Hc.
  assert (d = 0 ∨ d = 1 ∨ d = 2 ∨ d = 3 ∨ d = 4 ∨ d = 5 ∨ d = 6 ∨ d = 7 ∨ d = 8 ∨ d = 9)%N as Hcases by lia.
  by repeat destruct Hcases as [->|Hcases]; [..|subst d].
Qed.

Lemma FormatInt_notChar c n : digit c = None → c ≠ "-"%char → allChars (notChar c) (FormatInt n) = true.
Proof.
  intros Hc Hm. unfold FormatInt. case_decide; cbn [allChars].
  - rewrite pretty_allChars by (intros; by apply digit_notChar). unfold notChar.
    by rewrite bool_decide_eq_false_2 by congruence.
  - apply pretty_allChars. intros. by apply digit_notChar.
Qed.

Lemma append_nil s : "" ++ s = s.
Proof. done. Qed.
Lemma append_cons x a t : String x a ++ t = String x (a ++ t).
Proof. done. Qed.

Lemma cut_app sep a b : allChars (notChar sep) a = true → cut sep (a ++ String sep b) = (a, b, true).
Proof.
  induction a as [|x a IH]; rewrite ?append_nil, ?append_cons; cbn -[decide]; [by rewrite decide_True|]. rewrite andb_true_iff. intros [Hx Ha].
  unfold notChar in Hx. rewrite negb_true_iff, bool_decide_eq_false in Hx. rewrite decide_False by done. by rewrite IH.
Qed.
Lemma cut_ok sep s a b : cut sep s = (a, b, true) → s = a ++ String sep b.
Proof.
  revert a b. induction s as [|x s IH]; intros a b; cbn -[decide]; [done|]. case_decide as Hx; [intros [= <- <-]; by subst|].
  destruct (cut sep s) as [[a' b'] ok]. intros [= <- <- ->]. rewrite append_cons. by rewrite (IH _ _ eq_refl).
Qed.

Lemma split_not_nil sep s : split sep s ≠ [].
Proof. induction s as [|a s IH]; [done|]. cbn -[decide]. case_decide; [done|]. by destruct (split sep s). Qed.
Lemma split_app sep a b : split sep (a ++ String sep b) = (split sep a ++ split sep b)%list.
Proof.
  induction a as [|x a IH]; rewrite ?append_nil, ?append_cons; cbn -[decide]; [by rewrite decide_True|]. case_decide; cbn [app]; [by rewrite IH|].
  rewrite IH. pose proof (split_not_nil sep a). by destruct (split sep a).
Qed.
Lemma split_word sep a : allChars (notChar sep) a = true → split sep a = [a].
Proof.
  induction a as [|x a IH]; cbn -[decide]; [done|]. rewrite andb_true_iff. intros [Hx Ha].
  unfold notChar in Hx. rewrite negb_true_iff, bool_decide_eq_false in Hx. rewrite decide_False by done. by rewrite IH.
Qed.
Lemma split_inj sep a b : split sep a = split sep b → a = b.
Proof.
  revert b. induction a as [|x a IH]; intros [|y b]; cbn -[decide].
  - done.
  - case_decide; [|by destruct (split sep b)]. intros [= He]. by destruct (split_not_nil sep b).
  - case_decide; [|by destruct (split sep a)]. intros [= He]. by destruct (split_not_nil sep a).
  - pose proof (split_not_nil sep a). pose proof (split_not_nil sep b). repeat case_decide; subst.
    + intros [= He]. f_equal. by apply IH.
    + by destruct (split sep b).
    + by destruct (split sep a).
    + destruct (split sep a) as [|u l] eqn:Ha; [done|]. destruct (split sep b) as [|v m] eqn:Hb; [done|].
      intros [= -> -> ->]. f_equal. apply IH. by rewrite Hb.
Qed.

(** ** A text for every value of a countable type *)

Fixpoint bits (p : positive) : string :=
  match p with xH => "." | xO p => String "0" (bits p) | xI p => String "1" (bits p) end.
Fixpoint unbits (s : string) : option positive :=
  match s with
  | "." => Some xH
  | String "0" s => xO <$> unbits s
  | String "1" s => xI <$> unbits s
  | _ => None
  end.
Lemma unbits_bits p : unbits (bits p) = Some p.
Proof. induction p as [p IH|p IH|]; cbn; [by rewrite IH..|done]. Qed.

Definition textCode `{Countable A} (a : A) : string := bits (encode a).
Definition textDecode `{Countable A} (s : string) : option A := p ← unbits s; decode p.
Lemma textDecode_code `{Countable A} (a : A) : textDecode (textCode a) = Some a.
Proof. unfold textDecode, textCode. rewrite unbits_bits. apply decode_encode. Qed.
Lemma textCode_not_empty `{Countable A} (a : A) : textCode a ≠ "".
Proof. unfold textCode. by destruct (encode a). Qed.
