(* ===== verification/Lifecycle.v ===== *)
(** * Reservation branches: the transition table

    [reserve/lifecycle.go]: the states of a branch, what arrives on it, and [Decide],
    the one table every command of [Reserve] goes through. *)
From S2P Require Import Prelude.

(** A stored branch's state; [Absent] answers for a branch that is not stored. *)
Inductive State := Held | Committed | Consumed | Released | Expired | Rejected | Cancelled | Absent.
#[export] Instance State_eq_dec : EqDecision State.
Proof. solve_decision. Defined.

(** The stored states, in the protocol's order. *)
Definition States : list State :=
  [Held; Committed; Consumed; Released; Expired; Rejected; Cancelled].

(** A final state: nothing moves it any more. *)
Definition Ended (s : State) : bool :=
  bool_decide (s ≠ Held) && bool_decide (s ≠ Committed) && bool_decide (s ≠ Absent).

Inductive Command :=
| OnQuery | OnConfirm | OnCancel | OnExpire
| OnHoldEnough | OnHoldShort | OnHoldSame | OnHoldOther
| OnConsumeWithin | OnConsumeExact | OnConsumeBeyond | OnConsumeUsedSame | OnConsumeUsedOther.
#[export] Instance Command_eq_dec : EqDecision Command.
Proof. solve_decision. Defined.

(** What a transition does to the component's resource. *)
Inductive Resource := Untouched | Takes | GivesBack | Consumes.
#[export] Instance Resource_eq_dec : EqDecision Resource.
Proof. solve_decision. Defined.

(** Why a consumption is refused; the source's empty string is [None]. *)
Inductive Refusal := NoBranch | NotCommitted | BeyondRemaining.
#[export] Instance Refusal_eq_dec : EqDecision Refusal.
Proof. solve_decision. Defined.

Record Decision := mkDecision {
  To : State;
  Conflict : bool;
  Refused : option Refusal;
  Res : Resource;
  Changed : bool
}.

(** The table: what command [c] does to a branch in state [s], [past] telling whether a
    held branch's hold period is over. *)
Definition Decide (s : State) (past : bool) (c : Command) : Decision :=
  let stay := mkDecision s false None Untouched false in
  match c with
  | OnQuery => stay
  | OnHoldEnough | OnHoldShort =>
      if decide (s ≠ Absent) then stay
      else if decide (c = OnHoldEnough) then mkDecision Held false None Takes true
      else mkDecision Rejected false None Untouched true
  | OnHoldSame => stay
  | OnHoldOther =>
      if decide (s = Cancelled) then stay
      else mkDecision s true None Untouched false
  | OnConfirm =>
      if decide (s ≠ Held) then stay
      else if past then mkDecision Expired false None GivesBack true
      else mkDecision Committed false None Untouched true
  | OnCancel =>
      match s with
      | Absent => mkDecision Cancelled false None Untouched true
      | Held | Committed => mkDecision Released false None GivesBack true
      | _ => stay
      end
  | OnExpire =>
      if decide (s = Held) then
        if past then mkDecision Expired false None GivesBack true else stay
      else stay
  | OnConsumeUsedSame => stay
  | OnConsumeUsedOther => mkDecision s true None Untouched false
  | OnConsumeWithin | OnConsumeExact | OnConsumeBeyond =>
      if decide (s = Absent) then mkDecision s false (Some NoBranch) Untouched false
      else if decide (s ≠ Committed) then mkDecision s false (Some NotCommitted) Untouched false
      else if decide (c = OnConsumeBeyond) then mkDecision s false (Some BeyondRemaining) Untouched false
      else if decide (c = OnConsumeExact) then mkDecision Consumed false None Consumes true
      else mkDecision Committed false None Consumes true
  end.

(** ** The life of a branch as a relation *)

(** The moves the protocol allows between two states. *)
Inductive moves : State → State → Prop :=
| mv_hold : moves Absent Held
| mv_reject : moves Absent Rejected
| mv_tombstone : moves Absent Cancelled
| mv_commit : moves Held Committed
| mv_expire : moves Held Expired
| mv_release_held : moves Held Released
| mv_release_committed : moves Committed Released
| mv_consume_part : moves Committed Committed
| mv_consume_all : moves Committed Consumed.

(** Does a branch in this state hold some of the component's resource? *)
Definition holding (s : State) : bool :=
  match s with Held | Committed => true | _ => false end.

Lemma Ended_spec s : Ended s = true ↔ s ≠ Held ∧ s ≠ Committed ∧ s ≠ Absent.
Proof. unfold Ended. rewrite !andb_true_iff, !bool_decide_eq_true. tauto. Qed.

Lemma Ended_not_holding s : Ended s = true → holding s = false.
Proof. by destruct s. Qed.

(** Every change the table orders is a move of the relation; no change keeps the state
    and leaves the resource alone. *)
Lemma Decide_moves s past c :
  if Changed (Decide s past c) then moves s (To (Decide s past c))
  else To (Decide s past c) = s ∧ Res (Decide s past c) = Untouched.
Proof. destruct s, past, c; simpl; try (split; reflexivity); constructor. Qed.

(** An ended branch is never changed. *)
Lemma Decide_ended s past c : Ended s = true → Changed (Decide s past c) = false.
Proof. by destruct s, past, c. Qed.

(** What is given back was held, and is not held afterwards; a refusal or a conflict
    never changes anything. *)
Lemma Decide_gives_back s past c :
  Res (Decide s past c) = GivesBack →
  holding s = true ∧ holding (To (Decide s past c)) = false ∧ Changed (Decide s past c) = true.
Proof. by destruct s, past, c. Qed.

Lemma Decide_refused_unchanged s past c :
  Refused (Decide s past c) ≠ None ∨ Conflict (Decide s past c) = true →
  Changed (Decide s past c) = false ∧ To (Decide s past c) = s.
Proof. destruct s, past, c; simpl; intuition congruence. Qed.

(** A branch stops holding only by giving back or by being consumed. *)
Lemma Decide_stops_holding s past c :
  holding s = true → holding (To (Decide s past c)) = false →
  Res (Decide s past c) = GivesBack ∨ (Res (Decide s past c) = Consumes ∧ c = OnConsumeExact).
Proof. destruct s, past, c; simpl; intuition congruence. Qed.
