(* ===== verification/Reserve.v ===== *)
(** * Reservation participant: the commands

    [reserve/reserve.go]: [Hold], [Confirm], [Cancel], [Query], [Consume] as code that
    runs in the component's transaction over the tables [be_reserve_branch] and
    [be_reserve_consumption], and [ExpireDue], the expiry job.

    The store also keeps a ghost list of the row and resource locks taken, newest first,
    for the lock order. Branch IDs are in the text form the database gives back. *)
From S2P Require Import Prelude Lifecycle.
Open Scope tx_scope.

Inductive error (E : Type) :=
| ErrKind                    (** a branch ID stored under another kind *)
| ErrNull                    (** a NULL scanned into a boolean *)
| ErrUnique                  (** the primary key of [be_reserve_consumption] *)
| ErrComp (e : E).           (** the component's own *)
Arguments ErrKind {E}.
Arguments ErrNull {E}.
Arguments ErrUnique {E}.
Arguments ErrComp {E} e.

(** What the runtime keeps of a branch, as the commands answer it. *)
Record Branch := mkBranch {
  ID : string;
  bKind : string;
  bState : State;
  bReason : string;
  bDigest : string;
  bHoldExpiresAt : option Z;
  bConfirmedAt : option Z;
  bVersion : Z;
  bCreatedAt : Z;
  bUpdatedAt : Z;
  bpast : bool
}.

Record Answer := mkAnswer {
  aBranch : Branch;
  aConflict : bool;
  aRefused : option Refusal;
  aRepeated : bool
}.

(** One row of [be_reserve_branch]; nullable columns are options. *)
Record row := mkRow {
  r_kind : string;
  r_state : State;
  r_reason : option string;
  r_digest : option string;
  r_hold_expires_at : option Z;
  r_confirmed_at : option Z;
  r_version : Z;
  r_created_at : Z;
  r_updated_at : Z
}.

Inductive lockev := ResLock (id : string) | RowLock (id : string).

Record store (C : Type) := mkStore {
  branches : gmap string row;
  consumptions : gmap string (string * string);  (** id to (branch_id, content_digest) *)
  locks : list lockev;
  clock : Z;                                     (** the database's [now()] *)
  comp : C                                       (** the component's own tables *)
}.
Arguments mkStore {C}.
Arguments branches {C}.
Arguments consumptions {C}.
Arguments locks {C}.
Arguments clock {C}.
Arguments comp {C}.

(** One participation of a component: the functions it passes to the runtime. *)
Record Kind (C E : Type) := mkKind {
  Name : string;
  Period : Z;
  Lock : string → tx C E unit;
  GiveBack : Branch → tx C E unit;
  Publish : Branch → tx C E unit     (** the source's [Changed] *)
}.
Arguments mkKind {C E}.
Arguments Name {C E}.
Arguments Period {C E}.
Arguments Lock {C E}.
Arguments GiveBack {C E}.
Arguments Publish {C E}.

(** [enough] and the reason why not. *)
Definition Take (C E : Type) : Type := tx C E (bool * string).
(** [left] and [beyond]. *)
Definition Use (C E : Type) : Type := Branch → tx C E (bool * bool).

Section commands.
Context {C E : Type}.
(** The column defaults of the table, which the protocol's migration declares. *)
Context (version0 : Z) (created0 updated0 : Z → Z).

#[local] Abbreviation M := (tx (store C) (error E)).

Definition set_branches (f : gmap string row → gmap string row) (s : store C) : store C :=
  mkStore (f (branches s)) (consumptions s) (locks s) (clock s) (comp s).
Definition set_consumptions (f : gmap string (string * string) → gmap string (string * string))
    (s : store C) : store C :=
  mkStore (branches s) (f (consumptions s)) (locks s) (clock s) (comp s).
Definition add_lock (l : lockev) (s : store C) : store C :=
  mkStore (branches s) (consumptions s) (l :: locks s) (clock s) (comp s).
Definition set_comp (c : C) (s : store C) : store C :=
  mkStore (branches s) (consumptions s) (locks s) (clock s) c.

(** Run a function of the component on its own tables. *)
Definition call {A} (f : tx C E A) : M A :=
  λ s, match f (comp s) with
       | Ok (a, c) => Ok (a, set_comp c s)
       | Err e => Err (ErrComp e)
       end.

(** [Kind.Lock], which takes the locks of the branch's resources. *)
Definition callLock (k : Kind C E) (id : string) : M unit :=
  call (Lock k id) ;~ tmod (add_lock (ResLock id)).

(** [state = 'held' AND hold_expires_at <= now()] in three-valued logic. *)
Definition pastCol (r : row) (now : Z) : option bool :=
  if decide (r_state r = Held)
  then match r_hold_expires_at r with Some t => Some (bool_decide (t ≤ now)) | None => None end
  else Some false.

(** The columns of the source's [cols]. *)
Definition scan (id : string) (r : row) (now : Z) : option Branch :=
  match pastCol r now with
  | Some p => Some (mkBranch id (r_kind r) (r_state r) (default ""%string (r_reason r))
      (default ""%string (r_digest r)) (r_hold_expires_at r) (r_confirmed_at r) (r_version r)
      (r_created_at r) (r_updated_at r) p)
  | None => None
  end.

Definition absent (k : Kind C E) (id : string) : Branch :=
  mkBranch id (Name k) Absent "" "" None None 0 0 0 false.

Definition read (k : Kind C E) (id : string) (lock : bool) : M Branch :=
  s <~ tget;
  match branches s !! id with
  | None => tret (absent k id)
  | Some r =>
      (if lock then tmod (add_lock (RowLock id)) else tret tt) ;~
      match scan id r (clock s) with
      | None => tfail ErrNull
      | Some b => if decide (r_kind r ≠ Name k) then tfail ErrKind else tret b
      end
  end.

(** The [UPDATE] of [move]. *)
Definition moveRow (to : State) (now : Z) (r : row) : row :=
  mkRow (r_kind r) to (r_reason r) (r_digest r)
    (if decide (to = Held) then r_hold_expires_at r else None)
    (if decide (to = Committed)
     then match r_confirmed_at r with None => Some now | Some t => Some t end
     else r_confirmed_at r)
    (r_version r + 1) (r_created_at r) now.

Definition move (k : Kind C E) (id : string) (to : State) : M Branch :=
  s <~ tget;
  tmod (set_branches (alter (moveRow to (clock s)) id)) ;~
  b <~ read k id false;
  call (Publish k b) ;~
  tret b.

Definition apply (k : Kind C E) (b : Branch) (d : Decision) : M Answer :=
  (if decide (Res d = GivesBack) then call (GiveBack k b) else tret tt) ;~
  if negb (Changed d) then tret (mkAnswer b (Conflict d) (Refused d) false)
  else
    after <~ move k (ID b) (To d);
    tret (mkAnswer after false None false).

Definition locked (k : Kind C E) (id : string) : M Branch :=
  b <~ read k id false;
  if decide (bState b = Absent) then tret b
  else callLock k id ;~ read k id true.

(** [INSERT ... ON CONFLICT (id) DO NOTHING]; the answer is [RowsAffected() = 1]. *)
Definition insertBranch (id : string) (r : row) : M bool :=
  s <~ tget;
  match branches s !! id with
  | Some _ => tret false
  | None => tmod (set_branches (insert id r)) ;~ tret true
  end.

(** The row [Hold] inserts first. *)
Definition newHeld (k : Kind C E) (digest : string) (now : Z) : row :=
  mkRow (Name k) Held None (Some digest) None None version0 (created0 now) (updated0 now).

(** The [UPDATE] of [Hold], once the component has answered. *)
Definition holdRow (to : State) (why : option string) (period now : Z) (r : row) : row :=
  mkRow (r_kind r) to why (r_digest r)
    (if decide (to = Held) then Some (now + period) else None)
    (r_confirmed_at r) (r_version r) (r_created_at r) (r_updated_at r).

Definition Hold (k : Kind C E) (id digest : string) (take : Take C E) : M Answer :=
  s <~ tget;
  fresh <~ insertBranch id (newHeld k digest (clock s));
  if negb fresh then
    b <~ read k id true;
    let c := if decide (bDigest b = digest) then OnHoldSame else OnHoldOther in
    let d := Decide (bState b) (bpast b) c in
    tret (mkAnswer b (Conflict d) None (negb (Conflict d)))
  else
    '(enough, reason) <~ call take;
    let c := if enough : bool then OnHoldEnough else OnHoldShort in
    let d := Decide Absent false c in
    let why := if negb enough && bool_decide (reason ≠ ""%string) then Some reason else None in
    tmod (set_branches (alter (holdRow (To d) why (Period k) (clock s)) id)) ;~
    b <~ read k id false;
    call (Publish k b) ;~
    tret (mkAnswer b false None false).

Definition Confirm (k : Kind C E) (id : string) : M Answer :=
  b <~ locked k id;
  if decide (bState b = Absent) then tret (mkAnswer b false None false)
  else apply k b (Decide (bState b) (bpast b) OnConfirm).

(** The tombstone [Cancel] inserts. *)
Definition tombstone (k : Kind C E) (now : Z) : row :=
  mkRow (Name k) Cancelled None None None None version0 (created0 now) (updated0 now).

Definition Cancel (k : Kind C E) (id : string) : M Answer :=
  s <~ tget;
  fresh <~ insertBranch id (tombstone k (clock s));
  if fresh : bool then
    b <~ read k id false;
    call (Publish k b) ;~
    tret (mkAnswer b false None false)
  else
    b <~ locked k id;
    apply k b (Decide (bState b) (bpast b) OnCancel).

Definition Query (k : Kind C E) (id : string) : M Answer :=
  b <~ read k id false;
  tret (mkAnswer b false None false).

(** [INSERT INTO be_reserve_consumption], whose primary key is the consumption ID. *)
Definition insertConsumption (consumption id digest : string) : M unit :=
  s <~ tget;
  match consumptions s !! consumption with
  | Some _ => tfail ErrUnique
  | None => tmod (set_consumptions (insert consumption (id, digest)))
  end.

Definition Consume (k : Kind C E) (id consumption digest : string) (use : Use C E) : M Answer :=
  s <~ tget;
  match consumptions s !! consumption with
  | Some (usedBranch, usedDigest) =>
      b <~ read k id false;
      let c := if decide (usedBranch = id ∧ usedDigest = digest)
               then OnConsumeUsedSame else OnConsumeUsedOther in
      let d := Decide (bState b) (bpast b) c in
      tret (mkAnswer b (Conflict d) None (negb (Conflict d)))
  | None =>
      b <~ locked k id;
      match Refused (Decide (bState b) (bpast b) OnConsumeWithin) with
      | Some r => tret (mkAnswer b false (Some r) false)
      | None =>
          '(rest, beyond) <~ call (use b);
          let c := if beyond : bool then OnConsumeBeyond
                   else if rest : bool then OnConsumeWithin else OnConsumeExact in
          let d := Decide (bState b) (bpast b) c in
          match Refused d with
          | Some r => tret (mkAnswer b false (Some r) false)
          | None => insertConsumption consumption id digest ;~ apply k b d
          end
      end
  end.

(** ** The expiry job *)

(** One branch of the batch, in its own transaction, judged again under the lock. *)
Definition expireOne (k : Kind C E) (id : string) : M unit :=
  b <~ locked k id;
  if decide (bState b = Absent) then tret tt
  else apply k b (Decide (bState b) (bpast b) OnExpire) ;~ tret tt.

Definition isDue (k : Kind C E) (now : Z) (r : row) : bool :=
  bool_decide (r_kind r = Name k) && bool_decide (r_state r = Held) &&
  match r_hold_expires_at r with Some t => bool_decide (t ≤ now) | None => false end.

Definition expiry (r : row) : Z := default 0 (r_hold_expires_at r).
Definition byExpiry (x y : string * row) : Prop := expiry x.2 ≤ expiry y.2.
#[local] Instance byExpiry_dec : RelDecision byExpiry.
Proof. intros x y. unfold byExpiry. apply _. Defined.

(** The job's [SELECT]: held and past, by expiry, at most [batch]. *)
Definition dueBatch (batch : nat) (k : Kind C E) (s : store C) : list string :=
  take batch (merge_sort byExpiry
    (filter (λ x, isDue k (clock s) x.2 = true) (map_to_list (branches s)))).*1.

(** What happens to the store before the job's n-th transaction: time passes and other
    commands run, each whole. *)
Notation meanwhile := (nat → store C → store C).

(** The loop over a batch, from the job's n-th transaction on; an error ends it. *)
Fixpoint expireAll (others : meanwhile) (n : nat) (k : Kind C E) (ids : list string) (s : store C) : res (error E) unit * store C :=
  match ids with
  | [] => (Ok tt, s)
  | id :: ids =>
      match commit (expireOne k id) (others n s) with
      | (Ok _, s') => expireAll others (S n) k ids s'
      | (Err e, s') => (Err e, s')
      end
  end.

Definition batch : nat := 100.

(** The outer loop, from the job's n-th transaction on; [None] when the fuel runs out. *)
Fixpoint ExpireDue (fuel : nat) (others : meanwhile) (n : nat) (k : Kind C E) (s : store C) : option (res (error E) unit * store C) :=
  match fuel with
  | O => None
  | S fuel =>
      let s := others n s in
      let due := dueBatch batch k s in
      match expireAll others (S n) k due s with
      | (Err e, s') => Some (Err e, s')
      | (Ok _, s') =>
          if decide (length due < batch)%nat then Some (Ok tt, s')
          else ExpireDue fuel others (S n + length due) k s'
      end
  end.

End commands.
