(* ===== verification/ReserveSpec.v ===== *)
(** * Reservation participant: what a command does

    The commands of [Reserve] as labelled transitions, an abstract description of the
    effect of each on the tables and on the component, and the refinement lemma that
    every successful command has one of those effects. *)
From S2P Require Import Prelude Lifecycle Reserve.
Open Scope tx_scope.

Section spec.
Context {C E : Type}.
Context (version0 : Z) (created0 updated0 : Z → Z).
Context (k : Kind C E).

#[local] Abbreviation M := (tx (store C) (error E)).
#[local] Abbreviation Hold := (Hold version0 created0 updated0 (C:=C) (E:=E)).
#[local] Abbreviation Cancel := (Cancel version0 created0 updated0 (C:=C) (E:=E)).

(** A command on a branch, with the functions only the command knows. *)
Inductive cmd :=
| CHold (id digest : string) (take : Take C E)
| CConfirm (id : string)
| CCancel (id : string)
| CQuery (id : string)
| CConsume (id consumption digest : string) (use : Use C E)
| CExpire (id : string).

Definition target (c : cmd) : string :=
  match c with
  | CHold id _ _ | CConfirm id | CCancel id | CQuery id | CConsume id _ _ _ | CExpire id => id
  end.

Definition void {A} (m : M A) : M unit := m ;~ tret tt.

Definition exec (c : cmd) : M unit :=
  match c with
  | CHold id digest take => void (Hold k id digest take)
  | CConfirm id => void (Confirm k id)
  | CCancel id => void (Cancel k id)
  | CQuery id => void (Query k id)
  | CConsume id consumption digest use => void (Consume k id consumption digest use)
  | CExpire id => expireOne k id
  end.

Definition state_of (s : store C) (id : string) : State :=
  match branches s !! id with None => Absent | Some r => r_state r end.

(** ** Lemmas on the steps the commands are made of *)

(** Everything but the ghost locks is the same. *)
Definition same_tables (s s' : store C) : Prop :=
  branches s' = branches s ∧ consumptions s' = consumptions s ∧ clock s' = clock s.

(** What a successful read saw. *)
Definition saw (s : store C) (id : string) (b : Branch) : Prop :=
  (branches s !! id = None ∧ b = absent k id) ∨
  (∃ r, branches s !! id = Some r ∧ r_kind r = Name k ∧ scan id r (clock s) = Some b).

Lemma scan_fields id r now b : scan id r now = Some b →
  ID b = id ∧ bState b = r_state r ∧ bVersion b = r_version r ∧
  bDigest b = default ""%string (r_digest r) ∧ pastCol r now = Some (bpast b).
Proof. unfold scan. destruct (pastCol r now) eqn:?; intros ?; simplify_eq/=; eauto 10. Qed.

Lemma read_ok id lock s b s' : read k id lock s = Ok (b, s') →
  same_tables s s' ∧ comp s' = comp s ∧ saw s id b.
Proof.
  unfold read, same_tables, saw. intros H. inv_tx.
  destruct (branches s !! id) as [r|] eqn:Hr; inv_tx; [|eauto 10].
  destruct lock; inv_tx; destruct (scan id r _) eqn:Hs; inv_tx;
    destruct (decide _) as [|Hk] in *; inv_tx; apply dec_stable in Hk; eauto 10.
Qed.

Lemma call_ok {A} (f : tx C E A) s a s' : call f s = Ok (a, s') →
  ∃ c, f (comp s) = Ok (a, c) ∧ s' = set_comp c s.
Proof. unfold call. destruct (f (comp s)) as [[? c]|] eqn:?; intros; simplify_eq/=; eauto. Qed.

Lemma saw_state s id b : saw s id b → ID b = id ∧ bState b = state_of s id.
Proof.
  unfold saw, state_of. intros [[-> ->]|(r & -> & _ & Hs)]; [done|].
  by apply scan_fields in Hs as (? & ? & _).
Qed.

(** A stored branch is never [Absent]: the state of a row is one of [States]. *)
Definition stored_ok (s : store C) : Prop :=
  ∀ id r, branches s !! id = Some r → r_state r ≠ Absent.

Lemma saw_present s id b : saw s id b → bState b ≠ Absent →
  ∃ r, branches s !! id = Some r ∧ r_kind r = Name k ∧ scan id r (clock s) = Some b.
Proof. intros [[_ ->]|Hr] H; [by destruct H|exact Hr]. Qed.

(** [locked]: an absent branch leaves everything; a present one locks its resources. *)
Lemma locked_ok id s b s' : locked k id s = Ok (b, s') →
  same_tables s s' ∧ saw s id b ∧
  (comp s' = comp s ∨ Lock k id (comp s) = Ok (tt, comp s')) ∧
  (bState b ≠ Absent → Lock k id (comp s) = Ok (tt, comp s')).
Proof.
  unfold locked, callLock. intros H. inv_tx.
  apply read_ok in Hrun as (Ht & Hc & Hs).
  destruct (decide _) as [Ha|Ha] in H; inv_tx.
  - split_and!; auto. done.
  - apply call_ok in Hrun as (c & Hl & ->). apply read_ok in H as (Ht' & Hc' & Hs').
    destruct v0. unfold same_tables, saw in *. simpl in *. rewrite Hc in Hl.
    destruct Ht as (Hb & Hcons & Hclk), Ht' as (Hb' & Hcons' & Hclk').
    rewrite Hb, Hclk in Hs'. rewrite Hc'. split_and!; intuition congruence.
Qed.

Lemma alter_insert_row (f : row → row) id r (m : gmap string row) :
  m !! id = Some r → alter f id m = <[id := f r]> m.
Proof.
  intros Hr. apply map_eq. intros j. destruct (decide (j = id)) as [->|Hj].
  - by rewrite lookup_alter_eq, lookup_insert_eq, Hr.
  - by rewrite lookup_alter_ne, lookup_insert_ne.
Qed.

(** [move] rewrites the row and publishes it. *)
Lemma move_ok id to s b' s' r : branches s !! id = Some r →
  move k id to s = Ok (b', s') →
  branches s' = <[id := moveRow to (clock s) r]> (branches s) ∧
  consumptions s' = consumptions s ∧ clock s' = clock s ∧
  scan id (moveRow to (clock s) r) (clock s) = Some b' ∧
  Publish k b' (comp s) = Ok (tt, comp s').
Proof.
  unfold move. intros Hr H. inv_tx.
  apply read_ok in Hrun as ((Hb & Hcons & Hclk) & Hc & Hs).
  apply call_ok in Hrun0 as (c & Hp & ->). destruct v0.
  unfold saw in Hs. simpl in *.
  rewrite (alter_insert_row _ _ _ _ Hr) in *.
  destruct Hs as [[Hn _]|(r' & Hl & _ & Hscan)]; simpl in *;
    rewrite lookup_insert_eq in *; simplify_eq.
  split_and!; congruence.
Qed.

(** [apply] on a stored branch: nothing, or what the decision orders. *)
Lemma apply_ok b d s a s' r : branches s !! ID b = Some r →
  (Changed d = false → Res d ≠ GivesBack) →
  apply k b d s = Ok (a, s') →
  (Changed d = false ∧ s' = s ∧ a = mkAnswer b (Conflict d) (Refused d) false) ∨
  (Changed d = true ∧ ∃ c1 b',
    (if decide (Res d = GivesBack) then GiveBack k b (comp s) = Ok (tt, c1) else c1 = comp s) ∧
    branches s' = <[ID b := moveRow (To d) (clock s) r]> (branches s) ∧
    consumptions s' = consumptions s ∧ clock s' = clock s ∧
    scan (ID b) (moveRow (To d) (clock s) r) (clock s) = Some b' ∧
    Publish k b' c1 = Ok (tt, comp s') ∧ a = mkAnswer b' false None false).
Proof.
  unfold apply. intros Hr Hch H.
  destruct (Changed d) eqn:Hd; simpl in H.
  - right. split; [done|].
    destruct (decide (Res d = GivesBack)) as [Hg|Hg]; inv_tx.
    + apply call_ok in Hrun as (c & Hgb & ->). destruct v.
      destruct (move_ok _ _ (set_comp c s) _ _ _ Hr Hrun0) as (? & ? & ? & ? & ?). simpl in *. eauto 15.
    + destruct (move_ok _ _ _ _ _ _ Hr Hrun) as (? & ? & ? & ? & ?). eauto 15.
  - left. destruct (decide (Res d = GivesBack)) as [Hg|Hg]; [by destruct Hch|]. inv_tx. eauto.
Qed.

(** ** The effect of a command

    [effect c s s']: what a successful run of [c] made of the store. Every way a command
    can succeed is one constructor, with the component's functions it called in order. *)
Inductive effect : cmd → store C → store C → Prop :=
| eff_stay c s s' :
    same_tables s s' →
    (comp s' = comp s ∨ Lock k (target c) (comp s) = Ok (tt, comp s')) →
    effect c s s'
| eff_hold id digest take enough why r b c1 s s' :
    branches s !! id = None →
    take (comp s) = Ok ((enough, why), c1) →
    r_kind r = Name k → r_version r = version0 → r_digest r = Some digest →
    r_state r = (if enough : bool then Held else Rejected) →
    r_hold_expires_at r = (if enough then Some (clock s + Period k) else None) →
    scan id r (clock s) = Some b →
    Publish k b c1 = Ok (tt, comp s') →
    branches s' = <[id := r]> (branches s) →
    consumptions s' = consumptions s → clock s' = clock s →
    effect (CHold id digest take) s s'
| eff_tombstone id r b s s' :
    branches s !! id = None →
    r_kind r = Name k → r_version r = version0 → r_state r = Cancelled →
    scan id r (clock s) = Some b →
    Publish k b (comp s) = Ok (tt, comp s') →
    branches s' = <[id := r]> (branches s) →
    consumptions s' = consumptions s → clock s' = clock s →
    effect (CCancel id) s s'
| eff_beyond id consumption digest use rest b c1 s s' :
    same_tables s s' →
    state_of s id = Committed → ID b = id →
    Lock k id (comp s) = Ok (tt, c1) →
    use b c1 = Ok ((rest, true), comp s') →
    effect (CConsume id consumption digest use) s s'
| eff_consume id consumption digest use rest r b b' c1 c2 s s' :
    branches s !! id = Some r → r_kind r = Name k → r_state r = Committed →
    scan id r (clock s) = Some b →
    consumptions s !! consumption = None →
    Lock k id (comp s) = Ok (tt, c1) →
    use b c1 = Ok ((rest, false), c2) →
    let to := if rest : bool then Committed else Consumed in
    branches s' = <[id := moveRow to (clock s) r]> (branches s) →
    consumptions s' = <[consumption := (id, digest)]> (consumptions s) → clock s' = clock s →
    scan id (moveRow to (clock s) r) (clock s) = Some b' →
    Publish k b' c2 = Ok (tt, comp s') →
    effect (CConsume id consumption digest use) s s'
| eff_move c r b b' c1 c2 ev s s' :
    branches s !! target c = Some r → r_kind r = Name k →
    scan (target c) r (clock s) = Some b →
    match c with CConfirm _ => ev = OnConfirm | CCancel _ => ev = OnCancel
               | CExpire _ => ev = OnExpire | _ => False end →
    let d := Decide (r_state r) (bpast b) ev in
    Changed d = true →
    Lock k (target c) (comp s) = Ok (tt, c1) →
    (if decide (Res d = GivesBack) then GiveBack k b c1 = Ok (tt, c2) else c2 = c1) →
    branches s' = <[target c := moveRow (To d) (clock s) r]> (branches s) →
    consumptions s' = consumptions s → clock s' = clock s →
    scan (target c) (moveRow (To d) (clock s) r) (clock s) = Some b' →
    Publish k b' c2 = Ok (tt, comp s') →
    effect c s s'.

(** The commands that lock, decide and apply. *)
Lemma locked_apply_effect c ev b s s1 a s' :
  stored_ok s →
  match c with CConfirm _ => ev = OnConfirm | CCancel _ => ev = OnCancel
             | CExpire _ => ev = OnExpire | _ => False end →
  locked k (target c) s = Ok (b, s1) → bState b ≠ Absent →
  apply k b (Decide (bState b) (bpast b) ev) s1 = Ok (a, s') →
  effect c s s'.
Proof.
  intros Hst Hev Hl Hb Ha.
  apply locked_ok in Hl as ((Hbr & Hcons & Hclk) & Hsaw & _ & Hlock).
  destruct (saw_present _ _ _ Hsaw Hb) as (r & Hr & Hk & Hscan).
  pose proof (scan_fields _ _ _ _ Hscan) as (HID & HS & _).
  destruct (apply_ok b (Decide (bState b) (bpast b) ev) s1 a s' r) as
    [(Hch & -> & ->)|(Hch & c1 & b' & Hg & Hbr' & Hcons' & Hclk' & Hscan' & Hpub & ->)]; auto.
  - by rewrite HID, Hbr.
  - pose proof (Decide_gives_back (bState b) (bpast b) ev) as Hgb. intros Hf Hg.
    rewrite Hf in Hgb. by destruct Hgb as (_ & _ & ?).
  - apply eff_stay; [done|]. right. auto.
  - rewrite HID, Hclk, HS in *. rewrite Hbr in Hbr'.
    eapply (eff_move c r b b' (comp s1) c1 ev); eauto; try congruence.
Qed.

Lemma Hold_effect id digest take s a s' : stored_ok s →
  Hold k id digest take s = Ok (a, s') → effect (CHold id digest take) s s'.
Proof.
  unfold Reserve.Hold, insertBranch. intros Hst H. inv_tx.
  destruct (branches s !! id) as [r|] eqn:Hr; inv_tx.
  - apply read_ok in Hrun as (Ht & Hc & _). apply eff_stay; auto.
  - destruct v as [enough reason]. inv_tx.
    apply call_ok in Hrun as (c1 & Htake & ->).
    apply read_ok in Hrun0 as ((Hb & Hcons & Hclk) & Hc & Hsaw).
    apply call_ok in Hrun1 as (c2 & Hpub & ->). destruct v0.
    unfold saw in Hsaw. simpl in *.
    rewrite (alter_insert_row _ _ (newHeld version0 created0 updated0 k digest (clock s))),
      insert_insert_eq in * by apply lookup_insert_eq.
    destruct Hsaw as [[Hn _]|(r & Hl & _ & Hscan)]; simpl in *;
      rewrite lookup_insert_eq in *; simplify_eq.
    eapply eff_hold; eauto; simpl; by destruct enough.
Qed.

Lemma Cancel_effect id s a s' : stored_ok s →
  Cancel k id s = Ok (a, s') → effect (CCancel id) s s'.
Proof.
  unfold Reserve.Cancel, insertBranch. intros Hst H. inv_tx.
  destruct (branches s !! id) as [r|] eqn:Hr; inv_tx.
  - eapply (locked_apply_effect (CCancel id)); eauto.
    apply locked_ok in Hrun as (_ & Hsaw & _). destruct (saw_state _ _ _ Hsaw) as [_ ->].
    unfold state_of. rewrite Hr. eauto.
  - apply read_ok in Hrun as ((Hb & Hcons & Hclk) & Hc & Hsaw).
    apply call_ok in Hrun0 as (c2 & Hpub & ->). destruct v0. simpl in *.
    destruct Hsaw as [[Hn _]|(r & Hl & _ & Hscan)]; simpl in *;
      rewrite lookup_insert_eq in *; simplify_eq. rewrite Hc in Hpub.
    eapply eff_tombstone; eauto; done.
Qed.

Lemma Consume_effect id consumption digest use s a s' : stored_ok s →
  Consume k id consumption digest use s = Ok (a, s') →
  effect (CConsume id consumption digest use) s s'.
Proof.
  unfold Consume, insertConsumption. intros Hst H. inv_tx.
  destruct (consumptions s !! consumption) as [[ub ud]|] eqn:Hcon; inv_tx.
  { apply read_ok in Hrun as (Ht & Hc & _). apply eff_stay; auto. }
  apply locked_ok in Hrun as ((Hb & Hcons & Hclk) & Hsaw & Hl & Hl').
  destruct (Refused (Decide (bState v) (bpast v) OnConsumeWithin)) eqn:Href; inv_tx.
  { by apply eff_stay. }
  destruct v0 as [rest beyond].
  assert (bState v = Committed) as HC by (destruct (bState v); done).
  destruct (saw_present _ _ _ Hsaw) as (r & Hr & Hk & Hscan); [by rewrite HC|].
  pose proof (scan_fields _ _ _ _ Hscan) as (HID & HS & _).
  apply call_ok in Hrun as (c2 & Huse & ->). rewrite HC in H.
  destruct beyond; simpl in H; inv_tx.
  { eapply eff_beyond; eauto; [done|..].
    - unfold state_of. rewrite Hr. congruence.
    - apply Hl'. by rewrite HC. }
  assert (∀ d, d = Decide Committed (bpast v) (if rest then OnConsumeWithin else OnConsumeExact) →
    Refused d = None ∧ Changed d = true ∧ Res d = Consumes ∧
    To d = if rest then Committed else Consumed) as Hd by (by intros ? ->; destruct rest).
  destruct (Hd _ eq_refl) as (Hd1 & Hd2 & Hd3 & Hd4). rewrite Hd1 in H. inv_tx.
  simpl in Hrun. rewrite Hcons, Hcon in Hrun. inv_tx.
  eapply apply_ok in H; [|simpl; rewrite Hb; exact Hr|by rewrite Hd2].
  rewrite Hd2, Hd3 in H. destruct H as [[??]|(_ & c1 & b' & -> & Hbr & Hcn & Hck & Hsc & Hpub & ->)]; [done|].
  simpl in *. rewrite Hd4, ?Hb, ?Hcons, ?Hclk in *.
  eapply eff_consume; eauto; try congruence. apply Hl'. by rewrite HC.
Qed.

(** Every command that succeeds has one of the effects above. *)
Lemma exec_effect c s u s' : stored_ok s → exec c s = Ok (u, s') → effect c s s'.
Proof.
  intros Hst H. destruct c; simpl in H; unfold void in H; inv_tx.
  - eapply Hold_effect; eauto.
  - unfold Confirm in Hrun. inv_tx. destruct (decide _) as [Ha|Ha] in Hrun; inv_tx.
    + apply locked_ok in Hrun0 as (Ht & _ & Hl & _). by apply eff_stay.
    + eapply (locked_apply_effect (CConfirm id)); eauto.
  - eapply Cancel_effect; eauto.
  - unfold Query in Hrun. inv_tx. apply read_ok in Hrun0 as (Ht & Hc & _). apply eff_stay; auto.
  - eapply Consume_effect; eauto.
  - unfold expireOne in H. inv_tx. destruct (decide _) as [Ha|Ha] in H; inv_tx.
    + apply locked_ok in Hrun as (Ht & _ & Hl & _). by apply eff_stay.
    + eapply (locked_apply_effect (CExpire id)); eauto.
Qed.
End spec.
