(* ===== verification/ReserveProps.v ===== *)
(** * Reservation participant: properties

    What holds of a branch under any sequence of commands (its life, the end of it, the
    idempotency of consumptions, the lock order, the expiry job), and what a component
    gains: against the interface [Owner] of a resource owner, no sequence of commands
    loses, duplicates or oversells the resource. *)
From S2P Require Import Prelude Lifecycle Reserve ReserveSpec.
Open Scope tx_scope.

(** ** A finite map of amounts *)

Definition map_sum (m : gmap string Z) : Z := sumZ snd (map_to_list m).
Definition amount (m : gmap string Z) (id : string) : Z := default 0 (m !! id).

Lemma map_sum_insert m id x : map_sum (<[id := x]> m) = map_sum m - amount m id + x.
Proof.
  unfold map_sum, amount. rewrite <- (insert_delete_eq m id x).
  rewrite (sumZ_perm _ _ _ (map_to_list_insert (delete id m) id x (lookup_delete_eq _ _))).
  destruct (m !! id) as [y|] eqn:Hy; simpl.
  - rewrite <- (sumZ_perm _ _ _ (map_to_list_delete m id y Hy)). simpl. lia.
  - rewrite delete_id by done. lia.
Qed.

Lemma amount_insert_eq m id x : amount (<[id := x]> m) id = x.
Proof. unfold amount. by rewrite lookup_insert_eq. Qed.
Lemma amount_insert_ne m id j x : id ≠ j → amount (<[id := x]> m) j = amount m j.
Proof. unfold amount. intros. by rewrite lookup_insert_ne. Qed.

(** ** The interface of a resource owner

    What a component promises to the runtime: how much is [free], how much each branch
    still holds, how much was consumed, and how its functions move these. *)
Class Owner {C E : Type} (k : Kind C E) := {
  free : C → Z;
  held : C → gmap string Z;
  used : C → Z;
  lock_law id c c' : Lock k id c = Ok (tt, c') →
    free c' = free c ∧ held c' = held c ∧ used c' = used c;
  publish_law b c c' : Publish k b c = Ok (tt, c') →
    free c' = free c ∧ held c' = held c ∧ used c' = used c;
  giveback_law b c c' : GiveBack k b c = Ok (tt, c') →
    free c' = free c + amount (held c) (ID b) ∧
    held c' = <[ID b := 0]> (held c) ∧ used c' = used c
}.

Section owner.
Context {C E : Type} (k : Kind C E) {O : Owner k}.

(** A hold's function takes all of its content, never more than is free, or nothing. *)
Definition take_law (id : string) (t : Take C E) : Prop :=
  ∀ c enough why c', t c = Ok ((enough, why), c') →
    used c' = used c ∧
    if enough : bool then
      ∃ q, 0 ≤ q ≤ free c ∧ free c' = free c - q ∧ held c' = <[id := amount (held c) id + q]> (held c)
    else free c' = free c ∧ held c' = held c.

(** A consumption's function takes some of what the branch holds off it, all of it when
    nothing is left; beyond what is left it takes nothing. *)
Definition use_law (id : string) (u : Use C E) : Prop :=
  ∀ b c rest beyond c', ID b = id → u b c = Ok ((rest, beyond), c') →
    free c' = free c ∧
    if beyond : bool then held c' = held c ∧ used c' = used c
    else ∃ q, 0 ≤ q ≤ amount (held c) id ∧ used c' = used c + q ∧
      held c' = <[id := amount (held c) id - q]> (held c) ∧
      (rest = false → q = amount (held c) id).

Definition lawful (c : cmd (C:=C) (E:=E)) : Prop :=
  match c with
  | CHold id _ t => take_law id t
  | CConsume id _ _ u => use_law id u
  | _ => True
  end.

Definition total (c : C) : Z := free c + map_sum (held c) + used c.

(** Nothing is oversold, and only a held or committed branch holds anything. *)
Record sound (s : store C) : Prop := {
  sound_stored : stored_ok s;
  sound_free : 0 ≤ free (comp s);
  sound_held id : 0 ≤ amount (held (comp s)) id;
  sound_holds id : amount (held (comp s)) id ≠ 0 → holding (state_of s id) = true
}.

End owner.

(** ** Runs *)

Section runs.
Context {C E : Type}.
Context (version0 : Z) (created0 updated0 : Z → Z).
Context (k : Kind C E).

#[local] Abbreviation exec := (exec version0 created0 updated0 k).
#[local] Abbreviation effect := (effect version0 k).

(** What happens to the store: a command in its transaction (an error rolls back), or
    time passing. *)
Inductive label := LCmd (c : cmd (C:=C) (E:=E)) | LTick (d : Z).

Definition tick (d : Z) (s : store C) : store C :=
  mkStore (branches s) (consumptions s) (locks s) (clock s + d) (comp s).

Definition lstep (l : label) (s : store C) : store C :=
  match l with LCmd c => after (exec c) s | LTick d => tick d s end.

Fixpoint run (ls : list label) (s : store C) : store C :=
  match ls with [] => s | l :: ls => run ls (lstep l s) end.

(** A predicate every effect and every tick keeps holds of every run. *)
Lemma run_invariant (P : store C → Prop) (allow : cmd (C:=C) (E:=E) → Prop) :
  (∀ s, P s → stored_ok s) →
  (∀ c s s', allow c → P s → effect c s s' → P s') →
  (∀ d s, P s → P (tick d s)) →
  ∀ ls s, Forall (λ l, match l with LCmd c => allow c | LTick _ => True end) ls →
    P s → P (run ls s).
Proof.
  intros Hst Heff Htick ls. induction ls as [|l ls IH]; intros s Hall HP; simpl; [done|].
  apply Forall_cons in Hall as [Hl Hall]. apply IH; [done|].
  destruct l as [c|d]; simpl; [|auto].
  destruct (after_cases (exec c) s) as [->|(u & s' & Hx & ->)]; [done|].
  eapply Heff; eauto. eapply exec_effect; eauto.
Qed.

(** What one effect makes of one branch. *)
Lemma effect_branch c s s' id : stored_ok s → effect c s s' →
  branches s' !! id = branches s !! id ∨
  (id = target c ∧ moves (state_of s id) (state_of s' id) ∧
   ∃ r', branches s' !! id = Some r' ∧ r_kind r' = Name k ∧
     match branches s !! id with
     | None => r_version r' = version0
     | Some r => r_version r' = r_version r + 1 ∧ r_kind r = Name k ∧ r_digest r' = r_digest r
     end ∧
     ∃ b c2, scan id r' (clock s') = Some b ∧ Publish k b c2 = Ok (tt, comp s')).
Proof.
  intros Hst He. destruct (decide (id = target c)) as [->|Hne].
  2: { left. destruct He; unfold same_tables in *; simpl in *; destruct_and?;
       try congruence; repeat match goal with H : branches _ = _ |- _ => rewrite H end;
       by rewrite lookup_insert_ne. }
  destruct He; simpl in *.
  1, 4: left; unfold same_tables in *; destruct_and?; congruence.
  all: right; split; [done|]; unfold state_of;
    repeat match goal with H : branches _ = _ |- _ => rewrite H; clear H end;
    repeat match goal with H : clock _ = _ |- _ => rewrite H; clear H end;
    rewrite lookup_insert_eq;
    match goal with H : branches _ !! _ = _ |- _ => rewrite H end;
    (split; [|simpl; eauto 20]);
    repeat match goal with H : r_state _ = _ |- _ => rewrite H; clear H end.
  - destruct enough; constructor.
  - constructor.
  - destruct rest; constructor.
  - pose proof (Decide_moves (r_state r) (bpast b) ev) as Hm.
    fold d in Hm. by rewrite H3 in Hm.
Qed.

Lemma moves_not_absent s1 s2 : moves s1 s2 → s2 ≠ Absent.
Proof. by destruct 1. Qed.

Lemma effect_stored c s s' : stored_ok s → effect c s s' → stored_ok s'.
Proof.
  intros Hst He id r Hr. destruct (effect_branch _ _ _ id Hst He) as [Heq|(_ & Hm & _)].
  - rewrite Heq in Hr. eauto.
  - apply moves_not_absent in Hm. unfold state_of in Hm. by rewrite Hr in Hm.
Qed.

Lemma effect_consumption c s s' cn x :
  consumptions s !! cn = Some x → effect c s s' → consumptions s' !! cn = Some x.
Proof.
  intros Hx He. destruct He; unfold same_tables in *; destruct_and?; try congruence.
  match goal with H : consumptions _ = <[_ := _]> _ |- _ => rewrite H end.
  rewrite lookup_insert_ne; congruence.
Qed.

(** A row is kept as it is by everything that happens, once its branch has ended. *)
Lemma effect_ended c s s' id : stored_ok s → Ended (state_of s id) = true →
  effect c s s' → branches s' !! id = branches s !! id.
Proof.
  intros Hst Hend He. destruct (effect_branch _ _ _ id Hst He) as [?|(_ & Hm & _)]; [done|].
  by destruct Hm.
Qed.

(** C19. The life of a branch (P16.1-P16.2): whatever command runs on a store, every branch
    other than its target keeps its row, and the target either keeps its row or makes one
    of the moves the protocol allows; a change raises the version by one (a new branch
    starts at the column's default) and publishes the branch as it now is, in the same
    transaction. *)
Theorem branch_life c s u s' id : stored_ok s → exec c s = Ok (u, s') →
  stored_ok s' ∧
  (branches s' !! id = branches s !! id ∨
  (id = target c ∧ moves (state_of s id) (state_of s' id) ∧
   ∃ r', branches s' !! id = Some r' ∧ r_kind r' = Name k ∧
     match branches s !! id with
     | None => r_version r' = version0
     | Some r => r_version r' = r_version r + 1 ∧ r_kind r = Name k ∧ r_digest r' = r_digest r
     end ∧
     ∃ b c2, scan id r' (clock s') = Some b ∧ Publish k b c2 = Ok (tt, comp s'))).
Proof.
  intros Hst Hx. apply exec_effect in Hx; [|done].
  split; [by eapply effect_stored|by apply (effect_branch c)].
Qed.

(** An ended branch (consumed, released, expired, rejected, cancelled) is never moved
    again: its row is the same after any sequence of commands and any passing of time. *)
Theorem ended_forever ls s id :
  stored_ok s → Ended (state_of s id) = true →
  branches (run ls s) !! id = branches s !! id.
Proof.
  intros Hst Hend.
  enough (stored_ok (run ls s) ∧ branches (run ls s) !! id = branches s !! id) by tauto.
  apply (run_invariant (λ s', stored_ok s' ∧ branches s' !! id = branches s !! id) (λ _, True)).
  - tauto.
  - intros c s1 s2 _ [H1 H2] He. split; [by eapply effect_stored|].
    rewrite <- H2. eapply effect_ended; eauto. unfold state_of in *. by rewrite H2.
  - done.
  - apply Forall_forall. by intros [].
  - done.
Qed.

(** A consumption ID is used at most once (P16.7): after a consumption was recorded,
    whatever has happened since, the same consumption with the same content answers the
    branch as it is, marked repeated, and with other content (or on another branch) a
    conflict; in both cases nothing at all is written, whatever [use] is given. *)
Theorem consume_once ls s id cn digest id' digest' use a s' :
  stored_ok s → consumptions s !! cn = Some (id, digest) →
  Consume k id' cn digest' use (run ls s) = Ok (a, s') →
  s' = run ls s ∧ aRefused a = None ∧
  aRepeated a = bool_decide (id' = id ∧ digest' = digest) ∧
  aConflict a = negb (aRepeated a).
Proof.
  intros Hst Hc Hrun.
  assert (consumptions (run ls s) !! cn = Some (id, digest)) as Hc'.
  { enough (stored_ok (run ls s) ∧ consumptions (run ls s) !! cn = Some (id, digest)) by tauto.
    apply (run_invariant (λ s', stored_ok s' ∧ consumptions s' !! cn = Some (id, digest)) (λ _, True));
      [tauto| |done|apply Forall_forall; by intros []|done].
    intros c s1 s2 _ [H1 H2] He. split; [by eapply effect_stored|by eapply effect_consumption]. }
  unfold Consume in Hrun. rewrite tbind_get, Hc' in Hrun. inv_tx.
  unfold read in Hrun0. inv_tx.
  assert (s' = run ls s) as -> by (destruct (branches (run ls s) !! id'); inv_tx; cases; inv_tx; done).
  split; [done|]. split; [done|].
  destruct (decide (id = id' ∧ digest = digest')) as [[-> ->]|Hn]; simpl.
  - by rewrite bool_decide_true.
  - rewrite bool_decide_false; [done|naive_solver].
Qed.
End runs.

(** ** No loss, no duplication, no overselling *)

Section conservation.
Context {C E : Type}.
Context (version0 : Z) (created0 updated0 : Z → Z).
Context (k : Kind C E) {O : Owner k}.

#[local] Abbreviation effect := (effect version0 k).
#[local] Abbreviation run := (run version0 created0 updated0 k).

(** How an effect changes the accounts: nothing, or the target's holding from [x] to [y],
    what it loses going to [free] or to [used]. *)
Definition accounts (s s' : store C) (id : string) : Prop :=
  (free (comp s') = free (comp s) ∧ held (comp s') = held (comp s) ∧ used (comp s') = used (comp s)) ∨
  ∃ y, held (comp s') = <[id := y]> (held (comp s)) ∧ 0 ≤ y ∧
    0 ≤ free (comp s') ∧
    free (comp s') + y + used (comp s') =
      free (comp s) + amount (held (comp s)) id + used (comp s) ∧
    (holding (state_of s' id) = false → y = 0).

Lemma state_of_insert (s s' : store C) id r :
  branches s' = <[id := r]> (branches s) → state_of s' id = r_state r.
Proof. unfold state_of. intros ->. by rewrite lookup_insert_eq. Qed.

Lemma same_tables_state (s s' : store C) id : same_tables s s' → state_of s' id = state_of s id.
Proof. unfold state_of. by intros (-> & _). Qed.

Lemma effect_accounts c s s' : lawful k c → sound k s → effect c s s' →
  accounts s s' (target c) ∧
  (holding (state_of s' (target c)) = false → amount (held (comp s')) (target c) = 0).
Proof.
  intros Hlaw [Hst Hfree Hheld Hholds] He.
  assert (∀ id, holding (state_of s id) = false → amount (held (comp s)) id = 0) as H0.
  { intros id Hf. destruct (decide (amount (held (comp s)) id = 0)); [done|].
    apply Hholds in n. congruence. }
  unfold accounts. destruct He; simpl in *.
  - rewrite (same_tables_state s s') by done. destruct H1 as [->|Hl]; [|apply lock_law in Hl as (-> & -> & ->)].
    all: split; [by left|auto].
  - apply Hlaw in H1. apply publish_law in H8 as (Hp1 & Hp2 & Hp3).
    assert (state_of s id = Absent) as Habs by (unfold state_of; by rewrite H).
    assert (amount (held (comp s)) id = 0) as Hz by (apply H0; by rewrite Habs).
    rewrite (state_of_insert s s' id r) by done. rewrite H5.
    destruct H1 as [Hu H1]. destruct enough.
    + destruct H1 as (q & Hq & Hf & Hh). split; [|done].
      right. exists (amount (held (comp s)) id + q). rewrite Hp1, Hp2, Hp3, Hu, Hf, Hh.
      simpl. split_and!; try done; lia.
    + destruct H1 as (Hf & Hh). split; [left; split_and!; congruence|]. intros _. congruence.
  - apply publish_law in H5 as (-> & -> & ->). split; [by left|]. intros _. apply H0.
    unfold state_of. by rewrite H.
  - apply lock_law in H3 as (Hl1 & Hl2 & Hl3).
    apply (Hlaw b) in H4 as (Hf & Hh & Hu); [|done]. split; [left; split_and!; congruence|].
    rewrite (same_tables_state s s') by done.
    intros Hn. rewrite Hh, Hl2. auto.
  - apply lock_law in H5 as (Hl1 & Hl2 & Hl3). apply publish_law in H11 as (Hp1 & Hp2 & Hp3).
    apply (Hlaw b) in H6 as (Hf & q & Hq & Hu & Hh & Hrest);
      [|by apply scan_fields in H3 as (? & _)].
    rewrite (state_of_insert s s' id (moveRow to (clock s) r)) by done.
    rewrite Hl2 in *. assert (holding (r_state (moveRow to (clock s) r)) = false →
      amount (held (comp s)) id - q = 0) as Hz.
    { simpl. unfold to. destruct rest; [done|]. intros _. rewrite Hrest by done. lia. }
    split.
    + right. exists (amount (held (comp s)) id - q).
      rewrite Hp1, Hp2, Hp3, Hh, Hf, Hu, Hl1, Hl3. split_and!; try done; lia.
    + intros Hz'. rewrite Hp2, Hh, amount_insert_eq. auto.
  - apply lock_law in H5 as (Hl1 & Hl2 & Hl3). apply publish_law in H11 as (Hp1 & Hp2 & Hp3).
    rewrite (state_of_insert s s' (target c) (moveRow (To d) (clock s) r)) by done.
    assert (state_of s (target c) = r_state r) as Hsr by (unfold state_of; by rewrite H).
    destruct (decide (Res d = GivesBack)) as [Hg|Hg].
    + apply giveback_law in H6 as (Hf & Hh & Hu).
      apply scan_fields in H2 as (HID & _). rewrite HID in *.
      pose proof (Hheld (target c)). rewrite Hl2 in *. split.
      * right. exists 0. rewrite Hp1, Hp2, Hp3, Hf, Hh, Hu, Hl1, Hl3.
        split_and!; try done; lia.
      * intros _. by rewrite Hp2, Hh, amount_insert_eq.
    + subst c2. split; [left; split_and!; congruence|]. simpl. intros Hz.
      rewrite Hp2, Hl2. apply H0. rewrite Hsr.
      destruct (holding (r_state r)) eqn:Hh; [|done]. exfalso.
      destruct (Decide_stops_holding _ _ _ Hh Hz) as [?|[_ ->]]; [done|].
      by destruct c.
Qed.

Lemma effect_sound c s s' : lawful k c → sound k s → effect c s s' →
  sound k s' ∧ total k (comp s') = total k (comp s).
Proof.
  intros Hlaw Hs He. destruct (effect_accounts _ _ _ Hlaw Hs He) as [Hacc Hz].
  pose proof (λ id, effect_branch version0 k c s s' id (sound_stored _ _ Hs) He) as Hbr.
  destruct Hs as [Hst Hfree Hheld Hholds]. unfold total.
  assert (∀ id, id ≠ target c → state_of s' id = state_of s id) as Hoth.
  { intros id Hne. destruct (Hbr id) as [Heq|[? _]]; [|done]. unfold state_of. by rewrite Heq. }
  split; [split|].
  - by eapply effect_stored.
  - destruct Hacc as [(-> & _)|(y & _ & _ & ? & _)]; done.
  - intros id. destruct Hacc as [(_ & -> & _)|(y & -> & Hy & _)]; [done|].
    destruct (decide (target c = id)) as [<-|Hne];
      [by rewrite amount_insert_eq|by rewrite amount_insert_ne].
  - intros id Hnz. destruct (decide (id = target c)) as [->|Hne].
    + destruct (holding (state_of s' (target c))) eqn:Hh; [done|]. by rewrite Hz in Hnz.
    + rewrite Hoth by done. apply Hholds.
      destruct Hacc as [(_ & Hh & _)|(y & Hh & _)]; rewrite Hh in Hnz; [done|].
      by rewrite amount_insert_ne in Hnz.
  - destruct Hacc as [(-> & -> & ->)|(y & -> & _ & _ & Heq & _)]; [done|].
    rewrite map_sum_insert. lia.
Qed.

(** C1. Conservation: for any component that keeps the promises of [Owner] and commands
    whose functions keep theirs, no sequence of commands, expiries, errors and passing
    time loses, duplicates or oversells the resource. What is free, what the branches
    hold and what was consumed always add up to the same total, nothing is negative, and
    a branch that is absent or ended holds nothing. *)
Theorem reservation_conserves ls s :
  sound k s →
  Forall (λ l, match l with LCmd c => lawful k c | LTick _ => True end) ls →
  sound k (run ls s) ∧ total k (comp (run ls s)) = total k (comp s).
Proof.
  intros Hs Hls.
  apply (run_invariant version0 created0 updated0 k
    (λ s', sound k s' ∧ total k (comp s') = total k (comp s)) (lawful k)); try done.
  - intros s1 [[] _]. done.
  - intros c s1 s2 Hlaw [H1 H2] He. destruct (effect_sound c s1 s2 Hlaw H1 He) as [? ->]. done.
  - intros d s1 [[] ?]. done.
Qed.
End conservation.

(** ** Holds seen before, and the lock order *)

Section answers.
Context {C E : Type}.
Context (version0 : Z) (created0 updated0 : Z → Z).
Context (k : Kind C E).

(** A hold of a branch seen before (P16.3) takes nothing and writes nothing: the branch
    is answered as it is, repeated, when the content is the same or the branch is a
    tombstone, and as a conflict otherwise. A cancel that overtook its hold therefore
    wins. *)
Theorem hold_seen_before id digest take r s a s' :
  branches s !! id = Some r →
  Hold version0 created0 updated0 k id digest take s = Ok (a, s') →
  same_tables s s' ∧ comp s' = comp s ∧
  bState (aBranch a) = r_state r ∧ aRefused a = None ∧
  aConflict a = bool_decide (default ""%string (r_digest r) ≠ digest ∧ r_state r ≠ Cancelled) ∧
  aRepeated a = negb (aConflict a).
Proof.
  intros Hr H. unfold Hold, insertBranch in H. inv_tx. rewrite Hr in Hrun. inv_tx.
  apply read_ok in Hrun as (Ht & Hc & [[Hn _]|(r' & Hr' & _ & Hs)]); [congruence|].
  simplify_eq. apply scan_fields in Hs as (_ & HS & _ & HD & _).
  split_and!; try done; simpl; rewrite HS, ?HD.
  destruct (decide (default ""%string (r_digest r) = digest)) as [->|Hne]; simpl.
  - rewrite bool_decide_false; naive_solver.
  - destruct (decide (r_state r = Cancelled)) as [->|Hnc]; simpl.
    + rewrite bool_decide_false; naive_solver.
    + by rewrite bool_decide_true.
Qed.

Lemma read_locks id lock s b s' : read k id lock s = Ok (b, s') →
  locks s' = locks s ∨ (lock = true ∧ locks s' = RowLock id :: locks s).
Proof.
  unfold read. intros H. inv_tx.
  destruct (branches s !! id); [destruct lock|]; inv_tx; cases; inv_tx; auto.
Qed.

Lemma call_locks {A} (f : tx C E A) s a s' : call f s = Ok (a, s') → locks s' = locks s.
Proof. intros (c & _ & ->)%call_ok. done. Qed.

Lemma locked_locks id s b s' : locked k id s = Ok (b, s') →
  locks s' = locks s ∨ locks s' = ResLock id :: locks s ∨
  locks s' = RowLock id :: ResLock id :: locks s.
Proof.
  unfold locked, callLock. intros H. inv_tx.
  apply read_locks in Hrun as [Hl|[? _]]; [|done].
  destruct (decide _) in H; inv_tx; [by left|].
  apply call_locks in Hrun. apply read_locks in H. simpl in *. rewrite Hrun, Hl in H. naive_solver.
Qed.

Lemma apply_locks b d s a s' : apply k b d s = Ok (a, s') → locks s' = locks s.
Proof.
  unfold apply, move. intros H.
  destruct (decide _) in H; destruct (Changed d); simpl in H; inv_tx; try done;
    repeat match goal with
    | H : call _ _ = Ok _ |- _ => apply call_locks in H
    | H : read _ _ false _ = Ok _ |- _ => apply read_locks in H as [H|[? _]]; [|done]
    end; simpl in *; congruence.
Qed.

(** The lock order (P16.11): a command locks nothing, or the resources of its branch
    and then the branch's row; the one row lock without resources is that of a hold of a
    branch seen before, which touches no resource. No command takes a branch's row before
    its resources. *)
Theorem lock_order c s u s' :
  exec version0 created0 updated0 k c s = Ok (u, s') →
  ∃ l, locks s' = l ++ locks s ∧
    (l = [] ∨ l = [ResLock (target c)] ∨ l = [RowLock (target c); ResLock (target c)] ∨
     (l = [RowLock (target c)] ∧ comp s' = comp s ∧ ∃ digest take, c = CHold (target c) digest take)).
Proof.
  intros H.
  assert (locks s' = locks s ∨ locks s' = ResLock (target c) :: locks s ∨
    locks s' = RowLock (target c) :: ResLock (target c) :: locks s ∨
    (locks s' = RowLock (target c) :: locks s ∧ comp s' = comp s ∧
     ∃ digest take, c = CHold (target c) digest take)) as Hl.
  { destruct c; simpl in *; unfold void, Hold, Confirm, Cancel, Query, Consume, expireOne,
      insertBranch, insertConsumption in H; inv_tx;
    repeat (first [case_match | case_decide]; simplify_eq/=; inv_tx);
    repeat match goal with
    | H : call _ _ = Ok _ |- _ => apply call_locks in H
    | H : apply _ _ _ _ = Ok _ |- _ => apply apply_locks in H
    | H : locked _ _ _ = Ok _ |- _ => apply locked_locks in H
    | H : read _ _ false _ = Ok _ |- _ => apply read_locks in H as [H|[? _]]; [|done]
    | H : read _ _ true _ = Ok _ |- _ =>
        pose proof (proj1 (proj2 (read_ok _ _ _ _ _ _ H))); apply read_locks in H
    end; simpl in *; naive_solver congruence. }
  destruct Hl as [->|[->|[->|[-> ?]]]].
  - by exists []; eauto.
  - by exists [ResLock (target c)]; eauto.
  - by exists [RowLock (target c); ResLock (target c)]; eauto.
  - exists [RowLock (target c)]; eauto 10.
Qed.
End answers.
