(* ===== verification/ReserveExpiry.v ===== *)
(** * Reservation participant: the expiry job

    [ExpireDue] of [reserve/reserve.go], a transaction at a time: between two of them time
    passes and other commands run, and a function of the component may fail in any.  It
    ends, and when it returns without an error every branch that was past its period when
    it began has ended. *)
From S2P Require Import Prelude Lifecycle Reserve ReserveSpec ReserveProps.
Open Scope tx_scope.

Section expiry.
Context {C E : Type} (version0 : Z) (created0 updated0 : Z → Z) (k : Kind C E).

#[local] Abbreviation exec := (exec version0 created0 updated0 k).
#[local] Abbreviation effect := (effect version0 k).
#[local] Abbreviation run := (run version0 created0 updated0 k).

(** The component's functions do not fail. *)
Record answers : Prop := {
  lock_answers id c : ∃ c', Lock k id c = Ok (tt, c');
  giveback_answers b c : ∃ c', GiveBack k b c = Ok (tt, c');
  publish_answers b c : ∃ c', Publish k b c = Ok (tt, c')
}.

(** Time does not run back; no branch is held; nothing but time. *)
Definition forwards (ls : list (label (C:=C) (E:=E))) : Prop := Forall (λ l, match l with LTick d => 0 ≤ d | LCmd _ => True end) ls.
Definition noHolds (ls : list (label (C:=C) (E:=E))) : Prop := Forall (λ l, match l with LCmd (CHold _ _ _) => False | _ => True end) ls.
Definition onlyTime (ls : list (label (C:=C) (E:=E))) : Prop := Forall (λ l, match l with LTick _ => True | LCmd _ => False end) ls.

(** ** The batch *)

(** The branches the job is to expire, and those that are held. *)
Definition dueSet (s : store C) : gset string :=
  dom (filter (λ x, isDue k (clock s) x.2 = true) (branches s)).
Definition heldSet (s : store C) : gset string := dom (filter (λ x, r_state x.2 = Held) (branches s)).

Lemma elem_of_dueSet s id :
  id ∈ dueSet s ↔ ∃ r, branches s !! id = Some r ∧ isDue k (clock s) r = true.
Proof.
  unfold dueSet. rewrite elem_of_dom. split.
  - intros [r [??]%map_lookup_filter_Some]. eauto.
  - intros (r & ? & ?). exists r. by apply map_lookup_filter_Some.
Qed.
Lemma elem_of_heldSet s id : id ∈ heldSet s ↔ ∃ r, branches s !! id = Some r ∧ r_state r = Held.
Proof.
  unfold heldSet. rewrite elem_of_dom. split.
  - intros [r [??]%map_lookup_filter_Some]. eauto.
  - intros (r & ? & ?). exists r. by apply map_lookup_filter_Some.
Qed.

Lemma dueBatch_due n s id : id ∈ dueBatch n k s → id ∈ dueSet s.
Proof.
  intros Hid. apply elem_of_dueSet. unfold dueBatch in Hid.
  apply elem_of_take in Hid as (i & Hi & _). apply list_elem_of_lookup_2 in Hi.
  apply list_elem_of_fmap in Hi as ([j r] & -> & Hi). rewrite merge_sort_Permutation in Hi.
  apply list_elem_of_filter in Hi as [Hd Hi%elem_of_map_to_list]. eauto.
Qed.

Lemma dueBatch_all n s id : (length (dueBatch n k s) < n)%nat →
  id ∈ dueSet s → id ∈ dueBatch n k s.
Proof.
  unfold dueBatch. rewrite length_take. intros Hlen (r & Hr & Hd)%elem_of_dueSet.
  rewrite take_ge by lia. apply list_elem_of_fmap. exists (id, r). split; [done|].
  rewrite merge_sort_Permutation. apply list_elem_of_filter. split; [done|].
  by apply elem_of_map_to_list.
Qed.

Lemma isDue_scan id r now : isDue k now r = true →
  r_kind r = Name k ∧ r_state r = Held ∧ ∃ b, scan id r now = Some b ∧ bpast b = true ∧ bState b = Held ∧ ID b = id.
Proof.
  unfold isDue, scan, pastCol. rewrite !andb_true_iff, !bool_decide_eq_true.
  intros [[Hk Hs] Ht]. destruct (r_hold_expires_at r); [|done].
  rewrite decide_True by done. eauto 10.
Qed.
Lemma isDue_later r now now' : now ≤ now' → isDue k now r = true → isDue k now' r = true.
Proof.
  unfold isDue. rewrite !andb_true_iff, !bool_decide_eq_true. intros Hn [[? ?] Ht]. split; [done|].
  destruct (r_hold_expires_at r); [|done]. rewrite bool_decide_eq_true in *. lia.
Qed.

(** ** A branch past its period, or ended since *)

Definition overdue (s : store C) (id : string) : Prop :=
  ∃ r, branches s !! id = Some r ∧ r_kind r = Name k ∧ (isDue k (clock s) r = true ∨ Ended (r_state r) = true).

Lemma effect_clock c s s' : effect c s s' → clock s' = clock s.
Proof. destruct 1; unfold same_tables in *; destruct_and?; done. Qed.
(** A command leaves a branch past its period there or ends it. *)
Lemma effect_past c s s' r r' : effect c s s' → branches s !! target c = Some r → isDue k (clock s) r = true →
  branches s' !! target c = Some r' → r' = r ∨ Ended (r_state r') = true.
Proof.
  intros He Hr Hd Hr'. destruct (isDue_scan (target c) _ _ Hd) as (_ & Hs & b0 & Hb0 & Hp & _).
  destruct He; simpl in *; unfold state_of in *; try (unfold same_tables in *; destruct_and?; left; congruence);
    try (exfalso; simplify_eq; congruence).
  match goal with H : branches s' = _ |- _ => rewrite H, lookup_insert_eq in Hr' end. injection Hr' as <-. right.
  assert (r0 = r) as -> by congruence. assert (b = b0) as -> by congruence. unfold d in *. rewrite Hs, Hp in *. by destruct ev.
Qed.
Lemma effect_overdue c s s' id : stored_ok s → effect c s s' → overdue s id → overdue s' id.
Proof.
  intros Hst He (r & Hr & Hk & Hd). pose proof (effect_clock _ _ _ He) as Hc.
  destruct (effect_branch _ _ _ _ _ id Hst He) as [Heq|(-> & Hm & r' & Hr' & Hk' & _)]; [exists r; by rewrite Heq, Hc|].
  exists r'. split; [done|]. split; [done|]. destruct Hd as [Hd|Hend].
  - destruct (effect_past _ _ _ _ _ He Hr Hd Hr') as [->|?]; [left; by rewrite Hc|by right].
  - right. unfold state_of in Hm. rewrite Hr, Hr' in Hm. by destruct Hm.
Qed.
Lemma run_overdue ls s id : forwards ls → stored_ok s → overdue s id → overdue (run ls s) id.
Proof.
  intros Hf. revert s. induction Hf as [|l ls Hl _ IH]; intros s Hst Ho; [done|]. cbn [ReserveProps.run].
  destruct l as [c|d]; cbn [lstep].
  - destruct (after_cases (exec c) s) as [->|(u & s' & Hx & ->)]; [by apply IH|]. apply exec_effect in Hx; [|done].
    apply IH; [by eapply effect_stored|by eapply effect_overdue].
  - apply IH; [done|]. destruct Ho as (r & Hr & Hk & Hd). exists r. split; [done|]. split; [done|].
    destruct Hd as [Hd|?]; [left|by right]. eapply isDue_later; [|exact Hd]. simpl. lia.
Qed.
Lemma run_stored ls s : stored_ok s → stored_ok (run ls s).
Proof.
  intros Hs. apply (run_invariant version0 created0 updated0 k stored_ok (λ _, True)); [done| |done| |done].
  - intros c s1 s2 _. apply effect_stored.
  - apply Forall_true. by intros [].
Qed.
Lemma run_clock ls s : forwards ls → stored_ok s → clock s ≤ clock (run ls s).
Proof.
  intros Hf. revert s. induction Hf as [|l ls Hl _ IH]; intros s Hs; [done|]. cbn [ReserveProps.run]. destruct l as [c|d]; cbn [lstep].
  - destruct (after_cases (exec c) s) as [->|(u & s' & Hx & ->)]; [by apply IH|]. apply exec_effect in Hx; [|done].
    rewrite <- (effect_clock _ _ _ Hx). apply IH. by eapply effect_stored.
  - etransitivity; [|by apply IH]. simpl. lia.
Qed.

(** ** One branch *)

(** [expireOne] on a branch past its period: what it makes of the tables. *)
Lemma expireOne_due id r s u s' : branches s !! id = Some r → isDue k (clock s) r = true → expireOne k id s = Ok (u, s') →
  clock s' = clock s ∧ branches s' = <[id := moveRow Expired (clock s) r]> (branches s).
Proof.
  intros Hr Hd Hx. destruct (isDue_scan id _ _ Hd) as (_ & Hs & b0 & Hb0 & Hp & _). unfold expireOne in Hx. inv_tx.
  apply (locked_ok version0 created0 updated0) in Hrun as ((Hb & _ & Hclk) & Hsaw & _). destruct (saw_state _ _ _ _ Hsaw) as [HID Hst]. unfold state_of in Hst. rewrite Hr, Hs in Hst.
  rewrite Hst in Hx. rewrite decide_False in Hx by done. apply tbind_ok in Hx as (a & s1 & Hrun & Hx). unfold tret in Hx. injection Hx as _ <-.
  destruct (saw_present _ _ _ _ Hsaw) as (r0 & Hr0 & _ & Hscan); [by rewrite Hst|]. assert (r0 = r) as -> by congruence.
  assert (v = b0) as -> by congruence. rewrite Hp in Hrun.
  destruct (apply_ok k b0 (Decide Held true OnExpire) _ _ _ r ltac:(by rewrite HID, Hb) ltac:(done) Hrun) as [[? _]|(_ & c1 & b' & _ & Hbr & _ & Hclk' & _)]; [done|].
  simpl in Hbr. rewrite HID, Hb, Hclk in *. done.
Qed.
(** On one that has ended: nothing. *)
Lemma expireOne_ended id r s u s' : stored_ok s → branches s !! id = Some r → Ended (r_state r) = true → expireOne k id s = Ok (u, s') →
  clock s' = clock s ∧ branches s' = branches s.
Proof.
  intros Hst Hr Hend Hx. assert (He : effect (CExpire id) s s') by (eapply (exec_effect version0 created0 updated0 k (CExpire id)); [done|exact Hx]).
  split; [by eapply effect_clock|]. apply map_eq. intros j. destruct (effect_branch _ _ _ _ _ j Hst He) as [?|(Hj & _)]; [done|]. simpl in Hj. subst j.
  eapply effect_ended; [done| |done]. unfold state_of. by rewrite Hr.
Qed.
Lemma expireOne_answers (Hk : answers) id s : overdue s id → ∃ s', expireOne k id s = Ok (tt, s').
Proof.
  intros (r & Hr & Hkind & Hd). destruct (lock_answers Hk id (comp s)) as [c1 Hl].
  assert (Hscan : ∃ b, scan id r (clock s) = Some b ∧ ID b = id ∧ bState b = r_state r ∧ (bState b = Held → bpast b = true)).
  { destruct Hd as [Hd|Hend].
    - destruct (isDue_scan id _ _ Hd) as (_ & Hs & b & Hb & Hp & HS & HID). exists b. split_and!; congruence.
    - unfold scan, pastCol. rewrite decide_False by (intros He; by rewrite He in Hend). eexists. split_and!; [done..|]. simpl. intros He. by rewrite He in Hend. }
  destruct Hscan as (b & Hb & HID & HS & Hp). assert (Ha : r_state r ≠ Absent).
  { destruct Hd as [Hd|Hend]; [destruct (isDue_scan id _ _ Hd) as (_ & -> & _); done|intros He; by rewrite He in Hend]. }
  unfold expireOne, locked, callLock, read, apply, move, read, call, tbind, tget, tmod, tret.
  simpl. rewrite Hr, Hb. rewrite decide_False by (intros ?; congruence). simpl. rewrite HS.
  rewrite decide_False by done. simpl. rewrite Hl. simpl. rewrite Hr, Hb.
  rewrite decide_False by (intros ?; congruence). simpl. rewrite HS, decide_False by done.
  destruct Hd as [Hd|Hend].
  - destruct (isDue_scan id _ _ Hd) as (_ & HH & _). rewrite HH, Hp by congruence. simpl.
    destruct (giveback_answers Hk b c1) as [c2 Hg]. rewrite Hg. simpl.
    rewrite HID, lookup_alter_eq, Hr. simpl. rewrite decide_False by (intros ?; congruence). simpl.
    match goal with |- context [Publish k ?b' c2] => destruct (publish_answers Hk b' c2) as [c3 Hpub]; rewrite Hpub end. simpl. eauto.
  - assert (Hne : r_state r ≠ Held) by (intros He; by rewrite He in Hend). unfold Decide. rewrite (decide_False (P := r_state r = Held)) by done. simpl. eauto.
Qed.

(** ** What the job may rely on between its transactions *)

Lemma run_ended ls s id : stored_ok s → Ended (state_of s id) = true → Ended (state_of (run ls s) id) = true.
Proof.
  revert s. induction ls as [|l ls IH]; intros s Hs He; [done|]. cbn [ReserveProps.run]. destruct l as [c|d]; cbn [lstep]; [|by apply IH].
  destruct (after_cases (exec c) s) as [->|(u & s' & Hx & ->)]; [by apply IH|]. apply exec_effect in Hx; [|done].
  apply IH; [by eapply effect_stored|]. unfold state_of in *. by rewrite (effect_ended _ _ _ _ _ _ Hs He Hx).
Qed.
(** A command that holds nothing leaves what is held, or less. *)
Lemma effect_held c s s' : stored_ok s → effect c s s' → match c with CHold _ _ _ => False | _ => True end → heldSet s' ⊆ heldSet s.
Proof.
  intros Hs He Hc id (r' & Hr' & Hst')%elem_of_heldSet. apply elem_of_heldSet.
  destruct (effect_branch _ _ _ _ _ id Hs He) as [Heq|(-> & Hm & _)]; [exists r'; by rewrite <- Heq|]. exfalso.
  unfold state_of in Hm. rewrite Hr', Hst' in Hm. inversion Hm as [Ha| | | | | | | |].
  assert (Hn : branches s !! target c = None). { destruct (branches s !! target c) as [r|] eqn:Hr; [|done]. by destruct (Hs _ _ Hr). }
  destruct He; simpl in *; try done; try congruence; try (unfold same_tables in *; destruct_and?; congruence);
    match goal with H : branches s' = _ |- _ => rewrite H, lookup_insert_eq in Hr' end; congruence.
Qed.
Lemma run_held ls s : stored_ok s → noHolds ls → heldSet (run ls s) ⊆ heldSet s.
Proof.
  intros Hs Hn. revert s Hs. induction Hn as [|l ls Hl _ IH]; intros s Hs; [done|]. cbn [ReserveProps.run]. destruct l as [c|d]; cbn [lstep]; [|exact (IH (tick d s) Hs)].
  destruct (after_cases (exec c) s) as [->|(u & s' & Hx & ->)]; [by apply IH|]. apply exec_effect in Hx; [|done].
  etransitivity; [apply IH; by eapply effect_stored|by eapply effect_held].
Qed.

(** Nothing but time, and branches expired past their period. *)
Definition aged (s s' : store C) : Prop :=
  clock s ≤ clock s' ∧ ∀ id, branches s' !! id = branches s !! id ∨
    ∃ r t, branches s !! id = Some r ∧ clock s ≤ t ≤ clock s' ∧ isDue k t r = true ∧ branches s' !! id = Some (moveRow Expired t r).
Lemma aged_refl s : aged s s.
Proof. split; [done|]. intros id. by left. Qed.
Lemma aged_trans s1 s2 s3 : aged s1 s2 → aged s2 s3 → aged s1 s3.
Proof.
  intros [C1 A1] [C2 A2]. split; [lia|]. intros id. destruct (A2 id) as [E2|(r & t & Hr & Ht & Hd & Hr')].
  - rewrite E2. destruct (A1 id) as [?|(r & t & Hr & Ht & Hd & Hr')]; [by left|right]. exists r, t. split_and!; (done || lia).
  - right. destruct (A1 id) as [E1|(r1 & t1 & _ & _ & _ & Hr1)].
    + exists r, t. rewrite <- E1. split_and!; (done || lia).
    + exfalso. rewrite Hr1 in Hr. injection Hr as <-. unfold isDue in Hd. rewrite !andb_true_iff, !bool_decide_eq_true in Hd. by destruct Hd as [[_ ?] _].
Qed.
Lemma run_aged ls s : forwards ls → onlyTime ls → aged s (run ls s).
Proof.
  intros Hf Ht. revert s. induction Hf as [|l ls Hl _ IH]; intros s; [apply aged_refl|]. apply Forall_cons in Ht as [Hlt Ht]. cbn [ReserveProps.run].
  destruct l as [c|d]; [done|]. cbn [lstep]. eapply aged_trans; [|by apply IH]. split; [simpl; lia|]. intros id. by left.
Qed.

(** ** A batch *)

Section batches.
Context (ls : nat → list (label (C:=C) (E:=E))) (Hls : ∀ n, forwards (ls n)).
Let others : nat → store C → store C := λ n, run (ls n).

Record went (ids : list string) (s : store C) (r : res (error E) unit) (s' : store C) : Prop := {
  we_stored : stored_ok s';
  we_overdue : ∀ id, overdue s id → overdue s' id;
  we_ended : ∀ id, Ended (state_of s id) = true → Ended (state_of s' id) = true;
  we_done : r = Ok tt → ∀ id, id ∈ ids → overdue s id → Ended (state_of s' id) = true;
  we_err : ∀ e, r = Err e → ∃ id s1, expireOne k id s1 = Err e;
  we_answers : answers → (∀ id, id ∈ ids → overdue s id) → r = Ok tt;
  we_held : (∀ n, noHolds (ls n)) → heldSet s' ⊆ heldSet s;
  we_aged : (∀ n, onlyTime (ls n)) → (∀ id, id ∈ ids → overdue s id) → aged s s' }.

Lemma went_others n s : stored_ok s → went [] s (Ok tt) (others n s).
Proof.
  intros Hs. split.
  - by apply run_stored.
  - intros id. by apply run_overdue.
  - intros id. by apply run_ended.
  - intros _ id ?%elem_of_nil. done.
  - done.
  - done.
  - intros Hn. by apply run_held.
  - intros Ht _. by apply run_aged.
Qed.
Lemma went_one id s : stored_ok s → went [id] s (commit (expireOne k id) s).1 (commit (expireOne k id) s).2.
Proof.
  intros Hs. unfold commit. destruct (expireOne k id s) as [[u s']|e] eqn:Hx; cbn [fst snd].
  2: { split; try done; [by intros e' [= <-]; eauto| |by intros; apply aged_refl]. intros Ha Ho.
       destruct (expireOne_answers Ha id s (Ho id ltac:(set_solver))) as [s' H]. congruence. }
  assert (He : effect (CExpire id) s s') by (eapply (exec_effect version0 created0 updated0 k (CExpire id)); [done|exact Hx]).
  assert (Hov : overdue s id → (clock s' = clock s ∧ branches s' = branches s ∧ Ended (state_of s id) = true) ∨
    ∃ r, branches s !! id = Some r ∧ isDue k (clock s) r = true ∧ clock s' = clock s ∧ branches s' = <[id := moveRow Expired (clock s) r]> (branches s)).
  { intros (r & Hr & _ & [Hd|Hend]); [right|left].
    - exists r. destruct (expireOne_due id r s u s' Hr Hd Hx). done.
    - destruct (expireOne_ended id r s u s' Hs Hr Hend Hx). split_and!; [done..|]. unfold state_of. by rewrite Hr. }
  split.
  - by eapply effect_stored.
  - intros j. by eapply effect_overdue.
  - intros j Hj. unfold state_of in *. by rewrite (effect_ended _ _ _ _ _ _ Hs Hj He).
  - intros _ j ->%list_elem_of_singleton Ho. unfold state_of. destruct (Hov Ho) as [(_ & Hb & Hend)|(r & Hr & _ & _ & Hb)]; rewrite Hb; [done|].
    by rewrite lookup_insert_eq.
  - done.
  - by destruct u.
  - intros _. by eapply effect_held.
  - intros _ Ho. destruct (Hov (Ho id ltac:(set_solver))) as [(Hc & Hb & _)|(r & Hr & Hd & Hc & Hb)]; (split; [lia|]); intros j; rewrite Hb; [by left|].
    destruct (decide (j = id)) as [->|Hne]; [right; exists r, (clock s); rewrite lookup_insert_eq; split_and!; (done || lia)|left; by rewrite lookup_insert_ne].
Qed.
Lemma went_then ids ids' s1 s2 r s3 : went ids s1 (Ok tt) s2 → went ids' s2 r s3 → went (ids ++ ids') s1 r s3.
Proof.
  intros [A1 A2 A3 A4 A5 A6 A7 A8] [B1 B2 B3 B4 B5 B6 B7 B8]. split; auto.
  - intros Hr id [Hin|Hin]%elem_of_app Ho; [by apply B3, A4|by apply B4; [..|apply A2]].
  - intros Ha Ho. apply B6; [done|]. intros id Hin. apply A2, Ho. set_solver.
  - intros Hn. etransitivity; [by apply B7|by apply A7].
  - intros Ht Ho. eapply aged_trans; [apply A8; [done|]; intros id Hin; apply Ho; set_solver|]. apply B8; [done|]. intros id Hin. apply A2, Ho. set_solver.
Qed.
Lemma went_fails ids s1 e s2 ids' : went ids s1 (Err e) s2 → (answers → (∀ id, id ∈ ids' → overdue s1 id) → False) → ids ⊆ ids' → went ids' s1 (Err e) s2.
Proof. intros [A1 A2 A3 A4 A5 A6 A7 A8] Hf Hsub. split; try done; [by intros Ha Ho; destruct (Hf Ha Ho)|auto]. Qed.

Lemma expireAll_went ids n s : stored_ok s → went ids s (expireAll others n k ids s).1 (expireAll others n k ids s).2.
Proof.
  revert n s. induction ids as [|id ids IH]; intros n s Hs.
  - cbn. split; try done; [by intros _ id ?%elem_of_nil|intros _ _; apply aged_refl].
  - cbn [expireAll]. pose proof (went_others n s Hs) as H0. pose proof (went_one id (others n s) (we_stored _ _ _ _ H0)) as H1.
    pose proof (went_then _ _ _ _ _ _ H0 H1) as H2. cbn [app] in H2. destruct (commit (expireOne k id) (others n s)) as [[[]|e] s1]; cbn [fst snd] in *.
    + specialize (IH (S n) s1 (we_stored _ _ _ _ H2)). exact (went_then _ _ _ _ _ _ H2 IH).
    + eapply went_fails; [exact H2| |set_solver]. intros Ha Ho. assert (Err e = Ok tt) by (apply (we_answers _ _ _ _ H2); set_solver). done.
Qed.

(** ** The job *)

(** What a whole run of the job gives. *)
Record ran (s : store C) (r : res (error E) unit) (s' : store C) : Prop := {
  ra_done : r = Ok tt → ∀ id, overdue s id → Ended (state_of s' id) = true;
  ra_err : ∀ e, r = Err e → ∃ id s1, expireOne k id s1 = Err e;
  ra_answers : answers → r = Ok tt;
  ra_aged : (∀ n, onlyTime (ls n)) → aged s s' }.

Lemma due_overdue s id : id ∈ dueBatch batch k s → overdue s id.
Proof.
  intros Hid. apply dueBatch_due, elem_of_dueSet in Hid as (r & Hr & Hd). exists r. split; [done|].
  destruct (isDue_scan id _ _ Hd) as (Hk & _). auto.
Qed.
Lemma ExpireDue_ran fuel n s r s' : stored_ok s → ExpireDue fuel others n k s = Some (r, s') → ran s r s'.
Proof.
  revert n s. induction fuel as [|fuel IH]; intros n s Hs; [done|]. cbn [ExpireDue].
  pose proof (went_others n s Hs) as H0. set (s1 := others n s) in *. set (due := dueBatch batch k s1).
  pose proof (expireAll_went due (S n) s1 (we_stored _ _ _ _ H0)) as H1. assert (Hdue : ∀ id, id ∈ due → overdue s1 id) by (intros id; apply due_overdue).
  destruct (expireAll others (S n) k due s1) as [[[]|e] s2]; cbn [fst snd] in H1.
  - assert (Haged : (∀ m, onlyTime (ls m)) → aged s s2).
    { intros Ht. eapply aged_trans; [by apply (we_aged _ _ _ _ H0); [|intros id ?%elem_of_nil]|by apply (we_aged _ _ _ _ H1)]. }
    destruct (decide _) as [Hlt|Hge].
    + intros [= <- <-]. split; try done. intros _ id Ho. apply (we_overdue _ _ _ _ H0) in Ho. pose proof Ho as (row & Hr & _ & [Hd|Hend]).
      * apply (we_done _ _ _ _ H1); [done| |done]. apply dueBatch_all; [done|]. apply elem_of_dueSet. eauto.
      * apply (we_ended _ _ _ _ H1). unfold state_of. by rewrite Hr.
    + intros HE. destruct (IH _ _ (we_stored _ _ _ _ H1) HE) as [R1 R2 R3 R4]. split; auto.
      * intros Hr id Ho. apply R1; [done|]. by apply (we_overdue _ _ _ _ H1), (we_overdue _ _ _ _ H0).
      * intros Ht. eapply aged_trans; [by apply Haged|by apply R4].
  - intros [= <- <-]. split; [done|apply H1|by intros Ha; apply (we_answers _ _ _ _ H1)|].
    intros Ht. eapply aged_trans; [by apply (we_aged _ _ _ _ H0); [|intros id ?%elem_of_nil]|by apply (we_aged _ _ _ _ H1)].
Qed.
(** A full batch ends a hundred branches. *)
Lemma ExpireDue_ends fuel n s : (∀ m, noHolds (ls m)) → stored_ok s → (size (heldSet s) < fuel)%nat → is_Some (ExpireDue fuel others n k s).
Proof.
  intros Hn. revert n s. induction fuel as [|fuel IH]; intros n s Hs Hf; [lia|]. cbn [ExpireDue].
  pose proof (went_others n s Hs) as H0. set (s1 := others n s) in *. set (due := dueBatch batch k s1).
  pose proof (expireAll_went due (S n) s1 (we_stored _ _ _ _ H0)) as H1.
  destruct (expireAll others (S n) k due s1) as [[[]|e] s2]; cbn [fst snd] in H1; [|by eexists]. destruct (decide _) as [Hlt|Hge]; [by eexists|].
  apply IH; [apply H1|]. assert (size (heldSet s2) < size (heldSet s1))%nat.
  { apply subset_size. split; [by apply (we_held _ _ _ _ H1)|]. intros Hsub. destruct due as [|id due'] eqn:Ed; [unfold batch in Hge; simpl in Hge; lia|].
    assert (Hin : id ∈ dueBatch batch k s1) by (fold due; rewrite Ed; set_solver).
    assert (Hend : Ended (state_of s2 id) = true) by (apply (we_done _ _ _ _ H1); [done|set_solver|by apply due_overdue]).
    apply dueBatch_due, elem_of_dueSet in Hin as (r & Hr & Hd). destruct (isDue_scan id _ _ Hd) as (_ & Hst & _).
    assert (Hh : id ∈ heldSet s1) by (apply elem_of_heldSet; eauto). apply Hsub, elem_of_heldSet in Hh as (r2 & Hr2 & Hs2).
    unfold state_of in Hend. by rewrite Hr2, Hs2 in Hend. }
  pose proof (subseteq_size _ _ (we_held _ _ _ _ H0 Hn)). lia.
Qed.

End batches.

(** C28. The expiry job (P16.8).  Between its transactions time passes and any other
    commands of the kind run, and in any transaction a function of the component may fail.
    When the job returns without an error, every branch that was held past its period when
    it began has ended: expired by the job, unless another command ended it first.  As long
    as the database answers, it returns an error only when the transaction of a branch failed, and none when the
    component's functions do not fail.  With nothing but time passing, every branch is as
    it was or expired, at a higher version and without a period, at a time past its period,
    whether the job failed or not.  And the job returns: as long as the other commands
    hold nothing anew, it takes at most one round more than there are branches held. *)
Theorem ExpireDue_complete (ls : nat → list (label (C:=C) (E:=E))) fuel s :
  (∀ n, forwards (ls n)) → stored_ok s →
  let job := ExpireDue fuel (λ n, run (ls n)) 0 k s in
  (∀ r s', job = Some (r, s') →
    (r = Ok tt → ∀ id row, branches s !! id = Some row → isDue k (clock s) row = true → Ended (state_of s' id) = true) ∧
    (∀ e, r = Err e → ∃ id s1, expireOne k id s1 = Err e) ∧ (answers → r = Ok tt) ∧
    ((∀ n, onlyTime (ls n)) → ∀ id, branches s' !! id = branches s !! id ∨
       ∃ row t, branches s !! id = Some row ∧ clock s ≤ t ≤ clock s' ∧ isDue k t row = true ∧ branches s' !! id = Some (moveRow Expired t row))) ∧
  ((∀ n, noHolds (ls n)) → (size (heldSet s) < fuel)%nat → is_Some job).
Proof.
  intros Hls Hs. cbv zeta. split; [|intros Hn Hf; by apply ExpireDue_ends]. intros r s' [R1 R2 R3 R4]%ExpireDue_ran; [|done..].
  split_and!; [|done..|apply R4]. intros Hr id row Hrow Hd. apply R1; [done|]. exists row. destruct (isDue_scan id _ _ Hd) as (Hk & _). auto.
Qed.
End expiry.
