(* ===== verification/ReserveStock.v ===== *)
(** * A stock keeper as a reservation participant

    A concrete component that keeps the promises of [Owner], and the properties of the
    reservation commands at concrete inputs of it. *)
From S2P Require Import Prelude Lifecycle Reserve ReserveSpec ReserveProps ReserveExpiry.
Open Scope string_scope.
Open Scope Z_scope.

Record stock := mkStock {
  avail : Z;
  alloc : gmap string Z;
  sold : Z;
  published : list (string * State)
}.

Definition stockKind : Kind stock string :=
  mkKind "stock" (5 * Minute)
    (λ _, tret tt)
    (λ b c, Ok (tt, mkStock (avail c + amount (alloc c) (ID b)) (<[ID b := 0]> (alloc c)) (sold c) (published c)))
    (λ b c, Ok (tt, mkStock (avail c) (alloc c) (sold c) ((ID b, bState b) :: published c))).

Definition takeQ (id : string) (q : Z) : Take stock string :=
  λ c, if decide (0 ≤ q ≤ avail c)
       then Ok ((true, ""), mkStock (avail c - q) (<[id := amount (alloc c) id + q]> (alloc c)) (sold c) (published c))
       else Ok ((false, "short"), c).

Definition useQ (id : string) (q : Z) : Use stock string :=
  λ _ c, let h := amount (alloc c) id in
    if decide (0 ≤ q ≤ h)
    then Ok ((bool_decide (q < h), false), mkStock (avail c) (<[id := h - q]> (alloc c)) (sold c + q) (published c))
    else Ok ((true, true), c).

#[export] Instance stock_owner : Owner stockKind.
Proof.
  refine {| free := avail; held := alloc; used := sold |}; simpl.
  - intros id c c' H. unfold tret in H. by simplify_eq.
  - intros b c c' H. by simplify_eq.
  - intros b c c' H. by simplify_eq.
Defined.

Lemma takeQ_law id q : take_law stockKind id (takeQ id q).
Proof.
  intros c enough why c' H. unfold takeQ in H. destruct (decide _) in H; simplify_eq; simpl; eauto.
Qed.

Lemma useQ_law id q : use_law stockKind id (useQ id q).
Proof.
  intros b c rest beyond c' _ H. unfold useQ in H. destruct (decide _) in H; simplify_eq; simpl; [|done].
  split; [done|]. exists q. split; [done|]. split; [done|]. split; [done|]. intros Hb%bool_decide_eq_false. lia.
Qed.

Lemma stock_answers : answers stockKind.
Proof. split; intros; simpl; eauto. Qed.

#[local] Abbreviation exec := (exec 1 (λ t, t) (λ t, t) stockKind).
#[local] Abbreviation run := (run 1 (λ t, t) (λ t, t) stockKind).
#[local] Abbreviation Hold := (Hold 1 (λ t, t) (λ t, t) stockKind).

(** Ten in stock, nothing reserved. *)
Definition s0 : store stock := mkStore ∅ ∅ [] 0 (mkStock 10 ∅ 0 []).

Definition hold3 : label := LCmd (CHold "b1" "d1" (takeQ "b1" 3)).
Definition use2 : label := LCmd (CConsume "b1" "c1" "x" (useQ "b1" 2)).
Definition script : list label :=
  [hold3; LCmd (CHold "b2" "d2" (takeQ "b2" 8)); LCmd (CConfirm "b1"); use2; LTick Minute;
   LCmd (CCancel "b1"); LCmd (CCancel "b3")].

Lemma s0_stored : stored_ok s0.
Proof. intros id r H. simpl in H. by rewrite lookup_empty in H. Qed.

Lemma s0_sound : sound stockKind s0.
Proof.
  split; [apply s0_stored|done|done|]. intros id H. unfold amount in H. simpl in H. by rewrite lookup_empty in H.
Qed.

Lemma script_lawful :
  Forall (λ l, match l with LCmd c => lawful stockKind c | LTick _ => True end) script.
Proof.
  repeat apply Forall_cons_2; try done; simpl; auto using takeQ_law, useQ_law.
Qed.

Lemma stored_run ls : stored_ok (run ls s0).
Proof.
  apply (run_invariant 1 (λ t, t) (λ t, t) stockKind stored_ok (λ _, True)).
  - done.
  - intros c s s' _. apply effect_stored.
  - done.
  - apply Forall_forall. by intros [].
  - apply s0_stored.
Qed.

Lemma branch_life_witness :
  stored_ok (run [hold3] s0) ∧ state_of (run [hold3] s0) "b1" = Held.
Proof.
  split; [|vm_compute; reflexivity].
  apply (branch_life 1 (λ t, t) (λ t, t) stockKind (CHold "b1" "d1" (takeQ "b1" 3)) s0 tt _ "b1").
  - apply s0_stored.
  - reflexivity.
Defined.

Lemma ended_forever_witness :
  branches (run [hold3; LTick Hour; LCmd (CConfirm "b2")] (run script s0)) !! "b1"
    = branches (run script s0) !! "b1" ∧
  state_of (run script s0) "b1" = Released.
Proof.
  split; [|vm_compute; reflexivity].
  apply ended_forever; [apply stored_run|vm_compute; reflexivity].
Defined.

Lemma consume_once_witness :
  ∃ a, Consume stockKind "b1" "c1" "x" (useQ "b1" 1) (run [LTick 1] (run script s0)) =
    Ok (a, run [LTick 1] (run script s0)) ∧ aRepeated a = true.
Proof.
  eexists. split; [vm_compute; reflexivity|].
  assert (consumptions (run script s0) !! "c1" = Some ("b1", "x")) as Hc by (vm_compute; reflexivity).
  eapply (consume_once 1 (λ t, t) (λ t, t) stockKind [LTick 1] (run script s0) "b1" "c1" "x" "b1" "x"
    (useQ "b1" 1)); [apply stored_run|exact Hc|vm_compute; reflexivity].
Defined.

Lemma reservation_conserves_witness :
  total stockKind (comp (run script s0)) = 10 ∧ avail (comp (run script s0)) = 8 ∧
  sold (comp (run script s0)) = 2.
Proof.
  split_and!; [|vm_compute; reflexivity..].
  exact (proj2 (reservation_conserves 1 (λ t, t) (λ t, t) stockKind script s0 s0_sound script_lawful)).
Defined.

Lemma hold_seen_before_witness :
  ∃ a s', Hold "b3" "d9" (takeQ "b3" 1) (run script s0) = Ok (a, s') ∧
    bState (aBranch a) = Cancelled ∧ comp s' = comp (run script s0).
Proof.
  do 2 eexists. split; [vm_compute; reflexivity|]. split; [reflexivity|].
  eapply (hold_seen_before 1 (λ t, t) (λ t, t) stockKind "b3" "d9" (takeQ "b3" 1) _ (run script s0));
    vm_compute; reflexivity.
Defined.

Lemma lock_order_witness :
  ∃ l, locks (run [LCmd (CConfirm "b1")] (run [hold3] s0)) = (l ++ locks (run [hold3] s0))%list ∧
    l = [RowLock "b1"; ResLock "b1"].
Proof.
  destruct (lock_order 1 (λ t, t) (λ t, t) stockKind (CConfirm "b1") (run [hold3] s0) tt
    (run [LCmd (CConfirm "b1")] (run [hold3] s0))) as (l & Hl & _); [vm_compute; reflexivity|].
  exists l. split; [exact Hl|]. vm_compute in Hl. destruct l as [|? [|? []]]; simplify_eq; reflexivity.
Defined.

(** Three held for five minutes; the job looks after an hour, when another command has
    cancelled one of them. *)
Definition hold_more : list label := [hold3; LCmd (CHold "b2" "d2" (takeQ "b2" 1)); LTick Hour].
Definition cancelled (n : nat) : list (label (C:=stock) (E:=string)) := if decide (n = 1)%nat then [LTick 1; LCmd (CCancel "b2")] else [].

Lemma ExpireDue_complete_witness :
  ∃ s', ExpireDue 3 (λ n, run (cancelled n)) 0 stockKind (run hold_more s0) = Some (Ok tt, s') ∧
    Ended (state_of s' "b1") = true ∧ state_of s' "b1" = Expired ∧ state_of s' "b2" = Released.
Proof.
  destruct (ExpireDue_complete 1 (λ t, t) (λ t, t) stockKind cancelled 3 (run hold_more s0)) as [Hret Hends].
  - intros n. unfold cancelled. case_decide; repeat constructor. done.
  - apply stored_run.
  - destruct Hends as [[r s'] HE].
    + intros n. unfold cancelled. case_decide; repeat constructor.
    + vm_compute. lia.
    + destruct (Hret r s' HE) as (Hdone & _ & Hok & _). specialize (Hok stock_answers). subst r. exists s'. split; [exact HE|].
      split; [|vm_compute in HE; injection HE as <-; vm_compute; split; reflexivity].
      destruct (branches (run hold_more s0) !! "b1") as [row|] eqn:Hrow; [|vm_compute in Hrow; discriminate Hrow].
      eapply (Hdone eq_refl "b1" row Hrow). vm_compute in Hrow. injection Hrow as <-. vm_compute. reflexivity.
Defined.
