(* ===== verification/Errs.v ===== *)
(** * The error object

    [errs]: the codes and their HTTP statuses, the catalog of platform reasons, building an
    error and rendering it for the user surface, and reading one back from a dependency's
    answer. An error's [cause] is kept for the logs only and is not modelled. *)
From S2P Require Import Prelude.
From Stdlib Require Import SpecFloat.
Open Scope string_scope.
Open Scope Z_scope.

Inductive Code :=
| OKCode | InvalidArgument | FailedPrecondition | OutOfRange | Unauthenticated | PermissionDenied
| NotFound | AlreadyExists | Aborted | ResourceExhausted | CancelledCode | Internal | UnknownCode
| DataLoss | Unimplemented | Unavailable | DeadlineExceeded.
#[export] Instance Code_eq_dec : EqDecision Code.
Proof. solve_decision. Defined.

(** [codeHTTP]; "OK" is not a key of it. *)
Definition codeHTTP (c : Code) : option Z :=
  match c with
  | InvalidArgument => Some 400 | FailedPrecondition => Some 400 | OutOfRange => Some 400
  | Unauthenticated => Some 401 | PermissionDenied => Some 403 | NotFound => Some 404
  | AlreadyExists => Some 409 | Aborted => Some 409 | ResourceExhausted => Some 429
  | CancelledCode => Some 499 | Internal => Some 500 | UnknownCode => Some 500 | DataLoss => Some 500
  | Unimplemented => Some 501 | Unavailable => Some 503 | DeadlineExceeded => Some 504
  | OKCode => None
  end.

Definition HTTPStatus (c : Code) : Z := default 500 (codeHTTP c).

Inductive level := LevelInfo | LevelWarn | LevelError.

(** [None]: not logged as an error. *)
Definition LogLevel (c : Code) : option level :=
  match c with
  | Internal | UnknownCode | DataLoss => Some LevelError
  | Unavailable | DeadlineExceeded => Some LevelWarn
  | CancelledCode => None
  | _ => Some LevelInfo
  end.

Definition AccessLogLevel (status : Z) : level :=
  if decide (status = 500) then LevelError
  else if decide (status = 503 ∨ status = 504) then LevelWarn
  else LevelInfo.

Record Violation := mkViolation { vField : string; vReason : string; vDescription : string }.

Record Error := mkError {
  eReason : string;
  eDomain : string;
  eCode : Code;
  eHTTP : Z;
  eTitle : string;
  eDetail : string;
  eMetadata : gmap string string;
  eViolations : list Violation;
  eRetryAfter : Z
}.

(** A Go [error] value: the error object, the two context errors, any other, or one of
    them wrapped by [fmt.Errorf] with [%w]. *)
Inductive goerr :=
| GErr (e : Error)
| GCanceled
| GDeadline
| GOther (msg : string)
| GWrap (msg : string) (err : goerr).

(** ** The catalog *)

Definition PlatformDomain : string := "be".

Inductive retry := RetryNo | RetryYes | RetryAfterRefresh | RetryQueryFirst | RetryNone.

Record Entry := mkEntry { enReason : string; enCode : Code; enHTTP : Z; enRetry : retry; enTitle : string }.

Definition ReasonOutboundLimit : string := "OUTBOUND_LIMIT".
Definition ReasonCircuitOpen : string := "CIRCUIT_OPEN".
Definition ReasonDependencyUnavailable : string := "DEPENDENCY_UNAVAILABLE".
Definition ReasonDeadlineBudgetExhausted : string := "DEADLINE_BUDGET_EXHAUSTED".
Definition ReasonDeadlineExceeded : string := "DEADLINE_EXCEEDED".
Definition ReasonRequestCancelled : string := "REQUEST_CANCELLED".
Definition ReasonResultUnknown : string := "RESULT_UNKNOWN".
Definition ReasonInternal : string := "INTERNAL".
Definition ReasonRequestInvalid : string := "REQUEST_INVALID".
Definition ReasonQueryNotCompletable : string := "QUERY_NOT_COMPLETABLE".
Definition ReasonIdempotencyKeyReused : string := "IDEMPOTENCY_KEY_REUSED".
Definition ReasonCapabilityUnsupported : string := "CAPABILITY_UNSUPPORTED".

(** The entries [init] puts into the catalog, in its order. *)
Definition catalog : list Entry := [
  mkEntry ReasonRequestInvalid InvalidArgument 0 RetryNo "The request is not valid";
  mkEntry "BODY_TOO_LARGE" InvalidArgument 413 RetryNo "The request body is too large";
  mkEntry "CURSOR_INVALID" InvalidArgument 0 RetryNo "The cursor does not match the request";
  mkEntry "BATCH_TOO_LARGE" InvalidArgument 0 RetryNo "Too many identities in one batch";
  mkEntry "TOKEN_INVALID" Unauthenticated 0 RetryNo "The credentials are not valid";
  mkEntry "TOKEN_STALE" Unauthenticated 0 RetryAfterRefresh "The credentials are out of date";
  mkEntry "SESSION_ENDED" Unauthenticated 0 RetryNo "The session has ended; log in again";
  mkEntry "SERVICE_CREDENTIAL_INVALID" Unauthenticated 0 RetryNo "The calling service is not authenticated";
  mkEntry "PERMISSION_DENIED" PermissionDenied 0 RetryNo "Not allowed";
  mkEntry "CONTAINMENT_NOT_PROVEN" PermissionDenied 0 RetryNo "The change exceeds what can be proven";
  mkEntry "CSRF_HEADER_REQUIRED" PermissionDenied 0 RetryNo "The request needs the BE-Request header";
  mkEntry "NOT_FOUND" NotFound 0 RetryNo "Not found";
  mkEntry ReasonQueryNotCompletable FailedPrecondition 422 RetryNo "The query cannot be completed";
  mkEntry "FIELD_NOT_QUERYABLE" FailedPrecondition 422 RetryNo "A field cannot be used in this query";
  mkEntry "QUERY_PLAN_CHANGED" Aborted 0 RetryNo "The query changed; run it again";
  mkEntry "CHANGE_KEY_CONFLICT" AlreadyExists 0 RetryNo "The change key was used for different content";
  mkEntry "CHANGE_REVISION_STALE" Aborted 0 RetryNo "The target changed; preview again";
  mkEntry "LAST_ADMIN_PROTECTED" FailedPrecondition 409 RetryNo "The last administrator is protected";
  mkEntry "RECORD_SEALED" FailedPrecondition 409 RetryNo "The record belongs to a sealed archive unit; write a correction";
  mkEntry ReasonIdempotencyKeyReused InvalidArgument 422 RetryNo "The idempotency key was used for another request";
  mkEntry "IDEMPOTENCY_IN_PROGRESS" Aborted 0 RetryYes "The first use of this idempotency key has not finished";
  mkEntry "LOCK_TIMEOUT" Aborted 0 RetryYes "Waiting for a lock took too long";
  mkEntry "TX_CONFLICT" Aborted 0 RetryYes "A concurrent change conflicted";
  mkEntry "STATEMENT_TIMEOUT" DeadlineExceeded 0 RetryYes "The database took too long";
  mkEntry "SERVICE_BUSY" Unavailable 0 RetryYes "The service is busy";
  mkEntry ReasonOutboundLimit ResourceExhausted 503 RetryYes "Too many calls to a dependency are in progress";
  mkEntry ReasonCircuitOpen Unavailable 0 RetryYes "A dependency is failing; calls to it are paused";
  mkEntry ReasonDependencyUnavailable Unavailable 0 RetryYes "A dependency is unavailable";
  mkEntry ReasonDeadlineBudgetExhausted DeadlineExceeded 0 RetryNo "Not enough time was left to make a call";
  mkEntry ReasonDeadlineExceeded DeadlineExceeded 0 RetryQueryFirst "The request ran out of time";
  mkEntry ReasonRequestCancelled CancelledCode 0 RetryNone "The request was cancelled";
  mkEntry "NOT_READY" Unavailable 0 RetryYes "The service is not ready";
  mkEntry "AUTHORIZATION_UNPROVABLE" Unavailable 0 RetryYes "Authorization cannot be proven right now";
  mkEntry "AUTHORIZATION_VIEW_EXPIRED" Unavailable 0 RetryYes "The authorization view has expired";
  mkEntry "RECOVERY_IN_PROGRESS" Unavailable 0 RetryYes "The deployment is being recovered";
  mkEntry "MAINTENANCE" Unavailable 0 RetryYes "The deployment is in a full recovery: try again once it reopens";
  mkEntry "MEMBER_SWITCH_IN_PROGRESS" Unavailable 0 RetryYes "A provider switch is in progress";
  mkEntry "DEFINITION_PENDING" Unavailable 0 RetryYes "A definition the change needs has not been accepted yet";
  mkEntry ReasonCapabilityUnsupported Unimplemented 0 RetryNo "This capability is not supported";
  mkEntry ReasonResultUnknown DeadlineExceeded 0 RetryQueryFirst "The result is not known yet; query it";
  mkEntry "AUDIT_CAPACITY_EXHAUSTED" Unavailable 0 RetryYes "Audited operations are paused until the audit backlog drains";
  mkEntry ReasonInternal Internal 0 RetryNo "Internal error"].

(** [platform[reason]]. *)
Definition platform (reason : string) : option Entry :=
  list_find (λ e, enReason e = reason) catalog ≫= λ x, Some x.2.

Definition status (e : Entry) : Z := if decide (enHTTP e ≠ 0) then enHTTP e else HTTPStatus (enCode e).

(** ** Building errors *)

Definition internalDetail : string :=
  "an internal error occurred; quote the trace id when reporting it".

Definition fromEntry (e : Entry) (detail : string) : Error :=
  mkError (enReason e) PlatformDomain (enCode e) (status e) (enTitle e) detail ∅ [] 0.

(** [New]: a reason outside the catalog is answered as INTERNAL. The catalog has INTERNAL,
    so the zero entry a missing key would give is never used. *)
Definition New (reason detail : string) : Error :=
  match platform reason with
  | Some e => fromEntry e detail
  | None => fromEntry (default (mkEntry "" OKCode 0 RetryNo "") (platform ReasonInternal)) internalDetail
  end.

Definition With (e : Error) (key value : string) : Error :=
  mkError (eReason e) (eDomain e) (eCode e) (eHTTP e) (eTitle e) (eDetail e)
    (<[key := value]> (eMetadata e)) (eViolations e) (eRetryAfter e).

Definition WithRetryAfter (e : Error) (d : Z) : Error :=
  mkError (eReason e) (eDomain e) (eCode e) (eHTTP e) (eTitle e) (eDetail e)
    (eMetadata e) (eViolations e) d.

(** [errors.As] with the error object, and [errors.Is] with a context error. *)
Fixpoint asError (err : goerr) : option Error :=
  match err with GErr e => Some e | GWrap _ err => asError err | _ => None end.
Fixpoint isCanceled (err : goerr) : bool :=
  match err with GCanceled => true | GWrap _ err => isCanceled err | _ => false end.
Fixpoint isDeadline (err : goerr) : bool :=
  match err with GDeadline => true | GWrap _ err => isDeadline err | _ => false end.

(** [From] on a non-nil error. *)
Definition From (err : goerr) : Error :=
  match asError err with
  | Some e => e
  | None =>
      if isCanceled err then New ReasonRequestCancelled "the request was cancelled"
      else if isDeadline err then New ReasonDeadlineExceeded "the request ran out of time"
      else New ReasonInternal internalDetail
  end.

(** ** The user surface *)

Record Problem := mkProblem {
  pType : string; pTitle : string; pStatus : Z; pDetail : string; pReason : string; pDomain : string;
  pMetadata : gmap string string; pTraceID : string; pViolations : list Violation
}.

Definition hidden (c : Code) : bool :=
  match c with Internal | UnknownCode | DataLoss => true | _ => false end.

(** [Error.Problem]. *)
Definition problem (e : Error) (traceID : string) : Problem :=
  let p :=
    if hidden (eCode e) then
      mkProblem ("urn:be:be:" +:+ ReasonInternal)
        (default "" (enTitle <$> platform ReasonInternal)) 500 internalDetail ReasonInternal PlatformDomain
        ∅ traceID []
    else
      mkProblem ("urn:be:" +:+ eDomain e +:+ ":" +:+ eReason e) (eTitle e) (eHTTP e) (eDetail e) (eReason e)
        (eDomain e) (eMetadata e) traceID (eViolations e) in
  let title := if decide (pTitle p = "") then pReason p else pTitle p in
  let detail := if decide (pDetail p = "") then title else pDetail p in
  mkProblem (pType p) title (pStatus p) detail (pReason p) (pDomain p) (pMetadata p) (pTraceID p) (pViolations p).

(** [CodeOfStatus]: the loop over [codeHTTP] can answer only the six codes it names, whose
    statuses are distinct. *)
Definition CodeOfStatus (st : Z) : Code :=
  if decide (st < 400) then OKCode
  else if decide (st = 502 ∨ st = 503) then Unavailable
  else if decide (st = 504) then DeadlineExceeded
  else if decide (st = 499) then CancelledCode
  else if decide (500 ≤ st) then Internal
  else default FailedPrecondition
    (head (filter (λ c, codeHTTP c = Some st)
      [InvalidArgument; Unauthenticated; PermissionDenied; NotFound; Aborted; ResourceExhausted])).

Definition codeOfHTTP (domain reason : string) (st : Z) : Code :=
  if decide (domain = PlatformDomain) then
    match platform reason with Some e => enCode e | None => CodeOfStatus st end
  else CodeOfStatus st.

(** [FromHTTP] on an answer that decoded as a problem; [retryAfter] is the parsed
    [Retry-After] header, in seconds. *)
Definition FromHTTP (st : Z) (p : Problem) (retryAfter : option Z) : option Error :=
  if decide (pReason p = "" ∨ pDomain p = "") then None
  else Some (mkError (pReason p) (pDomain p) (codeOfHTTP (pDomain p) (pReason p) st) st (pTitle p) (pDetail p)
    (pMetadata p) (pViolations p)
    (match retryAfter with Some s => if decide (0 < s) then int64 (s * Second) else 0 | None => 0 end)).

(** float64: a positive number is a numerator over a denominator.  [round64] is the nearest
    one with 53 significant bits, ties to the even one; the numbers here are far from the
    smallest and the largest exponents. *)
Definition halfEven (n d : Z) : Z :=
  let q := n / d in let r := n mod d in
  if decide (2 * r < d ∨ (2 * r = d ∧ Z.even q = true)) then q else q + 1.
(** The power of two that brings [n / d] to 53 bits. *)
Definition shift64 (n d : Z) : Z :=
  let j := Z.max 0 (52 - (Z.log2 n - Z.log2 d)) in
  if decide (d * 2 ^ 52 ≤ n * 2 ^ j) then j else j + 1.
Definition round64 (n d : Z) : Z * Z := let j := shift64 n d in (halfEven (n * 2 ^ j) d, 2 ^ j).
(** [Duration.Seconds] of a positive duration: the whole seconds and the rest are exact,
    their quotient and sum are rounded. *)
Definition Seconds (d : Z) : Z * Z :=
  let '(xn, xd) := if decide (d mod Second = 0) then (0, 1) else round64 (d mod Second) Second in
  round64 (d / Second * xd + xn) xd.
Definition Ceil (x : Z * Z) : Z := (x.1 + x.2 - 1) / x.2.

(** The [Retry-After] header [WriteHTTP] sets: whole seconds, rounded up. *)
Definition retryAfterHeader (e : Error) : option Z :=
  if decide (0 < eRetryAfter e) then Some (Ceil (Seconds (eRetryAfter e))) else None.

(** ** Lemmas and properties *)

Lemma catalog_keys : NoDup (enReason <$> catalog).
Proof. apply (bool_decide_unpack _). vm_compute. reflexivity. Qed.

Lemma platform_sound reason e : platform reason = Some e → enReason e = reason ∧ e ∈ catalog.
Proof.
  unfold platform. destruct (list_find _ _) as [[i x]|] eqn:Hf; [|done]. simpl. intros [= <-].
  apply list_find_Some in Hf as (Hl & Hr & _). split; [done|]. by apply list_elem_of_lookup_2 in Hl.
Qed.

(** Every entry's status is a client or server error, and only INTERNAL hides its detail. *)
Lemma catalog_status e : e ∈ catalog →
  400 ≤ status e < 600 ∧ (hidden (enCode e) = true ↔ enReason e = ReasonInternal).
Proof.
  assert (Forall (λ e, 400 ≤ status e < 600 ∧ (hidden (enCode e) = true ↔ enReason e = ReasonInternal)) catalog) as HF.
  { repeat apply Forall_cons_2; try apply Forall_nil_2; vm_compute; intuition congruence. }
  intros He. by eapply Forall_forall in HF.
Qed.

(** Nothing of an internal error reaches the caller (P3.4): two errors whose codes are
    internal, unknown or data loss render to the same problem whatever their reason,
    domain, title, detail, metadata and violations say, and the problem is the catalog's
    INTERNAL with status 500. *)
Theorem internal_hidden e e' t : hidden (eCode e) = true → hidden (eCode e') = true →
  problem e t = problem e' t ∧ pStatus (problem e t) = 500 ∧ pReason (problem e t) = ReasonInternal ∧
  pDetail (problem e t) = internalDetail ∧ pMetadata (problem e t) = ∅.
Proof. unfold problem. intros -> ->. done. Qed.

Lemma internal_hidden_witness :
  problem (With (New "NO_SUCH_REASON" "secret") "k" "v") "t" = problem (New ReasonInternal "other") "t".
Proof. refine (proj1 (internal_hidden _ _ _ _ _)); vm_compute; reflexivity. Defined.

(** ** Seconds in float64 *)

Lemma int64_fits n : - 2 ^ 63 ≤ n < 2 ^ 63 → int64 n = n.
Proof. intros Hn. unfold int64. rewrite Z.mod_small by lia. lia. Qed.

Lemma halfEven_spec n d a : 0 < d → (a * d ≤ n → a ≤ halfEven n d) ∧ (n ≤ a * d → halfEven n d ≤ a) ∧ ((2 * a + 1) * d < 2 * n → a + 1 ≤ halfEven n d).
Proof.
  intros Hd. pose proof (Z.div_mod n d ltac:(lia)) as Hq. pose proof (Z.mod_pos_bound n d Hd). unfold halfEven. set (q := n / d) in *. set (r := n mod d) in *.
  case_decide as Hc; split_and!; intros Ha; nia.
Qed.
Lemma shift64_spec n d : 0 < n → 0 < d → 0 ≤ shift64 n d ∧ d * 2 ^ 52 ≤ n * 2 ^ shift64 n d.
Proof.
  intros Hn Hd. unfold shift64. set (j := Z.max 0 _). case_decide as Hc; [lia|]. split; [lia|]. pose proof (Z.log2_spec n Hn) as [Hn1 _]. pose proof (Z.log2_spec d Hd) as [_ Hd1].
  pose proof (Z.log2_nonneg n). pose proof (Z.log2_nonneg d).
  assert (2 ^ (Z.succ (Z.log2 d) + 52) ≤ 2 ^ (Z.log2 n + (j + 1))) as Hp by (apply Z.pow_le_mono_r; lia). rewrite !Z.pow_add_r in Hp by lia.
  assert (0 < 2 ^ (j + 1)) by (apply Z.pow_pos_nonneg; lia). rewrite !Z.pow_add_r in * by lia. nia.
Qed.
(** A number below 2^23 is rounded at a place of at least 29 bits. *)
Lemma shift64_low n d k : 0 < n → 0 < d → n ≤ d * 2 ^ k → 0 ≤ k ≤ 52 → 52 - k ≤ shift64 n d.
Proof.
  intros Hn Hd Hk Hk0. destruct (shift64_spec n d Hn Hd) as [Hj Hs]. set (j := shift64 n d) in *. destruct (decide (52 - k ≤ j)) as [|Hlt]; [done|]. exfalso.
  assert (2 ^ (k + j) < 2 ^ 52) as Hp by (apply Z.pow_lt_mono_r; lia). rewrite Z.pow_add_r in Hp by lia.
  assert (0 < 2 ^ j) by (apply Z.pow_pos_nonneg; lia). nia.
Qed.
Lemma pow_split j k : 0 ≤ k ≤ j → ∃ m, 2 ^ j = 2 ^ k * m ∧ 0 < m.
Proof. intros Hk. exists (2 ^ (j - k)). split; [rewrite <- Z.pow_add_r by lia; f_equal; lia|apply Z.pow_pos_nonneg; lia]. Qed.

(** The fraction of a second is at least 1025/2^40, more than half a place at 29 bits. *)
Lemma fraction64 r : 0 < r < Second → let '(xn, xd) := round64 r Second in 0 < xd ∧ 1025 * xd ≤ xn * 2 ^ 40 ∧ xn ≤ xd.
Proof.
  intros Hr. unfold round64. pose proof (shift64_low r Second 0 ltac:(lia) ltac:(done) ltac:(lia) ltac:(lia)) as Hj. set (j := shift64 r Second) in *.
  destruct (pow_split j 40 ltac:(lia)) as (m & -> & Hm). unfold Second in *.
  destruct (halfEven_spec (r * (2 ^ 40 * m)) 1000000000 (1025 * m) ltac:(done)) as (H1 & _). destruct (halfEven_spec (r * (2 ^ 40 * m)) 1000000000 (2 ^ 40 * m) ltac:(done)) as (_ & H2 & _).
  split; [lia|]. split; [|apply H2; nia]. assert (1025 * m ≤ halfEven (r * (2 ^ 40 * m)) 1000000000) by (apply H1; nia). nia.
Qed.
(** Up to 2^23 seconds, 97 days, rounding does not lose a nanosecond. *)
Lemma Seconds_up d : 0 < d ≤ 2 ^ 23 * Second → Ceil (Seconds d) = (d + Second - 1) / Second.
Proof.
  intros Hd. pose proof (Z.div_mod d Second ltac:(done)) as Hq. pose proof (Z.mod_pos_bound d Second ltac:(done)) as Hr. unfold Seconds.
  set (q := d / Second) in *. set (r := d mod Second) in *. assert (Hq0 : 0 ≤ q) by (unfold Second in *; lia).
  assert (Hmid : ∀ xn xd a, 0 < xd → 0 < q * xd + xn → q * xd + xn ≤ xd * 2 ^ 23 → a = q + (if decide (r = 0) then 0 else 1) →
    (r = 0 → xn = 0) → (r ≠ 0 → 1025 * xd ≤ xn * 2 ^ 40 ∧ xn ≤ xd) → Ceil (round64 (q * xd + xn) xd) = a).
  { intros xn xd a Hxd Hpos Hle -> H0 H1. unfold round64, Ceil. cbn [fst snd]. pose proof (shift64_low _ _ 23 Hpos Hxd Hle ltac:(lia)) as Hj.
    set (j := shift64 _ _) in *. destruct (pow_split j 29 ltac:(lia)) as (m & -> & Hm). set (s := 2 ^ 29 * m). assert (Hs : 0 < s) by lia.
    destruct (halfEven_spec ((q * xd + xn) * s) xd (q * s) Hxd) as (A1 & A2 & A3). destruct (halfEven_spec ((q * xd + xn) * s) xd ((q + 1) * s) Hxd) as (_ & B2 & _).
    set (h := halfEven _ _) in *. destruct (decide (r = 0)) as [Hz|Hz].
    - rewrite (H0 Hz) in *. assert (h = q * s) as -> by (assert (q * s ≤ h) by (apply A1; nia); assert (h ≤ q * s) by (apply A2; nia); lia).
      symmetry. apply (Z.div_unique _ _ _ (s - 1)); [lia|nia].
    - destruct (H1 Hz) as [X1 X2]. assert (q * s + 1 ≤ h) by (apply A3; subst s; nia). assert (h ≤ (q + 1) * s) by (apply B2; nia).
      symmetry. apply (Z.div_unique _ _ _ (h - 1 - q * s)); [lia|nia]. }
  destruct (decide (r = 0)) as [Hz|Hz].
  - rewrite (Hmid 0 1 q); [|done|unfold Second in *; lia|unfold Second in *; lia|repeat case_decide; lia|done|done].
    apply (Z.div_unique _ _ _ (Second - 1)); unfold Second in *; lia.
  - pose proof (fraction64 r ltac:(lia)) as Hx. destruct (round64 r Second) as [xn xd]. destruct Hx as (X1 & X2 & X3).
    assert (Hle : q + 1 ≤ 2 ^ 23) by (unfold Second in *; lia).
    rewrite (Hmid xn xd (q + 1)); [|done|nia|clear - Hle X3 X1 Hq0; nia|by repeat case_decide|done|done].
    apply (Z.div_unique _ _ _ (r - 1)); unfold Second in *; lia.
Qed.

(** Beyond, a nanosecond may be lost: here the header says a second less. *)
Lemma Seconds_short : Ceil (Seconds (2 ^ 24 * Second + 1)) = 2 ^ 24.
Proof. vm_compute. reflexivity. Qed.
(** The same as the binary64 numbers of the Standard Library. *)
Definition ieeeSeconds (d : Z) : spec_float :=
  let fl z := binary_normalize 53 1024 z 0 false in
  SFadd 53 1024 (fl (d / Second)) (SFdiv 53 1024 (fl (d mod Second)) (fl Second)).
Definition sameFloat (x : Z * Z) (f : spec_float) : bool :=
  match f with S754_finite false m e => bool_decide (x.1 * 2 ^ Z.max 0 (- e) = Z.pos m * 2 ^ Z.max 0 e * x.2) | _ => false end.
Lemma Seconds_ieee : forallb (λ d, sameFloat (Seconds d) (ieeeSeconds d))
  [1; 999999999; 1000000000; 1500000000; 123456789012345678; 2 ^ 24 * Second + 1; 2 ^ 33 * Second + 954; 9223372036854775807] = true.
Proof. vm_compute. reflexivity. Qed.

(** C31. A platform error survives the user surface: written as a problem by one component
    and read by the calling one, it has the same reason, code and status, and a retry time
    of up to 97 days (2^23 seconds) is never shorter than the one that was given, nor a
    whole second longer; for longer ones the float64 seconds of the header lose
    nanoseconds.  In particular a catalogued reason keeps its code even where the bare
    status would be read as another (a full outbound limit, status 503, is not read as
    UNAVAILABLE). *)
Theorem platform_roundtrip reason detail en d t :
  platform reason = Some en → hidden (enCode en) = false → 0 ≤ d ≤ 2 ^ 23 * Second →
  let e := WithRetryAfter (New reason detail) d in
  ∃ e', FromHTTP (pStatus (problem e t)) (problem e t) (retryAfterHeader e) = Some e' ∧
    eReason e' = reason ∧ eDomain e' = PlatformDomain ∧ eCode e' = enCode en ∧ eHTTP e' = eHTTP e ∧
    d ≤ eRetryAfter e' < d + Second.
Proof.
  intros Hp Hh Hd e. destruct (platform_sound _ _ Hp) as [Hr Hc].
  assert (reason ≠ "") as Hne by (intros ->; by vm_compute in Hp).
  unfold e, New. rewrite Hp. unfold problem, fromEntry, WithRetryAfter, FromHTTP, retryAfterHeader. simpl.
  rewrite Hh. simpl. rewrite Hr. rewrite decide_False by (by intros [|]).
  eexists. split; [done|]. simpl. split; [done|]. split; [done|]. split.
  { unfold codeOfHTTP. rewrite decide_True, Hp by done. done. }
  split; [done|]. destruct (decide (0 < d)); [|unfold Second; lia]. rewrite Seconds_up by lia.
  pose proof (Z.div_mod (d + Second - 1) Second ltac:(done)).
  pose proof (Z.mod_pos_bound (d + Second - 1) Second ltac:(done)).
  assert (0 < (d + Second - 1) / Second) by (apply Z.div_str_pos; unfold Second; lia).
  rewrite decide_True by done. rewrite (int64_fits (_ * _)) by (unfold Second in *; lia). lia.
Qed.

Lemma platform_roundtrip_witness :
  ∃ e', FromHTTP 503 (problem (WithRetryAfter (New ReasonOutboundLimit "busy") Second) "t") (Some 1) = Some e' ∧
    eCode e' = ResourceExhausted.
Proof.
  destruct (platform_roundtrip ReasonOutboundLimit "busy"
    (mkEntry ReasonOutboundLimit ResourceExhausted 503 RetryYes "Too many calls to a dependency are in progress")
    Second "t") as (e' & H & _ & _ & Hc & _); [vm_compute; reflexivity|reflexivity|vm_compute; split; discriminate|].
  exists e'. split; [exact H|exact Hc].
Defined.
