(* ===== verification/CallsPolicy.v ===== *)
(** * Outbound calls: deadlines, retries, the retry budget and the classes of results

    [calls/policy.go] and [calls/outcome.go]. *)
From S2P Require Import Prelude Errs.
Open Scope Z_scope.

(** ** Parameters and deadlines *)

Definition MaxAttemptTimeout : Z := 3000 * Millisecond.
Definition DeadlineReserve : Z := 50 * Millisecond.
Definition MaxAttempts : Z := 3.
Definition BackoffBase : Z := 100 * Millisecond.
Definition BackoffCap : Z := 1000 * Millisecond.
Definition OutboundLimit : Z := 64.

(** [None]: not sent. *)
Definition AttemptTimeout (remaining : Z) (hasDeadline : bool) : option Z :=
  if negb hasDeadline || bool_decide (remaining < DeadlineReserve) then None
  else Some (Z.min MaxAttemptTimeout (remaining - DeadlineReserve)).

Inductive outcome := OutcomeUnavailable | OutcomeConnectFailed | OutcomeNone.
#[export] Instance outcome_eq_dec : EqDecision outcome.
Proof. solve_decision. Defined.

Definition ShouldRetry (idempotent : bool) (o : outcome) (attemptsMade : Z) (budgetAllows : bool)
    (afterBackoff : Z) (hasDeadline : bool) : bool :=
  if negb idempotent || (bool_decide (o ≠ OutcomeUnavailable) && bool_decide (o ≠ OutcomeConnectFailed)) then false
  else if bool_decide (MaxAttempts ≤ attemptsMade) || negb budgetAllows then false
  else bool_decide (is_Some (AttemptTimeout afterBackoff hasDeadline)).

Definition MaxBackoff (failed : Z) : Z :=
  if bool_decide (failed < 1) then 0
  else if bool_decide (4 < failed) then BackoffCap
  else Z.min BackoffCap (Z.shiftl BackoffBase (failed - 1)).

(** ** The retry budget *)

Record Budget := mkBudget { tokens : Z }.

Inductive budgetOutcome := BudgetSuccess | BudgetUnavailable | BudgetOther.

Definition budgetMax : Z := 10000.
Definition budgetSuccess : Z := 100.
Definition budgetFailure : Z := 1000.
Definition budgetThreshold : Z := 5000.

Definition NewBudget : Budget := mkBudget budgetMax.

Definition Record_ (o : budgetOutcome) (b : Budget) : Budget :=
  match o with
  | BudgetSuccess => mkBudget (Z.min budgetMax (tokens b + budgetSuccess))
  | BudgetUnavailable => mkBudget (Z.max 0 (tokens b - budgetFailure))
  | BudgetOther => b
  end.

Definition AllowsRetry (b : Budget) : bool := bool_decide (budgetThreshold < tokens b).

(** ** What one attempt returned *)

Record Result := mkResult {
  resErr : option goerr;
  resCode : Code;
  resRemote : option Error;
  resConnectFailed : bool
}.

Inductive Class_ :=
| ClassSuccess | ClassUnavailable | ClassConnectFailed | ClassDeadline | ClassRelayed | ClassOther | ClassCancelled.
#[export] Instance Class_eq_dec : EqDecision Class_.
Proof. solve_decision. Defined.

(** The reasons a dependency uses to report failures further down. *)
Definition relayed : list string :=
  [ReasonDependencyUnavailable; ReasonCircuitOpen; ReasonDeadlineBudgetExhausted; ReasonResultUnknown].

Definition isRelayed (r : Result) : bool :=
  match resRemote r with
  | Some e => bool_decide (eDomain e = PlatformDomain) && bool_decide (eReason e ∈ relayed)
  | None => false
  end.

Definition Classify (r : Result) (callerCancelled : bool) : Class_ :=
  if callerCancelled && bool_decide (is_Some (resErr r)) then ClassCancelled
  else if resConnectFailed r then ClassConnectFailed
  else if bool_decide (resErr r = None) then ClassSuccess
  else if isRelayed r then ClassRelayed
  else if decide (resCode r = Unavailable) then ClassUnavailable
  else if decide (resCode r = DeadlineExceeded) then ClassDeadline
  else ClassOther.

Inductive breakerOutcome := BreakerSuccess | BreakerFailure | BreakerIgnored.
#[export] Instance breakerOutcome_eq_dec : EqDecision breakerOutcome.
Proof. solve_decision. Defined.

Definition BreakerOutcome (c : Class_) : breakerOutcome :=
  match c with
  | ClassSuccess => BreakerSuccess
  | ClassUnavailable | ClassConnectFailed | ClassDeadline => BreakerFailure
  | _ => BreakerIgnored
  end.

Definition BudgetOutcome (c : Class_) : budgetOutcome :=
  match c with
  | ClassSuccess => BudgetSuccess
  | ClassUnavailable | ClassConnectFailed => BudgetUnavailable
  | _ => BudgetOther
  end.

Definition RetryOutcome (c : Class_) : outcome :=
  match c with
  | ClassUnavailable => OutcomeUnavailable
  | ClassConnectFailed => OutcomeConnectFailed
  | _ => OutcomeNone
  end.

(** The caller's answer when this was the final attempt; [None] is success. *)
Definition Upward (c : Class_) (r : Result) (idempotent : bool) (dependency : string) : option goerr :=
  match c with
  | ClassSuccess => None
  | ClassUnavailable | ClassConnectFailed =>
      let e := With (New ReasonDependencyUnavailable "a dependency is unavailable") "dependency" dependency in
      Some (GErr (match resRemote r with
                  | Some rem => if decide (0 < eRetryAfter rem) then WithRetryAfter e (eRetryAfter rem) else e
                  | None => e
                  end))
  | ClassDeadline =>
      let '(reason, detail) :=
        if idempotent then (ReasonDeadlineExceeded, "a dependency did not answer in time")
        else (ReasonResultUnknown, "a dependency did not answer in time; query the result before repeating")%string in
      Some (GErr (With (New reason detail) "dependency" dependency))
  | ClassCancelled => Some (GErr (New ReasonRequestCancelled "the request was cancelled"))
  | ClassRelayed | ClassOther =>
      match resRemote r with
      | Some rem => Some (GErr rem)
      | None =>
          match resErr r with
          | None => Some (GOther "calls: an attempt failed without an error")
          | Some err => Some (GErr (From err))
          end
      end
  end.

(** ** Lemmas *)

Lemma AttemptTimeout_bounds remaining hasDeadline t :
  AttemptTimeout remaining hasDeadline = Some t →
  hasDeadline = true ∧ 0 ≤ t ≤ MaxAttemptTimeout ∧ t + DeadlineReserve ≤ remaining.
Proof.
  unfold AttemptTimeout. destruct hasDeadline; simpl; [|done].
  case_bool_decide; [done|]. intros [= <-]. unfold MaxAttemptTimeout, DeadlineReserve, Millisecond in *. lia.
Qed.

Lemma ShouldRetry_true idempotent o n allows left hasDeadline :
  ShouldRetry idempotent o n allows left hasDeadline = true ↔
  idempotent = true ∧ (o = OutcomeUnavailable ∨ o = OutcomeConnectFailed) ∧ n < MaxAttempts ∧ allows = true ∧
  hasDeadline = true ∧ DeadlineReserve ≤ left.
Proof.
  unfold ShouldRetry, AttemptTimeout.
  destruct idempotent, o, allows, hasDeadline; simpl; repeat case_bool_decide; simpl;
    repeat case_bool_decide; simpl; try (split; [done|]); try (intuition (congruence || lia)); try done.
  all: try (match goal with H : is_Some None |- _ => by destruct H end).
  all: try (match goal with H : ¬ is_Some (Some _) |- _ => by destruct H; eauto end).
Qed.

Lemma RetryOutcome_retryable c :
  RetryOutcome c = OutcomeUnavailable ∨ RetryOutcome c = OutcomeConnectFailed ↔
  c = ClassUnavailable ∨ c = ClassConnectFailed.
Proof. destruct c; simpl; intuition congruence. Qed.

(** ** Properties *)


Lemma Record_bounded o b : 0 ≤ tokens b ≤ budgetMax → 0 ≤ tokens (Record_ o b) ≤ budgetMax.
Proof. destruct o; simpl; unfold budgetMax, budgetSuccess, budgetFailure; lia. Qed.

Lemma Record_many os b : 0 ≤ tokens b ≤ budgetMax → 0 ≤ tokens (foldl (flip Record_) b os) ≤ budgetMax.
Proof. revert b. induction os; intros b Hb; simpl; [done|]. by apply IHos, Record_bounded. Qed.

(** The number of outcomes of a kind. *)
Definition isUnavailable (o : budgetOutcome) : bool := match o with BudgetUnavailable => true | _ => false end.
Definition isSuccess (o : budgetOutcome) : bool := match o with BudgetSuccess => true | _ => false end.
Definition countZ {A} (f : A → bool) (l : list A) : Z := sumZ (λ x, if f x then 1 else 0) l.

Lemma Record_upper os b : tokens (foldl (flip Record_) b os) ≤
  Z.max 0 (tokens b - budgetFailure * countZ isUnavailable os) + budgetSuccess * countZ isSuccess os.
Proof.
  unfold countZ. revert b. induction os as [|o os IH]; intros b; [simpl; lia|].
  cbn [foldl]. etransitivity; [apply IH|].
  pose proof (sumZ_nonneg (λ x, if isUnavailable x then 1 else 0) os ltac:(intros x _; simpl; by destruct (isUnavailable x))).
  pose proof (sumZ_nonneg (λ x, if isSuccess x then 1 else 0) os ltac:(intros x _; simpl; by destruct (isSuccess x))).
  destruct o; simpl; unfold budgetMax, budgetSuccess, budgetFailure in *; lia.
Qed.

(** The retry budget (P4.8): whatever was recorded before, the tokens stay between none
    and a full bucket; and if a stretch of calls had [f] unavailable answers and [s]
    successes, in any order, retries are allowed after it only when [1000 f < 5000 + 100 s]
    or the successes alone refill half the bucket. Five unavailable answers in a row stop
    the retries. *)
Theorem budget_limits before os :
  let b := foldl (flip Record_) NewBudget before in
  let b' := foldl (flip Record_) b os in
  0 ≤ tokens b' ≤ budgetMax ∧
  (AllowsRetry b' = true →
   budgetFailure * countZ isUnavailable os < budgetThreshold + budgetSuccess * countZ isSuccess os ∨
   budgetThreshold < budgetSuccess * countZ isSuccess os).
Proof.
  intros b b'.
  assert (0 ≤ tokens b ≤ budgetMax) as Hb by (apply Record_many; done).
  split; [by apply Record_many|].
  unfold AllowsRetry. rewrite bool_decide_eq_true. intros Ht.
  pose proof (Record_upper os b) as Hu. fold b' in Hu.
  unfold budgetMax, budgetThreshold, budgetFailure in *. lia.
Qed.
