(* ===== verification/Breaker.v ===== *)
(** * Outbound calls: the circuit breaker

    [calls/breaker.go]: [Start] admits or rejects a call, [End] records its outcome. The
    mutex makes each a single step; times are those of a monotonic clock. *)
From S2P Require Import Prelude CallsPolicy.
Open Scope Z_scope.

Definition BreakerWindow : Z := 20.
Definition BreakerOpenFirst : Z := 5 * Second.
Definition BreakerOpenMax : Z := 30 * Second.
Definition BreakerTrialsToClose : Z := 3.

Inductive bstate := Closed | Open | HalfOpen.
#[export] Instance bstate_eq_dec : EqDecision bstate.
Proof. solve_decision. Defined.

Record Breaker := mkBreaker {
  bstate_ : bstate;
  window : list bool;      (** true: a dependency failure; oldest first *)
  openedAt : Z;
  openFor : Z;
  trial : Z;               (** the permit holding the trial slot, 0 when free *)
  trialOK : Z;
  next : Z                 (** uint64 *)
}.

(** A permit is the number of the call; 0 is the zero permit of a rejection. *)
Definition Permit : Type := Z.

Definition NewBreaker : Breaker := mkBreaker Closed [] 0 BreakerOpenFirst 0 0 0.

(** [Start]: the breaker after it, the permit and whether the call is admitted. *)
Definition Start (now : Z) (b : Breaker) : Breaker * Permit * bool :=
  let nx := uint64 (next b + 1) in
  let b := mkBreaker (bstate_ b) (window b) (openedAt b) (openFor b) (trial b) (trialOK b) nx in
  let p := nx in
  let enter (b : Breaker) : Breaker * Permit * bool :=
    if decide (bstate_ b = HalfOpen) then
      if decide (trial b ≠ 0) then (b, 0, false)
      else (mkBreaker (bstate_ b) (window b) (openedAt b) (openFor b) p (trialOK b) nx, p, true)
    else (b, p, true) in
  if decide (bstate_ b = Open) then
    if decide (timeSub now (openedAt b) < openFor b) then (b, 0, false)
    else enter (mkBreaker HalfOpen (window b) (openedAt b) (openFor b) 0 0 nx)
  else enter b.

Definition failures (w : list bool) : Z := countZ id w.

(** Keep the last [BreakerWindow] outcomes. *)
Definition trim (w : list bool) : list bool :=
  if decide (BreakerWindow < Z.of_nat (length w)) then drop (length w - Z.to_nat BreakerWindow) w else w.

Definition End_ (p : Permit) (now : Z) (o : breakerOutcome) (b : Breaker) : Breaker :=
  match bstate_ b with
  | HalfOpen =>
      if decide (trial b ≠ p) then b
      else match o with
        | BreakerFailure =>
            mkBreaker Open (window b) now (Z.min (2 * openFor b) BreakerOpenMax) 0 0 (next b)
        | BreakerSuccess =>
            if decide (BreakerTrialsToClose ≤ trialOK b + 1)
            then mkBreaker Closed [] (openedAt b) BreakerOpenFirst 0 (trialOK b + 1) (next b)
            else mkBreaker HalfOpen (window b) (openedAt b) (openFor b) 0 (trialOK b + 1) (next b)
        | BreakerIgnored => mkBreaker HalfOpen (window b) (openedAt b) (openFor b) 0 (trialOK b) (next b)
        end
  | Closed =>
      match o with
      | BreakerIgnored => b
      | _ =>
          let w := trim (window b ++ [bool_decide (o = BreakerFailure)]) in
          if decide (Z.of_nat (length w) = BreakerWindow ∧ BreakerWindow < failures w * 2)
          then mkBreaker Open [] now (openFor b) (trial b) (trialOK b) (next b)
          else mkBreaker Closed w (openedAt b) (openFor b) (trial b) (trialOK b) (next b)
      end
  | Open => b
  end.

(** ** Well-formed breakers *)

Record wf (b : Breaker) : Prop := {
  wf_window : Z.of_nat (length (window b)) ≤ BreakerWindow;
  wf_quiet : bstate_ b = Closed → Z.of_nat (length (window b)) = BreakerWindow → failures (window b) * 2 ≤ BreakerWindow;
  wf_openFor : BreakerOpenFirst ≤ openFor b ≤ BreakerOpenMax;
  wf_trialOK : bstate_ b = HalfOpen → 0 ≤ trialOK b < BreakerTrialsToClose;
  wf_first : bstate_ b = Closed → openFor b = BreakerOpenFirst;
  wf_trial : bstate_ b ≠ HalfOpen → trial b = 0
}.

(** ** Lists of outcomes *)

Definition lastn {A} (n : nat) (l : list A) : list A := drop (length l - n) l.

Lemma length_lastn {A} n (l : list A) : length (lastn n l) = Nat.min n (length l).
Proof. unfold lastn. rewrite length_drop. lia. Qed.

Lemma lastn_snoc {A} n (l : list A) x : (0 < n)%nat →
  lastn n (lastn n l ++ [x]) = lastn n (l ++ [x]).
Proof.
  intros Hn. unfold lastn. rewrite !length_app, length_drop. simpl.
  destruct (decide (length l < n)%nat).
  - replace (length l - n)%nat with 0%nat by lia. rewrite drop_0.
    replace (length l - 0 + 1 - n)%nat with (length l + 1 - n)%nat by lia. done.
  - rewrite !drop_app_le by (rewrite ?length_drop; lia). rewrite drop_drop. f_equal. f_equal. lia.
Qed.

Lemma trim_lastn w : trim w = lastn (Z.to_nat BreakerWindow) w.
Proof.
  unfold trim, lastn, BreakerWindow. destruct (decide _) as [|H]; [done|].
  replace (length w - Z.to_nat 20)%nat with 0%nat by lia. done.
Qed.

Lemma failures_bounds w : 0 ≤ failures w ≤ Z.of_nat (length w).
Proof. unfold failures, countZ. induction w as [|[] w IH]; simpl in *; lia. Qed.

Lemma prefix_snoc {A} (p l : list A) x : p `prefix_of` l ++ [x] ↔ p `prefix_of` l ∨ p = l ++ [x].
Proof.
  split.
  - intros [q Hq]. destruct q as [|y q _] using rev_ind; [right; by rewrite app_nil_r in Hq|].
    left. rewrite app_assoc in Hq. apply app_inj_2 in Hq as [-> _]; [by exists q|done].
  - intros [[q ->]| ->]; [|done]. exists (q ++ [x]). by rewrite app_assoc.
Qed.

(** ** Runs of a breaker *)

Inductive event := EStart (now : Z) | EEnd (p : Permit) (now : Z) (o : breakerOutcome).

Definition bstep (b : Breaker) (e : event) : Breaker :=
  match e with EStart now => (Start now b).1.1 | EEnd p now o => End_ p now o b end.

Lemma NewBreaker_wf : wf NewBreaker.
Proof. split; simpl; unfold BreakerWindow, BreakerOpenFirst, BreakerOpenMax; try done. Qed.

Lemma Start_wf now b : wf b → wf (Start now b).1.1.
Proof.
  intros [Hw Hq Ho Ht Hf Htr]. unfold Start. simpl.
  destruct (bstate_ b) eqn:Hb; simpl.
  - split; simpl; auto; congruence.
  - destruct (decide (timeSub now (openedAt b) < openFor b)); simpl.
    + split; simpl; auto; congruence.
    + split; simpl; done.
  - destruct (decide (trial b ≠ 0)); simpl; (split; simpl; rewrite ?Hb in *; auto; congruence).
Qed.

Lemma End_wf p now o b : wf b → wf (End_ p now o b).
Proof.
  intros [Hw Hq Ho Ht Hf Htr]. unfold End_.
  destruct (bstate_ b) eqn:Hb; [|by split; rewrite ?Hb in *|].
  - destruct o; [| |by split; rewrite ?Hb in *].
    all: rewrite trim_lastn; destruct (decide _) as [|Hn]; split; simpl; auto; try done.
    all: try (unfold BreakerWindow; simpl; lia).
    all: try (rewrite length_lastn; unfold BreakerWindow; lia).
    all: intros _ Hl; apply Z.nlt_ge; intros Hgt; by apply Hn.
  - specialize (Ht eq_refl). destruct (decide (trial b ≠ p)); [split; rewrite ?Hb in *; auto; congruence|].
    unfold BreakerWindow, BreakerOpenFirst, BreakerOpenMax, BreakerTrialsToClose, Second in *.
    destruct o; [destruct (decide _)| |]; split; simpl; auto; try done;
      unfold BreakerOpenFirst, BreakerOpenMax, BreakerTrialsToClose, Second in *; lia.
Qed.

Lemma bsteps_wf es b : wf b → wf (foldl bstep b es).
Proof.
  revert b. induction es as [|[] es IH]; intros b Hb; simpl; auto using Start_wf, End_wf.
Qed.

(** The breaker's invariant (P4.11-P4.14): after any interleaving of starts and ends,
    at any times and with any outcomes, the window holds at most twenty outcomes, a closed
    breaker with a full window has at most half failures, the open period is between five
    and thirty seconds and is five while closed, a half-open breaker has had fewer than
    three successful trials, and only a half-open breaker has a trial in flight. *)
Theorem breaker_invariant es : wf (foldl bstep NewBreaker es).
Proof. apply bsteps_wf, NewBreaker_wf. Qed.

(** The outcomes that count, oldest first. *)
Definition counted (os : list (Permit * Z * breakerOutcome)) : list bool :=
  omap (λ x, match x.2 with BreakerIgnored => None | o => Some (bool_decide (o = BreakerFailure)) end) os.

Definition feed (b : Breaker) (os : list (Permit * Z * breakerOutcome)) : Breaker :=
  foldl (λ b x, End_ x.1.1 x.1.2 x.2 b) b os.

(** A full window with more than half failures. *)
Definition failing (h : list bool) : Prop :=
  BreakerWindow ≤ Z.of_nat (length h) ∧ BreakerWindow < failures (lastn (Z.to_nat BreakerWindow) h) * 2.

Lemma counted_snoc os p now o : counted (os ++ [(p, now, o)]) =
  match o with BreakerIgnored => counted os | _ => counted os ++ [bool_decide (o = BreakerFailure)] end.
Proof. unfold counted. rewrite omap_app. destruct o; simpl; rewrite ?app_nil_r; done. Qed.

(** C30. When a closed breaker opens (P4.11): fed any sequence of outcomes, a new breaker is
    open exactly when at some moment the last twenty counted outcomes had more than ten
    failures; until then its window is exactly the last twenty counted outcomes. Ignored
    outcomes never matter. *)
Theorem opens_iff_failing os :
  let h := counted os in
  (bstate_ (feed NewBreaker os) = Open ↔ ∃ p, p `prefix_of` h ∧ failing p) ∧
  (bstate_ (feed NewBreaker os) ≠ Open →
     bstate_ (feed NewBreaker os) = Closed ∧ window (feed NewBreaker os) = lastn (Z.to_nat BreakerWindow) h).
Proof.
  cbn zeta. induction os as [|[[p now] o] os [IH1 IH2]] using rev_ind.
  { split; [|done]. split; [done|]. intros (p & Hp & Hl & _). apply prefix_nil_inv in Hp as ->. done. }
  unfold feed in *. rewrite foldl_snoc. simpl. set (b := foldl _ _ os) in *.
  rewrite counted_snoc. unfold End_. destruct (bstate_ b) eqn:Hb; cbv iota.
  - destruct IH2 as [_ Hw]; [done|].
    destruct o; [| |rewrite Hb; split; [rewrite <- IH1; done|done]].
    all: match goal with |- context [trim (_ ++ [?y])] => set (x := y) in * end.
    all: rewrite trim_lastn, Hw, lastn_snoc by (unfold BreakerWindow; lia).
    all: assert (Hlen : Z.of_nat (length (lastn (Z.to_nat BreakerWindow) (counted os ++ [x]))) = BreakerWindow
           ↔ BreakerWindow ≤ Z.of_nat (length (counted os ++ [x])))
           by (rewrite length_lastn; unfold BreakerWindow; lia).
    all: destruct (decide _) as [[H1 H2]|Hn]; simpl.
    all: split; [split; [|try done]|try done].
    all: try (intros _; exists (counted os ++ [x]); split; [done|split; [by apply Hlen|done]]).
    all: try (intros (q & [Hq| ->]%prefix_snoc & Hf);
              [discriminate (proj2 IH1 (ex_intro _ q (conj Hq Hf)))|
               exfalso; apply Hn; destruct Hf as [Hf1 Hf2]; split; [by apply Hlen|done]]).
    all: intros ?; by simplify_eq.
  - rewrite Hb. split; [split; [|done]|done]. intros _.
    destruct (proj1 IH1 eq_refl) as (q & Hq & Hf). exists q. split; [|done].
    destruct o; [apply prefix_snoc; auto..|done].
  - exfalso. destruct IH2 as [? _]; [done|]. congruence.
Qed.

(** At most one trial in a half-open breaker (P4.12): from the moment a trial is in
    flight until its own result comes, every start is refused and every other result,
    those of calls admitted before the breaker opened included, changes nothing. *)
Theorem single_trial b es :
  bstate_ b = HalfOpen → trial b ≠ 0 →
  (∀ now o, EEnd (trial b) now o ∉ es) →
  let b' := foldl bstep b es in
  bstate_ b' = HalfOpen ∧ trial b' = trial b ∧ trialOK b' = trialOK b ∧
  ∀ now, (Start now b').2 = false.
Proof.
  intros Hb Ht Hes b'.
  assert (bstate_ b' = HalfOpen ∧ trial b' = trial b ∧ trialOK b' = trialOK b) as (H1 & H2 & H3).
  { unfold b'. revert Hes. induction es as [|e es IH] using rev_ind; intros Hes; [done|].
    rewrite foldl_snoc. destruct IH as (H1 & H2 & H3); [set_solver|].
    destruct e as [now|p now o]; simpl.
    - unfold Start. simpl. rewrite H1. simpl. rewrite decide_True by congruence. done.
    - unfold End_. rewrite H1. rewrite decide_True; [done|]. rewrite H2. intros <-. set_solver. }
  split_and!; try done. intros now. unfold Start. simpl. rewrite H1. simpl.
  by rewrite decide_True by congruence.
Qed.

(** An open breaker lets calls through again, and not before (P4.13): until its open
    period is over every start is refused and every late result ignored; the first start
    after it, at most thirty seconds after the breaker opened, is admitted as the trial. *)
Theorem open_then_trial b es now :
  wf b → bstate_ b = Open → openedAt b ≤ now →
  (∀ t, EStart t ∈ es → openedAt b ≤ t < openedAt b + openFor b) →
  let b' := foldl bstep b es in
  bstate_ b' = Open ∧ openedAt b' = openedAt b ∧ openFor b' = openFor b ∧
  (now < openedAt b + openFor b → (Start now b').2 = false) ∧
  (openedAt b + openFor b ≤ now → next b' + 1 < 2 ^ 64 → 0 ≤ next b' →
    bstate_ (Start now b').1.1 = HalfOpen ∧ (Start now b').2 = true ∧
    trial (Start now b').1.1 = (Start now b').1.2 ∧ (Start now b').1.2 ≠ 0) ∧
  openFor b ≤ BreakerOpenMax.
Proof.
  intros Hwf Hb Hnow Hes b'. destruct Hwf as [_ _ [Ho1 Ho2] _ _ _].
  unfold BreakerOpenFirst, BreakerOpenMax, Second in *.
  assert (Hlt : ∀ t, openedAt b ≤ t → timeSub t (openedAt b) < openFor b ↔ t < openedAt b + openFor b)
    by (intros; unfold timeSub, int64_min, int64_max; lia).
  assert (bstate_ b' = Open ∧ openedAt b' = openedAt b ∧ openFor b' = openFor b) as (H1 & H2 & H3).
  { unfold b'. revert Hes. induction es as [|e es IH] using rev_ind; intros Hes; [done|].
    rewrite foldl_snoc. destruct IH as (H1 & H2 & H3); [set_solver|].
    destruct e as [t|p t o]; simpl.
    - unfold Start. simpl. rewrite H1. simpl. rewrite H2, H3.
      assert (openedAt b ≤ t < openedAt b + openFor b) by (apply Hes; set_solver).
      rewrite decide_True by (apply Hlt; lia). done.
    - unfold End_. by rewrite H1. }
  split_and!; try done.
  - intros Hl. unfold Start. simpl. rewrite H1. simpl. rewrite H2, H3.
    by rewrite decide_True by (by apply Hlt).
  - intros Hg Hn Hn0. unfold Start. simpl. rewrite H1. simpl. rewrite H2, H3.
    rewrite decide_False by (rewrite Hlt; lia). simpl. split_and!; try done.
    unfold uint64. rewrite Z.mod_small; lia.
Qed.

Lemma feed_wf os b : wf b → wf (feed b os).
Proof. unfold feed. revert b. induction os; intros b Hb; simpl; auto using End_wf. Qed.

Definition tripping : list (Permit * Z * breakerOutcome) := replicate 20 (1, 0, BreakerFailure).

Lemma single_trial_witness :
  let b := (Start (5 * Second) (feed NewBreaker tripping)).1.1 in
  trial b = 1 ∧ (Start (6 * Second) (foldl bstep b [EEnd 7 0 BreakerSuccess; EStart (6 * Second)])).2 = false.
Proof.
  split; [vm_compute; reflexivity|].
  apply (single_trial (Start (5 * Second) (feed NewBreaker tripping)).1.1
    [EEnd 7 0 BreakerSuccess; EStart (6 * Second)]); [vm_compute; reflexivity|vm_compute; done|].
  intros now o. vm_compute. intros H. repeat (apply elem_of_cons in H as [H|H]; [discriminate H|]).
  by apply elem_of_nil in H.
Defined.

Lemma open_then_trial_witness :
  let b := feed NewBreaker tripping in
  (Start (4 * Second) b).2 = false ∧ (Start (5 * Second) (foldl bstep b [EStart (4 * Second)])).2 = true.
Proof.
  pose proof (feed_wf tripping NewBreaker NewBreaker_wf) as Hwf.
  split; [vm_compute; reflexivity|].
  destruct (open_then_trial (feed NewBreaker tripping) [EStart (4 * Second)] (5 * Second) Hwf)
    as (_ & _ & _ & _ & H & _).
  - vm_compute. reflexivity.
  - vm_compute. discriminate.
  - intros t Ht. apply list_elem_of_singleton in Ht. injection Ht as ->.
    split; [vm_compute; discriminate|vm_compute; reflexivity].
  - apply H; vm_compute; (reflexivity || discriminate).
Defined.
