(* ===== verification/Dependency.v ===== *)
(** * Outbound calls: one call to a dependency

    [calls/dependency.go]: [do], the loop every HTTP and gRPC call goes through, over the
    concurrency limit, the breaker and the retry budget of one dependency. Its metrics are
    not modelled.

    What the loop asks of the world in its n-th turn is a record: the time left, the clock,
    what the attempt returned, the random backoff, and what other calls through the same
    dependency did to the limit, the breaker and the budget meanwhile. *)
From S2P Require Import Prelude Errs CallsPolicy Breaker.
Open Scope Z_scope.

Record shared := mkShared { breaker : Breaker; budget : Budget }.

Record Dependency := mkDependency {
  dID : string;
  inUse : Z;            (** tokens in the channel [limit] *)
  dshared : shared
}.
Definition setShared (s : shared) (d : Dependency) : Dependency := mkDependency (dID d) (inUse d) s.
(** Sending to [limit], a channel of [OutboundLimit] places, and receiving from it. *)
Definition acquire (d : Dependency) : option Dependency :=
  if decide (inUse d < OutboundLimit) then Some (mkDependency (dID d) (inUse d + 1) (dshared d)) else None.
Definition release (d : Dependency) : Dependency := mkDependency (dID d) (inUse d - 1) (dshared d).

Record turn := mkTurn {
  remaining : Z;                  (** [remainingOf] before the attempt *)
  hasDeadline : bool;
  slotsBefore : Z;                (** slots other calls took, less those they gave back, *)
  othersBefore : shared → shared; (** and what they did, before the breaker is asked *)
  startNow : Z;
  result : Result;                (** what the attempt returned *)
  canceled : bool;                (** the caller's context was cancelled *)
  slotsDuring : Z;                (** the same while the attempt ran *)
  othersDuring : shared → shared;
  endNow : Z;
  random : Z;
  leftAfter : Z;                  (** [remainingOf] after the attempt *)
  sleepErr : option goerr         (** the context ended during the backoff *)
}.

(** An attempt that was sent: the timeout it was given and how it counted. *)
Definition sent : Type := Z * Class_.

Definition startBreaker (viaBreaker : bool) (now : Z) (s : shared) : shared * Permit * bool :=
  if viaBreaker then
    let '(b, p, ok) := Start now (breaker s) in (mkShared b (budget s), p, ok)
  else (s, 0, true).

Definition recordAttempt (viaBreaker : bool) (p : Permit) (now : Z) (c : Class_) (s : shared) : shared :=
  mkShared (if viaBreaker then End_ p now (BreakerOutcome c) (breaker s) else breaker s)
           (Record_ (BudgetOutcome c) (budget s)).

Definition before (t : turn) (d : Dependency) : Dependency :=
  mkDependency (dID d) (inUse d + slotsBefore t) (othersBefore t (dshared d)).
Definition during (t : turn) (d : Dependency) : Dependency :=
  mkDependency (dID d) (inUse d + slotsDuring t) (othersDuring t (dshared d)).

(** The loop from its n-th turn on; [last] is the previous attempt. The answer is the error
    upward ([None]: success), the dependency and the attempts sent; the whole is [None]
    when the fuel runs out. *)
Fixpoint turns (fuel : nat) (idempotent viaBreaker : bool) (env : nat → turn) (n : nat)
    (last : option (Class_ * Result)) (d : Dependency) : option (option goerr * Dependency * list sent) :=
  match fuel with
  | O => None
  | S fuel =>
      let t := env n in
      let d := before t d in
      let refuse (e : Error) : option goerr :=
        match last with
        | Some (c, r) => Upward c r idempotent (dID d)
        | None => Some (GErr e)
        end in
      match AttemptTimeout (remaining t) (hasDeadline t) with
      | None => Some (refuse (With (New ReasonDeadlineBudgetExhausted
                  "not enough time was left to call a dependency") "dependency" (dID d)), d, [])
      | Some timeout =>
          let '(s, permit, admitted) := startBreaker viaBreaker (startNow t) (dshared d) in
          let d := setShared s d in
          if negb admitted then
            Some (refuse (WithRetryAfter (With (New ReasonCircuitOpen
              "a dependency is failing; calls to it are paused") "dependency" (dID d)) Second), d, [])
          else
            let r := result t in
            let class := Classify r (canceled t) in
            let d := during t d in
            let d := setShared (recordAttempt viaBreaker permit (endNow t) class (dshared d)) d in
            if decide (class = ClassSuccess) then Some (None, d, [(timeout, class)])
            else
              let backoff := random t mod (MaxBackoff (Z.of_nat n) + 1) in
              if negb (ShouldRetry idempotent (RetryOutcome class) (Z.of_nat n) (AllowsRetry (budget (dshared d)))
                         (leftAfter t - backoff) (hasDeadline t))
              then Some (Upward class r idempotent (dID d), d, [(timeout, class)])
              else
                match sleepErr t with
                | Some err => Some (Upward ClassCancelled (mkResult (Some err) OKCode None false) idempotent (dID d),
                                    d, [(timeout, class)])
                | None =>
                    match turns fuel idempotent viaBreaker env (S n) (Some (class, r)) d with
                    | Some (e, d, l) => Some (e, d, (timeout, class) :: l)
                    | None => None
                    end
                end
      end
  end.

(** [do]: [inTx] is [db.InTx(ctx)]. A slot is taken from [limit]; the deferred receive
    gives it back however the loop returns. *)
Definition do_ (fuel : nat) (inTx : bool) (idempotent viaBreaker : bool) (env : nat → turn) (d : Dependency)
    : option (option goerr * Dependency * list sent) :=
  if inTx then Some (Some (GErr (New ReasonInternal "")), d, [])
  else
    match acquire d with
    | None => Some (Some (GErr (WithRetryAfter (With (New ReasonOutboundLimit
        "too many calls to a dependency are in progress") "dependency" (dID d)) Second)), d, [])
    | Some d =>
        match turns fuel idempotent viaBreaker env 1 None d with
        | Some (e, d, l) => Some (e, release d, l)
        | None => None
        end
    end.

(** What the other calls took from [limit], less what they gave back, in [k] turns from
    turn [n] on; [sent]: whether the last of them sent its attempt. *)
Fixpoint othersSlots (env : nat → turn) (n k : nat) (sent : bool) : Z :=
  match k with
  | O => 0
  | 1%nat => slotsBefore (env n) + (if sent then slotsDuring (env n) else 0)
  | S k => slotsBefore (env n) + slotsDuring (env n) + othersSlots env (S n) k sent
  end.

(** ** The attempts of a call *)

(** How many attempts a call may send. *)
Definition allowance (idempotent : bool) : nat := if idempotent then 3 else 1.

(** The attempts sent from turn [n] on: each within its bounds, all but the last of a class
    that allows a retry, the last one telling the answer. *)
Inductive attempts (env : nat → turn) (idempotent : bool) (id : string) : nat → list sent → option goerr → Prop :=
| at_success n timeout c :
    AttemptTimeout (remaining (env n)) (hasDeadline (env n)) = Some timeout →
    c = Classify (result (env n)) (canceled (env n)) → c = ClassSuccess →
    attempts env idempotent id n [(timeout, c)] None
| at_final n timeout c e :
    AttemptTimeout (remaining (env n)) (hasDeadline (env n)) = Some timeout →
    c = Classify (result (env n)) (canceled (env n)) → c ≠ ClassSuccess →
    (e = Upward c (result (env n)) idempotent id ∨ e = Some (GErr (New ReasonRequestCancelled "the request was cancelled"))) →
    attempts env idempotent id n [(timeout, c)] e
| at_retry n timeout c l e :
    AttemptTimeout (remaining (env n)) (hasDeadline (env n)) = Some timeout →
    c = Classify (result (env n)) (canceled (env n)) →
    idempotent = true → c = ClassUnavailable ∨ c = ClassConnectFailed → (n < 3)%nat →
    attempts env idempotent id (S n) l e →
    attempts env idempotent id n ((timeout, c) :: l) e.

(** Enough fuel: the loop ends, with such attempts or, in its first turn, with none; the
    slots change only by what the other calls do. *)
Lemma turns_attempts fuel idempotent viaBreaker env n last d :
  (1 ≤ n)%nat → (3 < fuel + n)%nat → (0 < fuel)%nat →
  (∀ c r, last = Some (c, r) → c ≠ ClassSuccess) →
  ∃ e d' l k, turns fuel idempotent viaBreaker env n last d = Some (e, d', l) ∧
    (length l ≤ k ≤ S (length l))%nat ∧ (1 ≤ k)%nat ∧ inUse d' = inUse d + othersSlots env n k (bool_decide (k = length l)) ∧
    ((l = [] ∧ match last with Some (c, r) => e = Upward c r idempotent (dID d) | None => e ≠ None end) ∨
     attempts env idempotent (dID d) n l e).
Proof.
  revert n last d. induction fuel as [|fuel IH]; intros n last d Hn Hf Hpos Hlast; [lia|].
  cbn [turns].
  destruct (AttemptTimeout (remaining (env n)) (hasDeadline (env n))) as [timeout|] eqn:Ht.
  2: { do 3 eexists. exists 1%nat. split; [done|]. split; [simpl; lia|]. split; [done|]. split; [simpl; lia|].
       left. split; [done|]. by destruct last as [[]|]. }
  destruct (startBreaker viaBreaker (startNow (env n)) (dshared (before (env n) d))) as [[s1 p] ok].
  destruct ok; cbn [negb].
  2: { do 3 eexists. exists 1%nat. split; [done|]. split; [simpl; lia|]. split; [done|]. split; [simpl; lia|].
       left. split; [done|]. by destruct last as [[]|]. }
  set (c := Classify (result (env n)) (canceled (env n))). set (d1 := setShared _ (during (env n) (setShared s1 (before (env n) d)))).
  assert (Hone : inUse d1 = inUse d + othersSlots env n 1 true) by (cbn; lia).
  destruct (decide (c = ClassSuccess)) as [Hc|Hc].
  { do 3 eexists. exists 1%nat. split; [done|]. split; [simpl; lia|]. split; [done|]. split; [done|]. right. by apply at_success. }
  destruct (ShouldRetry _ _ _ _ _ _) eqn:Hr; cbn [negb].
  2: { do 3 eexists. exists 1%nat. split; [done|]. split; [simpl; lia|]. split; [done|]. split; [done|]. right. apply at_final; auto. }
  destruct (sleepErr (env n)).
  { do 3 eexists. exists 1%nat. split; [done|]. split; [simpl; lia|]. split; [done|]. split; [done|]. right. apply at_final; auto. }
  apply ShouldRetry_true in Hr as (Hid & Ho & Hlt & _). rewrite RetryOutcome_retryable in Ho.
  unfold MaxAttempts in Hlt.
  destruct (IH (S n) (Some (c, result (env n))) d1) as (e & d' & l & k & -> & Hk & Hk1 & Hu & Hl);
    [lia|lia|lia|by intros ?? [= <- <-]|].
  do 3 eexists. exists (S k). split; [done|]. split; [simpl; lia|]. split; [lia|]. split.
  { rewrite Hu, Hone. destruct k as [|k]; [lia|]. cbn [length]. rewrite (bool_decide_ext (S (S k) = S (length l)) (S k = length l)) by lia.
    cbn [othersSlots]. lia. }
  right. destruct Hl as [[-> ->]|Hl].
  - apply at_final; auto.
  - apply at_retry; auto. lia.
Qed.

Lemma attempts_length env idempotent id n l e : (1 ≤ n)%nat →
  attempts env idempotent id n l e → l ≠ [] ∧ (length l + n ≤ S (if idempotent then Nat.max n 3 else n))%nat.
Proof.
  intros Hn H. induction H; simpl; (split; [done|destruct idempotent; lia]).
Qed.

(** The attempts after the first are retries of an idempotent call, after an unavailable
    dependency. *)
Lemma attempts_classes env idempotent id n l e i x : attempts env idempotent id n l e →
  l !! i = Some x → (S i < length l)%nat →
  idempotent = true ∧ (x.2 = ClassUnavailable ∨ x.2 = ClassConnectFailed).
Proof.
  intros H. revert i. induction H; intros i Hi Hlt; simpl in *; [lia|lia|].
  destruct i as [|i]; simpl in *; [by simplify_eq|]. apply (IHattempts i); [done|lia].
Qed.

Lemma attempts_timeouts env idempotent id n l e i x : attempts env idempotent id n l e →
  l !! i = Some x →
  0 ≤ x.1 ≤ MaxAttemptTimeout ∧ x.1 + DeadlineReserve ≤ remaining (env (n + i)%nat) ∧
  x.2 = Classify (result (env (n + i)%nat)) (canceled (env (n + i)%nat)).
Proof.
  intros H. revert i. induction H; intros i Hi; destruct i as [|i]; simpl in *; simplify_eq/=;
    try (rewrite Nat.add_0_r; apply AttemptTimeout_bounds in H as (_ & ? & ?); done).
  replace (n + S i)%nat with (S n + i)%nat by lia. by apply IHattempts.
Qed.

Lemma Upward_none c r idempotent id : Upward c r idempotent id = None ↔ c = ClassSuccess.
Proof. split; [|by intros ->]. destruct c; simpl; try done; repeat case_match; try done. Qed.

Lemma attempts_success env idempotent id n l e : attempts env idempotent id n l e →
  e = None ↔ ∃ t, last l = Some (t, ClassSuccess).
Proof.
  induction 1 as [n t c Ht Hc Hs|n t c e Ht Hc Hs He|n t c l e Ht Hc Hid Hu Hn H IH].
  - simpl. rewrite Hs. split; [eauto|done].
  - simpl. assert (¬ ∃ t0, Some (t, c) = Some (t0, ClassSuccess)) by (intros [? [= ??]]; done).
    destruct He as [-> | ->]; [rewrite Upward_none|]; by split.
  - rewrite IH. by destruct H.
Qed.

(** ** Properties *)

(** C29. A call ends, and is sent at most three times (P4.6-P4.7): whatever the dependency,
    the clock, the randomness and the other calls do, three turns of the loop are enough;
    a call that is not idempotent is sent at most once, a call inside a database
    transaction or beyond the concurrency limit not at all; a call is repeated only after
    an attempt that found the dependency itself unavailable; each attempt is given at most
    three seconds and leaves fifty milliseconds of what remains.  However the call ends,
    the slot it took is given back: the slots in use change by what the other calls took
    and gave back in its turns, and by nothing else. *)
Theorem do_bounded inTx idempotent viaBreaker env d :
  ∃ e d' l k, do_ 3 inTx idempotent viaBreaker env d = Some (e, d', l) ∧
    (length l ≤ k ≤ S (length l))%nat ∧ inUse d' = inUse d + othersSlots env 1 k (bool_decide (k = length l)) ∧
    (length l ≤ allowance idempotent)%nat ∧ (inTx = true ∨ OutboundLimit ≤ inUse d → l = []) ∧
    (∀ i x, l !! i = Some x →
      0 ≤ x.1 ≤ MaxAttemptTimeout ∧ x.1 + DeadlineReserve ≤ remaining (env (S i)) ∧
      ((S i < length l)%nat → idempotent = true ∧ (x.2 = ClassUnavailable ∨ x.2 = ClassConnectFailed))).
Proof.
  unfold do_, allowance, acquire. assert (Hnone : ∀ i x, ([] : list sent) !! i = Some x → False) by (intros i x Hi; by rewrite lookup_nil in Hi).
  destruct inTx.
  { do 3 eexists. exists 0%nat. split; [done|]. split; [simpl; lia|]. split; [simpl; lia|]. split; [simpl; lia|]. split; [done|].
    by intros i x []%Hnone. }
  destruct (decide _) as [Hlim|Hlim].
  2: { do 3 eexists. exists 0%nat. split; [done|]. split; [simpl; lia|]. split; [simpl; lia|]. split; [simpl; lia|]. split; [done|].
       by intros i x []%Hnone. }
  destruct (turns_attempts 3 idempotent viaBreaker env 1 None (mkDependency (dID d) (inUse d + 1) (dshared d)))
    as (e & d' & l & k & -> & Hk & _ & Hu & Hl); [lia..|done|].
  do 3 eexists. exists k. split; [done|]. split; [done|]. split; [cbn in *; lia|].
  assert (Hn : ∀ P : list sent → Prop, (false = true ∨ OutboundLimit ≤ inUse d → P l)) by (intros P [?|?]; [done|lia]).
  destruct Hl as [[-> _]|Hl].
  { split; [simpl; lia|]. split; [done|]. by intros i x []%Hnone. }
  destruct (attempts_length _ _ _ 1 _ _ ltac:(lia) Hl) as [_ Hlen].
  split; [destruct idempotent; lia|]. split; [apply (Hn (λ l, l = []))|]. intros i x Hi.
  destruct (attempts_timeouts _ _ _ _ _ _ _ _ Hl Hi) as (H1 & H2 & _). split; [done|]. split; [done|].
  intros Hlt. by eapply attempts_classes.
Qed.

(** No false success (P4.19): a call answers success exactly when its last attempt was
    answered successfully; without any attempt it always answers an error. *)
Theorem do_success_iff inTx idempotent viaBreaker env d e d' l :
  do_ 3 inTx idempotent viaBreaker env d = Some (e, d', l) →
  e = None ↔ ∃ t, last l = Some (t, ClassSuccess).
Proof.
  unfold do_, acquire. destruct inTx; [intros [= <- <- <-]; naive_solver|].
  destruct (decide _); [|intros [= <- <- <-]; naive_solver].
  destruct (turns_attempts 3 idempotent viaBreaker env 1 None (mkDependency (dID d) (inUse d + 1) (dshared d)))
    as (e' & s' & l' & k & -> & _ & _ & _ & Hl); [lia..|done|].
  intros [= -> <- ->]. destruct Hl as [[-> He]|Hl]; [naive_solver|]. by apply attempts_success in Hl.
Qed.

(** A command that may have taken effect is never reported as failed or retried
    (P4.19): when a non-idempotent call's attempt ran out of time, the call is sent once
    and its answer is RESULT_UNKNOWN of the platform, which tells the caller to query the
    result before repeating. *)
Theorem deadline_unknown viaBreaker env d e d' l t :
  do_ 3 false false viaBreaker env d = Some (e, d', l) →
  (t, ClassDeadline) ∈ l →
  l = [(t, ClassDeadline)] ∧
  ∃ err, e = Some (GErr err) ∧ eReason err = ReasonResultUnknown ∧ eDomain err = PlatformDomain ∧
    eCode err = DeadlineExceeded ∧ (enRetry <$> platform (eReason err)) = Some RetryQueryFirst.
Proof.
  unfold do_, acquire. destruct (decide _); [|intros [= <- <- <-] H; by apply elem_of_nil in H].
  cbn [turns].
  destruct (AttemptTimeout _ _); [|intros [= <- <- <-] H; by apply elem_of_nil in H].
  destruct (startBreaker _ _ _) as [[s1 p] []]; simpl; [|intros [= <- <- <-] H; by apply elem_of_nil in H].
  destruct (Classify _ _) eqn:Hc; simpl; intros [= <- <- <-] Hin%list_elem_of_singleton; simplify_eq.
  split; [done|]. eexists. split; [done|]. vm_compute. done.
Qed.

(** ** A concrete call *)

Definition quiet (r : Result) : turn :=
  mkTurn (10 * Second) true 0 id 0 r false 0 id 0 7 (9 * Second) None.
Definition okResult : Result := mkResult None OKCode None false.
Definition slow : Result := mkResult (Some GDeadline) DeadlineExceeded None false.
Definition down : Result := mkResult (Some (GOther "refused")) Unavailable None false.
Definition dep : Dependency := mkDependency "erp/stock" 0 (mkShared NewBreaker NewBudget).

Lemma do_success_iff_witness :
  ∃ d' l, do_ 3 false true true (λ n, quiet (if decide (n = 1)%nat then down else okResult)) dep = Some (None, d', l) ∧
    length l = 2%nat ∧ ∃ t, last l = Some (t, ClassSuccess).
Proof.
  do 2 eexists. split; [vm_compute; reflexivity|]. split; [reflexivity|].
  refine (proj1 (do_success_iff false true true (λ n, quiet (if decide (n = 1)%nat then down else okResult)) dep
    None _ _ _) eq_refl). vm_compute. reflexivity.
Defined.

Lemma deadline_unknown_witness :
  ∃ err d', do_ 3 false false true (λ _, quiet slow) dep = Some (Some (GErr err), d', [(MaxAttemptTimeout, ClassDeadline)]) ∧
    eReason err = ReasonResultUnknown.
Proof.
  do 2 eexists. split; [vm_compute; reflexivity|].
  destruct (deadline_unknown true (λ _, quiet slow) dep _ _ _ MaxAttemptTimeout
    ltac:(vm_compute; reflexivity) ltac:(apply list_elem_of_singleton; reflexivity)) as (_ & err & He & Hr & _).
  injection He as <-. exact Hr.
Defined.
