(* ===== verification/ExtState.v ===== *)
(** * External commands: the state table

    [extcmd/state.go]: the states of a command sent to an external system, the resend
    deadline, when a request that was not found may be sent again, and [Step]. *)
From S2P Require Import Prelude.
Open Scope string_scope.
Open Scope Z_scope.

Inductive estate := Prepared | RetryWait | Sending | Unknown | Accepted | Manual | Succeeded | Failed | Rejected.
#[export] Instance estate_eq_dec : EqDecision estate.
Proof. solve_decision. Defined.

(** A send's result as the adapter classifies it; an adapter may give any other word. *)
Inductive sendClass :=
| NotReached | MaybeReached | RAccepted | RSucceeded | RFailed | RRejected | ROther (word : string).
#[export] Instance sendClass_eq_dec : EqDecision sendClass.
Proof. solve_decision. Defined.

(** The external system's state as a query reports it: a word of [estate] or any other. *)
Inductive external := XState (s : estate) | XOther (word : string).

(** The words the tables and the adapter use. *)
Definition stateWord (s : estate) : string :=
  match s with
  | Prepared => "prepared" | RetryWait => "retry_wait" | Sending => "sending" | Unknown => "unknown"
  | Accepted => "accepted" | Manual => "manual" | Succeeded => "succeeded" | Failed => "failed"
  | Rejected => "rejected"
  end.
Definition classWord (r : sendClass) : string :=
  match r with
  | NotReached => "not_reached" | MaybeReached => "maybe_reached" | RAccepted => "accepted"
  | RSucceeded => "succeeded" | RFailed => "failed" | RRejected => "rejected" | ROther w => w
  end.
Definition externalWord (x : external) : string :=
  match x with XState s => stateWord s | XOther w => w end.

Inductive Event :=
| Claim | BeforeSend | LeaseLost | SendResult (r : sendClass) | QueryFound (x : external)
| QueryNotFound | QueryDown | FinalityPassed | Registered (to : estate).

Definition WarnAfter : Z := Hour.
Definition ManualAfter : Z := 24 * Hour.
Definition MinMargin : Z := Hour.

Record Capabilities := mkCaps {
  DedupeWindow : Z;
  LastUse : bool;
  CapQuery : bool;
  CapExpiry : bool;
  MaxProcessing : Z;
  Finality : Z;
  Irrevocable : bool
}.

Record Facts := mkFacts {
  fState : estate;
  ResendDeadline : option Z;
  ExpiresAt : option Z;
  FirstReached : option Z;
  LastReached : option Z;
  UnknownSince : option Z;
  AcceptedSince : option Z;
  UnrecordedUntil : option Z
}.

Definition terminal (s : estate) : bool :=
  match s with Succeeded | Failed | Rejected => true | _ => false end.

Definition Deadline (f : Facts) (c : Capabilities) : option Z :=
  if decide (DedupeWindow c ≤ 0) then None
  else
    let base := if LastUse c then match LastReached f with Some t => Some t | None => FirstReached f end
                else FirstReached f in
    match base with
    | None => None
    | Some base =>
        let m := Z.max (Z.quot (DedupeWindow c) 10) MinMargin in
        Some (base + (DedupeWindow c - m))
    end.

(** The latest moment a request may have left: recorded, or unrecorded before a recovery. *)
Definition latest (f : Facts) : option Z :=
  match UnrecordedUntil f, LastReached f with
  | Some u, None => Some u
  | Some u, Some l => if decide (l < u) then Some u else Some l
  | None, l => l
  end.

Definition resendable (f : Facts) (c : Capabilities) (now : Z) : bool * string :=
  if match Deadline f c with Some d => bool_decide (now ≤ d) | None => false end
  then (true, "the external system deduplicates and the deadline has not passed")
  else if match ExpiresAt f with Some x => bool_decide (x < now) | None => false end
  then (true, "the request's expiry has passed")
  else if match latest f with
          | Some l => bool_decide (0 < MaxProcessing c) && bool_decide (MaxProcessing c < timeSub now l)
          | None => false
          end
  then (true, "the longest processing time has passed")
  else (false, "the earlier request may still land").

Definition pastDeadline (f : Facts) (now : Z) : bool :=
  match ResendDeadline f with Some d => bool_decide (d < now) | None => false end.

(** Longer ago than the manual limit. *)
Definition overdue (since : option Z) (now : Z) : bool :=
  match since with Some t => bool_decide (ManualAfter < timeSub now t) | None => false end.

Definition unchanged (s : estate) : estate * string := (s, "not a transition of the table: unchanged, logged").

Definition Step (f : Facts) (e : Event) (c : Capabilities) (now : Z) : estate * string :=
  let s := fState f in
  if terminal s then (s, "a terminal state absorbs every later result")
  else
  match e, s with
  | Claim, (Prepared | RetryWait) =>
      if pastDeadline f now then (Unknown, "claimed past the resend deadline")
      else (Sending, "claimed: the transition commits before the send")
  | BeforeSend, Sending =>
      if pastDeadline f now then (Unknown, "past the resend deadline before the send: not sent")
      else (Sending, "sent")
  | LeaseLost, Sending => (Unknown, "the claimant is gone: whether it sent is not known")
  | SendResult r, Sending =>
      match r with
      | NotReached => (RetryWait, "certainly not processed: backoff and send again")
      | MaybeReached => (Unknown, "may have been processed: query first")
      | RAccepted => (Accepted, "accepted, not final")
      | RSucceeded => (Succeeded, "final")
      | RFailed => (Failed, "final")
      | RRejected => (Rejected, "refused for good")
      | ROther _ => unchanged s
      end
  | QueryFound x, (Unknown | Accepted) =>
      match x with
      | XState y => if terminal y || bool_decide (y = Accepted) then (y, "the external record")
                    else (s, "the external record, not final")
      | XOther _ => (s, "the external record, not final")
      end
  | QueryDown, (Unknown | Accepted) =>
      let since := if decide (s = Accepted) then AcceptedSince f else UnknownSince f in
      if overdue since now then (Manual, "no answer within the manual limit")
      else (s, "the query is unavailable: backoff")
  | QueryNotFound, Unknown =>
      let '(ok, why) := resendable f c now in
      if ok : bool then (Sending, why) else (Manual, why)
  | FinalityPassed, Accepted =>
      if CapQuery c then (Accepted, "past the finality limit: query")
      else if overdue (AcceptedSince f) now then (Manual, "no query and past the manual limit")
      else (Accepted, "waiting for the callback or the reconciliation")
  | Registered to, Manual => (to, "registered by a person, with its grounds")
  | _, _ => unchanged s
  end.

(** ** Lemmas *)

(** Why a request that may have left can no longer have a second effect: the external
    system still deduplicates it, for [margin] at least, or it can no longer land. *)
Definition harmlessFor (margin : Z) (f : Facts) (c : Capabilities) (now : Z) : Prop :=
  (∃ base, (FirstReached f = Some base ∨ LastReached f = Some base) ∧
     0 < DedupeWindow c ∧ now + margin ≤ base + DedupeWindow c) ∨
  (∃ x, ExpiresAt f = Some x ∧ x < now) ∨
  (∃ l, latest f = Some l ∧ 0 < MaxProcessing c ∧ l + MaxProcessing c < now).
Definition harmless : Facts → Capabilities → Z → Prop := harmlessFor MinMargin.

(** Time passing uses up the margin and nothing else. *)
Lemma harmless_later f c now w : 0 ≤ w → harmless f c now → harmlessFor (MinMargin - w) f c (now + w).
Proof.
  intros Hw [(base & Hb & Hd & Hle)|[(x & Hx & Hlt)|(l & Hl & Hm & Hlt)]].
  - left. exists base. split_and!; try done. lia.
  - right; left. exists x. split; [done|]. lia.
  - right; right. exists l. split_and!; try done. lia.
Qed.

Lemma Deadline_margin f c d : Deadline f c = Some d →
  ∃ base, (FirstReached f = Some base ∨ LastReached f = Some base) ∧
    0 < DedupeWindow c ∧ d + MinMargin ≤ base + DedupeWindow c.
Proof.
  unfold Deadline. destruct (decide _); [done|].
  destruct (LastUse c), (LastReached f) as [l|], (FirstReached f) as [t|]; intros [= <-];
    solve [exists l; (split; [by eauto|]); lia | exists t; (split; [by eauto|]); lia].
Qed.

Lemma resendable_harmless f c now : 0 ≤ MaxProcessing c < int64_max →
  (resendable f c now).1 = true → harmless f c now.
Proof.
  intros Hm. unfold resendable, harmless, harmlessFor.
  destruct (Deadline f c) as [d|] eqn:Hd.
  1: destruct (Deadline_margin _ _ _ Hd) as (base & Hb & Hw & Hle).
  all: repeat case_match; try done; intros _; rewrite ?andb_true_iff, ?bool_decide_eq_true in *;
    destruct_and?; simplify_eq.
  all: try (left; exists base; split; [done|]; lia).
  all: try (right; left; eauto; fail).
  all: right; right; eexists; (split; [done|]); rewrite timeSub_gt in * by done; lia.
Qed.

(** ** Properties *)

(** What a send rests on (P13.4, P13.6): the table moves a command to sending only from a
    claim before its resend deadline, or from a query that found no record when the earlier
    request can do no harm any more: the external system still deduplicates it with an
    hour to spare, its expiry has passed, or it left longer ago than the longest
    processing time. Every other event leaves a command unsent. *)
Theorem sending_sound f e c now :
  0 ≤ MaxProcessing c < int64_max →
  fState f ≠ Sending → (∀ to, e ≠ Registered to) → (Step f e c now).1 = Sending →
  (e = Claim ∧ (fState f = Prepared ∨ fState f = RetryWait) ∧ pastDeadline f now = false) ∨
  (e = QueryNotFound ∧ fState f = Unknown ∧ harmless f c now).
Proof.
  intros Hm Hs He. unfold Step. destruct (fState f) eqn:Hf, e; simpl; try done; intros H;
    try (exfalso; eapply He; reflexivity).
  - left. destruct (pastDeadline f now); [done|auto].
  - left. destruct (pastDeadline f now); [done|auto].
  - destruct x as [y|]; simpl in H; [destruct y; done|done].
  - right. split_and!; try done. apply resendable_harmless; [done|].
    by destruct (resendable f c now) as [[] ?].
  - by destruct (overdue _ _).
  - destruct x as [y|]; simpl in H; [destruct y; done|done].
  - by destruct (overdue _ _).
  - destruct (CapQuery c); [done|]. by destruct (overdue _ _).
Qed.

Definition claimFacts : Facts := mkFacts Unknown (Some (2 * Hour)) None (Some 0) (Some 0) (Some 0) None None.
Definition payCaps : Capabilities := mkCaps (24 * Hour) false true false 0 0 true.

Lemma sending_sound_witness : harmless claimFacts payCaps Hour.
Proof.
  destruct (sending_sound claimFacts QueryNotFound payCaps Hour) as [(H & _)|(_ & _ & H)];
    [vm_compute; intuition congruence|discriminate|discriminate|vm_compute; reflexivity|discriminate H|exact H].
Defined.

(** The fate of a command is decided once (P13.3, P13.8): a terminal state absorbs every
    event; an event moves a command into a terminal state only when the external system
    said so, in answer to the send or to a query, or when a person registered it. *)
Theorem terminal_sound f e c now :
  (terminal (fState f) = true → (Step f e c now).1 = fState f) ∧
  (terminal (fState f) = false → terminal (Step f e c now).1 = true →
     (∃ r, e = SendResult r ∧ fState f = Sending) ∨
     (e = QueryFound (XState (Step f e c now).1) ∧ (fState f = Unknown ∨ fState f = Accepted)) ∨
     (e = Registered (Step f e c now).1 ∧ fState f = Manual)).
Proof.
  unfold Step. split; intros Ht; rewrite Ht; [done|].
  destruct (fState f) eqn:Hf, e; simpl in *; try done; intros H;
    repeat case_match; simplify_eq/=; try done; eauto 10.
Qed.
