(* ===== verification/ExtCommands.v ===== *)
(** * External commands: requesting, sending, querying, registering

    [extcmd/commands.go] over the tables [be_external_command] and
    [be_external_attempt]. A call of [process] is several transactions with calls to the
    external system between them, so the model runs it against an environment [env] that
    fixes how long each part takes, what the external system and the evidence store
    answer, and where, if anywhere, the process dies. Logging is left out.

    The store carries one ghost field, [wire]: what left for the external system, what it
    certainly did not process, and which commands a person declared not to have happened,
    newest first. *)
From S2P Require Import Prelude ExtState.
Open Scope string_scope.
Open Scope Z_scope.
Open Scope tx_scope.

Definition BackoffStart : Z := Minute.
Definition BackoffCap : Z := Hour.
Definition SendLease : Z := 2 * Minute.
Definition SendTimeout : Z := 30 * Second.
Definition Batch : nat := 50.

Inductive error :=
| CapabilityUnsupported (msg : string)
| RequestInvalid (msg : string)
| IdempotencyKeyReused (msg : string)
| NotDue
| NoRows
| UniqueViolation
| BadParams
| CanonError (msg : string)
| Died.  (** the process or its connection is gone *)

(** A command as the adapter sends and queries it. *)
Record Command (P : Type) := mkCommand {
  ID : string;
  Requester : string;
  Reference : string;
  Operation : string;
  Params : P;
  CmdExpiresAt : option Z;
  ExternalID : string
}.
Arguments mkCommand {P}.
Arguments ID {P}.
Arguments Requester {P}.
Arguments Reference {P}.
Arguments Operation {P}.
Arguments Params {P}.
Arguments CmdExpiresAt {P}.
Arguments ExternalID {P}.

Record Result := mkResult {
  Class : sendClass;
  ResExternalID : string;
  ResOutcome : option string;   (** the marshalled report, [None] when it is empty *)
  ResResponse : string
}.

Record Answer := mkAnswer {
  Found : bool;
  AnsState : external;
  AnsExternalID : string;
  AnsOutcome : option string;
  AnsResponse : string
}.

(** A row of [be_external_command]. *)
Record crow := mkCrow {
  c_requester : string;
  c_reference : string;
  c_operation : string;
  c_params : string;
  c_digest : string;
  c_irrevocable : bool;
  c_reason : string;
  c_next_at : Z;
  c_settled_at : option Z;
  c_external_id : option string;
  c_outcome : option string;
  c_facts : Facts
}.

(** A row of [be_external_attempt]. *)
Record attempt := mkAttempt {
  a_command : string;
  a_n : nat;
  a_kind : string;
  a_started_at : Z;
  a_ended_at : option Z;
  a_result : option string;
  a_response : option string;
  a_reached : option bool
}.

(** Ghost events, see [wire]; a request with the time it left. *)
Inductive wev := WSent (id : string) (at_ : Z) | WNotReached (id : string) | WRegistered (id : string).

Record store := mkStore {
  commands : gmap string crow;
  attempts : list attempt;
  clock : Z;
  wire : list wev
}.

(** A member's external commands; [Adapter] is its calls' answers in [env]. *)
Record Commands := mkCommands {
  HasAdapter : bool;
  Ops : gmap string Capabilities;
  HasEvidence : bool;
  QueryOnly : bool
}.

(** Where a process may die: before the check of the deadline, after it and before the
    request leaves, after the request left and before its result is kept, and before a
    query's answer is kept. *)
Inductive point := AtCheck | AtSend | AtResult | AtAnswer.
#[export] Instance point_eq_dec : EqDecision point.
Proof. solve_decision. Defined.

(** One run of [process] as the environment makes it; the [wait]s are nanoseconds. *)
Record env := mkEnv {
  waitAnswer : N;                       (** from the claim to the answer of a query *)
  waitCheck : N;                        (** to the check before the send *)
  waitIntent : N;                       (** from the check to the issue record's outcome and the sending *)
  waitResult : N;                       (** from there to the result *)
  dies : option point;
  sendAnswer : res string Result;       (** what the adapter's [Send] returns *)
  queryAnswer : res string Answer;      (** what the adapter's [Query] returns *)
  intent : option (option string)       (** [Evidence.Intent]: [None] an error, [Some None] nil *)
}.

#[local] Abbreviation M := (tx store error).

Definition set_commands (f : gmap string crow → gmap string crow) (s : store) : store :=
  mkStore (f (commands s)) (attempts s) (clock s) (wire s).
Definition set_attempts (f : list attempt → list attempt) (s : store) : store :=
  mkStore (commands s) (f (attempts s)) (clock s) (wire s).
Definition add_wire (w : wev) (s : store) : store :=
  mkStore (commands s) (attempts s) (clock s) (w :: wire s).
Definition tick (d : N) (s : store) : store :=
  mkStore (commands s) (attempts s) (clock s + Z.of_N d) (wire s).

(** [digestOf]: "sha256:" and the hash in hex, computed by the standard library. *)
Definition digestOf (sha256hex : string → string) (t : string) : string :=
  if decide (t = "") then "" else "sha256:" ++ sha256hex t.

(** ** Requesting *)

Section request.
Context {P : Type} (encode digest : P → res string string).
(** The default of the column [next_at], of the protocol's migration. *)
Context (next0 : Z → Z).

(** The command of a requester and a reference. *)
Definition byReference (m : gmap string crow) (requester reference : string) : option (string * crow) :=
  head (filter (λ p, c_requester p.2 = requester ∧ c_reference p.2 = reference) (map_to_list m)).

Definition Request (c : option Commands) (newid requester reference operation : string) (params : P)
    (expiresAt : option Z) : M (Command P * estate) :=
  match c with
  | None => tfail (CapabilityUnsupported "this member sends no external commands")
  | Some c =>
  if negb (HasAdapter c) then tfail (CapabilityUnsupported "this member sends no external commands")
  else
  match Ops c !! operation with
  | None => tfail (RequestInvalid ("no such external operation: " ++ operation))
  | Some caps =>
  match encode params with
  | Err e => tfail (RequestInvalid ("the parameters have no canonical form: " ++ e))
  | Ok raw =>
  match digest params with
  | Err e => tfail (CanonError e)
  | Ok dg =>
    let cmd id := mkCommand id requester reference operation params expiresAt "" in
    s <~ tget ;
    match byReference (commands s) requester reference with
    | None =>
        if decide (commands s !! newid = None) then
          tmod (set_commands (insert newid
            (mkCrow requester reference operation raw dg (Irrevocable caps) "requested" (next0 (clock s))
               None None None (mkFacts Prepared None expiresAt None None None None None)))) ;~
          tret (cmd newid, Prepared)
        else tfail UniqueViolation
    | Some (id, r) =>
        if decide (c_digest r ≠ dg ∨ c_operation r ≠ operation)
        then tfail (IdempotencyKeyReused "this business reference was requested with other parameters")
        else tret (cmd id, fState (c_facts r))
    end
  end end end end.

End request.

(** ** Writing a transition *)

(** The columns [set] writes. *)
Definition written (st : estate) (why : string) (next now : Z) (r : crow) : crow :=
  let f := c_facts r in
  mkCrow (c_requester r) (c_reference r) (c_operation r) (c_params r) (c_digest r) (c_irrevocable r) why next
    (if terminal st then Some now else None) (c_external_id r) (c_outcome r)
    (mkFacts st (ResendDeadline f) (ExpiresAt f) (FirstReached f) (LastReached f)
       (if decide (st = Unknown) then Some (default now (UnknownSince f)) else None)
       (if decide (st = Accepted) then Some (default now (AcceptedSince f)) else None)
       (UnrecordedUntil f)).

Definition setRow (id : string) (st : estate) (why : string) (next : Z) : M unit :=
  s <~ tget ; tmod (set_commands (alter (written st why next (clock s)) id)).

(** ** Processing *)

Section process.
Context {P : Type} (decode : string → option P) (sha256hex : string → string).
Context (c : Commands).

(** [row]: a command as the job reads it. *)
Record row := mkRow {
  r_cmd : Command P;
  r_facts : Facts;
  r_caps : Capabilities;
  r_attempts : nat;
  r_now : Z
}.

Definition set_rfacts (f : Facts) (r : row) : row := mkRow (r_cmd r) f (r_caps r) (r_attempts r) (r_now r).
Definition set_rnow (t : Z) (r : row) : row := mkRow (r_cmd r) (r_facts r) (r_caps r) (r_attempts r) t.
Definition set_rattempts (n : nat) (r : row) : row := mkRow (r_cmd r) (r_facts r) (r_caps r) n (r_now r).
Definition with_state (st : estate) (f : Facts) : Facts :=
  mkFacts st (ResendDeadline f) (ExpiresAt f) (FirstReached f) (LastReached f) (UnknownSince f)
    (AcceptedSince f) (UnrecordedUntil f).

(** The capabilities of an operation; an operation not declared any more has none. *)
Definition capsOf (op : string) : Capabilities :=
  default (mkCaps 0 false false false 0 0 false) (Ops c !! op).

Definition attemptsOf (s : store) (id : string) : nat :=
  length (filter (λ a, a_command a = id) (attempts s)).

Definition load (id : string) : M row :=
  s <~ tget ;
  match commands s !! id with
  | Some r =>
      if decide (c_next_at r ≤ clock s) then
        match decode (c_params r) with
        | None => tfail BadParams
        | Some p =>
            tret (mkRow (mkCommand id (c_requester r) (c_reference r) (c_operation r) p
                           (ExpiresAt (c_facts r)) (default "" (c_external_id r)))
                    (c_facts r) (capsOf (c_operation r)) (attemptsOf s id) (clock s))
        end
      else tfail NotDue
  | None => tfail NotDue
  end.

(** [set], which also moves the state of the job's copy. *)
Definition set (r : row) (st : estate) (why : string) (next : Z) : M row :=
  setRow (ID (r_cmd r)) st why next ;~ tret (set_rfacts (with_state st (r_facts r)) r).

Fixpoint doubled (fuel : nat) (d : Z) : Z :=
  match fuel with
  | O => d
  | S n => if decide (d < BackoffCap) then doubled n (d * 2) else d
  end.
Definition backoff (attempts : nat) : Z := Z.min (doubled (attempts - 1) BackoffStart) BackoffCap.

Definition nextAt (r : row) (st : estate) (attempts : nat) : Z :=
  match st with
  | RetryWait => r_now r + backoff attempts
  | Unknown | Sending => r_now r
  | Accepted => if decide (0 < Finality (r_caps r)) then r_now r + Finality (r_caps r) else r_now r + BackoffStart
  | _ => r_now r + BackoffCap
  end.

Definition queryAgain (r : row) (st : estate) (attempts : nat) : Z :=
  match st with
  | Unknown | Accepted => r_now r + backoff attempts
  | _ => nextAt r st attempts
  end.

(** What the first transaction of [process] asks for. *)
Inductive action := Done | ToSend (r : row) | ToQuery (r : row).

(** An accepted command that still waits for its final state, and until when. *)
Definition finalityAt (f : Facts) (caps : Capabilities) (now : Z) : option Z :=
  match AcceptedSince f with
  | Some a => if decide (0 < Finality caps ∧ timeSub now a < Finality caps) then Some (a + Finality caps) else None
  | None => None
  end.

Definition take (id : string) : M action :=
  r <~ load id ;
  let f := r_facts r in
  match fState f with
  | Prepared | RetryWait =>
      if QueryOnly c then set r (fState f) "query-only: not sent" (r_now r + BackoffStart) ;~ tret Done
      else
        let '(next, why) := Step f Claim (r_caps r) (r_now r) in
        if decide (next = Unknown) then set r Unknown why (r_now r) ;~ tret Done
        else r' <~ set r Sending why (r_now r + SendLease) ; tret (ToSend r')
  | Sending =>
      let '(next, why) := Step f LeaseLost (r_caps r) (r_now r) in
      set r next why (r_now r) ;~ tret Done
  | Unknown => tret (ToQuery r)
  | Accepted =>
      match finalityAt f (r_caps r) (r_now r) with
      | Some at_ => set r Accepted "waiting for the final state" at_ ;~ tret Done
      | None =>
          let '(next, why) := Step f FinalityPassed (r_caps r) (r_now r) in
          if decide (next = Accepted ∧ CapQuery (r_caps r)) then tret (ToQuery r)
          else set r next why (r_now r + BackoffCap) ;~ tret Done
      end
  | _ => tret Done
  end.

(** [issued]: the issue record of an irrevocable command reached the evidence store or
    the alert channel. *)
Definition issued (e : env) : bool :=
  if HasEvidence c then
    match intent e with
    | Some (Some w) => bool_decide (w = "store") || bool_decide (w = "alert")
    | _ => false
    end
  else false.

(** The check before the send and the attempt's record: [None] when it is not sent. *)
Definition presend (r : row) (n : nat) : M (option row) :=
  s <~ tget ;
  let r := set_rnow (clock s) r in
  let '(next, why) := Step (r_facts r) BeforeSend (r_caps r) (r_now r) in
  if decide (next = Unknown) then set r Unknown why (r_now r) ;~ tret None
  else
    tmod (set_attempts (λ l, app l [mkAttempt (ID (r_cmd r)) n "send" (clock s) None None None None])) ;~
    tret (Some r).

(** The [UPDATE]s of an attempt's row. *)
Definition endAttempt (id : string) (n : nat) (f : attempt → attempt) : list attempt → list attempt :=
  map (λ a, if decide (a_command a = id ∧ a_n a = n) then f a else a).

Definition noEvidence (r : row) (n : nat) : M unit :=
  s <~ tget ;
  tmod (set_attempts (endAttempt (ID (r_cmd r)) n (λ a, mkAttempt (a_command a) (a_n a) (a_kind a) (a_started_at a)
    (Some (clock s)) (Some "not_sent_no_evidence") (a_response a) (a_reached a)))) ;~
  set r RetryWait "the issue record reached neither the evidence store nor the alert channel: not sent"
    (r_now r + backoff n) ;~
  tret tt.

(** [coalesce(nullif(v, ''), old)]. *)
Definition nonempty (v : string) (old : option string) : option string :=
  if decide (v = "") then old else Some v.

(** The columns the result's transaction writes beside the state. *)
Definition reachedRow (f : Facts) (res : Result) (r : crow) : crow :=
  let g := c_facts r in
  mkCrow (c_requester r) (c_reference r) (c_operation r) (c_params r) (c_digest r) (c_irrevocable r) (c_reason r)
    (c_next_at r) (c_settled_at r) (nonempty (ResExternalID res) (c_external_id r))
    (match ResOutcome res with Some o => Some o | None => c_outcome r end)
    (mkFacts (fState g) (ResendDeadline f) (ExpiresAt g) (FirstReached f) (LastReached f) (UnknownSince g)
       (AcceptedSince g) (UnrecordedUntil g)).

(** The facts after a result: when a request may first and last have reached, and the
    deadline these give. *)
Definition reachedFacts (f : Facts) (caps : Capabilities) (cl : sendClass) (now : Z) : Facts :=
  let f1 := if decide (cl = NotReached) then f
            else mkFacts (fState f) (ResendDeadline f) (ExpiresAt f) (Some (default now (FirstReached f))) (Some now)
                   (UnknownSince f) (AcceptedSince f) (UnrecordedUntil f) in
  mkFacts (fState f1) (Deadline f1 caps) (ExpiresAt f1) (FirstReached f1) (LastReached f1) (UnknownSince f1)
    (AcceptedSince f1) (UnrecordedUntil f1).

Definition result (r : row) (n : nat) (res : Result) : M unit :=
  s <~ tget ;
  let f := reachedFacts (r_facts r) (r_caps r) (Class res) (clock s) in
  let r := set_rfacts f (set_rnow (clock s) r) in
  let reached := bool_decide (Class res ≠ NotReached) in
  tmod (set_attempts (endAttempt (ID (r_cmd r)) n (λ a, mkAttempt (a_command a) (a_n a) (a_kind a) (a_started_at a)
    (Some (clock s)) (Some (classWord (Class res))) (Some (digestOf sha256hex (ResResponse res))) (Some reached)))) ;~
  tmod (set_commands (alter (reachedRow f res) (ID (r_cmd r)))) ;~
  let '(next, why) := Step f (SendResult (Class res)) (r_caps r) (r_now r) in
  set r next why (nextAt r next n) ;~
  (if reached then tret tt else tmod (add_wire (WNotReached (ID (r_cmd r))))).

(** A [BackgroundTx] the process may not live to run. *)
Definition unlessDead {A} (e : env) (p : point) (k : store → res error A * store) (s : store) : res error A * store :=
  if decide (dies e = Some p) then (Err Died, s) else k s.

Definition send (e : env) (r : row) : store → res error unit * store :=
  let n := S (r_attempts r) in
  unlessDead e AtCheck (λ s,
  match commit (presend r n) (tick (waitCheck e) s) with
  | (Err x, s) => (Err x, s)
  | (Ok None, s) => (Ok tt, s)
  | (Ok (Some r), s) =>
    let s := tick (waitIntent e) s in
    if Irrevocable (r_caps r) && negb (issued e) then commit (noEvidence r n) (tick (waitResult e) s)
    else
    unlessDead e AtSend (λ s,
      let s := tick (waitResult e) (add_wire (WSent (ID (r_cmd r)) (clock s)) s) in
      let res := match sendAnswer e with Ok a => a | Err m => mkResult MaybeReached "" None m end in
      unlessDead e AtResult (λ s, commit (result r n res) s) s) s
  end).

(** A query's answer as an event, with the attempt's result. *)
Definition answered (caps : Capabilities) (ans : res string Answer) : Event * string :=
  match ans with
  | Err _ => (QueryDown, "unavailable")
  | Ok a => if CapQuery caps then
              if Found a then (QueryFound (AnsState a), "found:" ++ externalWord (AnsState a)) else (QueryNotFound, "not_found")
            else (QueryDown, "unavailable")
  end.

(** The columns a found record writes. *)
Definition foundRow (a : Answer) (r : crow) : crow :=
  mkCrow (c_requester r) (c_reference r) (c_operation r) (c_params r) (c_digest r) (c_irrevocable r) (c_reason r)
    (c_next_at r) (c_settled_at r) (nonempty (AnsExternalID a) (c_external_id r))
    (match AnsOutcome a with Some o => Some o | None => c_outcome r end) (c_facts r).

Definition keepFound (a : Answer) (id : string) : M unit :=
  if Found a then tmod (set_commands (alter (foundRow a) id)) else tret tt.

(** A query's answer applied: whether the command is sent again. *)
Definition applyAnswer (r : row) (n : nat) (ans : res string Answer) : M (bool * row) :=
  s <~ tget ;
  let r := set_rnow (clock s) r in
  let '(e, w) := answered (r_caps r) ans in
  let a := match ans with Ok a => a | Err _ => mkAnswer false (XOther "") "" None "" end in
  tmod (set_attempts (λ l, app l [mkAttempt (ID (r_cmd r)) n "query" (clock s) (Some (clock s)) (Some w)
    (Some (digestOf sha256hex (AnsResponse a))) None])) ;~
  keepFound a (ID (r_cmd r)) ;~
  let '(next, why) := Step (r_facts r) e (r_caps r) (r_now r) in
  let '(next, why) := if bool_decide (next = Sending) && QueryOnly c
                      then (Unknown, "query-only: not sent again (" ++ why ++ ")") else (next, why) in
  if decide (next = Sending) then
    r' <~ set r Sending why (r_now r + SendLease) ; tret (true, r')
  else r' <~ set r next why (queryAgain r next n) ; tret (false, r').

Definition query (e : env) (r : row) : store → res error unit * store :=
  let n := S (r_attempts r) in
  unlessDead e AtAnswer (λ s,
  match commit (applyAnswer r n (queryAnswer e)) (tick (waitAnswer e) s) with
  | (Err x, s) => (Err x, s)
  | (Ok (false, _), s) => (Ok tt, s)
  | (Ok (true, r'), s) => send e (set_rattempts n r') s
  end).

Definition process (e : env) (id : string) (s : store) : res error unit * store :=
  match commit (take id) s with
  | (Err NotDue, s) => (Ok tt, s)
  | (Err x, s) => (Err x, s)
  | (Ok Done, s) => (Ok tt, s)
  | (Ok (ToSend r), s) => send e r s
  | (Ok (ToQuery r), s) => query e r s
  end.

(** Due now, earliest first, a batch at most. *)
Definition processed (st : estate) : bool :=
  match st with Prepared | RetryWait | Sending | Unknown | Accepted => true | _ => false end.
Definition dueBefore (x y : string * crow) : Prop :=
  c_next_at x.2 < c_next_at y.2 ∨ (c_next_at x.2 = c_next_at y.2 ∧ String.leb x.1 y.1 = true).
#[export] Instance dueBefore_dec x y : Decision (dueBefore x y).
Proof. unfold dueBefore. apply _. Defined.
Definition due (s : store) : list string :=
  map fst (firstn Batch (merge_sort dueBefore
    (filter (λ p, c_next_at p.2 ≤ clock s ∧ processed (fState (c_facts p.2)) = true) (map_to_list (commands s))))).

Fixpoint runAll (es : string → env) (l : list string) (k : nat) (s : store) : res error nat * store :=
  match l with
  | [] => (Ok k, s)
  | id :: l => match process (es id) id s with (Err x, s) => (Err x, s) | (Ok _, s) => runAll es l k s end
  end.
Definition Run (es : string → env) (s : store) : res error nat * store :=
  runAll es (due s) (length (due s)) s.

End process.

(** ** Registering *)

Definition Register (id : string) (to : estate) (why : string) : M unit :=
  if decide (to ∈ [Succeeded; Failed; Rejected; Sending]) then
    s <~ tget ;
    match commands s !! id with
    | None => tfail NoRows
    | Some r =>
        if decide (fState (c_facts r) = Manual) then
          if decide (to = Sending)
          then setRow id RetryWait ("registered: " ++ why) (clock s) ;~ tmod (add_wire (WRegistered id))
          else setRow id to ("registered: " ++ why) (clock s)
        else tfail (RequestInvalid ("only a manual command is registered (it is " ++ stateWord (fState (c_facts r)) ++ ")"))
    end
  else tfail (RequestInvalid "a manual command is registered succeeded, failed, rejected or sending").
