(* ===== verification/ExtProps.v ===== *)
(** * External commands: histories

    The invariant of the command table over every history of requests, runs of the job
    (with crashes anywhere), registrations by a person and time passing, and what it
    gives: when a request leaves, and why a second one may. *)
From S2P Require Import Prelude ExtState ExtCommands.
Open Scope string_scope.
Open Scope Z_scope.
Open Scope tx_scope.

(** How many requests of a command left, were not certainly unprocessed, and were not
    declared not to have happened by a person since. *)
Fixpoint owed (w : list wev) (id : string) : nat :=
  match w with
  | [] => O
  | WSent i _ :: w => if decide (i = id) then S (owed w id) else owed w id
  | WNotReached i :: w => if decide (i = id) then pred (owed w id) else owed w id
  | WRegistered i :: w => if decide (i = id) then O else owed w id
  end.

(** A send that waits may go out as far as earlier requests are concerned, if the
    deadline written with them has not passed. *)
Definition cleared (f : Facts) (caps : Capabilities) (t : Z) : Prop :=
  is_Some (ResendDeadline f) ∨ (∃ x, ExpiresAt f = Some x ∧ x < t) ∨
  (∃ l, latest f = Some l ∧ 0 < MaxProcessing caps ∧ MaxProcessing caps < timeSub t l).

Definition waiting (st : estate) : bool := match st with Prepared | RetryWait => true | _ => false end.

(** What two copies of a command's facts must share for the decisions to agree. *)
Record agree (f g : Facts) : Prop := mkAgree {
  ag_deadline : ResendDeadline f = ResendDeadline g;
  ag_expires : ExpiresAt f = ExpiresAt g;
  ag_first : FirstReached f = FirstReached g;
  ag_last : LastReached f = LastReached g;
  ag_unrecorded : UnrecordedUntil f = UnrecordedUntil g
}.

(** What the columns of one row owe each other. *)
Record base (caps : Capabilities) (r : crow) : Prop := mkBase {
  b_deadline : ResendDeadline (c_facts r) = Deadline (c_facts r) caps;
  b_unknown : is_Some (UnknownSince (c_facts r)) ↔ fState (c_facts r) = Unknown;
  b_accepted : is_Some (AcceptedSince (c_facts r)) ↔ fState (c_facts r) = Accepted;
  b_settled : is_Some (c_settled_at r) ↔ terminal (fState (c_facts r)) = true
}.

Lemma cleared_mono f g caps t t' : agree f g → t ≤ t' → cleared f caps t → cleared g caps t'.
Proof.
  intros [Hd He Hf Hl Hu] Ht. unfold cleared, latest. rewrite Hd, He, Hl, Hu.
  intros [?|[(x & Hx & Hlt)|(l & Hll & H0 & Hlt)]]; [by left|right; left; eexists; split; [done|lia]|].
  right; right. exists l. split_and!; [done|done|]. unfold timeSub in *. lia.
Qed.

Lemma Deadline_agree f g caps : agree f g → Deadline f caps = Deadline g caps.
Proof. intros [Hd He Hf Hl Hu]. unfold Deadline. by rewrite Hf, Hl. Qed.

Lemma pastDeadline_agree f g t : agree f g → pastDeadline f t = pastDeadline g t.
Proof. intros [Hd He Hf Hl Hu]. unfold pastDeadline. by rewrite Hd. Qed.

(** Before its deadline, a command that is cleared may be sent again. *)
Lemma cleared_resendable f caps t : ResendDeadline f = Deadline f caps →
  pastDeadline f t = false → cleared f caps t → (resendable f caps t).1 = true.
Proof.
  unfold pastDeadline, cleared, resendable. intros Hd Hp Hc. rewrite <- Hd in *.
  destruct (ResendDeadline f) as [d|].
  - rewrite bool_decide_eq_true_2; [done|]. apply bool_decide_eq_false_1 in Hp. lia.
  - destruct Hc as [[? [=]]|[(x & -> & Hx)|(l & -> & H0 & Hl)]].
    + by rewrite bool_decide_eq_true_2.
    + case_match; [done|]. by rewrite !bool_decide_eq_true_2.
Qed.

Lemma resendable_cleared f caps t : ResendDeadline f = Deadline f caps →
  (resendable f caps t).1 = true → cleared f caps t.
Proof.
  unfold cleared, resendable. intros Hd. rewrite <- Hd. destruct (ResendDeadline f) as [d|]; [eauto|].
  destruct (ExpiresAt f) as [x|].
  - destruct (bool_decide (x < t)) eqn:Hx; [apply bool_decide_eq_true in Hx; eauto 6|].
    destruct (latest f) as [l|]; [|done]. case_match eqn:Hl; [|done]. intros _.
    rewrite andb_true_iff, !bool_decide_eq_true in Hl. right; right. naive_solver.
  - destruct (latest f) as [l|]; [|done]. case_match eqn:Hl; [|done]. intros _.
    rewrite andb_true_iff, !bool_decide_eq_true in Hl. right; right. naive_solver.
Qed.

(** ** What a computation leaves alone *)

Record frame (id : string) (s s' : store) : Prop := mkFrame {
  fr_rows : ∀ i, i ≠ id → commands s' !! i = commands s !! i;
  fr_owed : ∀ i, i ≠ id → owed (wire s') i = owed (wire s) i;
  fr_clock : clock s ≤ clock s'
}.

#[export] Instance frame_preorder id : PreOrder (frame id).
Proof.
  split; [split; intros; done || lia|].
  intros s1 s2 s3 [H1 H2 H3] [H4 H5 H6]. split; intros; [rewrite H4, H1|rewrite H5, H2|lia]; done.
Qed.

Lemma frame_commands id f s : frame id s (set_commands (alter f id) s).
Proof. split; intros; simpl; [by rewrite lookup_alter_ne|done|lia]. Qed.
Lemma frame_attempts id f s : frame id s (set_attempts f s).
Proof. split; intros; simpl; [done|done|lia]. Qed.
Lemma frame_tick id d s : frame id s (tick d s).
Proof. split; intros; simpl; [done|done|lia]. Qed.
Lemma frame_wire id w s : (∀ i, i ≠ id → owed (w :: wire s) i = owed (wire s) i) → frame id s (add_wire w s).
Proof. intros H. split; intros; simpl in *; [done|by apply H|lia]. Qed.
#[export] Hint Resolve frame_commands frame_attempts frame_tick : sdk.

(** ** One row through the transactions *)

Lemma base_written caps r st why next now :
  ResendDeadline (c_facts r) = Deadline (c_facts r) caps → base caps (written st why next now r).
Proof.
  intros Hd. split; simpl; [exact Hd|..]; destruct st; simpl; try (rewrite decide_True by done);
    split; try done; try (intros [? [=]]; fail); by eexists.
Qed.

Lemma agree_written st why next now r : agree (c_facts r) (c_facts (written st why next now r)).
Proof. by split. Qed.
Lemma agree_state st f : agree f (with_state st f).
Proof. by split. Qed.
Lemma agree_trans f g h : agree f g → agree g h → agree f h.
Proof. intros [] []. split; congruence. Qed.
Lemma agree_sym f g : agree f g → agree g f.
Proof. by intros []. Qed.
#[export] Hint Resolve agree_written agree_state : sdk.

Section histories.
Context {P : Type} (decode : string → option P) (sha256hex : string → string) (c : Commands).

#[local] Abbreviation row := (@row P).

(** The job's copy of a row is the row, up to when its state began. *)
Definition synced (r : row) (cr : crow) : Prop :=
  agree (c_facts cr) (r_facts r) ∧ fState (r_facts r) = fState (c_facts cr) ∧
  r_caps r = capsOf c (c_operation cr).

(** A row well-formed, and cleared when it waits to be sent while a request is owed. *)
Definition good (s : store) (id : string) (r : crow) : Prop :=
  let caps := capsOf c (c_operation r) in
  base caps r ∧
  (waiting (fState (c_facts r)) = true → (0 < owed (wire s) id)%nat → cleared (c_facts r) caps (clock s)).

(** What of a row is written once, with its request. *)
Definition ident (r : crow) : string * string * string * string :=
  (c_requester r, c_reference r, c_operation r, c_digest r).

Lemma ident_op r r' : ident r = ident r' → c_operation r = c_operation r'.
Proof. unfold ident. congruence. Qed.

(** A step that keeps a row in good order, the same request. *)
Definition leads (id : string) (cr : crow) (s' : store) : Prop :=
  ∃ cr', commands s' !! id = Some cr' ∧ ident cr' = ident cr ∧ good s' id cr'.

(** What may have left during a step. *)
Definition leaves (e : env) (id : string) (cr : crow) (s s' : store) : Prop :=
  wire s' = wire s ∨ ∃ t, let t' := t + Z.of_N (waitIntent e) in
    (wire s' = WSent id t' :: wire s ∨ wire s' = WNotReached id :: WSent id t' :: wire s) ∧
    clock s ≤ t ∧ pastDeadline (c_facts cr) t = false ∧ QueryOnly c = false ∧
    (Irrevocable (capsOf c (c_operation cr)) = true → issued c e = true) ∧
    ((0 < owed (wire s) id)%nat → (resendable (c_facts cr) (capsOf c (c_operation cr)) t).1 = true).

Lemma good_frame id s s' i r : frame id s s' → i ≠ id → good s i r → good s' i r.
Proof.
  intros [H1 H2 H3] Hi [Hb Hc]. split; [done|]. intros Hw Ho. rewrite H2 in Ho by done.
  eapply cleared_mono; [..|exact (Hc Hw Ho)]; [by split|done].
Qed.

(** A row whose state is written keeps its order: a state that waits must be cleared. *)
Lemma leads_written id cr s' st why next now :
  commands s' !! id = Some (written st why next now cr) → base (capsOf c (c_operation cr)) cr →
  (waiting st = true → (0 < owed (wire s') id)%nat → cleared (c_facts cr) (capsOf c (c_operation cr)) (clock s')) →
  leads id cr s'.
Proof.
  intros Hl Hb Hw. exists (written st why next now cr). split_and!; [done|done|].
  split; [apply base_written, Hb|]. intros H1 H2.
  eapply cleared_mono; [apply agree_written|reflexivity|]. by apply Hw.
Qed.

Lemma Step_result f cl caps t : fState f = Sending →
  (Step f (SendResult cl) caps t).1 ≠ Prepared ∧
  ((Step f (SendResult cl) caps t).1 = RetryWait → cl = NotReached).
Proof. intros Hf. unfold Step. rewrite Hf. simpl. by destruct cl. Qed.

Lemma Step_before_send f caps t : fState f = Sending →
  (Step f BeforeSend caps t).1 = if pastDeadline f t then Unknown else Sending.
Proof. intros Hf. unfold Step. rewrite Hf. simpl. by destruct (pastDeadline f t). Qed.

(** ** Sending *)

Section sending.
Context (r : row) (cr : crow) (s : store) (n : nat).
Context (Hrow : commands s !! ID (r_cmd r) = Some cr) (Hsync : synced r cr).
Context (Hbase : base (capsOf c (c_operation cr)) cr).
Context (Hstate : fState (c_facts cr) = Sending).
Context (Hclear : (0 < owed (wire s) (ID (r_cmd r)))%nat → cleared (c_facts cr) (capsOf c (c_operation cr)) (clock s)).

Lemma presend_spec :
  ∃ o s', presend r n s = Ok (o, s') ∧ frame (ID (r_cmd r)) s s' ∧ wire s' = wire s ∧ clock s' = clock s ∧
    match o with
    | None => leads (ID (r_cmd r)) cr s'
    | Some r' => r' = set_rnow (clock s) r ∧ pastDeadline (c_facts cr) (clock s) = false ∧
                 commands s' !! ID (r_cmd r) = Some cr
    end.
Proof.
  destruct Hsync as (Hag & Hst & Hcaps). unfold presend. rewrite tbind_get. simpl.
  pose proof (Step_before_send (r_facts r) (r_caps r) (clock s)) as Hstep.
  rewrite Hst in Hstep. specialize (Hstep Hstate). rewrite <- (pastDeadline_agree _ _ _ Hag) in Hstep.
  destruct (Step (r_facts r) BeforeSend (r_caps r) (clock s)) as [next why]. simpl in Hstep. subst next.
  destruct (pastDeadline (c_facts cr) (clock s)) eqn:Hp; simpl.
  - do 2 eexists. split; [reflexivity|]. split_and!; simpl; auto with sdk.
    eapply leads_written; [simpl; by rewrite lookup_alter_eq, Hrow|done|done].
  - do 2 eexists. split; [reflexivity|]. split_and!; simpl; auto with sdk.
Qed.

Lemma noEvidence_spec :
  ∃ s', noEvidence r n s = Ok (tt, s') ∧ frame (ID (r_cmd r)) s s' ∧ wire s' = wire s ∧ leads (ID (r_cmd r)) cr s'.
Proof.
  eexists. split; [reflexivity|]. split_and!; simpl.
  - etrans; [apply frame_attempts|]. apply frame_commands.
  - done.
  - eapply leads_written; [simpl; by rewrite lookup_alter_eq, Hrow|done|done].
Qed.

End sending.

(** The result's transaction after a request left: the row is in order, and the request
    is owed unless it was certainly not processed. *)
Lemma result_spec r cr s n res t w :
  commands s !! ID (r_cmd r) = Some cr → synced r cr → base (capsOf c (c_operation cr)) cr →
  fState (c_facts cr) = Sending → wire s = WSent (ID (r_cmd r)) t :: w →
  ((0 < owed w (ID (r_cmd r)))%nat → cleared (c_facts cr) (capsOf c (c_operation cr)) (clock s)) →
  ∃ s', result sha256hex r n res s = Ok (tt, s') ∧ frame (ID (r_cmd r)) s s' ∧ leads (ID (r_cmd r)) cr s' ∧
    (wire s' = wire s ∨ wire s' = WNotReached (ID (r_cmd r)) :: wire s).
Proof.
  intros Hrow (Hag & Hst & Hcaps) Hbase Hstate Hw Hclear. unfold result. rewrite tbind_get. cbv zeta.
  rewrite tbind_mod, tbind_mod. simpl. rewrite Hcaps.
  set (f := reachedFacts _ _ _ _). set (caps := capsOf c (c_operation cr)) in *.
  assert (Hf : fState f = Sending) by (unfold f, reachedFacts; case_decide; simpl; congruence).
  pose proof (Step_result f (Class res) caps (clock s) Hf) as [Hnp Hretry].
  destruct (Step f (SendResult (Class res)) caps (clock s)) as [next why]. simpl in *.
  assert (Hb' : ResendDeadline (c_facts (reachedRow f res cr)) = Deadline (c_facts (reachedRow f res cr)) caps) by done.
  assert (Hfr : frame (ID (r_cmd r)) s
    (set_commands (alter (written next why (nextAt (set_rfacts f (set_rnow (clock s) r)) next n) (clock s)) (ID (r_cmd r)))
      (set_commands (alter (reachedRow f res) (ID (r_cmd r))) s))).
  { etrans; apply frame_commands. }
  destruct (decide (Class res = NotReached)) as [Hn|Hn].
  - rewrite (bool_decide_eq_false_2 (Class res ≠ NotReached)) by tauto.
    eexists. split; [reflexivity|]. split_and!; [| |by right].
    + destruct Hfr as [H1 H2 H3]. split; simpl in *; intros; [auto|rewrite decide_False by done; auto|done].
    + eexists. split_and!; [simpl; by rewrite !lookup_alter_eq, Hrow|done|]. split; [by apply base_written|].
      simpl. intros H1 H2. rewrite Hw in H2. simpl in H2. rewrite !decide_True in H2 by done.
      eapply cleared_mono; [|reflexivity|by apply Hclear]. unfold f, reachedFacts. rewrite decide_True by done.
      destruct Hag, Hbase. split; simpl; try congruence. rewrite b_deadline0. by apply Deadline_agree.
  - rewrite (bool_decide_eq_true_2 (Class res ≠ NotReached)) by done.
    eexists. split; [reflexivity|]. split_and!; [| |by left].
    + destruct Hfr as [H1 H2 H3]. split; simpl in *; auto.
    + eexists. split_and!; [simpl; by rewrite !lookup_alter_eq, Hrow|done|]. split; [by apply base_written|].
      simpl. intros H1 _. destruct next; try done; exfalso; by apply Hn, Hretry.
Qed.

Lemma commit_ok {A} (m : tx store error A) s a s' : m s = Ok (a, s') → commit m s = (Ok a, s').
Proof. unfold commit. by intros ->. Qed.

Lemma leads_same id cr s' : commands s' !! id = Some cr → good s' id cr → leads id cr s'.
Proof. intros. by exists cr. Qed.

(** A row not waiting is in order as it stands. *)
Lemma good_idle s id cr : base (capsOf c (c_operation cr)) cr → waiting (fState (c_facts cr)) = false → good s id cr.
Proof. intros Hb Hw. split; [done|]. by rewrite Hw. Qed.

Lemma send_spec e r cr s :
  let id := ID (r_cmd r) in let s' := (send sha256hex c e r s).2 in
  commands s !! id = Some cr → synced r cr → base (capsOf c (c_operation cr)) cr →
  fState (c_facts cr) = Sending → QueryOnly c = false →
  ((0 < owed (wire s) id)%nat → cleared (c_facts cr) (capsOf c (c_operation cr)) (clock s)) →
  frame id s s' ∧ leads id cr s' ∧ leaves e id cr s s'.
Proof.
  intros id s' Hrow Hsync Hbase Hstate Hqo Hclear. subst id s'. unfold send, unlessDead.
  assert (Hidle : ∀ s, good s (ID (r_cmd r)) cr) by (intros; apply good_idle; [done|by rewrite Hstate]).
  case_decide; [split_and!; [reflexivity|by apply leads_same|by left]|].
  assert (Hclear1 : (0 < owed (wire s) (ID (r_cmd r)))%nat →
    cleared (c_facts cr) (capsOf c (c_operation cr)) (clock (tick (waitCheck e) s))).
  { intros Ho. eapply cleared_mono; [by split| |exact (Hclear Ho)]. simpl. lia. }
  destruct (presend_spec r cr (tick (waitCheck e) s) (S (r_attempts r)) Hrow Hsync Hbase Hstate Hclear1)
    as (o & s1 & Hrun & Hfr & Hwire & Hclk & Hcase).
  rewrite (commit_ok _ _ _ _ Hrun).
  assert (Hfr1 : frame (ID (r_cmd r)) s s1) by (etrans; [apply frame_tick|exact Hfr]).
  destruct o as [r'|]; [|split_and!; [done|done|by left]].
  destruct Hcase as (-> & Hpast & Hrow1).
  assert (Ht : clock s ≤ clock (tick (waitCheck e) s)) by (simpl; lia).
  set (t := clock (tick (waitCheck e) s)) in *. 
  assert (Ht' : clock s1 = t) by (by rewrite Hclk). clearbody t. cbv zeta. set (s2 := tick (waitIntent e) s1).
  assert (Hfr2' : frame (ID (r_cmd r)) s s2) by (etrans; [exact Hfr1|apply frame_tick]).
  assert (Hclk2 : clock s2 = t + Z.of_N (waitIntent e)) by (simpl; by rewrite Ht'). assert (Hw2' : wire s2 = wire s) by done.
  assert (Hrow2 : commands s2 !! ID (r_cmd r) = Some cr) by done. clearbody s2. simpl.
  assert (Hcaps : r_caps r = capsOf c (c_operation cr)) by apply Hsync.
  assert (Hfr2 : frame (ID (r_cmd r)) s (tick (waitResult e) s2)) by (etrans; [exact Hfr2'|apply frame_tick]).
  assert (Hclear2 : (0 < owed (wire s) (ID (r_cmd r)))%nat →
    cleared (c_facts cr) (capsOf c (c_operation cr)) (clock (tick (waitResult e) s2))).
  { intros Ho. eapply cleared_mono; [by split| |exact (Hclear Ho)]. apply Hfr2. }
  destruct (Irrevocable (r_caps r) && negb (issued c e)) eqn:Hirr.
  - destruct (noEvidence_spec (set_rnow t r) cr (tick (waitResult e) s2) (S (r_attempts r)))
      as (s3 & Hrun2 & Hfr3 & Hw3 & Hl2); [done|done|simpl; by rewrite Hw2'|].
    rewrite (commit_ok _ _ _ _ Hrun2). split_and!; simpl; [by etrans|done|].
    left. by rewrite Hw3; simpl; rewrite Hw2'.
  - assert (Hiss : Irrevocable (capsOf c (c_operation cr)) = true → issued c e = true).
    { rewrite <- Hcaps. intros Hi. rewrite Hi in Hirr. by destruct (issued c e). }
    assert (Hres : (0 < owed (wire s) (ID (r_cmd r)))%nat →
      (resendable (c_facts cr) (capsOf c (c_operation cr)) t).1 = true).
    { intros Ho. apply cleared_resendable; [apply Hbase|done|]. by apply Hclear1. }
    case_decide; [split_and!; [done|by apply leads_same|by left]|].
    assert (Hfr3 : frame (ID (r_cmd r)) s
      (tick (waitResult e) (add_wire (WSent (ID (r_cmd r)) (clock s2)) s2))).
    { etrans; [exact Hfr2'|]. etrans; [|apply frame_tick]. apply frame_wire. intros i Hi. simpl. by rewrite decide_False. }
    case_decide.
    + split_and!; [done|by apply leads_same|]. right. exists t. cbv zeta. rewrite <- Hclk2. split_and!; try done. left. simpl. by rewrite Hw2'.
    + set (res := match sendAnswer e with Ok a => a | Err m => _ end).
      edestruct (result_spec (set_rnow t r) cr
        (tick (waitResult e) (add_wire (WSent (ID (r_cmd r)) (clock s2)) s2)) (S (r_attempts r)) res)
        as (s3 & Hrun2 & Hfr4 & Hl2 & Hw3); [done..|simpl; by rewrite Hw2'|].
      simpl in Hrun2 |- *. rewrite (commit_ok _ _ _ _ Hrun2). simpl. split_and!; [by etrans|done|].
      right. exists t. cbv zeta. rewrite <- Hclk2. split_and!; try done. simpl in Hw3. rewrite Hw2' in Hw3. simpl in Hw3. exact Hw3.
Qed.

(** ** Querying *)

Definition asks (e : Event) : bool :=
  match e with QueryFound _ | QueryNotFound | QueryDown => true | _ => false end.

Lemma Step_query f e caps t : fState f = Unknown ∨ fState f = Accepted → asks e = true →
  waiting (Step f e caps t).1 = false ∧ ((Step f e caps t).1 = Sending → (resendable f caps t).1 = true).
Proof.
  intros Hf He. unfold Step. destruct e as [| | | |x| | | |]; try done; destruct Hf as [-> | ->]; simpl;
    try (destruct x as [[]|]; done); try (by destruct (overdue _ _)); try done.
  by destruct (resendable f caps t) as [[] ?].
Qed.

Lemma answered_asks caps ans : asks (answered caps ans).1 = true.
Proof. unfold answered. by repeat case_match. Qed.

Lemma leads_op id cr cr' s' : ident cr = ident cr' → leads id cr s' → leads id cr' s'.
Proof. intros Hop (x & H1 & H2 & H3). exists x. by rewrite H2. Qed.

Lemma resendable_agree f g caps t : agree f g → resendable f caps t = resendable g caps t.
Proof.
  intros Hag. unfold resendable. rewrite (Deadline_agree _ _ _ Hag). destruct Hag as [Hd He Hf Hl Hu].
  unfold latest. by rewrite He, Hl, Hu.
Qed.

Lemma leaves_agree e id cr cr' s0 s s' : c_operation cr = c_operation cr' → agree (c_facts cr) (c_facts cr') →
  wire s0 = wire s → clock s0 ≤ clock s → leaves e id cr s s' → leaves e id cr' s0 s'.
Proof.
  intros Hop Hag Hw Hc [H|(t & H1 & H2 & H3 & H4 & H5 & H6)]; [left; congruence|]. right. exists t.
  rewrite <- Hop, <- (pastDeadline_agree _ _ _ Hag), <- (resendable_agree _ _ _ _ Hag), Hw. split_and!; try done. lia.
Qed.

Lemma keepFound_spec a id cr s : commands s !! id = Some cr → base (capsOf c (c_operation cr)) cr →
  ∃ s' cr', keepFound a id s = Ok (tt, s') ∧ frame id s s' ∧ wire s' = wire s ∧ clock s' = clock s ∧
    commands s' !! id = Some cr' ∧ c_facts cr' = c_facts cr ∧ ident cr' = ident cr ∧
    base (capsOf c (c_operation cr)) cr'.
Proof.
  intros Hrow Hb. unfold keepFound. destruct (Found a).
  - eexists _, (foundRow a cr). split; [reflexivity|].
    split_and!; [apply frame_commands|done|done|simpl; by rewrite lookup_alter_eq, Hrow|done|done|]. by destruct Hb.
  - by eexists _, cr.
Qed.

(** The answer's transaction: the row is in order, and sent again only when it may be. *)
Lemma applyAnswer_spec r cr s n ans :
  let id := ID (r_cmd r) in
  commands s !! id = Some cr → synced r cr → base (capsOf c (c_operation cr)) cr →
  fState (c_facts cr) = Unknown ∨ fState (c_facts cr) = Accepted →
  ∃ b r' s', applyAnswer sha256hex c r n ans s = Ok ((b, r'), s') ∧ frame id s s' ∧ wire s' = wire s ∧ clock s' = clock s ∧
    if b : bool then
      QueryOnly c = false ∧ r_cmd r' = r_cmd r ∧
      ∃ cr', commands s' !! id = Some cr' ∧ synced r' cr' ∧ base (capsOf c (c_operation cr')) cr' ∧
        ident cr' = ident cr ∧ agree (c_facts cr) (c_facts cr') ∧ fState (c_facts cr') = Sending ∧
        cleared (c_facts cr) (capsOf c (c_operation cr)) (clock s)
    else leads id cr s'.
Proof.
  intros id Hrow (Hag & Hst & Hcaps) Hbase Hstate. subst id. unfold applyAnswer. rewrite tbind_get. cbv zeta. simpl.
  pose proof (answered_asks (r_caps r) ans) as Hasks. destruct (answered (r_caps r) ans) as [ev w]. simpl in Hasks.
  rewrite tbind_mod. set (a := match ans with Ok a => a | Err _ => _ end).
  set (s1 := set_attempts _ s).
  destruct (keepFound_spec a (ID (r_cmd r)) cr s1 Hrow Hbase)
    as (s2 & cr1 & Hrun & Hfr1 & Hw & Hck & Hrow1 & Hf1 & Hid1 & Hb1).
  assert (Hop1 := ident_op _ _ Hid1).
  assert (Hfr : frame (ID (r_cmd r)) s s2) by (etrans; [apply frame_attempts|exact Hfr1]).
  unfold tbind at 1. rewrite Hrun. rewrite <- Hst in Hstate.
  pose proof (Step_query (r_facts r) ev (r_caps r) (clock s) Hstate Hasks) as [Hnw Hsend].
  destruct (Step (r_facts r) ev (r_caps r) (clock s)) as [next why]. simpl in Hnw, Hsend.
  assert (Hd1 : ResendDeadline (c_facts cr1) = Deadline (c_facts cr1) (capsOf c (c_operation cr))) by apply Hb1.
  destruct (bool_decide (next = Sending) && QueryOnly c) eqn:Hq.
  - simpl. do 3 eexists. split; [reflexivity|]. split_and!; simpl; try done; [by etrans; [|apply frame_commands]|].
    eapply (leads_op _ cr1); [done|]. eapply leads_written; [simpl; by rewrite lookup_alter_eq, Hrow1|by rewrite Hop1|done].
  - destruct (decide (next = Sending)) as [->|Hns].
    + simpl in Hq. do 3 eexists. split; [reflexivity|]. split_and!; simpl; try done; [by etrans; [|apply frame_commands]|].
      eexists. split; [by rewrite lookup_alter_eq, Hrow1|]. unfold synced. simpl. rewrite Hop1, Hf1. split_and!; try done.
      * destruct Hag; split; simpl; congruence.
      * apply base_written. by rewrite Hf1; rewrite Hf1 in Hd1.
      * apply (cleared_mono (r_facts r) _ _ (clock s)); [by apply agree_sym|done|].
        rewrite <- Hcaps. apply resendable_cleared; [|by apply Hsend].
        rewrite <- (Deadline_agree _ _ _ Hag), <- (ag_deadline _ _ Hag), Hcaps, <- Hf1. exact Hd1.
    + do 3 eexists. split; [reflexivity|]. split_and!; simpl; try done; [by etrans; [|apply frame_commands]|].
      eapply (leads_op _ cr1); [done|].
      eapply leads_written; [simpl; by rewrite lookup_alter_eq, Hrow1|by rewrite Hop1|by rewrite Hnw].
Qed.

Lemma query_spec e r cr s :
  let id := ID (r_cmd r) in let s' := (query sha256hex c e r s).2 in
  commands s !! id = Some cr → synced r cr → base (capsOf c (c_operation cr)) cr →
  fState (c_facts cr) = Unknown ∨ fState (c_facts cr) = Accepted →
  frame id s s' ∧ leads id cr s' ∧ leaves e id cr s s'.
Proof.
  intros id s' Hrow Hsync Hbase Hstate. subst id s'. unfold query, unlessDead.
  assert (Hidle : ∀ s, good s (ID (r_cmd r)) cr).
  { intros. apply good_idle; [done|]. by destruct Hstate as [-> | ->]. }
  case_decide; [split_and!; [reflexivity|by apply leads_same|by left]|].
  destruct (applyAnswer_spec r cr (tick (waitAnswer e) s) (S (r_attempts r)) (queryAnswer e) Hrow Hsync Hbase Hstate)
    as (b & r' & s1 & Hrun & Hfr & Hw & Hck & Hcase).
  rewrite (commit_ok _ _ _ _ Hrun).
  assert (Hfr1 : frame (ID (r_cmd r)) s s1) by (etrans; [apply frame_tick|exact Hfr]).
  destruct b; [|split_and!; [done|done|by left]].
  destruct Hcase as (Hqo & Hcmd & cr' & Hrow' & Hsync' & Hbase' & Hid & Hag & Hst' & Hcl).
  assert (Hop := ident_op _ _ Hid).
  destruct (send_spec e (set_rattempts (S (r_attempts r)) r') cr' s1) as (H1 & H2 & H3);
    simpl; rewrite ?Hcmd in *; try done.
  - intros _. eapply cleared_mono; [exact Hag| |rewrite Hop; exact Hcl]. by rewrite Hck.
  - simpl in H1, H2, H3. rewrite Hcmd in H1, H2, H3. split_and!; [by etrans|by eapply leads_op|].
    eapply leaves_agree; [exact Hop|by apply agree_sym|by rewrite Hw| |exact H3]. apply Hfr1.
Qed.

(** ** One call of [process] *)

Lemma load_ok id s a s' : load decode c id s = Ok (a, s') → ∃ cr, commands s !! id = Some cr ∧ s' = s ∧
  c_next_at cr ≤ clock s ∧ ID (r_cmd a) = id ∧ r_facts a = c_facts cr ∧ r_caps a = capsOf c (c_operation cr) ∧ r_now a = clock s.
Proof. unfold load. rewrite tbind_get. intros H. repeat case_match; simplify_eq/=; inv_tx; eauto 10. Qed.

(** What the first transaction leaves: the row in order when nothing follows, else a
    copy ready to be sent or queried. *)
Lemma take_spec id s cr a s' : commands s !! id = Some cr → good s id cr →
  take decode c id s = Ok (a, s') →
  frame id s s' ∧ wire s' = wire s ∧ clock s' = clock s ∧
  match a with
  | Done => leads id cr s'
  | ToSend r => ID (r_cmd r) = id ∧ QueryOnly c = false ∧ ∃ cr', commands s' !! id = Some cr' ∧ synced r cr' ∧
      base (capsOf c (c_operation cr')) cr' ∧ ident cr' = ident cr ∧ agree (c_facts cr) (c_facts cr') ∧
      fState (c_facts cr') = Sending ∧ waiting (fState (c_facts cr)) = true
  | ToQuery r => ID (r_cmd r) = id ∧ s' = s ∧ synced r cr ∧ (fState (c_facts cr) = Unknown ∨ fState (c_facts cr) = Accepted)
  end.
Proof.
  intros Hrow [Hbase Hgood]. unfold take. intros H. inv_tx.
  destruct (load_ok _ _ _ _ Hrun) as (cr0 & Hrow0 & -> & Hdue & Hid & Hf & Hcaps & Hnow). simplify_eq.
  assert (Hsync : synced v cr) by (split_and!; [by rewrite Hf|by rewrite Hf|done]).
  assert (Hput : ∀ st why next, waiting st = waiting (fState (c_facts cr)) ∨ waiting st = false →
    leads (ID (r_cmd v)) cr (set_commands (alter (written st why next (clock s)) (ID (r_cmd v))) s)).
  { intros st why next Hw. eapply leads_written; [simpl; by rewrite lookup_alter_eq, Hrow|done|].
    destruct Hw as [-> | ->]; [apply Hgood|done]. }
  assert (Hset : ∀ st why next b s2, set v st why next s = Ok (b, s2) →
    s2 = set_commands (alter (written st why next (clock s)) (ID (r_cmd v))) s ∧ b = set_rfacts (with_state st (r_facts v)) v).
  { unfold set, setRow. intros. by inv_tx. }
  assert (Hend : ∀ st why next, waiting st = waiting (fState (c_facts cr)) ∨ waiting st = false →
    (set v st why next ;~ tret Done) s = Ok (a, s') →
    frame (ID (r_cmd v)) s s' ∧ wire s' = wire s ∧ clock s' = clock s ∧ a = Done ∧ leads (ID (r_cmd v)) cr s').
  { intros st why next Hw He. inv_tx. apply Hset in Hrun0 as [-> _]. split_and!; auto with sdk. }
  rewrite Hf in H. destruct (fState (c_facts cr)) eqn:Hst; cbv zeta in H.
  1,2: destruct (QueryOnly c) eqn:Hqo;
    [apply Hend in H as (? & ? & ? & -> & ?); [done|by left]|].
  1,2: unfold Step in H; rewrite Hst in H; simpl in H; destruct (pastDeadline _ _); simpl in H;
    [apply Hend in H as (? & ? & ? & -> & ?); [done|by right]|].
  1,2: inv_tx; apply Hset in Hrun0 as [-> ->]; split_and!; auto with sdk;
    (eexists; split_and!; [simpl; by rewrite lookup_alter_eq, Hrow|..]; try done);
    [split_and!; [simpl; rewrite Hf; by split|done|done]|apply base_written, Hbase].
  - unfold Step in H. rewrite Hst in H. simpl in H. apply Hend in H as (? & ? & ? & -> & ?); [done|by right].
  - inv_tx. split_and!; try done. by left.
  - destruct (finalityAt _ _ _); [apply Hend in H as (? & ? & ? & -> & ?); [done|by left]|].
    unfold Step in H. rewrite Hst in H. simpl in H.
    destruct (CapQuery (r_caps v)) eqn:Hq; simpl in H.
    + inv_tx. split_and!; try done. by right.
    + destruct (overdue _ _); simpl in H;
        (apply Hend in H as (? & ? & ? & -> & ?); [done|by right]).
  - inv_tx. split_and!; try done. apply leads_same; [done|split; [done|by rewrite Hst]].
  - inv_tx. split_and!; try done. apply leads_same; [done|split; [done|by rewrite Hst]].
  - inv_tx. split_and!; try done. apply leads_same; [done|split; [done|by rewrite Hst]].
  - inv_tx. split_and!; try done. apply leads_same; [done|split; [done|by rewrite Hst]].
Qed.

Lemma process_spec e id s cr : commands s !! id = Some cr → good s id cr →
  let s' := (process decode sha256hex c e id s).2 in
  frame id s s' ∧ leads id cr s' ∧ leaves e id cr s s'.
Proof.
  intros Hrow Hgood. unfold process, commit.
  destruct (take decode c id s) as [[a s1]|x] eqn:Htake.
  - destruct (take_spec _ _ _ _ _ Hrow Hgood Htake) as (Hfr & Hw & Hck & Hcase). destruct a as [|r|r].
    + split_and!; [done|done|by left].
    + destruct Hcase as (<- & Hqo & cr' & Hrow' & Hsync & Hbase & Hid & Hag & Hst & Hwait).
      assert (Hop := ident_op _ _ Hid).
      destruct (send_spec e r cr' s1 Hrow' Hsync Hbase Hst Hqo) as (H1 & H2 & H3).
      { intros Ho. eapply cleared_mono; [exact Hag|by rewrite Hck|]. rewrite Hop. apply Hgood; [done|by rewrite <- Hw]. }
      split_and!; [by etrans|by eapply leads_op|].
      eapply leaves_agree; [exact Hop|by apply agree_sym|by rewrite Hw|by rewrite Hck|exact H3].
    + destruct Hcase as (<- & -> & Hsync & Hst). apply query_spec; [done|done|apply Hgood|done].
  - assert (frame id s s ∧ leads id cr s ∧ leaves e id cr s s) by (split_and!; [done|by apply leads_same|by left]).
    by destruct x.
Qed.

Lemma process_none e id s : commands s !! id = None → (process decode sha256hex c e id s).2 = s.
Proof. intros Hrow. unfold process, commit, take, load, tbind, tget. by rewrite Hrow. Qed.

(** ** Histories *)

Context (encode digest : P → res string string) (next0 : Z → Z).

Inductive op :=
| OpRequest (newid requester reference operation : string) (params : P) (expiresAt : option Z)
| OpProcess (e : env) (id : string)
| OpRegister (id : string) (to : estate) (why : string)
| OpPass (d : N).

Definition run1 (s : store) (o : op) : store :=
  match o with
  | OpRequest newid requester reference operation params expiresAt =>
      after (Request encode digest next0 (Some c) newid requester reference operation params expiresAt) s
  | OpProcess e id => (process decode sha256hex c e id s).2
  | OpRegister id to why => after (Register id to why) s
  | OpPass d => tick d s
  end.

Definition empty0 (t : Z) : store := mkStore ∅ [] t [].
Definition runOps (t : Z) (l : list op) : store := fold_left run1 l (empty0 t).

Record Inv (s : store) : Prop := mkInv {
  inv_good : ∀ id r, commands s !! id = Some r → good s id r;
  inv_fresh : ∀ id, commands s !! id = None → owed (wire s) id = O;
  inv_unique : ∀ i j r r', commands s !! i = Some r → commands s !! j = Some r' →
    c_requester r = c_requester r' → c_reference r = c_reference r' → i = j
}.

Lemma byReference_some m q r id cr : byReference m q r = Some (id, cr) →
  m !! id = Some cr ∧ c_requester cr = q ∧ c_reference cr = r.
Proof.
  unfold byReference. intros H. apply head_Some_elem_of in H.
  apply list_elem_of_filter in H as [[H1 H2] H3]. by apply elem_of_map_to_list in H3.
Qed.

Lemma byReference_none m q r id cr : byReference m q r = None → m !! id = Some cr →
  c_requester cr = q → c_reference cr = r → False.
Proof.
  unfold byReference. intros H Hrow Hq Hr. apply head_None in H.
  assert (Hin : (id, cr) ∈ filter (λ p : string * crow, c_requester p.2 = q ∧ c_reference p.2 = r) (map_to_list m)).
  { apply list_elem_of_filter. split; [done|]. by apply elem_of_map_to_list. }
  rewrite H in Hin. by apply elem_of_nil in Hin.
Qed.

Lemma Inv_step id cr s s' : Inv s → commands s !! id = Some cr → frame id s s' → leads id cr s' → Inv s'.
Proof.
  intros [Hg Hf Hu] Hrow Hfr (cr' & Hrow' & Hid & Hg').
  assert (Hback : ∀ i r', commands s' !! i = Some r' → ∃ r, commands s !! i = Some r ∧ ident r' = ident r).
  { intros i r' Hi. destruct (decide (i = id)) as [->|Hne]; [exists cr; split; congruence|].
    exists r'. by rewrite <- (fr_rows _ _ _ Hfr i Hne). }
  split.
  - intros i r Hi. destruct (decide (i = id)) as [->|Hne]; [by simplify_eq|].
    eapply good_frame; [done..|]. apply Hg. by rewrite <- (fr_rows _ _ _ Hfr).
  - intros i Hi. destruct (decide (i = id)) as [->|Hne]; [congruence|].
    rewrite (fr_owed _ _ _ Hfr) by done. apply Hf. by rewrite <- (fr_rows _ _ _ Hfr).
  - intros i j r r' Hi Hj Hq Hr.
    destruct (Hback i r Hi) as (r1 & Hi1 & E1). destruct (Hback j r' Hj) as (r2 & Hj2 & E2).
    unfold ident in E1, E2. apply (Hu i j r1 r2); congruence.
Qed.

Lemma Request_ok newid q r o params exp s v s' :
  Request encode digest next0 (Some c) newid q r o params exp s = Ok (v, s') →
  ID v.1 = newid ∧ v.2 = Prepared ∧ byReference (commands s) q r = None ∧ commands s !! newid = None ∧
    (∃ raw dg caps, Ops c !! o = Some caps ∧ digest params = Ok dg ∧
     s' = set_commands (insert newid (mkCrow q r o raw dg (Irrevocable caps) "requested" (next0 (clock s)) None None None
            (mkFacts Prepared None exp None None None None None))) s) ∨
  s' = s ∧ ∃ cr, byReference (commands s) q r = Some (ID v.1, cr) ∧ digest params = Ok (c_digest cr) ∧
    c_operation cr = o ∧ v.2 = fState (c_facts cr).
Proof.
  unfold Request. intros H. destruct (HasAdapter c); [|done]. simpl in H. destruct (Ops c !! o) as [caps|] eqn:Hops; [|done].
  destruct (encode params) as [raw|]; [|done]. destruct (digest params) as [dg|] eqn:Hdg; [|done].
  rewrite tbind_get in H. destruct (byReference (commands s) q r) as [[id cr]|] eqn:Hby.
  - case_decide as Hd; [done|]. inv_tx. right. simpl. split; [done|].
    assert (c_digest cr = dg ∧ c_operation cr = o) as [E1 E2].
    { split; apply dec_stable; intros ?; apply Hd; auto. }
    exists cr. by rewrite E1.
  - case_decide as Hn; [|done]. inv_tx. left. simpl. split_and!; try done. by exists raw, dg, caps.
Qed.

Lemma Inv_Request newid q r o params exp : keeps Inv (Request encode digest next0 (Some c) newid q r o params exp).
Proof.
  intros s v s' [Hg Hf Hu] Hrun. destruct (Request_ok _ _ _ _ _ _ _ _ _ Hrun) as
    [(_ & _ & Hby & Hnew & raw & dg & caps & Hops & _ & ->)|(-> & _)]; [|by split].
  split; simpl.
  - intros id cr. rewrite lookup_insert_Some. intros [[<- <-]|[Hne Hrow]]; [|exact (Hg _ _ Hrow)].
    split; [split; simpl|simpl; rewrite Hf by done; lia].
    + unfold Deadline. simpl. case_decide; [done|]. by destruct (LastUse _).
    + rewrite <- not_eq_None_Some. naive_solver.
    + rewrite <- not_eq_None_Some. naive_solver.
    + rewrite <- not_eq_None_Some. naive_solver.
  - intros id. rewrite lookup_insert_None. intros [H1 H2]. auto.
  - intros i j r1 r2. rewrite !lookup_insert_Some. intros [[<- <-]|[Hne1 H1]] [[<- <-]|[Hne2 H2]] Hq Hr; simpl in *; try done.
    + exfalso. eapply byReference_none; eauto.
    + exfalso. eapply byReference_none; eauto.
    + eauto.
Qed.

Lemma Inv_Register id to why : keeps Inv (Register id to why).
Proof.
  intros s [] s' Hinv Hrun. unfold Register in Hrun. case_decide as Hto; [|done]. rewrite tbind_get in Hrun.
  destruct (commands s !! id) as [cr|] eqn:Hrow; [|done]. case_decide as Hst; [|done].
  destruct (inv_good _ Hinv _ _ Hrow) as [Hbase _].
  case_decide as Hs; unfold setRow in Hrun; inv_tx.
  - eapply (Inv_step id cr s); [done|done| |].
    + split; simpl; intros; [by rewrite lookup_alter_ne|by rewrite decide_False|lia].
    + eapply leads_written; [simpl; by rewrite lookup_alter_eq, Hrow|done|]. simpl. rewrite decide_True by done. lia.
  - eapply (Inv_step id cr s); [done|done|apply frame_commands|].
    eapply leads_written; [simpl; by rewrite lookup_alter_eq, Hrow|done|].
    rewrite !elem_of_cons in Hto. destruct Hto as [-> |[-> |[-> |[->|Hn]]]]; try done. by apply elem_of_nil in Hn.
Qed.

Lemma Inv_run1 s o : Inv s → Inv (run1 s o).
Proof.
  intros Hinv. destruct o as [newid q r o params exp|e id|id to why|d]; simpl.
  - apply keeps_after; [apply Inv_Request|done].
  - destruct (commands s !! id) as [cr|] eqn:Hrow; [|by rewrite process_none].
    destruct (process_spec e id s cr Hrow (inv_good _ Hinv _ _ Hrow)) as (H1 & H2 & _).
    by eapply Inv_step.
  - apply keeps_after; [apply Inv_Register|done].
  - destruct Hinv as [Hg Hf Hu]. split; simpl; auto. intros id r Hrow. destruct (Hg _ _ Hrow) as [Hb Hc].
    split; [done|]. intros H1 H2. eapply cleared_mono; [..|exact (Hc H1 H2)]; [by split|simpl; lia].
Qed.

Lemma Inv_runOps t l : Inv (runOps t l).
Proof.
  unfold runOps. assert (H0 : Inv (empty0 t)).
  { split; simpl; [intros ??|done|intros ????]; rewrite lookup_empty; done. }
  revert H0. generalize (empty0 t). induction l as [|o l IH]; intros s Hs; simpl; [done|]. apply IH. by apply Inv_run1.
Qed.

End histories.
