(* ===== verification/ExtSafety.v ===== *)
(** * External commands: what the histories give

    When a request leaves and why a second one may, that a settled command stays
    settled, that a request is idempotent for ever, and two behaviours of the resend
    rules that the protocol's words exclude. *)
From S2P Require Import Prelude ExtState ExtCommands ExtProps.
Open Scope string_scope.
Open Scope Z_scope.
Open Scope tx_scope.

Section properties.
Context {P : Type} (decode : string → option P) (sha256hex : string → string) (c : Commands).
Context (encode digest : P → res string string) (next0 : Z → Z).

#[local] Abbreviation run1 := (run1 decode sha256hex c encode digest next0).
#[local] Abbreviation runOps := (runOps decode sha256hex c encode digest next0).
#[local] Abbreviation Inv := (Inv c).

Lemma runOps_app t l l' : runOps t (l ++ l') = fold_left run1 l' (runOps t l).
Proof. unfold ExtProps.runOps. apply fold_left_app. Qed.

Lemma fold_Inv l s : Inv s → Inv (fold_left run1 l s).
Proof. revert s. induction l as [|o l IH]; intros s Hs; simpl; [done|]. apply IH, Inv_run1, Hs. Qed.

(** What was written with a request stays. *)
Lemma run1_ident s o id r : Inv s → commands s !! id = Some r →
  ∃ r', commands (run1 s o) !! id = Some r' ∧ ident r' = ident r.
Proof.
  intros Hinv Hrow. destruct o as [newid q rf o params exp|e i|i to why|d]; unfold ExtProps.run1.
  - destruct (after_cases (Request encode digest next0 (Some c) newid q rf o params exp) s) as [->|(v & s' & Hrun & ->)]; [eauto|].
    destruct (Request_ok _ _ _ _ _ _ _ _ _ _ _ _ _ Hrun) as [(_ & _ & _ & Hnew & raw & dg & caps & _ & _ & ->)|(-> & _)]; [|eauto].
    simpl. rewrite lookup_insert_ne by congruence. eauto.
  - destruct (commands s !! i) as [cr|] eqn:Hi; [|rewrite process_none by done; eauto].
    destruct (process_spec decode sha256hex c e i s cr Hi (inv_good _ _ Hinv _ _ Hi)) as (Hfr & (cr' & Hrow' & Hid & _) & _).
    destruct (decide (id = i)) as [->|Hne]; [exists cr'; split; congruence|].
    rewrite (fr_rows _ _ _ Hfr) by done. eauto.
  - destruct (after_cases (Register i to why) s) as [->|(v & s' & Hrun & ->)]; [eauto|].
    unfold Register, setRow in Hrun. repeat case_match; inv_tx; repeat case_match; inv_tx; try done; simpl;
      (destruct (decide (id = i)) as [->|Hne];
        [rewrite lookup_alter_eq, Hrow; simpl; eauto|rewrite lookup_alter_ne by done; eauto]).
  - eauto.
Qed.

Lemma fold_ident l s id r : Inv s → commands s !! id = Some r →
  ∃ r', commands (fold_left run1 l s) !! id = Some r' ∧ ident r' = ident r.
Proof.
  revert s r. induction l as [|o l IH]; intros s r Hs Hr; simpl; [eauto|].
  destruct (run1_ident s o id r Hs Hr) as (r' & Hr' & E). destruct (IH _ _ (Inv_run1 _ _ _ _ _ _ _ _ Hs) Hr') as (r2 & H1 & H2).
  exists r2. by rewrite H2.
Qed.

(** A settled row is left alone. *)
Lemma run1_settled s o id r : Inv s → commands s !! id = Some r → terminal (fState (c_facts r)) = true →
  commands (run1 s o) !! id = Some r.
Proof.
  intros Hinv Hrow Ht. destruct o as [newid q rf o params exp|e i|i to why|d]; unfold ExtProps.run1.
  - destruct (after_cases (Request encode digest next0 (Some c) newid q rf o params exp) s) as [->|(v & s' & Hrun & ->)]; [done|].
    destruct (Request_ok _ _ _ _ _ _ _ _ _ _ _ _ _ Hrun) as [(_ & _ & _ & Hnew & raw & dg & caps & _ & _ & ->)|(-> & _)]; [|done].
    simpl. by rewrite lookup_insert_ne by congruence.
  - destruct (decide (id = i)) as [<-|Hne].
    + unfold process, commit. destruct (take decode c id s) as [[a s1]|x] eqn:Htake; [|by destruct x].
      unfold take in Htake. inv_tx. destruct (load_ok _ _ _ _ _ _ Hrun) as (cr0 & Hrow0 & -> & _ & _ & Hf & _). simplify_eq.
      rewrite Hf in Htake. destruct (fState (c_facts r)); try done; by inv_tx.
    + destruct (commands s !! i) as [cr|] eqn:Hi; [|by rewrite process_none].
      destruct (process_spec decode sha256hex c e i s cr Hi (inv_good _ _ Hinv _ _ Hi)) as (Hfr & _ & _).
      by rewrite (fr_rows _ _ _ Hfr).
  - destruct (after_cases (Register i to why) s) as [->|(v & s' & Hrun & ->)]; [done|].
    assert (id ≠ i) as Hne.
    { intros <-. unfold Register in Hrun. case_decide; [|done]. rewrite tbind_get, Hrow in Hrun.
      case_decide as Hm; [|done]. by rewrite Hm in Ht. }
    unfold Register, setRow in Hrun. repeat case_match; inv_tx; repeat case_match; inv_tx; try done; simpl; by rewrite lookup_alter_ne.
  - done.
Qed.

(** C34. When a request leaves (P13.4 to P13.6, P13.10): after any history of requests, runs of
    the job with crashes anywhere, registrations and time passing, one run over a
    command lets at most one request out, of that command.  Its resend deadline is checked
    first and has not passed then; the request leaves after the check by the time its issue
    record takes, and by no more.  It never leaves in query-only mode, and for an
    irrevocable operation only with its issue record written.  When an earlier request of
    the command may have been processed, and no person declared that it did not happen,
    then by the facts kept of the command the earlier one can no longer land when this one
    leaves, or the external system still deduplicates the two, with an hour to spare less
    the time the issue record took (the evidence writer gives itself seconds for it). *)
Theorem request_leaves t l e id :
  (∀ o caps, Ops c !! o = Some caps → 0 ≤ MaxProcessing caps < int64_max) →
  let s := runOps t l in let s' := (process decode sha256hex c e id s).2 in
  wire s' = wire s ∨
  ∃ cr checked left, commands s !! id = Some cr ∧
    (wire s' = WSent id left :: wire s ∨ wire s' = WNotReached id :: WSent id left :: wire s) ∧
    clock s ≤ checked ∧ pastDeadline (c_facts cr) checked = false ∧ left = checked + Z.of_N (waitIntent e) ∧ QueryOnly c = false ∧
    (Irrevocable (capsOf c (c_operation cr)) = true → issued c e = true) ∧
    ((0 < owed (wire s) id)%nat →
       harmlessFor (MinMargin - Z.of_N (waitIntent e)) (c_facts cr) (capsOf c (c_operation cr)) left).
Proof.
  intros Hmax s s'. pose proof (Inv_runOps decode sha256hex c encode digest next0 t l) as Hinv. fold s in Hinv.
  destruct (commands s !! id) as [cr|] eqn:Hrow; [|left; unfold s'; by rewrite process_none].
  destruct (process_spec decode sha256hex c e id s cr Hrow (inv_good _ _ Hinv _ _ Hrow))
    as (_ & _ & [H|(t' & H1 & H2 & H3 & H4 & H5 & H6)]); [by left|].
  right. exists cr, t', (t' + Z.of_N (waitIntent e)). split_and!; try done. intros Ho. apply harmless_later; [lia|].
  apply resendable_harmless; [|by apply H6].
  unfold capsOf. destruct (Ops c !! c_operation cr) eqn:Hops; simpl; [by eapply Hmax|]. unfold int64_max. lia.
Qed.

(** A settled command stays as it is (P13.3): whatever is requested, run, registered or
    waited for after it, the row of a succeeded, failed or rejected command is not
    written again; and at every moment the times a command keeps agree with its state:
    a settlement time exactly when settled, an unknown or accepted since exactly in
    that state. *)
Theorem settled_forever t l l' id r :
  commands (runOps t l) !! id = Some r →
  base (capsOf c (c_operation r)) r ∧
  (terminal (fState (c_facts r)) = true → commands (runOps t (l ++ l')) !! id = Some r).
Proof.
  intros Hrow. pose proof (Inv_runOps decode sha256hex c encode digest next0 t l) as Hinv.
  split; [apply (inv_good _ _ Hinv _ _ Hrow)|]. intros Ht. rewrite runOps_app. revert Hinv Hrow.
  generalize (runOps t l). induction l' as [|o l' IH]; intros s Hs Hr; simpl; [done|].
  apply IH; [by apply Inv_run1|by apply run1_settled].
Qed.

(** A request is idempotent for ever (P13.2): once a request of a reference was answered,
    a later request with the same reference, whatever happened since, answers the same
    command and its state when the operation and the digest of the parameters are the
    same, answers that the reference was used otherwise, and in both cases writes
    nothing; so one reference has one command. *)
Theorem request_idempotent t l newid q ref o params exp v s1 l' newid' o' params' exp' raw dg caps :
  Request encode digest next0 (Some c) newid q ref o params exp (runOps t l) = Ok (v, s1) →
  HasAdapter c = true → Ops c !! o' = Some caps → encode params' = Ok raw → digest params' = Ok dg →
  let s := fold_left run1 l' s1 in
  ∃ cr, commands s !! ID v.1 = Some cr ∧
  Request encode digest next0 (Some c) newid' q ref o' params' exp' s =
    if decide (o' = o ∧ digest params = Ok dg)
    then Ok (mkCommand (ID v.1) q ref o' params' exp' "", fState (c_facts cr), s)
    else Err (IdempotencyKeyReused "this business reference was requested with other parameters").
Proof.
  intros Hrun Ha Hops Henc Hdg s. pose proof (Inv_runOps decode sha256hex c encode digest next0 t l) as Hinv.
  assert (Hinv1 : Inv s1) by (exact (Inv_Request decode sha256hex c encode digest next0 _ _ _ _ _ _ _ _ _ Hinv Hrun)).
  assert (∃ cr1 dg1, commands s1 !! ID v.1 = Some cr1 ∧ digest params = Ok dg1 ∧ ident cr1 = (q, ref, o, dg1))
    as (cr1 & dg1 & Hrow1 & Hdg1 & Hid1).
  { destruct (Request_ok _ _ _ _ _ _ _ _ _ _ _ _ _ Hrun)
      as [(-> & _ & _ & Hnew & raw1 & dg1 & caps1 & _ & Hd & ->)|(-> & cr & Hby & Hd & Hop & _)].
    - eexists _, dg1. split_and!; [simpl; by rewrite lookup_insert_eq|done|done].
    - apply byReference_some in Hby as (H1 & H2 & H3). eexists _, _. split_and!; [done|done|].
      unfold ident. by rewrite H2, H3, Hop. }
  destruct (fold_ident l' s1 _ _ Hinv1 Hrow1) as (cr & Hrow & Hid). fold s in Hrow. exists cr. split; [done|].
  assert (E := eq_trans Hid Hid1). unfold ident in E.
  assert (c_requester cr = q ∧ c_reference cr = ref ∧ c_operation cr = o ∧ c_digest cr = dg1) as (E1 & E2 & E3 & E4)
    by (split_and!; congruence).
  destruct (byReference (commands s) q ref) as [[id2 cr2]|] eqn:Hby.
  2: { exfalso. eapply byReference_none; eauto. }
  destruct (byReference_some _ _ _ _ _ Hby) as (Hrow2 & E5 & E6).
  assert (id2 = ID v.1) as -> by (eapply (inv_unique _ _ (fold_Inv l' s1 Hinv1)); [exact Hrow2|exact Hrow|congruence..]).
  assert (cr2 = cr) as -> by congruence.
  unfold Request. rewrite Ha. simpl. rewrite Hops, Henc, Hdg. rewrite tbind_get, Hby, E3, E4, Hdg1.
  destruct (decide (o' = o ∧ Ok dg1 = Ok dg)) as [[-> Hd]|Hn].
  - assert (dg1 = dg) as -> by congruence. rewrite decide_False by naive_solver. done.
  - rewrite decide_True; [done|]. destruct (decide (dg1 = dg)); [right|by left]. naive_solver.
Qed.

End properties.

(** ** Two behaviours of the resend rules *)

Section stuck.
Context {P : Type} (decode : string → option P) (sha256hex : string → string) (c : Commands).

(** A due command, unknown, past its resend deadline and its expiry, that can be queried. *)
Definition stuck (id : string) (s : store) : Prop :=
  ∃ cr p x, commands s !! id = Some cr ∧ fState (c_facts cr) = Unknown ∧ c_next_at cr ≤ clock s ∧
    decode (c_params cr) = Some p ∧ pastDeadline (c_facts cr) (clock s) = true ∧
    ExpiresAt (c_facts cr) = Some x ∧ x < clock s ∧ CapQuery (capsOf c (c_operation cr)) = true.

(** A run that lives and whose query is answered "not found". *)
Definition notFound (e : env) : Prop :=
  dies e = None ∧ ∃ a, queryAnswer e = Ok a ∧ Found a = false.

Lemma pastDeadline_mono f t t' : t ≤ t' → pastDeadline f t = true → pastDeadline f t' = true.
Proof. unfold pastDeadline. destruct (ResendDeadline f); [|done]. rewrite !bool_decide_eq_true. lia. Qed.

Lemma resendable_expired f caps t x : ExpiresAt f = Some x → x < t → (resendable f caps t).1 = true.
Proof. intros Hx Ht. unfold resendable. case_match; [done|]. by rewrite Hx, bool_decide_eq_true_2. Qed.

Lemma stuck_step id s e : QueryOnly c = false → stuck id s → notFound e →
  let s' := (process decode sha256hex c e id s).2 in
  stuck id s' ∧ wire s' = wire s ∧
  ∃ cr, commands s' !! id = Some cr ∧ fState (c_facts cr) = Unknown ∧ UnknownSince (c_facts cr) = Some (clock s').
Proof.
  intros Hqo (cr & p & x & Hrow & Hst & Hdue & Hp & Hpast & Hx & Hxt & Hq) (Hlive & a & Ha & Hnf) s'. subst s'.
  unfold process, commit, take, load. rewrite tbind_assoc, tbind_get, Hrow.
  rewrite decide_True, Hp, tbind_ret by done. simpl. rewrite Hst. simpl.
  unfold query, unlessDead. rewrite Hlive. rewrite decide_False by done.
  unfold commit, applyAnswer, answered, keepFound. rewrite tbind_get. simpl. rewrite Ha, Hq, Hnf. simpl.
  rewrite tbind_mod, tbind_ret.
  pose proof (resendable_expired (c_facts cr) (capsOf c (c_operation cr)) (clock s + Z.of_N (waitAnswer e)) x Hx) as Hr.
  unfold Step. rewrite Hst. simpl. destruct (resendable _ _ _) as [[] why]; [|simpl in Hr; lia]. clear Hr.
  rewrite Hqo. simpl. unfold send, unlessDead. rewrite Hlive. rewrite decide_False by done.
  unfold commit, presend. rewrite tbind_get. simpl. unfold Step. simpl.
  assert (Hpast' : ∀ d, 0 ≤ d → pastDeadline (c_facts cr) (clock s + d) = true).
  { intros d Hd. eapply pastDeadline_mono; [|exact Hpast]. lia. }
  change (pastDeadline (with_state Sending (c_facts cr))) with (pastDeadline (c_facts cr)).
  rewrite <- Z.add_assoc, Hpast' by lia. simpl. split_and!; [|done|].
  - eexists _, p, x. simpl. rewrite !lookup_alter_eq, Hrow. simpl.
    split_and!; [reflexivity|done|simpl; lia|done|rewrite <- Z.add_assoc; apply (Hpast' _); lia|done|lia|done].
  - eexists. simpl. rewrite !lookup_alter_eq, Hrow. split_and!; [reflexivity|done|done].
Qed.

(** The resend deadline and the other grounds to send again disagree (P13.6, P13.7): a
    command in doubt whose expiry and resend deadline have both passed, and of which the
    external system has no record, is found sendable by every query and held back by
    every check before the send. However often the job runs, it stays unknown, nothing
    leaves, and the time it is in doubt since is reset each time to that very moment, so
    that the manual limit of a day is never reached and no person ever sees it. *)
Theorem expired_stays_unknown id s e es :
  QueryOnly c = false → stuck id s → Forall notFound (e :: es) →
  let s' := fold_left (λ s e, (process decode sha256hex c e id s).2) (e :: es) s in
  wire s' = wire s ∧
  ∃ cr, commands s' !! id = Some cr ∧ fState (c_facts cr) = Unknown ∧ UnknownSince (c_facts cr) = Some (clock s') ∧
    overdue (UnknownSince (c_facts cr)) (clock s') = false.
Proof.
  intros Hqo Hs Hes. cbv zeta. revert s e Hs Hes. induction es as [|e' es IH]; intros s e Hs Hes; inversion Hes as [|? ? He Hes']; subst.
  - destruct (stuck_step id s e Hqo Hs He) as (_ & Hw & cr & H1 & H2 & H3). simpl. split; [done|].
    exists cr. split_and!; try done. rewrite H3. unfold overdue, timeSub. rewrite Z.sub_diag. done.
  - destruct (stuck_step id s e Hqo Hs He) as (Hs' & Hw & _). simpl.
    destruct (IH _ e' Hs' Hes') as (Hw' & Hrest). simpl in Hw', Hrest. by rewrite Hw', Hw.
Qed.

End stuck.

(** ** Concrete runs *)

Definition payOps : gmap string Capabilities :=
  {[ "pay" := mkCaps (24 * Hour) false true false 0 0 true;
     "move" := mkCaps 0 false true false Hour 0 false ]}.
Definition payMember : Commands := mkCommands true payOps true false.
Definition answers (r : sendClass) (found : bool) (d : option point) : env :=
  mkEnv 0 0 0 0 d (Ok (mkResult r "" None "")) (Ok (mkAnswer found (XState Succeeded) "" None "")) (Some (Some "store")).
Definition request1 (what : string) (exp : option Z) : @op string :=
  OpRequest "c1" "shop" "order-1" what "42" exp.
#[local] Abbreviation runS := (runOps (P:=string) Some (λ t, t) payMember Ok Ok (λ t, t)).
#[local] Abbreviation processS := (process (P:=string) Some (λ t, t) payMember).

Lemma payOps_bounded o caps : Ops payMember !! o = Some caps → 0 ≤ MaxProcessing caps < int64_max.
Proof.
  simpl. unfold payOps. rewrite lookup_insert_Some, lookup_singleton_Some.
  intros [[_ <-]|[_ [_ <-]]]; vm_compute; split; congruence.
Qed.

(** A payment in doubt is sent again after a query that found nothing, at a harmless time. *)
Lemma request_leaves_witness :
  let s := runS 0 [request1 "pay" None; OpProcess (answers MaybeReached false None) "c1"] in
  owed (wire s) "c1" = 1%nat ∧ wire (processS (answers RAccepted false None) "c1" s).2 = WSent "c1" 0 :: wire s ∧
  ∃ cr t', commands s !! "c1" = Some cr ∧ harmlessFor MinMargin (c_facts cr) (capsOf payMember (c_operation cr)) t'.
Proof.
  split; [vm_compute; reflexivity|]. split; [vm_compute; reflexivity|].
  destruct (request_leaves Some (λ t, t) payMember Ok Ok (λ t, t) 0
    [request1 "pay" None; OpProcess (answers MaybeReached false None) "c1"] (answers RAccepted false None) "c1" payOps_bounded)
    as [H|(cr & t & t' & H1 & _ & _ & _ & _ & _ & _ & H)].
  - vm_compute in H. discriminate H.
  - exists cr, t'. split; [exact H1|]. apply H. vm_compute. lia.
Defined.

Lemma settled_forever_witness :
  let s := runS 0 [request1 "pay" None; OpProcess (answers RSucceeded false None) "c1"] in
  ∃ r, commands s !! "c1" = Some r ∧ terminal (fState (c_facts r)) = true ∧
    commands (runS 0 ([request1 "pay" None; OpProcess (answers RSucceeded false None) "c1"] ++
                      [OpPass 5; OpProcess (answers RFailed false None) "c1"; OpRegister "c1" Failed "late"])) !! "c1" = Some r.
Proof.
  eexists. split; [vm_compute; reflexivity|]. split; [reflexivity|].
  apply (settled_forever Some (λ t, t) payMember Ok Ok (λ t, t) 0
    [request1 "pay" None; OpProcess (answers RSucceeded false None) "c1"]); [vm_compute; reflexivity|reflexivity].
Defined.

Lemma request_idempotent_witness :
  let s := runS 0 [request1 "pay" None; OpProcess (answers RSucceeded false None) "c1"] in
  ∃ cr, commands s !! "c1" = Some cr ∧
    Request (P:=string) Ok Ok (λ t, t) (Some payMember) "c2" "shop" "order-1" "pay" "42" None s =
      Ok (mkCommand "c1" "shop" "order-1" "pay" "42" None "", fState (c_facts cr), s).
Proof.
  destruct (request_idempotent Some (λ t, t) payMember Ok Ok (λ t, t) 0 [] "c1" "shop" "order-1" "pay" "42" None
    (mkCommand "c1" "shop" "order-1" "pay" "42" None "", Prepared) (runS 0 [request1 "pay" None])
    [OpProcess (answers RSucceeded false None) "c1"] "c2" "pay" "42" None "42" "42" (mkCaps (24 * Hour) false true false 0 0 true))
    as (cr & H1 & H2); [vm_compute; reflexivity..|].
  exists cr. split; [exact H1|exact H2].
Defined.

(** A payment with an expiry of two hours, in doubt for a day. *)
Lemma expired_stays_unknown_witness :
  let s := runS 0 [request1 "pay" (Some (2 * Hour)); OpProcess (answers MaybeReached false None) "c1"; OpPass (Z.to_N (25 * Hour))] in
  let s' := fold_left (λ s e, (processS e "c1" s).2) [answers RAccepted false None; answers RAccepted false None] s in
  wire s' = [WSent "c1" 0] ∧ ∃ cr, commands s' !! "c1" = Some cr ∧ UnknownSince (c_facts cr) = Some (25 * Hour).
Proof.
  destruct (expired_stays_unknown (P:=string) Some (λ t, t) payMember "c1"
    (runS 0 [request1 "pay" (Some (2 * Hour)); OpProcess (answers MaybeReached false None) "c1"; OpPass (Z.to_N (25 * Hour))])
    (answers RAccepted false None) [answers RAccepted false None]) as (H & cr & H1 & _ & H2 & _).
  - reflexivity.
  - eexists _, _, (2 * Hour). split; [vm_compute; reflexivity|]. vm_compute. intuition congruence.
  - repeat constructor; eexists; split; reflexivity.
  - split; [rewrite H; vm_compute; reflexivity|]. exists cr. split; [exact H1|]. rewrite H2. vm_compute. reflexivity.
Defined.

(** A request whose result was lost is not counted (P13.6): the longest processing time is
    measured from the last request whose result was kept. Here, with an hour as the
    longest processing time and no deduplication, a second request leaves and the
    process dies before its result is kept; after the claim's two minutes the job asks,
    finds no record, and lets a third request out while the second may still land. *)
Example lost_send_not_counted :
  let s := runS 0 [request1 "move" None;
                   OpProcess (answers MaybeReached false None) "c1"; OpPass (Z.to_N (2 * Hour));
                   OpProcess (answers MaybeReached false (Some AtResult)) "c1"; OpPass (Z.to_N SendLease);
                   OpProcess (answers MaybeReached false None) "c1"; OpProcess (answers MaybeReached false None) "c1"] in
  wire s = [WSent "c1" (2 * Hour + SendLease); WSent "c1" (2 * Hour); WSent "c1" 0] ∧
  MaxProcessing (capsOf payMember "move") = Hour.
Proof. vm_compute. split; reflexivity. Qed.
