(* ===== verification/ProjDecide.v ===== *)
(** * Projections: the watermark source's decision tables

    [projection/decide.go]: the judgement of a read, the decision on a declared source
    identity, the outcome of a pull, the alignment state machine and the watermark. Times
    in seconds are finite floats only compared, so they are the rationals they denote. *)
From S2P Require Import Prelude GoStr.
From stdpp Require Import numbers.
From Stdlib Require Import Ascii QArith Qcanon.
Open Scope string_scope.
Open Scope Z_scope.

(** ** The judgement of a read *)

Inductive alignState := Aligned | Aligning | Stalled | Blocked.
#[export] Instance alignState_eq_dec : EqDecision alignState.
Proof. solve_decision. Defined.

Inductive judgement := Usable | ProvablyAbsent | Unprovable | QueryTheSource.
Inductive projState := ServingState | UntrustedState | AligningState.
#[export] Instance projState_eq_dec : EqDecision projState.
Proof. solve_decision. Defined.

(** The states of a projected row. *)
Inductive rowState := Complete | Incomplete | Tombstone.
#[export] Instance rowState_eq_dec : EqDecision rowState.
Proof. solve_decision. Defined.

Record JudgedRow := mkJudgedRow { jState : rowState; jAdopted : bool }.

Record JudgeInput := mkJudgeInput {
  LastApplied : bool;
  WatermarkSource : bool;
  jSourceState : alignState;
  jProjectionState : projState;
  Quarantined : bool;
  HasWatermark : bool;
  WatermarkAge : Qc;
  Freshness : Qc;
  jRow : option JudgedRow
}.

Definition Judge (q : JudgeInput) : judgement :=
  if negb (WatermarkSource q) then QueryTheSource
  else if (bool_decide (jSourceState q ≠ Aligned) && negb (LastApplied q && bool_decide (jSourceState q = Stalled)))
          || bool_decide (jProjectionState q ≠ ServingState) || Quarantined q then Unprovable
  else if negb (LastApplied q) && (negb (HasWatermark q) || bool_decide (Freshness q < WatermarkAge q)%Qc) then Unprovable
  else
    match jRow q with
    | None => ProvablyAbsent
    | Some r =>
        if negb (jAdopted r) then Unprovable
        else match jState r with Complete => Usable | Tombstone => ProvablyAbsent | Incomplete => Unprovable end
    end.

(** ** The source's identity *)

Record Identity := mkIdentity {
  Deployment : string;
  Impl : string;
  SystemID : string;
  Epoch : string;
  Primary : bool;
  Purpose : string
}.

Inductive epochDecision := Establish | Use | Adopt | IgnoreIt | Stall | Block | Discard.
#[export] Instance epochDecision_eq_dec : EqDecision epochDecision.
Proof. solve_decision. Defined.

Definition epochKey (e : string) : Z * Z :=
  let '(g, t, _) := cut "."%char e in ((ParseInt g).1, (ParseInt t).1).

Definition cmpEpoch (a b : Z * Z) : Z :=
  if decide (a.1 ≠ b.1) then if decide (a.1 < b.1) then -1 else 1
  else if decide (a.2 ≠ b.2) then if decide (a.2 < b.2) then -1 else 1
  else 0.

Definition Generation (epoch : string) : Z := (epochKey epoch).1.

Definition DecideEpoch (adopted r : Identity) : epochDecision :=
  if decide (Deployment r ≠ Deployment adopted) then Block
  else if decide (Impl adopted = "") then if Primary r then Establish else Discard
  else if decide (Impl r ≠ Impl adopted) then Block
  else
    let ae := epochKey (Epoch adopted) in
    let re := epochKey (Epoch r) in
    if negb (Primary r) then
      if decide (SystemID r = SystemID adopted ∧ Epoch r = Epoch adopted ∧ Purpose r ≠ "adopt" ∧ Purpose r ≠ "align")
      then Use else Discard
    else if decide (SystemID r ≠ SystemID adopted ∧ re.1 ≤ ae.1) then Stall
    else if decide (cmpEpoch re ae = 1) then Adopt
    else if decide (cmpEpoch re ae = -1) then IgnoreIt
    else Use.

(** ** Pulls *)

Inductive pullOutcome := ApplyToEcho | Realign | StallIt | Hold.

Definition PullOutcome (requested : Z) (unreachable : bool) (need : string) (echo : Z) : pullOutcome :=
  if unreachable then Hold
  else if decide (need = "beyond_retention") then Realign
  else if decide (need = "rollback_detected") then StallIt
  else if decide (0 < requested ∧ echo < requested) then StallIt
  else ApplyToEcho.

(** ** The alignment state machine *)

Record SourceState := mkSource {
  sState : alignState;
  Confirmed : bool;
  Rollback : bool;
  StalledGen : option Z;
  BlockedGen : option Z;
  Prior : option alignState   (** [None]: never blocked *)
}.

Inductive sourceKind :=
| FirstContact | AdoptEpoch | BeyondRetention | RollbackEv | Foreign | OperatorConfirms | PrimaryResponse
| AlignmentDone | EnvironmentCopy.
#[export] Instance sourceKind_eq_dec : EqDecision sourceKind.
Proof. solve_decision. Defined.

Record SourceEvent := mkEvent { Kind : sourceKind; Gen : Z; Matches : bool; RowCheck : string }.

Inductive alignAction :=
| ActRefetch | ActKeepRefetching | ActWatermark | ActAlert | ActAlertAndHold | ActHold | ActConfirm
| ActRowCheckRefetch | ActClearAndRefetch.

Definition above (gen : Z) (p : option Z) : bool :=
  match p with None => true | Some g => bool_decide (g < gen) end.

Definition NextState (cur : SourceState) (ev : SourceEvent) : SourceState * alignAction :=
  let gen := Gen ev in
  let mk st conf rb sg bg pr := mkSource st conf rb sg bg pr in
  if decide (Kind ev = EnvironmentCopy) then
    (mk Aligning false false (StalledGen cur) (BlockedGen cur) (Prior cur), ActClearAndRefetch)
  else if decide (Kind ev = Foreign ∧ sState cur = Blocked) then (cur, ActAlert)
  else if decide (Kind ev = Foreign) then
    (mk Blocked (Confirmed cur) (Rollback cur) (StalledGen cur) (Some gen) (Some (sState cur)), ActAlertAndHold)
  else if decide (sState cur = Blocked) then
    if decide (Kind ev = OperatorConfirms) then
      (mk Blocked true (Rollback cur) (StalledGen cur) (BlockedGen cur) (Prior cur), ActConfirm)
    else if negb (Confirmed cur) || bool_decide (Kind ev ≠ PrimaryResponse) then (cur, ActHold)
    else if negb (Matches ev) then
      (mk Blocked false (Rollback cur) (StalledGen cur) (BlockedGen cur) (Prior cur), ActAlert)
    else if bool_decide (Prior cur = Some Stalled) && negb (above gen (StalledGen cur)) then
      (mk Stalled false (Rollback cur) (StalledGen cur) (BlockedGen cur) (Prior cur), ActRefetch)
    else if decide (RowCheck ev = "failed") then
      (mk Stalled false true (Some gen) (BlockedGen cur) (Prior cur), ActRefetch)
    else (mk Aligning false (Rollback cur) (StalledGen cur) (BlockedGen cur) (Prior cur), ActRowCheckRefetch)
  else if decide (Kind ev = RollbackEv) then
    (mk Stalled (Confirmed cur) true (Some gen) (BlockedGen cur) (Prior cur), ActRefetch)
  else if bool_decide (sState cur = Stalled) && bool_decide (Kind ev = AdoptEpoch) && above gen (StalledGen cur) then
    (mk Aligning (Confirmed cur) (Rollback cur) (StalledGen cur) (BlockedGen cur) (Prior cur), ActRefetch)
  else if decide (sState cur = Stalled) then (cur, ActKeepRefetching)
  else if decide (Kind ev = AdoptEpoch ∨ Kind ev = FirstContact ∨ Kind ev = BeyondRetention) then
    (mk Aligning (Confirmed cur) (Rollback cur) (StalledGen cur) (BlockedGen cur) (Prior cur), ActRefetch)
  else if decide (sState cur = Aligning ∧ Kind ev = AlignmentDone) then
    if Rollback cur && negb (above gen (StalledGen cur)) then
      (mk Stalled (Confirmed cur) (Rollback cur) (StalledGen cur) (BlockedGen cur) (Prior cur), ActAlert)
    else (mk Aligned (Confirmed cur) false (StalledGen cur) (BlockedGen cur) (Prior cur), ActWatermark)
  else (cur, ActAlert).

(** ** The watermark *)

Record Echo := mkEcho { Seq : Z; MP : Qc; Recorded : bool }.

Fixpoint lastEcho (contiguous : Z) (echoes : list Echo) (mark : option Qc) : option Qc :=
  match echoes with
  | [] => mark
  | e :: l =>
      lastEcho contiguous l
        (if Recorded e && bool_decide (Seq e ≤ contiguous) &&
            match mark with None => true | Some m => bool_decide (m < MP e)%Qc end
         then Some (MP e) else mark)
  end.
Definition LastEcho (contiguous : Z) (echoes : list Echo) : option Qc := lastEcho contiguous echoes None.

(** The marks of the partitions, each possibly missing. *)
Fixpoint watermark (marks : list (option Qc)) (w : option Qc) : option Qc :=
  match marks with
  | [] => w
  | None :: _ => None
  | Some m :: l => watermark l (match w with None => Some m | Some w => Some (if decide (m < w)%Qc then m else w) end)
  end.
Definition Watermark (marks : list (option Qc)) : option Qc := watermark marks None.

Definition ClockReset (now maxSeen : Qc) (consumerEpoch recordedEpoch : string) : bool :=
  bool_decide (now < maxSeen)%Qc || bool_decide (consumerEpoch ≠ recordedEpoch).

(** ** The state machine over a history of inputs *)

Definition runEvents (c : SourceState) (evs : list SourceEvent) : SourceState :=
  fold_left (λ c e, (NextState c e).1) evs c.

(** Inputs that start a rollback over, or the environment's. *)
Definition resets (e : SourceEvent) : Prop :=
  Kind e = RollbackEv ∨ Kind e = EnvironmentCopy ∨ RowCheck e = "failed".

Lemma rolled_back_step c e g : Rollback c = true → StalledGen c = Some g → sState c ≠ Aligned → ¬ resets e →
  let c' := (NextState c e).1 in
  (Rollback c' = true ∧ StalledGen c' = Some g ∧ sState c' ≠ Aligned) ∨ (Kind e = AlignmentDone ∧ g < Gen e).
Proof.
  intros Hr Hg Hs Hn. unfold resets in Hn. unfold NextState, above. rewrite Hr, Hg.
  repeat case_match; simplify_eq/=; try (left; split_and!; congruence); try tauto.
  right. split; [by destruct a|]. by apply negb_false_iff, bool_decide_eq_true in H8.
Qed.

(** A confirmation is kept only while blocked. *)
Definition confirmed_ok (c : SourceState) : Prop := Confirmed c = true → sState c = Blocked.

Lemma NextState_confirmed c e : confirmed_ok c → confirmed_ok (NextState c e).1.
Proof.
  unfold confirmed_ok, NextState. intros H. repeat case_match; simpl; try done; intros Hc; try (specialize (H Hc)); try congruence; naive_solver.
Qed.

Lemma blocked_step c e : sState c = Blocked → Confirmed c = false →
  Kind e ≠ OperatorConfirms → Kind e ≠ EnvironmentCopy →
  sState (NextState c e).1 = Blocked ∧ Confirmed (NextState c e).1 = false.
Proof.
  intros Hb Hc H1 H2. unfold NextState. rewrite Hb, Hc. rewrite decide_False by done.
  destruct (decide (Kind e = Foreign)) as [Hf|Hf].
  - rewrite decide_True by done. simpl. by split.
  - rewrite decide_False by tauto. rewrite decide_True by done. rewrite decide_False by done. simpl. by split.
Qed.

(** A rollback is over only with a new recovery generation (P9.26, P9.29): once a source
    was found rolled back at a generation, and until a new rollback, a failed row check
    or a copy of the environment starts it over, no sequence of inputs brings it back to
    aligned (epochs adopted, operators confirming, alignments finishing in any order)
    unless an alignment finishes under a larger recovery generation. *)
Theorem rollback_needs_generation c evs g :
  Rollback c = true → StalledGen c = Some g → sState c ≠ Aligned →
  (∀ e, e ∈ evs → ¬ resets e) →
  sState (runEvents c evs) = Aligned →
  ∃ e, e ∈ evs ∧ Kind e = AlignmentDone ∧ g < Gen e.
Proof.
  revert c. induction evs as [|e evs IH]; intros c Hr Hg Hs Hn Ha; [done|].
  destruct (rolled_back_step c e g Hr Hg Hs) as [(H1 & H2 & H3)|[H1 H2]]; [apply Hn; left|..].
  - destruct (IH _ H1 H2 H3) as (e' & He & Hk); [set_solver|done|]. exists e'. set_solver.
  - exists e. set_solver.
Qed.

(** A foreign source is let back only by a person (P9.26, P9.27): from the moment a source
    is blocked because another deployment or instance answered, it stays blocked through
    every input until an operator confirms the correction or the environment is copied;
    the confirmation itself does not leave the blocked state, it takes an answer of the
    primary after it. *)
Theorem blocked_needs_person c evs :
  confirmed_ok c → sState c ≠ Blocked →
  let b := (NextState c (mkEvent Foreign 0 false "")).1 in
  sState b = Blocked ∧
  ((∀ e, e ∈ evs → Kind e ≠ OperatorConfirms ∧ Kind e ≠ EnvironmentCopy) →
     sState (runEvents b evs) = Blocked ∧
     sState (NextState (runEvents b evs) (mkEvent OperatorConfirms 0 false "")).1 = Blocked).
Proof.
  intros Hok Hnb b.
  assert (Hb : sState b = Blocked ∧ Confirmed b = false).
  { unfold b, NextState. simpl. rewrite decide_False by tauto. simpl. split; [done|].
    destruct (Confirmed c) eqn:Hc; [|done]. by apply Hok in Hc. }
  split; [apply Hb|]. intros Hevs.
  assert (Hrun : sState (runEvents b evs) = Blocked ∧ Confirmed (runEvents b evs) = false).
  { clearbody b. revert b Hb. induction evs as [|e evs IH]; intros b [H1 H2]; [done|]. simpl.
    apply IH; [set_solver|]. destruct (Hevs e) as [H3 H4]; [set_solver|]. by apply blocked_step. }
  split; [apply Hrun|]. destruct Hrun as [H1 H2]. unfold NextState. simpl. rewrite H1. done.
Qed.

(** ** The watermark is safe *)

Lemma lastEcho_sound k l m x : lastEcho k l m = Some x →
  (m = Some x ∨ ∃ e, e ∈ l ∧ Recorded e = true ∧ Seq e ≤ k ∧ MP e = x) ∧
  (∀ e, e ∈ l → Recorded e = true → Seq e ≤ k → (MP e <= x)%Qc) ∧ (∀ y, m = Some y → (y <= x)%Qc).
Proof.
  revert m. induction l as [|e l IH]; intros m; simpl.
  - intros ->. split_and!; [by left|set_solver|]. intros y [= ->]. apply Qcle_refl.
  - intros H. apply IH in H as (H1 & H2 & H3). clear IH.
    destruct (Recorded e && bool_decide (Seq e ≤ k)) eqn:Hc; simpl in *.
    + apply andb_true_iff in Hc as [Hr Hk%bool_decide_eq_true].
      destruct m as [m|]; [destruct (decide (m < MP e)%Qc) as [Hlt|Hge]|].
      * rewrite bool_decide_eq_true_2 in * by done. split_and!.
        -- right. destruct H1 as [[= <-]|(e' & ? & ?)]; [exists e; set_solver|exists e'; set_solver].
        -- intros e' He'. apply elem_of_cons in He' as [->|He']; [intros _ _; by apply H3|by apply H2].
        -- intros y [= <-]. eapply Qcle_trans; [apply Qclt_le_weak, Hlt|by apply H3].
      * rewrite bool_decide_eq_false_2 in * by done. split_and!.
        -- destruct H1 as [?|(e' & ? & ?)]; [by left|right; exists e'; set_solver].
        -- intros e' He'. apply elem_of_cons in He' as [->|He']; [|by apply H2].
           intros _ _. eapply Qcle_trans; [apply Qcnot_lt_le, Hge|by apply H3].
        -- done.
      * split_and!; [|intros e' He'|done].
        -- right. destruct H1 as [[= <-]|(e' & ? & ?)]; [exists e; set_solver|exists e'; set_solver].
        -- apply elem_of_cons in He' as [->|He']; [intros _ _; by apply H3|by apply H2].
    + split_and!; [|intros e' He'|done].
      * destruct H1 as [?|(e' & ? & ?)]; [by left|right; exists e'; set_solver].
      * apply elem_of_cons in He' as [->|He']; [|by apply H2].
        intros Hr Hk. rewrite Hr, bool_decide_eq_true_2 in Hc; done.
Qed.

Lemma watermark_sound_aux l m x : watermark l m = Some x →
  (∀ o, o ∈ l → ∃ y, o = Some y ∧ (x <= y)%Qc) ∧ (∀ y, m = Some y → (x <= y)%Qc) ∧ (m = Some x ∨ Some x ∈ l).
Proof.
  revert m. induction l as [|[y|] l IH]; intros m; simpl; [|intros H|done].
  - intros ->. split_and!; [set_solver| |by left]. intros y [= ->]. apply Qcle_refl.
  - apply IH in H as (H1 & H2 & H3). destruct m as [w|].
    + specialize (H2 _ eq_refl). case_decide as Hlt.
      * split_and!; [|intros ? [= <-]; eapply Qcle_trans; [exact H2|by apply Qclt_le_weak]|].
        -- intros o Ho. apply elem_of_cons in Ho as [->|Ho]; [eauto|by apply H1].
        -- right. destruct H3 as [[= ->]|?]; set_solver.
      * split_and!; [|by intros ? [= <-]|].
        -- intros o Ho. apply elem_of_cons in Ho as [->|Ho]; [|by apply H1].
           exists y. split; [done|]. eapply Qcle_trans; [exact H2|]. by apply Qcnot_lt_le.
        -- destruct H3 as [?|?]; [by left|right; set_solver].
    + specialize (H2 _ eq_refl). split_and!; [|done|].
      * intros o Ho. apply elem_of_cons in Ho as [->|Ho]; [eauto|by apply H1].
      * right. destruct H3 as [[= ->]|?]; set_solver.
Qed.

(** The marks of a source's partitions. *)
Definition marksOf (parts : list (Z * list Echo)) : list (option Qc) := map (λ p, LastEcho p.1 p.2) parts.

(** The watermark is no later than what was applied (P9.23): when it exists, every
    partition has a recorded pull within its contiguous range that was made no earlier
    than the watermark, and the watermark is the time of one such pull; a partition
    without one leaves no watermark at all. *)
Theorem watermark_applied parts w :
  Watermark (marksOf parts) = Some w →
  (∀ p, p ∈ parts → ∃ e, e ∈ p.2 ∧ Recorded e = true ∧ Seq e ≤ p.1 ∧ (w <= MP e)%Qc ∧
     ∀ e', e' ∈ p.2 → Recorded e' = true → Seq e' ≤ p.1 → (MP e' <= MP e)%Qc) ∧
  (∃ p e, p ∈ parts ∧ e ∈ p.2 ∧ Recorded e = true ∧ Seq e ≤ p.1 ∧ MP e = w).
Proof.
  intros H. destruct (watermark_sound_aux _ _ _ H) as (H1 & _ & H3). split.
  - intros p Hp. destruct (H1 (LastEcho p.1 p.2)) as (y & Hy & Hle).
    { apply list_elem_of_fmap. by exists p. }
    destruct (lastEcho_sound _ _ _ _ Hy) as ([[=]|(e & He & Hr & Hk & <-)] & H4 & _).
    exists e. split_and!; done.
  - destruct H3 as [[=]|Hin]. apply list_elem_of_fmap in Hin as (p & Hy & Hp).
    destruct (lastEcho_sound _ _ _ _ (eq_sym Hy)) as ([[=]|(e & He & Hr & Hk & <-)] & _ & _). by exists p, e.
Qed.

(** ** Concrete histories *)

Definition rolledBack : SourceState := mkSource Stalled false true (Some 3) None None.

Lemma rollback_needs_generation_witness :
  let evs := [mkEvent AdoptEpoch 4 false ""; mkEvent AlignmentDone 4 false ""] in
  sState (runEvents rolledBack evs) = Aligned ∧ ∃ e, e ∈ evs ∧ Kind e = AlignmentDone ∧ 3 < Gen e.
Proof.
  split; [reflexivity|]. apply (rollback_needs_generation rolledBack); [reflexivity..|discriminate| |reflexivity].
  intros e He. unfold resets. rewrite !elem_of_cons in He.
  destruct He as [->|[->|He]]; [simpl; intuition discriminate..|by apply elem_of_nil in He].
Defined.

Lemma blocked_needs_person_witness :
  sState (runEvents (NextState (mkSource Aligned false false None None None) (mkEvent Foreign 0 false "")).1
            [mkEvent AdoptEpoch 9 true ""; mkEvent PrimaryResponse 9 true ""]) = Blocked.
Proof.
  apply (blocked_needs_person (mkSource Aligned false false None None None)
    [mkEvent AdoptEpoch 9 true ""; mkEvent PrimaryResponse 9 true ""]); [discriminate|discriminate|].
  intros e He. rewrite !elem_of_cons in He. destruct He as [->|[->|He]]; [by split..|by apply elem_of_nil in He].
Defined.

Lemma watermark_applied_witness :
  let parts := [(10, [mkEcho 5 (Q2Qc 3) true; mkEcho 9 (Q2Qc 7) true; mkEcho 12 (Q2Qc 9) true]);
                (4, [mkEcho 4 (Q2Qc 8) true])] in
  ∃ p e, p ∈ parts ∧ e ∈ p.2 ∧ MP e = Q2Qc 7.
Proof.
  destruct (watermark_applied [(10, [mkEcho 5 (Q2Qc 3) true; mkEcho 9 (Q2Qc 7) true; mkEcho 12 (Q2Qc 9) true]);
                (4, [mkEcho 4 (Q2Qc 8) true])] (Q2Qc 7)) as (_ & p & e & H1 & H2 & _ & _ & H3); [vm_compute; reflexivity|].
  exists p, e. split; [exact H1|split; [exact H2|exact H3]].
Defined.
