(* ===== verification/Projection.v ===== *)
(** * Projections: receiving inputs

    [projection/projection.go]: the state table [Decide] and [Apply], which receives one
    input in the consumer's transaction. The store is what one named projection has in
    [be_projection] and [be_projection_source] (every statement of the file selects on
    the projection's name), with the consumer's own tables for the [Changed] hook;
    [updated_at] is left out. Contents are an abstract type with the database's
    concatenation of objects. *)
From S2P Require Import Prelude GoStr ProjDecide.
From Stdlib Require Import Ascii.
Open Scope string_scope.
Open Scope Z_scope.
Open Scope tx_scope.

Inductive kind := Full | Partial | Delete | PurgedKind.
#[export] Instance kind_eq_dec : EqDecision kind.
Proof. solve_decision. Defined.

Inductive action := Write | Overwrite | MergeAndFetch | WriteAndFetch | Ignore.
#[export] Instance action_eq_dec : EqDecision action.
Proof. solve_decision. Defined.

(** A row's receiving state. *)
Record Row := mkRow { State : rowState; Version : Z; NeedVersion : Z; Old : bool }.

Definition Decide (cur : option Row) (k : kind) (v : Z) : Row * action :=
  match k, cur with
  | PurgedKind, _ => (mkRow Tombstone 0 0 false, Write)
  | Full, None => (mkRow Complete v 0 false, Write)
  | Partial, None => (mkRow Incomplete v v false, WriteAndFetch)
  | Delete, None => (mkRow Tombstone v 0 false, Write)
  | _, Some cur =>
    if Old cur then
      match k with
      | Partial => (mkRow Incomplete v v false, WriteAndFetch)
      | Full => (mkRow Complete v 0 false, Overwrite)
      | _ => (mkRow Tombstone v 0 false, Overwrite)
      end
    else
    let same := mkRow (State cur) (Version cur) (NeedVersion cur) false in
    if bool_decide (State cur = Tombstone) && bool_decide (v ≤ Version cur) then (same, Ignore)
    else if decide (State cur = Tombstone) then
      match k with
      | Full => (mkRow Complete v 0 false, Overwrite)
      | Partial => (mkRow Incomplete v v false, WriteAndFetch)
      | _ => (mkRow Tombstone v 0 false, Write)
      end
    else if bool_decide (k = Full) && bool_decide (State cur = Complete) && bool_decide (Version cur < v) ||
            bool_decide (k = Full) && bool_decide (State cur = Incomplete) && bool_decide (NeedVersion cur ≤ v) then
      (mkRow Complete v 0 false, Overwrite)
    else if bool_decide (k = Partial) && bool_decide (Version cur < v) then (mkRow Incomplete v v false, MergeAndFetch)
    else if bool_decide (k = Delete) && bool_decide (Version cur ≤ v) then (mkRow Tombstone v 0 false, Write)
    else (same, Ignore)
  end.

Record Input (J : Type) := mkInput {
  RecordID : string;
  iKind : kind;
  iVersion : Z;
  iImpl : string;
  iEpoch : string;
  iData : J;
  iSeq : Z
}.
Arguments mkInput {J}.
Arguments RecordID {J}.
Arguments iKind {J}.
Arguments iVersion {J}.
Arguments iImpl {J}.
Arguments iEpoch {J}.
Arguments iData {J}.
Arguments iSeq {J}.

Inductive skipped := OtherInstance | OlderEpoch | NewerEpoch.

Record Outcome := mkOutcome { Fetch : bool; oChanged : bool; Skipped : option skipped }.

(** A row of [be_projection]. *)
Record prow (J : Type) := mkProw {
  p_version : Z;
  p_state : rowState;
  p_need : option Z;
  p_impl : option string;
  p_epoch : option string;
  p_data : option J;
  p_aligned_gen : option Z;
  p_min_read : option Z
}.
Arguments mkProw {J}.
Arguments p_version {J}.
Arguments p_state {J}.
Arguments p_need {J}.
Arguments p_impl {J}.
Arguments p_epoch {J}.
Arguments p_data {J}.
Arguments p_aligned_gen {J}.
Arguments p_min_read {J}.

(** The row of [be_projection_source]. *)
Record psource := mkPsource {
  ps_impl : option string;
  ps_epoch : option string;
  ps_gen : Z;
  ps_status : alignState
}.

Record store (J C : Type) := mkStore {
  rows : gmap string (prow J);
  source : option psource;
  comp : C
}.
Arguments mkStore {J C}.
Arguments rows {J C}.
Arguments source {J C}.
Arguments comp {J C}.

Inductive error (E : Type) :=
| ErrEpoch (epoch : string)
| ErrHook (e : E)
| ErrReplaced
| ErrOtherSource
| ErrSource (e : E)
| ErrNoProgress
| ErrUnanswered (id : string)
| ErrNoSource.
Arguments ErrEpoch {E}.
Arguments ErrHook {E}.
Arguments ErrReplaced {E}.
Arguments ErrOtherSource {E}.
Arguments ErrSource {E}.
Arguments ErrNoProgress {E}.
Arguments ErrUnanswered {E}.
Arguments ErrNoSource {E}.

(** [parseEpoch] and [compareEpochs]. *)
Definition parseEpoch (s : string) : option (Z * Z) :=
  let '(g, t, ok) := cut "."%char s in
  match ok, ParseUint g, ParseUint t with
  | true, (gen, None), (tl, None) => Some (gen, tl)
  | _, _, _ => None
  end.

Definition compareEpochs (a b : string) : Z + string :=
  match parseEpoch a with
  | None => inr a
  | Some pa => match parseEpoch b with None => inr b | Some pb => inl (cmpEpoch pa pb) end
  end.

Section apply.
Context {J C E : Type} (emptyObject : J) (merge : J → J → J).
(** The [Changed] hook; [None] when the projection has none. *)
Context (Changed : option (string → tx C E unit)).

#[local] Abbreviation store := (store J C).
#[local] Abbreviation M := (tx store (error E)).

Definition set_rows (f : gmap string (prow J) → gmap string (prow J)) (s : store) : store :=
  mkStore (f (rows s)) (source s) (comp s).
Definition set_source (o : option psource) (s : store) : store := mkStore (rows s) o (comp s).

Definition changed (id : string) : M unit :=
  match Changed with
  | None => tret tt
  | Some f => λ s, match f id (comp s) with
                   | Ok (_, c) => Ok (tt, mkStore (rows s) (source s) c)
                   | Err e => Err (ErrHook e)
                   end
  end.

Definition deref (o : option string) : string := default "" o.

(** [adopted]: empty when the projection never aligned. *)
Definition adopted (s : store) : string * string :=
  match source s with None => ("", "") | Some p => (deref (ps_impl p), deref (ps_epoch p)) end.

(** The subquery [duringAlignment]. *)
Definition duringAlignment (s : store) : option Z :=
  match source s with
  | Some p => if decide (ps_status p = Aligning) then Some (ps_gen p) else None
  | None => None
  end.

Definition write (i : Input J) (cur : option Row) (next : Row) (a : action) : M Outcome :=
  let need := if decide (State next = Incomplete) then Some (NeedVersion next) else None in
  s <~ tget ;
  if decide (a = MergeAndFetch) then
    tmod (set_rows (alter (λ r, mkProw (Version next) (State next) need (Some (iImpl i)) (Some (iEpoch i))
      (Some (merge (default emptyObject (p_data r)) (iData i))) (duringAlignment s) None) (RecordID i))) ;~
    changed (RecordID i) ;~
    tret (mkOutcome true true None)
  else
    let data := if decide (State next = Complete ∨ (State next = Incomplete ∧ cur = None)) then Some (iData i) else None in
    tmod (set_rows (insert (RecordID i) (mkProw (Version next) (State next) need (Some (iImpl i)) (Some (iEpoch i))
      data (duringAlignment s) None))) ;~
    changed (RecordID i) ;~
    tret (mkOutcome (bool_decide (State next = Incomplete)) true None).

(** The state table on the row as it is stored. *)
Definition receive (i : Input J) : M Outcome :=
  s <~ tget ;
  match rows s !! RecordID i with
  | None =>
      let '(next, a) := Decide None (iKind i) (iVersion i) in
      if decide (a = Ignore) then tret (mkOutcome false false None) else write i None next a
  | Some r =>
      if bool_decide (p_state r = Tombstone) &&
         match p_min_read r with Some m => bool_decide (0 < iSeq i) && bool_decide (iSeq i ≤ m) | None => false end
      then tret (mkOutcome false false None)
      else
        let cur := mkRow (p_state r) (p_version r) (default 0 (p_need r))
                     (bool_decide (deref (p_impl r) ≠ iImpl i) || bool_decide (deref (p_epoch r) ≠ iEpoch i)) in
        let '(next, a) := Decide (Some cur) (iKind i) (iVersion i) in
        if decide (a = Ignore) then tret (mkOutcome false false None) else write i (Some cur) next a
  end.

Definition Apply (i : Input J) : M Outcome :=
  s <~ tget ;
  let '(adoptedImpl, adoptedEpoch) := adopted s in
  if decide (adoptedImpl = "") then receive i
  else if decide (iImpl i ≠ adoptedImpl) then
    tmod (λ s, set_source (match source s with
                           | Some p => Some (mkPsource (ps_impl p) (ps_epoch p) (ps_gen p) Blocked)
                           | None => None
                           end) s) ;~
    tret (mkOutcome false false (Some OtherInstance))
  else
    match compareEpochs (iEpoch i) adoptedEpoch with
    | inr e => tfail (ErrEpoch e)
    | inl c =>
        if decide (c < 0) then tret (mkOutcome false false (Some OlderEpoch))
        else if decide (0 < c) then tret (mkOutcome false false (Some NewerEpoch))
        else receive i
    end.

(** [Get]: state, version and content. *)
Definition Get (s : store) (id : string) : option (rowState * Z * option J) :=
  match rows s !! id with Some r => Some (p_state r, p_version r, p_data r) | None => None end.

End apply.
