(* ===== verification/ProjConverge.v ===== *)
(** * Projections: inputs in any order

    The state table is a maximum: the row left by a set of inputs of one source and epoch
    is the newest of them, whatever the order and however often each one comes; only a read
    answered "purged" starts its record over. *)
From S2P Require Import Prelude GoStr ProjDecide Projection.
From Stdlib Require Import Ascii.
Open Scope string_scope.
Open Scope Z_scope.
Open Scope tx_scope.
Open Scope list_scope.

(** At one version a deletion is the last word and a whole record outdoes a part. *)
Definition rank (k : kind) : Z :=
  match k with Partial => 0 | Full => 1 | Delete => 2 | PurgedKind => 3 end.
Definition stateOf (k : kind) : rowState :=
  match k with Partial => Incomplete | Full => Complete | _ => Tombstone end.

Definition notAfter (a b : kind * Z) : Prop := a.2 < b.2 ∨ (a.2 = b.2 ∧ rank a.1 ≤ rank b.1).

#[export] Instance notAfter_preorder : PreOrder notAfter.
Proof. split; [intros ?|intros ???]; unfold notAfter; lia. Qed.

(** The receiving state of a row whose newest input is this one. *)
Definition rowOf (k : kind) (v : Z) : Row :=
  mkRow (stateOf k) v (match k with Partial => v | _ => 0 end) false.

(** The table on such a row: a newer input takes its place, any other is ignored. *)
Lemma Decide_max k v k' v' : k ≠ PurgedKind → k' ≠ PurgedKind →
  (notAfter (k', v') (k, v) → (Decide (Some (rowOf k v)) k' v').2 = Ignore) ∧
  (¬ notAfter (k', v') (k, v) →
     (Decide (Some (rowOf k v)) k' v').1 = rowOf k' v' ∧ (Decide (Some (rowOf k v)) k' v').2 ≠ Ignore ∧
     ((Decide (Some (rowOf k v)) k' v').2 = MergeAndFetch → k' = Partial)).
Proof.
  intros Hk Hk'. unfold notAfter.
  destruct k, k'; try done; simpl; repeat (case_bool_decide || case_decide); simpl; split; intros; first [lia | done | split_and!; done].
Qed.

Section converge.
Context {J C E : Type} (emptyObject : J) (merge : J → J → J) (Changed : option (string → tx C E unit)).
Context (impl epoch : string).

#[local] Abbreviation store := (store J C).
#[local] Abbreviation Apply := (Apply (E:=E) emptyObject merge Changed).
#[local] Abbreviation receive := (receive (E:=E) emptyObject merge Changed).
#[local] Abbreviation Input := (Input J).

(** The hook succeeds: its error would roll the whole transaction back. *)
Definition hook_ok : Prop :=
  match Changed with None => True | Some f => ∀ id c, ∃ c', f id c = Ok (tt, c') end.

(** Inputs of the adopted source, or of any source before the first alignment. *)
Definition ready (s : store) : Prop :=
  (adopted s).1 = "" ∨ (adopted s = (impl, epoch) ∧ is_Some (parseEpoch epoch)).

(** Inputs of the source, and those of them that are compared. *)
Definition ours (i : Input) : Prop := iImpl i = impl ∧ iEpoch i = epoch.
Definition compared (i : Input) : Prop := iImpl i = impl ∧ iEpoch i = epoch ∧ iKind i ≠ PurgedKind.

(** What counts of the inputs received: all of them, but a read answered "purged" makes
    everything before it about its record forgotten and is itself a deletion at version 0. *)
Definition deletion0 (i : Input) : Input := mkInput (RecordID i) Delete 0 (iImpl i) (iEpoch i) (iData i) (iSeq i).
Definition remember (seen : list Input) (i : Input) : list Input :=
  if decide (iKind i = PurgedKind) then filter (λ j, RecordID j ≠ RecordID i) seen ++ [deletion0 i] else seen ++ [i].
Definition remembered (l : list Input) : list Input := fold_left remember l [].

Lemma remembered_all l : Forall (λ i, iKind i ≠ PurgedKind) l → remembered l = l.
Proof.
  intros Hl. assert (Hg : ∀ seen, fold_left remember l seen = seen ++ l); [|apply Hg]. induction Hl as [|i l Hi _ IH]; intros seen; simpl; [by rewrite app_nil_r|].
  rewrite IH. unfold remember. rewrite decide_False by done. by rewrite <- app_assoc.
Qed.
Lemma remember_compared seen i : Forall compared seen → ours i → Forall compared (remember seen i).
Proof.
  intros Hs (Hi & He). unfold remember. case_decide; apply Forall_app; (split; [|by repeat constructor]); [|done].
  apply Forall_forall. intros j [_ Hj]%list_elem_of_filter. by eapply Forall_forall in Hs.
Qed.
Lemma remember_ids seen i id : (∃ j, j ∈ remember seen i ∧ RecordID j = id) ↔ RecordID i = id ∨ ∃ j, j ∈ seen ∧ RecordID j = id.
Proof.
  unfold remember. case_decide.
  - setoid_rewrite elem_of_app. setoid_rewrite list_elem_of_filter. setoid_rewrite list_elem_of_singleton. split.
    + intros (j & [[_ Hj]|Hj] & Hid); [eauto|subst j; by left].
    + intros [Hid|(j & Hj & Hid)]; [by exists (deletion0 i); auto|]. destruct (decide (RecordID j = RecordID i)) as [He|]; [exists (deletion0 i); rewrite <- Hid, He; auto|eauto].
  - setoid_rewrite elem_of_app. setoid_rewrite list_elem_of_singleton. naive_solver.
Qed.
Lemma remembered_ids l id : (∃ j, j ∈ remembered l ∧ RecordID j = id) ↔ ∃ j, j ∈ l ∧ RecordID j = id.
Proof.
  unfold remembered. assert (Hg : ∀ seen, (∃ j, j ∈ fold_left remember l seen ∧ RecordID j = id) ↔ (∃ j, j ∈ l ∧ RecordID j = id) ∨ ∃ j, j ∈ seen ∧ RecordID j = id).
  { induction l as [|i l IH]; intros seen; cbn [fold_left]; [set_solver|]. rewrite IH, remember_ids. set_solver. }
  rewrite Hg. set_solver.
Qed.

(** The row left by its newest input. *)
Record shape (r : prow J) (i : Input) : Prop := mkShape {
  sh_state : p_state r = stateOf (iKind i);
  sh_version : p_version r = iVersion i;
  sh_need : default 0 (p_need r) = NeedVersion (rowOf (iKind i) (iVersion i));
  sh_impl : p_impl r = Some impl;
  sh_epoch : p_epoch r = Some epoch;
  sh_min : p_min_read r = None;
  sh_full : iKind i = Full → p_data r = Some (iData i);
  sh_gone : iKind i = Delete → p_data r = None
}.

Definition newest (l : list Input) (id : string) (i : Input) : Prop :=
  i ∈ l ∧ RecordID i = id ∧
  ∀ j, j ∈ l → RecordID j = id → notAfter (iKind j, iVersion j) (iKind i, iVersion i).

(** A store that holds exactly what these inputs leave. *)
Definition holds (s : store) (seen : list Input) : Prop :=
  ∀ id, match rows s !! id with
        | None => ∀ j, j ∈ seen → RecordID j ≠ id
        | Some r => ∃ i, newest seen id i ∧ shape r i
        end.

Fixpoint applyAll (l : list Input) : tx store (error E) (list Outcome) :=
  match l with
  | [] => tret []
  | i :: l => o <~ Apply i ; os <~ applyAll l ; tret (o :: os)
  end.

Lemma changed_ok id (s : store) : hook_ok → ∃ c, changed (E:=E) Changed id s = Ok (tt, mkStore (rows s) (source s) c).
Proof.
  intros H. unfold changed. unfold hook_ok in H. destruct Changed as [f|].
  - destruct (H id (comp s)) as (c & ->). eauto.
  - exists (comp s). by destruct s.
Qed.

Lemma holds_one s s' seen i r : holds s seen → source s' = source s →
  rows s' = <[RecordID i := r]> (rows s) → newest (seen ++ [i]) (RecordID i) i → shape r i → holds s' (seen ++ [i]).
Proof.
  intros Hs _ Hrows Hnew Hsh id. rewrite Hrows. destruct (decide (id = RecordID i)) as [->|Hne].
  - rewrite lookup_insert_eq. eauto.
  - rewrite lookup_insert_ne by done. specialize (Hs id). destruct (rows s !! id) as [r0|].
    + destruct Hs as (i0 & (H1 & H2 & H3) & H4). exists i0. split; [|done]. split_and!; [set_solver|done|].
      intros j Hj Hid. apply elem_of_app in Hj as [Hj|Hj]; [by apply H3|]. apply list_elem_of_singleton in Hj as ->. congruence.
    + intros j Hj. apply elem_of_app in Hj as [Hj|Hj]; [by apply Hs|]. by apply list_elem_of_singleton in Hj as ->.
Qed.

Lemma write_spec i cur next a (s : store) : hook_ok → compared i → next = rowOf (iKind i) (iVersion i) →
  (a = MergeAndFetch → iKind i = Partial ∧ is_Some (rows s !! RecordID i)) →
  ∃ o s' r, write emptyObject merge Changed i cur next a s = Ok (o, s') ∧ source s' = source s ∧
    rows s' = <[RecordID i := r]> (rows s) ∧ shape r i.
Proof.
  intros Hh (Hi & He & Hk) -> Hm. unfold write. rewrite tbind_get.
  destruct (decide (a = MergeAndFetch)) as [Ha|Ha].
  - destruct (Hm Ha) as [Hp [r0 Hr0]]. rewrite tbind_mod. unfold tbind at 1.
    match goal with |- context [changed _ _ ?x] => destruct (changed_ok (RecordID i) x Hh) as (c & ->) end.
    do 3 eexists. split; [reflexivity|]. simpl. split; [done|]. split.
    + apply map_eq. intros j. destruct (decide (j = RecordID i)) as [->|Hne].
      * rewrite lookup_alter_eq, lookup_insert_eq, Hr0. reflexivity.
      * by rewrite lookup_alter_ne, lookup_insert_ne.
    + split; simpl; rewrite ?Hp, ?Hi, ?He; try done.
  - rewrite tbind_mod. unfold tbind at 1.
    match goal with |- context [changed _ _ ?x] => destruct (changed_ok (RecordID i) x Hh) as (c & ->) end.
    do 3 eexists. split; [reflexivity|]. simpl. split; [done|]. split; [done|].
    split; simpl; rewrite ?Hi, ?He; try done; destruct (iKind i); try done; simpl.
Qed.

(** A purged answer's write. *)
Lemma write_purged i cur (s : store) : hook_ok → ours i →
  ∃ o s' r, write emptyObject merge Changed i cur (mkRow Tombstone 0 0 false) Write s = Ok (o, s') ∧ source s' = source s ∧
    rows s' = <[RecordID i := r]> (rows s) ∧ shape r (deletion0 i).
Proof.
  intros Hh (Hi & He). unfold write. rewrite tbind_get, decide_False by done. rewrite tbind_mod. unfold tbind at 1.
  match goal with |- context [changed _ _ ?x] => destruct (changed_ok (RecordID i) x Hh) as (c & ->) end.
  do 3 eexists. split; [reflexivity|]. simpl. split; [done|]. split; [done|]. by split; simpl; rewrite ?Hi, ?He.
Qed.
Lemma holds_purged s s' seen i r : holds s seen → rows s' = <[RecordID i := r]> (rows s) → shape r (deletion0 i) →
  holds s' (filter (λ j, RecordID j ≠ RecordID i) seen ++ [deletion0 i]).
Proof.
  intros Hs Hrows Hsh id. rewrite Hrows. destruct (decide (id = RecordID i)) as [->|Hne].
  - rewrite lookup_insert_eq. exists (deletion0 i). split; [|done]. split_and!; [set_solver|done|].
    intros j [[Hj _]%list_elem_of_filter|Hj%list_elem_of_singleton]%elem_of_app Hid; [by destruct Hj|by subst j].
  - rewrite lookup_insert_ne by done. specialize (Hs id). destruct (rows s !! id) as [r0|].
    + destruct Hs as (i0 & (H1 & H2 & H3) & H4). exists i0. split; [|done]. split_and!; [apply elem_of_app; left; apply list_elem_of_filter; split; [congruence|done]|done|].
      intros j [[_ Hj]%list_elem_of_filter|Hj%list_elem_of_singleton]%elem_of_app Hid; [by apply H3|subst j; by destruct Hne].
    + intros j [[_ Hj]%list_elem_of_filter|Hj%list_elem_of_singleton]%elem_of_app; [by apply Hs|subst j; by intros <-].
Qed.

Lemma newest_last seen i : (∀ j, j ∈ seen → RecordID j = RecordID i → notAfter (iKind j, iVersion j) (iKind i, iVersion i)) →
  newest (seen ++ [i]) (RecordID i) i.
Proof.
  intros H. split_and!; [set_solver|done|]. intros j Hj Hid.
  apply elem_of_app in Hj as [Hj|Hj]; [by apply H|]. apply list_elem_of_singleton in Hj as ->. reflexivity.
Qed.

Lemma notAfter_total a b : ¬ notAfter a b → notAfter b a.
Proof. unfold notAfter. lia. Qed.

(** An input not newer than the row leaves the store as it is. *)
Lemma holds_ignored s seen i i0 : holds s seen → newest seen (RecordID i) i0 → is_Some (rows s !! RecordID i) →
  notAfter (iKind i, iVersion i) (iKind i0, iVersion i0) → holds s (seen ++ [i]).
Proof.
  intros Hs (Hin0 & Hid0 & _) Hrow Hna id. specialize (Hs id) as Hid. destruct (rows s !! id) as [r|] eqn:Hr.
  - destruct Hid as (i1 & (H1 & H2 & H3) & Hsh). exists i1. split; [|done]. split_and!; [set_solver|done|].
    intros j Hj Hjid. apply elem_of_app in Hj as [Hj|Hj]; [by apply H3|]. apply list_elem_of_singleton in Hj as ->.
    etrans; [exact Hna|]. apply H3; [done|congruence].
  - intros j Hj Hjid. apply elem_of_app in Hj as [Hj|Hj]; [by eapply Hid|]. apply list_elem_of_singleton in Hj as ->.
    destruct Hrow. congruence.
Qed.

Lemma receive_purged (s : store) seen i : hook_ok → ours i → iKind i = PurgedKind → holds s seen →
  ∃ o s', receive i s = Ok (o, s') ∧ source s' = source s ∧ holds s' (remember seen i).
Proof.
  intros Hh Hi Hk Hs. unfold Projection.receive, remember. rewrite tbind_get, Hk, decide_True by done. pose proof (Hs (RecordID i)) as Hid.
  assert (Hd : ∀ cur, Decide cur PurgedKind (iVersion i) = (mkRow Tombstone 0 0 false, Write)) by done.
  assert (Hw : ∀ cur, ∃ o s', write emptyObject merge Changed i cur (mkRow Tombstone 0 0 false) Write s = Ok (o, s') ∧ source s' = source s ∧
    holds s' (filter (λ j, RecordID j ≠ RecordID i) seen ++ [deletion0 i])).
  { intros cur. destruct (write_purged i cur s Hh Hi) as (o & s' & r & Hrun & Hsrc & Hrows & Hsh). exists o, s'. split_and!; [done|done|]. by eapply holds_purged. }
  destruct (rows s !! RecordID i) as [r|].
  - destruct Hid as (i0 & _ & [S1 S2 S3 S4 S5 S6 S7 S8]). rewrite S6, andb_false_r. cbv zeta. rewrite Hd. cbv zeta. rewrite decide_False by done. apply Hw.
  - rewrite Hd. cbv zeta. rewrite decide_False by done. apply Hw.
Qed.
Lemma receive_compared (s : store) seen i : hook_ok → compared i → Forall compared seen → holds s seen →
  ∃ o s', receive i s = Ok (o, s') ∧ source s' = source s ∧ holds s' (seen ++ [i]).
Proof.
  intros Hh Hours Hall Hs. unfold Projection.receive. rewrite tbind_get.
  pose proof (Hs (RecordID i)) as Hid. destruct (rows s !! RecordID i) as [r|] eqn:Hrow.
  - destruct Hid as (i0 & Hnew & Hsh). pose proof Hnew as (Hin & Hri & Hmax). destruct Hsh as [S1 S2 S3 S4 S5 S6 S7 S8].
    assert (Hk0 : iKind i0 ≠ PurgedKind) by (rewrite Forall_forall in Hall; by apply Hall).
    pose proof Hours as (Hi & He & Hk).
    rewrite S6, andb_false_r, S1, S2, S3, S4, S5. cbv zeta. simpl deref.
    rewrite Hi, He, !bool_decide_eq_false_2 by naive_solver. simpl orb.
    match goal with |- context [Some ?x] => change x with (rowOf (iKind i0) (iVersion i0)) end.
    destruct (Decide_max (iKind i0) (iVersion i0) (iKind i) (iVersion i) Hk0 Hk) as [Hign Hnewer].
    destruct (Decide (Some (rowOf (iKind i0) (iVersion i0))) (iKind i) (iVersion i)) as [next a]. simpl in *.
    destruct (decide (notAfter (iKind i, iVersion i) (iKind i0, iVersion i0))) as [Hna|Hna].
    + rewrite Hign by done. rewrite decide_True by done. exists (mkOutcome false false None), s.
      split_and!; [done|done|]. by eapply holds_ignored.
    + destruct (Hnewer Hna) as (-> & Ha & Hmerge). rewrite decide_False by done.
      destruct (write_spec i (Some (rowOf (iKind i0) (iVersion i0))) _ a s Hh Hours eq_refl)
        as (o & s' & r' & Hrun & Hsrc & Hrows & Hshape); [by split; [apply Hmerge|eauto]|].
      exists o, s'. split_and!; [done|done|]. eapply holds_one; try done. apply newest_last.
      intros j Hj Hjid. etrans; [by apply Hmax|]. by apply notAfter_total.
  - pose proof Hours as (Hi & He & Hk).
    assert (Hd : ∃ a, Decide None (iKind i) (iVersion i) = (rowOf (iKind i) (iVersion i), a) ∧ a ≠ Ignore ∧ a ≠ MergeAndFetch).
    { destruct (iKind i); try done; eexists; by split_and!. }
    destruct Hd as (a & -> & Ha & Hm). cbv zeta. rewrite decide_False by done.
    destruct (write_spec i None _ a s Hh Hours eq_refl) as (o & s' & r' & Hrun & Hsrc & Hrows & Hshape); [done|].
    exists o, s'. split_and!; [done|done|]. eapply holds_one; try done. apply newest_last.
    intros j Hj Hjid. by apply Hid in Hjid.
Qed.

Lemma receive_spec (s : store) seen i : hook_ok → ours i → Forall compared seen → holds s seen →
  ∃ o s', receive i s = Ok (o, s') ∧ source s' = source s ∧ holds s' (remember seen i).
Proof.
  intros Hh Hi Hall Hs. destruct (decide (iKind i = PurgedKind)) as [Hk|Hk]; [by apply receive_purged|].
  unfold remember. rewrite decide_False by done. destruct Hi. apply receive_compared; [done|by split_and!|done|done].
Qed.

Lemma cmpEpoch_refl a : cmpEpoch a a = 0.
Proof. unfold cmpEpoch. by rewrite !decide_False by (intros H; by apply H). Qed.

Lemma Apply_receive s i : ready s → ours i → Apply i s = receive i s.
Proof.
  intros Hr (Hi & He). unfold Projection.Apply. rewrite tbind_get.
  destruct (adopted s) as [ai ae] eqn:Had. unfold ready in Hr. destruct Hr as [Hr|(Heq & pe & Hpe)]; rewrite Had in *; simpl in *.
  - by rewrite decide_True.
  - injection Heq as -> ->. case_decide; [done|]. rewrite decide_False by tauto. rewrite He. unfold compareEpochs. rewrite Hpe, cmpEpoch_refl. done.
Qed.

Lemma applyAll_spec l : hook_ok → ∀ s seen, ready s → Forall compared seen → Forall ours l → holds s seen →
  ∃ os s', applyAll l s = Ok (os, s') ∧ source s' = source s ∧ holds s' (fold_left remember l seen).
Proof.
  intros Hh. induction l as [|i l IH]; intros s seen Hr Hseen Hl Hs; simpl.
  - by exists [], s.
  - inversion Hl as [|? ? Hi Hl']; subst. unfold tbind at 1. rewrite Apply_receive by done.
    destruct (receive_spec s seen i Hh Hi Hseen Hs) as (o & s1 & -> & Hsrc & Hs1).
    destruct (IH s1 (remember seen i)) as (os & s' & Hrun & Hsrc' & Hs').
    + unfold ready, adopted in *. by rewrite Hsrc.
    + by apply remember_compared.
    + done.
    + done.
    + unfold tbind. rewrite Hrun. exists (o :: os), s'. split_and!; [done|congruence|done].
Qed.

(** C20. A projection converges (P9.11): whatever events, pulls and reads of the adopted
    source arrive, in whatever order and however often each, they are all received; every
    record received of has a row, no other record has one; and the row is the newest
    input that counts of the record, by version and, at one version, a deletion before a
    whole record before a part: its state, its version, and, when complete, its content; a
    deleted record keeps no content.  Without an answer "purged" every input counts, so
    the order is of no matter; such an answer counts as a deletion at version 0 and
    everything of its record that came before it no longer does. *)
Theorem projection_converges l s :
  hook_ok → rows s = ∅ → ready s → Forall ours l →
  ∃ os s', applyAll l s = Ok (os, s') ∧
  (∀ id, match rows s' !! id with
        | None => ∀ i, i ∈ l → RecordID i ≠ id
        | Some r => ∃ i, newest (remembered l) id i ∧ p_state r = stateOf (iKind i) ∧ p_version r = iVersion i ∧
            (iKind i = Full → p_data r = Some (iData i)) ∧ (iKind i = Delete → p_data r = None)
        end) ∧
  (Forall (λ i, iKind i ≠ PurgedKind) l → remembered l = l).
Proof.
  intros Hh Hrows Hr Hl. destruct (applyAll_spec l Hh s []) as (os & s' & Hrun & _ & Hs'); [done..| |].
  { intros id. rewrite Hrows, lookup_empty. set_solver. }
  exists os, s'. split; [done|]. split; [|apply remembered_all]. intros id. specialize (Hs' id). fold (remembered l) in Hs'.
  destruct (rows s' !! id) as [r|]; [destruct Hs' as (i & Hn & []); exists i; by split_and!|].
  intros i Hi Hid. destruct (proj2 (remembered_ids l id)) as (j & Hj & Hjid); [by exists i|]. by apply (Hs' j).
Qed.

End converge.

(** The histories of two accounts, with a repeat and a purged answer between. *)
Definition accountInputs : list (Input string) :=
  [mkInput "acc-1" Full 3 "i1" "1.1" "v3" 0; mkInput "acc-1" Partial 2 "i1" "1.1" "v2" 0;
   mkInput "acc-2" Delete 5 "i1" "1.1" "" 0; mkInput "acc-2" PurgedKind 0 "i1" "1.1" "" 0; mkInput "acc-2" Full 4 "i1" "1.1" "v4" 0;
   mkInput "acc-1" Full 3 "i1" "1.1" "v3" 0].
Definition accountStore : store string unit := mkStore ∅ (Some (mkPsource (Some "i1") (Some "1.1") 1 Aligned)) tt.

Lemma projection_converges_witness :
  ∃ os s', applyAll (E:=unit) "" (λ a b, b) None accountInputs accountStore = Ok (os, s') ∧
    Get s' "acc-1" = Some (Complete, 3, Some "v3") ∧ Get s' "acc-2" = Some (Complete, 4, Some "v4") ∧
    ∃ i, newest (remembered accountInputs) "acc-1" i.
Proof.
  destruct (projection_converges (E:=unit) "" (λ a b : string, b) None "i1" "1.1" accountInputs accountStore)
    as (os & s' & Hrun & Hrows & _).
  - exact I.
  - reflexivity.
  - right. split; [reflexivity|]. eexists. vm_compute. reflexivity.
  - repeat constructor.
  - exists os, s'. split; [exact Hrun|]. pose proof Hrun as Hc. vm_compute in Hc. injection Hc as _ Hs.
    specialize (Hrows "acc-1"). rewrite <- Hs in *. split; [vm_compute; reflexivity|]. split; [vm_compute; reflexivity|].
    destruct (rows _ !! "acc-1") as [r|] eqn:Hr; [|vm_compute in Hr; discriminate Hr].
    destruct Hrows as (i & Hi & _). exists i. exact Hi.
Defined.
