(* ===== verification/ProjAlign.v ===== *)
(** * Projections: alignment and repair

    [projection/align.go]: [alignTo] re-fetches everything from the source (a snapshot
    by pages, then by ID the local rows the snapshot did not have), fenced by an alignment
    generation; [Repair] fetches the incomplete rows. The source is a parameter: what its
    [Snapshot] and [Read] answer. Other transactions may run before each of the
    alignment's own; [other] says what the [n]-th such moment does to the store. The two
    loops take fuel, one unit a page or round. *)
From S2P Require Import Prelude GoStr ProjDecide Projection.
Open Scope string_scope.
Open Scope Z_scope.
Open Scope tx_scope.

Record Record_ (J : Type) := mkRecord { rID : string; rVersion : Z; rData : J }.
Arguments mkRecord {J}.
Arguments rID {J}.
Arguments rVersion {J}.
Arguments rData {J}.

Inductive readState := Exists | Gone | Purged | OtherState (word : string).

Record ReadResult (J : Type) := mkResult { rrID : string; rrState : readState; rrVersion : Z; rrData : J }.
Arguments mkResult {J}.
Arguments rrID {J}.
Arguments rrState {J}.
Arguments rrVersion {J}.
Arguments rrData {J}.

(** The projected component, read over its contract. *)
Record Source (J E : Type) := mkSourceApi {
  Snapshot : string → res E (list (Record_ J) * string * Identity);
  Read : list string → res E (list (ReadResult J) * Identity)
}.
Arguments mkSourceApi {J E}.
Arguments Snapshot {J E}.
Arguments Read {J E}.

(** [accepts]: answered by the primary of the identity the run uses. *)
Definition accepts (d want : Identity) : bool :=
  Primary d && bool_decide (Impl d = Impl want) && bool_decide (Epoch d = Epoch want) &&
  (bool_decide (Deployment want = "") || bool_decide (Deployment d = Deployment want)).

(** What a watermark source adds to an alignment. *)
Record alignHooks (J C E : Type) := mkHooks {
  hStatus : option alignState;
  hStarted : option (Z → store J C → res (error E) unit * store J C);
  hPurgedAt : option (string → option Z);
  hDone : option (Z → tx (store J C) (error E) unit)
}.
Arguments mkHooks {J C E}.
Arguments hStatus {J C E}.
Arguments hStarted {J C E}.
Arguments hPurgedAt {J C E}.
Arguments hDone {J C E}.

Section align.
Context {J C E : Type} (emptyObject : J) (merge : J → J → J) (Changed : option (string → tx C E unit)).
Context (src : Source J E) (other : nat → store J C → store J C).

#[local] Abbreviation store := (store J C).
#[local] Abbreviation M := (tx store (error E)).

(** The new generation of the source's row. *)
Definition begin (impl epoch : string) (status : alignState) : M Z :=
  s <~ tget ;
  let nullif (x : string) := if decide (x = "") then None else Some x in
  let coalesce (x y : option string) := match x with Some _ => x | None => y end in
  match source s with
  | None => tmod (set_source (Some (mkPsource (nullif impl) (nullif epoch) 1 status))) ;~ tret 1
  | Some p =>
      tmod (set_source (Some (mkPsource (coalesce (nullif impl) (ps_impl p)) (coalesce (nullif epoch) (ps_epoch p))
        (ps_gen p + 1) status))) ;~
      tret (ps_gen p + 1)
  end.

(** [write]: a transaction that runs only while its generation is the current one. *)
Definition guarded {A} (gen : Z) (fn : M A) : M A :=
  s <~ tget ;
  match source s with
  | None => tfail ErrNoSource
  | Some p => if decide (ps_gen p ≠ gen) then tfail ErrReplaced else fn
  end.

Definition put (impl epoch : string) (gen : Z) (id : string) (st : rowState) (version : Z) (data : option J)
    (minRead : option Z) : M unit :=
  s <~ tget ;
  let new := mkProw version st None (Some impl) (Some epoch) data (Some gen) minRead in
  let writes := match rows s !! id with
                | None => true
                | Some r => bool_decide (p_aligned_gen r ≠ Some gen) || bool_decide (p_version r < version)
                end in
  if writes : bool then tmod (set_rows (insert id new)) ;~ changed Changed id else tret tt.

Fixpoint putAll (impl epoch : string) (gen : Z) (l : list (Record_ J)) : M unit :=
  match l with
  | [] => tret tt
  | r :: l => put impl epoch gen (rID r) Complete (rVersion r) (Some (rData r)) None ;~ putAll impl epoch gen l
  end.

Fixpoint putResults (h : alignHooks J C E) (impl epoch : string) (gen : Z) (word : readState → error E)
    (l : list (ReadResult J)) : M unit :=
  match l with
  | [] => tret tt
  | r :: l =>
      (match rrState r with
       | Exists => put impl epoch gen (rrID r) Complete (rrVersion r) (Some (rrData r)) None
       | Gone => put impl epoch gen (rrID r) Tombstone (rrVersion r) None None
       | Purged => put impl epoch gen (rrID r) Tombstone 0 None
                     (match hPurgedAt h with Some f => f (rrID r) | None => None end)
       | OtherState _ => tfail (word (rrState r))
       end) ;~
      putResults h impl epoch gen word l
  end.

(** Rows not written by this generation, a batch of 500 in order of their IDs. *)
Definition unaligned (gen : Z) (s : store) : list string :=
  map fst (filter (λ p, p_aligned_gen p.2 ≠ Some gen) (map_to_list (rows s))).
Definition batch (gen : Z) (s : store) : list string := firstn 500 (merge_sort strLe (unaligned gen s)).

Context (word : readState → error E).

(** The completion: the source is aligned, unless a hook decides. *)
Definition finish (h : alignHooks J C E) (gen : Z) : M unit :=
  guarded gen (match hDone h with
               | Some f => f gen
               | None => tmod (λ s, set_source (match source s with
                           | Some p => Some (mkPsource (ps_impl p) (ps_epoch p) (ps_gen p) Aligned)
                           | None => None end) s)
               end).

(** The rounds of reads by ID; [None] when the fuel ran out. *)
Fixpoint rounds (fuel n : nat) (h : alignHooks J C E) (want : Identity) (gen : Z) (last : option (list string)) (s : store)
    : option (res (error E) unit * store) :=
  match fuel with
  | O => None
  | S fuel =>
    let s := other n s in
    let ids := batch gen s in
    match ids with
    | [] => Some (commit (finish h gen) (other (S n) s))
    | _ =>
      if decide (last = Some ids) then Some (Err ErrNoProgress, s)
      else
      match Read src ids with
      | Err e => Some (Err (ErrSource e), s)
      | Ok (results, from) =>
        if negb (accepts from want) then Some (Err ErrOtherSource, s)
        else
        match commit (guarded gen (putResults h (Impl want) (Epoch want) gen word results)) (other (S n) s) with
        | (Err e, s) => Some (Err e, s)
        | (Ok _, s) =>
            match filter (λ id, id ∉ map rrID results) ids with
            | id :: _ => Some (Err (ErrUnanswered id), s)
            | [] => rounds fuel (S (S n)) h want gen (Some ids) s
            end
        end
      end
    end
  end.

(** The pages of the snapshot. [learn]: the first page's declaration is the identity. *)
Fixpoint pages (fuel n : nat) (h : alignHooks J C E) (learn : bool) (want : Identity) (gen : Z) (cursor : string) (s : store)
    : option (res (error E) unit * store) :=
  match fuel with
  | O => None
  | S fuel =>
    match Snapshot src cursor with
    | Err e => Some (Err (ErrSource e), s)
    | Ok (records, next, from) =>
      if learn && negb (Primary from) then Some (Err ErrOtherSource, s)
      else
      let want := if learn then from else want in
      let '(r, s) := if learn then
          commit (guarded gen (tmod (λ s, set_source (match source s with
            | Some p => Some (mkPsource (Some (Impl want)) (Some (Epoch want)) (ps_gen p) (ps_status p))
            | None => None end) s))) (other n s)
        else (Ok tt, s) in
      match r with
      | Err e => Some (Err e, s)
      | Ok _ =>
        if negb (accepts from want) then Some (Err ErrOtherSource, s)
        else
        match commit (guarded gen (putAll (Impl want) (Epoch want) gen records)) (other (S n) s) with
        | (Err e, s) => Some (Err e, s)
        | (Ok _, s) =>
            if decide (next = "") then rounds fuel (S (S n)) h want gen None s
            else pages fuel (S (S n)) h false want gen next s
        end
      end
    end
  end.

Definition alignTo (fuel : nat) (want : Identity) (h : alignHooks J C E) (s : store) : option (res (error E) unit * store) :=
  let learn := bool_decide (Impl want = "") in
  match commit (begin (Impl want) (Epoch want) (default Aligning (hStatus h))) s with
  | (Err e, s) => Some (Err e, s)
  | (Ok gen, s) =>
      match (match hStarted h with Some f => f gen s | None => (Ok tt, s) end) with
      | (Err e, s) => Some (Err e, s)
      | (Ok _, s) => pages fuel 0 h learn want gen "" s
      end
  end.

Definition Align (fuel : nat) (s : store) : option (res (error E) unit * store) :=
  alignTo fuel (mkIdentity "" "" "" "" false "") (mkHooks None None None None) s.

(** ** Repair *)

Definition kindOf (r : readState) : option kind :=
  match r with Exists => Some Full | Gone => Some Delete | Purged => Some PurgedKind | OtherState _ => None end.

Fixpoint repairAll (from : Identity) (l : list (ReadResult J)) (n : nat) : M nat :=
  match l with
  | [] => tret n
  | r :: l =>
      match kindOf (rrState r) with
      | None => tfail (word (rrState r))
      | Some k =>
          o <~ Apply emptyObject merge Changed
                 (mkInput (rrID r) k (rrVersion r) (Impl from) (Epoch from) (rrData r) 0) ;
          repairAll from l (if oChanged o then S n else n)
      end
  end.

Definition incomplete (s : store) : list string :=
  firstn 500 (merge_sort strLe (map fst (filter (λ p, p_state p.2 = Incomplete) (map_to_list (rows s))))).

Definition Repair (s : store) : res (error E) nat * store :=
  match incomplete s with
  | [] => (Ok O, s)
  | ids =>
      match Read src ids with
      | Err e => (Err (ErrSource e), s)
      | Ok (results, from) =>
          if negb (Primary from) then (Err ErrOtherSource, s)
          else commit (repairAll from results 0) (other 0%nat s)
      end
  end.

End align.
