(* ===== verification/ProjAligned.v ===== *)
(** * Projections: what an alignment leaves

    Against a source that answers as its contract says, an undisturbed alignment ends and
    the projection is the source; and nothing of an alignment lands after a newer one
    began. *)
From S2P Require Import Prelude GoStr ProjDecide Projection ProjConverge ProjAlign.
Open Scope string_scope.
Open Scope Z_scope.
Open Scope tx_scope.
Open Scope list_scope.

(** What a source promises to the projections of it: its records, the pages of its
    snapshot, and an answer for every ID. *)
Class SourceLaws {J E : Type} (src : Source J E) (me : Identity) (truth : gmap string (Z * J)) := mkLaws {
  snapshot_pages : list (string * list (Record_ J) * string);
  pages_chain : ∃ c rs n, head snapshot_pages = Some (c, rs, n) ∧ c = "";
  pages_linked : ∀ k c rs n, snapshot_pages !! k = Some (c, rs, n) →
    Snapshot src c = Ok (rs, n, me) ∧
    if decide (n = "") then S k = length snapshot_pages
    else ∃ rs' n', snapshot_pages !! S k = Some (n, rs', n');
  pages_records : ∀ id v d, truth !! id = Some (v, d) ↔
    ∃ c rs n, (c, rs, n) ∈ snapshot_pages ∧ mkRecord id v d ∈ rs;
  read_answer : string → ReadResult J;
  read_all : ∀ ids, Read src ids = Ok (map read_answer ids, me);
  read_id : ∀ id, rrID (read_answer id) = id;
  read_truth : ∀ id, match truth !! id with
    | Some (v, d) => read_answer id = mkResult id Exists v d
    | None => rrState (read_answer id) = Gone ∨ rrState (read_answer id) = Purged
    end;
  me_primary : Primary me = true;
  me_impl : Impl me ≠ ""
}.

Section aligned.
Context {J C E : Type} (Changed : option (string → tx C E unit)).
Context (word : readState → error E).
Context (src : Source J E) (me : Identity) (truth : gmap string (Z * J)) `{L : !SourceLaws src me truth}.
Context (Hhook : hook_ok Changed) (gen : Z) (rows0 : gmap string (prow J)).
Context (Hold : ∀ id r, rows0 !! id = Some r → p_aligned_gen r ≠ Some gen).

#[local] Abbreviation store := (store J C).
#[local] Abbreviation put := (put (E:=E) Changed).
#[local] Abbreviation nohooks := (mkHooks (J:=J) (C:=C) (E:=E) None None None None).

(** The row of an existing record, and of one that is gone, after this alignment. *)
Definition target (v : Z) (d : J) : prow J :=
  mkProw v Complete None (Some (Impl me)) (Some (Epoch me)) (Some d) (Some gen) None.
Definition gone (r : prow J) : Prop :=
  p_state r = Tombstone ∧ p_data r = None ∧ p_impl r = Some (Impl me) ∧ p_epoch r = Some (Epoch me) ∧
  p_aligned_gen r = Some gen.

Definition current (s : store) : Prop := ∃ p, source s = Some p ∧ ps_gen p = gen ∧
  ps_impl p = Some (Impl me) ∧ ps_epoch p = Some (Epoch me).

Definition newRow (st : rowState) (v : Z) (d : option J) (m : option Z) : prow J :=
  mkProw v st None (Some (Impl me)) (Some (Epoch me)) d (Some gen) m.

(** A row this alignment has not written yet is overwritten. *)
Lemma put_new id st v d m (s : store) : (∀ r, rows s !! id = Some r → p_aligned_gen r ≠ Some gen) →
  ∃ s', put (Impl me) (Epoch me) gen id st v d m s = Ok (tt, s') ∧ source s' = source s ∧
    rows s' = <[id := newRow st v d m]> (rows s).
Proof.
  intros Hr. unfold ProjAlign.put. rewrite tbind_get. cbv zeta.
  assert (Hw : match rows s !! id with
               | None => true
               | Some r => bool_decide (p_aligned_gen r ≠ Some gen) || bool_decide (p_version r < v) end = true).
  { destruct (rows s !! id) as [r|]; [|done]. by rewrite bool_decide_eq_true_2 by (by apply Hr). }
  rewrite Hw, tbind_mod.
  destruct (changed_ok Changed id (set_rows (<[id := newRow st v d m]>) s) Hhook) as (c & Hc).
  unfold newRow in Hc. rewrite Hc. eexists. split; [reflexivity|]. done.
Qed.

(** A row of this alignment stays, unless a newer version comes. *)
Lemma put_same id st v d m (s : store) r : rows s !! id = Some r → p_aligned_gen r = Some gen → v ≤ p_version r →
  put (Impl me) (Epoch me) gen id st v d m s = Ok (tt, s).
Proof.
  intros Hrow Hg Hv. unfold ProjAlign.put. rewrite tbind_get, Hrow. cbv zeta.
  rewrite bool_decide_eq_false_2 by tauto. rewrite bool_decide_eq_false_2 by lia. done.
Qed.

Lemma guarded_ok {A} (fn : tx store (error E) A) s : current s → guarded gen fn s = fn s.
Proof. intros (p & Hp & Hg & _). unfold guarded. rewrite tbind_get, Hp. by rewrite decide_False by tauto. Qed.

(** ** The pages *)

(** The rows of the records seen so far are this alignment's, the others untouched. *)
Definition seen (s : store) (ids : gset string) : Prop :=
  ∀ id, if decide (id ∈ ids) then ∃ v d, truth !! id = Some (v, d) ∧ rows s !! id = Some (target v d)
        else rows s !! id = rows0 !! id.

Lemma putAll_spec l (s : store) ids : current s → seen s ids →
  (∀ r, r ∈ l → truth !! rID r = Some (rVersion r, rData r)) →
  ∃ s', putAll Changed (Impl me) (Epoch me) gen l s = Ok (tt, s') ∧ source s' = source s ∧
    seen s' (ids ∪ list_to_set (map rID l)).
Proof.
  revert s ids. induction l as [|r l IH]; intros s ids Hcur Hseen Hl; simpl.
  - exists s. split_and!; try done. by rewrite union_empty_r_L.
  - assert (∃ s1, put (Impl me) (Epoch me) gen (rID r) Complete (rVersion r) (Some (rData r)) None s = Ok (tt, s1) ∧
      source s1 = source s ∧ seen s1 (ids ∪ {[rID r]})) as (s1 & Hrun & Hsrc & Hseen1).
    { assert (Ht := Hl r ltac:(set_solver)). destruct (decide (rID r ∈ ids)) as [Hin|Hin].
      - pose proof (Hseen (rID r)) as Hr. rewrite decide_True in Hr by done. destruct Hr as (v & d & Hv & Hrow).
        rewrite Ht in Hv. injection Hv as <- <-. exists s. split_and!; [by eapply put_same|done|].
        replace (ids ∪ {[rID r]}) with ids by set_solver. done.
      - pose proof (Hseen (rID r)) as Hr. rewrite decide_False in Hr by done.
        destruct (put_new (rID r) Complete (rVersion r) (Some (rData r)) None s) as (s1 & Hrun & Hsrc & Hrows).
        { intros r0. rewrite Hr. apply Hold. }
        exists s1. split_and!; [done|done|]. intros id. rewrite Hrows. destruct (decide (id = rID r)) as [->|Hne].
        + rewrite decide_True by set_solver. exists (rVersion r), (rData r). by rewrite lookup_insert_eq.
        + rewrite lookup_insert_ne by done. specialize (Hseen id).
          destruct (decide (id ∈ ids)); [rewrite decide_True by set_solver|rewrite decide_False by set_solver]; done. }
    unfold tbind at 1. rewrite Hrun.
    destruct (IH s1 (ids ∪ {[rID r]})) as (s' & Hrun' & Hsrc' & Hseen').
    + unfold current in *. by rewrite Hsrc.
    + done.
    + set_solver.
    + exists s'. split_and!; [done|congruence|]. by rewrite union_assoc_L.
Qed.

(** ** The reads by ID *)

Definition todo (s : store) : gset string := dom (filter (λ p, p_aligned_gen p.2 ≠ Some gen) (rows s)).

Lemma elem_of_todo (s : store) id : id ∈ todo s ↔ ∃ r, rows s !! id = Some r ∧ p_aligned_gen r ≠ Some gen.
Proof.
  unfold todo. rewrite elem_of_dom. split.
  - intros [r Hr]. apply map_lookup_filter_Some in Hr. eauto.
  - intros (r & H1 & H2). exists r. by apply map_lookup_filter_Some.
Qed.

Lemma elem_of_batch (s : store) id : id ∈ batch gen s → id ∈ todo s.
Proof. intros H%firsts_elem. apply selected_elem in H. by apply elem_of_todo. Qed.

Lemma batch_nil (s : store) : batch gen s = [] → todo s = ∅.
Proof.
  intros H. apply firsts_nil in H; [|lia]. apply set_eq. intros id. split; [|set_solver].
  intros Hid. exfalso. apply elem_of_todo in Hid as (r & Hr). eapply (elem_of_nil id). unfold unaligned in H. rewrite <- H.
  apply selected_elem. eauto.
Qed.

Lemma batch_NoDup (s : store) : NoDup (batch gen s).
Proof. apply firsts_NoDup, selected_NoDup. Qed.

(** Between rounds: what this alignment wrote is the source, the rest is gone there. *)
Record settled (s : store) : Prop := mkSettled {
  st_current : current s;
  st_written : ∀ id r, rows s !! id = Some r → p_aligned_gen r = Some gen →
    match truth !! id with Some (v, d) => r = target v d | None => gone r end;
  st_rest : ∀ id r, rows s !! id = Some r → p_aligned_gen r ≠ Some gen → truth !! id = None;
  st_dom : dom (rows s) = dom rows0 ∪ dom truth
}.

Lemma putResults_spec ids (s : store) : NoDup ids → settled s → (∀ id, id ∈ ids → id ∈ todo s) →
  ∃ s', putResults Changed nohooks (Impl me) (Epoch me) gen word (map read_answer ids) s = Ok (tt, s') ∧ settled s' ∧
    todo s' = todo s ∖ list_to_set ids.
Proof.
  revert s. induction ids as [|id ids IH]; intros s Hnd Hs Htodo; simpl.
  - exists s. split_and!; [done|done|]. set_solver.
  - apply NoDup_cons in Hnd as [Hnin Hnd]. pose proof (Htodo id ltac:(set_solver)) as Hid.
    apply elem_of_todo in Hid as (r & Hr & Hg). pose proof (st_rest _ Hs _ _ Hr Hg) as Ht.
    pose proof (read_truth id) as Hans. rewrite Ht in Hans.
    assert (∃ v m s1, (match rrState (read_answer id) with
       | Exists => put (Impl me) (Epoch me) gen (rrID (read_answer id)) Complete (rrVersion (read_answer id)) (Some (rrData (read_answer id))) None
       | Gone => put (Impl me) (Epoch me) gen (rrID (read_answer id)) Tombstone (rrVersion (read_answer id)) None None
       | Purged => put (Impl me) (Epoch me) gen (rrID (read_answer id)) Tombstone 0 None None
       | OtherState _ => tfail (word (rrState (read_answer id)))
       end) s = Ok (tt, s1) ∧ source s1 = source s ∧ rows s1 = <[id := newRow Tombstone v None m]> (rows s))
      as (v & m & s1 & Hrun & Hsrc & Hrows).
    { assert (Hnew : ∀ r0, rows s !! id = Some r0 → p_aligned_gen r0 ≠ Some gen) by (intros r0; rewrite Hr; congruence).
      rewrite (read_id id). destruct Hans as [-> | ->]; eexists _, _; by apply put_new. }
    unfold tbind at 1. simpl. rewrite Hrun.
    assert (Hs1 : settled s1).
    { destruct Hs as [H1 H2 H3 H4]. split.
      - unfold current in *. by rewrite Hsrc.
      - intros id' r'. rewrite Hrows, lookup_insert_Some. intros [[<- <-]|[Hne Hr']] Hg'; [by rewrite Ht|exact (H2 _ _ Hr' Hg')].
      - intros id' r'. rewrite Hrows, lookup_insert_Some. intros [[<- <-]|[Hne Hr']] Hg'; eauto.
      - rewrite Hrows, dom_insert_L, H4. apply elem_of_dom_2 in Hr. rewrite H4 in Hr. set_solver. }
    assert (Htodo1 : todo s1 = todo s ∖ {[id]}).
    { apply set_eq. intros j. rewrite elem_of_difference, elem_of_singleton, !elem_of_todo, Hrows. split.
      - intros (r' & Hr' & Hg'). apply lookup_insert_Some in Hr' as [[<- <-]|[Hne Hr']]; [done|]. split; [eauto|congruence].
      - intros ((r' & Hr' & Hg') & Hne). exists r'. by rewrite lookup_insert_ne. }
    destruct (IH s1 Hnd Hs1) as (s' & Hrun' & Hs' & Htodo').
    { intros j Hj. rewrite Htodo1. specialize (Htodo j). set_solver. }
    exists s'. split_and!; [exact Hrun'|done|]. rewrite Htodo', Htodo1. set_solver.
Qed.

Lemma accepts_me : accepts me me = true.
Proof.
  unfold accepts. rewrite me_primary. rewrite (bool_decide_eq_true_2 (Impl me = Impl me)), (bool_decide_eq_true_2 (Epoch me = Epoch me)),
    (bool_decide_eq_true_2 (Deployment me = Deployment me)) by done. by rewrite orb_true_r.
Qed.

#[local] Abbreviation rounds := (rounds Changed src (λ _ s, s) word).
#[local] Abbreviation pages := (pages Changed src (λ _ s, s) word).

(** The rounds end, and the rows are the source's. *)
Lemma rounds_spec fuel n last (s : store) : settled s → (size (todo s) < fuel)%nat →
  (∀ l, last = Some l → ∀ id, id ∈ l → id ∉ todo s) →
  ∃ s', rounds fuel n nohooks me gen last s = Some (Ok tt, s') ∧ settled s' ∧ todo s' = ∅ ∧
    (∃ p, source s' = Some p ∧ ps_status p = Aligned).
Proof.
  revert n last s. induction fuel as [|fuel IH]; intros n last s Hs Hfuel Hlast; [lia|]. simpl.
  destruct (batch gen s) as [|id0 ids0] eqn:Hb.
  - unfold finish. unfold commit. rewrite guarded_ok by apply Hs. simpl.
    pose proof (st_current _ Hs) as (p & Hp & Hg & Hi & He). eexists. split; [reflexivity|].
    split; [|split; [exact (batch_nil s Hb)|rewrite Hp; by eexists]].
    destruct Hs as [H1 H2 H3 H4]. split; simpl; try done. rewrite Hp. by eexists.
  - rewrite <- Hb. assert (Hin : ∀ id, id ∈ batch gen s → id ∈ todo s) by (intros; by apply elem_of_batch).
    rewrite decide_False.
    2: { intros ->. eapply (Hlast _ eq_refl id0); [rewrite Hb; set_solver|]. apply Hin. rewrite Hb. set_solver. }
    rewrite read_all, accepts_me. simpl. unfold commit. rewrite guarded_ok by apply Hs.
    destruct (putResults_spec (batch gen s) s (batch_NoDup s) Hs Hin) as (s1 & -> & Hs1 & Htodo1).
    assert (Hf : filter (λ id, id ∉ map rrID (map read_answer (batch gen s))) (batch gen s) = []).
    { apply elem_of_nil_inv. intros id Hid. apply list_elem_of_filter in Hid as [Hn Hid]. apply Hn.
      apply list_elem_of_fmap. exists (read_answer id). split; [by rewrite read_id|]. apply list_elem_of_fmap. by exists id. }
    rewrite Hf. apply IH; [done| |].
    + rewrite Htodo1. assert (Hid0 : id0 ∈ batch gen s) by (rewrite Hb; set_solver).
      enough (size (todo s ∖ list_to_set (batch gen s)) < size (todo s))%nat by lia.
      apply subset_size. split; [set_solver|]. intros Hsub. specialize (Hsub id0 (Hin _ Hid0)). set_solver.
    + intros l [= <-] id Hid. rewrite Htodo1. set_solver.
Qed.

(** ** The whole alignment *)

Lemma seen_settled (s : store) ids : current s → seen s ids → ids = dom truth → settled s.
Proof.
  intros Hcur Hseen ->. assert (Hin : ∀ id, id ∈ dom truth ↔ is_Some (truth !! id)) by (intros; apply elem_of_dom).
  split; [done|..].
  - intros id r Hr Hg. specialize (Hseen id). case_decide as Hid.
    + destruct Hseen as (v & d & Hv & Hrow). rewrite Hv. congruence.
    + rewrite Hr in Hseen. by destruct (Hold id r).
  - intros id r Hr Hg. specialize (Hseen id). case_decide as Hid.
    + destruct Hseen as (v & d & Hv & Hrow). rewrite Hr in Hrow. injection Hrow as ->. done.
    + rewrite Hin in Hid. by apply eq_None_not_Some.
  - apply set_eq. intros id. rewrite elem_of_union, !elem_of_dom. specialize (Hseen id). case_decide as Hid.
    + destruct Hseen as (v & d & Hv & ->). rewrite Hv. naive_solver.
    + rewrite Hseen, <- Hin. tauto.
Qed.

(** The records of the pages up to the [k]-th. *)
Definition pagesIDs (k : nat) : gset string :=
  list_to_set (concat (map (λ p : string * list (Record_ J) * string, map rID p.1.2) (take k snapshot_pages))).

Lemma pagesIDs_S k c rs n : snapshot_pages !! k = Some (c, rs, n) → pagesIDs (S k) = pagesIDs k ∪ list_to_set (map rID rs).
Proof.
  intros H. unfold pagesIDs. rewrite (take_S_r _ _ _ H), map_app, concat_app, list_to_set_app_L. simpl. by rewrite app_nil_r.
Qed.

Lemma pagesIDs_all : pagesIDs (length snapshot_pages) = dom truth.
Proof.
  unfold pagesIDs. rewrite firstn_all. apply set_eq. intros id. rewrite elem_of_list_to_set, elem_of_dom. split.
  - intros H. apply list_elem_of_In, in_concat in H as (l & Hl & Hid). apply list_elem_of_In, list_elem_of_fmap in Hl as ([[c rs] n] & -> & Hp).
    apply list_elem_of_In, list_elem_of_fmap in Hid as ([i v d] & -> & Hr). simpl in *. exists (v, d). apply pages_records. eauto 10.
  - intros [[v d] H]. apply pages_records in H as (c & rs & n & Hp & Hr).
    apply list_elem_of_In, in_concat. exists (map rID rs). split; apply list_elem_of_In, list_elem_of_fmap.
    + by exists (c, rs, n).
    + by exists (mkRecord id v d).
Qed.

Lemma pages_spec fuel n k c rs nx (s : store) : snapshot_pages !! k = Some (c, rs, nx) → current s → seen s (pagesIDs k) →
  (length snapshot_pages - k + size rows0 < fuel)%nat →
  ∃ s', pages fuel n nohooks false me gen c s = Some (Ok tt, s') ∧ settled s' ∧ todo s' = ∅ ∧
    (∃ p, source s' = Some p ∧ ps_status p = Aligned).
Proof.
  revert n k c rs nx s. induction fuel as [|fuel IH]; intros n k c rs nx s Hk Hcur Hseen Hfuel; [lia|].
  assert (Hlt := lookup_lt_Some _ _ _ Hk). destruct (pages_linked _ _ _ _ Hk) as [Hsnap Hnext]. simpl.
  rewrite Hsnap. simpl. rewrite accepts_me. simpl. unfold commit. rewrite guarded_ok by done.
  destruct (putAll_spec rs s (pagesIDs k) Hcur Hseen) as (s1 & -> & Hsrc & Hseen1).
  { intros [i v d] Hr. simpl. apply pages_records. exists c, rs, nx. split; [|done]. by eapply list_elem_of_lookup_2. }
  rewrite <- (pagesIDs_S _ _ _ _ Hk) in Hseen1.
  assert (Hcur1 : current s1) by (unfold current in *; by rewrite Hsrc).
  destruct (decide (nx = "")) as [->|Hne].
  - rewrite Hnext, pagesIDs_all in Hseen1. assert (Hset := seen_settled s1 _ Hcur1 Hseen1 eq_refl).
    apply rounds_spec; [done| |done].
    assert (Hsub : todo s1 ⊆ dom rows0).
    { intros id Hid. apply elem_of_todo in Hid as (r & Hr & Hg). specialize (Hseen1 id). case_decide as Hd.
      - destruct Hseen1 as (v & d & _ & Hrow). rewrite Hr in Hrow. by injection Hrow as ->.
      - rewrite Hr in Hseen1. apply elem_of_dom. eauto. }
    apply subseteq_size in Hsub. rewrite size_dom in Hsub. lia.
  - destruct Hnext as (rs' & n' & Hk'). eapply IH; [exact Hk'|done|done|].
    assert (Hlt' := lookup_lt_Some _ _ _ Hk'). lia.
Qed.

End aligned.

(** ** The properties *)

(** The generation of a store's source. *)
Definition genOf {J C} (s : store J C) : Z := match source s with None => 0 | Some p => ps_gen p end.

Lemma begin_empty {J C E} (s : store J C) st : ∃ i e,
  begin (E:=E) "" "" st s = Ok (genOf s + 1, set_source (Some (mkPsource i e (genOf s + 1) st)) s).
Proof. unfold begin, genOf. rewrite tbind_get. destruct (source s) as [p|]; simpl; by eexists _, _. Qed.

(** C35. An alignment makes the projection its source (P9.12): against a source that pages
    through its records and answers every read by ID, an alignment of any projection ends
    without error; afterwards exactly the records of the source are complete rows, with
    its version and content, every other row is a tombstone without content, all of the
    adopted instance and epoch, and the source counts as aligned. A number of steps equal
    to the pages and the rows there were, and one more, is always enough. *)
Theorem alignment_correct {J C E} (Changed : option (string → tx C E unit)) (word : readState → error E)
    (src : Source J E) me truth `{!SourceLaws src me truth} (s : store J C) fuel :
  hook_ok Changed →
  (∀ id r g, rows s !! id = Some r → p_aligned_gen r = Some g → g ≤ genOf s) →
  (length snapshot_pages + size (rows s) < fuel)%nat →
  ∃ s', Align Changed src (λ _ s, s) word fuel s = Some (Ok tt, s') ∧
    (∃ p, source s' = Some p ∧ ps_status p = Aligned ∧ ps_gen p = genOf s + 1 ∧
       ps_impl p = Some (Impl me) ∧ ps_epoch p = Some (Epoch me)) ∧
    dom (rows s') = dom (rows s) ∪ dom truth ∧
    ∀ id r, rows s' !! id = Some r →
      p_impl r = Some (Impl me) ∧ p_epoch r = Some (Epoch me) ∧
      match truth !! id with
      | Some (v, d) => p_state r = Complete ∧ p_version r = v ∧ p_data r = Some d
      | None => p_state r = Tombstone ∧ p_data r = None
      end.
Proof.
  intros Hh Hold Hfuel.
  destruct pages_chain as (c0 & rs0 & n0 & Hhead & ->). rewrite head_lookup in Hhead.
  destruct (pages_linked _ _ _ _ Hhead) as [Hsnap _].
  set (s1 := set_source (Some (mkPsource (Some (Impl me)) (Some (Epoch me)) (genOf s + 1) Aligning)) s).
  assert (Hnew : ∀ id r, rows s !! id = Some r → p_aligned_gen r ≠ Some (genOf s + 1)).
  { intros id r Hr Hg. specialize (Hold _ _ _ Hr Hg). lia. }
  destruct (pages_spec Changed word src me truth Hh (genOf s + 1) (rows s) Hnew fuel 0 0 "" rs0 n0 s1 Hhead)
    as (s' & Hrun & Hset & Htodo & p & Hp & Hst).
  - by eexists.
  - intros id. rewrite decide_False; [done|]. unfold pagesIDs. simpl. set_solver.
  - lia.
  - exists s'. split_and!.
    + rewrite <- Hrun. unfold Align, alignTo. simpl.
      destruct (begin_empty (E:=E) s Aligning) as (i & e & Hbegin). unfold commit. rewrite Hbegin.
      destruct fuel as [|fuel]; [lia|]. simpl. rewrite Hsnap. simpl.
      rewrite me_primary. simpl. unfold commit, guarded. rewrite tbind_get. simpl. rewrite decide_False by tauto. simpl. done.
    + exists p. pose proof (st_current _ _ _ _ _ Hset) as (p' & Hp' & Hg & Hi & He). rewrite Hp in Hp'. injection Hp' as <-. done.
    + apply (st_dom _ _ _ _ _ Hset).
    + intros id r Hr. assert (Hg : p_aligned_gen r = Some (genOf s + 1)).
      { destruct (decide (p_aligned_gen r = Some (genOf s + 1))) as [|Hn]; [done|]. exfalso.
        assert (id ∈ todo (genOf s + 1) s') as Hin by (apply elem_of_todo; eauto). rewrite Htodo in Hin. set_solver. }
      pose proof (st_written _ _ _ _ _ Hset _ _ Hr Hg) as Hw. destruct (truth !! id) as [[v d]|].
      * subst r. done.
      * destruct Hw as (? & ? & ? & ? & ?). done.
Qed.

(** ** Fencing *)

Section fencing.
Context {J C E : Type} (Changed : option (string → tx C E unit)) (word : readState → error E).
Context (src : Source J E) (other : nat → store J C → store J C) (gen : Z).

(** A store reached from another by other transactions only. *)
Inductive byOthers : store J C → store J C → Prop :=
| by_none s : byOthers s s
| by_other s s' k : byOthers s s' → byOthers s (other k s').

Lemma guarded_replaced {A} (fn : tx (store J C) (error E) A) s : genOf s ≠ gen →
  ∃ e, commit (guarded gen fn) s = (Err e, s).
Proof.
  unfold genOf, commit, guarded. rewrite tbind_get. destruct (source s) as [p|]; intros Hg; [|by eexists].
  rewrite decide_True by done. by eexists.
Qed.

(** The first transaction of the alignment's own in a run fails. *)
#[local] Ltac fenced H :=
  match type of H with context [commit (guarded gen ?f) ?x] =>
    destruct (guarded_replaced f x) as (?e & ?He); [match goal with Hg : ∀ _ _, _ → _ |- _ => apply Hg; lia end|];
    rewrite He in H; simplify_eq; split; [eauto|repeat constructor]
  end.

(** Nothing of a replaced alignment lands (P9.12): from the moment a newer alignment
    began, and whatever the transactions in between do to the store, an older alignment,
    in any page or round, ends with an error, and no write of its own is in the store it
    leaves. *)
Theorem replaced_never_lands h fuel n learn want cursor last s r s' :
  (∀ k s0, (n ≤ k)%nat → genOf (other k s0) ≠ gen) →
  pages Changed src other word fuel n h learn want gen cursor s = Some (r, s') ∨
  rounds Changed src other word fuel n h want gen last s = Some (r, s') →
  (∃ e, r = Err e) ∧ byOthers s s'.
Proof.
  intros Hgen [Hrun|Hrun]; destruct fuel as [|fuel]; simpl in Hrun; try done.
  - destruct (Snapshot src cursor) as [[[records next] from]|e]; [|simplify_eq; split; [eauto|constructor]].
    destruct learn; simpl in Hrun.
    + destruct (Primary from); simpl in Hrun; [|simplify_eq; split; [eauto|constructor]].
      fenced Hrun.
    + destruct (accepts from want); simpl in Hrun; [|simplify_eq; split; [eauto|constructor]].
      fenced Hrun.
  - destruct (batch gen (other n s)) as [|id ids].
    + unfold finish in Hrun. fenced Hrun.
    + case_decide; [simplify_eq; split; [eauto|repeat constructor]|].
      destruct (Read src (id :: ids)) as [[results from]|e]; [|simplify_eq; split; [eauto|repeat constructor]].
      destruct (accepts from want); simpl in Hrun; [|simplify_eq; split; [eauto|repeat constructor]].
      fenced Hrun.
Qed.

End fencing.

(** ** A concrete source *)

Definition shopMe : Identity := mkIdentity "d1" "i1" "sys" "1.1" true "".
Definition shopSource : Source string unit :=
  mkSourceApi (λ c, if decide (c = "") then Ok ([mkRecord "a" 3 "A"], "p2", shopMe) else Ok ([mkRecord "b" 1 "B"], "", shopMe))
    (λ ids, Ok (map (λ id, if decide (id = "a") then mkResult id Exists 3 "A"
                           else if decide (id = "b") then mkResult id Exists 1 "B" else mkResult id Gone 9 "") ids, shopMe)).
Definition shopTruth : gmap string (Z * string) := {[ "a" := (3, "A"); "b" := (1, "B") ]}.

#[export] Instance shopLaws : SourceLaws shopSource shopMe shopTruth.
Proof.
  refine (mkLaws _ _ _ _ _ [("", [mkRecord "a" 3 "A"], "p2"); ("p2", [mkRecord "b" 1 "B"], "")] _ _ _
    (λ id, if decide (id = "a") then mkResult id Exists 3 "A"
           else if decide (id = "b") then mkResult id Exists 1 "B" else mkResult id Gone 9 "") _ _ _ _ _).
  - by do 3 eexists.
  - intros [|[|k]] c rs n; simpl; intros [= <- <- <-]; (split; [reflexivity|]); simpl; eauto.
  - intros id v d. unfold shopTruth. rewrite lookup_insert_Some, lookup_singleton_Some. split.
    + intros [[<- [= <- <-]]|[_ [<- [= <- <-]]]];
        [exists "", [mkRecord "a" 3 "A"], "p2"|exists "p2", [mkRecord "b" 1 "B"], ""];
        (split; [rewrite !elem_of_cons; auto|by apply list_elem_of_singleton]).
    + intros (c & rs & n & Hp & Hr). rewrite !elem_of_cons, elem_of_nil in Hp.
      destruct Hp as [[= -> -> ->]|[[= -> -> ->]|[]]]; apply list_elem_of_singleton in Hr; injection Hr as -> -> ->; [by left|].
      right. done.
  - done.
  - intros id. by repeat case_decide.
  - intros id. unfold shopTruth. case_decide; [subst; done|]. case_decide; [subst; done|].
    rewrite lookup_insert_ne, lookup_singleton_ne by done. by left.
  - done.
  - done.
Defined.

Definition shopStore : store string unit :=
  mkStore {[ "a" := mkProw 7 Incomplete (Some 7) (Some "i0") (Some "1.0") None (Some 1) None;
             "z" := mkProw 2 Complete None (Some "i0") (Some "1.0") (Some "Z") None None ]}
    (Some (mkPsource (Some "i0") (Some "1.0") 1 Stalled)) tt.

Lemma alignment_correct_witness :
  ∃ s', Align (E:=unit) None shopSource (λ _ s, s) (λ _, ErrNoSource) 5 shopStore = Some (Ok tt, s') ∧
    Get s' "a" = Some (Complete, 3, Some "A") ∧ Get s' "z" = Some (Tombstone, 9, None) ∧
    dom (rows s') = dom (rows shopStore) ∪ dom shopTruth.
Proof.
  destruct (alignment_correct (E:=unit) None (λ _, ErrNoSource) shopSource shopMe shopTruth shopStore 5) as (s' & Hrun & _ & Hdom & _).
  - exact I.
  - intros id r g Hr. unfold shopStore in Hr. simpl in Hr. rewrite lookup_insert_Some, lookup_singleton_Some in Hr.
    destruct Hr as [[_ <-]|[_ [_ <-]]]; simpl; intros [= <-]; vm_compute; congruence.
  - vm_compute. lia.
  - exists s'. split; [exact Hrun|]. pose proof Hrun as Hc. vm_compute in Hc. injection Hc as Hs.
    split; [rewrite <- Hs; vm_compute; reflexivity|]. split; [rewrite <- Hs; vm_compute; reflexivity|exact Hdom].
Defined.

(** An older alignment of generation 1 in a store where generation 2 began. *)
Lemma replaced_never_lands_witness :
  let other := λ (_ : nat) (s : store string unit), set_source (Some (mkPsource None None 2 Aligning)) s in
  ∃ r s', pages (E:=unit) None shopSource other (λ _, ErrNoSource) 5 0 (mkHooks None None None None) false shopMe 1 "" shopStore = Some (r, s') ∧
    (∃ e, r = Err e) ∧ byOthers other shopStore s'.
Proof.
  eexists _, _. split; [vm_compute; reflexivity|].
  apply (replaced_never_lands (E:=unit) None (λ _, ErrNoSource) shopSource
    (λ (_ : nat) (s : store string unit), set_source (Some (mkPsource None None 2 Aligning)) s) 1
    (mkHooks None None None None) 5 0 false shopMe "" None shopStore).
  - intros k s0 _. vm_compute. congruence.
  - left. vm_compute. reflexivity.
Defined.
