(* ===== verification/Work.v ===== *)
(** * Background work: items, claims and failures

    [work/job.go], [work/run.go], [work/runner.go] and [work/operator.go] over the table
    [be_work_item]: enqueueing, the atomic claim with its lease and epoch, the guarded
    commits of a claim, failures by effect class, dead letters, operators' actions and
    the purge. Goroutines, wake-ups and logging are left out: every transaction here is a
    step, and a run of the handler is the sequence of the steps it makes.

    Cron slots are materialized in [CronWork]. Durations are nanoseconds, and the current
    database epoch is part of the store. *)
From S2P Require Import Prelude.
Open Scope string_scope.
Open Scope Z_scope.
Open Scope tx_scope.

Inductive Kind := Queue | Cron | Singleton | Every.
#[export] Instance Kind_eq_dec : EqDecision Kind.
Proof. solve_decision. Defined.

Inductive Effect := Local | IdempotentExternal | NonIdempotentExternal | EmitOnly.
#[export] Instance Effect_eq_dec : EqDecision Effect.
Proof. solve_decision. Defined.

Inductive wstate := Pending | Running | RetryWait | Paused | Dead | Done | Resolved.
#[export] Instance wstate_eq_dec : EqDecision wstate.
Proof. solve_decision. Defined.

Inductive reason := BacklogExceeded | BusinessHold | OutcomeUnknown.
#[export] Instance reason_eq_dec : EqDecision reason.
Proof. solve_decision. Defined.

Definition DefaultLease : Z := 30 * Second.
Definition DefaultMaxAttempts : Z := 10.
Definition DefaultTimeout : Z := 5 * Minute.
Definition BackoffStart : Z := Second.
Definition BackoffCap : Z := 5 * Minute.
Definition QueueRetention : Z := 7 * 24 * Hour.
Definition CronRetention : Z := 30 * 24 * Hour.

(** The delay after attempt [n]: a second doubling, at most five minutes. *)
Definition backoff (n : Z) : Z :=
  let n := Z.max n 1 in
  if decide (20 < n) then BackoffCap else Z.min BackoffCap (Z.shiftl BackoffStart (n - 1)).

(** A row of [be_work_item]. *)
Record item := mkItem {
  w_job : string;
  w_kind : Kind;
  w_state : wstate;
  w_pause : option reason;
  w_attempts : Z;
  w_max : Z;
  w_effect : Effect;
  w_operation : string;
  w_args : option string;
  w_progress : option string;
  w_slot : option string;
  w_run_at : Z;
  w_epoch : Z;
  w_holder : option string;
  w_lease : option Z;
  w_claim_gen : option Z;
  w_claim_tl : option Z;
  w_unknown : bool;
  w_waiting : option Z;
  w_calls : gmap string string;
  w_error : option string;
  w_result : option string;
  w_finished : option Z
}.

(** What a cause of failure says, beside its text. *)
Inductive errKind := Permanent | NotEffective | Wait | Retryable.
#[export] Instance errKind_eq_dec : EqDecision errKind.
Proof. solve_decision. Defined.

Inductive error (E : Type) :=
| ErrLost
| ErrRefused
| ErrJob
| ErrDuplicate
| ErrBusiness (e : E).
Arguments ErrLost {E}.
Arguments ErrRefused {E}.
Arguments ErrJob {E}.
Arguments ErrDuplicate {E}.
Arguments ErrBusiness {E}.

Record store (C : Type) := mkStore {
  items : gmap string item;
  watermarks : gmap string Z;        (** [be_cron_watermark] *)
  dbEpoch : Z * Z;                   (** [be_current_db_epoch()] *)
  clock : Z;
  comp : C                           (** the business tables *)
}.
Arguments mkStore {C}.
Arguments items {C}.
Arguments watermarks {C}.
Arguments dbEpoch {C}.
Arguments clock {C}.
Arguments comp {C}.

(** One claim of an item, as its worker holds it. *)
Record Run := mkRun {
  r_id : string;
  r_job : string;
  r_kind : Kind;
  r_attempts : Z;
  r_max : Z;
  r_operation : string;
  r_epoch : Z;
  r_gen : Z;
  r_tl : Z;
  r_completed : bool
}.

Record Job (C E : Type) := mkJob {
  jName : string;
  jKind : Kind;
  jEffect : Effect;
  jMaxAttempts : Z;
  jInterval : Z;
  jTimeout : Z;
  jMaxWait : Z;
  jDeadLetter : option (Run → string → tx C E unit)
}.
Arguments mkJob {C E}.
Arguments jName {C E}.
Arguments jKind {C E}.
Arguments jEffect {C E}.
Arguments jMaxAttempts {C E}.
Arguments jInterval {C E}.
Arguments jTimeout {C E}.
Arguments jMaxWait {C E}.
Arguments jDeadLetter {C E}.

(** The fields an update writes, over the old row. *)
Definition claimed (holder : string) (until : Z) (ep : Z * Z) (w : item) : item :=
  mkItem (w_job w) (w_kind w) Running (w_pause w) (w_attempts w + 1) (w_max w) (w_effect w) (w_operation w) (w_args w)
    (w_progress w) (w_slot w) (w_run_at w) (w_epoch w + 1) (Some holder) (Some until) (Some ep.1) (Some ep.2)
    (w_unknown w) (w_waiting w) (w_calls w) (w_error w) (w_result w) (w_finished w).

(** Give up the claim: a new state, reason and unknown mark, no holder and no lease. *)
Definition leave (st : wstate) (p : option reason) (unknown : bool) (err : option string) (fin : option Z) (w : item) : item :=
  mkItem (w_job w) (w_kind w) st p (w_attempts w) (w_max w) (w_effect w) (w_operation w) (w_args w)
    (w_progress w) (w_slot w) (w_run_at w) (w_epoch w) None None (w_claim_gen w) (w_claim_tl w)
    unknown (w_waiting w) (w_calls w) err (w_result w) fin.

Definition set_lease (t : Z) (w : item) : item :=
  mkItem (w_job w) (w_kind w) (w_state w) (w_pause w) (w_attempts w) (w_max w) (w_effect w) (w_operation w) (w_args w)
    (w_progress w) (w_slot w) (w_run_at w) (w_epoch w) (w_holder w) (Some t) (w_claim_gen w) (w_claim_tl w)
    (w_unknown w) (w_waiting w) (w_calls w) (w_error w) (w_result w) (w_finished w).
Definition set_attempts (n : Z) (w : item) : item :=
  mkItem (w_job w) (w_kind w) (w_state w) (w_pause w) n (w_max w) (w_effect w) (w_operation w) (w_args w)
    (w_progress w) (w_slot w) (w_run_at w) (w_epoch w) (w_holder w) (w_lease w) (w_claim_gen w) (w_claim_tl w)
    (w_unknown w) (w_waiting w) (w_calls w) (w_error w) (w_result w) (w_finished w).
Definition set_run_at (t : Z) (w : item) : item :=
  mkItem (w_job w) (w_kind w) (w_state w) (w_pause w) (w_attempts w) (w_max w) (w_effect w) (w_operation w) (w_args w)
    (w_progress w) (w_slot w) t (w_epoch w) (w_holder w) (w_lease w) (w_claim_gen w) (w_claim_tl w)
    (w_unknown w) (w_waiting w) (w_calls w) (w_error w) (w_result w) (w_finished w).
Definition set_waiting (o : option Z) (w : item) : item :=
  mkItem (w_job w) (w_kind w) (w_state w) (w_pause w) (w_attempts w) (w_max w) (w_effect w) (w_operation w) (w_args w)
    (w_progress w) (w_slot w) (w_run_at w) (w_epoch w) (w_holder w) (w_lease w) (w_claim_gen w) (w_claim_tl w)
    (w_unknown w) o (w_calls w) (w_error w) (w_result w) (w_finished w).
Definition set_unknown (b : bool) (w : item) : item :=
  mkItem (w_job w) (w_kind w) (w_state w) (w_pause w) (w_attempts w) (w_max w) (w_effect w) (w_operation w) (w_args w)
    (w_progress w) (w_slot w) (w_run_at w) (w_epoch w) (w_holder w) (w_lease w) (w_claim_gen w) (w_claim_tl w)
    b (w_waiting w) (w_calls w) (w_error w) (w_result w) (w_finished w).
Definition set_segment (progress : option string) (op : string) (calls : gmap string string) (w : item) : item :=
  mkItem (w_job w) (w_kind w) (w_state w) (w_pause w) (w_attempts w) (w_max w) (w_effect w) op (w_args w)
    progress (w_slot w) (w_run_at w) (w_epoch w) (w_holder w) (w_lease w) (w_claim_gen w) (w_claim_tl w)
    (w_unknown w) (w_waiting w) calls (w_error w) (w_result w) (w_finished w).
Definition set_result (v : string) (w : item) : item :=
  mkItem (w_job w) (w_kind w) (w_state w) (w_pause w) (w_attempts w) (w_max w) (w_effect w) (w_operation w) (w_args w)
    (w_progress w) (w_slot w) (w_run_at w) (w_epoch w) (w_holder w) (w_lease w) (w_claim_gen w) (w_claim_tl w)
    (w_unknown w) (w_waiting w) (w_calls w) (w_error w) (Some v) (w_finished w).
Definition set_state (st : wstate) (p : option reason) (fin : option Z) (w : item) : item :=
  mkItem (w_job w) (w_kind w) st p (w_attempts w) (w_max w) (w_effect w) (w_operation w) (w_args w)
    (w_progress w) (w_slot w) (w_run_at w) (w_epoch w) (w_holder w) (w_lease w) (w_claim_gen w) (w_claim_tl w)
    (w_unknown w) (w_waiting w) (w_calls w) (w_error w) (w_result w) fin.

(** A new row. *)
Definition newItem (job : string) (k : Kind) (st : wstate) (p : option reason) (mx : Z) (e : Effect) (op : string)
    (args slot : option string) (run_at : Z) : item :=
  mkItem job k st p 0 mx e op args None slot run_at 0 None None None None false None ∅ None None None.

Section work.
(** The text of a duration, in messages. *)
Context {C E : Type} (durText : Z → string).
#[local] Abbreviation store := (store C).
#[local] Abbreviation M := (tx store (error E)).

Definition set_items (f : gmap string item → gmap string item) (s : store) : store :=
  mkStore (f (items s)) (watermarks s) (dbEpoch s) (clock s) (comp s).
Definition set_watermark (job : string) (t : Z) (s : store) : store :=
  mkStore (items s) (<[job := t]> (watermarks s)) (dbEpoch s) (clock s) (comp s).

(** Business writes in the same transaction. *)
Definition business {A} (f : tx C E A) : M A :=
  λ s, match f (comp s) with
       | Ok (a, c) => Ok (a, mkStore (items s) (watermarks s) (dbEpoch s) (clock s) c)
       | Err e => Err (ErrBusiness e)
       end.

(** ** The guarded commits of a claim *)

(** [guard]: own epoch and claim epoch, and the claim's database epoch still current. *)
Definition guard (r : Run) (s : store) : bool :=
  match items s !! r_id r with
  | Some w =>
      bool_decide (w_state w = Running) && bool_decide (w_epoch w = r_epoch r) &&
      bool_decide (w_claim_gen w = Some (r_gen r)) && bool_decide (w_claim_tl w = Some (r_tl r)) &&
      bool_decide ((r_gen r, r_tl r) = dbEpoch s)
  | None => false
  end.

Definition exec (r : Run) (set : Z → item → item) (fn : option (tx C E unit)) : M unit :=
  s <~ tget ;
  if guard r s then
    tmod (set_items (alter (set (clock s)) (r_id r))) ;~
    match fn with Some f => business f | None => tret tt end
  else tfail ErrLost.

(** What [Complete] writes, by the kind of the item. *)
Definition completed (k : Kind) (newop : string) (interval now : Z) (w : item) : item :=
  match k with
  | Singleton =>
      set_run_at (now + interval) (set_segment None newop (w_calls w)
        (set_waiting None (set_attempts 0 (leave Pending (w_pause w) false (w_error w) (w_finished w) w))))
  | _ => set_waiting None (leave Done (w_pause w) false (w_error w) (Some now) w)
  end.

Definition Complete (r : Run) (interval : Z) (newop : string) (fn : option (tx C E unit)) : M unit :=
  exec r (completed (r_kind r) newop interval) fn.

Definition BeforeCall (r : Run) : M unit := exec r (λ _, set_unknown true) None.

Definition RecordCall (r : Run) (key res : string) : M unit :=
  exec r (λ _ w, set_segment (w_progress w) (w_operation w) (<[key := res]> (w_calls w)) w) None.

Definition Checkpoint (r : Run) (progress newop : string) (fn : option (tx C E unit)) : M unit :=
  exec r (λ _, set_segment (Some progress) newop ∅) fn.

Definition renew (r : Run) (lease : Z) : M unit := exec r (λ now, set_lease (now + lease)) None.

(** Stopping: the lease is released and the attempt given back. *)
Definition release (r : Run) : M unit :=
  exec r (λ now w, set_attempts (w_attempts w - 1) (set_lease now w)) None.

(** ** Enqueueing *)

Definition EnqueueAt (jobs : gmap string (Job C E)) (job id args : string) (at_ : option Z) : M string :=
  match jobs !! job with
  | Some j =>
      if decide (jKind j ≠ Queue) then tfail ErrJob
      else
        s <~ tget ;
        if decide (items s !! id = None) then
          tmod (set_items (insert id (newItem job Queue Pending None (jMaxAttempts j) (jEffect j) (id ++ ":" ++ job)
            (Some args) None (default (clock s) at_)))) ;~
          tret id
        else tfail ErrDuplicate
  | None => tfail ErrJob
  end.

Definition ensureSingleton (j : Job C E) (newop : string) : M unit :=
  s <~ tget ;
  if decide (items s !! jName j = None) then
    tmod (set_items (insert (jName j) (newItem (jName j) Singleton Pending None (jMaxAttempts j) (jEffect j) newop
      None None (clock s))))
  else tret tt.

(** ** Claiming *)

Definition leaseBefore (x y : string * item) : Prop := default 0 (w_lease x.2) ≤ default 0 (w_lease y.2).
#[export] Instance leaseBefore_dec x y : Decision (leaseBefore x y).
Proof. unfold leaseBefore. apply _. Defined.
Definition dueBefore (x y : string * item) : Prop := w_run_at x.2 ≤ w_run_at y.2.
#[export] Instance dueBefore_dec x y : Decision (dueBefore x y).
Proof. unfold dueBefore. apply _. Defined.

Definition isExpired (names : list string) (now : Z) (p : string * item) : bool :=
  bool_decide (w_job p.2 ∈ names) && bool_decide (w_state p.2 = Running) &&
  match w_lease p.2 with Some t => bool_decide (t ≤ now) | None => false end.
Definition isDue (names : list string) (now : Z) (p : string * item) : bool :=
  bool_decide (w_job p.2 ∈ names) && (bool_decide (w_state p.2 = Pending) || bool_decide (w_state p.2 = RetryWait)) &&
  bool_decide (w_run_at p.2 ≤ now).

(** An expired lease first, else the earliest due item. *)
Definition candidate (names : list string) (s : store) : option (string * item) :=
  match merge_sort leaseBefore (filter (λ p, isExpired names (clock s) p = true) (map_to_list (items s))) with
  | p :: _ => Some p
  | [] => head (merge_sort dueBefore (filter (λ p, isDue names (clock s) p = true) (map_to_list (items s))))
  end.

Definition claim (names : list string) (holder : string) (lease : Z) : M (option Run) :=
  s <~ tget ;
  match candidate names s with
  | None => tret None
  | Some (id, w) =>
      let w' := claimed holder (clock s + lease) (dbEpoch s) w in
      if bool_decide (w_effect w = NonIdempotentExternal) && w_unknown w then
        tmod (set_items (insert id (leave Paused (Some OutcomeUnknown) (w_unknown w') (w_error w') (w_finished w') w'))) ;~
        tret None
      else
        tmod (set_items (insert id w')) ;~
        tret (Some (mkRun id (w_job w) (w_kind w) (w_attempts w') (w_max w) (w_operation w) (w_epoch w')
                      (dbEpoch s).1 (dbEpoch s).2 false))
  end.

(** ** Failing *)

(** [dead]; an error of the dead letter's own writes rolls back and is only logged. *)
Definition dead (j : Job C E) (r : Run) (cause : string) : M unit :=
  exec r (λ now w, leave Dead (w_pause w) false (Some cause) (Some now) w)
    (match jDeadLetter j with Some f => Some (f r cause) | None => None end).

(** The update of a wait; [pause_reason] is not written. *)
Definition waits (msg : string) (now : Z) (w : item) : item :=
  let since := default now (w_waiting w) in
  set_run_at (now + Z.min BackoffCap (Z.max BackoffStart (now - since)))
    (set_waiting (Some since) (set_attempts (w_attempts w - 1)
      (leave RetryWait (w_pause w) (w_unknown w) (Some msg) (w_finished w) w))).

Definition retries (msg : string) (delay now : Z) (w : item) : item :=
  set_run_at (now + delay) (leave RetryWait (w_pause w) false (Some msg) (w_finished w) w).

Definition paused (msg : string) (w : item) : item :=
  leave Paused (Some OutcomeUnknown) (w_unknown w) (Some msg) (w_finished w) w.

(** [unknown]: the mark of the item, false when the read fails. *)
Definition unknown (readFails : bool) (r : Run) (s : store) : bool :=
  if readFails then false else match items s !! r_id r with Some w => w_unknown w | None => false end.

(** Whether a wait has lasted longer than the job's limit, false when the read fails. *)
Definition waitedOut (readFails : bool) (j : Job C E) (r : Run) (s : store) : bool :=
  if readFails then false
  else match items s !! r_id r with
       | Some w => match w_waiting w with Some t => bool_decide (t < clock s - jMaxWait j) | None => false end
       | None => false
       end.

Definition fail (readFails : bool) (j : Job C E) (r : Run) (k : errKind) (msg : string) : M unit :=
  s <~ tget ;
  match k with
  | Wait =>
      if bool_decide (0 < jMaxWait j) && waitedOut readFails j r s then dead j r ("waited longer than " ++ durText (jMaxWait j) ++ ": " ++ msg)
      else exec r (waits msg) None
  | Permanent => dead j r msg
  | _ =>
      if bool_decide (jEffect j = NonIdempotentExternal) && bool_decide (k ≠ NotEffective) && unknown readFails r s
      then exec r (λ _, paused msg) None
      else if decide (r_max r ≤ r_attempts r) then dead j r msg
      else exec r (retries msg (backoff (r_attempts r))) None
  end.

(** How a handler's run ends. *)
Inductive ending :=
| Stopping                                   (** the member stops *)
| Returned (lost cancelled timedOut : bool) (err : option (errKind * string)).

(** [run] after the handler. The run is over when the claim was lost, or when the context
    ended without its deadline and without a completion. *)
Definition finishRun (readFails : bool) (j : Job C E) (r : Run) (e : ending) (newop : string) : M unit :=
  match e with
  | Stopping => release r
  | Returned lost cancelled timedOut err =>
      if lost || (cancelled && negb timedOut && negb (r_completed r)) then tret tt
      else
        let err := if timedOut && negb (r_completed r) then Some (Retryable, "the run passed its " ++ durText (jTimeout j) ++ " deadline: context deadline exceeded") else err in
        match err with
        | None => if r_completed r then tret tt else Complete r (jInterval j) newop None
        | Some (k, msg) => fail readFails j r k msg
        end
  end.

(** ** Operators *)

Definition operate (id : string) (ok : item → bool) (f : Z → item → item) : M unit :=
  s <~ tget ;
  match items s !! id with
  | Some w => if ok w then tmod (set_items (insert id (f (clock s) w))) else tfail ErrRefused
  | None => tfail ErrRefused
  end.

Definition Requeue (id : string) (verifiedNotEffective : bool) : M unit :=
  operate id
    (λ w, (bool_decide (w_state w = Dead) && negb (w_unknown w)) ||
          (bool_decide (w_state w = Paused) &&
             (bool_decide (w_pause w = Some BacklogExceeded) || bool_decide (w_pause w = Some BusinessHold))) ||
          (bool_decide (w_state w = Paused) && bool_decide (w_pause w = Some OutcomeUnknown) && verifiedNotEffective))
    (λ now w, set_run_at now (set_attempts 0 (leave Pending None false (w_error w) (w_finished w) w))).

Definition Resolve (id why : string) : M unit :=
  operate id (λ w, bool_decide (w_state w = Dead) || bool_decide (w_state w = Paused))
    (λ now w, set_result why (set_state Resolved None (Some now) w)).

Definition Hold (id : string) : M unit :=
  operate id (λ w, bool_decide (w_state w = Pending) || bool_decide (w_state w = RetryWait))
    (λ _ w, set_state Paused (Some BusinessHold) (w_finished w) w).

(** The finished items past their retention; [DeleteInBatches] repeats until none is left. *)
Definition purgeable (s : store) (w : item) : bool :=
  (bool_decide (w_state w = Done) || bool_decide (w_state w = Resolved)) &&
  match w_finished w with
  | None => false
  | Some f =>
      (bool_decide (w_kind w = Queue) && bool_decide (f < clock s - QueueRetention)) ||
      (bool_decide (w_kind w = Cron) && bool_decide (f < clock s - CronRetention) &&
         match watermarks s !! w_job w with Some m => bool_decide (w_run_at w ≤ m) | None => false end)
  end.
Definition Purge (s : store) : store := set_items (filter (λ p, purgeable s p.2 = false)) s.

End work.
