(* ===== verification/CronSpec.v ===== *)
(** * Cron: schedules and slots

    [work/cron.go]: parsing a five-field expression, the slots of a schedule in a time
    zone and the plan of the due ones. Instants are nanoseconds since 1970; a time zone is
    the offset in seconds that the zone database gives an instant, a parameter. The civil
    calendar is the standard library's proleptic Gregorian one. *)
From S2P Require Import Prelude GoStr.
From Stdlib Require Import Ascii.
Open Scope string_scope.
Open Scope Z_scope.

(** ** The calendar *)

Definition Day : Z := 86400.

(** The days from 1970-01-01 to a civil date; a day past the end of its month runs on
    into the next. *)
Definition daysOf (y mo d : Z) : Z :=
  let y' := if decide (mo ≤ 2) then y - 1 else y in
  let era := y' / 400 in
  let yoe := y' - era * 400 in
  let mp := (mo + 9) mod 12 in
  let doy := (153 * mp + 2) / 5 + d - 1 in
  let doe := yoe * 365 + yoe / 4 - yoe / 100 + doy in
  era * 146097 + doe - 719468.

(** The civil date of a day. *)
Definition civil (days : Z) : Z * Z * Z :=
  let z := days + 719468 in
  let era := z / 146097 in
  let doe := z - era * 146097 in
  let yoe := (doe - doe / 1460 + doe / 36524 - doe / 146096) / 365 in
  let doy := doe - (365 * yoe + yoe / 4 - yoe / 100) in
  let mp := (5 * doy + 2) / 153 in
  let d := doy - (153 * mp + 2) / 5 + 1 in
  let mo := if decide (mp < 10) then mp + 3 else mp - 9 in
  (yoe + era * 400 + (if decide (mo ≤ 2) then 1 else 0), mo, d).

Definition weekday (days : Z) : Z := (days + 4) mod 7.

(** Seconds of a civil time read as UTC. *)
Definition naive (y mo d h mi : Z) : Z := daysOf y mo d * Day + h * 3600 + mi * 60.

(** ** Time zones *)

(** The offset of an instant in seconds. *)
Definition Location : Type := Z → Z.

Definition secOf (t : Z) : Z := t / Second.
(** The local seconds of an instant: what [t.In(loc)] shows. *)
Definition localSec (loc : Location) (sec : Z) : Z := sec + loc sec.
(** [time.Date] in a zone, from local seconds: the offset is looked up at the instant the
    first guess gives. *)
Definition dateIn (loc : Location) (local : Z) : Z := local - loc (local - loc local).
(** [AddDate(0, 0, n)] on a whole second. *)
Definition addDays (loc : Location) (sec n : Z) : Z := dateIn loc (localSec loc sec + n * Day).
Definition localDay (loc : Location) (sec : Z) : Z := localSec loc sec / Day.

(** ** Parsing *)

Record Schedule := mkSchedule {
  minutes : gset Z;
  hours : gset Z;
  doms : gset Z;
  months : gset Z;
  dows : gset Z;
  domRestricted : bool;
  dowRestricted : bool
}.

(** [for v := a; v <= b; v += step]. *)
Fixpoint steps (fuel : nat) (v b step : Z) : gset Z :=
  match fuel with
  | O => ∅
  | S n => if decide (v ≤ b) then {[v]} ∪ steps n (int64 (v + step)) b step else ∅
  end.

(** The step and the rest of a part. *)
Definition stepOf (part : string) : option (Z * string) :=
  let '(x, y, slash) := cut "/"%char part in
  if slash : bool then
    match Atoi y with
    | (n, None) => if decide (n < 1) then None else Some (n, x)
    | _ => None
    end
  else Some (1, part).

(** The bounds a part gives. *)
Definition rangeOf (part : string) (step lo hi : Z) : option (Z * Z) :=
  if decide (part = "*") then Some (lo, hi)
  else if contains "-"%char part then
    let '(x, y, _) := cut "-"%char part in
    match Atoi x, Atoi y with
    | (a, None), (b, None) => Some (a, b)
    | _, _ => None
    end
  else match Atoi part with
       | (n, None) => Some (n, if decide (step ≠ 1) then hi else n)
       | _ => None
       end.

Fixpoint fieldParts (parts : list string) (lo hi : Z) : option (gset Z) :=
  match parts with
  | [] => Some ∅
  | part :: l =>
      match stepOf part with
      | None => None
      | Some (step, part) =>
          match rangeOf part step lo hi with
          | None => None
          | Some (a, b) =>
              if decide (a < lo ∨ hi < b ∨ b < a) then None
              else match fieldParts l lo hi with
                   | None => None
                   | Some m => Some (steps 64 a b step ∪ m)
                   end
          end
      end
  end.
Definition field (spec : string) (lo hi : Z) : option (gset Z) := fieldParts (split ","%char spec) lo hi.

Definition ParseCron (expr : string) : option Schedule :=
  match fields expr with
  | [f0; f1; f2; f3; f4] =>
      match field f0 0 59, field f1 0 23, field f2 1 31, field f3 1 12, field f4 0 7 with
      | Some mi, Some h, Some dm, Some mo, Some dw =>
          Some (mkSchedule mi h dm mo (set_map (λ d, d mod 7) dw) (bool_decide (f2 ≠ "*")) (bool_decide (f4 ≠ "*")))
      | _, _, _, _, _ => None
      end
  | _ => None
  end.

(** ** Slots *)

Record Slot := mkSlot { slotID : string; At : Z }.

Definition keys (m : gset Z) : list Z := merge_sort Z.le (elements m).

(** [%02d] and [%04d] of a number not negative. *)
Definition digitChar (n : Z) : ascii := ascii_of_N (Z.to_N (48 + n)).
Fixpoint decimal (fuel : nat) (n : Z) (acc : string) : string :=
  match fuel with
  | O => acc
  | S f => let acc := String (digitChar (n mod 10)) acc in if decide (n < 10) then acc else decimal f (n / 10) acc
  end.
Definition pad2 (n : Z) : string := String (digitChar (n / 10)) (String (digitChar (n mod 10)) "").
Definition pad4 (n : Z) : string :=
  if decide (n < 10000) then pad2 (n / 100) ++ pad2 (n mod 100) else decimal 20 n "".
Definition slotName (y mo d h mi : Z) : string :=
  pad4 y ++ "-" ++ pad2 mo ++ "-" ++ pad2 d ++ "T" ++ pad2 h ++ ":" ++ pad2 mi.

Record wall := mkWall { wy : Z; wmo : Z; wd : Z; wh : Z; wmi : Z }.
#[export] Instance wall_eq_dec : EqDecision wall.
Proof. solve_decision. Defined.

Definition wallOf (loc : Location) (sec : Z) : wall :=
  let l := localSec loc sec in
  let '(y, mo, d) := civil (l / Day) in
  mkWall y mo d (l mod Day / 3600) (l mod 3600 / 60).

Definition wallLess (a b : wall) : bool :=
  if decide (wy a ≠ wy b) then bool_decide (wy a < wy b)
  else if decide (wmo a ≠ wmo b) then bool_decide (wmo a < wmo b)
  else if decide (wd a ≠ wd b) then bool_decide (wd a < wd b)
  else if decide (wh a ≠ wh b) then bool_decide (wh a < wh b)
  else if decide (wmi a ≠ wmi b) then bool_decide (wmi a < wmi b)
  else false.

(** The first occurrence among the offsets of whole quarter hours, fifteen hours each way. *)
Fixpoint firstOccurrence (loc : Location) (want : wall) (nv off : Z) (n : nat) (best : option Z) : option Z :=
  match n with
  | O => best
  | S n =>
      let t := nv - off in
      let better := match best with None => true | Some f => bool_decide (t < f) end in
      firstOccurrence loc want nv (off + 900) n
        (if bool_decide (wallOf loc t = want) && bool_decide (t mod 60 = 0) && better then Some t else best)
  end.

(** In a gap: the first instant at or after the wall time, by halving. *)
Fixpoint firstAfter (loc : Location) (want : wall) (fuel : nat) (lo hi : Z) : Z :=
  match fuel with
  | O => hi
  | S n =>
      if decide (1 < hi - lo) then
        let mid := lo + (hi - lo) / 2 in
        if wallLess (wallOf loc mid) want then firstAfter loc want n mid hi else firstAfter loc want n lo mid
      else hi
  end.

(** The run instant of a local wall time, in seconds. *)
Definition wallInstant (loc : Location) (y mo d h mi : Z) : Z :=
  let want := mkWall y mo d h mi in
  let nv := naive y mo d h mi in
  match firstOccurrence loc want nv (-15 * 3600) 121 None with
  | Some t => t
  | None => firstAfter loc want 18 (nv - 15 * 3600) (nv + 15 * 3600)
  end.

Definition dayMatches (s : Schedule) (y mo d dow : Z) : bool :=
  let dayOK := if domRestricted s && dowRestricted s
               then bool_decide (d ∈ doms s) || bool_decide (dow ∈ dows s)
               else bool_decide (d ∈ doms s) && bool_decide (dow ∈ dows s) in
  bool_decide (mo ∈ months s) && dayOK.

(** The slots of one local day whose instant is in the window. *)
Definition daySlots (s : Schedule) (loc : Location) (after until day : Z) : list Slot :=
  let '(y, mo, d) := civil day in
  if dayMatches s y mo d (weekday day) then
    concat (map (λ h, omap (λ mi,
      let at_ := wallInstant loc y mo d h mi * Second in
      if decide (after < at_ ≤ until) then Some (mkSlot (slotName y mo d h mi) at_) else None) (keys (minutes s))) (keys (hours s)))
  else [].

(** The noons from [d] to [end_]. *)
Fixpoint dayLoop (fuel : nat) (s : Schedule) (loc : Location) (after until d end_ : Z) : list Slot :=
  match fuel with
  | O => []
  | S n =>
      if decide (end_ < d) then []
      else daySlots s loc after until (localDay loc d) ++ dayLoop n s loc after until (addDays loc d 1) end_
  end.

Definition slotLe (a b : Slot) : Prop := At a ≤ At b.
#[export] Instance slotLe_dec a b : Decision (slotLe a b).
Proof. unfold slotLe. apply _. Defined.

(** Noon of the local day of an instant moved by [n] days. *)
Definition noon (loc : Location) (t n : Z) : Z :=
  let day := localDay loc (addDays loc (secOf t) n) in dateIn loc (day * Day + 12 * 3600).

Definition Slots (s : Schedule) (loc : Location) (after until : Z) : list Slot :=
  let d := noon loc after (-1) in
  let end_ := noon loc until 1 in
  merge_sort slotLe (dayLoop (Z.to_nat ((end_ - d) / (Day / 2) + 2)) s loc after until d end_).

(** [Next]: a day at a time, eight years at most. *)
Fixpoint nextFrom (fuel : nat) (s : Schedule) (loc : Location) (from end_ : Z) : option Slot :=
  match fuel with
  | O => None
  | S n =>
      if decide (from < end_) then
        match Slots s loc from (from + 24 * Hour) with
        | x :: _ => Some x
        | [] => nextFrom n s loc (from + 24 * Hour) end_
        end
      else None
  end.

(** [AddDate(n, 0, 0)] with the fraction of a second kept. *)
Definition addYears (loc : Location) (t n : Z) : Z :=
  let l := localSec loc (secOf t) in
  let '(y, mo, d) := civil (l / Day) in
  dateIn loc (daysOf (y + n) mo d * Day + l mod Day) * Second + t mod Second.

Definition Next (s : Schedule) (loc : Location) (after : Z) : option Slot :=
  nextFrom 3000 s loc after (addYears (λ _, 0) after 8).

(** ** The plan *)

Inductive Backfill := Latest | All | NoBackfill.
#[export] Instance Backfill_eq_dec : EqDecision Backfill.
Proof. solve_decision. Defined.
Definition DefaultMaxBacklog : Z := 24.

Definition Plan (s : Schedule) (loc : Location) (policy : Backfill) (maxBacklog : Z) (watermark now : Z)
    : list Slot * list Slot * Z :=
  let due := Slots s loc watermark now in
  match last due with
  | None => ([], [], watermark)
  | Some l =>
      match policy with
      | All =>
          if decide (maxBacklog < Z.of_nat (length due))
          then (take (Z.to_nat maxBacklog) due, drop (Z.to_nat maxBacklog) due, At l)
          else (due, [], At l)
      | NoBackfill => (filter (λ sl, timeSub now (At sl) ≤ Minute) due, [], At l)
      | Latest => ([l], [], At l)
      end
  end.
