(* ===== verification/CronProps.v ===== *)
(** * Cron: what slots and plans are

    The calendar's round trip, the identity of a slot, and the window and order of the
    slots a plan materializes. *)
From S2P Require Import Prelude GoStr CronSpec.
From Stdlib Require Import Ascii.
Open Scope string_scope.
Open Scope Z_scope.

(** ** The calendar *)

Lemma doy_range doe : 0 ≤ doe < 146097 →
  let yoe := (doe - doe / 1460 + doe / 36524 - doe / 146096) / 365 in
  0 ≤ yoe < 400 ∧ 0 ≤ doe - (365 * yoe + yoe / 4 - yoe / 100) ≤ 365.
Proof. intros H yoe. subst yoe. Z.to_euclidean_division_equations. lia. Qed.

Lemma civil_range days y mo d : civil days = (y, mo, d) → 1 ≤ mo ≤ 12 ∧ 1 ≤ d ≤ 31.
Proof.
  unfold civil. pose proof (doy_range ((days + 719468) - (days + 719468) / 146097 * 146097)) as Hd.
  cbv zeta in *. destruct Hd as [_ Hd]; [Z.to_euclidean_division_equations; lia|].
  set (doe := days + 719468 - _) in *. clearbody doe. set (yoe := (_ / 365)) in *. clearbody yoe.
  set (doy := doe - _) in *. clearbody doy. destruct (decide ((5 * doy + 2) / 153 < 10)); intros [= _ <- <-];
    Z.to_euclidean_division_equations; lia.
Qed.

(** Every day is its civil date's. *)
Lemma daysOf_civil days y mo d : civil days = (y, mo, d) → daysOf y mo d = days.
Proof.
  unfold civil, daysOf. pose proof (doy_range ((days + 719468) - (days + 719468) / 146097 * 146097)) as Hd.
  cbv zeta in *. destruct Hd as [Hy Hd]; [Z.to_euclidean_division_equations; lia|].
  set (era := (days + 719468) / 146097) in *.
  set (doe := days + 719468 - era * 146097) in *.
  assert (Hdoe : doe = days + 719468 - era * 146097) by reflexivity. clearbody doe era.
  set (yoe := (_ / 365)) in *. clearbody yoe.
  set (doy := doe - _) in *. assert (Hdoy : doy = doe - (365 * yoe + yoe / 4 - yoe / 100)) by reflexivity. clearbody doy.
  set (mp := (5 * doy + 2) / 153) in *.
  assert (Hmp : 0 ≤ mp ≤ 11) by (unfold mp; Z.to_euclidean_division_equations; lia). clearbody mp.
  assert (Hc : ∀ k, 0 ≤ k < 400 → (k + era * 400) / 400 = era) by (intros; Z.to_euclidean_division_equations; lia).
  intros [= <- <- <-].
  destruct (decide (mp < 10)).
  - rewrite !(decide_False (P := mp + 3 ≤ 2)) by lia. rewrite Z.add_0_r, Hc by lia.
    replace ((mp + 3 + 9) mod 12) with mp by (Z.to_euclidean_division_equations; lia).
    replace (yoe + era * 400 - era * 400) with yoe by lia. lia.
  - rewrite !(decide_True (P := mp - 9 ≤ 2)) by lia.
    replace (yoe + era * 400 + 1 - 1) with (yoe + era * 400) by lia. rewrite Hc by lia.
    replace ((mp - 9 + 9) mod 12) with mp by (Z.to_euclidean_division_equations; lia).
    replace (yoe + era * 400 - era * 400) with yoe by lia. lia.
Qed.

(** ** The identity of a slot *)

Lemma digitChar_inj a b : 0 ≤ a < 10 → 0 ≤ b < 10 → digitChar a = digitChar b → a = b.
Proof.
  intros Ha Hb H. unfold digitChar in H. apply (f_equal N_of_ascii) in H.
  rewrite !N_ascii_embedding in H by lia. lia.
Qed.

Lemma pad2_inj a b : 0 ≤ a < 100 → 0 ≤ b < 100 → pad2 a = pad2 b → a = b.
Proof.
  intros Ha Hb [= H1 H2]. apply digitChar_inj in H1; [|Z.to_euclidean_division_equations; lia..].
  apply digitChar_inj in H2; [|Z.to_euclidean_division_equations; lia..].
  Z.to_euclidean_division_equations. lia.
Qed.

Lemma length_append (a b : string) : String.length (a ++ b) = (String.length a + String.length b)%nat.
Proof. induction a as [|x a IH]; [done|]. change (S (String.length (a ++ b)) = S (String.length a) + String.length b)%nat. lia. Qed.

Lemma append_inj (a b s t : string) : String.length s = String.length t → a ++ s = b ++ t → a = b ∧ s = t.
Proof.
  intros Hlen. revert b. induction a as [|x a IH]; intros [|y b] H.
  - done.
  - exfalso. change (s = String y (b ++ t)) in H. rewrite H in Hlen. simpl in Hlen. rewrite length_append in Hlen. lia.
  - exfalso. change (String x (a ++ s) = t) in H. rewrite <- H in Hlen. simpl in Hlen. rewrite length_append in Hlen. lia.
  - change (String x (a ++ s) = String y (b ++ t)) in H. injection H as -> H. destruct (IH _ H) as [-> ->]. done.
Qed.

Lemma pad4_inj a b : 0 ≤ a < 10000 → 0 ≤ b < 10000 → pad4 a = pad4 b → a = b.
Proof.
  intros Ha Hb. unfold pad4. rewrite !decide_True by lia. intros H. apply append_inj in H as [H1 H2]; [|done].
  apply pad2_inj in H1; [|Z.to_euclidean_division_equations; lia..].
  apply pad2_inj in H2; [|Z.to_euclidean_division_equations; lia..].
  Z.to_euclidean_division_equations. lia.
Qed.

Definition validWall (w : wall) : Prop :=
  0 ≤ wy w < 10000 ∧ 1 ≤ wmo w ≤ 12 ∧ 1 ≤ wd w ≤ 31 ∧ 0 ≤ wh w ≤ 23 ∧ 0 ≤ wmi w ≤ 59.
Definition wallName (w : wall) : string := slotName (wy w) (wmo w) (wd w) (wh w) (wmi w).

Lemma wallName_inj a b : validWall a → validWall b → wallName a = wallName b → a = b.
Proof.
  destruct a as [y mo d h mi], b as [y' mo' d' h' mi']. unfold validWall, wallName, slotName. simpl. intros Ha Hb H.
  apply append_inj in H as [H1 H]; [|done]. apply pad4_inj in H1; [|lia..].
  apply (append_inj "-" "-") in H as [_ H]; [|done]. apply append_inj in H as [H2 H]; [|done].
  apply (append_inj "-" "-") in H as [_ H]; [|done]. apply append_inj in H as [H3 H]; [|done].
  apply (append_inj "T" "T") in H as [_ H]; [|done]. apply append_inj in H as [H4 H]; [|done].
  apply (append_inj ":" ":") in H as [_ H5]; [|done].
  apply pad2_inj in H2, H3, H4, H5; try lia. by subst.
Qed.

(** ** Slots *)

(** A schedule whose hours and minutes are a day's. *)
Definition wfSchedule (s : Schedule) : Prop :=
  (∀ h, h ∈ hours s → 0 ≤ h ≤ 23) ∧ (∀ m, m ∈ minutes s → 0 ≤ m ≤ 59).

Lemma elem_of_keys x m : x ∈ keys m ↔ x ∈ m.
Proof. unfold keys. by rewrite merge_sort_Permutation, elem_of_elements. Qed.

Lemma firstOccurrence_bound loc want nv off n best t : 
  (∀ b, best = Some b → nv - 15 * 3600 ≤ b ≤ nv + 15 * 3600) →
  -15 * 3600 ≤ off → off + 900 * (Z.of_nat n - 1) ≤ 15 * 3600 →
  firstOccurrence loc want nv off n best = Some t → nv - 15 * 3600 ≤ t ≤ nv + 15 * 3600.
Proof.
  revert off best. induction n as [|n IH]; intros off best Hb Hlo Hhi; simpl; [by intros ->; apply Hb|].
  apply IH; [|lia|lia]. intros b. repeat case_match; intros [= <-]; try (by apply Hb); lia.
Qed.

Lemma firstAfter_bound loc want fuel lo hi : lo ≤ hi → lo ≤ firstAfter loc want fuel lo hi ≤ hi.
Proof.
  revert lo hi. induction fuel as [|n IH]; intros lo hi H; simpl; [lia|].
  case_decide; [|lia]. set (mid := lo + (hi - lo) / 2). assert (lo ≤ mid ≤ hi) by (unfold mid; Z.to_euclidean_division_equations; lia).
  case_match; [specialize (IH mid hi)|specialize (IH lo mid)]; lia.
Qed.

(** A wall time runs within fifteen hours of its reading as UTC. *)
Lemma wallInstant_bound loc y mo d h mi :
  naive y mo d h mi - 15 * 3600 ≤ wallInstant loc y mo d h mi ≤ naive y mo d h mi + 15 * 3600.
Proof.
  unfold wallInstant. destruct (firstOccurrence _ _ _ _ _ _) as [t|] eqn:H.
  - eapply firstOccurrence_bound; [..|exact H]; [done|lia|lia].
  - apply firstAfter_bound. lia.
Qed.

Lemma dayLoop_day fuel s loc after until d e x : x ∈ dayLoop fuel s loc after until d e →
  ∃ day, x ∈ daySlots s loc after until day.
Proof.
  revert d. induction fuel as [|n IH]; intros d; simpl; [by intros ?%elem_of_nil|].
  case_decide; [by intros ?%elem_of_nil|]. rewrite elem_of_app. intros [Hx|Hx]; [eauto|by eapply IH].
Qed.

(** The days of the instants a 64-bit count of nanoseconds reaches have years of four digits. *)
Lemma civil_year day y mo d : -719468 ≤ day ≤ 2000000 → civil day = (y, mo, d) → 0 ≤ y < 10000.
Proof.
  unfold civil. pose proof (doy_range ((day + 719468) - (day + 719468) / 146097 * 146097)) as Hd.
  cbv zeta in *. destruct Hd as [Hy _]; [Z.to_euclidean_division_equations; lia|]. intros Hday.
  set (yoe := (_ / 365)) in *. clearbody yoe. intros [= <- _ _].
  assert (0 ≤ (day + 719468) / 146097 ≤ 18) by (Z.to_euclidean_division_equations; lia).
  repeat case_decide; lia.
Qed.

(** What is known of a slot: its wall time, and its instant in the window. *)
Lemma Slots_spec s loc after until x : wfSchedule s → 0 ≤ after → until ≤ int64_max → x ∈ Slots s loc after until →
  after < At x ≤ until ∧ ∃ w, validWall w ∧ slotID x = wallName w ∧
    At x = wallInstant loc (wy w) (wmo w) (wd w) (wh w) (wmi w) * Second.
Proof.
  intros [Hh Hm] Ha Hu Hx. unfold Slots in Hx. rewrite merge_sort_Permutation in Hx.
  apply dayLoop_day in Hx as (day & Hx). unfold daySlots in Hx. destruct (civil day) as [[y mo] dd] eqn:Hciv.
  case_match; [|by apply elem_of_nil in Hx].
  apply list_elem_of_In, in_concat in Hx as (l & Hl & Hx). apply list_elem_of_In, list_elem_of_fmap in Hl as (h & -> & Hkh).
  apply list_elem_of_In, list_elem_of_omap in Hx as (mi & Hkm & Hx). case_decide as Hwin; [|done]. injection Hx as <-.
  apply elem_of_keys, Hh in Hkh. apply elem_of_keys, Hm in Hkm. simpl. split; [done|].
  pose proof (civil_range _ _ _ _ Hciv) as [Hmo Hdd]. assert (0 ≤ y < 10000).
  { apply (civil_year day y mo dd); [|done]. pose proof (wallInstant_bound loc y mo dd h mi) as Hb.
    unfold naive in Hb. rewrite (daysOf_civil _ _ _ _ Hciv) in Hb. unfold Second, int64_max, Day in *. lia. }
  exists (mkWall y mo dd h mi). split_and!; simpl; done || lia.
Qed.

(** One name, one instant. *)
Lemma Slots_same s loc a u a' u' x x' : wfSchedule s → 0 ≤ a → u ≤ int64_max → 0 ≤ a' → u' ≤ int64_max →
  x ∈ Slots s loc a u → x' ∈ Slots s loc a' u' → slotID x = slotID x' → At x = At x'.
Proof.
  intros Hwf Ha Hu Ha' Hu' Hx Hx' Hid.
  destruct (Slots_spec _ _ _ _ _ Hwf Ha Hu Hx) as (_ & w & Hw & Hn & ->).
  destruct (Slots_spec _ _ _ _ _ Hwf Ha' Hu' Hx') as (_ & w' & Hw' & Hn' & ->).
  assert (w = w') as -> by (apply wallName_inj; [done|done|congruence]). done.
Qed.

Lemma Slots_sorted s loc a u : StronglySorted slotLe (Slots s loc a u).
Proof.
  unfold Slots. apply Sorted_StronglySorted; [intros x y z; unfold slotLe; lia|].
  apply Sorted_merge_sort. intros x y. unfold slotLe. lia.
Qed.

(** ** Plans *)

(** What a plan materializes is due, in the window, and behind the new watermark; the new
    watermark is the latest due slot, or the old one when none is due. *)
Lemma Plan_spec s loc policy maxb wm now pending paused mark :
  Plan s loc policy maxb wm now = (pending, paused, mark) →
  (∀ x, x ∈ (pending ++ paused)%list → x ∈ Slots s loc wm now ∧ At x ≤ mark) ∧
  (mark = wm ∧ Slots s loc wm now = [] ∨ ∃ l, last (Slots s loc wm now) = Some l ∧ mark = At l).
Proof.
  unfold Plan. pose proof (Slots_sorted s loc wm now) as Hsort.
  destruct (last (Slots s loc wm now)) as [l|] eqn:Hlast.
  2: { intros [= <- <- <-]. split; [by intros x ?%elem_of_nil|]. left. split; [done|]. by apply last_None. }
  assert (Hmax : ∀ x, x ∈ Slots s loc wm now → At x ≤ At l).
  { apply last_Some in Hlast as (pre & Heq). rewrite Heq in *. intros x Hx.
    apply elem_of_app in Hx as [Hx|Hx]; [|apply list_elem_of_singleton in Hx as ->; lia].
    eapply (StronglySorted_app_1_elem_of slotLe pre [l]); [done|done|by apply list_elem_of_singleton]. }
  assert (Hl : l ∈ Slots s loc wm now).
  { apply last_Some in Hlast as (pre & ->). apply elem_of_app. right. by apply list_elem_of_singleton. }
  destruct policy; [|case_decide|]; intros [= <- <- <-]; (split; [|right; eauto]); intros x Hx.
  - rewrite app_nil_r in Hx. apply list_elem_of_singleton in Hx as ->. auto.
  - rewrite take_drop in Hx. auto.
  - rewrite app_nil_r in Hx. auto.
  - rewrite app_nil_r in Hx. apply list_elem_of_filter in Hx as [_ Hx]. auto.
Qed.

(** Backfilling all: every due slot is materialized, the first ones to run and those past
    the limit paused. *)
Lemma Plan_all s loc maxb wm now pending paused mark :
  Plan s loc All maxb wm now = (pending, paused, mark) → (pending ++ paused)%list = Slots s loc wm now.
Proof.
  unfold Plan. destruct (last _) as [l|] eqn:Hl; [case_decide|]; intros [= <- <- _].
  - apply take_drop.
  - apply app_nil_r.
  - by apply last_None in Hl as ->.
Qed.
