(* ===== verification/WorkSys.v ===== *)
(** * Background work: a member's whole history

    [materialize] of [work/runner.go], and the system the other transactions make
    together: any number of workers, each acting for a claim it once got, current or long
    lost; operators; time; failovers that change the database epoch. Ghost fields record
    every claim, who was allowed to make a non-idempotent call, which slots became items,
    which identifiers were ever used and which items were completed. *)
From S2P Require Import Prelude GoStr CronSpec CronProps Work.
Open Scope string_scope.
Open Scope Z_scope.
Open Scope tx_scope.

Record CronJob (C E : Type) := mkCron {
  cJob : Job C E;
  cSchedule : Schedule;
  cLoc : Location;
  cBackfill : Backfill;
  cMaxBacklog : Z
}.
Arguments mkCron {C E}.
Arguments cJob {C E}.
Arguments cSchedule {C E}.
Arguments cLoc {C E}.
Arguments cBackfill {C E}.
Arguments cMaxBacklog {C E}.

Section sys.
Context {C E : Type} (durText : Z → string).
#[local] Abbreviation store := (store C).
#[local] Abbreviation M := (tx store (error E)).

Definition slotItem (j : Job C E) (sl : Slot) : string := jName j ++ "@" ++ slotID sl.

(** One group's inserts; an item already there is left alone. Answers the slots inserted. *)
Fixpoint insertSlots (j : Job C E) (newop : string → string) (st : wstate) (p : option reason) (l : list Slot)
    : M (list string) :=
  match l with
  | [] => tret []
  | sl :: l =>
      s <~ tget ;
      let id := slotItem j sl in
      if decide (items s !! id = None) then
        tmod (set_items (insert id (newItem (jName j) Cron st p (jMaxAttempts j) (jEffect j) (newop id)
          None (Some (slotID sl)) (At sl)))) ;~
        (r <~ insertSlots j newop st p l ; tret (slotID sl :: r))
      else insertSlots j newop st p l
  end.

(** The first slot after the new watermark, far ahead when the schedule has none. *)
Definition nextAfter (cj : CronJob C E) (mark wm : Z) : Z :=
  match Next (cSchedule cj) (cLoc cj) mark with Some sl => At sl | None => addYears (λ _, 0) wm 100 end.

(** A plan becomes items and the watermark moves. *)
Definition place (cj : CronJob C E) (newop : string → string) (plan : list Slot * list Slot * Z) (wm now : Z)
    : M (list string * (Z * Z)) :=
  match plan with
  | (pending, paused, mark) =>
      a <~ insertSlots (cJob cj) newop Pending None pending ;
      b <~ insertSlots (cJob cj) newop Paused (Some BacklogExceeded) paused ;
      (if decide (mark = wm) then tret tt else tmod (set_watermark (jName (cJob cj)) mark)) ;~
      tret ((a ++ b)%list, (nextAfter cj mark wm, now))
  end.

(** A job's watermark; a job seen for the first time starts now. *)
Definition watermarkOf (cj : CronJob C E) (s : store) : Z := default (clock s) (watermarks s !! jName (cJob cj)).

(** The due slots of a job become items; answers the slots inserted, and the next slot
    with the time it looked. *)
Definition materialize (cj : CronJob C E) (newop : string → string) : M (list string * (Z * Z)) :=
  s <~ tget ;
  tmod (set_watermark (jName (cJob cj)) (watermarkOf cj s)) ;~
  place cj newop (Plan (cSchedule cj) (cLoc cj) (cBackfill cj) (cMaxBacklog cj) (watermarkOf cj s) (clock s))
    (watermarkOf cj s) (clock s).

(** ** The system *)

Record sys := mkSys {
  st : store;
  runs : list Run;                      (** every claim ever given *)
  permits : list (string * Z);          (** claims that may have called: item and claim epoch *)
  made : list (string * string);        (** cron items inserted: job and slot *)
  used : gset string;                   (** identifiers ever used *)
  dones : list string                   (** items completed *)
}.

Context (jobs : gmap string (Job C E)) (crons : gmap string (CronJob C E)) (names : list string) (lease : Z).

Inductive ev :=
| EvEnqueue (job id args : string) (at_ : option Z)
| EvSingleton (job newop : string)
| EvMaterialize (job : string) (newop : string → string)
| EvClaim (holder : string)
| EvComplete (k : nat) (newop : string) (fn : option (tx C E unit))
| EvBefore (k : nat)
| EvRecord (k : nat) (key res : string)
| EvCheckpoint (k : nat) (progress newop : string) (fn : option (tx C E unit))
| EvRenew (k : nat)
| EvFinish (k : nat) (readFails : bool) (e : ending) (newop : string)
| EvRequeue (id : string) (verified : bool)
| EvResolve (id why : string)
| EvHold (id : string)
| EvPurge
| EvTick (d : N)
| EvFailover (ep : Z * Z).

(** Act for the [k]-th claim. *)
Definition withRun (y : sys) (k : nat) (f : Run → M unit) : store :=
  match runs y !! k with Some r => after (f r) (st y) | None => st y end.

(** The store a step leaves. *)
Definition next (y : sys) (e : ev) : store :=
  match e with
  | EvEnqueue job id args at_ => after (EnqueueAt jobs job id args at_) (st y)
  | EvSingleton job newop => match jobs !! job with Some j => after (ensureSingleton j newop) (st y) | None => st y end
  | EvMaterialize job newop => match crons !! job with Some cj => after (materialize cj newop) (st y) | None => st y end
  | EvClaim holder => after (claim (E:=E) names holder lease) (st y)
  | EvComplete k newop fn =>
      withRun y k (λ r, match jobs !! r_job r with Some j => Complete r (jInterval j) newop fn | None => tret tt end)
  | EvBefore k => withRun y k (λ r, BeforeCall r)
  | EvRecord k key res => withRun y k (λ r, RecordCall r key res)
  | EvCheckpoint k p newop fn => withRun y k (λ r, Checkpoint r p newop fn)
  | EvRenew k => withRun y k (λ r, renew r lease)
  | EvFinish k rf e newop =>
      withRun y k (λ r, match jobs !! r_job r with Some j => finishRun durText rf j r e newop | None => tret tt end)
  | EvRequeue id v => after (Requeue (E:=E) id v) (st y)
  | EvResolve id why => after (Resolve (E:=E) id why) (st y)
  | EvHold id => after (Hold (E:=E) id) (st y)
  | EvPurge => Purge (st y)
  | EvTick d => mkStore (items (st y)) (watermarks (st y)) (dbEpoch (st y)) (clock (st y) + Z.of_N d) (comp (st y))
  | EvFailover ep => mkStore (items (st y)) (watermarks (st y)) ep (clock (st y)) (comp (st y))
  end.

(** The claim a step gives. *)
Definition newRuns (y : sys) (e : ev) : list Run :=
  match e with
  | EvClaim holder => match commit (claim (E:=E) names holder lease) (st y) with (Ok (Some r), _) => [r] | _ => [] end
  | _ => []
  end.

(** The permit a step gives: a [BeforeCall] that returned. *)
Definition newPermits (y : sys) (e : ev) : list (string * Z) :=
  match e with
  | EvBefore k =>
      match runs y !! k with
      | Some r => if guard r (st y) then [(r_id r, r_epoch r)] else []
      | None => []
      end
  | _ => []
  end.

Definition newMade (y : sys) (e : ev) : list (string * string) :=
  match e with
  | EvMaterialize job newop =>
      match crons !! job with
      | Some cj => match commit (materialize cj newop) (st y) with
                   | (Ok (l, _), _) => map (λ sid, (jName (cJob cj), sid)) l
                   | _ => []
                   end
      | None => []
      end
  | _ => []
  end.

Definition isDone (o : option item) : bool := match o with Some w => bool_decide (w_state w = Done) | None => false end.
Definition marked (s : store) (id : string) : bool := match items s !! id with Some w => w_unknown w | None => false end.

(** A step of the system; a permit lasts until the mark of its item is cleared. *)
Definition sstep (y : sys) (e : ev) : sys :=
  let s' := next y e in
  mkSys s' (runs y ++ newRuns y e)%list
    (filter (λ p, marked s' p.1 = true) (newPermits y e ++ permits y)%list)
    (newMade y e ++ made y)%list
    (used y ∪ dom (items s'))
    (filter (λ id, isDone (items (st y) !! id) = false) (map fst (filter (λ p, w_state p.2 = Done) (map_to_list (items s')))) ++ dones y)%list.

(** What a step may not do: [ids.New] gives no identifier twice, a singleton's name and a
    slot's identifier are no other item's, and times are those of a 64-bit clock. *)
Definition allowed (y : sys) (e : ev) : Prop :=
  match e with
  | EvEnqueue _ id _ _ => id ∉ used y
  | EvSingleton job _ => ∀ j, jobs !! job = Some j → jName j ∈ used y → is_Some (items (st y) !! jName j)
  | EvMaterialize job _ => ∀ cj sl, crons !! job = Some cj → slotItem (cJob cj) sl ∈ used y →
      (jName (cJob cj), slotID sl) ∈ made y
  | EvTick d => clock (st y) + Z.of_N d ≤ int64_max
  | _ => True
  end.

Definition start (t : Z) (ep : Z * Z) (c : C) : sys := mkSys (mkStore ∅ ∅ ep t c) [] [] [] ∅ [].

Inductive reach (t0 : Z) (ep : Z * Z) (c : C) : sys → Prop :=
| reach_start : reach t0 ep c (start t0 ep c)
| reach_step y e : reach t0 ep c y → allowed y e → reach t0 ep c (sstep y e).

End sys.
