(* ===== verification/WorkProps.v ===== *)
(** * Background work: what no interleaving can break

    Over every history of the system of [WorkSys]: one claim of an item can commit, an
    item is completed once, a slot becomes an item once, and the right to make a
    non-idempotent call is one claim's until its outcome is settled. *)
From S2P Require Import Prelude GoStr CronSpec CronProps Work WorkSys.
Open Scope string_scope.
Open Scope Z_scope.
Open Scope tx_scope.
Open Scope list_scope.

Section props.
Context {C E : Type} (durText : Z → string).
Context (jobs : gmap string (Job C E)) (crons : gmap string (CronJob C E)) (names : list string) (lease : Z).

#[local] Abbreviation store := (store C).
#[local] Abbreviation sys := (sys (C:=C)).
#[local] Abbreviation ev := (@ev C E).
#[local] Abbreviation next := (next durText jobs crons names lease).
#[local] Abbreviation sstep := (sstep durText jobs crons names lease).

(** ** How one transaction changes one item *)

(** Why the mark of a possibly sent call was cleared. *)
Definition settledBy (y : sys) (e : ev) (id : string) (w : item) : Prop :=
  (∃ k r, runs y !! k = Some r ∧ r_id r = id ∧ guard r (st y) = true ∧
     ((∃ n f, e = EvComplete k n f) ∨
      ∃ rf a n, e = EvFinish k rf a n ∧
        ((∃ c t, a = Returned false c t None) ∨
         (∃ c t m, a = Returned false c t (Some (Permanent, m)) ∨ a = Returned false c t (Some (NotEffective, m)) ∨
                   a = Returned false c t (Some (Wait, m))) ∨
         rf = true ∨ ∃ j, jobs !! r_job r = Some j ∧ jEffect j ≠ NonIdempotentExternal))) ∨
  (∃ v, e = EvRequeue id v ∧ w_state w = Paused ∧ (v = true ∨ w_pause w = Some BusinessHold ∨ w_pause w = Some BacklogExceeded)).

Record upd (y : sys) (e : ev) (id : string) (w w' : item) : Prop := mkUpd {
  u_effect : w_effect w' = w_effect w;
  u_kind : w_kind w' = w_kind w;
  u_epoch : w_epoch w ≤ w_epoch w';
  u_open : w_state w ≠ Done;
  u_running : w_state w' = Running →
    (w_state w = Running ∧ w_epoch w' = w_epoch w ∧ (w_unknown w = true → w_unknown w' = true)) ∨
    ((∃ h, e = EvClaim h) ∧ w_epoch w' = w_epoch w + 1 ∧ w_unknown w' = w_unknown w ∧
       (w_effect w = NonIdempotentExternal → w_unknown w = false));
  u_done : w_state w' = Done → w_state w = Running;
  u_clear : w_unknown w = true → w_unknown w' = false → settledBy y e id w
}.

Definition created (w : item) : Prop := w_epoch w = 0 ∧ w_unknown w = false ∧ (w_state w = Pending ∨ w_state w = Paused).

Lemma exec_ok (r : Run) f fn (s : store) u s' : exec (E:=E) r f fn s = Ok (u, s') →
  guard r s = true ∧ ∃ w, items s !! r_id r = Some w ∧ w_state w = Running ∧ w_epoch w = r_epoch r ∧
    items s' = <[r_id r := f (clock s) w]> (items s) ∧ watermarks s' = watermarks s ∧ dbEpoch s' = dbEpoch s ∧ clock s' = clock s.
Proof.
  unfold exec. rewrite tbind_get. destruct (guard r s) eqn:Hg; [|done]. intros H.
  pose proof Hg as Hg'. unfold guard in Hg'. destruct (items s !! r_id r) as [w|] eqn:Hw; [|done].
  rewrite !andb_true_iff, !bool_decide_eq_true in Hg'. destruct Hg' as ((((H1 & H2) & _) & _) & _).
  assert (Halter : alter (f (clock s)) (r_id r) (items s) = <[r_id r := f (clock s) w]> (items s)).
  { apply map_eq. intros j. destruct (decide (j = r_id r)) as [->|Hne].
    - by rewrite lookup_alter_eq, lookup_insert_eq, Hw.
    - by rewrite lookup_alter_ne, lookup_insert_ne. }
  rewrite tbind_mod in H. split; [done|]. exists w. split_and!; try done.
  all: destruct fn as [g|]; [unfold business in H; simpl in H; destruct (g (comp s)) as [[a c]|]; [|done]|unfold tret in H]; simplify_eq; simpl; rewrite ?Halter; done.
Qed.

(** A guarded commit as a change of its item, when what it writes is known. *)
Lemma exec_upd y e k r f fn id : runs y !! k = Some r →
  (∀ w, guard r (st y) = true → items (st y) !! r_id r = Some w → w_state w = Running → upd y e (r_id r) w (f (clock (st y)) w)) →
  let s' := after (exec (E:=E) r f fn) (st y) in
  items s' !! id = items (st y) !! id ∨
  ∃ w w', items (st y) !! id = Some w ∧ items s' !! id = Some w' ∧ upd y e id w w'.
Proof.
  intros Hr Hu s'. destruct (after_cases (exec (E:=E) r f fn) (st y)) as [Hs|(u & s1 & Hrun & Hs)]; [left; unfold s'; by rewrite Hs|].
  destruct (exec_ok _ _ _ _ _ _ Hrun) as (Hg & w & Hw & Hst & Hep & Hit & _).
  unfold s'. rewrite Hs, Hit. destruct (decide (id = r_id r)) as [->|Hne].
  - right. exists w, (f (clock (st y)) w). rewrite lookup_insert_eq. auto.
  - left. by rewrite lookup_insert_ne.
Qed.

(** A change that keeps the claim. *)
Lemma upd_keep y e id w w' : w_state w = Running → w_state w' = Running → w_effect w' = w_effect w → w_kind w' = w_kind w →
  w_epoch w' = w_epoch w → (w_unknown w = true → w_unknown w' = true) → upd y e id w w'.
Proof. intros ? ? ? ? ? Hk. split; try congruence; [lia|auto|]. intros H5 H6. rewrite (Hk H5) in H6. done. Qed.

(** A change that gives the claim up. *)
Lemma upd_leave y e id w w' : w_state w = Running → w_state w' ≠ Running → w_effect w' = w_effect w → w_kind w' = w_kind w →
  w_epoch w' = w_epoch w → (w_unknown w = true → w_unknown w' = false → settledBy y e id w) → upd y e id w w'.
Proof. intros. split; try done; try congruence; lia. Qed.

Lemma completed_upd y e k r w newop iv now : runs y !! k = Some r → guard r (st y) = true → w_state w = Running →
  (∃ n f, e = EvComplete k n f) ∨ (∃ rf a n, e = EvFinish k rf a n ∧ ∃ c t, a = Returned false c t None) →
  upd y e (r_id r) w (completed (r_kind r) newop iv now w).
Proof.
  intros Hr Hg Hw He. assert (Hs : settledBy y e (r_id r) w).
  { left. exists k, r. split_and!; try done. destruct He as [?|(rf & a & n & -> & ?)]; [by left|right; eauto 10]. }
  destruct (r_kind r); apply upd_leave; done.
Qed.

(** The commits a failure may make. *)
Lemma fail_cases rf (j : Job C E) r kd msg (s : store) :
  (∃ m, fail durText rf j r kd msg s = dead j r m s ∧
     (kd = Permanent ∨ kd = Wait ∨ kd = NotEffective ∨ rf = true ∨ jEffect j ≠ NonIdempotentExternal ∨ marked s (r_id r) = false)) ∨
  (fail durText rf j r kd msg s = exec r (waits msg) None s) ∨
  (fail durText rf j r kd msg s = exec r (λ _, paused msg) None s) ∨
  (∃ d, fail durText rf j r kd msg s = exec r (retries msg d) None s ∧
     (kd = NotEffective ∨ rf = true ∨ jEffect j ≠ NonIdempotentExternal ∨ marked s (r_id r) = false)).
Proof.
  unfold fail. rewrite tbind_get. destruct kd.
  - left. eauto.
  - simpl. rewrite andb_false_r. simpl. case_decide; [left; eauto 10|right; right; right; eauto 10].
  - case_match; [left; eauto 10|by right; left].
  - rewrite (bool_decide_eq_true_2 (Retryable ≠ NotEffective)) by done. rewrite andb_true_r.
    destruct (bool_decide (jEffect j = NonIdempotentExternal) && unknown rf r s) eqn:Hu; [by right; right; left|].
    assert (Hwhy : rf = true ∨ jEffect j ≠ NonIdempotentExternal ∨ marked s (r_id r) = false).
    { apply andb_false_iff in Hu as [Hu|Hu]; [apply bool_decide_eq_false in Hu; auto|].
      unfold unknown in Hu. destruct rf; [by left|]. unfold marked. by right; right. }
    destruct (decide (r_max r ≤ r_attempts r)).
    + left. exists msg. split; [reflexivity|tauto].
    + right; right; right. eexists. split; [reflexivity|tauto].
Qed.

Lemma fail_upd y k r j rf kd msg id a n c t : runs y !! k = Some r → jobs !! r_job r = Some j →
  a = Returned false c t (Some (kd, msg)) ∨ kd = Retryable →
  let s' := after (fail durText rf j r kd msg) (st y) in
  items s' !! id = items (st y) !! id ∨
  ∃ w w', items (st y) !! id = Some w ∧ items s' !! id = Some w' ∧ upd y (EvFinish k rf a n) id w w'.
Proof.
  intros Hr Hj Ha. cbv zeta.
  assert (Hset : ∀ w, guard r (st y) = true → items (st y) !! r_id r = Some w → w_unknown w = true →
    kd = Permanent ∨ kd = Wait ∨ kd = NotEffective ∨ rf = true ∨ jEffect j ≠ NonIdempotentExternal ∨ marked (st y) (r_id r) = false →
    settledBy y (EvFinish k rf a n) (r_id r) w).
  { intros w Hg Hw Hu Hk. left. exists k, r. split_and!; try done. right. exists rf, a, n. split; [done|].
    destruct Hk as [->|[->|[->|[->|[Hk|Hk]]]]].
    - destruct Ha as [->|?]; [|done]. right; left. eauto 10.
    - destruct Ha as [->|?]; [|done]. right; left. eauto 10.
    - destruct Ha as [->|?]; [|done]. right; left. eauto 10.
    - by right; right; left.
    - right; right; right. eauto.
    - unfold marked in Hk. rewrite Hw in Hk. congruence. }
  assert (Hafter : ∀ m : tx store (error E) unit, fail durText rf j r kd msg (st y) = m (st y) →
    after (fail durText rf j r kd msg) (st y) = after m (st y)) by (intros m Hm; unfold after, commit; by rewrite Hm).
  destruct (fail_cases rf j r kd msg (st y)) as [(m & Hm & Hk)|[Hm|[Hm|(d & Hm & Hk)]]]; rewrite (Hafter _ Hm).
  - eapply exec_upd; [done|]. intros w Hg Hw Hst. apply upd_leave; try done. intros; eapply Hset; eauto.
  - eapply exec_upd; [done|]. intros w Hg Hw Hst. apply upd_leave; try done. simpl. congruence.
  - eapply exec_upd; [done|]. intros w Hg Hw Hst. apply upd_leave; try done. simpl. congruence.
  - eapply exec_upd; [done|]. intros w Hg Hw Hst. apply upd_leave; try done. intros; eapply Hset; eauto 10.
Qed.


(** ** How one step changes one item *)

(** Which items a step may create. *)
Definition creates (y : sys) (e : ev) (id : string) : Prop :=
  match e with
  | EvEnqueue _ i _ _ => i = id
  | EvSingleton job _ => ∃ j, jobs !! job = Some j ∧ jName j = id
  | EvMaterialize job _ => ∃ cj sl, crons !! job = Some cj ∧ slotItem (cJob cj) sl = id ∧
      sl ∈ Slots (cSchedule cj) (cLoc cj) (watermarkOf cj (st y)) (clock (st y))
  | _ => False
  end.

Definition changes (y : sys) (e : ev) (s' : store) (id : string) : Prop :=
  items s' !! id = items (st y) !! id ∨
  (∃ w w', items (st y) !! id = Some w ∧ items s' !! id = Some w' ∧ upd y e id w w') ∨
  (items (st y) !! id = None ∧ creates y e id ∧ ∃ w', items s' !! id = Some w' ∧ created w') ∨
  (items s' !! id = None ∧ ∃ w, items (st y) !! id = Some w ∧ w_state w ≠ Running).

Lemma changes_after {A} y e (m : tx store (error E) A) id :
  (∀ a s', m (st y) = Ok (a, s') → changes y e s' id) → changes y e (after m (st y)) id.
Proof. intros H. destruct (after_cases m (st y)) as [->|(a & s' & Hm & ->)]; [by left|eauto]. Qed.

Lemma changes_insert y e id id' w (s' : store) : items s' = <[id := w]> (items (st y)) →
  (items (st y) !! id = None ∧ creates y e id ∧ created w) ∨ (∃ w0, items (st y) !! id = Some w0 ∧ upd y e id w0 w) →
  changes y e s' id'.
Proof.
  intros Hit Hc. unfold changes. rewrite Hit. destruct (decide (id' = id)) as [->|Hne].
  - rewrite lookup_insert_eq. right. destruct Hc as [(H1 & H2 & H3)|(w0 & H1 & H2)]; [right; left|left]; eauto 10.
  - left. by rewrite lookup_insert_ne.
Qed.

Lemma operate_changes y e id ok f id' :
  (∀ w, items (st y) !! id = Some w → ok w = true → upd y e id w (f (clock (st y)) w)) →
  changes y e (after (operate (E:=E) id ok f) (st y)) id'.
Proof.
  intros H. apply changes_after. intros [] s' Hrun. unfold operate in Hrun. rewrite tbind_get in Hrun.
  destruct (items (st y) !! id) as [w|] eqn:Hw; [|done]. destruct (ok w) eqn:Hok; [|done]. inv_tx.
  eapply changes_insert; [done|]. right. eauto.
Qed.

Lemma candidate_spec (s : store) id w : candidate names s = Some (id, w) →
  items s !! id = Some w ∧ (w_state w = Running ∨ w_state w = Pending ∨ w_state w = RetryWait).
Proof.
  unfold candidate. intros H.
  assert (Hin : (∃ p, p = (id, w) ∧ p ∈ filter (λ p, isExpired names (clock s) p = true) (map_to_list (items s))) ∨
                (id, w) ∈ filter (λ p, isDue names (clock s) p = true) (map_to_list (items s))).
  { destruct (merge_sort leaseBefore _) as [|p l] eqn:Hm.
    - right. apply head_Some_elem_of in H. by rewrite merge_sort_Permutation in H.
    - left. injection H as ->. exists (id, w). split; [done|]. rewrite <- (merge_sort_Permutation leaseBefore), Hm. left. }
  destruct Hin as [(p & -> & Hin)|Hin]; apply list_elem_of_filter in Hin as [Hc Hin]; apply elem_of_map_to_list in Hin;
    (split; [done|]).
  - left. unfold isExpired in Hc. rewrite !andb_true_iff, !bool_decide_eq_true in Hc. tauto.
  - right. unfold isDue in Hc. rewrite !andb_true_iff, orb_true_iff, !bool_decide_eq_true in Hc. tauto.
Qed.

Lemma claim_changes y h id : changes y (EvClaim h) (after (claim (E:=E) names h lease) (st y)) id.
Proof.
  apply changes_after. intros o s' Hrun. unfold claim in Hrun. rewrite tbind_get in Hrun.
  destruct (candidate names (st y)) as [[i w]|] eqn:Hc; [|inv_tx; by left].
  destruct (candidate_spec _ _ _ Hc) as [Hw Hst].
  assert (Hnd : w_state w ≠ Done) by (destruct Hst as [->|[->| ->]]; done).
  destruct (bool_decide (w_effect w = NonIdempotentExternal) && w_unknown w) eqn:Hu; inv_tx.
  - eapply changes_insert; [done|]. right. exists w. split; [done|]. split; simpl; try done; [lia|congruence].
  - eapply changes_insert; [done|]. right. exists w. split; [done|]. split; simpl; try done; [lia| |congruence].
    intros _. right. split_and!; [eauto|done|done|]. intros He. rewrite He in Hu. simpl in Hu. done.
Qed.

Lemma insertSlots_items j newop sst p l (s s' : store) a : sst = Pending ∨ sst = Paused →
  insertSlots (E:=E) j newop sst p l s = Ok (a, s') →
  watermarks s' = watermarks s ∧ clock s' = clock s ∧ dbEpoch s' = dbEpoch s ∧
  ∀ id, items s' !! id = items s !! id ∨ (items s !! id = None ∧ (∃ sl, sl ∈ l ∧ slotItem j sl = id) ∧ ∃ w, items s' !! id = Some w ∧ created w).
Proof.
  intros Hst. revert s s' a. induction l as [|sl l IH]; intros s s' a H; simpl in H; [inv_tx; split_and!; auto|].
  rewrite tbind_get in H. case_decide as Hn.
  - inv_tx. destruct (IH _ _ _ Hrun) as (H1 & H2 & H3 & H4). split_and!; [done..|]. intros id.
    destruct (decide (id = slotItem j sl)) as [->|Hne].
    + right. split; [done|]. split; [exists sl; set_solver|].
      destruct (H4 (slotItem j sl)) as [Heq|[Heq _]]; simpl in Heq; rewrite lookup_insert_eq in Heq; [|done].
      eexists. split; [exact Heq|]. by split_and!.
    + specialize (H4 id). simpl in H4. rewrite lookup_insert_ne in H4 by done.
      destruct H4 as [?|(? & (sl' & ? & ?) & ?)]; [by left|right; split_and!; [done|exists sl'; set_solver|done]].
  - destruct (IH _ _ _ H) as (H1 & H2 & H3 & H4). split_and!; try done. intros id.
    destruct (H4 id) as [?|(? & (sl' & ? & ?) & ?)]; [by left|right; split_and!; [done|exists sl'; set_solver|done]].
Qed.

Lemma place_items cj newop pending paused mark wm now a (s s' : store) :
  place (E:=E) cj newop (pending, paused, mark) wm now s = Ok (a, s') →
  (∀ id, items s' !! id = items s !! id ∨
     (items s !! id = None ∧ (∃ sl, sl ∈ pending ++ paused ∧ slotItem (cJob cj) sl = id) ∧ ∃ w, items s' !! id = Some w ∧ created w)) ∧
  clock s' = clock s ∧
  watermarks s' = if decide (mark = wm) then watermarks s else <[jName (cJob cj) := mark]> (watermarks s).
Proof.
  intros Hrun. unfold place in Hrun.
  apply tbind_ok in Hrun as (l1 & s1 & H1 & Hrun). apply tbind_ok in Hrun as (l2 & s2 & H2 & Hrun).
  apply tbind_ok in Hrun as ([] & s3 & H3 & Hrun). unfold tret in Hrun. injection Hrun as _ <-.
  destruct (insertSlots_items _ _ _ _ _ _ _ _ (or_introl eq_refl) H1) as (Hw1 & Hc1 & _ & Hi1).
  destruct (insertSlots_items _ _ _ _ _ _ _ _ (or_intror eq_refl) H2) as (Hw2 & Hc2 & _ & Hi2).
  assert (Hi3 : items s3 = items s2 ∧ clock s3 = clock s2 ∧
    watermarks s3 = if decide (mark = wm) then watermarks s2 else <[jName (cJob cj) := mark]> (watermarks s2))
    by (case_decide; inv_tx; done).
  destruct Hi3 as (Hi3 & Hc3 & Hw3). split_and!.
  - intros id. rewrite Hi3. specialize (Hi1 id). specialize (Hi2 id).
    destruct Hi1 as [Hi1|(Hi1 & (sl & Hsl & He) & w & Hw & Hc)], Hi2 as [Hi2|(Hi2 & (sl' & Hsl' & He') & w' & Hw' & Hc')].
    + left. congruence.
    + right. split; [congruence|]. split; [exists sl'; set_solver|eauto].
    + right. split; [done|]. split; [exists sl; set_solver|]. exists w. split; [congruence|done].
    + congruence.
  - congruence.
  - rewrite Hw3, Hw2, Hw1. done.
Qed.

Lemma materialize_ok cj newop a (s s' : store) : materialize (E:=E) cj newop s = Ok (a, s') →
  ∃ pending paused mark, Plan (cSchedule cj) (cLoc cj) (cBackfill cj) (cMaxBacklog cj) (watermarkOf cj s) (clock s) = (pending, paused, mark) ∧
  place cj newop (pending, paused, mark) (watermarkOf cj s) (clock s)
    (set_watermark (jName (cJob cj)) (watermarkOf cj s) s) = Ok (a, s').
Proof.
  unfold materialize. rewrite tbind_get, tbind_mod. destruct (Plan _ _ _ _ _ _) as [[pending paused] mark] eqn:Hp. eauto.
Qed.

Lemma materialize_changes y job cj newop id : crons !! job = Some cj →
  changes y (EvMaterialize job newop) (after (materialize (E:=E) cj newop) (st y)) id.
Proof.
  intros Hcj. apply changes_after. intros a s' Hrun. apply materialize_ok in Hrun as (pending & pz & mark & Hplan & Hrun).
  apply place_items in Hrun as (Hi & _). specialize (Hi id). simpl in Hi. destruct (Plan_spec _ _ _ _ _ _ _ _ _ Hplan) as [Hin _].
  destruct Hi as [Hi|(Hn & (sl & Hsl & Hid) & Hw)]; [by left|]. right; right; left. split; [done|]. split; [|done].
  exists cj, sl. split_and!; [done|done|]. by apply Hin.
Qed.

(** Act for a claim whose commit is known to change its item only. *)
Lemma withRun_changes y e k (f : Run → tx store (error E) unit) id :
  (∀ r, runs y !! k = Some r → items (after (f r) (st y)) !! id = items (st y) !! id ∨
     ∃ w w', items (st y) !! id = Some w ∧ items (after (f r) (st y)) !! id = Some w' ∧ upd y e id w w') →
  changes y e (withRun y k f) id.
Proof.
  intros H. unfold withRun. destruct (runs y !! k) as [r|] eqn:Hr; [|by left].
  destruct (H r eq_refl) as [?|?]; [by left|by right; left].
Qed.

Lemma finish_changes y k rf a n id :
  changes y (EvFinish k rf a n)
    (withRun y k (λ r, match jobs !! r_job r with Some j => finishRun durText rf j r a n | None => tret tt end)) id.
Proof.
  apply withRun_changes. intros r Hr. destruct (jobs !! r_job r) as [j|] eqn:Hj; [|by left].
  unfold finishRun. destruct a as [|lost cancelled timedOut err].
  - eapply exec_upd; [done|]. intros w Hg Hw Hst. by apply upd_keep.
  - destruct lost; simpl; [by left|]. destruct (cancelled && negb timedOut && negb (r_completed r)); [by left|].
    destruct (timedOut && negb (r_completed r)) eqn:Ht.
    + apply (fail_upd y k r j rf Retryable _ id _ n cancelled timedOut Hr Hj). by right.
    + destruct err as [[kd msg]|].
      * eapply fail_upd; [done|done|by left].
      * destruct (r_completed r); [by left|]. eapply exec_upd; [done|]. intros w Hg Hw Hst.
        eapply completed_upd; [done|done|done|]. right. eauto 10.
Qed.

Lemma Requeue_changes y id v id' : changes y (EvRequeue id v) (after (Requeue (E:=E) id v) (st y)) id'.
Proof.
  apply operate_changes. intros w Hw Hok.
  assert (Hcase : (w_state w = Dead ∧ w_unknown w = false) ∨
    (w_state w = Paused ∧ (v = true ∨ w_pause w = Some BusinessHold ∨ w_pause w = Some BacklogExceeded))).
  { rewrite !orb_true_iff, !andb_true_iff, orb_true_iff, negb_true_iff, !bool_decide_eq_true in Hok. tauto. }
  split; simpl; try done; try lia.
  - destruct Hcase as [[-> _]|[-> _]]; done.
  - intros Hu _. destruct Hcase as [[_ Hf]|Hp]; [congruence|]. right. exists v. split; [done|tauto].
Qed.

Lemma next_changes y e id : changes y e (next y e) id.
Proof.
  destruct e as [job i args at_|job newop|job newop|h|k newop fn|k|k key re|k p newop fn|k|k rf a n|i v|i why|i| |d|ep]; unfold WorkSys.next.
  - apply changes_after. intros a s' H. unfold EnqueueAt in H. destruct (jobs !! job) as [j|]; [|done].
    case_decide; [done|]. rewrite tbind_get in H. case_decide as Hn; [|done]. inv_tx.
    eapply changes_insert; [done|]. left. split; [done|]. split; [done|]. split_and!; auto.
  - destruct (jobs !! job) as [j|] eqn:Hj; [|by left]. apply changes_after. intros a s' H. unfold ensureSingleton in H.
    rewrite tbind_get in H. case_decide as Hn; inv_tx; [|by left].
    eapply changes_insert; [done|]. left. split; [done|]. split; [by exists j|]. split_and!; auto.
  - destruct (crons !! job) as [cj|] eqn:Hcj; [|by left]. by apply materialize_changes.
  - apply claim_changes.
  - apply withRun_changes. intros r Hr. destruct (jobs !! r_job r) as [j|]; [|by left].
    eapply exec_upd; [done|]. intros w Hg Hw Hst. eapply completed_upd; eauto.
  - apply withRun_changes. intros r Hr. eapply exec_upd; [done|]. intros w Hg Hw Hst. by apply upd_keep.
  - apply withRun_changes. intros r Hr. eapply exec_upd; [done|]. intros w Hg Hw Hst. by apply upd_keep.
  - apply withRun_changes. intros r Hr. eapply exec_upd; [done|]. intros w Hg Hw Hst. by apply upd_keep.
  - apply withRun_changes. intros r Hr. eapply exec_upd; [done|]. intros w Hg Hw Hst. by apply upd_keep.
  - apply finish_changes.
  - apply Requeue_changes.
  - apply operate_changes. intros w Hw Hok. rewrite orb_true_iff, !bool_decide_eq_true in Hok.
    split; simpl; try done; try lia; [destruct Hok as [-> | ->]; done|congruence].
  - apply operate_changes. intros w Hw Hok. rewrite orb_true_iff, !bool_decide_eq_true in Hok.
    split; simpl; try done; try lia; [destruct Hok as [-> | ->]; done|congruence].
  - unfold Purge, changes. simpl. rewrite map_lookup_filter. destruct (items (st y) !! id) as [w|] eqn:Hw; simpl; [|by left].
    destruct (decide (purgeable (st y) w = false)) as [Hp|Hp]; [left; by rewrite option_guard_True|].
    right; right; right. rewrite option_guard_False by done. split; [done|]. exists w. split; [done|].
    intros Hr. apply Hp. unfold purgeable. by rewrite Hr.
  - by left.
  - by left.
Qed.

(** ** The invariant *)

Context (Hcrons : ∀ job cj, crons !! job = Some cj → jName (cJob cj) = job ∧ wfSchedule (cSchedule cj)).

Definition key (r : Run) : string * Z := (r_id r, r_epoch r).

Record SInv (y : sys) : Prop := mkSInv {
  i_used : ∀ id, is_Some (items (st y) !! id) → id ∈ used y;
  i_runs_used : ∀ r, r ∈ runs y → r_id r ∈ used y;
  i_epoch : ∀ r w, r ∈ runs y → items (st y) !! r_id r = Some w → r_epoch r ≤ w_epoch w;
  i_runs : NoDup (map key (runs y));
  i_marked : ∀ p, p ∈ permits y → marked (st y) p.1 = true;
  i_permits : ∀ id e w, (id, e) ∈ permits y → items (st y) !! id = Some w → w_effect w = NonIdempotentExternal →
    w_state w = Running → w_epoch w = e;
  i_one : ∀ id e e' w, (id, e) ∈ permits y → (id, e') ∈ permits y → items (st y) !! id = Some w →
    w_effect w = NonIdempotentExternal → e = e';
  i_dones : ∀ id, id ∈ dones y → id ∈ used y ∧ ∀ w, items (st y) !! id = Some w → w_state w = Done;
  i_dones_once : NoDup (dones y);
  i_time : 0 ≤ clock (st y) ≤ int64_max ∧ ∀ job m, watermarks (st y) !! job = Some m → 0 ≤ m;
  i_made : ∀ job sid, (job, sid) ∈ made y → ∃ cj m x a u, crons !! job = Some cj ∧ watermarks (st y) !! job = Some m ∧
    0 ≤ a ∧ u ≤ int64_max ∧ x ∈ Slots (cSchedule cj) (cLoc cj) a u ∧ slotID x = sid ∧ At x ≤ m;
  i_made_once : NoDup (made y)
}.

(** A slot due now was never an item. *)
Lemma due_not_made y job cj sl : SInv y → crons !! job = Some cj →
  sl ∈ Slots (cSchedule cj) (cLoc cj) (watermarkOf cj (st y)) (clock (st y)) → (job, slotID sl) ∉ made y.
Proof.
  intros Hi Hcj Hsl Hm. destruct (Hcrons _ _ Hcj) as [Hname Hwf]. destruct (i_time _ Hi) as [Hclk Hwm].
  destruct (i_made _ Hi _ _ Hm) as (cj' & m & x & a & u & Hcj' & Hw & Ha & Hu & Hx & Hid & Hle).
  rewrite Hcj in Hcj'. injection Hcj' as <-.
  assert (Hmark : watermarkOf cj (st y) = m) by (unfold watermarkOf; by rewrite Hname, Hw).
  rewrite Hmark in Hsl. assert (Hm0 : 0 ≤ m) by by eapply Hwm.
  destruct (Slots_spec _ _ _ _ _ Hwf Hm0 (proj2 Hclk) Hsl) as [[Hlt _] _].
  pose proof (Slots_same _ _ _ _ _ _ _ _ Hwf Hm0 (proj2 Hclk) Ha Hu Hsl Hx (eq_sym Hid)). lia.
Qed.

Lemma creates_fresh y e id : SInv y → allowed jobs crons y e → items (st y) !! id = None → creates y e id → id ∉ used y.
Proof.
  intros Hi Hok Hn Hc Hu. destruct e; simpl in *; try done.
  - by subst.
  - destruct Hc as (j & Hj & <-). destruct (Hok _ Hj Hu). congruence.
  - destruct Hc as (cj & sl & Hcj & <- & Hsl). pose proof (Hok _ _ Hcj Hu) as Hm.
    destruct (Hcrons _ _ Hcj) as [Hname _]. rewrite Hname in Hm. by eapply due_not_made.
Qed.

(** What a claim gives: a new epoch of an item there is. *)
Lemma newRuns_spec (y : sys) (e : ev) r : r ∈ newRuns names lease y e → ∃ w, items (st y) !! r_id r = Some w ∧ r_epoch r = w_epoch w + 1 ∧
  (∃ h, e = EvClaim h) ∧ ∃ w', items (next y e) !! r_id r = Some w' ∧ w_epoch w' = r_epoch r.
Proof.
  unfold newRuns. destruct e; try (by intros ?%elem_of_nil). unfold commit.
  destruct (claim names holder lease (st y)) as [[[r0|] s']|] eqn:Hrun; intros Hr; try (by apply elem_of_nil in Hr).
  apply list_elem_of_singleton in Hr as ->. unfold WorkSys.next. rewrite (after_ok _ _ _ _ Hrun).
  unfold claim in Hrun. rewrite tbind_get in Hrun.
  destruct (candidate names (st y)) as [[i w]|] eqn:Hc; [|by inv_tx]. destruct (candidate_spec _ _ _ Hc) as [Hw _].
  destruct (_ && _); inv_tx; simpl. exists w. split_and!; [done|done|eauto|]. eexists. by rewrite lookup_insert_eq.
Qed.

Lemma newRuns_NoDup (y : sys) (e : ev) : NoDup (map key (newRuns names lease y e)).
Proof.
  unfold newRuns. destruct e; try apply NoDup_nil_2. destruct (commit _ _) as [[[r|]|] ?]; try apply NoDup_nil_2.
  simpl. apply NoDup_singleton.
Qed.

(** ** The invariant holds *)

Section preserved.
Context (y : sys) (e : ev) (Hi : SInv y) (Hok : allowed jobs crons y e).

(** An item after the step: as it was, changed, or new. *)
Lemma after_item id w' : items (next y e) !! id = Some w' →
  (∃ w, items (st y) !! id = Some w ∧ (w' = w ∨ upd y e id w w')) ∨
  (items (st y) !! id = None ∧ id ∉ used y ∧ created w').
Proof.
  intros Hw'. destruct (next_changes y e id) as [H|[(w & w1 & H1 & H2 & H3)|[(H1 & H2 & w1 & H3 & H4)|[H1 _]]]].
  - left. rewrite H in Hw'. eauto.
  - left. exists w. split; [done|]. right. congruence.
  - right. split_and!; [done|by eapply creates_fresh|congruence].
  - congruence.
Qed.

Lemma keep_used id : is_Some (items (next y e) !! id) → id ∈ used (sstep y e).
Proof. intros [w Hw]. simpl. apply elem_of_union. right. apply elem_of_dom. eauto. Qed.

Lemma keep_runs_used r : r ∈ runs (sstep y e) → r_id r ∈ used (sstep y e).
Proof.
  simpl. rewrite elem_of_app, elem_of_union. intros [Hr|Hr]; [left; by apply (i_runs_used _ Hi)|].
  apply newRuns_spec in Hr as (w & Hw & _). left. apply (i_used _ Hi). eauto.
Qed.

Lemma keep_epoch r w : r ∈ runs (sstep y e) → items (next y e) !! r_id r = Some w → r_epoch r ≤ w_epoch w.
Proof.
  simpl. rewrite elem_of_app. intros [Hr|Hr] Hw.
  - destruct (after_item _ _ Hw) as [(w0 & H0 & H1)|(_ & Hn & _)].
    + pose proof (i_epoch _ Hi _ _ Hr H0). destruct H1 as [->|H1]; [done|]. destruct H1. lia.
    + exfalso. apply Hn. by apply (i_runs_used _ Hi).
  - apply newRuns_spec in Hr as (w0 & _ & _ & _ & w' & Hw' & He). rewrite Hw in Hw'. injection Hw' as ->. lia.
Qed.

Lemma keep_runs : NoDup (map key (runs (sstep y e))).
Proof.
  simpl. rewrite map_app. apply NoDup_app. split_and!; [apply (i_runs _ Hi)| |apply newRuns_NoDup].
  intros p Hp Hq. apply list_elem_of_fmap in Hp as (r & -> & Hr). apply list_elem_of_fmap in Hq as (r' & Heq & Hr').
  apply newRuns_spec in Hr' as (w & Hw & He & _). unfold key in Heq. injection Heq as H1 H2.
  rewrite <- H1 in Hw. pose proof (i_epoch _ Hi _ _ Hr Hw). lia.
Qed.

Lemma keep_marked p : p ∈ permits (sstep y e) → marked (next y e) p.1 = true.
Proof. simpl. intros Hp. by apply list_elem_of_filter in Hp as [? _]. Qed.

(** A permit after the step is an old one, or of the claim that holds the item. *)
Lemma permit_origin id n : (id, n) ∈ permits (sstep y e) → (id, n) ∈ permits y ∨
  ∃ w w', items (st y) !! id = Some w ∧ w_state w = Running ∧ w_epoch w = n ∧
    items (next y e) !! id = Some w' ∧ w_epoch w' = n ∧ w_effect w' = w_effect w.
Proof.
  simpl. intros Hp. apply list_elem_of_filter in Hp as [_ Hp]. apply elem_of_app in Hp as [Hp|Hp]; [|by left]. right.
  unfold newPermits in Hp. destruct e as [| | | | |k| | | | | | | | | |]; try (by apply elem_of_nil in Hp).
  destruct (runs y !! k) as [r|] eqn:Hr; [|by apply elem_of_nil in Hp].
  destruct (guard r (st y)) eqn:Hg; [|by apply elem_of_nil in Hp]. apply list_elem_of_singleton in Hp. injection Hp as -> ->.
  unfold WorkSys.next, withRun. rewrite Hr. unfold BeforeCall.
  assert (Hrun : ∃ u s', exec (E:=E) r (λ _, set_unknown true) None (st y) = Ok (u, s')).
  { unfold exec. rewrite tbind_get, Hg. by do 2 eexists. }
  destruct Hrun as (u & s' & Hrun). rewrite (after_ok _ _ _ _ Hrun).
  destruct (exec_ok _ _ _ _ _ _ Hrun) as (_ & w & Hw & Hst & Hep & Hit & _).
  exists w, (set_unknown true w). rewrite Hit, lookup_insert_eq. done.
Qed.

Lemma keep_permits id n w : (id, n) ∈ permits (sstep y e) → items (next y e) !! id = Some w →
  w_effect w = NonIdempotentExternal → w_state w = Running → w_epoch w = n.
Proof.
  intros Hp Hw He Hst. destruct (permit_origin _ _ Hp) as [Hold|(w0 & w1 & _ & _ & _ & H1 & H2 & _)]; [|congruence].
  pose proof (i_marked _ Hi _ Hold) as Hm. unfold marked in Hm. simpl in Hm.
  destruct (after_item _ _ Hw) as [(w0 & H0 & H1)|(H0 & _)]; [|by rewrite H0 in Hm].
  rewrite H0 in Hm. destruct H1 as [->|H1]; [by eapply (i_permits _ Hi)|].
  destruct (u_running _ _ _ _ _ H1 Hst) as [(Hr & Hep & _)|(_ & _ & _ & Hu)].
  - rewrite Hep. eapply (i_permits _ Hi); [exact Hold|done| |done]. by rewrite <- (u_effect _ _ _ _ _ H1).
  - rewrite Hu in Hm; [done|]. by rewrite <- (u_effect _ _ _ _ _ H1).
Qed.

Lemma keep_one id n n' w : (id, n) ∈ permits (sstep y e) → (id, n') ∈ permits (sstep y e) →
  items (next y e) !! id = Some w → w_effect w = NonIdempotentExternal → n = n'.
Proof.
  intros Hp Hp' Hw He.
  assert (Heff : ∀ w0, items (st y) !! id = Some w0 → w_effect w0 = NonIdempotentExternal).
  { intros w0 H0. destruct (after_item _ _ Hw) as [(w1 & H1 & H2)|(H1 & _)]; [|congruence].
    rewrite H0 in H1. injection H1 as <-. destruct H2 as [->|H2]; [done|]. by rewrite <- (u_effect _ _ _ _ _ H2). }
  assert (Hmix : ∀ a b w0, (id, a) ∈ permits y → items (st y) !! id = Some w0 → w_state w0 = Running → w_epoch w0 = b → a = b).
  { intros a b w0 Ha H0 Hst Hb. symmetry. rewrite <- Hb. eapply (i_permits _ Hi); eauto. }
  destruct (permit_origin _ _ Hp) as [Ho|(w0 & w1 & H0 & Hs & Hn & _)],
    (permit_origin _ _ Hp') as [Ho'|(w0' & w1' & H0' & Hs' & Hn' & _)].
  - pose proof (i_marked _ Hi _ Ho) as Hm. unfold marked in Hm. simpl in Hm.
    destruct (items (st y) !! id) as [w0|] eqn:H0; [|done]. eapply (i_one _ Hi); eauto.
  - by eapply Hmix.
  - symmetry. by eapply Hmix.
  - congruence.
Qed.

Lemma keep_dones id : id ∈ dones (sstep y e) → id ∈ used (sstep y e) ∧ ∀ w, items (next y e) !! id = Some w → w_state w = Done.
Proof.
  simpl. rewrite elem_of_app. intros [Hd|Hd].
  - apply list_elem_of_filter in Hd as [_ Hd]. apply selected_elem in Hd as (w & Hw & Hst). simpl in Hst.
    split; [apply elem_of_union; right; apply elem_of_dom; eauto|]. congruence.
  - destruct (i_dones _ Hi _ Hd) as [Hu Hall]. split; [set_solver|]. intros w Hw.
    destruct (after_item _ _ Hw) as [(w0 & H0 & [->|H1])|(_ & Hn & _)]; [by apply Hall| |done].
    destruct (u_open _ _ _ _ _ H1). by apply Hall.
Qed.

Lemma keep_dones_once : NoDup (dones (sstep y e)).
Proof.
  simpl. apply NoDup_app. split_and!; [apply NoDup_filter, selected_NoDup| |apply (i_dones_once _ Hi)].
  intros id Hd Hold. apply list_elem_of_filter in Hd as [Hnd Hd]. apply selected_elem in Hd as (w & Hw & Hst). simpl in Hst.
  destruct (i_dones _ Hi _ Hold) as [Hu Hall].
  destruct (after_item _ _ Hw) as [(w0 & H0 & H1)|(_ & Hn & _)]; [|done].
  rewrite H0 in Hnd. simpl in Hnd. rewrite (Hall _ H0) in Hnd. done.
Qed.

End preserved.

(** ** Time and watermarks *)

Definition timeless (s s' : store) : Prop := clock s' = clock s ∧ watermarks s' = watermarks s.

Lemma timeless_after {A} (m : tx store (error E) A) s : (∀ a s', m s = Ok (a, s') → timeless s s') → timeless s (after m s).
Proof. intros H. destruct (after_cases m s) as [->|(a & s' & Hm & ->)]; [done|eauto]. Qed.

Lemma timeless_exec r f fn (s : store) : timeless s (after (exec (E:=E) r f fn) s).
Proof. apply timeless_after. intros a s' H. apply exec_ok in H as (_ & w & _ & _ & _ & _ & H1 & _ & H2). done. Qed.

Lemma timeless_fail rf (j : Job C E) r kd msg (s : store) : timeless s (after (fail durText rf j r kd msg) s).
Proof.
  assert (Hafter : ∀ m : tx store (error E) unit, fail durText rf j r kd msg s = m s →
    after (fail durText rf j r kd msg) s = after m s) by (intros m Hm; unfold after, commit; by rewrite Hm).
  destruct (fail_cases rf j r kd msg s) as [(m & Hm & _)|[Hm|[Hm|(d & Hm & _)]]]; rewrite (Hafter _ Hm); apply timeless_exec.
Qed.

Lemma timeless_operate id ok f (s : store) : timeless s (after (operate (E:=E) id ok f) s).
Proof. apply timeless_after. intros [] s' H. unfold operate in H. rewrite tbind_get in H. repeat case_match; try done; inv_tx; done. Qed.

Lemma timeless_run y k (f : Run → tx store (error E) unit) : (∀ r, timeless (st y) (after (f r) (st y))) → timeless (st y) (withRun y k f).
Proof. intros H. unfold withRun. destruct (runs y !! k); [apply H|done]. Qed.

(** Only materializing moves a watermark, only time passing the clock. *)
Lemma next_timeless y e : (∀ d, e ≠ EvTick d) → (∀ job op, e ≠ EvMaterialize job op) → timeless (st y) (next y e).
Proof.
  intros Ht Hm.
  destruct e as [job i args at_|job newop|job newop|h|k newop fn|k|k key0 re|k p newop fn|k|k rf a n|i v|i why|i| |d|ep]; unfold WorkSys.next.
  - apply timeless_after. intros a s' H. unfold EnqueueAt in H. destruct (jobs !! job) as [j|]; [|done].
    case_decide; [done|]. rewrite tbind_get in H. case_decide as Hn; [|done]. by inv_tx.
  - destruct (jobs !! job) as [j|]; [|done]. apply timeless_after. intros a s' H. unfold ensureSingleton in H.
    rewrite tbind_get in H. case_decide; by inv_tx.
  - by destruct (Hm job newop).
  - apply timeless_after. intros a s' H. unfold claim in H. rewrite tbind_get in H.
    destruct (candidate names (st y)) as [[i w]|]; [|by inv_tx]. destruct (_ && _); by inv_tx.
  - apply timeless_run. intros r. destruct (jobs !! r_job r) as [j|]; [apply timeless_exec|done].
  - apply timeless_run. intros r. apply timeless_exec.
  - apply timeless_run. intros r. apply timeless_exec.
  - apply timeless_run. intros r. apply timeless_exec.
  - apply timeless_run. intros r. apply timeless_exec.
  - apply timeless_run. intros r. destruct (jobs !! r_job r) as [j|]; [|done]. unfold finishRun.
    destruct a as [|lost cancelled timedOut err]; [apply timeless_exec|].
    destruct (lost || _); [done|]. destruct (timedOut && _); [apply timeless_fail|].
    destruct err as [[kd msg]|]; [apply timeless_fail|]. destruct (r_completed r); [done|apply timeless_exec].
  - apply timeless_operate.
  - apply timeless_operate.
  - apply timeless_operate.
  - done.
  - by destruct (Ht d).
  - done.
Qed.

(** ** Slots become items once *)

Lemma insertSlots_mono j newop sst p l (s s' : store) a : insertSlots (E:=E) j newop sst p l s = Ok (a, s') →
  ∀ id, is_Some (items s !! id) → is_Some (items s' !! id).
Proof.
  revert s s' a. induction l as [|sl l IH]; intros s s' a H id Hid; simpl in H; [by inv_tx|].
  rewrite tbind_get in H. case_decide as Hn; [|by eapply IH]. inv_tx. eapply IH; [exact Hrun|]. simpl.
  destruct (decide (id = slotItem j sl)) as [->|Hne]; [rewrite lookup_insert_eq; eauto|by rewrite lookup_insert_ne].
Qed.

(** What one group inserts: slots of the group without an item, each once. *)
Lemma insertSlots_made j newop sst p l (s s' : store) a : insertSlots (E:=E) j newop sst p l s = Ok (a, s') →
  NoDup a ∧ ∀ sid, sid ∈ a → ∃ sl, sl ∈ l ∧ slotID sl = sid ∧ items s !! slotItem j sl = None ∧ is_Some (items s' !! slotItem j sl).
Proof.
  revert s s' a. induction l as [|sl l IH]; intros s s' a H; simpl in H.
  { inv_tx. split; [constructor|by intros sid ?%elem_of_nil]. }
  rewrite tbind_get in H. case_decide as Hn.
  - inv_tx. destruct (IH _ _ _ Hrun) as [Hnd Hin].
    assert (Hold : ∀ sl', items (set_items (insert (slotItem j sl)
        (newItem (jName j) Cron sst p (jMaxAttempts j) (jEffect j) (newop (slotItem j sl)) None (Some (slotID sl)) (At sl))) s) !! slotItem j sl' = None →
      slotItem j sl' ≠ slotItem j sl ∧ items s !! slotItem j sl' = None).
    { intros sl'. simpl. rewrite lookup_insert_None. naive_solver. }
    split.
    + constructor; [|done]. intros Hsid. destruct (Hin _ Hsid) as (sl' & _ & Hid & Hnone & _).
      apply Hold in Hnone as [Hne _]. apply Hne. unfold slotItem. by rewrite Hid.
    + intros sid Hsid. apply elem_of_cons in Hsid as [->|Hsid].
      * exists sl. split_and!; [set_solver|done|done|].
        pose proof (insertSlots_mono _ _ _ _ _ _ _ _ Hrun (slotItem j sl)) as Hmono. apply Hmono. simpl. rewrite lookup_insert_eq. eauto.
      * destruct (Hin _ Hsid) as (sl' & H1 & H2 & H3 & H4). apply Hold in H3 as [_ H3]. exists sl'. split_and!; try done. set_solver.
  - destruct (IH _ _ _ H) as [Hnd Hin]. split; [done|]. intros sid Hsid.
    destruct (Hin _ Hsid) as (sl' & H1 & H2 & H3 & H4). exists sl'. split_and!; try done. set_solver.
Qed.

(** One materialization: the slots it makes are due, each once, and behind the watermark
    it leaves, which does not go back. *)
Lemma materialize_made y job cj newop l t s' : SInv y → crons !! job = Some cj →
  materialize (E:=E) cj newop (st y) = Ok ((l, t), s') →
  NoDup l ∧ clock s' = clock (st y) ∧ ∃ m, watermarkOf cj (st y) ≤ m ∧ watermarks s' = <[job := m]> (watermarks (st y)) ∧
    ∀ sid, sid ∈ l → ∃ sl, sl ∈ Slots (cSchedule cj) (cLoc cj) (watermarkOf cj (st y)) (clock (st y)) ∧ slotID sl = sid ∧ At sl ≤ m.
Proof.
  intros Hi Hcj Hrun. destruct (Hcrons _ _ Hcj) as [Hname Hwf]. destruct (i_time _ Hi) as [Hclk Hwm].
  apply materialize_ok in Hrun as (pending & pz & mark & Hplan & Hrun).
  destruct (Plan_spec _ _ _ _ _ _ _ _ _ Hplan) as [Hin Hmark].
  pose proof (place_items _ _ _ _ _ _ _ _ _ _ Hrun) as (_ & Hc & Hw). simpl in Hc, Hw. rewrite Hname in Hw.
  unfold place in Hrun. apply tbind_ok in Hrun as (l1 & s1 & H1 & Hrun). apply tbind_ok in Hrun as (l2 & s2 & H2 & Hrun).
  apply tbind_ok in Hrun as ([] & s3 & H3 & Hrun). unfold tret in Hrun. injection Hrun as <- _ <-.
  destruct (insertSlots_made _ _ _ _ _ _ _ _ H1) as [Hnd1 Hin1]. destruct (insertSlots_made _ _ _ _ _ _ _ _ H2) as [Hnd2 Hin2].
  assert (Hwm0 : 0 ≤ watermarkOf cj (st y)).
  { unfold watermarkOf. rewrite Hname. destruct (watermarks (st y) !! job) as [m|] eqn:Hm; simpl; [by eapply Hwm|lia]. }
  split_and!.
  - apply NoDup_app. split_and!; [done| |done]. intros sid Hs1 Hs2.
    destruct (Hin1 _ Hs1) as (sl & _ & Hid & _ & Hsome), (Hin2 _ Hs2) as (sl' & _ & Hid' & Hnone & _).
    unfold slotItem in *. rewrite Hid' in Hnone. rewrite Hid in Hsome. destruct Hsome. congruence.
  - done.
  - exists mark. split_and!.
    + destruct Hmark as [[-> _]|(x & Hx & ->)]; [done|]. apply last_Some_elem_of in Hx.
      destruct (Slots_spec _ _ _ _ _ Hwf Hwm0 (proj2 Hclk) Hx) as [[Hlt _] _]. lia.
    + rewrite Hw. case_decide as Hd; [by subst|]. by rewrite insert_insert_eq.
    + intros sid Hs. apply elem_of_app in Hs as [Hs|Hs].
      * destruct (Hin1 _ Hs) as (sl & Hsl & Hid & _). exists sl. destruct (Hin sl) as [HS Hle]; [by apply elem_of_app; left|]. done.
      * destruct (Hin2 _ Hs) as (sl & Hsl & Hid & _). exists sl. destruct (Hin sl) as [HS Hle]; [by apply elem_of_app; right|]. done.
Qed.

Section preserved_time.
Context (y : sys) (e : ev) (Hi : SInv y) (Hok : allowed jobs crons y e).

(** The four shapes of a step, as far as time and slots go. *)
Lemma step_time :
  (timeless (st y) (next y e) ∧ newMade crons y e = []) ∨
  (newMade crons y e = [] ∧ clock (st y) ≤ clock (next y e) ≤ int64_max ∧ watermarks (next y e) = watermarks (st y)) ∨
  (∃ job cj l m, crons !! job = Some cj ∧ newMade crons y e = map (λ sid, (job, sid)) l ∧ NoDup l ∧
     clock (next y e) = clock (st y) ∧ watermarkOf cj (st y) ≤ m ∧ watermarks (next y e) = <[job := m]> (watermarks (st y)) ∧
     ∀ sid, sid ∈ l → ∃ sl, sl ∈ Slots (cSchedule cj) (cLoc cj) (watermarkOf cj (st y)) (clock (st y)) ∧ slotID sl = sid ∧ At sl ≤ m).
Proof.
  destruct e as [| |job newop| | | | | | | | | | | |d|] eqn:He; try (left; split; [apply next_timeless; done|done]; fail).
  - unfold WorkSys.next, newMade. destruct (crons !! job) as [cj|] eqn:Hcj; [|by left].
    unfold after, commit. destruct (materialize cj newop (st y)) as [[[l t] s']|x] eqn:Hrun; [|by left].
    right; right. destruct (materialize_made _ _ _ _ _ _ _ Hi Hcj Hrun) as (H1 & H2 & m & H3 & H4 & H5).
    destruct (Hcrons _ _ Hcj) as [Hname _]. exists job, cj, l, m. rewrite Hname. split_and!; done.
  - right; left. simpl in *. split_and!; [done|lia|done|done].
Qed.

Lemma keep_time : 0 ≤ clock (next y e) ≤ int64_max ∧ ∀ job m, watermarks (next y e) !! job = Some m → 0 ≤ m.
Proof.
  destruct (i_time _ Hi) as [Hc Hw].
  destruct step_time as [[[H1 H2] _]|[(_ & H1 & H2)|(job & cj & l & m & Hcj & _ & _ & H1 & H2 & H3 & _)]].
  - rewrite H1, H2. done.
  - rewrite H2. split; [lia|done].
  - rewrite H1, H3. split; [done|]. intros job' m'. rewrite lookup_insert_Some. intros [[<- <-]|[_ ?]]; [|eauto].
    destruct (Hcrons _ _ Hcj) as [Hname _]. unfold watermarkOf in H2. rewrite Hname in H2.
    destruct (watermarks (st y) !! job) as [m0|] eqn:Hm0; simpl in H2; [apply Hw in Hm0; lia|lia].
Qed.

Lemma keep_made job sid : (job, sid) ∈ made (sstep y e) → ∃ cj m x a u, crons !! job = Some cj ∧
  watermarks (next y e) !! job = Some m ∧ 0 ≤ a ∧ u ≤ int64_max ∧ x ∈ Slots (cSchedule cj) (cLoc cj) a u ∧ slotID x = sid ∧ At x ≤ m.
Proof.
  assert (Hold : ∀ w' : gmap string Z, (∀ j m, watermarks (st y) !! j = Some m → ∃ m', w' !! j = Some m' ∧ m ≤ m') → (job, sid) ∈ made y →
    ∃ cj m x a u, crons !! job = Some cj ∧ w' !! job = Some m ∧ 0 ≤ a ∧ u ≤ int64_max ∧ x ∈ Slots (cSchedule cj) (cLoc cj) a u ∧ slotID x = sid ∧ At x ≤ m).
  { intros w' Hmono Hm. destruct (i_made _ Hi _ _ Hm) as (cj & m & x & a & u & H1 & H2 & H3 & H4 & H5 & H6 & H7).
    destruct (Hmono _ _ H2) as (m' & Hm' & Hle). exists cj, m', x, a, u. split_and!; try done. lia. }
  simpl. rewrite elem_of_app.
  destruct step_time as [[[H1 H2] ->]|[(-> & H1 & H2)|(job' & cj & l & m & Hcj & -> & _ & H1 & H2 & H3 & H4)]].
  - intros [Hn|Hm]; [by apply elem_of_nil in Hn|]. apply Hold; [|done]. rewrite H2. eauto using Z.le_refl.
  - intros [Hn|Hm]; [by apply elem_of_nil in Hn|]. apply Hold; [|done]. rewrite H2. eauto using Z.le_refl.
  - destruct (Hcrons _ _ Hcj) as [Hname _]. intros [Hn|Hm].
    + apply list_elem_of_fmap in Hn as (sid' & [= -> ->] & Hs). destruct (H4 _ Hs) as (sl & Hsl & Hid & Hle).
      exists cj, m, sl, (watermarkOf cj (st y)), (clock (st y)). rewrite H3, lookup_insert_eq. destruct (i_time _ Hi) as [Hc Hw].
      split_and!; try done; [|lia]. unfold watermarkOf. rewrite Hname.
      destruct (watermarks (st y) !! job') as [m0|] eqn:Hm0; simpl; [by eapply Hw|lia].
    + apply Hold; [|done]. intros j m0 Hm0. rewrite H3. destruct (decide (j = job')) as [->|Hne].
      * rewrite lookup_insert_eq. exists m. split; [done|]. unfold watermarkOf in H2. rewrite Hname, Hm0 in H2. done.
      * rewrite lookup_insert_ne by done. eauto using Z.le_refl.
Qed.

Lemma keep_made_once : NoDup (made (sstep y e)).
Proof.
  pose proof (i_made_once _ Hi) as Hnd. simpl.
  destruct step_time as [[_ ->]|[(-> & _)|(job' & cj & l & m & Hcj & -> & Hl & _ & _ & _ & H4)]]; [done|done|].
  apply NoDup_app. split_and!; [|intros p Hp Hold|done].
  - assert (Inj (=) (=) (λ sid : string, (job', sid))) by (intros ?? [=]; done). by apply (NoDup_fmap_2 (λ sid : string, (job', sid))).
  - apply list_elem_of_fmap in Hp as (sid & -> & Hs). destruct (H4 _ Hs) as (sl & Hsl & <- & _).
    by eapply (due_not_made y job' cj sl).
Qed.
End preserved_time.

Lemma SInv_step y e : SInv y → allowed jobs crons y e → SInv (sstep y e).
Proof.
  intros Hi Hok. split.
  - by apply keep_used.
  - by apply keep_runs_used.
  - by apply keep_epoch.
  - by apply keep_runs.
  - by apply keep_marked.
  - by apply keep_permits.
  - by apply keep_one.
  - by apply keep_dones.
  - by apply keep_dones_once.
  - by apply keep_time.
  - by apply keep_made.
  - by apply keep_made_once.
Qed.

Lemma SInv_reach t0 ep c0 y : 0 ≤ t0 ≤ int64_max → reach durText jobs crons names lease t0 ep c0 y → SInv y.
Proof.
  intros Ht. induction 1 as [|y e _ IH Hok]; [|by apply SInv_step].
  split; simpl; try (by intros ?; rewrite ?lookup_empty; intros [? [=]]).
  - by intros r ?%elem_of_nil.
  - by intros r w ?%elem_of_nil.
  - constructor.
  - by intros p ?%elem_of_nil.
  - by intros id e w ?%elem_of_nil.
  - by intros id e e' w ?%elem_of_nil.
  - by intros id ?%elem_of_nil.
  - constructor.
  - split; [done|]. intros job m. rewrite lookup_empty. done.
  - by intros job sid ?%elem_of_nil.
  - constructor.
Qed.

End props.
