(* ===== verification/WorkSafety.v ===== *)
(** * Background work: the properties

    What the invariant of [WorkProps] gives, with concrete histories, and two histories
    in which a non-idempotent call goes out twice without anyone having verified the
    first. *)
From S2P Require Import Prelude GoStr CronSpec CronProps Work WorkSys WorkProps.
Open Scope string_scope.
Open Scope Z_scope.
Open Scope tx_scope.
Open Scope list_scope.

Section properties.
Context {C E : Type} (durText : Z → string).
Context (jobs : gmap string (Job C E)) (crons : gmap string (CronJob C E)) (names : list string) (lease : Z).
Context (Hcrons : ∀ job cj, crons !! job = Some cj → jName (cJob cj) = job ∧ wfSchedule (cSchedule cj)).
Context (t0 : Z) (ep : Z * Z) (c0 : C) (Ht0 : 0 ≤ t0 ≤ int64_max).

#[local] Abbreviation reach := (reach durText jobs crons names lease t0 ep c0).
#[local] Abbreviation next := (next durText jobs crons names lease).

(** C15. One claim of an item can commit (P7.5, P7.6): in every history of claims, takeovers
    after expired leases, failovers and workers that act long after they lost their
    claim, at most one of all the claims ever given of an item passes the guard; and a
    claim that does not pass commits nothing, whatever it tries to write: it is told that
    it is lost and the store, its business writes included, stays as it was. *)
Theorem one_claim_commits y i j r r' :
  reach y → runs y !! i = Some r → runs y !! j = Some r' → r_id r = r_id r' →
  (guard r (st y) = true → guard r' (st y) = true → i = j) ∧
  (guard r (st y) = false → ∀ f fn, commit (exec (E:=E) r f fn) (st y) = (Err ErrLost, st y)).
Proof.
  intros Hy Hi Hj Hid. pose proof (SInv_reach _ _ _ _ _ Hcrons _ _ _ _ Ht0 Hy) as HI. split.
  - intros Hg Hg'. eapply (NoDup_lookup (map key (runs y))); [apply (i_runs _ _ HI)|..]; rewrite list_lookup_fmap, ?Hi, ?Hj; [done|].
    simpl. f_equal. unfold key. rewrite Hid. f_equal.
    unfold guard in Hg, Hg'. rewrite Hid in Hg. destruct (items (st y) !! r_id r') as [w|]; [|done].
    rewrite !andb_true_iff, !bool_decide_eq_true in Hg, Hg'. destruct Hg as ((((_ & E1) & _) & _) & _), Hg' as ((((_ & E2) & _) & _) & _).
    congruence.
  - intros Hg f fn. unfold commit, exec. by rewrite tbind_get, Hg.
Qed.

(** An item is completed once (P7.10): whatever is retried, taken over or requeued, the
    transaction that commits an item's effect and marks it done succeeds at most once
    over the item's life, and a done item stays done until the purge. *)
Theorem completed_once y : reach y → NoDup (dones y) ∧
  ∀ id w, id ∈ dones y → items (st y) !! id = Some w → w_state w = Done.
Proof.
  intros Hy. pose proof (SInv_reach _ _ _ _ _ Hcrons _ _ _ _ Ht0 Hy) as HI.
  split; [apply (i_dones_once _ _ HI)|]. intros id w Hd. by apply (i_dones _ _ HI).
Qed.

(** C36. A slot becomes an item once (P7.16, P7.19): however often the due slots of a cron job
    are materialized, after restarts, backfills, completions and purges of old items, no
    slot is ever made an item twice; every slot made is behind its job's watermark. *)
Theorem slot_once y : reach y → NoDup (made y) ∧
  ∀ job sid, (job, sid) ∈ made y → ∃ cj m x a u, crons !! job = Some cj ∧ watermarks (st y) !! job = Some m ∧
    x ∈ Slots (cSchedule cj) (cLoc cj) a u ∧ slotID x = sid ∧ At x ≤ m.
Proof.
  intros Hy. pose proof (SInv_reach _ _ _ _ _ Hcrons _ _ _ _ Ht0 Hy) as HI.
  split; [apply (i_made_once _ _ HI)|]. intros job sid Hm.
  destruct (i_made _ _ HI _ _ Hm) as (cj & m & x & a & u & H1 & H2 & _ & _ & H3 & H4 & H5). by exists cj, m, x, a, u.
Qed.

(** C22. A non-idempotent call is one claim's (P7.12): among all the claims of an item of that
    effect, those that were allowed to make its call since the mark of a possibly sent
    call was last cleared are one and the same claim; the mark stands as long as any is;
    and the mark is cleared only by the claim that holds the item (completing it, or
    reporting that the call failed for good, did not take effect or is waited for past
    its limit, or when the mark could not be read), or by an operator who requeues the
    item from a pause. *)
Theorem single_caller y id e e' w :
  reach y → items (st y) !! id = Some w → w_effect w = NonIdempotentExternal →
  (id, e) ∈ permits y → (id, e') ∈ permits y →
  e = e' ∧ w_unknown w = true ∧
  ∀ v w', items (next y v) !! id = Some w' → w_unknown w' = false → settledBy jobs y v id w.
Proof.
  intros Hy Hw He H1 H2. pose proof (SInv_reach _ _ _ _ _ Hcrons _ _ _ _ Ht0 Hy) as HI.
  assert (Hm : w_unknown w = true) by (pose proof (i_marked _ _ HI _ H1) as Hm; unfold marked in Hm; simpl in Hm; by rewrite Hw in Hm).
  split_and!; [by eapply (i_one _ _ HI)|done|]. intros v w' Hw' Hu.
  destruct (next_changes durText jobs crons names lease y v id) as [Hsame|[(w0 & w1 & G1 & G2 & G3)|[(G1 & _)|[G1 _]]]]; [congruence| |congruence|congruence].
  assert (w0 = w) as -> by congruence. assert (w1 = w') as -> by congruence. by apply (u_clear _ _ _ _ _ _ G3).
Qed.

End properties.

(** ** Concrete histories *)

Definition payJob : Job unit unit := mkJob "pay" Queue NonIdempotentExternal 10 0 DefaultTimeout 0 None.
Definition nightly : Job unit unit := mkJob "nightly" Cron Local 10 0 DefaultTimeout 0 None.
Definition nightlyCron : CronJob unit unit :=
  mkCron nightly (mkSchedule {[0]} {[2]} {[1; 2; 3]} {[1]} {[0; 1; 2; 3; 4; 5; 6]} true false) (λ _, 0) All 24.
Definition payJobs : gmap string (Job unit unit) := {[ "pay" := payJob; "nightly" := nightly ]}.
Definition payCrons : gmap string (CronJob unit unit) := {[ "nightly" := nightlyCron ]}.
#[local] Abbreviation sstepP := (sstep (λ _, "") payJobs payCrons ["pay"; "nightly"] DefaultLease).
#[local] Abbreviation reachP := (reach (λ _, "") payJobs payCrons ["pay"; "nightly"] DefaultLease 0 (1, 1) tt).
Definition history (l : list (@ev unit unit)) : sys (C:=unit) := fold_left sstepP l (start 0 (1, 1) tt).

Lemma payCrons_ok job cj : payCrons !! job = Some cj → jName (cJob cj) = job ∧ wfSchedule (cSchedule cj).
Proof.
  unfold payCrons. rewrite lookup_singleton_Some. intros [<- <-]. split; [done|].
  split; simpl; intros ? ->%elem_of_singleton; lia.
Qed.

(** Every step of the history may happen. *)
Fixpoint allowedAll (l : list (@ev unit unit)) (y : sys (C:=unit)) : Prop :=
  match l with [] => True | e :: l => allowed payJobs payCrons y e ∧ allowedAll l (sstepP y e) end.

Lemma history_reach l : allowedAll l (start 0 (1, 1) tt) → reachP (history l).
Proof.
  unfold history. assert (H0 : reachP (start 0 (1, 1) tt)) by constructor. revert H0.
  generalize (start 0 (1, 1) tt). induction l as [|e l IH]; intros y Hy; simpl; [done|]. intros [H1 H2].
  apply IH; [by constructor|done].
Qed.

(** A worker that loses its claim to another after its lease. *)
Definition takeover : list (@ev unit unit) :=
  [EvEnqueue "pay" "i1" "{}" None; EvClaim "a"; EvTick 40000000000; EvClaim "b"].

Lemma takeover_allowed : allowedAll takeover (start 0 (1, 1) tt).
Proof. vm_compute. repeat split; try congruence; intros H; inversion H. Qed.

Lemma one_claim_commits_witness :
  let y := history takeover in
  ∃ r, runs y !! 0%nat = Some r ∧ guard r (st y) = false ∧
    commit (exec (E:=unit) r (λ _ w, w) None) (st y) = (Err ErrLost, st y).
Proof.
  eexists. split; [vm_compute; reflexivity|]. split; [vm_compute; reflexivity|].
  refine (proj2 (one_claim_commits (λ _, "") payJobs payCrons ["pay"; "nightly"] DefaultLease payCrons_ok 0 (1, 1) tt _
    (history takeover) 0 0 _ _ (history_reach _ takeover_allowed) _ _ eq_refl) _ _ _); [vm_compute; split; congruence|vm_compute; reflexivity..].
Defined.

Definition completion : list (@ev unit unit) := takeover ++ [EvComplete 1 "" None; EvComplete 0 "" None].

Lemma completion_allowed : allowedAll completion (start 0 (1, 1) tt).
Proof. vm_compute. repeat split; try congruence; intros H; inversion H. Qed.

Lemma completed_once_witness : dones (history completion) = ["i1"] ∧ NoDup (dones (history completion)).
Proof.
  split; [vm_compute; reflexivity|].
  apply (completed_once (λ _, "") payJobs payCrons ["pay"; "nightly"] DefaultLease payCrons_ok 0 (1, 1) tt);
    [vm_compute; split; congruence|apply history_reach, completion_allowed].
Defined.

(** Two days of a nightly job: each look makes the nights since the one before. *)
Definition nights : list (@ev unit unit) :=
  [EvMaterialize "nightly" (λ id, id); EvTick 90000000000000; EvMaterialize "nightly" (λ id, id);
   EvTick 90000000000000; EvMaterialize "nightly" (λ id, id)].

(** Identifiers of the nightly job's items are its slots'. *)
Lemma nightly_ids (y : sys (C:=unit)) (l : list string) : elements (used y) = map (λ sid, ("nightly@" ++ sid)%string) l →
  Forall (λ sid, ("nightly", sid) ∈ made y) l →
  ∀ op, allowed payJobs payCrons y (EvMaterialize "nightly" op).
Proof.
  intros Hel Hall op cj sl Hcj Hin. unfold payCrons in Hcj. rewrite lookup_singleton_Some in Hcj. destruct Hcj as [_ <-].
  apply elem_of_elements in Hin. rewrite Hel in Hin. apply list_elem_of_fmap in Hin as (sid & Heq & Hs).
  change (("nightly@" ++ slotID sl)%string = ("nightly@" ++ sid)%string) in Heq. injection Heq as Heq.
  change (("" ++ slotID sl)%string = ("" ++ sid)%string) in Heq. change (slotID sl = sid) in Heq. rewrite Heq.
  rewrite Forall_forall in Hall. by apply Hall.
Qed.

Lemma nights_allowed : allowedAll nights (start 0 (1, 1) tt).
Proof.
  unfold nights, allowedAll.
  split; [apply (nightly_ids _ []); [vm_compute; reflexivity|constructor]|].
  split; [vm_compute; congruence|].
  split; [apply (nightly_ids _ []); [vm_compute; reflexivity|constructor]|].
  split; [vm_compute; congruence|].
  split; [|exact I]. apply (nightly_ids _ ["1970-01-01T02:00"]); [vm_compute; reflexivity|].
  constructor; [vm_compute; constructor|constructor].
Qed.

Lemma slot_once_witness :
  made (history nights) = [("nightly", "1970-01-02T02:00"); ("nightly", "1970-01-03T02:00"); ("nightly", "1970-01-01T02:00")] ∧ NoDup (made (history nights)).
Proof.
  split; [vm_compute; reflexivity|].
  apply (slot_once (λ _, "") payJobs payCrons ["pay"; "nightly"] DefaultLease payCrons_ok 0 (1, 1) tt);
    [vm_compute; split; congruence|apply history_reach, nights_allowed].
Defined.

(** A call that may have been sent, and a worker that dies. *)
Definition sentAndDied : list (@ev unit unit) := [EvEnqueue "pay" "i1" "{}" None; EvClaim "a"; EvBefore 0; EvTick 40000000000].

Lemma sentAndDied_allowed : allowedAll sentAndDied (start 0 (1, 1) tt).
Proof. vm_compute. repeat split; try congruence; intros H; inversion H. Qed.

Lemma single_caller_witness :
  let y := history sentAndDied in
  permits y = [("i1", 1)] ∧ ∃ w, items (st y) !! "i1" = Some w ∧ w_unknown w = true.
Proof.
  split; [vm_compute; reflexivity|]. eexists. split; [vm_compute; reflexivity|].
  apply (single_caller (λ _, "") payJobs payCrons ["pay"; "nightly"] DefaultLease payCrons_ok 0 (1, 1) tt
    ltac:(vm_compute; split; congruence) (history sentAndDied) "i1" 1 1 _ (history_reach _ sentAndDied_allowed));
    [vm_compute; reflexivity|reflexivity|vm_compute; constructor|vm_compute; constructor].
Defined.

(** ** Twice without a verification *)

(** A held item loses its mark (P7.12, P7.14): the handler made its call and asked to
    wait; before the next claim an operator holds the item for a business check and
    requeues it, without recording that the call did not take effect. The requeue clears
    the mark, and the next claim may make the call again. Without the hold, the next claim
    pauses the item for an operator. *)
Example held_item_called_again :
  let called := [EvEnqueue "pay" "i1" "{}" None; EvClaim "a"; EvBefore 0;
                 EvFinish 0 false (Returned false false false (Some (Wait, "processing"))) ""] in
  permits (history called) = [("i1", 1)] ∧
  permits (history (called ++ [EvHold "i1"; EvRequeue "i1" false; EvTick 1; EvClaim "b"; EvBefore 1])) = [("i1", 2)] ∧
  length (runs (history (called ++ [EvTick 2000000000; EvClaim "b"]))) = 1%nat.
Proof. vm_compute. repeat split; reflexivity. Qed.

(** A read that fails loses the mark (P7.12): the handler made its call and failed
    without proof that it did not take effect. The mark is read in a transaction whose
    error is ignored; when it fails, the item is retried with the mark cleared, and the
    next claim may make the call again. When it succeeds, the item is paused. *)
Example unread_mark_called_again :
  let failed rf := [EvEnqueue "pay" "i1" "{}" None; EvClaim "a"; EvBefore 0;
                    EvFinish 0 rf (Returned false false false (Some (Retryable, "timeout"))) ""; EvTick 2000000000; EvClaim "b"; EvBefore 1] in
  permits (history (failed true)) = [("i1", 2)] ∧
  permits (history (failed false)) = [("i1", 1)].
Proof. vm_compute. split; reflexivity. Qed.
