(* ===== verification/AuthzDefs.v ===== *)
(** * Authorization declarations and segments

    authz/defs.go and authz/segment.go: what a component declares about its resources,
    fields and operations ([Definitions], [Validate]), and the segments a subject holds
    ([Segment], [ActiveAt], [Check]).

    Go maps are [gmap]s; the loops over them walk [map_to_list], one of the orders a Go
    loop may take.  The texts of the errors are left out, one constructor stands for each
    place that makes one.  [time.Parse] is the parameter [Parse] of the sections that use
    it: nothing here depends on which texts it accepts. *)
From S2P Require Import Prelude GoStr.
From Stdlib Require Import Ascii String.
Open Scope string_scope.
Open Scope Z_scope.
Open Scope list_scope.

(** ** Declarations *)

Definition ValueSet : string := "value_set".
Definition OrgTree : string := "org_tree".
Definition Principal : string := "principal".
Definition Amount : string := "amount".

Definition Ordinary : string := "ordinary".
Definition Restricted : string := "restricted".
Definition Secret : string := "secret".

Definition LocalColumn : string := "local_column".
Definition LocalProjection : string := "local_projection".
Definition NotPushdownable : string := "not_pushdownable".

Record Dimension := MkDimension {
  d_Kind : string;
  d_Column : string;
  d_PrincipalRole : string;
  d_CurrencyColumn : string;
  d_Pushdown : string;
  d_ProjectionWatermark : string }.

Record Field := MkField {
  f_Class : string;
  f_ReadKey : string;
  f_WriteKey : string;
  f_DerivedFrom : list string;
  f_Queryable : list string }.

(** [Dimensions] tells a nil map from an empty one. *)
Record Resource := MkResource {
  r_Type : string;
  r_ViewOperation : string;
  r_Dimensions : option (gmap string Dimension);
  r_Fields : gmap string Field }.

Record Operation := MkOperation {
  o_Key : string;
  o_ResourceType : string;
  o_Purpose : string;
  o_RiskClass : string;
  o_SideEffects : list string;
  o_Audit : bool;
  o_StrictAudit : bool;
  o_MinimumPath : string;
  o_RequiresAppointment : bool;
  o_Delegable : bool;
  o_ImpersonationAllowed : bool;
  o_TighteningOnly : bool;
  o_OutputReadOperation : string;
  o_SelfReviewRule : string }.

Record Definitions := MkDefinitions {
  df_Component : string;
  df_Resources : list Resource;
  df_Operations : list Operation }.

(** A nil map reads as an empty one. *)
Definition dims (r : Resource) : gmap string Dimension := default ∅ (r_Dimensions r).

(** ** The registry key expression
    Words joined by dots, each a lower case letter followed by letters, digits and
    underscores. *)

Definition lower (a : ascii) : bool :=
  let n := Z.of_N (N_of_ascii a) in bool_decide (97 ≤ n ≤ 122).
Definition wordChar (a : ascii) : bool :=
  let n := Z.of_N (N_of_ascii a) in
  lower a || bool_decide (48 ≤ n ≤ 57) || bool_decide (a = "_"%char).

(** One word of a key: a lower case letter, then letters, digits and underscores. *)
Definition keyWord (s : string) : bool :=
  match s with EmptyString => false | String a s' => lower a && forallb wordChar (list_ascii_of_string s') end.
Definition keyRe (s : string) : bool := forallb keyWord (split "." s).

(** ** Validate *)

Definition purposes : list string := ["read"; "special_read"; "export"; "action"; "create"; "manage"].
Definition paths : list string := ["default"; "strict_acceptance"; "strict_barrier"].
Definition sideEffects : list string :=
  ["business_write"; "external_command"; "job_or_subscription"; "file_capability"; "security_change"; "notification"].
Definition queryUses : list string := ["filter"; "sort"; "group"; "aggregate"].

Inductive problem :=
| PResourceKey (typ : string)
| PNoDimensions (typ : string)
| PDimensionKind (typ dim kind : string)
| PNoColumn (typ dim : string)
| PNoCurrency (typ dim : string)
| PPushdown (typ dim mode : string)
| PNoWatermark (typ dim : string)
| PFieldClass (typ field class : string)
| PNoReadKey (typ field : string)
| PQueryUse (typ field use : string)
| POperationKey (key : string)
| PNoResource (key typ : string)
| PRiskClass (key : string)
| PPurpose (key purpose : string)
| PMinimumPath (key path : string)
| PSideEffect (key effect : string)
| PStrictAudit (key purpose : string)
| PImpersonation (key : string)
| PTightening (key : string)
| PTwice (key : string)
| PViewOperation (typ op : string).

Definition mem (x : string) (l : list string) : bool := bool_decide (x ∈ l).
Definition when {A} (b : bool) (x : A) : list A := if b then [x] else [].

(** The [switch] on one dimension: the first case that holds. *)
Definition dimProblems (typ name : string) (d : Dimension) : list problem :=
  if negb (mem (d_Kind d) [ValueSet; OrgTree; Principal; Amount]) then [PDimensionKind typ name (d_Kind d)]
  else if bool_decide (d_Column d = "") then [PNoColumn typ name]
  else if bool_decide (d_Kind d = Amount) && bool_decide (d_CurrencyColumn d = "") then [PNoCurrency typ name]
  else if negb (mem (d_Pushdown d) [""; LocalColumn; LocalProjection; NotPushdownable])
    then [PPushdown typ name (d_Pushdown d)]
  else if bool_decide (d_Pushdown d = LocalProjection) && bool_decide (d_ProjectionWatermark d = "")
    then [PNoWatermark typ name]
  else [].

Definition fieldProblems (typ name : string) (f : Field) : list problem :=
  when (negb (mem (f_Class f) [Ordinary; Restricted; Secret])) (PFieldClass typ name (f_Class f)) ++
  when (bool_decide (f_Class f = Restricted) && bool_decide (f_ReadKey f = "")) (PNoReadKey typ name) ++
  List.concat (map (λ q, when (negb (mem q queryUses)) (PQueryUse typ name q)) (f_Queryable f)).

Definition resourceProblems (r : Resource) : list problem :=
  when (negb (keyRe (r_Type r))) (PResourceKey (r_Type r)) ++
  when (bool_decide (r_Dimensions r = None)) (PNoDimensions (r_Type r)) ++
  List.concat (map (λ '(n, d), dimProblems (r_Type r) n d) (map_to_list (dims r))) ++
  List.concat (map (λ '(n, f), fieldProblems (r_Type r) n f) (map_to_list (r_Fields r))).

(** The index by key a loop that assigns each element builds: a later one replaces an
    earlier one. *)
Definition indexBy {A} (key : A → string) (l : list A) : gmap string A :=
  foldl (λ m x, <[key x := x]> m) ∅ l.

Definition operationProblems (res : gmap string Resource) (seen : gmap string Operation) (o : Operation) : list problem :=
  when (negb (keyRe (o_Key o))) (POperationKey (o_Key o)) ++
  when (bool_decide (res !! o_ResourceType o = None)) (PNoResource (o_Key o) (o_ResourceType o)) ++
  when (negb (mem (o_RiskClass o) ["low"; "high"])) (PRiskClass (o_Key o)) ++
  when (negb (mem (o_Purpose o) purposes)) (PPurpose (o_Key o) (o_Purpose o)) ++
  when (negb (bool_decide (o_MinimumPath o = "")) && negb (mem (o_MinimumPath o) paths))
    (PMinimumPath (o_Key o) (o_MinimumPath o)) ++
  List.concat (map (λ e, when (negb (mem e sideEffects)) (PSideEffect (o_Key o) e)) (o_SideEffects o)) ++
  when (o_StrictAudit o && negb (mem (o_Purpose o) ["read"; "special_read"; "export"]))
    (PStrictAudit (o_Key o) (o_Purpose o)) ++
  when (o_ImpersonationAllowed o && bool_decide (o_SideEffects o ≠ [])) (PImpersonation (o_Key o)) ++
  when (o_TighteningOnly o &&
        (bool_decide (o_Purpose o ≠ "manage") || bool_decide (o_SideEffects o ≠ ["security_change"])))
    (PTightening (o_Key o)) ++
  when (bool_decide (is_Some (seen !! o_Key o))) (PTwice (o_Key o)).

(** The loop over the operations; [seen] is the index built so far. *)
Fixpoint operationLoop (res : gmap string Resource) (seen : gmap string Operation) (l : list Operation)
  : list problem * gmap string Operation :=
  match l with
  | [] => ([], seen)
  | o :: l =>
      let '(ps, seen') := operationLoop res (<[o_Key o := o]> seen) l in
      (operationProblems res seen o ++ ps, seen')
  end.

Definition viewProblems (ops : gmap string Operation) (r : Resource) : list problem :=
  match ops !! r_ViewOperation r with
  | Some o => when (bool_decide (o_ResourceType o ≠ r_Type r)) (PViewOperation (r_Type r) (r_ViewOperation r))
  | None => [PViewOperation (r_Type r) (r_ViewOperation r)]
  end.

(** The two indexes [Validate] leaves behind and the problems it reports: none is success. *)
Record validated := MkValidated {
  v_resources : gmap string Resource;
  v_operations : gmap string Operation;
  v_problems : list problem }.

Definition Validate (d : Definitions) : validated :=
  let res := indexBy r_Type (df_Resources d) in
  let '(ps, ops) := operationLoop res ∅ (df_Operations d) in
  MkValidated res ops
    (List.concat (map resourceProblems (df_Resources d)) ++ ps ++
     List.concat (map (viewProblems ops) (df_Resources d))).

(** [Definitions.Operation] and [Definitions.Resource], over the indexes. *)
Definition OperationOf (v : validated) (key : string) : option Operation := v_operations v !! key.
Definition ResourceOf (v : validated) (typ : string) : option Resource := v_resources v !! typ.

(** ** Segments *)

Record TreeItem := MkItem { ti_Path : string; ti_Mode : string }.

(** Pointers are options. *)
Record Atom := MkAtom {
  a_Kind : string;
  a_Values : list string;
  a_Items : list TreeItem;
  a_Currency : string;
  a_Lo : option string;
  a_LoClosed : option bool;
  a_Hi : option string;
  a_HiClosed : option bool }.

Record Window := MkWindow { w_From : string; w_Until : string }.

Record Segment := MkSegment {
  s_ResourceType : string;
  s_Operation : string;
  s_Atoms : gmap string Atom;
  s_ReadFields : list string;
  s_WriteFields : list string;
  s_Valid : Window }.

(** [Parse] is [time.Parse(time.RFC3339Nano, _)]; an instant is its nanoseconds. *)
Definition ActiveAt (Parse : string → option Z) (s : Segment) (t : Z) : bool :=
  match Parse (w_From (s_Valid s)) with
  | None => false
  | Some from =>
      if decide (t < from) then false
      else if decide (w_Until (s_Valid s) = "") then true
      else match Parse (w_Until (s_Valid s)) with
           | None => false
           | Some until => bool_decide (t < until)
           end
  end.

Inductive checkErr :=
| CAtoms (atoms dimensions : nat)
| CDimension (dim : string)
| CTree (dim : string)
| CSelf (dim : string)
| CInterval (dim : string)
| CKind (kind : string)
| CWritable (field : string).
#[export] Instance checkErr_eq_dec : EqDecision checkErr.
Proof. solve_decision. Defined.

(** One round of the loop over the atoms. *)
Definition checkAtom (r : Resource) (dim : string) (a : Atom) : option checkErr :=
  match dims r !! dim with
  | None => Some (CDimension dim)
  | Some d =>
      if decide (a_Kind a = "all") then None
      else if decide (a_Kind a = "in") then None
      else if decide (a_Kind a = "tree") then
        (if decide (d_Kind d = OrgTree) then None else Some (CTree dim))
      else if decide (a_Kind a = "self") then
        (if decide (d_Kind d = Principal) then None else Some (CSelf dim))
      else if decide (a_Kind a = "interval") then
        (if bool_decide (d_Kind d ≠ Amount) || (bool_decide (a_Lo a = None) && bool_decide (a_Hi a = None))
            || negb (Bool.eqb (bool_decide (a_Lo a ≠ None)) (bool_decide (a_LoClosed a ≠ None)))
            || negb (Bool.eqb (bool_decide (a_Hi a ≠ None)) (bool_decide (a_HiClosed a ≠ None)))
         then Some (CInterval dim) else None)
      else Some (CKind (a_Kind a))
  end.

Fixpoint firstErr {A E} (f : A → option E) (l : list A) : option E :=
  match l with
  | [] => None
  | x :: l => match f x with Some e => Some e | None => firstErr f l end
  end.

(** [Segment.Check]; [None] is a nil error. *)
Definition Check (r : Resource) (s : Segment) : option checkErr :=
  if decide (size (s_Atoms s) = size (dims r)) then
    match firstErr (λ '(dim, a), checkAtom r dim a) (map_to_list (s_Atoms s)) with
    | Some e => Some e
    | None => firstErr (λ f, if mem f (s_ReadFields s) then None else Some (CWritable f)) (s_WriteFields s)
    end
  else Some (CAtoms (size (s_Atoms s)) (size (dims r))).

(** ** What the checks establish *)

Lemma firstErr_None {A E} (f : A → option E) l : firstErr f l = None ↔ ∀ x, x ∈ l → f x = None.
Proof.
  induction l as [|x l IH]; simpl; [split; [by intros _ x Hx%elem_of_nil|done]|].
  destruct (f x) eqn:Hx.
  - split; [done|]. intros H. rewrite (H x) in Hx by (left). done.
  - rewrite IH. split; [|intros H y Hy; apply H; by right].
    intros H y [->|Hy]%elem_of_cons; [done|by apply H].
Qed.

(** The bounds of a checked interval: at least one, and each with its closedness. *)
Definition boundsPaired (a : Atom) : Prop :=
  is_Some (a_Lo a) ∨ is_Some (a_Hi a).
Definition closednessGiven (a : Atom) : Prop :=
  (is_Some (a_Lo a) ↔ is_Some (a_LoClosed a)) ∧ (is_Some (a_Hi a) ↔ is_Some (a_HiClosed a)).

(** An atom that fits its dimension. *)
Definition atomFits (d : Dimension) (a : Atom) : Prop :=
  a_Kind a = "all" ∨ a_Kind a = "in" ∨
  (a_Kind a = "tree" ∧ d_Kind d = OrgTree) ∨
  (a_Kind a = "self" ∧ d_Kind d = Principal) ∨
  (a_Kind a = "interval" ∧ d_Kind d = Amount ∧ boundsPaired a ∧ closednessGiven a).

Lemma eqb_some {A} (x : option A) (y : option bool) :
  Bool.eqb (bool_decide (x ≠ None)) (bool_decide (y ≠ None)) = true ↔ (is_Some x ↔ is_Some y).
Proof.
  rewrite Bool.eqb_true_iff. destruct x, y; simpl; rewrite ?is_Some_alt; simpl;
    repeat case_bool_decide; naive_solver.
Qed.

Lemma checkAtom_None r dim a :
  checkAtom r dim a = None ↔ ∃ d, dims r !! dim = Some d ∧ atomFits d a.
Proof.
  unfold checkAtom, atomFits.
  destruct (dims r !! dim) as [d|]; [|split; [done|by intros (? & ? & ?)]].
  trans (atomFits d a); [|unfold atomFits; split; [by exists d|by intros (? & [= <-] & ?)]].
  unfold atomFits. destruct (decide (a_Kind a = "all")); [tauto|].
  destruct (decide (a_Kind a = "in")); [tauto|].
  destruct (decide (a_Kind a = "tree")) as [Ht|]; [rewrite Ht; case_decide; intuition congruence|].
  destruct (decide (a_Kind a = "self")) as [Ht|]; [rewrite Ht; case_decide; intuition congruence|].
  destruct (decide (a_Kind a = "interval")) as [Ht|]; [|intuition congruence].
  rewrite Ht. unfold boundsPaired, closednessGiven. rewrite <- !eqb_some.
  destruct (Bool.eqb (bool_decide (a_Lo a ≠ None)) _), (Bool.eqb (bool_decide (a_Hi a ≠ None)) _);
    destruct (decide (d_Kind d = Amount)), (a_Lo a), (a_Hi a); simpl;
    repeat case_bool_decide; rewrite ?is_Some_alt; simpl; intuition congruence.
Qed.

(** A segment that fits its resource: one atom for each declared dimension and no other,
    each fitting its dimension, and every written field readable. *)
Record segmentFits (r : Resource) (s : Segment) : Prop := {
  sf_dom : dom (s_Atoms s) = dom (dims r);
  sf_atoms : ∀ dim a d, s_Atoms s !! dim = Some a → dims r !! dim = Some d → atomFits d a;
  sf_write : ∀ f, f ∈ s_WriteFields s → f ∈ s_ReadFields s }.

Lemma checkAtoms_None r s :
  firstErr (λ '(dim, a), checkAtom r dim a) (map_to_list (s_Atoms s)) = None ↔
  ∀ dim a, s_Atoms s !! dim = Some a → ∃ d, dims r !! dim = Some d ∧ atomFits d a.
Proof.
  rewrite firstErr_None. split.
  - intros H dim a Ha%elem_of_map_to_list. apply checkAtom_None, (H (dim, a) Ha).
  - intros H [dim a] Ha%elem_of_map_to_list. by apply checkAtom_None, H.
Qed.

Lemma checkWrite_None s :
  firstErr (λ f, if mem f (s_ReadFields s) then None else Some (CWritable f)) (s_WriteFields s) = None ↔
  ∀ f, f ∈ s_WriteFields s → f ∈ s_ReadFields s.
Proof.
  rewrite firstErr_None. unfold mem.
  split; intros H f Hf; specialize (H f Hf); case_bool_decide; naive_solver.
Qed.

(** [Check] accepts exactly the segments that fit. *)
Lemma Check_None r s : Check r s = None ↔ segmentFits r s.
Proof.
  unfold Check. case_decide as Hsz.
  - destruct (firstErr _ (map_to_list _)) eqn:Ha.
    + split; [done|]. intros [Hd Hat _]. exfalso.
      assert (Hn : firstErr (λ '(dim, a), checkAtom r dim a) (map_to_list (s_Atoms s)) = None); [|congruence].
      apply checkAtoms_None. intros dim a Hl.
      assert (Hin : dim ∈ dom (dims r)) by (rewrite <- Hd; by apply elem_of_dom_2 in Hl).
      apply elem_of_dom in Hin as [d Hdm]. eauto.
    + rewrite checkAtoms_None in Ha. rewrite checkWrite_None. split; [|by intros []].
      intros Hw. split; [| |done].
      * assert (Hsub : dom (s_Atoms s) ⊆ dom (dims r)).
        { intros dim [a Hl]%elem_of_dom. destruct (Ha dim a Hl) as (d & Hd & _). by eapply elem_of_dom_2. }
        apply set_subseteq_size_eq; [done|].
        rewrite !size_dom. lia.
      * intros dim a d Hl Hd. destruct (Ha dim a Hl) as (d' & Hd' & Hf). congruence.
  - split; [done|]. intros [Hd _ _]. exfalso. apply Hsz. rewrite <- !size_dom. by rewrite Hd.
Qed.
