(* ===== verification/AuthzDeclared.v ===== *)
(** * What an accepted set of declarations is

    [Validate] of authz/defs.go reports no problem exactly for the declarations below, and
    the indexes it leaves behind then hold every declared operation under its key, each
    with its declared resource, and each resource's view operation. *)
From S2P Require Import Prelude GoStr AuthzDefs.
From Stdlib Require Import Ascii String.
Open Scope string_scope.
Open Scope Z_scope.
Open Scope list_scope.

(** ** Lists of problems *)

Lemma when_nil {A} b (x : A) : when b x = [] ↔ b = false.
Proof. by destruct b. Qed.
Lemma concat_nil {A B} (f : A → list B) l : List.concat (map f l) = [] ↔ ∀ x, x ∈ l → f x = [].
Proof.
  induction l as [|x l IH]; simpl; [split; [by intros _ x Hx%elem_of_nil|done]|].
  rewrite app_nil, IH. split.
  - intros [Hx Hl] y [->|Hy]%elem_of_cons; auto.
  - intros H. split; [apply H; by left|intros y Hy; apply H; by right].
Qed.
Lemma mem_true x l : mem x l = true ↔ x ∈ l.
Proof. apply bool_decide_eq_true. Qed.
Lemma not_mem x l : negb (mem x l) = false ↔ x ∈ l.
Proof. by rewrite negb_false_iff, mem_true. Qed.

(** ** The conditions *)

Record dimensionOk (d : Dimension) : Prop := {
  dk_kind : d_Kind d ∈ [ValueSet; OrgTree; Principal; Amount];
  dk_column : d_Column d ≠ "";
  dk_currency : d_Kind d = Amount → d_CurrencyColumn d ≠ "";
  dk_pushdown : d_Pushdown d ∈ [""; LocalColumn; LocalProjection; NotPushdownable];
  dk_watermark : d_Pushdown d = LocalProjection → d_ProjectionWatermark d ≠ "" }.

Record fieldOk (f : Field) : Prop := {
  fk_class : f_Class f ∈ [Ordinary; Restricted; Secret];
  fk_read : f_Class f = Restricted → f_ReadKey f ≠ "";
  fk_query : ∀ q, q ∈ f_Queryable f → q ∈ queryUses }.

Record resourceOk (r : Resource) : Prop := {
  rk_key : keyRe (r_Type r) = true;
  rk_declared : is_Some (r_Dimensions r);
  rk_dims : ∀ n d, dims r !! n = Some d → dimensionOk d;
  rk_fields : ∀ n f, r_Fields r !! n = Some f → fieldOk f }.

Record operationOk (o : Operation) : Prop := {
  ok_key : keyRe (o_Key o) = true;
  ok_risk : o_RiskClass o ∈ ["low"; "high"];
  ok_purpose : o_Purpose o ∈ purposes;
  ok_path : o_MinimumPath o ∈ "" :: paths;
  ok_effects : ∀ e, e ∈ o_SideEffects o → e ∈ sideEffects;
  ok_strict : o_StrictAudit o → o_Purpose o ∈ ["read"; "special_read"; "export"];
  ok_impersonation : o_ImpersonationAllowed o → o_SideEffects o = [];
  ok_tightening : o_TighteningOnly o → o_Purpose o = "manage" ∧ o_SideEffects o = ["security_change"] }.

Record wellDeclared (d : Definitions) : Prop := {
  wd_resources : ∀ r, r ∈ df_Resources d → resourceOk r;
  wd_operations : ∀ o, o ∈ df_Operations d → operationOk o;
  wd_declared : ∀ o, o ∈ df_Operations d → ∃ r, r ∈ df_Resources d ∧ r_Type r = o_ResourceType o;
  wd_once : NoDup (map o_Key (df_Operations d));
  wd_view : ∀ r, r ∈ df_Resources d →
    ∃ o, o ∈ df_Operations d ∧ o_Key o = r_ViewOperation r ∧ o_ResourceType o = r_Type r }.

(** ** Problem by problem *)

Lemma dimProblems_nil t n d : dimProblems t n d = [] ↔ dimensionOk d.
Proof.
  unfold dimProblems. destruct (mem (d_Kind d) _) eqn:Hk; simpl.
  2: { split; [done|]. intros [Hk' _ _ _ _]. apply mem_true in Hk'. congruence. }
  apply mem_true in Hk.
  case_bool_decide as Hc; [split; [done|by intros []]|].
  destruct (bool_decide (d_Kind d = Amount) && _) eqn:Hcur.
  { apply andb_true_iff in Hcur as [Ha Hb]. apply bool_decide_eq_true in Ha, Hb.
    split; [done|]. intros [_ _ H _ _]. by destruct (H Ha). }
  destruct (mem (d_Pushdown d) _) eqn:Hp; simpl.
  2: { split; [done|]. intros [_ _ _ Hp' _]. apply mem_true in Hp'. congruence. }
  apply mem_true in Hp.
  destruct (bool_decide (d_Pushdown d = LocalProjection) && _) eqn:Hw.
  { apply andb_true_iff in Hw as [Ha Hb]. apply bool_decide_eq_true in Ha, Hb.
    split; [done|]. intros [_ _ _ _ H]. by destruct (H Ha). }
  split; [|done]. intros _. apply andb_false_iff in Hcur, Hw. rewrite !bool_decide_eq_false in Hcur, Hw.
  split; [done|done| |done|]; naive_solver.
Qed.

Lemma fieldProblems_nil t n f : fieldProblems t n f = [] ↔ fieldOk f.
Proof.
  unfold fieldProblems. rewrite !app_nil, !when_nil, not_mem, concat_nil, andb_false_iff, !bool_decide_eq_false.
  setoid_rewrite when_nil. setoid_rewrite not_mem.
  split; [intros (? & ? & ?); split; naive_solver|intros [? ? ?]].
  repeat split; [done| |done]. destruct (decide (f_Class f = Restricted)); naive_solver.
Qed.

Lemma resourceProblems_nil r : resourceProblems r = [] ↔ resourceOk r.
Proof.
  unfold resourceProblems. rewrite !app_nil, !when_nil, !concat_nil, negb_false_iff, bool_decide_eq_false.
  assert (Hm : ∀ {A} (m : gmap string A) (g : string → A → list problem) (Q : A → Prop),
    (∀ n a, g n a = [] ↔ Q a) →
    (∀ x, x ∈ map_to_list m → (let '(n, a) := x in g n a) = []) ↔ (∀ n a, m !! n = Some a → Q a)).
  { intros A m g Q HQ. split.
    - intros H n a Ha%elem_of_map_to_list. by apply (HQ n), (H (n, a)).
    - intros H [n a] Ha%elem_of_map_to_list. by eapply HQ, H. }
  rewrite (Hm _ (dims r) _ _ (λ n d, dimProblems_nil (r_Type r) n d)).
  rewrite (Hm _ (r_Fields r) _ _ (λ n f, fieldProblems_nil (r_Type r) n f)).
  split; [intros (? & ? & ? & ?); by split; try apply not_eq_None_Some|intros [? ?%not_eq_None_Some ? ?]; done].
Qed.

Lemma operationProblems_nil res seen o :
  operationProblems res seen o = [] ↔
  operationOk o ∧ is_Some (res !! o_ResourceType o) ∧ seen !! o_Key o = None.
Proof.
  unfold operationProblems.
  rewrite !app_nil, !when_nil, !not_mem, concat_nil, !andb_false_iff, !negb_false_iff, orb_false_iff,
    !mem_true, !bool_decide_eq_false, bool_decide_eq_true.
  setoid_rewrite when_nil. setoid_rewrite not_mem. rewrite <- (not_eq_None_Some (res !! _)).
  rewrite (eq_None_not_Some (seen !! _)).
  split.
  - intros (Hk & Hr & Hrk & Hp & Hm & He & Hs & Hi & Ht & Hd). split; [|done].
    split; try done; [set_solver|..]; intros Hb%Is_true_eq_true.
    + by destruct Hs as [Hs|Hs]; [congruence|].
    + destruct Hi as [Hi|Hi]; [congruence|by apply dec_stable].
    + destruct Ht as [Ht|[Ht1 Ht2]]; [congruence|split; by apply dec_stable].
  - intros ([Hk Hrk Hp Hm He Hs Hi Ht] & Hr & Hd). repeat split; try done.
    + set_solver.
    + destruct (o_StrictAudit o); naive_solver.
    + destruct (o_ImpersonationAllowed o); naive_solver.
    + destruct (o_TighteningOnly o); naive_solver.
Qed.

(** ** The indexes *)

Lemma index_from {A} (key : A → string) l (m : gmap string A) k :
  is_Some (foldl (λ m x, <[key x := x]> m) m l !! k) ↔ is_Some (m !! k) ∨ ∃ x, x ∈ l ∧ key x = k.
Proof.
  revert m. induction l as [|x l IH]; intros m; simpl; [set_solver|].
  rewrite IH, lookup_insert_is_Some'. set_solver.
Qed.

Lemma index_is_Some {A} (key : A → string) l k : is_Some (indexBy key l !! k) ↔ ∃ x, x ∈ l ∧ key x = k.
Proof. unfold indexBy. rewrite index_from, lookup_empty, is_Some_alt. naive_solver. Qed.

Lemma index_from_elem {A} (key : A → string) l (m : gmap string A) k x :
  foldl (λ m x, <[key x := x]> m) m l !! k = Some x →
  m !! k = Some x ∨ (x ∈ l ∧ key x = k).
Proof.
  revert m. induction l as [|y l IH]; intros m; simpl; [by left|]. intros [H|[H ?]]%IH; [|set_solver].
  destruct (decide (key y = k)) as [<-|Hn].
  - rewrite lookup_insert_eq in H. simplify_eq. set_solver.
  - rewrite lookup_insert_ne in H by done. by left.
Qed.

Lemma index_elem {A} (key : A → string) l k x : indexBy key l !! k = Some x → x ∈ l ∧ key x = k.
Proof. intros [H|H]%index_from_elem; [by rewrite lookup_empty in H|done]. Qed.

(** The loop over the operations ends with the index of all of them. *)
Lemma operationLoop_index res seen l :
  (operationLoop res seen l).2 = foldl (λ m o, <[o_Key o := o]> m) seen l.
Proof.
  revert seen. induction l as [|o l IH]; intros seen; simpl; [done|]. rewrite <- IH.
  by destruct (operationLoop _ _ l).
Qed.

Lemma operationLoop_nil res seen l :
  (operationLoop res seen l).1 = [] ↔
  (∀ o, o ∈ l → operationOk o ∧ is_Some (res !! o_ResourceType o)) ∧
  NoDup (map o_Key l) ∧ (∀ o, o ∈ l → seen !! o_Key o = None).
Proof.
  revert seen. induction l as [|o l IH]; intros seen; simpl.
  { split; [|done]. intros _. split; [by intros o Ho%elem_of_nil|]. split; [constructor|by intros o Ho%elem_of_nil]. }
  specialize (IH (<[o_Key o := o]> seen)). destruct (operationLoop _ _ l) as [ps seen']. simpl in *.
  rewrite app_nil, IH, operationProblems_nil, NoDup_cons. clear IH. split.
  - intros ((Ho & Hr & Hs) & Hl & Hn & Hi). split; [set_solver|]. split.
    + split; [|done]. intros (x & Hx & Hxl)%list_elem_of_fmap.
      specialize (Hi x Hxl). rewrite Hx in Hi. by rewrite lookup_insert_eq in Hi.
    + intros x [->|Hx]%elem_of_cons; [done|].
      specialize (Hi x Hx). by apply lookup_insert_None in Hi as [? _].
  - intros (Hl & (Hni & Hn) & Hs). destruct (Hl o (list_elem_of_here _ _)) as [Ho Hr].
    split; [split; [done|split; [done|apply Hs; left]]|].
    split; [intros x Hx; apply Hl; by right|]. split; [done|].
    intros x Hx. apply lookup_insert_None. split; [apply Hs; by right|].
    intros Heq. apply Hni. rewrite Heq. by apply list_elem_of_fmap_2.
Qed.

(** With every key declared once, the index holds exactly the declared operations. *)
Lemma index_once {A} (key : A → string) l k x :
  NoDup (map key l) → indexBy key l !! k = Some x ↔ x ∈ l ∧ key x = k.
Proof.
  intros Hn. split; [apply index_elem|]. intros [Hx <-].
  destruct (proj2 (index_is_Some key l (key x))) as [y Hy]; [by exists x|].
  rewrite Hy. f_equal. apply index_elem in Hy as [Hyl Hk].
  apply list_elem_of_lookup in Hx as [i Hi], Hyl as [j Hj].
  assert (Hij : i = j); [|congruence].
  eapply (NoDup_lookup (map key l)); [done|by rewrite list_lookup_fmap, Hi|by rewrite list_lookup_fmap, Hj; simpl; f_equal].
Qed.

Lemma viewProblems_nil ops r :
  viewProblems ops r = [] ↔ ∃ o, ops !! r_ViewOperation r = Some o ∧ o_ResourceType o = r_Type r.
Proof.
  unfold viewProblems. destruct (ops !! _) as [o|]; [|naive_solver].
  rewrite when_nil, bool_decide_eq_false. split; [intros H; exists o; split; [done|]; by apply dec_stable|].
  by intros (o' & [= <-] & Ho) Hne.
Qed.

(** ** The properties *)

Lemma Validate_problems d :
  v_problems (Validate d) = [] ↔
  (∀ r, r ∈ df_Resources d → resourceOk r) ∧
  (operationLoop (indexBy r_Type (df_Resources d)) ∅ (df_Operations d)).1 = [] ∧
  (∀ r, r ∈ df_Resources d →
     ∃ o, indexBy o_Key (df_Operations d) !! r_ViewOperation r = Some o ∧ o_ResourceType o = r_Type r).
Proof.
  unfold Validate. pose proof (operationLoop_index (indexBy r_Type (df_Resources d)) ∅ (df_Operations d)) as Hi.
  destruct (operationLoop _ _ _) as [ps ops]. simpl in *. subst ops.
  rewrite !app_nil, !concat_nil. setoid_rewrite resourceProblems_nil. by setoid_rewrite viewProblems_nil.
Qed.

(** C40. [Validate] accepts a set of declarations exactly when it is well declared: every
    resource, dimension, field and operation satisfies its own conditions, every
    operation's resource is declared, every key is declared once, and every resource's
    view operation is declared for it. *)
Theorem Validate_iff d : v_problems (Validate d) = [] ↔ wellDeclared d.
Proof.
  rewrite Validate_problems, operationLoop_nil. setoid_rewrite index_is_Some. split.
  - intros (Hr & (Ho & Hn & _) & Hv). split; [done|naive_solver|naive_solver|done|].
    intros r (o & Hi%index_elem & Ht)%Hv. naive_solver.
  - intros [Hr Ho Hd Hn Hv]. split; [done|]. split; [split; [naive_solver|done]|].
    intros r (o & Hin & Hk & Ht)%Hv. exists o. split; [|done]. by apply index_once.
Qed.

(** After an accepted [Validate] a declared operation is found under its key, with its
    resource and the resource's view operation. *)
Lemma Validate_found d key o :
  wellDeclared d → OperationOf (Validate d) key = Some o →
  o_Key o = key ∧ operationOk o ∧
  ∃ r v, ResourceOf (Validate d) (o_ResourceType o) = Some r ∧ r_Type r = o_ResourceType o ∧ resourceOk r ∧
         OperationOf (Validate d) (r_ViewOperation r) = Some v ∧ o_ResourceType v = r_Type r.
Proof.
  intros [Hr Ho Hd Hn Hv]. unfold OperationOf, ResourceOf, Validate.
  pose proof (operationLoop_index (indexBy r_Type (df_Resources d)) ∅ (df_Operations d)) as Hi.
  destruct (operationLoop _ _ _) as [ps ops]. simpl in *. subst ops.
  intros [Hin Hk]%index_elem. split; [done|]. split; [by apply Ho|].
  destruct (Hd o Hin) as (r0 & Hr0 & Ht0).
  destruct (proj2 (index_is_Some r_Type (df_Resources d) (o_ResourceType o))) as [r Hf]; [by exists r0|].
  apply index_elem in Hf as Hf'. destruct Hf' as [Hrin Hrt].
  destruct (Hv r Hrin) as (v & Hvin & Hvk & Hvt). exists r, v.
  split; [done|]. split; [done|]. split; [by apply Hr|]. split; [|done]. by apply index_once.
Qed.
