(* ===== verification/AuthzEval.v ===== *)
(** * Three-valued evaluation of segments on one record

    authz/eval.go ([atom], [interval], [segment], [entitled], [Evaluate], [and]) and the
    parts of authz/subject.go that use a decision ([Decision.Err], [Mask]).

    The texts [time.Parse] accepts and the decimals of the apd package are the class
    [Env].  A dereference of a nil pointer is [None]: [Evaluate_total] shows a checked
    segment never gets there. *)
From S2P Require Import Prelude GoStr AuthzDefs AuthzDeclared.
From Stdlib Require Import Ascii String.
Open Scope string_scope.
Open Scope Z_scope.
Open Scope list_scope.

(** What the package takes from outside: [time.Parse(time.RFC3339Nano, _)] as nanoseconds,
    and apd's decimals with [NewFromString] and [Cmp]. *)
Class Env := {
  Parse : string → option Z;
  decimal : Type;
  NewFromString : string → option decimal;
  Cmp : decimal → decimal → comparison }.

Inductive Tri := False_ | True_ | Unknown.
#[export] Instance Tri_eq_dec : EqDecision Tri.
Proof. solve_decision. Defined.

Record Fact := MkFact { f_State : string; f_Value : string; f_Currency : string }.
Definition Value (v : string) : Fact := MkFact "value" v "".
Definition Money (amount currency : string) : Fact := MkFact "value" amount currency.
Definition Null : Fact := MkFact "null" "" "".
Definition Unobtained : Fact := MkFact "unobtained" "" "".
(** The zero value, which a map gives for a key it does not hold. *)
Definition zeroFact : Fact := MkFact "" "" "".

Definition Facts := gmap string Fact.
Definition fact (facts : Facts) (dim : string) : Fact := default zeroFact (facts !! dim).

Definition isTrue (b : bool) : Tri := if b then True_ else False_.

Definition treeHit (f : Fact) (it : TreeItem) : bool :=
  bool_decide (f_Value f = ti_Path it) ||
  (bool_decide (ti_Mode it = "subtree") && HasPrefix (f_Value f) (ti_Path it ++ "/")%string).

Definition and (a b : Tri) : Tri :=
  if decide (a = False_ ∨ b = False_) then False_
  else if decide (a = Unknown ∨ b = Unknown) then Unknown
  else True_.

Section eval.
Context `{Env}.

(** One bound of an interval.  [out] is the comparison that puts the amount beyond the
    bound; at equality the closedness is dereferenced. *)
Definition beyond (out : comparison) (amount : decimal) (bound : option string) (closed : option bool) : option Tri :=
  match bound with
  | None => Some True_
  | Some b =>
      match NewFromString b with
      | None => Some Unknown
      | Some d =>
          if decide (Cmp amount d = out) then Some False_
          else if decide (Cmp amount d = Eq) then (c ← closed; Some (isTrue c))
          else Some True_
      end
  end.

Definition interval (a : Atom) (f : Fact) : option Tri :=
  if decide (f_Currency f = a_Currency a) then
    match NewFromString (f_Value f) with
    | None => Some Unknown
    | Some amount =>
        lo ← beyond Lt amount (a_Lo a) (a_LoClosed a);
        match lo with
        | True_ => beyond Gt amount (a_Hi a) (a_HiClosed a)
        | _ => Some lo
        end
    end
  else Some False_.

Definition atom (a : Atom) (f : Fact) (principal : string) : option Tri :=
  if decide (a_Kind a = "all") then Some True_
  else if decide (f_State f = "unobtained" ∨ f_State f = "") then Some Unknown
  else if decide (f_State f = "null") then Some False_
  else if decide (a_Kind a = "in") then Some (isTrue (mem (f_Value f) (a_Values a)))
  else if decide (a_Kind a = "self") then Some (isTrue (bool_decide (f_Value f = principal)))
  else if decide (a_Kind a = "tree") then
    (if decide (f_Value f = "") then Some False_ else Some (isTrue (existsb (treeHit f) (a_Items a))))
  else if decide (a_Kind a = "interval") then interval a f
  else Some Unknown.

(** The loop of [segment]: it stops at the first atom that is false. *)
Fixpoint atomsLoop (out : Tri) (l : list (string * Atom)) (facts : Facts) (principal : string) : option Tri :=
  match l with
  | [] => Some out
  | (dim, a) :: l =>
      t ← atom a (fact facts dim) principal;
      match t with
      | False_ => Some False_
      | Unknown => atomsLoop Unknown l facts principal
      | True_ => atomsLoop out l facts principal
      end
  end.

Definition segment (s : Segment) (facts : Facts) (principal : string) (at_ : Z) : option Tri :=
  if ActiveAt Parse s at_ then atomsLoop True_ (map_to_list (s_Atoms s)) facts principal else Some False_.

(** The loop of [entitled], with the result and the fields so far. *)
Fixpoint entitledLoop (res : Tri) (fields : gset string) (segs : list Segment) (op : string)
    (facts : Facts) (principal : string) (at_ : Z) : option (Tri * gset string) :=
  match segs with
  | [] => Some (res, fields)
  | s :: segs =>
      if decide (s_Operation s = op) then
        t ← segment s facts principal at_;
        match t with
        | True_ => entitledLoop True_ (fields ∪ list_to_set (s_ReadFields s)) segs op facts principal at_
        | Unknown =>
            entitledLoop (if decide (res = False_) then Unknown else res) fields segs op facts principal at_
        | False_ => entitledLoop res fields segs op facts principal at_
        end
      else entitledLoop res fields segs op facts principal at_
  end.
Definition entitled (segs : list Segment) (op : string) (facts : Facts) (principal : string) (at_ : Z)
  : option (Tri * gset string) := entitledLoop False_ ∅ segs op facts principal at_.

Record Decision_ := MkDecision { dc_Visible : Tri; dc_Action : Tri; dc_Fields : list string }.

(** Declared and not secret. *)
Definition shown (r : Resource) (f : string) : bool :=
  match r_Fields r !! f with Some fd => bool_decide (f_Class fd ≠ Secret) | None => false end.

Definition Evaluate (r : Resource) (segs : list Segment) (op : string) (facts : Facts) (principal : string)
    (at_ : Z) : option Decision_ :=
  '(visible, viewFields) ← entitled segs (r_ViewOperation r) facts principal at_;
  '(action, fields) ←
    (if decide (op = r_ViewOperation r) then Some (visible, viewFields)
     else '(act, fs) ← entitled segs op facts principal at_; Some (and visible act, fs));
  Some (MkDecision visible action
    (if decide (visible = True_) then sortStrings (filter (λ f, shown r f) (elements fields)) else [])).

End eval.

(** ** The answer for a decision *)

Inductive refusal := NotFound | PermissionDenied | AuthorizationUnprovable.

(** [Decision.Err]; [None] is allowed. *)
Definition Err_ (d : Decision_) : option refusal :=
  if decide (dc_Visible d = False_) then Some NotFound
  else if decide (dc_Action d = False_) then Some PermissionDenied
  else if decide (dc_Visible d = Unknown ∨ dc_Action d = Unknown) then Some AuthorizationUnprovable
  else None.

(** ** Masking an output object *)

(** A value of an output object: what the handler gave, null, or the list under [_masked]. *)
Inductive shapedVal (V : Type) := Shown (v : V) | Nil | Names (l : list string).
Arguments Shown {V} v.
Arguments Nil {V}.
Arguments Names {V} l.

Definition Masked : string := "_masked".

(** One key of the loop of [Mask]. *)
Definition maskOne {V} (r : Resource) (readable : list string) (acc : gmap string (shapedVal V) * list string)
    (kv : string * V) : gmap string (shapedVal V) * list string :=
  if shown r kv.1 then
    (if mem kv.1 readable then (<[kv.1 := Shown kv.2]> acc.1, acc.2)
     else (<[kv.1 := Nil]> acc.1, acc.2 ++ [kv.1]))
  else acc.

Definition Mask {V} (r : Resource) (out : gmap string V) (readable : list string) : gmap string (shapedVal V) :=
  let '(shaped, masked) := foldl (maskOne r readable) (∅, []) (map_to_list out) in
  if decide (masked = []) then shaped else <[Masked := Names (sortStrings masked)]> shaped.
