(* ===== verification/AuthzEvalProps.v ===== *)
(** * Properties of the evaluation

    What a decision rests on: [entitled] and [Evaluate] as statements about the segments
    whose atoms all hold, that unknown never allows, that a checked segment never
    dereferences a nil pointer, and what [Mask] lets through. *)
From S2P Require Import Prelude GoStr AuthzDefs AuthzDeclared AuthzEval.
From Stdlib Require Import Ascii String.
Open Scope string_scope.
Open Scope Z_scope.
Open Scope list_scope.

Lemma isTrue_True b : isTrue b = True_ ↔ b = true.
Proof. by destruct b. Qed.

Lemma and_True a b : and a b = True_ ↔ a = True_ ∧ b = True_.
Proof. unfold and. destruct a, b; repeat case_decide; naive_solver. Qed.

Section props.
Context `{Env}.
Variables (facts : Facts) (principal : string) (at_ : Z).

(** ** Conjunctions and unions *)

(** A fact that was obtained and is not null. *)
Definition known (f : Fact) : Prop := f_State f ≠ "unobtained" ∧ f_State f ≠ "" ∧ f_State f ≠ "null".

(** A path at an item: the item's own, or one below it when the item means its subtree. *)
Definition atItem (path : string) (it : TreeItem) : Prop :=
  path = ti_Path it ∨ ti_Mode it = "subtree" ∧ ∃ rest, path = (ti_Path it ++ "/" ++ rest)%string.

(** An amount on the inner side of a bound, or at a bound that is closed; no bound is none. *)
Definition inside (inner : comparison) (amount : decimal) (bound : option string) (closed : option bool) : Prop :=
  ∀ b, bound = Some b → ∃ d, NewFromString b = Some d ∧ (Cmp amount d = inner ∨ Cmp amount d = Eq ∧ closed = Some true).

(** What an atom asks of this record, by its kind. *)
Inductive met (dim : string) (a : Atom) : Prop :=
| met_all : a_Kind a = "all" → met dim a
| met_in : a_Kind a = "in" → known (fact facts dim) → f_Value (fact facts dim) ∈ a_Values a → met dim a
| met_self : a_Kind a = "self" → known (fact facts dim) → f_Value (fact facts dim) = principal → met dim a
| met_tree it : a_Kind a = "tree" → known (fact facts dim) → f_Value (fact facts dim) ≠ "" →
    it ∈ a_Items a → atItem (f_Value (fact facts dim)) it → met dim a
| met_interval amount : a_Kind a = "interval" → known (fact facts dim) → f_Currency (fact facts dim) = a_Currency a →
    NewFromString (f_Value (fact facts dim)) = Some amount →
    inside Gt amount (a_Lo a) (a_LoClosed a) → inside Lt amount (a_Hi a) (a_HiClosed a) → met dim a.

(** The times a segment is active: from its start on, before its end when it has one. *)
Definition inWindow (s : Segment) : Prop :=
  ∃ from, Parse (w_From (s_Valid s)) = Some from ∧ from ≤ at_ ∧
    (w_Until (s_Valid s) = "" ∨ ∃ until, Parse (w_Until (s_Valid s)) = Some until ∧ at_ < until).

(** A segment of the operation that holds on the record: it is active, and the record
    meets all its atoms. *)
Definition granting (segs : list Segment) (op : string) (s : Segment) : Prop :=
  s ∈ segs ∧ s_Operation s = op ∧ inWindow s ∧ ∀ dim a, s_Atoms s !! dim = Some a → met dim a.

Lemma HasPrefix_iff t p : HasPrefix t p = true ↔ ∃ rest, t = (p ++ rest)%string.
Proof.
  revert t. induction p as [|b p IH]; intros t; [by destruct t; (split; [by eexists|])|].
  destruct t as [|a t]; cbn [HasPrefix]; [split; [done|]; by intros [rest [=]]|].
  rewrite andb_true_iff, bool_decide_eq_true, IH. split; [intros [-> [rest ->]]; by exists rest|].
  intros [rest [= -> ->]]. eauto.
Qed.

Lemma append_assoc (s t u : string) : ((s ++ t) ++ u = s ++ t ++ u)%string.
Proof. induction s as [|a s IH]; [done|]. exact (f_equal (String a) IH). Qed.

Lemma treeHit_iff f it : treeHit f it = true ↔ atItem (f_Value f) it.
Proof.
  unfold treeHit, atItem. rewrite orb_true_iff, andb_true_iff, !bool_decide_eq_true, HasPrefix_iff.
  by setoid_rewrite append_assoc.
Qed.

Lemma beyond_True out inner amount bound closed :
  (out = Lt ∧ inner = Gt) ∨ (out = Gt ∧ inner = Lt) →
  beyond out amount bound closed = Some True_ ↔ inside inner amount bound closed.
Proof.
  intros Ho. unfold beyond, inside. destruct bound as [b|]; [|split; [by intros _ ? [=]|done]].
  destruct (NewFromString b) as [d|] eqn:Hd; [|split; [done|]; intros Hb; destruct (Hb b eq_refl) as (d & ? & _); congruence].
  split.
  - intros Hb b' [= <-]. exists d. split; [done|]. case_decide as Hc; [done|]. case_decide as He.
    + right. split; [done|]. by destruct closed as [[]|].
    + left. destruct (Cmp amount d), Ho as [[-> ->]|[-> ->]]; done.
  - intros Hb. destruct (Hb b eq_refl) as (d' & Hd' & Hc). rewrite Hd in Hd'. injection Hd' as <-.
    destruct Hc as [Hc|[Hc ->]]; rewrite Hc; destruct Ho as [[-> ->]|[-> ->]]; done.
Qed.

Lemma interval_True a f :
  interval a f = Some True_ ↔ f_Currency f = a_Currency a ∧ ∃ amount, NewFromString (f_Value f) = Some amount ∧
    inside Gt amount (a_Lo a) (a_LoClosed a) ∧ inside Lt amount (a_Hi a) (a_HiClosed a).
Proof.
  unfold interval. case_decide as Hc; [|naive_solver]. destruct (NewFromString (f_Value f)) as [amount|]; [|naive_solver].
  pose proof (beyond_True Lt Gt amount (a_Lo a) (a_LoClosed a) ltac:(auto)) as HL.
  pose proof (beyond_True Gt Lt amount (a_Hi a) (a_HiClosed a) ltac:(auto)) as HH.
  destruct (beyond Lt _ _ _) as [[]|]; cbn [mbind option_bind]; naive_solver.
Qed.

(** An atom is true exactly when the record meets it: an unknown fact never makes it so. *)
Lemma atom_True dim a : atom a (fact facts dim) principal = Some True_ ↔ met dim a.
Proof.
  unfold atom. destruct (decide (a_Kind a = "all")) as [Hk|Hna]; [split; [intros _; by apply met_all|done]|].
  destruct (decide (f_State (fact facts dim) = "unobtained" ∨ f_State (fact facts dim) = "")) as [Hu|Hu].
  { split; [done|]. intros []; unfold known in *; naive_solver. }
  destruct (decide (f_State (fact facts dim) = "null")) as [Hn|Hn].
  { split; [done|]. intros []; unfold known in *; naive_solver. }
  assert (Hkn : known (fact facts dim)) by (unfold known; naive_solver). clear Hu Hn.
  destruct (decide (a_Kind a = "in")) as [Hk|Hk1].
  { rewrite (inj_iff Some), isTrue_True, mem_true. split; [by apply met_in|intros []; congruence]. }
  destruct (decide (a_Kind a = "self")) as [Hk|Hk2].
  { rewrite (inj_iff Some), isTrue_True, bool_decide_eq_true. split; [by apply met_self|intros []; congruence]. }
  destruct (decide (a_Kind a = "tree")) as [Hk|Hk3].
  { case_decide as He; [split; [done|intros []; congruence]|].
    rewrite (inj_iff Some), isTrue_True, existsb_exists. setoid_rewrite treeHit_iff. split.
    - intros (it & Hin%list_elem_of_In & Hit). by eapply met_tree.
    - intros [| | |it|]; try congruence. exists it. by rewrite <- list_elem_of_In. }
  destruct (decide (a_Kind a = "interval")) as [Hk|Hk4]; [|split; [done|intros []; congruence]].
  rewrite interval_True. split; [intros (? & amount & ? & ? & ?); by eapply met_interval|].
  intros [| | | |amount]; try congruence. eauto.
Qed.

Lemma ActiveAt_True s : ActiveAt Parse s at_ = true ↔ inWindow s.
Proof.
  unfold ActiveAt, inWindow. destruct (Parse (w_From _)) as [from|]; [|naive_solver].
  case_decide as Hf; [split; [done|intros (? & [= <-] & ? & _); lia]|].
  case_decide as He; [split; [intros _; exists from; repeat split; [lia|by left]|done]|].
  destruct (Parse (w_Until _)) as [until|]; [rewrite bool_decide_eq_true|split; [done|naive_solver]].
  split; [intros Hu; exists from; repeat split; [lia|eauto]|]. intros (? & _ & _ & [?|(? & [= <-] & ?)]); [done|lia].
Qed.

Lemma atomsLoop_True out l :
  atomsLoop out l facts principal = Some True_ ↔ out = True_ ∧ ∀ dim a, (dim, a) ∈ l → met dim a.
Proof.
  revert out. induction l as [|[dim a] l IH]; intros out; simpl.
  { split; [|naive_solver]. intros [= ->]. split; [done|]. by intros ? ? ?%elem_of_nil. }
  assert (Hc : (∀ dim' a', (dim', a') ∈ (dim, a) :: l → met dim' a') ↔
    met dim a ∧ ∀ dim' a', (dim', a') ∈ l → met dim' a').
  { setoid_rewrite elem_of_cons. split; [naive_solver|]. intros [Hm Hl] ? ? [[= -> ->]|?]; auto. }
  rewrite Hc, <- atom_True.
  destruct (atom a _ _) as [[]|]; simpl; [naive_solver| |rewrite IH; naive_solver|naive_solver].
  rewrite IH. naive_solver.
Qed.

Lemma segment_True s :
  segment s facts principal at_ = Some True_ ↔ inWindow s ∧ ∀ dim a, s_Atoms s !! dim = Some a → met dim a.
Proof.
  unfold segment. rewrite <- ActiveAt_True. destruct (ActiveAt Parse s at_); [|naive_solver].
  rewrite atomsLoop_True. setoid_rewrite elem_of_map_to_list. naive_solver.
Qed.

Lemma granting_segment segs op s :
  granting segs op s ↔ s ∈ segs ∧ s_Operation s = op ∧ segment s facts principal at_ = Some True_.
Proof. unfold granting. by rewrite segment_True. Qed.

(** The union over the operation's segments that hold of what [Q] says of them. *)
Definition some_granting (segs : list Segment) (op : string) (Q : Segment → Prop) : Prop :=
  ∃ s, granting segs op s ∧ Q s.

Lemma some_granting_nil op Q : some_granting [] op Q ↔ False.
Proof. split; [|done]. by intros (s & (?%elem_of_nil & _) & _). Qed.

Lemma some_granting_cons s segs op Q :
  some_granting (s :: segs) op Q ↔
  (s_Operation s = op ∧ segment s facts principal at_ = Some True_ ∧ Q s) ∨ some_granting segs op Q.
Proof.
  unfold some_granting. setoid_rewrite granting_segment. setoid_rewrite elem_of_cons. split.
  - intros (t & ([->|Ht] & Ho & Hs) & HQ); [by left|right; eauto].
  - intros [(Ho & Hs & HQ)|(t & (Ht & Ho & Hs) & HQ)]; eauto 10.
Qed.

Lemma some_granting_True segs op : some_granting segs op (λ _, True) ↔ ∃ s, granting segs op s.
Proof. split; [intros (s & Hs & _)|intros (s & Hs)]; by exists s. Qed.

Lemma entitledLoop_spec res fields segs op res' fields' :
  entitledLoop res fields segs op facts principal at_ = Some (res', fields') →
  (res' = True_ ↔ res = True_ ∨ some_granting segs op (λ _, True)) ∧
  (∀ f, f ∈ fields' ↔ f ∈ fields ∨ some_granting segs op (λ s, f ∈ s_ReadFields s)).
Proof.
  revert res fields. induction segs as [|s segs IH]; intros res fields; cbn [entitledLoop].
  { intros [= -> ->]. split; [|intros f]; rewrite some_granting_nil; tauto. }
  rewrite some_granting_cons. setoid_rewrite some_granting_cons.
  destruct (decide (s_Operation s = op)) as [Ho|Ho]; [|intros [H1 H2]%IH; split; [|intros f]; rewrite ?H1, ?H2; tauto].
  destruct (segment s facts principal at_) as [[]|] eqn:Hs; cbn [mbind option_bind]; [| | |done];
    intros [H1 H2]%IH; (split; [rewrite H1|intros f; rewrite H2]);
    rewrite ?elem_of_union, ?elem_of_list_to_set; try (intuition congruence).
  case_decide; intuition congruence.
Qed.

Lemma entitled_True segs op res fields :
  entitled segs op facts principal at_ = Some (res, fields) →
  (res = True_ ↔ ∃ s, granting segs op s) ∧ (∀ f, f ∈ fields ↔ ∃ s, granting segs op s ∧ f ∈ s_ReadFields s).
Proof.
  intros [H1 H2]%entitledLoop_spec. rewrite some_granting_True in H1. split; [intuition congruence|].
  intros f. rewrite H2, elem_of_empty. unfold some_granting. tauto.
Qed.

(** ** No nil pointer *)

Lemma beyond_total out amount bound closed :
  (is_Some bound ↔ is_Some closed) → is_Some (beyond out amount bound closed).
Proof.
  intros Hc. unfold beyond. destruct bound as [b|]; [|eauto].
  destruct (NewFromString b); [|eauto]. repeat case_decide; eauto.
  destruct (proj1 Hc) as [x ->]; [eauto|]. simpl. eauto.
Qed.

Lemma atom_total d a f : atomFits d a → is_Some (atom a f principal).
Proof.
  intros Hf. unfold atom. repeat case_decide; eauto.
  destruct Hf as [?|[?|[[? _]|[[? _]|(_ & _ & _ & Hlo & Hhi)]]]]; [congruence..|].
  unfold interval. case_decide; [|eauto]. destruct (NewFromString _) as [amount|]; [|eauto].
  destruct (beyond_total Lt amount _ _ Hlo) as [[] ->]; simpl; eauto.
  by apply beyond_total.
Qed.

Lemma atomsLoop_total out l :
  (∀ dim a, (dim, a) ∈ l → ∃ d, atomFits d a) → is_Some (atomsLoop out l facts principal).
Proof.
  revert out. induction l as [|[dim a] l IH]; intros out Hl; simpl; [eauto|].
  destruct (Hl dim a) as [d Hd]; [by left|].
  destruct (atom_total d a (fact facts dim) Hd) as [[] ->]; simpl; [eauto|apply IH|apply IH];
    intros; eapply Hl; by right.
Qed.

Lemma segment_total r s : Check r s = None → is_Some (segment s facts principal at_).
Proof.
  intros [Hd Ha _]%Check_None. unfold segment. case_match; [|eauto]. apply atomsLoop_total.
  intros dim a Hl%elem_of_map_to_list.
  assert (Hin : dim ∈ dom (dims r)) by (rewrite <- Hd; by eapply elem_of_dom_2).
  apply elem_of_dom in Hin as [d Hdim]. eauto.
Qed.

Lemma entitled_total segs op :
  (∀ s, s ∈ segs → s_Operation s = op → is_Some (segment s facts principal at_)) →
  is_Some (entitled segs op facts principal at_).
Proof.
  unfold entitled. generalize (∅ : gset string) as fields. generalize False_ as res.
  induction segs as [|s segs IH]; intros res fields Hs; cbn [entitledLoop]; [eauto|].
  assert (Hl : ∀ s0, s0 ∈ segs → s_Operation s0 = op → is_Some (segment s0 facts principal at_))
    by (intros; apply Hs; [by right|done]).
  case_decide as Ho; [|by apply IH].
  destruct (Hs s (list_elem_of_here _ _) Ho) as [[] ->]; cbn [mbind option_bind]; by apply IH.
Qed.

(** ** Decisions *)

(** What [Evaluate] gives, in terms of the segments that hold. *)
Lemma Evaluate_spec r segs op d :
  Evaluate r segs op facts principal at_ = Some d →
  (dc_Visible d = True_ ↔ ∃ s, granting segs (r_ViewOperation r) s) ∧
  (dc_Action d = True_ ↔ (∃ s, granting segs (r_ViewOperation r) s) ∧ ∃ s, granting segs op s) ∧
  (∀ f, f ∈ dc_Fields d ↔ dc_Visible d = True_ ∧ shown r f = true ∧
        ∃ s, granting segs op s ∧ f ∈ s_ReadFields s).
Proof.
  unfold Evaluate. destruct (entitled segs (r_ViewOperation r) _ _ _) as [[v vf]|] eqn:Hv; [|done].
  apply entitled_True in Hv as [Hv Hvf]. cbn [mbind option_bind].
  assert (Hfields : ∀ fs : gset string, (∀ f, f ∈ fs ↔ ∃ s, granting segs op s ∧ f ∈ s_ReadFields s) →
    ∀ f, f ∈ (if decide (v = True_) then sortStrings (filter (λ f, shown r f) (elements fs)) else []) ↔
    v = True_ ∧ shown r f = true ∧ ∃ s, granting segs op s ∧ f ∈ s_ReadFields s).
  { intros fs Hfs f. case_decide as Hvt; [|split; [by intros ?%elem_of_nil|naive_solver]].
    rewrite sortStrings_elem, list_elem_of_filter, elem_of_elements, Hfs, Is_true_true. naive_solver. }
  destruct (decide (op = r_ViewOperation r)) as [->|Hop]; cbn [mbind option_bind].
  - intros [= <-]. cbn. split; [done|]. split; [rewrite Hv; naive_solver|by apply Hfields].
  - destruct (entitled segs op _ _ _) as [[a af]|] eqn:Ha; [|done]. apply entitled_True in Ha as [Ha Haf].
    cbn [mbind option_bind]. intros [= <-]. cbn. split; [done|].
    split; [by rewrite and_True, Hv, Ha|by apply Hfields].
Qed.

Lemma Evaluate_total r segs op :
  (∀ s, s ∈ segs → Check r s = None) → is_Some (Evaluate r segs op facts principal at_).
Proof.
  intros Hs. unfold Evaluate.
  destruct (entitled_total segs (r_ViewOperation r)) as [[v vf] ->]; [intros; by eapply segment_total, Hs|].
  cbn [mbind option_bind]. destruct (decide (op = _)); [simpl; eauto|].
  destruct (entitled_total segs op) as [[a af] ->]; [intros; by eapply segment_total, Hs|]. simpl. eauto.
Qed.

(** C38. For segments that pass [Check], the evaluation always gives a decision, and it
    allows the operation on a record exactly when some segment of the resource's view
    operation and some segment of the operation asked grant it: each is active, its
    window's start parses and is not after the time and its end is absent or parses and is
    after the time; and the record meets each of its atoms as its kind means it: a known
    fact among the values, equal to the principal, not empty and at or below a tree item's
    path, or an amount of the atom's currency within bounds that parse.  An unobtained or
    null fact or one that does not parse meets no atom but the one for all.  The fields the
    decision names are declared, not secret, and read by a segment of the operation that
    grants it. *)
Theorem allowed_iff_granted r segs op :
  (∀ s, s ∈ segs → Check r s = None) →
  ∃ d, Evaluate r segs op facts principal at_ = Some d ∧
    (Err_ d = None ↔ (∃ s, granting segs (r_ViewOperation r) s) ∧ ∃ s, granting segs op s) ∧
    (∀ f, f ∈ dc_Fields d → shown r f = true ∧
       (∃ s, granting segs (r_ViewOperation r) s) ∧ ∃ s, granting segs op s ∧ f ∈ s_ReadFields s).
Proof.
  intros Hs. destruct (Evaluate_total r segs op Hs) as [d Hd]. exists d. split; [done|].
  apply Evaluate_spec in Hd as (Hv & Ha & Hf). split.
  - rewrite <- Ha. unfold Err_.
    assert (Hav : dc_Action d = True_ → dc_Visible d = True_) by (rewrite Ha, Hv; naive_solver).
    destruct (dc_Visible d) eqn:Ev, (dc_Action d) eqn:Ea; simpl; naive_solver.
  - intros f Hin%Hf. naive_solver.
Qed.

End props.

(** ** Masking *)

Section mask.
Context {V : Type} (r : Resource) (readable : list string).

Lemma maskOne_fold l (acc : gmap string (shapedVal V) * list string) shaped masked :
  NoDup (map fst l) → (∀ k v, (k, v) ∈ l → acc.1 !! k = None) →
  foldl (maskOne r readable) acc l = (shaped, masked) →
  (∀ k, shaped !! k =
     match list_to_map (M := gmap string V) l !! k with
     | Some v => if shown r k then Some (if mem k readable then Shown v else Nil) else None
     | None => acc.1 !! k
     end) ∧
  (∀ k, k ∈ masked ↔ k ∈ acc.2 ∨ ((∃ v, (k, v) ∈ l) ∧ shown r k = true ∧ mem k readable = false)).
Proof.
  revert acc. induction l as [|[k v] l IH]; intros acc Hn Hacc; cbn [foldl map fst].
  { destruct acc as [m ms]. intros [= -> ->]. cbn. split; [done|]. set_solver. }
  apply NoDup_cons in Hn as [Hk Hn].
  assert (Hkl : list_to_map (M := gmap string V) l !! k = None) by (by apply not_elem_of_list_to_map_1).
  intros Hf. apply IH in Hf; [|done|].
  - destruct Hf as [H1 H2]. split.
    + intros x. rewrite H1. cbn [list_to_map foldr]. destruct (decide (x = k)) as [->|Hx].
      * rewrite Hkl, lookup_insert_eq. unfold maskOne. cbn [fst snd].
        destruct (shown r k); [destruct (mem k readable); cbn; apply lookup_insert_eq|].
        apply (Hacc k v). by left.
      * rewrite lookup_insert_ne by done. destruct (list_to_map l !! x); [done|].
        unfold maskOne. cbn [fst snd]. destruct (shown r k); [|done].
        destruct (mem k readable); cbn; by rewrite lookup_insert_ne.
    + intros x. rewrite H2. unfold maskOne. cbn [fst snd].
      assert (Hc : (∃ v0, (x, v0) ∈ (k, v) :: l) ↔ x = k ∨ ∃ v0, (x, v0) ∈ l).
      { setoid_rewrite elem_of_cons. split; [intros [w [[= -> ->]|Hw]]; eauto|]. intros [->|[w Hw]]; eauto. }
      rewrite Hc. clear - k.
      destruct (shown r k) eqn:Hs; [|intuition congruence].
      destruct (mem k readable) eqn:Hm; cbn [fst snd]; [intuition congruence|].
      rewrite elem_of_app, list_elem_of_singleton. intuition congruence.
  - intros x w Hx. assert (x ≠ k).
    { intros ->. apply Hk. apply list_elem_of_fmap. by exists (k, w). }
    unfold maskOne. cbn [fst snd]. destruct (shown r k); [|eapply Hacc; by right].
    destruct (mem k readable); cbn; rewrite lookup_insert_ne by done; eapply Hacc; by right.
Qed.

(** [Mask] passes a value through only for a declared, not secret, readable key of the
    object, and unchanged; every other declared, not secret key is null and named, sorted,
    under [_masked]; a secret or undeclared key does not appear.  (The key [_masked] itself
    is taken to be no field of the object.) *)
Theorem Mask_spec (out : gmap string V) :
  out !! Masked = None →
  let masked k := is_Some (out !! k) ∧ shown r k = true ∧ k ∉ readable in
  (∀ k v, Mask r out readable !! k = Some (Shown v) ↔ out !! k = Some v ∧ shown r k = true ∧ k ∈ readable) ∧
  (∀ k, Mask r out readable !! k = Some Nil ↔ masked k) ∧
  (∀ k l, Mask r out readable !! k = Some (Names l) →
     k = Masked ∧ Sorted strLe l ∧ ∀ x, x ∈ l ↔ masked x) ∧
  (is_Some (Mask r out readable !! Masked) ↔ ∃ k, masked k).
Proof.
  intros Hout masked. unfold Mask.
  destruct (foldl (maskOne r readable) (∅, []) (map_to_list out)) as [shaped ms] eqn:Hf.
  apply maskOne_fold in Hf as [Hs Hm]; [|apply NoDup_fst_map_to_list|intros; apply lookup_empty].
  cbn [fst snd] in *. rewrite list_to_map_to_list in Hs.
  assert (Hmem : ∀ k, k ∈ ms ↔ masked k).
  { intros k. rewrite Hm. unfold masked, mem. setoid_rewrite elem_of_map_to_list.
    rewrite bool_decide_eq_false. rewrite elem_of_nil. unfold is_Some. naive_solver. }
  assert (Hval : ∀ k, shaped !! k = match out !! k with
     | Some v => if shown r k then Some (if mem k readable then Shown v else Nil) else None | None => None end).
  { intros k. rewrite Hs. destruct (out !! k); [done|]. apply lookup_empty. }
  assert (HvM : shaped !! Masked = None) by (by rewrite Hval, Hout).
  assert (Hne : ∀ k (x : shapedVal V), shaped !! k = Some x → k ≠ Masked) by (intros k x Hx ->; congruence).
  assert (HS : ∀ k v, shaped !! k = Some (Shown v) ↔ out !! k = Some v ∧ shown r k = true ∧ k ∈ readable).
  { intros k v. rewrite Hval. unfold mem. destruct (out !! k), (shown r k); try case_bool_decide; naive_solver. }
  assert (HN : ∀ k, shaped !! k = Some Nil ↔ masked k).
  { intros k. rewrite Hval. unfold masked, mem, is_Some.
    destruct (out !! k), (shown r k); try case_bool_decide; naive_solver. }
  assert (HL : ∀ k l, shaped !! k ≠ Some (Names l)).
  { intros k l. rewrite Hval. destruct (out !! k), (shown r k); try destruct (mem k readable); naive_solver. }
  case_decide as Hms.
  - split; [done|]. split; [done|]. split; [intros k l Hk; by destruct (HL k l)|].
    rewrite HvM. split; [by intros [? ?]|]. intros [k Hk%Hmem]. rewrite Hms in Hk. by apply elem_of_nil in Hk.
  - assert (Hlk : ∀ k (x : shapedVal V), <[Masked := Names (sortStrings ms)]> shaped !! k = Some x ↔
      (k = Masked ∧ x = Names (sortStrings ms)) ∨ shaped !! k = Some x).
    { intros k x. rewrite lookup_insert_Some. split; [naive_solver|].
      intros [[-> ->]|Hx]; [by left|]. right. split; [|done]. intros <-. congruence. }
    split; [intros k v; rewrite Hlk, <- HS; naive_solver|].
    split; [intros k; rewrite Hlk, <- HN; naive_solver|]. split.
    + intros k l [[-> [= ->]]|Hk]%Hlk; [|by destruct (HL k l)]. split; [done|]. split.
      * apply sortStrings_Sorted.
      * intros x. by rewrite sortStrings_elem.
    + split; [|intros _; eexists; apply Hlk; by left]. intros _.
      destruct ms as [|k ms']; [done|]. exists k. apply Hmem. by left.
Qed.
End mask.
