(* ===== verification/AuthzSql.v ===== *)
(** * Compiling a subject's segments into a query

    authz/sql.go: the compiler ([arg], [atom], [segment], [union], [orAll], [Compile]) and
    the plan it gives ([Fields], [ReadableWhere], [ReadableEverywhere], [likeEscape]).

    The code writes SQL text.  Here it builds the predicate as a tree, with a placeholder
    as its number, and [print] is the text the code writes for it.  [holds] is what the
    database makes of it on one row: three-valued, an error ([None]) for a missing column,
    a type that does not fit or a text that is no numeric. *)
From S2P Require Import Prelude GoStr AuthzDefs AuthzDeclared AuthzEval.
From stdpp Require Import pretty.
From Stdlib Require Import Ascii String.
Open Scope string_scope.
Open Scope Z_scope.
Open Scope list_scope.

(** ** Predicates and their text *)

Inductive cmpOp := Ge_ | Gt_ | Le_ | Lt_.

Inductive pred :=
| PTrue
| PFalse
| PEqAny (col : string) (n : nat)
| PEq (col : string) (n : nat)
| PLike (col : string) (n : nat)
| PNotNull (col : string)
| PCmp (col : string) (op : cmpOp) (n : nat)
| PAnd (l : list pred)
| POr (l : list pred)
| PBoth (p q : pred)
| PCoalesce (p : pred).

Inductive argv := AText (s : string) | ATexts (l : list string).

Definition opText (op : cmpOp) : string :=
  match op with Ge_ => ">=" | Gt_ => ">" | Le_ => "<=" | Lt_ => "<" end.

Definition dollar (n : nat) : string := ("$" ++ pretty (N.of_nat n))%string.

(** The text of a predicate; [col] is [compiler.col] on a column name. *)
Fixpoint print (col : string → string) (p : pred) : string :=
  match p with
  | PTrue => "TRUE"
  | PFalse => "FALSE"
  | PEqAny c n => (col c ++ " = ANY(" ++ dollar n ++ ")")%string
  | PEq c n => (col c ++ " = " ++ dollar n)%string
  | PLike c n => (col c ++ " LIKE " ++ dollar n ++ " ESCAPE '\'")%string
  | PNotNull c => (col c ++ " IS NOT NULL")%string
  | PCmp c op n => (col c ++ " " ++ opText op ++ " " ++ dollar n ++ "::numeric")%string
  | PAnd l => ("(" ++ String.concat " AND " (map (print col) l) ++ ")")%string
  | POr l => ("(" ++ String.concat " OR " (map (print col) l) ++ ")")%string
  | PBoth p q => (print col p ++ " AND " ++ print col q)%string
  | PCoalesce p => ("COALESCE(" ++ print col p ++ ", FALSE)")%string
  end.

(** ** The compiler *)

Inductive cerr :=
| NotPushdown (dim : string)   (* QUERY_NOT_COMPLETABLE: the dimension is not pushdownable *)
| NotUnderstood (kind dim : string) (* QUERY_NOT_COMPLETABLE: the atom's kind *)
| NilPointer                   (* the closedness of a bound is missing *)
| NoDigest.                    (* a digest failed *)

(** [likeEscape]. *)
Fixpoint likeEscape (s : string) : string :=
  match s with
  | EmptyString => EmptyString
  | String a s' =>
      if decide (a = "\"%char ∨ a = "%"%char ∨ a = "_"%char) then String "\" (String a (likeEscape s'))
      else String a (likeEscape s')
  end.

Record compiler := MkCompiler { c_r : Resource; c_principal : string; c_base : nat }.

Section compile.
Variable c : compiler.

(** [compiler.arg]: the argument joins the others, its placeholder is counted from [base]. *)
Definition arg (v : argv) (args : list argv) : nat * list argv :=
  ((c_base c + List.length (args ++ [v]))%nat, args ++ [v]).

(** The parts of a tree atom, item by item. *)
Fixpoint treeParts (col : string) (items : list TreeItem) (args : list argv) : list pred * list argv :=
  match items with
  | [] => ([], args)
  | it :: items =>
      let '(part, args) :=
        (if decide (ti_Mode it = "subtree") then
           let '(n, args) := arg (AText (ti_Path it)) args in
           let '(m, args) := arg (AText (likeEscape (ti_Path it) ++ "/%")%string) args in
           (POr [PEq col n; PLike col m], args)
         else let '(n, args) := arg (AText (ti_Path it)) args in (PEq col n, args)) in
      let '(parts, args) := treeParts col items args in
      (part :: parts, args)
  end.

(** The part of one bound of an interval, when there is one. *)
Definition boundPart (col : string) (bound : option string) (closed : option bool) (shut open : cmpOp)
    (args : list argv) : res cerr (list pred * list argv) :=
  match bound with
  | None => Ok ([], args)
  | Some b =>
      match closed with
      | None => Err NilPointer
      | Some cl =>
          let '(n, args) := arg (AText b) args in
          Ok ([PCmp col (if cl then shut else open) n], args)
      end
  end.

(** [compiler.atom]; no predicate is the empty text.  A dimension that is not declared
    reads as the zero one. *)
Definition zeroDimension : Dimension := MkDimension "" "" "" "" "" "".
Definition catom (dim : string) (a : Atom) (args : list argv) : res cerr (option pred * list argv) :=
  let d := default zeroDimension (dims (c_r c) !! dim) in
  let col := d_Column d in
  if decide (a_Kind a ≠ "all" ∧ d_Pushdown d = NotPushdownable) then Err (NotPushdown dim)
  else if decide (a_Kind a = "all") then Ok (None, args)
  else if decide (a_Kind a = "in") then
    (if decide (a_Values a = []) then Ok (Some PFalse, args)
     else let '(n, args) := arg (ATexts (a_Values a)) args in Ok (Some (PEqAny col n), args))
  else if decide (a_Kind a = "self") then
    (let '(n, args) := arg (AText (c_principal c)) args in Ok (Some (PEq col n), args))
  else if decide (a_Kind a = "tree") then
    (let '(parts, args) := treeParts col (a_Items a) args in
     Ok (Some (if decide (parts = []) then PFalse else POr parts), args))
  else if decide (a_Kind a = "interval") then
    (let '(n, args) := arg (AText (a_Currency a)) args in
     match boundPart col (a_Lo a) (a_LoClosed a) Ge_ Gt_ args with
     | Err e => Err e
     | Ok (lo, args) =>
         match boundPart col (a_Hi a) (a_HiClosed a) Le_ Lt_ args with
         | Err e => Err e
         | Ok (hi, args) => Ok (Some (PAnd ([PNotNull col; PEq (d_CurrencyColumn d) n] ++ lo ++ hi)), args)
         end
     end)
  else Err (NotUnderstood (a_Kind a) dim).

(** The loop of [compiler.segment] over the sorted dimensions; a key the map does not hold
    would read as the zero atom. *)
Definition zeroAtom : Atom := MkAtom "" [] [] "" None None None None.
Fixpoint csegmentLoop (atoms : gmap string Atom) (ds : list string) (args : list argv)
  : res cerr (list pred * list argv) :=
  match ds with
  | [] => Ok ([], args)
  | dim :: ds =>
      match catom dim (default zeroAtom (atoms !! dim)) args with
      | Err e => Err e
      | Ok (p, args) =>
          match csegmentLoop atoms ds args with
          | Err e => Err e
          | Ok (parts, args) => Ok (match p with Some p => p :: parts | None => parts end, args)
          end
      end
  end.

Definition csegment (s : Segment) (args : list argv) : res cerr (pred * list argv) :=
  match csegmentLoop (s_Atoms s) (sortStrings (map fst (map_to_list (s_Atoms s)))) args with
  | Err e => Err e
  | Ok (parts, args) => Ok (if decide (parts = []) then PTrue else PAnd parts, args)
  end.

(** [compiler.union]. *)
Fixpoint union_ (segs : list Segment) (args : list argv) : res cerr (list pred * list argv) :=
  match segs with
  | [] => Ok ([], args)
  | s :: segs =>
      match csegment s args with
      | Err e => Err e
      | Ok (p, args) =>
          match union_ segs args with
          | Err e => Err e
          | Ok (ps, args) => Ok (p :: ps, args)
          end
      end
  end.

End compile.

Definition orAll (preds : list pred) : pred := if decide (preds = []) then PFalse else POr preds.

Record Plan := MkPlan {
  p_Where : pred;
  p_Args : list argv;
  p_Hits : list pred;
  p_Digest : string;
  p_sets : list (list string) }.

(** What the plan's digest is made of: a segment's and a resource definition's digest, and
    the hash over their sorted texts. *)
Class Digests := {
  segmentDigest : Segment → option string;
  resourceDigest : Resource → option string;
  planHash : list string → string }.

Section Compile.
Context `{Env} `{Digests}.

Definition active (segs : list Segment) (op : string) (at_ : Z) : list Segment :=
  filter (λ s, s_Operation s = op ∧ ActiveAt Parse s at_ = true) segs.

(** The read fields of a segment a plan may show. *)
Definition fieldSet (r : Resource) (s : Segment) : list string := filter (λ f, shown r f) (s_ReadFields s).

(** The last lines of [Compile]: the digest over every segment the plan depends on. *)
Definition planDigest (r : Resource) (used : list Segment) (op : string) : option string :=
  ds ← mapM segmentDigest used;
  rd ← resourceDigest r;
  Some (planHash (sortStrings ds ++ [rd; op])).

Definition Compile (r : Resource) (segs : list Segment) (op principal : string) (at_ : Z) (argBase : nat)
  : res cerr Plan :=
  let c := MkCompiler r principal argBase in
  let view := active segs (r_ViewOperation r) at_ in
  match union_ c view [] with
  | Err e => Err e
  | Ok (viewPreds, args) =>
      match
        (if decide (op = r_ViewOperation r) then Ok (orAll viewPreds, view, viewPreds, view, args)
         else
           let opSegs := active segs op at_ in
           match union_ c opSegs args with
           | Err e => Err e
           | Ok (opPreds, args) =>
               Ok (PBoth (orAll viewPreds) (orAll opPreds), opSegs, opPreds, view ++ opSegs, args)
           end)
      with
      | Err e => Err e
      | Ok (where_, fieldSegs, hitPreds, used, args) =>
          match planDigest r used op with
          | None => Err NoDigest
          | Some digest => Ok (MkPlan where_ args (map PCoalesce hitPreds) digest (map (fieldSet r) fieldSegs))
          end
      end
  end.

End Compile.

(** ** Reading a plan *)

(** [Plan.Fields]: the fields of the sets whose bit is on. *)
Definition Fields (p : Plan) (hits : list bool) : list string :=
  sortStrings (elements (list_to_set (C := gset string)
    (List.concat (map (λ '(h, set), if (h : bool) then set else []) (zip hits (p_sets p)))))).

(** [Plan.ReadableWhere]. *)
Definition ReadableWhere (p : Plan) (field : string) : pred :=
  orAll (omap (λ '(set, h), if mem field set then Some h else None) (zip (p_sets p) (p_Hits p))).

(** [Plan.ReadableEverywhere]. *)
Definition ReadableEverywhere (p : Plan) (field : string) : bool :=
  negb (bool_decide (p_sets p = [])) && forallb (mem field) (p_sets p).

(** ** What the database makes of a predicate *)

Inductive cell (D : Type) := CNull | CText (s : string) | CNum (d : D).
Arguments CNull {D}.
Arguments CText {D} s.
Arguments CNum {D} d.

(** Some suffix of the text matches. *)
Fixpoint anySuffix (f : string → option bool) (s : string) : option bool :=
  match f s with
  | Some false => match s with EmptyString => Some false | String _ s' => anySuffix f s' end
  | x => x
  end.

(** [LIKE] with the escape character; a pattern that ends with it is an error. *)
Fixpoint like (p s : string) {struct p} : option bool :=
  match p with
  | EmptyString => Some (bool_decide (s = EmptyString))
  | String b p' =>
      if decide (b = "\"%char) then
        match p' with
        | EmptyString => None
        | String b' p'' =>
            match s with
            | EmptyString => Some false
            | String a s' => if decide (a = b') then like p'' s' else Some false
            end
        end
      else if decide (b = "%"%char) then anySuffix (like p') s
      else if decide (b = "_"%char) then match s with EmptyString => Some false | String _ s' => like p' s' end
      else match s with
           | EmptyString => Some false
           | String a s' => if decide (a = b) then like p' s' else Some false
           end
  end.

Definition and3 (a b : option bool) : option bool :=
  match a, b with
  | Some false, _ | _, Some false => Some false
  | Some true, Some true => Some true
  | _, _ => None
  end.
Definition or3 (a b : option bool) : option bool :=
  match a, b with
  | Some true, _ | _, Some true => Some true
  | Some false, Some false => Some false
  | _, _ => None
  end.

Definition compared (op : cmpOp) (c : comparison) : bool :=
  match op, c with
  | Ge_, Lt => false | Ge_, _ => true
  | Gt_, Gt => true | Gt_, _ => false
  | Le_, Gt => false | Le_, _ => true
  | Lt_, Lt => true | Lt_, _ => false
  end.

Section holds.
Context `{Env}.
(** [numeric] is the cast [::numeric]; the row is its columns' values. *)
Variables (numeric : string → option decimal) (row : gmap string (cell decimal)).
Variables (base : nat) (args : list argv).

Definition argAt (n : nat) : option argv := if decide (base < n)%nat then args !! (n - base - 1)%nat else None.

(** A text column against a condition on texts; NULL gives NULL. *)
Definition onText (col : string) (f : string → option bool) : option (option bool) :=
  v ← row !! col;
  match v with CNull => Some None | CText s => b ← f s; Some (Some b) | CNum _ => None end.

Definition textArg (n : nat) : option string := a ← argAt n; match a with AText s => Some s | ATexts _ => None end.

(** The outer [option] is the query's error, the inner one SQL's NULL. *)
Fixpoint holds (p : pred) : option (option bool) :=
  match p with
  | PTrue => Some (Some true)
  | PFalse => Some (Some false)
  | PEqAny c n =>
      a ← argAt n;
      match a with ATexts l => onText c (λ s, Some (mem s l)) | AText _ => None end
  | PEq c n => t ← textArg n; onText c (λ s, Some (bool_decide (s = t)))
  | PLike c n => t ← textArg n; onText c (like t)
  | PNotNull c => v ← row !! c; Some (Some (match v with CNull => false | _ => true end))
  | PCmp c op n =>
      t ← textArg n; d ← numeric t; v ← row !! c;
      match v with CNull => Some None | CNum x => Some (Some (compared op (Cmp x d))) | CText _ => None end
  | PAnd l => (fix go l := match l with
                           | [] => Some (Some true)
                           | q :: l => x ← holds q; y ← go l; Some (and3 x y)
                           end) l
  | POr l => (fix go l := match l with
                          | [] => Some (Some false)
                          | q :: l => x ← holds q; y ← go l; Some (or3 x y)
                          end) l
  | PBoth p q => x ← holds p; y ← holds q; Some (and3 x y)
  | PCoalesce p => x ← holds p; Some (Some (default false x))
  end.

(** A row is selected when the predicate is true, not when it is NULL. *)
Definition selects (p : pred) : bool := bool_decide (holds p = Some (Some true)).

(** The bitmap of a row. *)
Definition bitmap (p : Plan) : list bool := map selects (p_Hits p).

End holds.
