(* ===== verification/AuthzSqlProps.v ===== *)
(** * The compiled query decides as the evaluation does

    A row and a record's facts say the same thing ([rowFacts]).  Then the predicate
    [Compile] builds selects the row exactly when [Evaluate] allows the record, it never
    fails, and the row's bitmap gives the fields [Evaluate] gives.

    The compiler threads its arguments, so each lemma speaks of every list of arguments
    that extends the one the compiled part left: what is compiled later does not change
    what an earlier placeholder stands for. *)
From S2P Require Import Prelude GoStr AuthzDefs AuthzDeclared AuthzEval AuthzEvalProps AuthzSql.
From Stdlib Require Import Ascii String.
Open Scope string_scope.
Open Scope Z_scope.
Open Scope list_scope.

(** ** [LIKE] and the escape *)

Lemma app_String a s t : (String a s ++ t)%string = String a (s ++ t)%string.
Proof. done. Qed.

Lemma anySuffix_end t : anySuffix (λ s, Some (bool_decide (s = ""))) t = Some true.
Proof. induction t as [|x t IH]; [done|]. cbn [anySuffix]. by rewrite bool_decide_eq_false_2. Qed.

Lemma like_literal b p s :
  b ≠ "\"%char → b ≠ "%"%char → b ≠ "_"%char →
  like (String b p) s =
  match s with EmptyString => Some false | String a s' => if decide (a = b) then like p s' else Some false end.
Proof. intros. cbn [like]. by rewrite !decide_False. Qed.

Lemma like_escaped b p s :
  like (String "\" (String b p)) s =
  match s with EmptyString => Some false | String a s' => if decide (a = b) then like p s' else Some false end.
Proof. done. Qed.

(** The pattern of a subtree matches the paths below it, whatever characters they hold. *)
Lemma like_prefix p s : like (likeEscape p ++ "/%")%string s = Some (HasPrefix s (p ++ "/")%string).
Proof.
  revert s. induction p as [|b p IH]; intros s.
  - change (likeEscape "" ++ "/%")%string with "/%". change ("" ++ "/")%string with "/".
    rewrite like_literal by done. destruct s as [|a s]; [done|]. cbn [HasPrefix].
    case_decide as Ha; [|by rewrite bool_decide_eq_false_2].
    rewrite bool_decide_eq_true_2 by done. change (like "%" s) with (anySuffix (λ s, Some (bool_decide (s = ""))) s).
    rewrite anySuffix_end. by destruct s.
  - rewrite app_String. cbn [likeEscape].
    assert (Hstep : ∀ t, match t with EmptyString => Some false | String a s' => if decide (a = b)
      then like (likeEscape p ++ "/%")%string s' else Some false end = Some (HasPrefix t (String b (p ++ "/")%string))).
    { intros [|a t]; [done|]. cbn [HasPrefix]. case_decide as Ha; [rewrite IH, bool_decide_eq_true_2 by done|];
        [done|by rewrite bool_decide_eq_false_2]. }
    case_decide as Hb; rewrite !app_String; [by rewrite like_escaped|]. rewrite like_literal by naive_solver. done.
Qed.

(** ** Active segments that hold *)

Section active.
Context `{Env} (facts : Facts) (principal : string) (at_ : Z).

(** Whether a segment holds, as a boolean. *)
Definition hit (s : Segment) : bool := bool_decide (segment s facts principal at_ = Some True_).

Lemma active_elem segs op s : s ∈ active segs op at_ ↔ s ∈ segs ∧ s_Operation s = op ∧ ActiveAt Parse s at_ = true.
Proof. unfold active. rewrite list_elem_of_filter. naive_solver. Qed.

Lemma active_hit segs op : existsb id (map hit (active segs op at_)) = true ↔ ∃ s, granting facts principal at_ segs op s.
Proof.
  rewrite existsb_exists. split.
  - intros (b & Hin%list_elem_of_In & Hid). setoid_rewrite granting_segment. unfold id in Hid. subst b. apply list_elem_of_fmap in Hin as (s & Hb & (Hs & Ho & _)%active_elem).
    exists s. split; [done|]. split; [done|]. by apply (bool_decide_eq_true_1 _ (eq_sym Hb)).
  - intros (s & (Hs & Ho & Ht)%granting_segment). exists true. split; [|done]. apply list_elem_of_In, list_elem_of_fmap. exists s.
    split; [unfold hit; by rewrite bool_decide_eq_true_2|]. apply active_elem.
    apply segment_True in Ht as [Hact _]. by rewrite ActiveAt_True.
Qed.

End active.

(** ** The facts of a row *)

Section correct.
Context `{Env}.
Variables (numeric : string → option decimal) (r : Resource).

(** The fact of a dimension and the columns it lives in say the same: a null fact is a
    NULL, a value is the column's text, an amount its decimal with the currency beside
    it.  A row holds every declared column, so no fact is unobtained. *)
Definition dimFact (row : gmap string (cell decimal)) (d : Dimension) (f : Fact) : Prop :=
  if decide (d_Kind d = Amount) then
    (∃ cur, row !! d_CurrencyColumn d = Some cur ∧ (cur = CNull ∨ ∃ t, cur = CText t)) ∧
    ((f_State f = "null" ∧ row !! d_Column d = Some CNull) ∨
     (f_State f = "value" ∧ row !! d_CurrencyColumn d = Some (CText (f_Currency f)) ∧
      ∃ x, NewFromString (f_Value f) = Some x ∧ row !! d_Column d = Some (CNum x)))
  else
    (f_State f = "null" ∧ row !! d_Column d = Some CNull) ∨
    (f_State f = "value" ∧ row !! d_Column d = Some (CText (f_Value f))).

Definition rowFacts (row : gmap string (cell decimal)) (facts : Facts) : Prop :=
  ∀ dim d, dims r !! dim = Some d → dimFact row d (fact facts dim).

(** A bound is the same decimal for the evaluation and for the database's cast. *)
Definition boundAgrees (b : option string) : Prop :=
  ∀ s, b = Some s → ∃ d, NewFromString s = Some d ∧ numeric s = Some d.

(** What [Check] does not ask of an atom and the equivalence needs: no value set on an
    amount, no tree item with an empty path, and bounds that are decimals. *)
Record atomReady (d : Dimension) (a : Atom) : Prop := {
  ar_in : a_Kind a = "in" → d_Kind d ≠ Amount;
  ar_tree : a_Kind a = "tree" → ∀ it, it ∈ a_Items a → ti_Path it ≠ "";
  ar_lo : a_Kind a = "interval" → boundAgrees (a_Lo a);
  ar_hi : a_Kind a = "interval" → boundAgrees (a_Hi a) }.

Definition segmentReady (s : Segment) : Prop :=
  Check r s = None ∧ ∀ dim a d, s_Atoms s !! dim = Some a → dims r !! dim = Some d → atomReady d a.

Variables (row : gmap string (cell decimal)) (facts : Facts) (principal : string) (base : nat).
Hypothesis Hrow : rowFacts row facts.
#[local] Abbreviation c := (MkCompiler r principal base).
#[local] Abbreviation hit := (hit facts principal).
#[local] Abbreviation evals args := (holds numeric row base args).

(** A predicate that gives [b] whatever arguments come after [args]. *)
Definition means (args : list argv) (p : pred) (b : bool) : Prop :=
  ∀ more, ∃ x, evals (args ++ more) p = Some x ∧ bool_decide (x = Some true) = b.

Lemma means_app args ext p b : means args p b → means (args ++ ext) p b.
Proof. intros Hm more. destruct (Hm (ext ++ more)) as (x & Hx & Hb). exists x. by rewrite <- app_assoc. Qed.

Lemma argAt_new v args more : argAt base ((args ++ [v]) ++ more) (base + List.length (args ++ [v]))%nat = Some v.
Proof.
  unfold argAt. rewrite length_app. cbn [List.length]. rewrite decide_True by lia.
  rewrite <- app_assoc. replace (base + (List.length args + 1) - base - 1)%nat with (List.length args) by lia.
  cbn [app]. by rewrite list_lookup_middle.
Qed.

Lemma textArg_new t args more :
  textArg base ((args ++ [AText t]) ++ more) (base + List.length (args ++ [AText t]))%nat = Some t.
Proof. unfold textArg. by rewrite argAt_new. Qed.

(** *** Conjunctions and disjunctions *)

Lemma and3_true x y : bool_decide (and3 x y = Some true) = bool_decide (x = Some true) && bool_decide (y = Some true).
Proof. by destruct x as [[]|], y as [[]|]. Qed.
Lemma or3_true x y : bool_decide (or3 x y = Some true) = bool_decide (x = Some true) || bool_decide (y = Some true).
Proof. by destruct x as [[]|], y as [[]|]. Qed.

Lemma means_And args ps bs : Forall2 (means args) ps bs → means args (PAnd ps) (forallb id bs).
Proof.
  induction 1 as [|p b ps bs Hp Hps IH]; intros more; [by exists (Some true)|].
  destruct (Hp more) as (x & Hx & Hb), (IH more) as (y & Hy & Hbs). exists (and3 x y).
  split; [|rewrite and3_true; simpl; by f_equal].
  cbn [holds] in Hy |- *. by rewrite Hx; cbn [mbind option_bind]; rewrite Hy.
Qed.

Lemma means_Or args ps bs : Forall2 (means args) ps bs → means args (POr ps) (existsb id bs).
Proof.
  induction 1 as [|p b ps bs Hp Hps IH]; intros more; [by exists (Some false)|].
  destruct (Hp more) as (x & Hx & Hb), (IH more) as (y & Hy & Hbs). exists (or3 x y).
  split; [|rewrite or3_true; simpl; by f_equal].
  cbn [holds] in Hy |- *. by rewrite Hx; cbn [mbind option_bind]; rewrite Hy.
Qed.

Lemma means_Both args p q a b : means args p a → means args q b → means args (PBoth p q) (a && b).
Proof.
  intros Hp Hq more. destruct (Hp more) as (x & Hx & Ha), (Hq more) as (y & Hy & Hb). exists (and3 x y).
  cbn [holds]. rewrite Hx, Hy. split; [done|]. rewrite and3_true. by f_equal.
Qed.

Lemma means_orAll args ps bs : Forall2 (means args) ps bs → means args (orAll ps) (existsb id bs).
Proof.
  unfold orAll. intros Hf. case_decide as Hp; [|by apply means_Or].
  subst. inversion Hf. subst. intros more. by exists (Some false).
Qed.

Lemma means_Coalesce args p b : means args p b → means args (PCoalesce p) b.
Proof.
  intros Hp more. destruct (Hp more) as (x & Hx & Hb). exists (Some (default false x)).
  cbn [holds]. rewrite Hx. split; [done|]. rewrite <- Hb. by destruct x as [[]|].
Qed.

Lemma means_selects args p b : means args p b → selects numeric row base args p = b.
Proof.
  intros Hp. destruct (Hp []) as (x & Hx & Hb). unfold selects. rewrite app_nil_r in Hx. rewrite Hx.
  rewrite <- Hb. apply bool_decide_ext. naive_solver.
Qed.

(** *** Columns *)

(** A text column against a placeholder, when the fact is the text or null. *)
Definition textFact (col : string) (f : Fact) : Prop :=
  (f_State f = "null" ∧ row !! col = Some CNull) ∨ (f_State f = "value" ∧ row !! col = Some (CText (f_Value f))).

Lemma means_text col f args p (g : string → bool) :
  textFact col f →
  (∀ more, evals (args ++ more) p = onText row col (λ s, Some (g s))) →
  means args p (bool_decide (f_State f = "value") && g (f_Value f)).
Proof.
  intros Hf Hp more. rewrite Hp. unfold onText. destruct Hf as [[-> ->]|[-> ->]]; cbn; eexists; split; try done.
  destruct (g (f_Value f)); done.
Qed.

Lemma means_Eq col f args t :
  textFact col f →
  means (args ++ [AText t]) (PEq col (base + List.length (args ++ [AText t]))%nat)
    (bool_decide (f_State f = "value") && bool_decide (f_Value f = t)).
Proof.
  intros Hf. pose (g := λ s : string, bool_decide (s = t)). apply (means_text col f _ _ g); [done|].
  intros more. cbn [holds]. by rewrite textArg_new.
Qed.

Lemma means_Like col f args path :
  textFact col f →
  let t := (likeEscape path ++ "/%")%string in
  means (args ++ [AText t]) (PLike col (base + List.length (args ++ [AText t]))%nat)
    (bool_decide (f_State f = "value") && HasPrefix (f_Value f) (path ++ "/")%string).
Proof.
  intros Hf t. apply (means_text col f _ _ (λ s, HasPrefix s (path ++ "/")%string)); [done|].
  intros more. cbn [holds]. rewrite textArg_new. cbn [mbind option_bind].
  unfold onText. destruct (row !! col) as [[]|]; cbn; try done. unfold t. by rewrite like_prefix.
Qed.

(** *** Atoms *)

Lemma treeParts_means col f items args parts args' :
  textFact col f → treeParts c col items args = (parts, args') →
  (∃ ext, args' = args ++ ext) ∧
  Forall2 (means args') parts (map (λ it, bool_decide (f_State f = "value") && treeHit f it) items).
Proof.
  intros Hf. revert args parts args'. induction items as [|it items IH]; intros args parts args'; cbn [treeParts].
  { intros [= <- <-]. split; [by exists []; rewrite app_nil_r|constructor]. }
  unfold treeHit at 1. cbn [map].
  destruct (decide (ti_Mode it = "subtree")) as [Hm|Hm]; unfold arg; cbn [c_base].
  - destruct (treeParts c col items _) as [ps a'] eqn:Ht. intros [= <- <-].
    apply IH in Ht as [[ext ->] Hps]. split; [exists ([AText (ti_Path it); AText (likeEscape (ti_Path it) ++ "/%")%string] ++ ext);
      by rewrite <- !app_assoc|].
    constructor; [|done]. apply means_app.
    rewrite (bool_decide_eq_true_2 (ti_Mode it = "subtree")) by done. cbn [andb].
    replace (bool_decide (f_State f = "value") && _) with
      (existsb id [bool_decide (f_State f = "value") && bool_decide (f_Value f = ti_Path it);
        bool_decide (f_State f = "value") && HasPrefix (f_Value f) (ti_Path it ++ "/")%string])
      by (unfold id; simpl; by destruct (bool_decide (f_State f = "value")), (bool_decide (f_Value f = ti_Path it)),
           (HasPrefix (f_Value f) (ti_Path it ++ "/")%string)).
    apply means_Or. constructor; [by apply means_app, means_Eq|]. constructor; [by apply means_Like|constructor].
  - destruct (treeParts c col items _) as [ps a'] eqn:Ht. intros [= <- <-].
    apply IH in Ht as [[ext ->] Hps]. split; [exists ([AText (ti_Path it)] ++ ext); by rewrite <- !app_assoc|].
    constructor; [|done]. apply means_app.
    rewrite (bool_decide_eq_false_2 (ti_Mode it = "subtree")) by done. cbn [andb]. rewrite orb_false_r.
    by apply means_Eq.
Qed.

Lemma atom_null a f : a_Kind a ≠ "all" → f_State f = "null" → atom a f principal = Some False_.
Proof. intros Ha Hf. unfold atom. rewrite decide_False by done. rewrite Hf. done. Qed.

Lemma atom_value a f : a_Kind a ≠ "all" → f_State f = "value" →
  atom a f principal =
  if decide (a_Kind a = "in") then Some (isTrue (mem (f_Value f) (a_Values a)))
  else if decide (a_Kind a = "self") then Some (isTrue (bool_decide (f_Value f = principal)))
  else if decide (a_Kind a = "tree") then
    (if decide (f_Value f = "") then Some False_ else Some (isTrue (existsb (treeHit f) (a_Items a))))
  else if decide (a_Kind a = "interval") then interval a f
  else Some Unknown.
Proof. intros Ha Hf. unfold atom. rewrite decide_False by done. rewrite Hf. done. Qed.

Lemma means_False args : means args PFalse false.
Proof. intros more. by exists (Some false). Qed.

(** The value of an atom of one of the text kinds, from its test on the value. *)
Lemma atom_text col a f (g : bool) :
  a_Kind a ≠ "all" → textFact col f → (f_State f = "value" → atom a f principal = Some (isTrue g)) →
  atom a f principal = Some (isTrue (bool_decide (f_State f = "value") && g)).
Proof.
  intros Ha [[Hs _]|[Hs _]] Hg.
  - rewrite atom_null by done. by rewrite Hs.
  - rewrite Hg by done. by rewrite Hs.
Qed.

(** What a compiled atom promises about the evaluated one. *)
Definition agrees (args args' : list argv) (o : option pred) (t : option Tri) : Prop :=
  (∃ ext, args' = args ++ ext) ∧
  ∃ b, t = Some (isTrue b) ∧ match o with None => b = true | Some p => means args' p b end.

Lemma in_agrees col a f args :
  a_Kind a = "in" → textFact col f → a_Values a ≠ [] →
  agrees args (args ++ [ATexts (a_Values a)])
    (Some (PEqAny col (base + List.length (args ++ [ATexts (a_Values a)]))%nat)) (atom a f principal).
Proof.
  intros Hk Hf Hv. split; [by eexists|]. eexists.
  pose (g := λ s : string, mem s (a_Values a)).
  split; [|apply (means_text col f _ _ g Hf)].
  - apply (atom_text col); [by rewrite Hk|done|]. intros Hs. rewrite atom_value by (rewrite ?Hk; done).
    by rewrite decide_True.
  - intros more. cbn [holds]. by rewrite argAt_new.
Qed.

Lemma tree_agrees col a f args parts args' :
  a_Kind a = "tree" → textFact col f → (∀ it, it ∈ a_Items a → ti_Path it ≠ "") →
  treeParts c col (a_Items a) args = (parts, args') →
  agrees args args' (Some (if decide (parts = []) then PFalse else POr parts)) (atom a f principal).
Proof.
  intros Hk Hf Hp Ht. eapply treeParts_means in Ht as [Hext Hps]; [|exact Hf]. split; [done|].
  exists (bool_decide (f_State f = "value") && existsb (treeHit f) (a_Items a)). split.
  - apply (atom_text col); [by rewrite Hk|done|]. intros Hs. rewrite atom_value by (rewrite ?Hk; done).
    rewrite !decide_False, decide_True by (rewrite ?Hk; done). destruct (decide (f_Value f = "")) as [Hv|]; [|done]. f_equal.
    destruct (existsb _ _) eqn:He; [|done]. apply existsb_exists in He as (it & Hin%list_elem_of_In & Hit).
    unfold treeHit in Hit. rewrite Hv in Hit. specialize (Hp it Hin).
    destruct (ti_Path it) as [|x q] eqn:Hq; [done|]. rewrite bool_decide_eq_false_2 in Hit by done.
    by rewrite app_String, andb_comm in Hit.
  - assert (Hb : bool_decide (f_State f = "value") && existsb (treeHit f) (a_Items a) =
      existsb id (map (λ it, bool_decide (f_State f = "value") && treeHit f it) (a_Items a))).
    { clear. induction (a_Items a) as [|it l IH]; simpl; [by rewrite andb_false_r|].
      rewrite andb_orb_distrib_r, IH. done. }
    rewrite Hb. clear Hb. destruct (decide (parts = [])) as [He|He]; [|by apply means_Or].
    subst. apply Forall2_nil_inv_l in Hps. rewrite Hps. apply means_False.
Qed.

(** The two readings of a bound. *)
Definition sides (out : comparison) (shut open : cmpOp) : Prop :=
  (out = Lt ∧ shut = Ge_ ∧ open = Gt_) ∨ (out = Gt ∧ shut = Le_ ∧ open = Lt_).

Lemma compared_sides out shut open (cl : bool) cmp :
  sides out shut open →
  compared (if cl then shut else open) cmp =
  (if decide (cmp = out) then false else if decide (cmp = Eq) then cl else true).
Proof. by intros [(-> & -> & ->)|(-> & -> & ->)]; destruct cl, cmp. Qed.

Lemma boundPart_means col v bound closed out shut open args ps args' :
  sides out shut open → boundAgrees bound →
  row !! col = Some v → (v = CNull ∨ ∃ x, v = CNum x) →
  boundPart c col bound closed shut open args = Ok (ps, args') →
  (∃ ext, args' = args ++ ext) ∧
  ∃ bs, Forall2 (means args') ps bs ∧
        ∀ x, v = CNum x → beyond out x bound closed = Some (isTrue (forallb id bs)).
Proof.
  intros Hsd Hb Hr Hv. unfold boundPart. destruct bound as [b|].
  2: { intros [= <- <-]. split; [exists []; by rewrite app_nil_r|]. exists []. split; [constructor|done]. }
  destruct closed as [cl|]; [|done]. unfold arg. cbn [c_base]. intros [= <- <-].
  split; [by eexists|]. destruct (Hb b eq_refl) as (d & Hd & Hn).
  assert (He : ∀ more, evals ((args ++ [AText b]) ++ more)
      (PCmp col (if cl then shut else open) (base + List.length (args ++ [AText b]))%nat) =
      match v with CNull => Some None | CNum x => Some (Some (compared (if cl then shut else open) (Cmp x d)))
      | CText _ => None end).
  { intros more. cbn [holds]. rewrite textArg_new. cbn [mbind option_bind]. rewrite Hn. cbn [mbind option_bind].
    by rewrite Hr. }
  destruct Hv as [->|[x ->]].
  - exists [false]. split; [|done]. constructor; [|constructor]. intros more. exists None. by rewrite He.
  - exists [compared (if cl then shut else open) (Cmp x d)]. split.
    + constructor; [|constructor]. intros more. eexists. rewrite He. split; [done|].
      by destruct (compared _ _).
    + intros y [= <-]. cbn [beyond]. rewrite Hd, (compared_sides out) by done.
      cbn [forallb]. unfold id. rewrite andb_true_r.
      destruct (decide (Cmp x d = out)); [done|]. by destruct (decide (Cmp x d = Eq)).
Qed.

(** The currency column against its placeholder. *)
Lemma means_currency col cur args t :
  row !! col = Some cur → (cur = CNull ∨ ∃ u, cur = CText u) →
  ∃ b, means (args ++ [AText t]) (PEq col (base + List.length (args ++ [AText t]))%nat) b ∧
       ∀ u, cur = CText u → b = bool_decide (u = t).
Proof.
  intros Hr Hc.
  assert (He : ∀ more, evals ((args ++ [AText t]) ++ more) (PEq col (base + List.length (args ++ [AText t]))%nat) =
     onText row col (λ s, Some (bool_decide (s = t)))) by (intros more; cbn [holds]; by rewrite textArg_new).
  unfold onText in He. rewrite Hr in He. destruct Hc as [->|[u ->]].
  - exists false. split; [|done]. intros more. exists None. by rewrite He.
  - exists (bool_decide (u = t)). split; [|by intros ? [= <-]]. intros more. eexists. rewrite He.
    split; [done|]. by destruct (bool_decide (u = t)).
Qed.

Lemma means_NotNull col v args : row !! col = Some v → means args (PNotNull col) (match v with CNull => false | _ => true end).
Proof. intros Hr more. cbn [holds]. rewrite Hr. eexists. split; [done|]. by destruct v. Qed.

Lemma interval_agrees d a f args lo args1 hi args2 :
  let args0 := args ++ [AText (a_Currency a)] in
  a_Kind a = "interval" → d_Kind d = Amount → dimFact row d f → atomReady d a →
  boundPart c (d_Column d) (a_Lo a) (a_LoClosed a) Ge_ Gt_ args0 = Ok (lo, args1) →
  boundPart c (d_Column d) (a_Hi a) (a_HiClosed a) Le_ Lt_ args1 = Ok (hi, args2) →
  agrees args args2
    (Some (PAnd ([PNotNull (d_Column d); PEq (d_CurrencyColumn d) (base + List.length args0)%nat] ++ lo ++ hi)))
    (atom a f principal).
Proof.
  intros args0 Hk Hd Hf [_ _ Hlo Hhi] H1 H2. unfold dimFact in Hf. rewrite decide_True in Hf by done.
  destruct Hf as ((cur & Hcur & Hct) & Hcases).
  assert (Hv : ∃ v, row !! d_Column d = Some v ∧ (v = CNull ∨ ∃ x, v = CNum x))
    by (destruct Hcases as [(_ & ?)|(_ & _ & x & _ & ?)]; eauto).
  destruct Hv as (v & Hrv & Hvt).
  eapply (boundPart_means _ v _ _ Lt) in H1 as [[e1 ->] (bs1 & Hm1 & Hb1)]; [|by left|by apply Hlo|done|done].
  eapply (boundPart_means _ v _ _ Gt) in H2 as [[e2 ->] (bs2 & Hm2 & Hb2)]; [|by right|by apply Hhi|done|done].
  destruct (means_currency _ cur args (a_Currency a) Hcur Hct) as (b & Hmc & Hbc).
  split; [exists ([AText (a_Currency a)] ++ e1 ++ e2); unfold args0; by rewrite <- !app_assoc|].
  set (nn := match v with CNull => false | _ => true end).
  assert (Hfb : forallb id ([nn; b] ++ bs1 ++ bs2) = nn && (b && (forallb id bs1 && forallb id bs2)))
    by (rewrite <- forallb_app; done).
  exists (forallb id ([nn; b] ++ bs1 ++ bs2)). split.
  - destruct Hcases as [(Hs & Hn)|(Hs & Hc & x & Hx & Hn)].
    + rewrite atom_null by (rewrite ?Hk; done). by simplify_eq.
    + rewrite atom_value by (rewrite ?Hk; done). rewrite !decide_False, decide_True by (rewrite ?Hk; done).
      rewrite Hfb. clear Hfb. simplify_eq. rewrite (Hbc _ eq_refl). unfold interval.
      unfold nn. destruct (decide (f_Currency f = a_Currency a)) as [He|He];
        [|by rewrite bool_decide_eq_false_2].
      rewrite bool_decide_eq_true_2 by done. rewrite Hx, (Hb1 x eq_refl). cbn [mbind option_bind andb].
      destruct (forallb id bs1); [by apply (Hb2 x)|done].
  - apply means_And. constructor; [by apply means_NotNull|].
    constructor; [by apply means_app, means_app|]. apply Forall2_app; [|done].
    eapply Forall2_impl; [exact Hm1|]. intros; by apply means_app.
Qed.

Lemma textFact_dim d f : d_Kind d ≠ Amount → dimFact row d f → textFact (d_Column d) f.
Proof. intros Hd. unfold dimFact. by rewrite decide_False. Qed.

Lemma catom_agrees dim a d args o args' :
  dims r !! dim = Some d → atomFits d a → atomReady d a → catom c dim a args = Ok (o, args') →
  agrees args args' o (atom a (fact facts dim) principal).
Proof.
  intros Hdim Hfit Hready. unfold catom. cbn [c_r]. rewrite Hdim. cbn [default].
  pose proof (Hrow dim d Hdim) as Hf. case_decide as Hpd; [done|].
  destruct (decide (a_Kind a = "all")) as [Hall|Hall].
  { intros [= <- <-]. split; [exists []; by rewrite app_nil_r|]. exists true. split; [|done].
    unfold atom. by rewrite decide_True. }
  destruct (decide (a_Kind a = "in")) as [Hin|Hin].
  { assert (Ht : textFact (d_Column d) (fact facts dim)) by (apply textFact_dim; [by apply Hready|done]).
    case_decide as Hv; [|unfold arg; intros [= <- <-]; by apply in_agrees].
    intros [= <- <-]. split; [exists []; by rewrite app_nil_r|]. exists false. split; [|apply means_False].
    destruct Ht as [[Hs _]|[Hs _]]; [by rewrite atom_null|]. rewrite atom_value by done.
    rewrite decide_True by done. by rewrite Hv. }
  destruct (decide (a_Kind a = "self")) as [Hself|Hself].
  { destruct Hfit as [?|[?|[[? ?]|[[_ Hk]|[? _]]]]]; try congruence.
    assert (Ht : textFact (d_Column d) (fact facts dim)) by (apply textFact_dim; [by rewrite Hk|done]).
    unfold arg. cbn [c_base c_principal]. intros [= <- <-]. split; [by eexists|]. eexists.
    split; [|by apply means_Eq]. apply (atom_text (d_Column d)); [done|done|].
    intros Hs. rewrite atom_value by done. by rewrite decide_False, decide_True. }
  destruct (decide (a_Kind a = "tree")) as [Htree|Htree].
  { destruct Hfit as [?|[?|[[_ Hk]|[[? _]|[? _]]]]]; try congruence.
    assert (Ht : textFact (d_Column d) (fact facts dim)) by (apply textFact_dim; [by rewrite Hk|done]).
    destruct (treeParts _ _ _ _) as [parts a'] eqn:Hp. intros [= <- <-].
    eapply tree_agrees; [done|done|by apply Hready|done]. }
  destruct (decide (a_Kind a = "interval")) as [Hiv|Hiv]; [|done].
  destruct Hfit as [?|[?|[[? _]|[[? _]|(_ & Hk & _)]]]]; try congruence.
  unfold arg. cbn [c_base]. destruct (boundPart _ _ (a_Lo a) _ _ _ _) as [[lo a1]|] eqn:H1; [|done].
  destruct (boundPart _ _ (a_Hi a) _ _ _ _) as [[hi a2]|] eqn:H2; [|done]. intros [= <- <-].
  by eapply interval_agrees.
Qed.

(** *** Segments *)

Lemma isTrue_met dim a b :
  atom a (fact facts dim) principal = Some (isTrue b) → met facts principal dim a ↔ b = true.
Proof. rewrite <- atom_True. intros ->. destruct b; naive_solver. Qed.

Lemma csegmentLoop_means atoms ds args parts args' :
  (∀ dim, dim ∈ ds → ∃ a d, atoms !! dim = Some a ∧ dims r !! dim = Some d ∧ atomFits d a ∧ atomReady d a) →
  csegmentLoop c atoms ds args = Ok (parts, args') →
  (∃ ext, args' = args ++ ext) ∧
  ∃ bs, Forall2 (means args') parts bs ∧
    (forallb id bs = true ↔ ∀ dim a, dim ∈ ds → atoms !! dim = Some a → met facts principal dim a).
Proof.
  revert args parts args'. induction ds as [|dim ds IH]; intros args parts args' Hds; cbn [csegmentLoop].
  { intros [= <- <-]. split; [exists []; by rewrite app_nil_r|]. exists []. split; [constructor|].
    split; [|done]. by intros _ ? ? ?%elem_of_nil. }
  destruct (Hds dim (list_elem_of_here _ _)) as (a & d & Ha & Hd & Hfit & Hready). rewrite Ha. cbn [from_option id].
  destruct (catom _ dim a args) as [[o args1]|] eqn:Hc; [|done].
  destruct (csegmentLoop _ atoms ds args1) as [[ps args2]|] eqn:Hl; [|done]. intros [= <- <-].
  eapply catom_agrees in Hc as ([e1 ->] & b & Hb & Hm); [|done..].
  apply IH in Hl as ([e2 ->] & bs & Hps & Hbs); [|intros; apply Hds; by right].
  split; [exists (e1 ++ e2); by rewrite app_assoc|].
  assert (Hall : (∀ dim' a', dim' ∈ dim :: ds → atoms !! dim' = Some a' → met facts principal dim' a') ↔
    b = true ∧ forallb id bs = true).
  { rewrite Hbs, <- (isTrue_met dim a b) by done. setoid_rewrite elem_of_cons. split; [naive_solver|].
    intros [Hm1 Hm2] dim' a' [->|Hin] Ha'; [by simplify_eq|eauto]. }
  destruct o as [p|].
  - exists (b :: bs). split; [constructor; [by apply means_app|done]|]. rewrite Hall. cbn [forallb].
    by rewrite andb_true_iff.
  - subst b. exists bs. split; [done|]. rewrite Hall. tauto.
Qed.

Lemma csegment_means s args p args' :
  segmentReady s → csegment c s args = Ok (p, args') →
  (∃ ext, args' = args ++ ext) ∧
  ∃ b, means args' p b ∧ (b = true ↔ ∀ dim a, s_Atoms s !! dim = Some a → met facts principal dim a).
Proof.
  intros [Hck Hready]. unfold csegment. destruct (csegmentLoop _ _ _ _) as [[parts a1]|] eqn:Hl; [|done].
  intros [= <- <-]. apply Check_None in Hck as [Hdom Hat _].
  assert (Hkeys : ∀ dim, dim ∈ sortStrings (map fst (map_to_list (s_Atoms s))) ↔ is_Some (s_Atoms s !! dim)).
  { intros dim. rewrite sortStrings_elem, list_elem_of_fmap. split.
    - intros ([k v] & -> & Hk%elem_of_map_to_list). eauto.
    - intros [v Hv]. exists (dim, v). split; [done|]. by apply elem_of_map_to_list. }
  apply csegmentLoop_means in Hl as (Hext & bs & Hps & Hbs).
  - split; [done|]. exists (forallb id bs). split.
    + case_decide as He; [|by apply means_And]. subst. apply Forall2_nil_inv_l in Hps as ->.
      intros more. by exists (Some true).
    + rewrite Hbs. setoid_rewrite Hkeys. unfold is_Some. naive_solver.
  - intros dim [a Ha]%Hkeys.
    assert (Hin : dim ∈ dom (dims r)) by (rewrite <- Hdom; by eapply elem_of_dom_2).
    apply elem_of_dom in Hin as [d Hd]. exists a, d. split; [done|]. split; [done|]. split; [by eapply Hat|by eapply Hready].
Qed.

(** *** Lists of segments *)

Variable at_ : Z.

Lemma union_means segs args ps args' :
  (∀ s, s ∈ segs → segmentReady s ∧ ActiveAt Parse s at_ = true) →
  union_ c segs args = Ok (ps, args') →
  (∃ ext, args' = args ++ ext) ∧ Forall2 (means args') ps (map (hit at_) segs).
Proof.
  revert args ps args'. induction segs as [|s segs IH]; intros args ps args' Hs; cbn [union_].
  { intros [= <- <-]. split; [exists []; by rewrite app_nil_r|constructor]. }
  destruct (Hs s (list_elem_of_here _ _)) as [Hready Hact].
  destruct (csegment _ s args) as [[p args1]|] eqn:Hc; [|done].
  destruct (union_ _ segs args1) as [[qs args2]|] eqn:Hu; [|done]. intros [= <- <-].
  apply csegment_means in Hc as ([e1 ->] & b & Hm & Hb); [|done].
  apply IH in Hu as ([e2 ->] & Hqs); [|intros; apply Hs; by right].
  split; [exists (e1 ++ e2); by rewrite app_assoc|]. cbn [map]. constructor; [|done].
  apply means_app. replace (hit at_ s) with b; [done|]. unfold AuthzSqlProps.hit.
  apply eq_bool_prop_intro. rewrite bool_decide_spec, segment_True, Is_true_true, Hb. apply ActiveAt_True in Hact. tauto.
Qed.

End correct.
