(* ===== verification/AuthzList.v ===== *)
(** * Lists show what the evaluation allows

    The theorems about [Compile] (authz/sql.go) against [Evaluate] (authz/eval.go), and
    the conditions a list adds for a field ([ReadableWhere], [ReadableEverywhere]). *)
From S2P Require Import Prelude GoStr AuthzDefs AuthzDeclared AuthzEval AuthzEvalProps AuthzSql AuthzSqlProps.
From Stdlib Require Import Ascii String.
Open Scope string_scope.
Open Scope Z_scope.
Open Scope list_scope.

Section fields.
Context (r : Resource).

(** The fields of a bitmap that is [h] of each segment. *)
Lemma Fields_elem w args hits digest segs (h : Segment → bool) f :
  f ∈ Fields (MkPlan w args hits digest (map (fieldSet r) segs)) (map h segs) ↔
  ∃ s, s ∈ segs ∧ h s = true ∧ shown r f = true ∧ f ∈ s_ReadFields s.
Proof.
  unfold Fields. rewrite sortStrings_elem, elem_of_elements, elem_of_list_to_set. cbn [p_sets].
  induction segs as [|s segs IH]; simpl; [set_solver|]. rewrite elem_of_app, IH. clear IH.
  assert (Hs : f ∈ (if h s then fieldSet r s else []) ↔ h s = true ∧ shown r f = true ∧ f ∈ s_ReadFields s).
  { unfold fieldSet. destruct (h s); [rewrite list_elem_of_filter, Is_true_true; naive_solver|].
    split; [by intros ?%elem_of_nil|naive_solver]. }
  rewrite Hs. setoid_rewrite elem_of_cons. naive_solver.
Qed.

End fields.

(** Two sets of strings with the same elements, sorted, are the same list. *)
Lemma sorted_fields_eq (l1 l2 : list string) :
  NoDup l1 → NoDup l2 → (∀ x, x ∈ l1 ↔ x ∈ l2) → sortStrings l1 = sortStrings l2.
Proof. intros H1 H2 Hx. by apply sortStrings_unique, NoDup_Permutation. Qed.

Section list.
Context `{Env} `{Digests}.
Variables (numeric : string → option decimal) (r : Resource) (segs : list Segment) (op principal : string).
Variables (at_ : Z) (base : nat) (p : Plan).
Hypothesis Hready : ∀ s, s ∈ segs → segmentReady numeric r s.
Hypothesis Hp : Compile r segs op principal at_ base = Ok p.

Section row.
Variables (row : gmap string (cell decimal)) (facts : Facts).
Hypothesis Hrow : rowFacts r row facts.
#[local] Abbreviation hits := (map (hit facts principal at_) (active segs op at_)).
#[local] Abbreviation means := (means numeric row base).

Lemma active_ready o s : s ∈ active segs o at_ → segmentReady numeric r s ∧ ActiveAt Parse s at_ = true.
Proof. intros (Hs & _ & Ha)%active_elem. split; [by apply Hready|done]. Qed.

(** The shape of a plan: what its condition means, its bits and its field sets. *)
Lemma Compile_means :
  (∃ b, means (p_Args p) (p_Where p) b ∧
     (b = true ↔ (∃ s, granting facts principal at_ segs (r_ViewOperation r) s) ∧
                  ∃ s, granting facts principal at_ segs op s)) ∧
  Forall2 (means (p_Args p)) (p_Hits p) hits ∧
  p_sets p = map (fieldSet r) (active segs op at_).
Proof.
  revert Hp. unfold Compile.
  destruct (union_ _ (active segs (r_ViewOperation r) at_) []) as [[vp va]|] eqn:Hv; [|done].
  eapply union_means in Hv as ([ve ->] & Hvp); [|exact Hrow|by intros; eapply active_ready].
  assert (Hhits : ∀ args ps, Forall2 (means args) ps hits → Forall2 (means args) (map PCoalesce ps) hits).
  { intros args ps Hf. apply Forall2_fmap_l. eapply Forall2_impl; [exact Hf|]. intros; by apply means_Coalesce. }
  destruct (decide (op = r_ViewOperation r)) as [Hop|Hop].
  - destruct (planDigest _ _ _) as [dg|]; [|done]. intros [= <-]. cbn [p_Args p_Where p_Hits p_sets]. rewrite <- Hop in *.
    split; [|split; [by apply Hhits|done]].
    eexists. split; [by apply means_orAll|]. rewrite active_hit. naive_solver.
  - destruct (union_ _ (active segs op at_) _) as [[qs qa]|] eqn:Hq; [|done].
    eapply union_means in Hq as ([qe ->] & Hqs); [|exact Hrow|by intros; eapply active_ready].
    destruct (planDigest _ _ _) as [dg|]; [|done]. intros [= <-]. cbn [p_Args p_Where p_Hits p_sets].
    split; [|split; [by apply Hhits|done]]. eexists. split.
    + apply means_Both; [apply means_app|]; by apply means_orAll.
    + by rewrite andb_true_iff, !active_hit.
Qed.

Lemma bitmap_hits : bitmap numeric row base (p_Args p) p = hits.
Proof.
  destruct Compile_means as (_ & Hh & _). unfold bitmap. generalize hits, Hh. clear Hh.
  induction 1 as [|q b qs bs Hq Hqs IH]; cbn [map]; [done|].
  f_equal; [|done]. by apply means_selects.
Qed.

(** The fields a row's bitmap gives. *)
Lemma bitmap_Fields f :
  f ∈ Fields p (bitmap numeric row base (p_Args p) p) ↔
  shown r f = true ∧ ∃ s, granting facts principal at_ segs op s ∧ f ∈ s_ReadFields s.
Proof.
  rewrite bitmap_hits. destruct Compile_means as (_ & _ & Hs). destruct p as [w a h dg sets]. cbn in Hs. subst sets.
  rewrite Fields_elem. split.
  - intros (s & (Hin & Ho & _)%active_elem & Ht & Hsh & Hf). split; [done|]. exists s. split; [|done].
    apply granting_segment. split; [done|]. split; [done|]. by apply bool_decide_eq_true in Ht.
  - intros (Hsh & s & (Hin & Ho & Ht)%granting_segment & Hf). exists s. split; [|split; [by apply bool_decide_eq_true|done]].
    apply active_elem. split; [done|]. split; [done|]. apply ActiveAt_True. by apply segment_True in Ht as [? _].
Qed.

(** C2. A compiled list and the record by record evaluation agree on every row whose
    columns hold the record's facts, for segments that pass [Check] and that are ready for
    a list: no item of a tree has an empty path, no value set stands on an amount, and the
    bounds of an interval are decimals that the evaluation and the database read alike
    ([segmentReady]; [Check] asks none of these, and [empty_path_listed] shows that with an
    empty path the two differ).  Then the plan's condition runs without an error and
    selects the row exactly when [Evaluate] allows the operation, and for a visible record
    the row's bitmap gives exactly the fields [Evaluate] gives, in the same order. *)
Theorem list_decides_as_evaluate :
  ∃ d, Evaluate r segs op facts principal at_ = Some d ∧
    is_Some (holds numeric row base (p_Args p) (p_Where p)) ∧
    (selects numeric row base (p_Args p) (p_Where p) = true ↔ dc_Action d = True_) ∧
    (dc_Visible d = True_ → Fields p (bitmap numeric row base (p_Args p) p) = dc_Fields d).
Proof.
  destruct (Evaluate_total facts principal at_ r segs op) as [d Hd]; [intros s Hs; by apply Hready|].
  exists d. split; [done|]. destruct Compile_means as ((b & Hm & Hb) & _ & _).
  pose proof (Evaluate_spec facts principal at_ _ _ _ _ Hd) as (Hv & Ha & Hf).
  split; [destruct (Hm []) as (x & Hx & _); rewrite app_nil_r in Hx; by rewrite Hx|].
  split; [by rewrite (means_selects _ _ _ _ _ _ Hm), Hb, Ha|].
  intros Hvis. revert Hd. unfold Evaluate.
  destruct (entitled segs (r_ViewOperation r) _ _ _) as [[v vf]|]; [|done]. cbn [mbind option_bind].
  destruct (if decide (op = r_ViewOperation r) then _ else _) as [[ac fs]|]; [|done]. cbn [mbind option_bind].
  intros [= <-]. cbn [dc_Visible dc_Fields] in *. subst v. rewrite decide_True in * by done. unfold Fields.
  apply sorted_fields_eq; [apply NoDup_elements|apply NoDup_filter, NoDup_elements|].
  intros f. rewrite <- (sortStrings_elem f (elements _)), <- (sortStrings_elem f (filter _ _)).
  fold (Fields p (bitmap numeric row base (p_Args p) p)). rewrite bitmap_Fields, Hf. naive_solver.
Qed.

(** The condition [ReadableWhere] adds selects the rows where the field is readable. *)
Lemma ReadableWhere_means field :
  ∃ b, means (p_Args p) (ReadableWhere p field) b ∧
    (b = true ↔ field ∈ Fields p (bitmap numeric row base (p_Args p) p)).
Proof.
  setoid_rewrite bitmap_Fields. destruct Compile_means as (_ & Hh & Hs). unfold ReadableWhere. rewrite Hs.
  assert (Hm : ∀ l ps, Forall2 (means (p_Args p)) ps (map (hit facts principal at_) l) →
    ∃ bs, Forall2 (means (p_Args p)) (omap (λ '(set, h), if mem field set then Some h else None) (zip (map (fieldSet r) l) ps)) bs ∧
      (existsb id bs = true ↔ ∃ s, s ∈ l ∧ hit facts principal at_ s = true ∧ field ∈ fieldSet r s)).
  { clear. induction l as [|s l IH]; intros ps Hf; inversion Hf as [|q b qs bs Hq Hqs]; subst; simpl.
    { exists []. split; [constructor|]. split; [done|]. by intros (s & ?%elem_of_nil & _). }
    destruct (IH qs Hqs) as (cs & Hcs & Hiff). setoid_rewrite elem_of_cons. unfold mem. case_bool_decide as Hfs.
    - exists (hit facts principal at_ s :: cs). split; [by constructor|]. simpl. rewrite orb_true_iff, Hiff.
      unfold id. naive_solver.
    - exists cs. split; [done|]. rewrite Hiff. naive_solver. }
  destruct (Hm _ _ Hh) as (bs & Hbs & Hiff). eexists. split; [by apply means_orAll|]. rewrite Hiff.
  setoid_rewrite active_elem. setoid_rewrite granting_segment. unfold fieldSet, hit.
  setoid_rewrite list_elem_of_filter. setoid_rewrite bool_decide_eq_true. setoid_rewrite Is_true_true. split.
  - intros (s & (Hin & Ho & _) & Ht & Hsh & Hf). eauto 10.
  - intros (Hsh & s & (Hin & Ho & Ht) & Hf). exists s. apply segment_True in Ht as Ht'.
    rewrite <- ActiveAt_True in Ht'. naive_solver.
Qed.

End row.

(** Filtering by a field reveals nothing.  The rows [ReadableWhere] adds to the
    condition are exactly those whose bitmap shows the field; and when
    [ReadableEverywhere] says yes, every row the plan selects shows the field, and the
    field is not a secret one. *)
Lemma readable_conditions field row facts :
  rowFacts r row facts →
  (selects numeric row base (p_Args p) (ReadableWhere p field) = true ↔
   field ∈ Fields p (bitmap numeric row base (p_Args p) p)) ∧
  (ReadableEverywhere p field = true → selects numeric row base (p_Args p) (p_Where p) = true →
   field ∈ Fields p (bitmap numeric row base (p_Args p) p) ∧ shown r field = true).
Proof.
  intros Hrow. split.
  { destruct (ReadableWhere_means row facts Hrow field) as (b & Hm & Hb). by rewrite (means_selects _ _ _ _ _ _ Hm). }
  unfold ReadableEverywhere.
  intros [_ Hall]%andb_true_iff Hsel.
  destruct (Compile_means row facts Hrow) as ((b & Hm & Hb) & _ & Hs).
  rewrite (means_selects _ _ _ _ _ _ Hm) in Hsel. apply Hb in Hsel as (_ & s & Hg).
  assert (Hfs : field ∈ fieldSet r s).
  { rewrite Hs, forallb_forall in Hall. apply mem_true, Hall, list_elem_of_In, list_elem_of_fmap_2.
    destruct Hg as (Hin & Ho & Ht & _). apply active_elem. by rewrite ActiveAt_True. }
  apply list_elem_of_filter in Hfs as [Hsh Hf]. apply Is_true_true in Hsh. split; [|done].
  rewrite (bitmap_Fields row facts Hrow). eauto.
Qed.

End list.
