(* ===== verification/AuthzCompile.v ===== *)
(** * When a list can be compiled

    [Compile] (authz/sql.go) refuses a list exactly when a segment it would use constrains
    a dimension the database cannot decide: it never drops the segment.  A concrete
    resource shows the theorems about lists at work, and the one record on which the list
    and the evaluation differ. *)
From S2P Require Import Prelude GoStr AuthzDefs AuthzDeclared AuthzEval AuthzEvalProps AuthzSql AuthzSqlProps AuthzList.
From Stdlib Require Import Ascii String.
Open Scope string_scope.
Open Scope Z_scope.
Open Scope list_scope.

Definition isOk {E A} (x : res E A) : Prop := ∃ a, x = Ok a.

Section total.
Variables (r : Resource) (principal : string) (base : nat).
#[local] Abbreviation c := (MkCompiler r principal base).

(** An atom the database can decide: no condition, or a dimension it knows. *)
Definition pushable (dim : string) (a : Atom) : Prop :=
  a_Kind a = "all" ∨ ∀ d, dims r !! dim = Some d → d_Pushdown d ≠ NotPushdownable.

Definition segmentPushable (s : Segment) : Prop := ∀ dim a, s_Atoms s !! dim = Some a → pushable dim a.

Lemma boundPart_ok col bound closed shut open args :
  (is_Some bound ↔ is_Some closed) → isOk (boundPart c col bound closed shut open args).
Proof.
  intros Hc. unfold boundPart, isOk. destruct bound as [b|]; [|eauto].
  destruct (proj1 Hc) as [cl ->]; [eauto|]. unfold arg. eauto.
Qed.

Lemma catom_ok dim a d args :
  dims r !! dim = Some d → atomFits d a → isOk (catom c dim a args) ↔ pushable dim a.
Proof.
  intros Hd Hfit. unfold catom, pushable. cbn [c_r]. rewrite Hd. cbn [from_option id].
  destruct (decide (a_Kind a ≠ "all" ∧ d_Pushdown d = NotPushdownable)) as [[Ha Hn]|Hn].
  { split; [by intros [? ?]|]. intros [?|Hp]; [done|]. by destruct (Hp d). }
  assert (Hr : (a_Kind a = "all" ∨ ∀ d0, Some d = Some d0 → d_Pushdown d0 ≠ NotPushdownable) ↔ True).
  { split; [done|]. intros _. destruct (decide (a_Kind a = "all")); [by left|]. right. intros d0 [= <-] ?. by apply Hn. }
  rewrite Hr. split; [done|]. intros _. unfold isOk.
  destruct (decide (a_Kind a = "all")); [eauto|].
  destruct (decide (a_Kind a = "in")); [case_decide; unfold arg; eauto|].
  destruct (decide (a_Kind a = "self")); [unfold arg; eauto|].
  destruct (decide (a_Kind a = "tree")); [destruct (treeParts _ _ _ _); eauto|].
  destruct Hfit as [?|[?|[[? _]|[[? _]|(Hk & _ & _ & Hlo & Hhi)]]]]; try congruence. rewrite decide_True by done.
  unfold arg. cbn [c_base]. edestruct boundPart_ok as [[lo a1] ->]; [exact Hlo|].
  edestruct boundPart_ok as [[hi a2] ->]; [exact Hhi|]. eauto.
Qed.

Lemma csegmentLoop_ok atoms ds args :
  (∀ dim, dim ∈ ds → ∃ a d, atoms !! dim = Some a ∧ dims r !! dim = Some d ∧ atomFits d a) →
  isOk (csegmentLoop c atoms ds args) ↔ ∀ dim a, dim ∈ ds → atoms !! dim = Some a → pushable dim a.
Proof.
  revert args. induction ds as [|dim ds IH]; intros args Hds; cbn [csegmentLoop].
  { split; [by intros _ ? ? ?%elem_of_nil|intros _; by eexists]. }
  destruct (Hds dim (list_elem_of_here _ _)) as (a & d & Ha & Hd & Hfit). rewrite Ha. cbn [from_option id].
  assert (Hc : (∀ dim' a', dim' ∈ dim :: ds → atoms !! dim' = Some a' → pushable dim' a') ↔
    pushable dim a ∧ ∀ dim' a', dim' ∈ ds → atoms !! dim' = Some a' → pushable dim' a').
  { setoid_rewrite elem_of_cons. split; [naive_solver|]. intros [H1 H2] ? ? [->|?] ?; [by simplify_eq|eauto]. }
  rewrite Hc, <- (catom_ok dim a d args) by done. clear Hc.
  destruct (catom _ dim a args) as [[o a1]|e]; [|split; [by intros [? ?]|by intros [[? ?] _]]].
  rewrite <- (IH a1) by (intros; apply Hds; by right).
  destruct (csegmentLoop _ atoms ds a1) as [[ps a2]|e].
  - split; [intros _; split; eexists; done|intros _; by eexists].
  - split; [by intros [? ?]|by intros [_ [? ?]]].
Qed.

Lemma csegment_ok s args : Check r s = None → isOk (csegment c s args) ↔ segmentPushable s.
Proof.
  intros [Hdom Hat _]%Check_None. unfold csegment.
  assert (Hkeys : ∀ dim, dim ∈ sortStrings (map fst (map_to_list (s_Atoms s))) ↔ is_Some (s_Atoms s !! dim)).
  { intros dim. rewrite sortStrings_elem, list_elem_of_fmap. split.
    - intros ([k v] & -> & Hk%elem_of_map_to_list). eauto.
    - intros [v Hv]. exists (dim, v). split; [done|]. by apply elem_of_map_to_list. }
  pose proof (csegmentLoop_ok (s_Atoms s) (sortStrings (map fst (map_to_list (s_Atoms s)))) args) as Hok.
  trans (isOk (csegmentLoop c (s_Atoms s) (sortStrings (map fst (map_to_list (s_Atoms s)))) args)).
  { destruct (csegmentLoop _ _ _ _) as [[ps a]|]; split; intros [? ?]; try done; by eexists. }
  rewrite Hok.
  - unfold segmentPushable. setoid_rewrite Hkeys. unfold is_Some. naive_solver.
  - intros dim [a Ha]%Hkeys.
    assert (Hin : dim ∈ dom (dims r)) by (rewrite <- Hdom; by eapply elem_of_dom_2).
    apply elem_of_dom in Hin as [d Hd]. exists a, d. split; [done|]. split; [done|]. by eapply Hat.
Qed.

Lemma union_ok segs args :
  (∀ s, s ∈ segs → Check r s = None) → isOk (union_ c segs args) ↔ ∀ s, s ∈ segs → segmentPushable s.
Proof.
  revert args. induction segs as [|s segs IH]; intros args Hs; cbn [union_].
  { split; [by intros _ ? ?%elem_of_nil|intros _; by eexists]. }
  assert (Hc : (∀ t, t ∈ s :: segs → segmentPushable t) ↔ segmentPushable s ∧ ∀ t, t ∈ segs → segmentPushable t).
  { setoid_rewrite elem_of_cons. naive_solver. }
  rewrite Hc, <- (csegment_ok s args) by (apply Hs; by left). clear Hc.
  destruct (csegment _ s args) as [[q a1]|]; [|split; [by intros [? ?]|by intros [[? ?] _]]].
  rewrite <- (IH a1) by (intros; apply Hs; by right).
  destruct (union_ _ segs a1) as [[ps a2]|].
  - split; [intros _; split; eexists; done|intros _; by eexists].
  - split; [by intros [? ?]|by intros [_ [? ?]]].
Qed.

End total.

Lemma active_sub `{Env} segs o at_ s : s ∈ active segs o at_ → s ∈ segs.
Proof. by intros [? _]%active_elem. Qed.

(** C39. For checked segments whose digests can be computed, [Compile] gives a plan exactly
    when every active segment of the view operation and of the operation asked can be
    decided by the database: a segment with a condition on a dimension that is not
    pushdownable refuses the whole list, it is never left out of it. *)
Theorem Compile_ok_iff `{Env} `{Digests} r segs op principal at_ base :
  (∀ s, s ∈ segs → Check r s = None) →
  (∀ s, s ∈ segs → is_Some (segmentDigest s)) → is_Some (resourceDigest r) →
  isOk (Compile r segs op principal at_ base) ↔
  ∀ s, s ∈ active segs (r_ViewOperation r) at_ ∨ s ∈ active segs op at_ → segmentPushable r s.
Proof.
  intros Hck Hsd [rd Hrd].
  assert (Hdg : ∀ used, (∀ s, s ∈ used → s ∈ segs) → is_Some (planDigest r used op)).
  { intros used Hu. unfold planDigest.
    assert (Hm : is_Some (mapM segmentDigest used)) by (apply mapM_is_Some, Forall_forall; intros s Hin; by apply Hsd, Hu).
    destruct Hm as [ds ->]. cbn [mbind option_bind]. rewrite Hrd. cbn [mbind option_bind]. eauto. }
  assert (Hu : ∀ o args, isOk (union_ (MkCompiler r principal base) (active segs o at_) args) ↔
    ∀ s, s ∈ active segs o at_ → segmentPushable r s).
  { intros o args. apply union_ok. intros s Hs%active_sub. by apply Hck. }
  unfold Compile. pose proof (Hu (r_ViewOperation r) []) as Hv.
  destruct (union_ _ (active segs (r_ViewOperation r) at_) []) as [[vp va]|e].
  2: { split; [by intros [? ?]|]. intros Hs. destruct (proj2 Hv) as [? ?]; [auto|done]. }
  assert (Hview : ∀ s, s ∈ active segs (r_ViewOperation r) at_ → segmentPushable r s)
    by (apply Hv; by eexists). clear Hv.
  destruct (decide (op = r_ViewOperation r)) as [->|Hop].
  - destruct (Hdg (active segs (r_ViewOperation r) at_)) as [dg ->]; [by intros s ?%active_sub|].
    split; [|intros _; by eexists]. intros _ s [Hs|Hs]; auto.
  - pose proof (Hu op va) as Ho. destruct (union_ _ (active segs op at_) va) as [[qs qa]|e].
    + destruct (Hdg (active segs (r_ViewOperation r) at_ ++ active segs op at_)) as [dg ->].
      { by intros s [?%active_sub|?%active_sub]%elem_of_app. }
      assert (∀ s, s ∈ active segs op at_ → segmentPushable r s) by (apply Ho; by eexists).
      split; [|intros _; by eexists]. intros _ s [Hs|Hs]; auto.
    + split; [by intros [? ?]|]. intros Hs. destruct (proj2 Ho) as [? ?]; [auto|done].
Qed.

(** ** A resource to see it on *)

(** Instants and decimals written as integers. *)
#[export] Instance intEnv : Env := {|
  Parse s := match ParseInt s with (n, None) => Some n | _ => None end;
  decimal := Z;
  NewFromString s := match ParseInt s with (n, None) => Some n | _ => None end;
  Cmp := Z.compare |}.
#[export] Instance textDigests : Digests := {|
  segmentDigest s := Some (s_Operation s);
  resourceDigest r := Some (r_Type r);
  planHash l := String.concat ";" l |}.

Definition orders : Resource :=
  MkResource "shop.order" "shop.order.view"
    (Some (list_to_map
      [("org", MkDimension OrgTree "org_path" "" "" "" "");
       ("total", MkDimension Amount "total" "" "currency" LocalColumn "")]))
    (list_to_map [("code", MkField Ordinary "" "" [] []); ("price", MkField Restricted "shop.price" "" [] []);
                  ("pin", MkField Secret "" "" [] [])]).

Definition orgAtom (path : string) : Atom := MkAtom "tree" [] [MkItem path "subtree"] "" None None None None.
Definition totalAtom : Atom := MkAtom "interval" [] [] "EUR" (Some "0") (Some true) (Some "100") (Some false).
Definition viewSegment (path : string) : Segment :=
  MkSegment "shop.order" "shop.order.view" (list_to_map [("org", orgAtom path); ("total", totalAtom)])
    ["code"; "price"; "pin"] [] (MkWindow "0" "").

Definition orderFacts (path amount : string) : Facts :=
  list_to_map [("org", Value path); ("total", Money amount "EUR")].
Definition orderRow (path : string) (amount : Z) : gmap string (cell Z) :=
  list_to_map [("org_path", CText path); ("total", CNum amount); ("currency", CText "EUR")].

Definition ordersPlan (path : string) : Plan :=
  match Compile orders [viewSegment path] "shop.order.view" "ann" 5 0 with
  | Ok p => p
  | Err _ => MkPlan PFalse [] [] "" []
  end.

(** The text the compiler writes for it. *)
Example ordersPlan_text :
  print (λ c, ("t." ++ c)%string) (p_Where (ordersPlan "a_b")) =
  "((((t.org_path = $1 OR t.org_path LIKE $2 ESCAPE '\')) AND (t.total IS NOT NULL AND t.currency = $3 AND t.total >= $4::numeric AND t.total < $5::numeric)))"
  ∧ p_Args (ordersPlan "a_b") = [AText "a_b"; AText "a\_b/%"; AText "EUR"; AText "0"; AText "100"].
Proof. by vm_compute. Qed.

Lemma viewSegment_ready path : path ≠ "" → segmentReady NewFromString orders (viewSegment path).
Proof.
  intros Hp. split; [by vm_compute|]. intros dim a d Ha Hd.
  assert (Hcases : (dim = "org" ∧ a = orgAtom path) ∨ (dim = "total" ∧ a = totalAtom)).
  { apply elem_of_list_to_map_2 in Ha. rewrite !elem_of_cons, elem_of_nil in Ha. naive_solver. }
  destruct Hcases as [[-> ->]|[-> ->]]; vm_compute in Hd; injection Hd as <-.
  - split; [done| |done|done]. intros _ it Hit%list_elem_of_singleton. by subst.
  - split; [done|done|..]; intros _ s [= <-]; vm_compute; eauto.
Qed.

Lemma orders_row path n t :
  NewFromString t = Some n → rowFacts orders (orderRow path n) (orderFacts path t).
Proof.
  intros Hn dim d Hd.
  assert (Hcases : (dim = "org" ∧ d = MkDimension OrgTree "org_path" "" "" "" "") ∨
    (dim = "total" ∧ d = MkDimension Amount "total" "" "currency" LocalColumn "")).
  { apply elem_of_list_to_map_2 in Hd. rewrite !elem_of_cons, elem_of_nil in Hd. naive_solver. }
  destruct Hcases as [[-> ->]|[-> ->]]; unfold dimFact; cbn [d_Kind d_Column d_CurrencyColumn].
  - right. done.
  - split; [exists (CText "EUR"); split; [done|right; by eexists]|]. right. split; [done|]. split; [done|].
    exists n. done.
Qed.

Lemma ordersPlan_ok path :
  path = "a_b" → Compile orders [viewSegment path] "shop.order.view" "ann" 5 0 = Ok (ordersPlan path).
Proof. intros ->. by vm_compute. Qed.

Lemma one_ready path s : path ≠ "" → s ∈ [viewSegment path] → segmentReady NewFromString orders s.
Proof. intros Hp ->%list_elem_of_singleton. by apply viewSegment_ready. Qed.

Lemma list_decides_witness :
  ∃ d, Evaluate orders [viewSegment "a_b"] "shop.order.view" (orderFacts "a_b/c" "99") "ann" 5 = Some d ∧
    is_Some (holds NewFromString (orderRow "a_b/c" 99) 0 (p_Args (ordersPlan "a_b")) (p_Where (ordersPlan "a_b"))) ∧
    (selects NewFromString (orderRow "a_b/c" 99) 0 (p_Args (ordersPlan "a_b")) (p_Where (ordersPlan "a_b")) = true ↔
     dc_Action d = True_) ∧
    (dc_Visible d = True_ →
     Fields (ordersPlan "a_b") (bitmap NewFromString (orderRow "a_b/c" 99) 0 (p_Args (ordersPlan "a_b")) (ordersPlan "a_b")) =
     dc_Fields d).
Proof.
  apply (list_decides_as_evaluate NewFromString orders [viewSegment "a_b"] "shop.order.view" "ann" 5 0).
  - intros s. by apply one_ready.
  - by apply ordersPlan_ok.
  - by apply orders_row.
Defined.

Lemma readable_conditions_witness :
  (selects NewFromString (orderRow "a_b/c" 99) 0 (p_Args (ordersPlan "a_b")) (ReadableWhere (ordersPlan "a_b") "price") = true ↔
   "price" ∈ Fields (ordersPlan "a_b") (bitmap NewFromString (orderRow "a_b/c" 99) 0 (p_Args (ordersPlan "a_b")) (ordersPlan "a_b"))) ∧
  (ReadableEverywhere (ordersPlan "a_b") "price" = true →
   selects NewFromString (orderRow "a_b/c" 99) 0 (p_Args (ordersPlan "a_b")) (p_Where (ordersPlan "a_b")) = true →
   "price" ∈ Fields (ordersPlan "a_b") (bitmap NewFromString (orderRow "a_b/c" 99) 0 (p_Args (ordersPlan "a_b")) (ordersPlan "a_b"))
   ∧ shown orders "price" = true).
Proof.
  apply (readable_conditions NewFromString orders [viewSegment "a_b"] "shop.order.view" "ann" 5 0)
    with (facts := orderFacts "a_b/c" "99").
  - intros s. by apply one_ready.
  - by apply ordersPlan_ok.
  - by apply orders_row.
Defined.

Lemma Compile_ok_witness :
  isOk (Compile orders [viewSegment "a_b"] "shop.order.view" "ann" 5 0) ↔
  ∀ s, s ∈ active [viewSegment "a_b"] (r_ViewOperation orders) 5 ∨ s ∈ active [viewSegment "a_b"] "shop.order.view" 5 →
    segmentPushable orders s.
Proof.
  apply (Compile_ok_iff orders [viewSegment "a_b"]); [|eauto|eauto].
  intros s ->%list_elem_of_singleton. by vm_compute.
Defined.

Lemma allowed_iff_granted_witness :
  ∃ d, Evaluate orders [viewSegment "a_b"] "shop.order.view" (orderFacts "a_b/c" "99") "ann" 5 = Some d ∧
    (Err_ d = None ↔
       (∃ s, granting (orderFacts "a_b/c" "99") "ann" 5 [viewSegment "a_b"] (r_ViewOperation orders) s) ∧
       ∃ s, granting (orderFacts "a_b/c" "99") "ann" 5 [viewSegment "a_b"] "shop.order.view" s) ∧
    (∀ f, f ∈ dc_Fields d → shown orders f = true ∧
       (∃ s, granting (orderFacts "a_b/c" "99") "ann" 5 [viewSegment "a_b"] (r_ViewOperation orders) s) ∧
       ∃ s, granting (orderFacts "a_b/c" "99") "ann" 5 [viewSegment "a_b"] "shop.order.view" s ∧ f ∈ s_ReadFields s).
Proof.
  apply (allowed_iff_granted (orderFacts "a_b/c" "99") "ann" 5 orders [viewSegment "a_b"] "shop.order.view").
  intros s ->%list_elem_of_singleton. by vm_compute.
Defined.

Lemma Mask_spec_witness :
  let out : gmap string Z := list_to_map [("code", 1); ("price", 2); ("pin", 3); ("extra", 4)] in
  let masked k := is_Some (out !! k) ∧ shown orders k = true ∧ k ∉ ["code"] in
  (∀ k v, Mask orders out ["code"] !! k = Some (Shown v) ↔ out !! k = Some v ∧ shown orders k = true ∧ k ∈ ["code"]) ∧
  (∀ k, Mask orders out ["code"] !! k = Some Nil ↔ masked k) ∧
  (∀ k l, Mask orders out ["code"] !! k = Some (Names l) →
     k = Masked ∧ Sorted strLe l ∧ ∀ x, x ∈ l ↔ masked x) ∧
  (is_Some (Mask orders out ["code"] !! Masked) ↔ ∃ k, masked k).
Proof. intros out. apply (Mask_spec orders ["code"] out). by vm_compute. Defined.

(** The list and the evaluation differ on a record whose path is empty: the
    evaluation holds that an empty path is not the root and refuses it, while the list
    compiled from a segment that names the empty path compares the column with it and
    selects the row.  [Segment.Check] accepts such a segment. *)
Theorem empty_path_listed :
  Check orders (viewSegment "") = None ∧
  rowFacts orders (orderRow "" 99) (orderFacts "" "99") ∧
  isOk (Compile orders [viewSegment ""] "shop.order.view" "ann" 5 0) ∧
  selects NewFromString (orderRow "" 99) 0 (p_Args (ordersPlan "")) (p_Where (ordersPlan "")) = true ∧
  ∃ d, Evaluate orders [viewSegment ""] "shop.order.view" (orderFacts "" "99") "ann" 5 = Some d ∧
       dc_Action d = False_ ∧ Err_ d = Some NotFound.
Proof.
  split; [by vm_compute|]. split; [by apply orders_row|]. split; [by eexists|]. split; [by vm_compute|].
  eexists. split; [by vm_compute|]. by vm_compute.
Qed.
