(* ===== verification/AuthzView.v ===== *)
(** * The held authorization view

    authz/view.go and authz/refuse.go: the shards of the authorization view a component
    holds, how answers of the authorization member renew, replace, suspend or stop them
    ([apply], [Verify]), how a stall voids them ([tick], [rest]), and the lookups a request
    is admitted through ([Lookup], [LookupStale], [LookupFor]).

    Clock readings are arguments, in nanoseconds; so are the nonce and the answer of the
    member.  A loop over the shards walks them in an order of its own: the lookups take
    that order as an argument.  [view_step] is the machine of requests sent, answers
    applied and stalls found that interleave over one holder. *)
From S2P Require Import Prelude GoStr AuthzDefs AuthzDeclared.
From Stdlib Require Import Ascii String.
Open Scope string_scope.
Open Scope Z_scope.
Open Scope list_scope.

Definition WRead : Z := 30 * Second.
Definition WHigh : Z := 5 * Second.
Definition TStall : Z := 2 * Second.
Definition Interval : Z := WHigh / 2.

(** [time.Duration(float64(w) * (1 - Drift))] with the drift of one in a thousand; the two
    products the code forms are whole numbers of nanoseconds. *)
Definition drifted (w : Z) : Z := w * 999 / 1000.

Record Revision := MkRevision { rv_Domain : string; rv_Value : string; rv_Epoch : string; rv_Instance : string }.
Record SubjectEntry := MkEntry { e_Segments : list Segment; e_AccountsDisabled : bool; e_SecurityVersion : Z }.
Record Shard := MkShard {
  sh_Shard : string;
  sh_RecoveryGeneration : Revision;
  sh_SecurityRevisions : list Revision;
  sh_Applicability : list string;
  sh_Subjects : gmap string SubjectEntry;
  sh_Capabilities : list string;
  sh_Digest : string }.
Record Held := MkHeldName { hn_Shard : string; hn_Digest : string }.
Record VerifyRequest := MkVerifyRequest { vr_Component : string; vr_Held : list Held; vr_Nonce : string }.
Record ShardAnswer := MkShardAnswer {
  sa_Shard : string;
  sa_Status : string;
  sa_View : option Shard;
  sa_ReadOnly : bool }.
Record VerifyAnswer := MkVerifyAnswer {
  va_Nonce : string;
  va_Instance : string;
  va_Shards : list ShardAnswer;
  va_RecoveryGeneration : Revision }.

Record held := MkHeld {
  h_shard : Shard;
  h_sentAt : Z;
  h_highAt : Z;
  h_hasHigh : bool;
  h_stopped : bool;
  h_suspended : bool;
  h_sourceStale : bool }.

Record Holder := MkHolder {
  hd_Component : string;
  hd_Defs : option validated;
  hd_shards : gmap string held;
  hd_recovery : Z;
  hd_hasRecovery : bool;
  hd_instance : string;
  hd_lastTick : Z;
  hd_lastSkew : Z }.

Definition NewHolder (component : string) (defs : option validated) : Holder :=
  MkHolder component defs ∅ 0 false "" 0 0.

Definition setShards (h : Holder) (m : gmap string held) : Holder :=
  MkHolder (hd_Component h) (hd_Defs h) m (hd_recovery h) (hd_hasRecovery h) (hd_instance h) (hd_lastTick h) (hd_lastSkew h).
Definition setTick (h : Holder) (tick skew : Z) : Holder :=
  MkHolder (hd_Component h) (hd_Defs h) (hd_shards h) (hd_recovery h) (hd_hasRecovery h) (hd_instance h) tick skew.

(** ** Stalls *)

(** [rest] and [tick] read the boot clock [now] and the wall clock [wall]. *)
Definition rest (now wall : Z) (h : Holder) : Holder := setTick h now (int64 (wall - now)).

Definition stalled (now wall : Z) (h : Holder) : bool :=
  let gap := int64 (now - hd_lastTick h) in
  let jump := int64 (int64 (wall - now) - hd_lastSkew h) in
  bool_decide (hd_lastTick h ≠ 0) &&
  (bool_decide (Interval + TStall < gap) || bool_decide (TStall < jump) || bool_decide (jump < - TStall)).

Definition tick (now wall : Z) (h : Holder) : Holder :=
  setTick (if stalled now wall h then setShards h ∅ else h) now (int64 (wall - now)).

(** ** Adopting views *)

(** One segment of a view: kept when its resource type is not declared here, else when it
    fits. *)
Definition keepSegment (v : validated) (s : Segment) : bool :=
  match ResourceOf v (s_ResourceType s) with
  | None => true
  | Some r => bool_decide (Check r s = None)
  end.

Definition fitting (sh : Shard) (defs : option validated) : Shard :=
  match defs with
  | None => sh
  | Some v =>
      MkShard (sh_Shard sh) (sh_RecoveryGeneration sh) (sh_SecurityRevisions sh) (sh_Applicability sh)
        ((λ e, MkEntry (filter (λ s, keepSegment v s) (e_Segments e)) (e_AccountsDisabled e) (e_SecurityVersion e))
           <$> sh_Subjects sh)
        (sh_Capabilities sh) (sh_Digest sh)
  end.

(** Epochs are ordered by their two integers; what does not parse counts as [ParseInt]
    leaves it. *)
Definition epochBefore (a b : string) : bool :=
  let '(ag, at_, _) := cut "." a in
  let '(bg, bt, _) := cut "." b in
  let x := (ParseInt ag).1 in let y := (ParseInt bg).1 in
  if decide (x = y) then bool_decide ((ParseInt at_).1 < (ParseInt bt).1) else bool_decide (x < y).

Definition revisionBack (o n : Revision) : bool :=
  if decide (rv_Domain o = rv_Domain n) then
    epochBefore (rv_Epoch n) (rv_Epoch o) ||
    (bool_decide (rv_Epoch n = rv_Epoch o) &&
     match ParseInt (rv_Value n), ParseInt (rv_Value o) with
     | (nv, None), (ov, None) => bool_decide (nv < ov)
     | _, _ => false
     end)
  else false.

Definition revisionsGoBack (held next : list Revision) : bool :=
  existsb (λ n, existsb (λ o, revisionBack o n) held) next.

(** ** Applying an answer *)

Definition foreign (h : Holder) (ans : VerifyAnswer) : bool :=
  (bool_decide (hd_instance h ≠ "") && bool_decide (va_Instance ans ≠ hd_instance h)) ||
  existsb (λ a, match sa_View a with
                | None => false
                | Some v => existsb (λ r, bool_decide (rv_Instance r ≠ va_Instance ans)) (sh_SecurityRevisions v)
                end) (va_Shards ans).

Definition rollback (h : Holder) (ans : VerifyAnswer) (gen : Z) : bool :=
  (hd_hasRecovery h && bool_decide (gen < hd_recovery h)) || foreign h ans.

Definition suspend (s : held) : held :=
  MkHeld (h_shard s) (h_sentAt s) (h_highAt s) (h_hasHigh s) (h_stopped s) true (h_sourceStale s).
Definition stop (s : held) : held :=
  MkHeld (h_shard s) (h_sentAt s) (h_highAt s) (h_hasHigh s) true (h_suspended s) (h_sourceStale s).
Definition goStale (s : held) : held :=
  MkHeld (h_shard s) (h_sentAt s) (h_highAt s) (h_hasHigh s) (h_stopped s) (h_suspended s) true.
(** The case "unchanged". *)
Definition renew (sent : Z) (readOnly : bool) (s : held) : held :=
  MkHeld (h_shard s) sent (if readOnly then h_highAt s else sent) (h_hasHigh s || negb readOnly)
    (h_stopped s) false readOnly.

(** One shard of an accepted answer. *)
Definition applyShard (defs : option validated) (newer : bool) (sent : Z) (a : ShardAnswer) (m : gmap string held)
  : gmap string held :=
  let s := m !! sa_Shard a in
  let view := (λ v, fitting v defs) <$> sa_View a in
  if decide (sa_Status a = "unchanged") then
    match s with
    | Some s => if h_stopped s then m else <[sa_Shard a := renew sent (sa_ReadOnly a) s]> m
    | None => m
    end
  else if decide (sa_Status a = "changed") then
    match view, s with
    | None, _ => m
    | Some v, Some s =>
        if h_stopped s then m
        else if negb newer && revisionsGoBack (sh_SecurityRevisions (h_shard s)) (sh_SecurityRevisions v)
        then <[sa_Shard a := stop s]> m
        else if sa_ReadOnly a then <[sa_Shard a := MkHeld v sent (h_highAt s) (h_hasHigh s) false false true]> m
        else <[sa_Shard a := MkHeld v sent sent true false false false]> m
    | Some v, None =>
        if sa_ReadOnly a then <[sa_Shard a := MkHeld v sent 0 false false false true]> m
        else <[sa_Shard a := MkHeld v sent sent true false false false]> m
    end
  else if decide (sa_Status a = "closed") then
    match s with Some s => <[sa_Shard a := goStale s]> m | None => m end
  else m.

(** [Holder.apply]: whether the answer was accepted, and the holder after it. *)
Definition newerThan (h : Holder) (gen : Z) : bool := negb (hd_hasRecovery h) || bool_decide (hd_recovery h < gen).

Definition apply (ans : VerifyAnswer) (gen sent : Z) (h : Holder) : bool * Holder :=
  if rollback h ans gen then (false, setShards h (suspend <$> hd_shards h))
  else
    let newer := newerThan h gen in
    let m0 := if newer then ∅ else hd_shards h in
    (true, MkHolder (hd_Component h) (hd_Defs h)
       (foldl (λ m a, applyShard (hd_Defs h) newer sent a m) m0 (va_Shards ans))
       gen true (va_Instance ans) (hd_lastTick h) (hd_lastSkew h)).

(** [Holder.Verify]: the request, and what is done with the member's answer to it. *)
Definition request (nonce : string) (h : Holder) : VerifyRequest :=
  MkVerifyRequest (hd_Component h)
    (map (λ '(_, s), MkHeldName (sh_Shard (h_shard s)) (sh_Digest (h_shard s))) (map_to_list (hd_shards h))) nonce.

Inductive verifyErr := SourceFailed | NonceMismatch | BadGeneration.

Definition Verify (nonce : string) (sent : Z) (ans : option VerifyAnswer) (h : Holder) : option verifyErr * Holder :=
  match ans with
  | None => (Some SourceFailed, h)
  | Some ans =>
      if decide (va_Nonce ans = nonce) then
        match ParseInt (rv_Value (va_RecoveryGeneration ans)) with
        | (gen, None) => (None, (apply ans gen sent h).2)
        | _ => (Some BadGeneration, h)
        end
      else (Some NonceMismatch, h)
  end.

(** ** Lookups *)

Record Grant := MkGrant {
  g_Segments : list Segment;
  g_Stale : bool;
  g_Since : Z;
  g_Cutoff : Z;
  g_SecurityVersion : Z }.

Definition zeroEntry : SubjectEntry := MkEntry [] false 0.
Definition entryOf (s : held) (principal : string) : SubjectEntry :=
  default zeroEntry (sh_Subjects (h_shard s) !! principal).

(** The subject's segments for a resource type; none when its accounts are disabled. *)
Definition segmentsFor (e : SubjectEntry) (resourceType : string) : list Segment :=
  if e_AccountsDisabled e then []
  else filter (λ s, s_ResourceType s = "" ∨ s_ResourceType s = resourceType) (e_Segments e).

(** A shard an ordinary lookup may use at [now]. *)
Definition usable (high : bool) (resourceType : string) (now : Z) (s : held) : bool :=
  let from := if high then h_highAt s else h_sentAt s in
  let valid := drifted (if high then WHigh else WRead) in
  negb (h_stopped s || h_suspended s || negb (mem resourceType (sh_Applicability (h_shard s))) ||
        (high && negb (h_hasHigh s)) || bool_decide (int64 (from + valid) ≤ now)).

(** [order] is the order in which the loop meets the shards. *)
Definition Lookup (order : list held) (resourceType principal risk : string) (now : Z) : option Grant :=
  let high := bool_decide (risk = "high") in
  match List.find (usable high resourceType now) order with
  | None => None
  | Some s =>
      let from := if high then h_highAt s else h_sentAt s in
      Some (MkGrant (segmentsFor (entryOf s principal) resourceType) false 0
        (int64 (from + drifted (if high then WHigh else WRead))) (e_SecurityVersion (entryOf s principal)))
  end.

(** A shard a tightening operation may fall back on. *)
Definition usableStale (resourceType : string) (s : held) : bool :=
  negb (negb (h_sourceStale s) || negb (h_hasHigh s) || h_stopped s || h_suspended s ||
        negb (mem resourceType (sh_Applicability (h_shard s)))).

Definition LookupStale (order : list held) (resourceType principal : string) (now wall : Z) : option Grant :=
  match List.find (usableStale resourceType) order with
  | None => None
  | Some s =>
      Some (MkGrant (segmentsFor (entryOf s principal) resourceType) true (wall + int64 (h_highAt s - now))
        (int64 (now + drifted WRead)) (e_SecurityVersion (entryOf s principal)))
  end.

(** The only error of [Lookup] is AUTHORIZATION_VIEW_EXPIRED. *)
Definition LookupFor (order order' : list held) (resourceType principal risk : string) (tighteningOnly : bool)
    (now now' wall : Z) : option Grant :=
  match Lookup order resourceType principal risk now with
  | Some g => Some g
  | None => if tighteningOnly then LookupStale order' resourceType principal now' wall else None
  end.

(** The shards in some order. *)
Definition iterates (order : list held) (h : Holder) : Prop := order ≡ₚ map snd (map_to_list (hd_shards h)).

(** ** The machine *)

(** An accepted answer, as the record of it: the answer, its recovery generation and when
    the request for it left. *)
Record accepted := MkAccepted { ac_ans : VerifyAnswer; ac_gen : Z; ac_sent : Z }.

(** The holder, the request under way (one at a time: [verifyMu]) and the accepted answers
    so far. *)
Record view := MkView { v_holder : Holder; v_pending : option (string * Z); v_log : list accepted }.

Inductive view_step : view → view → Prop :=
| step_tick h p l now wall : view_step (MkView h p l) (MkView (tick now wall h) p l)
| step_rest h p l now wall : view_step (MkView h p l) (MkView (rest now wall h) p l)
| step_send h l nonce sent : 0 ≤ sent → view_step (MkView h None l) (MkView h (Some (nonce, sent)) l)
| step_fail h l nonce sent ans h' e :
    Verify nonce sent ans h = (Some e, h') →
    view_step (MkView h (Some (nonce, sent)) l) (MkView h' None l)
| step_rollback h l nonce sent ans gen h' :
    Verify nonce sent (Some ans) h = (None, h') → va_Nonce ans = nonce →
    ParseInt (rv_Value (va_RecoveryGeneration ans)) = (gen, None) → rollback h ans gen = true →
    view_step (MkView h (Some (nonce, sent)) l) (MkView h' None l)
| step_accept h l nonce sent ans gen h' :
    Verify nonce sent (Some ans) h = (None, h') → va_Nonce ans = nonce →
    ParseInt (rv_Value (va_RecoveryGeneration ans)) = (gen, None) → rollback h ans gen = false →
    view_step (MkView h (Some (nonce, sent)) l) (MkView h' None (l ++ [MkAccepted ans gen sent])).

(** A component starts with no trusted view. *)
Definition view_start (component : string) (defs : option validated) : view :=
  MkView (NewHolder component defs) None [].
Definition view_reachable (component : string) (defs : option validated) : view → Prop :=
  rtc view_step (view_start component defs).
