(* ===== verification/AuthzViewProps.v ===== *)
(** * What a lookup rests on

    Invariants of the machine of [AuthzView]: every held shard is the member's own view,
    renewed by accepted answers of the current recovery generation ([vouched]); recovery
    generations never go back; a stopped or suspended shard admits nothing. *)
From S2P Require Import Prelude GoStr AuthzDefs AuthzDeclared AuthzEval AuthzView.
From Stdlib Require Import Ascii String.
Open Scope string_scope.
Open Scope Z_scope.
Open Scope list_scope.

(** ** Evidence *)

(** An accepted answer of generation [gen] that renewed shard [k] with a request sent at
    [t]; [full] asks for one that was not read-only. *)
Definition renewed (log : list accepted) (gen : Z) (k : string) (t : Z) (full : bool) : Prop :=
  ∃ ac a, ac ∈ log ∧ ac_gen ac = gen ∧ ac_sent ac = t ∧ a ∈ va_Shards (ac_ans ac) ∧ sa_Shard a = k ∧
    sa_Status a ∈ ["unchanged"; "changed"] ∧ (full → sa_ReadOnly a = false).

(** A view of shard [k] the member sent in an accepted answer of generation [gen]. *)
Definition sent (log : list accepted) (gen : Z) (k : string) (v : Shard) : Prop :=
  ∃ ac a, ac ∈ log ∧ ac_gen ac = gen ∧ a ∈ va_Shards (ac_ans ac) ∧ sa_Shard a = k ∧ sa_View a = Some v.

Record vouched (defs : option validated) (log : list accepted) (gen : Z) (k : string) (s : held) : Prop := {
  vo_sent : renewed log gen k (h_sentAt s) false ∧ 0 ≤ h_sentAt s;
  vo_high : h_hasHigh s → renewed log gen k (h_highAt s) true ∧ 0 ≤ h_highAt s;
  vo_view : ∃ v, sent log gen k v ∧ h_shard s = fitting v defs }.

Definition allVouched (defs : option validated) (log : list accepted) (gen : Z) (m : gmap string held) : Prop :=
  ∀ k s, m !! k = Some s → vouched defs log gen k s.

Lemma renewed_mono log log' gen k t full :
  (∀ ac, ac ∈ log → ac ∈ log') → renewed log gen k t full → renewed log' gen k t full.
Proof. intros Hl (ac & a & Hac & Hr). exists ac, a. split; [by apply Hl|done]. Qed.
Lemma sent_mono log log' gen k v : (∀ ac, ac ∈ log → ac ∈ log') → sent log gen k v → sent log' gen k v.
Proof. intros Hl (ac & a & Hac & Hr). exists ac, a. split; [by apply Hl|done]. Qed.

Lemma vouched_mono defs log log' gen k s :
  (∀ ac, ac ∈ log → ac ∈ log') → vouched defs log gen k s → vouched defs log' gen k s.
Proof.
  intros Hl [[Hs Hs0] Hh (v & Hv & Hf)]. split.
  - split; [by eapply renewed_mono|done].
  - intros [? ?]%Hh. split; [by eapply renewed_mono|done].
  - exists v. split; [by eapply sent_mono|done].
Qed.

Lemma allVouched_insert defs log gen m k s :
  allVouched defs log gen m → vouched defs log gen k s → allVouched defs log gen (<[k := s]> m).
Proof. intros Hm Hs k' s' [[<- <-]|[_ ?]]%lookup_insert_Some; [done|by apply Hm]. Qed.

(** A change of the marks alone keeps the evidence. *)
Lemma vouched_marks defs log gen k s st su so :
  vouched defs log gen k s →
  vouched defs log gen k (MkHeld (h_shard s) (h_sentAt s) (h_highAt s) (h_hasHigh s) st su so).
Proof. by intros [? ? ?]. Qed.

Section accepted.
Variables (defs : option validated) (log : list accepted) (ac : accepted) (a : ShardAnswer).
Hypothesis Hac : ac ∈ log.
Hypothesis Ha : a ∈ va_Shards (ac_ans ac).
Hypothesis Hsent : 0 ≤ ac_sent ac.

Lemma renewed_now (full : bool) :
  sa_Status a ∈ ["unchanged"; "changed"] → (full → sa_ReadOnly a = false) →
  renewed log (ac_gen ac) (sa_Shard a) (ac_sent ac) full.
Proof. intros ? ?. by exists ac, a. Qed.

Lemma vouched_new v (h0 : Z) (b : bool) (stale : bool) :
  sa_Status a = "changed" → sa_View a = Some v →
  (b → renewed log (ac_gen ac) (sa_Shard a) h0 true ∧ 0 ≤ h0) →
  vouched defs log (ac_gen ac) (sa_Shard a) (MkHeld (fitting v defs) (ac_sent ac) h0 b false false stale).
Proof.
  intros Hst Hv Hb. split; cbn; [|done|].
  - split; [|done]. apply renewed_now; [|done]. rewrite Hst. set_solver.
  - exists v. split; [|done]. by exists ac, a.
Qed.

Lemma applyShard_vouched newer m :
  allVouched defs log (ac_gen ac) m → allVouched defs log (ac_gen ac) (applyShard defs newer (ac_sent ac) a m).
Proof.
  intros Hm. unfold applyShard.
  assert (Hfull : sa_Status a ∈ ["unchanged"; "changed"] → sa_ReadOnly a = false →
    renewed log (ac_gen ac) (sa_Shard a) (ac_sent ac) true ∧ 0 ≤ ac_sent ac) by (split; [by apply renewed_now|done]).
  case_decide as Hu; [|case_decide as Hc; [|case_decide as Hcl; [|done]]].
  - destruct (m !! sa_Shard a) as [s|] eqn:Hs; [|done]. destruct (h_stopped s); [done|].
    apply allVouched_insert; [done|]. destruct (Hm _ _ Hs) as [_ Hh Hv]. split; cbn; [|..|done].
    + split; [|done]. apply renewed_now; [rewrite Hu; set_solver|done].
    + destruct (sa_ReadOnly a); cbn; [rewrite orb_false_r; apply Hh|].
      intros _. apply Hfull; [rewrite Hu; set_solver|done].
  - destruct (sa_View a) as [v|] eqn:Hv; cbn; [|done].
    destruct (m !! sa_Shard a) as [s|] eqn:Hs.
    + destruct (h_stopped s); [done|].
      case_match; [by apply allVouched_insert; [|apply vouched_marks, Hm]|].
      destruct (Hm _ _ Hs) as [_ Hh _].
      destruct (sa_ReadOnly a) eqn:Hro; apply allVouched_insert; try done; apply vouched_new; try done.
      intros _. apply Hfull; [rewrite Hc; set_solver|done].
    + destruct (sa_ReadOnly a) eqn:Hro; apply allVouched_insert; try done; apply vouched_new; try done.
      intros _. apply Hfull; [rewrite Hc; set_solver|done].
  - destruct (m !! sa_Shard a) as [s|] eqn:Hs; [|done].
    by apply allVouched_insert; [|apply vouched_marks, Hm].
Qed.

End accepted.

Lemma applyShards_vouched defs log ac l newer m :
  ac ∈ log → (∀ a, a ∈ l → a ∈ va_Shards (ac_ans ac)) → 0 ≤ ac_sent ac →
  allVouched defs log (ac_gen ac) m →
  allVouched defs log (ac_gen ac) (foldl (λ m a, applyShard defs newer (ac_sent ac) a m) m l).
Proof.
  intros Hac Hl H0. revert m. induction l as [|a l IH]; intros m Hm; simpl; [done|].
  apply IH; [intros; apply Hl; by right|]. apply applyShard_vouched; [done|apply Hl; by left|done|done].
Qed.

(** ** The invariant of the machine *)

Record view_inv (defs : option validated) (st : view) : Prop := {
  vi_defs : hd_Defs (v_holder st) = defs;
  vi_vouched : allVouched defs (v_log st) (hd_recovery (v_holder st)) (hd_shards (v_holder st));
  vi_pending : ∀ nonce t, v_pending st = Some (nonce, t) → 0 ≤ t }.

Lemma Verify_None nonce t ans h h' :
  Verify nonce t (Some ans) h = (None, h') →
  va_Nonce ans = nonce ∧ ∃ gen, ParseInt (rv_Value (va_RecoveryGeneration ans)) = (gen, None) ∧ h' = (apply ans gen t h).2.
Proof.
  unfold Verify. case_decide; [|done]. destruct (ParseInt _) as [gen [e|]]; [done|]. intros [= <-]. eauto.
Qed.

Lemma Verify_Some nonce t ans h h' e : Verify nonce t ans h = (Some e, h') → h' = h.
Proof. unfold Verify. destruct ans; [case_decide; [destruct (ParseInt _) as [? []]|]|]; by intros [= _ <-]. Qed.

(** A step that verifies, as [apply]. *)
Lemma apply_rollback ans gen t h :
  rollback h ans gen = true → (apply ans gen t h).2 = setShards h (suspend <$> hd_shards h).
Proof. unfold apply. by intros ->. Qed.
Lemma apply_accept ans gen t h :
  rollback h ans gen = false →
  (apply ans gen t h).2 =
  MkHolder (hd_Component h) (hd_Defs h)
    (foldl (λ m a, applyShard (hd_Defs h) (newerThan h gen) t a m)
       (if newerThan h gen then ∅ else hd_shards h) (va_Shards ans))
    gen true (va_Instance ans) (hd_lastTick h) (hd_lastSkew h).
Proof. unfold apply. by intros ->. Qed.

Lemma not_newer h ans gen :
  rollback h ans gen = false → newerThan h gen = false → hd_hasRecovery h = true ∧ gen = hd_recovery h.
Proof.
  unfold rollback, newerThan. destruct (hd_hasRecovery h); simpl; [|done].
  intros [Hg _]%orb_false_iff Hn. apply bool_decide_eq_false in Hg, Hn. split; [done|lia].
Qed.

Lemma view_inv_step defs st st' : view_inv defs st → view_step st st' → view_inv defs st'.
Proof.
  intros [Hd Hv Hp] Hst. destruct Hst as [h p l now wall|h p l now wall|h l nonce t Ht|h l nonce t ans h' e He
    |h l nonce t ans gen h' Hver Hn Hg Hrb|h l nonce t ans gen h' Hver Hn Hg Hrb]; cbn in *.
  - unfold tick. destruct (stalled now wall h); split; cbn; try done.
  - by split.
  - split; cbn; [done|done|]. by intros ? ? [= <- <-].
  - apply Verify_Some in He as ->. by split.
  - apply Verify_None in Hver as (_ & gen' & Hg' & ->). rewrite Hg in Hg'. injection Hg' as <-.
    rewrite apply_rollback by done. split; cbn; [done| |done].
    intros k s (s0 & <- & Hs)%lookup_fmap_Some. by apply vouched_marks, Hv.
  - apply Verify_None in Hver as (_ & gen' & Hg' & ->). rewrite Hg in Hg'. injection Hg' as <-.
    rewrite apply_accept by done. split; cbn; [done| |done]. rewrite Hd.
    apply (applyShards_vouched defs _ (MkAccepted ans gen t)); cbn; [set_solver|done|by eapply Hp|].
    destruct (newerThan h gen) eqn:Hnew; [by intros k s ?%lookup_empty_Some|].
    destruct (not_newer _ _ _ Hrb Hnew) as [_ ->]. intros k s Hs.
    eapply vouched_mono; [|by apply Hv]. set_solver.
Qed.

Lemma view_reachable_inv component defs st : view_reachable component defs st → view_inv defs st.
Proof.
  intros Hr. unfold view_reachable in Hr.
  assert (H0 : view_inv defs (view_start component defs)).
  { split; cbn; [done| |done]. by intros k s ?%lookup_empty_Some. }
  revert H0. induction Hr; eauto using view_inv_step.
Qed.

(** ** Grants *)

Lemma int64_le n : int64_min ≤ n → int64 n ≤ n.
Proof.
  unfold int64, int64_min. intros Hn. pose proof (Z.mod_le (n + 2 ^ 63) (2 ^ 64)). lia.
Qed.

Lemma iterates_elem order h s : iterates order h → s ∈ order → ∃ k, hd_shards h !! k = Some s.
Proof.
  intros Hi Hs. rewrite Hi in Hs. apply list_elem_of_fmap in Hs as ([k s'] & -> & Hk%elem_of_map_to_list). eauto.
Qed.

Lemma usable_spec high rt now s :
  usable high rt now s = true →
  h_stopped s = false ∧ h_suspended s = false ∧ rt ∈ sh_Applicability (h_shard s) ∧
  (high → h_hasHigh s) ∧ now < int64 ((if high then h_highAt s else h_sentAt s) + drifted (if high then WHigh else WRead)).
Proof.
  unfold usable. rewrite negb_true_iff, !orb_false_iff, andb_false_iff, !negb_false_iff, mem_true, bool_decide_eq_false.
  intros ((((? & ?) & ?) & Hh) & ?). repeat split; try done; [|lia]. destruct Hh as [E|E]; rewrite E; done.
Qed.

Lemma find_elem {A} (f : A → bool) l x : List.find f l = Some x → x ∈ l ∧ f x = true.
Proof. intros [H1%list_elem_of_In H2]%find_some. done. Qed.

Lemma Lookup_spec order h rt principal risk now g :
  iterates order h → Lookup order rt principal risk now = Some g →
  ∃ k s, hd_shards h !! k = Some s ∧ usable (bool_decide (risk = "high")) rt now s = true ∧
    g_Segments g = segmentsFor (entryOf s principal) rt ∧
    g_Cutoff g = int64 ((if decide (risk = "high") then h_highAt s else h_sentAt s) +
                        drifted (if decide (risk = "high") then WHigh else WRead)).
Proof.
  intros Hi. unfold Lookup. destruct (List.find _ order) as [s|] eqn:Hf; [|done].
  apply find_elem in Hf as [Hin Hu]. destruct (iterates_elem _ _ _ Hi Hin) as [k Hk].
  intros [= <-]. exists k, s. cbn. by repeat case_decide; try case_bool_decide.
Qed.

(** The windows of the two risks, after the drift. *)
Definition window (risk : string) : Z := if decide (risk = "high") then 4995000000 else 29970000000.

(** A usable shard was renewed within the window of the risk. *)
Lemma usable_window defs log gen k s rt risk now :
  vouched defs log gen k s → usable (bool_decide (risk = "high")) rt now s = true →
  let t := if decide (risk = "high") then h_highAt s else h_sentAt s in
  renewed log gen k t (bool_decide (risk = "high")) ∧
  now < int64 (t + drifted (if decide (risk = "high") then WHigh else WRead)) ≤ t + window risk.
Proof.
  intros [[Hs Hs0] Hh _] (_ & _ & _ & Hhigh & Hnow)%usable_spec. unfold window. case_bool_decide as Hrk.
  - destruct (decide (risk = "high")); [|done]. destruct Hh as [Hh Hh0]; [by apply Hhigh|].
    split; [done|]. split; [done|]. apply int64_le. unfold int64_min. cbn. lia.
  - destruct (decide (risk = "high")); [done|].
    split; [done|]. split; [done|]. apply int64_le. unfold int64_min. cbn. lia.
Qed.

(** The segments of one principal for a resource type in a view of shard [k] that the
    authorization member sent in an accepted answer of the generation: the principal's own
    entry of that one view, without the segments that do not fit the declarations. *)
Definition ownSegments (defs : option validated) (log : list accepted) (gen : Z) (k rt principal : string) (segs : list Segment) : Prop :=
  ∃ v, sent log gen k v ∧ rt ∈ sh_Applicability (fitting v defs) ∧
    segs = segmentsFor (default zeroEntry (sh_Subjects (fitting v defs) !! principal)) rt.

Lemma Lookup_own defs st order rt principal risk now g (gen := hd_recovery (v_holder st)) :
  view_inv defs st → iterates order (v_holder st) → Lookup order rt principal risk now = Some g →
  ∃ k t, ownSegments defs (v_log st) gen k rt principal (g_Segments g) ∧
    renewed (v_log st) gen k t (bool_decide (risk = "high")) ∧ now < g_Cutoff g ≤ t + window risk.
Proof.
  intros [_ Hv _] Hi Hl. destruct (Lookup_spec _ _ _ _ _ _ _ Hi Hl) as (k & s & Hk & Hu & Hseg & Hcut).
  destruct (usable_window _ _ _ _ _ _ _ _ (Hv k s Hk) Hu) as [Hren Hwin]. apply usable_spec in Hu as (_ & _ & Happ & _).
  destruct (Hv k s Hk) as [_ _ (v & Hsv & Hfv)]. eexists k, _. rewrite Hcut. split; [|split; [exact Hren|done]].
  exists v. rewrite Hseg, <- Hfv. done.
Qed.
