(* ===== verification/AuthzViewSafety.v ===== *)
(** * What the held view guarantees a request

    The properties of authz/view.go and authz/refuse.go, proved from the invariant of
    [AuthzViewProps], with the runs that show where the code falls short of its
    comments. *)
From S2P Require Import Prelude GoStr AuthzDefs AuthzDeclared AuthzEval AuthzEvalProps AuthzSql AuthzCompile AuthzView AuthzViewProps.
From Stdlib Require Import Ascii String.
Open Scope string_scope.
Open Scope Z_scope.
Open Scope list_scope.

(** C21. Whatever the order in which the shards are met, a lookup grants only from a view
    the authorization member sent and vouched for lately: the grant's segments are those
    of a view in an accepted answer of the current recovery generation, and a request
    accepted in that generation renewed the shard less than 29.97 s before now (4.995 s,
    and not a read-only renewal, for a high-risk operation).  The cutoff the grant carries
    is not after that renewal's end. *)
Theorem grant_vouched component defs st order rt principal risk now g :
  view_reachable component defs st → iterates order (v_holder st) →
  Lookup order rt principal risk now = Some g →
  let gen := hd_recovery (v_holder st) in
  ∃ k t v, renewed (v_log st) gen k t (bool_decide (risk = "high")) ∧
    now < g_Cutoff g ≤ t + window risk ∧
    sent (v_log st) gen k v ∧ rt ∈ sh_Applicability (fitting v defs) ∧
    g_Segments g = segmentsFor (default zeroEntry (sh_Subjects (fitting v defs) !! principal)) rt.
Proof.
  intros Hr Hi Hl gen. apply view_reachable_inv in Hr.
  destruct (Lookup_own _ _ _ _ _ _ _ _ Hr Hi Hl) as (k & t & (v & Hsent & Happ & Hseg) & Hren & Hcut). by exists k, t, v.
Qed.

(** ** Rollbacks *)

Lemma generation_step st st' :
  view_step st st' →
  hd_hasRecovery (v_holder st) = true →
  hd_hasRecovery (v_holder st') = true ∧ hd_recovery (v_holder st) ≤ hd_recovery (v_holder st') ∧
  (hd_instance (v_holder st) ≠ "" → hd_instance (v_holder st') = hd_instance (v_holder st)).
Proof.
  intros Hst Hrec. destruct Hst as [h p l now wall|h p l now wall|h l nonce t Ht|h l nonce t ans h' e He
    |h l nonce t ans gen h' Hver Hn Hg Hrb|h l nonce t ans gen h' Hver Hn Hg Hrb]; cbn in *.
  - unfold tick. by destruct (stalled now wall h).
  - done.
  - done.
  - apply Verify_Some in He as ->. done.
  - apply Verify_None in Hver as (_ & gen' & Hg' & ->). rewrite Hg in Hg'. injection Hg' as <-.
    by rewrite apply_rollback.
  - apply Verify_None in Hver as (_ & gen' & Hg' & ->). rewrite Hg in Hg'. injection Hg' as <-.
    rewrite apply_accept by done. cbn. unfold rollback, foreign in Hrb. rewrite Hrec in Hrb. cbn in Hrb.
    apply orb_false_iff in Hrb as [Hlt [Hf _]%orb_false_iff]. apply bool_decide_eq_false in Hlt.
    split; [done|]. split; [lia|]. intros Hne. rewrite bool_decide_eq_true_2 in Hf by done. cbn in Hf.
    apply bool_decide_eq_false in Hf. by apply dec_stable.
Qed.

(** A rollback admits nobody.  The recovery generation a holder accepted never goes
    back and the member instance it accepted never changes, over any run; an answer with
    an older generation or from another instance leaves every shard unusable, for the
    ordinary and for the stale lookup, whatever the order of the loop. *)
Theorem rollback_admits_nobody :
  (∀ st st', rtc view_step st st' → hd_hasRecovery (v_holder st) = true →
     hd_recovery (v_holder st) ≤ hd_recovery (v_holder st') ∧
     (hd_instance (v_holder st) ≠ "" → hd_instance (v_holder st') = hd_instance (v_holder st))) ∧
  (∀ ans gen t h order rt principal risk now wall,
     rollback h ans gen = true → iterates order (apply ans gen t h).2 →
     LookupFor order order rt principal risk true now now wall = None).
Proof.
  split.
  - intros st st' Hr. induction Hr as [st|st st1 st' Hs Hr IH]; intros Hrec; [done|].
    destruct (generation_step _ _ Hs Hrec) as (Hrec1 & Hle & Hin). destruct (IH Hrec1) as [Hle1 Hin1].
    split; [lia|]. intros Hne. rewrite <- (Hin Hne). apply Hin1. by rewrite (Hin Hne).
  - intros ans gen t h order rt principal risk now wall Hrb Hi. rewrite apply_rollback in Hi by done.
    assert (Hsus : ∀ s, s ∈ order → h_suspended s = true).
    { intros s Hs. destruct (iterates_elem _ _ _ Hi Hs) as [k Hk]. cbn in Hk.
      by apply lookup_fmap_Some in Hk as (s0 & <- & _). }
    unfold LookupFor. destruct (Lookup _ _ _ _ _) as [g|] eqn:Hl.
    + destruct (Lookup_spec _ _ _ _ _ _ _ Hi Hl) as (k & s & Hk & Hu & _).
      apply usable_spec in Hu as (_ & Hns & _). cbn in Hk. by apply lookup_fmap_Some in Hk as (s0 & <- & _).
    + unfold LookupStale. destruct (List.find _ order) as [s|] eqn:Hf; [|done].
      apply find_elem in Hf as [Hin Hu]. unfold usableStale in Hu. rewrite (Hsus s Hin) in Hu.
      by rewrite !orb_true_r in Hu.
Qed.

(** ** Stopped shards *)

Definition isStopped (k : string) (h : Holder) : Prop := ∃ s, hd_shards h !! k = Some s ∧ h_stopped s = true.

Lemma applyShard_stopped defs newer t a m k s :
  m !! k = Some s → h_stopped s = true →
  ∃ s', applyShard defs newer t a m !! k = Some s' ∧ h_stopped s' = true.
Proof.
  intros Hk Hs. unfold applyShard. destruct (decide (sa_Shard a = k)) as [<-|Hne].
  - rewrite Hk, Hs. repeat case_decide; [eauto| |rewrite lookup_insert_eq; eauto|eauto].
    destruct (sa_View a); simpl; eauto.
  - repeat (case_decide || case_match); rewrite ?lookup_insert_ne by done; eauto.
Qed.

Lemma applyShards_stopped defs newer t l m k s :
  m !! k = Some s → h_stopped s = true →
  ∃ s', foldl (λ m a, applyShard defs newer t a m) m l !! k = Some s' ∧ h_stopped s' = true.
Proof.
  revert m s. induction l as [|a l IH]; intros m s Hk Hs; simpl; [eauto|].
  destruct (applyShard_stopped defs newer t a m k s Hk Hs) as (s' & Hk' & Hs'). eauto.
Qed.

(** A shard that went back under its recovery generation stays stopped over every
    answer, whatever it says, until a higher recovery generation is accepted or a stall
    voids all shards. *)
Theorem stopped_stays st st' k :
  view_step st st' → isStopped k (v_holder st) →
  isStopped k (v_holder st') ∨
  (hd_shards (v_holder st') = ∅ ∧ ∃ now wall, v_holder st' = tick now wall (v_holder st)) ∨
  hd_hasRecovery (v_holder st) = false ∨ hd_recovery (v_holder st) < hd_recovery (v_holder st').
Proof.
  intros Hst (s & Hk & Hs). destruct Hst as [h p l now wall|h p l now wall|h l nonce t Ht|h l nonce t ans h' e He
    |h l nonce t ans gen h' Hver Hn Hg Hrb|h l nonce t ans gen h' Hver Hn Hg Hrb]; cbn in *.
  - unfold tick. destruct (stalled now wall h) eqn:Hsl.
    + right; left. split; [done|]. exists now, wall. unfold tick. by rewrite Hsl.
    + left. by exists s.
  - left. by exists s.
  - left. by exists s.
  - apply Verify_Some in He as ->. left. by exists s.
  - apply Verify_None in Hver as (_ & gen' & Hg' & ->). rewrite Hg in Hg'. injection Hg' as <-.
    rewrite apply_rollback by done. left. exists (suspend s). cbn. split; [|done]. by rewrite lookup_fmap, Hk.
  - apply Verify_None in Hver as (_ & gen' & Hg' & ->). rewrite Hg in Hg'. injection Hg' as <-.
    rewrite apply_accept by done. cbn. unfold isStopped. cbn.
    destruct (newerThan h gen) eqn:Hnew.
    + right; right. unfold newerThan in Hnew. destruct (hd_hasRecovery h); [|by left]. right. cbn in Hnew.
      by apply bool_decide_eq_true in Hnew.
    + left. destruct (applyShards_stopped (hd_Defs h) false t (va_Shards ans) _ _ _ Hk Hs) as (s' & H1 & H2).
      by exists s'.
Qed.

(** ** Segments that fit *)

Lemma fitting_segments v defs principal seg :
  seg ∈ e_Segments (default zeroEntry (sh_Subjects (fitting v (Some defs)) !! principal)) → keepSegment defs seg = true.
Proof.
  cbn. rewrite lookup_fmap. destruct (sh_Subjects v !! principal) as [e|]; cbn; [|by intros ?%elem_of_nil].
  intros [Hk _]%list_elem_of_filter. by apply Is_true_true.
Qed.

Lemma segmentsFor_elem e rt seg :
  seg ∈ segmentsFor e rt → seg ∈ e_Segments e ∧ (s_ResourceType seg = "" ∨ s_ResourceType seg = rt).
Proof.
  unfold segmentsFor. destruct (e_AccountsDisabled e); [by intros ?%elem_of_nil|].
  intros [? ?]%list_elem_of_filter. done.
Qed.

(** Every segment a lookup grants for a declared resource type and that names that
    type fits the resource's declaration, so it constrains every declared dimension; only
    a segment that names no resource type can be granted unchecked. *)
Theorem granted_segments_fit component defs st order rt principal risk now g r seg :
  view_reachable component (Some defs) st → iterates order (v_holder st) →
  Lookup order rt principal risk now = Some g → ResourceOf defs rt = Some r →
  seg ∈ g_Segments g → s_ResourceType seg ≠ "" →
  s_ResourceType seg = rt ∧ Check r seg = None ∧ dom (s_Atoms seg) = dom (dims r).
Proof.
  intros Hr Hi Hl Hres Hseg Hne. destruct (view_reachable_inv _ _ _ Hr) as [_ Hv _].
  destruct (Lookup_spec _ _ _ _ _ _ _ Hi Hl) as (k & s & Hk & _ & Hsegs & _).
  destruct (Hv k s Hk) as [_ _ (v & _ & Hf)]. rewrite Hsegs in Hseg. unfold entryOf in Hseg. rewrite Hf in Hseg.
  apply segmentsFor_elem in Hseg as [Hin [?|Hrt]]; [done|]. apply fitting_segments in Hin. unfold keepSegment in Hin.
  rewrite Hrt, Hres in Hin. apply bool_decide_eq_true in Hin. split; [done|]. split; [done|].
  by apply Check_None in Hin as [? _ _].
Qed.

(** ** Runs *)

Definition shopDefs : Definitions :=
  MkDefinitions "shop" [orders]
    [MkOperation "shop.order.view" "shop.order" "read" "high" [] false false "" false false false false "" ""].

(** A view of shard s1 at revision [rev], with [seg] for ann. *)
Definition annView (rev : string) (seg : Segment) : Shard :=
  MkShard "s1" (MkRevision "be.recovery" "1" "" "m1") [MkRevision "roles" rev "1.1" "m1"] ["shop.order"]
    {["ann" := MkEntry [seg] false 1]} [] "digest".
Definition annAnswer (nonce rev : string) (seg : Segment) : VerifyAnswer :=
  MkVerifyAnswer nonce "m1" [MkShardAnswer "s1" "changed" (Some (annView rev seg)) false]
    (MkRevision "be.recovery" "1" "" "m1").

(** A request sent and its answer accepted. *)
Definition answered (nonce : string) (t : Z) (ans : VerifyAnswer) (st : view) : view :=
  MkView (Verify nonce t (Some ans) (v_holder st)).2 None (v_log st ++ [MkAccepted ans 1 t]).

Lemma answered_run nonce t ans st :
  v_pending st = None → 0 ≤ t → va_Nonce ans = nonce →
  ParseInt (rv_Value (va_RecoveryGeneration ans)) = (1, None) → rollback (v_holder st) ans 1 = false →
  rtc view_step st (answered nonce t ans st).
Proof.
  destruct st as [h p l]. cbn. intros -> Ht Hn Hg Hrb. eapply rtc_l; [by apply step_send|].
  assert (He : Verify nonce t (Some ans) h = (None, (apply ans 1 t h).2))
    by (unfold Verify; rewrite decide_True by done; by rewrite Hg).
  apply rtc_once. unfold answered. cbn [v_holder v_log]. rewrite He. by apply step_accept.
Qed.

Definition shopStart : view := view_start "shop" (Some (Validate shopDefs)).
(** The first view, then one that went back. *)
Definition shopFirst : view := answered "n1" 0 (annAnswer "n1" "5" (viewSegment "a_b")) shopStart.
Definition shopBack : view := answered "n2" Second (annAnswer "n2" "3" (viewSegment "a_b")) shopFirst.
(** A stall found ten seconds later, and the view that went back once more. *)
Definition shopStalled : view :=
  let h := tick (12 * Second) (12 * Second) (rest (2 * Second) (2 * Second) (v_holder shopBack)) in
  MkView h None (v_log shopBack).
Definition shopAgain : view := answered "n3" (12 * Second) (annAnswer "n3" "3" (viewSegment "a_b")) shopStalled.

Lemma shopFirst_reachable : view_reachable "shop" (Some (Validate shopDefs)) shopFirst.
Proof. apply (answered_run "n1" 0 (annAnswer "n1" "5" (viewSegment "a_b")) shopStart); first [by vm_compute|lia]. Qed.

Lemma shopBack_reachable : view_reachable "shop" (Some (Validate shopDefs)) shopBack.
Proof.
  unfold view_reachable; trans shopFirst; [apply shopFirst_reachable|].
  apply (answered_run "n2" Second (annAnswer "n2" "3" (viewSegment "a_b")) shopFirst); first [by vm_compute|unfold Second; lia].
Qed.

Lemma shopAgain_run : rtc view_step shopBack shopAgain.
Proof.
  eapply rtc_l; [apply (step_rest (v_holder shopBack) None (v_log shopBack) (2 * Second) (2 * Second))|].
  eapply rtc_l; [apply step_tick|].
  apply (answered_run "n3" (12 * Second) (annAnswer "n3" "3" (viewSegment "a_b")) shopStalled); first [by vm_compute|unfold Second; lia].
Qed.

(** The order of the shards a lookup meets, here the map's own. *)
Definition inOrder (h : Holder) : list held := map snd (map_to_list (hd_shards h)).

Lemma inOrder_iterates h : iterates (inOrder h) h.
Proof. unfold iterates, inOrder. reflexivity. Qed.

Definition annGrant (st : view) (now : Z) : option Grant := Lookup (inOrder (v_holder st)) "shop.order" "ann" "high" now.

(** A stall lifts a stop.  The comment on [held.stopped] says such a shard is unusable
    until a higher recovery generation; a stall empties the table of shards, the mark with
    it, and the next answer of the same generation makes the view that went back usable
    again, for high-risk operations too. *)
Theorem stall_lifts_stop :
  ∃ st st' order g, view_reachable "shop" (Some (Validate shopDefs)) st ∧ isStopped "s1" (v_holder st) ∧
    rtc view_step st st' ∧ hd_recovery (v_holder st') = hd_recovery (v_holder st) ∧
    iterates order (v_holder st') ∧ Lookup order "shop.order" "ann" "high" (13 * Second) = Some g ∧
    g_Segments g = [viewSegment "a_b"].
Proof.
  assert (Hg : is_Some (annGrant shopAgain (13 * Second))) by (vm_compute; eauto). destruct Hg as [g Hg].
  exists shopBack, shopAgain, (inOrder (v_holder shopAgain)), g.
  split; [apply shopBack_reachable|]. split; [eexists; by vm_compute|]. split; [apply shopAgain_run|].
  split; [by vm_compute|]. split; [apply inOrder_iterates|]. split; [exact Hg|].
  assert (Hs : g_Segments <$> annGrant shopAgain (13 * Second) = Some [viewSegment "a_b"]) by (by vm_compute).
  rewrite Hg in Hs. by injection Hs.
Qed.

(** A segment with no resource type and no atom at all. *)
Definition bareSegment : Segment :=
  MkSegment "" "shop.order.view" ∅ ["code"; "price"] [] (MkWindow "0" "").
Definition shopBare : view := answered "n1" 0 (annAnswer "n1" "5" bareSegment) shopStart.

(** A segment that names no resource type is granted unchecked.  [fitting] keeps it as
    one of a type the component does not declare, saying no lookup ever asks for it; every
    lookup takes it, so a segment that constrains no dimension allows every record of the
    resource. *)
Theorem untyped_segment_allows :
  ∃ st order g, view_reachable "shop" (Some (Validate shopDefs)) st ∧ iterates order (v_holder st) ∧
    Lookup order "shop.order" "ann" "high" Second = Some g ∧
    (∃ e, Check orders bareSegment = Some e) ∧ g_Segments g = [bareSegment] ∧
    ∀ facts, ∃ d, Evaluate orders (g_Segments g) "shop.order.view" facts "ann" 5 = Some d ∧ Err_ d = None.
Proof.
  assert (Hg : is_Some (annGrant shopBare Second)) by (vm_compute; eauto). destruct Hg as [g Hg].
  assert (Hs : g_Segments g = [bareSegment]).
  { assert (Hs : g_Segments <$> annGrant shopBare Second = Some [bareSegment]) by (by vm_compute).
    rewrite Hg in Hs. by injection Hs. }
  exists shopBare, (inOrder (v_holder shopBare)), g. split.
  { apply (answered_run "n1" 0 (annAnswer "n1" "5" bareSegment) shopStart); first [by vm_compute|lia]. }
  split; [apply inOrder_iterates|]. split; [exact Hg|]. split; [eexists; by vm_compute|]. split; [done|].
  intros facts. rewrite Hs. eexists. by split; vm_compute.
Qed.

(** ** Witnesses *)

Lemma grant_vouched_witness :
  ∃ g, annGrant shopFirst Second = Some g ∧
  let gen := hd_recovery (v_holder shopFirst) in
  ∃ k t v, renewed (v_log shopFirst) gen k t true ∧ Second < g_Cutoff g ≤ t + 4995000000 ∧
    sent (v_log shopFirst) gen k v ∧ "shop.order" ∈ sh_Applicability (fitting v (Some (Validate shopDefs))) ∧
    g_Segments g = segmentsFor (default zeroEntry (sh_Subjects (fitting v (Some (Validate shopDefs))) !! "ann")) "shop.order".
Proof.
  assert (Hg : is_Some (annGrant shopFirst Second)) by (vm_compute; eauto). destruct Hg as [g Hg].
  exists g. split; [done|].
  apply (grant_vouched "shop" (Some (Validate shopDefs)) shopFirst (inOrder (v_holder shopFirst)) "shop.order" "ann" "high" Second g).
  - apply shopFirst_reachable.
  - apply inOrder_iterates.
  - exact Hg.
Defined.

Lemma stopped_stays_witness :
  let st' := MkView (rest Second Second (v_holder shopBack)) None (v_log shopBack) in
  isStopped "s1" (v_holder st') ∨
  (hd_shards (v_holder st') = ∅ ∧ ∃ now wall, v_holder st' = tick now wall (v_holder shopBack)) ∨
  hd_hasRecovery (v_holder shopBack) = false ∨ hd_recovery (v_holder shopBack) < hd_recovery (v_holder st').
Proof.
  apply (stopped_stays shopBack).
  - apply (step_rest (v_holder shopBack) None (v_log shopBack) Second Second).
  - eexists. by vm_compute.
Defined.

Lemma granted_segments_fit_witness :
  s_ResourceType (viewSegment "a_b") = "shop.order" ∧ Check orders (viewSegment "a_b") = None ∧
  dom (s_Atoms (viewSegment "a_b")) = dom (dims orders).
Proof.
  assert (Hg : is_Some (annGrant shopFirst Second)) by (vm_compute; eauto). destruct Hg as [g Hg].
  apply (granted_segments_fit "shop" (Validate shopDefs) shopFirst (inOrder (v_holder shopFirst)) "shop.order" "ann" "high" Second g).
  - apply shopFirst_reachable.
  - apply inOrder_iterates.
  - exact Hg.
  - by vm_compute.
  - assert (Hs : g_Segments <$> annGrant shopFirst Second = Some [viewSegment "a_b"]) by (by vm_compute).
    rewrite Hg in Hs. injection Hs as ->. by left.
  - done.
Defined.
