(* ===== verification/AuthzSubject.v ===== *)
(** * Admitting a request

    The parts of authz/subject.go and guard/guard.go that put the declarations, the held
    view and the evaluation together: [Subject.grant], [Check], [List], [User.Admit] after
    the credential is verified, and the cutoff of reqctx/reqctx.go they leave in the
    request's context. *)
From S2P Require Import Prelude GoStr AuthzDefs AuthzDeclared AuthzEval AuthzEvalProps AuthzSql AuthzCompile AuthzView AuthzViewProps AuthzViewSafety.
From Stdlib Require Import Ascii String.
Open Scope string_scope.
Open Scope Z_scope.
Open Scope list_scope.

(** ** The request's context *)

(** The cutoff, and the time of a stale basis' last full renewal. *)
Record context := MkContext { cx_cutoff : option Z; cx_stale : option Z }.

Definition WithCutoff (ctx : context) (boot : Z) : context :=
  MkContext (Some (match cx_cutoff ctx with
                   | Some prev => if decide (prev < boot) then prev else boot
                   | None => boot
                   end)) (cx_stale ctx).
Definition withStaleBasis (ctx : context) (since : Z) : context := MkContext (cx_cutoff ctx) (Some since).

(** ** The subject *)

Record Subject := MkSubject { su_Principal : string; su_Defs : validated; su_Holder : Holder; su_At : Z }.

(** What a call meets of the world: the orders of the two loops over the shards and the
    clocks' readings in them. *)
Record meets := MkMeets { me_order : list held; me_order' : list held; me_now : Z; me_now' : Z; me_wall : Z }.

Inductive gerr :=
| Undeclared (op : string)
| ViewExpired
| NilResource             (* the declared operation's resource is missing *)
| Refused (r : refusal)   (* the decision's error *)
| NotCompiled (e : cerr)
| TokenStale
| PanicNil.               (* a nil pointer in a segment *)

Definition lookupFor (me : meets) (rt principal risk : string) (tighteningOnly : bool) : option Grant :=
  LookupFor (me_order me) (me_order' me) rt principal risk tighteningOnly (me_now me) (me_now' me) (me_wall me).

(** The risk an operation is looked up with: high also when the resource's view is. *)
Definition riskOf (v : validated) (o : Operation) (r : Resource) : string :=
  match OperationOf v (r_ViewOperation r) with
  | Some vo => if decide (o_RiskClass vo = "high") then "high" else o_RiskClass o
  | None => o_RiskClass o
  end.

Definition grant (s : Subject) (me : meets) (ctx : context) (op : string)
  : res gerr (context * Operation * Resource * Grant) :=
  match OperationOf (su_Defs s) op with
  | None => Err (Undeclared op)
  | Some o =>
      match ResourceOf (su_Defs s) (o_ResourceType o) with
      | None => Err NilResource
      | Some r =>
          match lookupFor me (r_Type r) (su_Principal s) (riskOf (su_Defs s) o r) (o_TighteningOnly o) with
          | None => Err ViewExpired
          | Some g =>
              let ctx := if g_Stale g then withStaleBasis ctx (g_Since g) else ctx in
              Ok (WithCutoff ctx (g_Cutoff g), o, r, g)
          end
      end
  end.

Lemma riskOf_high v o r vo :
  OperationOf v (r_ViewOperation r) = Some vo →
  bool_decide (riskOf v o r = "high") = bool_decide (o_RiskClass o = "high" ∨ o_RiskClass vo = "high").
Proof. unfold riskOf. intros ->. apply bool_decide_ext. case_decide; tauto. Qed.

Section subject.
Context `{Env} `{Digests}.

(** [Subject.Check]: the context and the decision, or the error. *)
Definition SubjectCheck (s : Subject) (me : meets) (ctx : context) (op : string) (facts : Facts)
  : res gerr (context * Decision_) :=
  match grant s me ctx op with
  | Err e => Err e
  | Ok (ctx, o, r, g) =>
      match Evaluate r (g_Segments g) (o_Key o) facts (su_Principal s) (su_At s) with
      | None => Err PanicNil
      | Some d => match Err_ d with Some e => Err (Refused e) | None => Ok (ctx, d) end
      end
  end.

(** [Subject.List]. *)
Definition SubjectList (s : Subject) (me : meets) (ctx : context) (op : string) (argBase : nat)
  : res gerr (context * Plan) :=
  match grant s me ctx op with
  | Err e => Err e
  | Ok (ctx, o, r, g) =>
      match Compile r (g_Segments g) (o_Key o) (su_Principal s) (su_At s) argBase with
      | Err e => Err (NotCompiled e)
      | Ok p => Ok (ctx, p)
      end
  end.

End subject.

(** ** The guard *)

(** A verified credential. *)
Record user := MkUser { us_Subject : string; us_SecurityVersion : Z; us_Expiry : Z }.

Definition Stale (tokenSV viewSV : Z) : bool := bool_decide (tokenSV < viewSV).

(** [User.Admit] after [Verifier.Verify] gave [u]: [boot] and [now] are the clocks read for
    the cutoff, [at_] the one for the subject. *)
Definition Admit (v : validated) (h : Holder) (u : user) (operation : string) (me : meets) (boot now at_ : Z)
    (ctx : context) : res gerr (context * Subject) :=
  match OperationOf v operation with
  | None => Err (Undeclared operation)
  | Some o =>
      match ResourceOf v (o_ResourceType o) with
      | None => Err NilResource
      | Some r =>
          match lookupFor me (r_Type r) (us_Subject u) (o_RiskClass o) (o_TighteningOnly o) with
          | None => Err ViewExpired
          | Some g =>
              if Stale (us_SecurityVersion u) (g_SecurityVersion g) then Err TokenStale
              else
                let ctx := WithCutoff ctx (int64 (boot + timeSub (us_Expiry u) now)) in
                let ctx := WithCutoff ctx (g_Cutoff g) in
                Ok (ctx, MkSubject (us_Subject u) v h at_)
          end
      end
  end.

(** [CheckOperations]: the operations that are not declared, sorted; none is success. *)
Definition CheckOperations (v : validated) (ops : list string) : list string :=
  sortStrings (filter (λ op, OperationOf v op = None) ops).

(** ** What an admitted request has *)

Lemma WithCutoff_min ctx boot :
  ∃ c, cx_cutoff (WithCutoff ctx boot) = Some c ∧ c ≤ boot ∧ ∀ c0, cx_cutoff ctx = Some c0 → c ≤ c0.
Proof.
  unfold WithCutoff. cbn. eexists. split; [done|]. destruct (cx_cutoff ctx) as [p|]; [|split; [lia|done]].
  case_decide; split; try lia; intros ? [= <-]; lia.
Qed.

Lemma LookupFor_cases me rt principal risk (t : bool) g :
  lookupFor me rt principal risk t = Some g →
  (g_Stale g = false ∧ Lookup (me_order me) rt principal risk (me_now me) = Some g) ∨
  (g_Stale g = true ∧ t = true ∧ LookupStale (me_order' me) rt principal (me_now' me) (me_wall me) = Some g).
Proof.
  unfold lookupFor, LookupFor. destruct (Lookup _ _ _ _ _) as [g'|] eqn:Hl.
  - intros [= <-]. left. split; [|done]. revert Hl. unfold Lookup. destruct (List.find _ _); [|done]. by intros [= <-].
  - destruct t; [|done]. intros Hs. right. split; [|done]. revert Hs. unfold LookupStale.
    destruct (List.find _ _); [|done]. by intros [= <-].
Qed.

Lemma grant_ok s me ctx op ctx' o r g :
  grant s me ctx op = Ok (ctx', o, r, g) →
  OperationOf (su_Defs s) op = Some o ∧ ResourceOf (su_Defs s) (o_ResourceType o) = Some r ∧
  lookupFor me (r_Type r) (su_Principal s) (riskOf (su_Defs s) o r) (o_TighteningOnly o) = Some g ∧
  (∃ c, cx_cutoff ctx' = Some c ∧ c ≤ g_Cutoff g ∧ ∀ c0, cx_cutoff ctx = Some c0 → c ≤ c0) ∧
  (g_Stale g = true → cx_stale ctx' = Some (g_Since g)).
Proof.
  unfold grant. destruct (OperationOf _ op) as [o'|]; [|done].
  destruct (ResourceOf _ (o_ResourceType o')) as [r'|] eqn:Hr; [|done].
  destruct (lookupFor _ _ _ _ _) as [g'|] eqn:Hl; [|done]. intros [= <- <- <- <-].
  split; [done|]. split; [done|]. split; [done|]. split.
  - destruct (WithCutoff_min (if g_Stale g' then withStaleBasis ctx (g_Since g') else ctx) (g_Cutoff g'))
      as (c & Hc & Hle & H0). exists c. split; [done|]. split; [done|]. intros c0 Hc0. apply H0.
    by destruct (g_Stale g').
  - intros ->. done.
Qed.

Lemma Evaluate_allowed `{Env} r segs op facts principal at_ d :
  Evaluate r segs op facts principal at_ = Some d → Err_ d = None →
  (∃ s, granting facts principal at_ segs (r_ViewOperation r) s) ∧ ∃ s, granting facts principal at_ segs op s.
Proof.
  intros (_ & Ha & _)%Evaluate_spec He. apply Ha. unfold Err_ in He.
  destruct (dc_Action d), (dc_Visible d); simpl in *; naive_solver.
Qed.

Lemma LookupStale_own defs st order rt principal now wall g (gen := hd_recovery (v_holder st)) :
  view_inv defs st → iterates order (v_holder st) → LookupStale order rt principal now wall = Some g →
  ∃ k t, ownSegments defs (v_log st) gen k rt principal (g_Segments g) ∧ renewed (v_log st) gen k t true ∧
    g_Since g = wall + int64 (t - now) ∧ g_Cutoff g = int64 (now + drifted WRead).
Proof.
  intros [_ Hv _] Hi. unfold LookupStale. destruct (List.find _ order) as [s|] eqn:Hf; [|done].
  apply find_elem in Hf as [Hin Hu]. destruct (iterates_elem _ _ _ Hi Hin) as [k Hk]. intros [= <-].
  unfold usableStale in Hu. rewrite negb_true_iff, !orb_false_iff, !negb_false_iff, mem_true in Hu.
  destruct Hu as ((((_ & Hh) & _) & _) & Happ). destruct (Hv k s Hk) as [_ Hhigh (v & Hsv & Hfv)].
  exists k, (h_highAt s). split; [|split; [|done]].
  - exists v. by rewrite <- Hfv.
  - apply Hhigh. by rewrite Hh.
Qed.

(** C3. An operation allowed on a record, end to end: over any reachable view [st], which may
    have gone on to [st'] when a stale lookup follows the ordinary one, and any
    declarations [Validate] accepts, a request [Check] allows has an active segment of the
    view operation and one of the operation itself that hold on the record.  Both are among
    the segments of one entry, the request's principal's own in one view of one shard that
    the authorization member sent in an accepted answer of the current recovery
    generation, and the shard covers the operation's resource type.  The request's context
    carries a cutoff no later than the grant's and than any it had.  Either the ordinary
    lookup granted: that shard was renewed within the window of the risk, the high one
    when the operation or the resource's view is high-risk; or the operation is a
    tightening one decided on a stale view: the context then says since when, which is
    the time of a full renewal of that shard. *)
Theorem allowed_end_to_end `{Env} component d st st' s me ctx op facts ctx' dec :
  v_problems (Validate d) = [] → su_Defs s = Validate d → su_Holder s = v_holder st →
  view_reachable component (Some (Validate d)) st → rtc view_step st st' →
  iterates (me_order me) (su_Holder s) → iterates (me_order' me) (v_holder st') →
  SubjectCheck s me ctx op facts = Ok (ctx', dec) →
  ∃ o r vo g, OperationOf (Validate d) op = Some o ∧ ResourceOf (Validate d) (o_ResourceType o) = Some r ∧
    OperationOf (Validate d) (r_ViewOperation r) = Some vo ∧
    (∃ sg, granting facts (su_Principal s) (su_At s) (g_Segments g) (r_ViewOperation r) sg) ∧
    (∃ sg, granting facts (su_Principal s) (su_At s) (g_Segments g) op sg) ∧
    (∃ c, cx_cutoff ctx' = Some c ∧ c ≤ g_Cutoff g ∧ ∀ c0, cx_cutoff ctx = Some c0 → c ≤ c0) ∧
    let high := bool_decide (o_RiskClass o = "high" ∨ o_RiskClass vo = "high") in
    let own st k := ownSegments (Some (Validate d)) (v_log st) (hd_recovery (v_holder st)) k (r_Type r) (su_Principal s) (g_Segments g) in
    (∃ k t, own st k ∧ renewed (v_log st) (hd_recovery (v_holder st)) k t high ∧
       me_now me < g_Cutoff g ≤ t + (if high then 4995000000 else 29970000000)) ∨
    (o_TighteningOnly o = true ∧ ∃ k t, own st' k ∧ renewed (v_log st') (hd_recovery (v_holder st')) k t true ∧
       cx_stale ctx' = Some (me_wall me + int64 (t - me_now' me))).
Proof.
  intros Hval Hdefs Hh Hr Hlater Hi Hi'. rewrite Hh in Hi. apply Validate_iff in Hval. unfold SubjectCheck.
  destruct (grant s me ctx op) as [[[[c1 o] r] g]|] eqn:Hg; [|done]. apply grant_ok in Hg as (Ho & Hres & Hl & Hc & Hst).
  rewrite Hdefs in *. destruct (Validate_found _ _ _ Hval Ho) as (Hkey & _ & r' & vo & Hr' & _ & _ & Hvo & _).
  rewrite Hres in Hr'. injection Hr' as <-. rewrite Hkey.
  destruct (Evaluate _ _ _ _ _ _) as [dd|] eqn:Hev; [|done]. destruct (Err_ dd) eqn:He; [done|]. intros [= <- <-].
  apply Evaluate_allowed in Hev as [Hv1 Hv2]; [|done]. exists o, r, vo, g. do 6 (split; [done|]). cbn zeta.
  apply LookupFor_cases in Hl as [[_ Hl]|(Hsl & Ht & Hl)].
  - left. destruct (Lookup_own _ _ _ _ _ _ _ _ (view_reachable_inv _ _ _ Hr) Hi Hl) as (k & t & Hown & Hren & Hcut).
    exists k, t. split; [exact Hown|]. rewrite <- (riskOf_high _ _ _ _ Hvo). unfold window in Hcut.
    by case_bool_decide; destruct (decide _).
  - right. split; [done|]. rewrite (Hst Hsl). assert (Hr' : view_reachable component (Some (Validate d)) st') by (by unfold view_reachable in *; trans st).
    destruct (LookupStale_own _ _ _ _ _ _ _ _ (view_reachable_inv _ _ _ Hr') Hi' Hl) as (k & t & Hown & Hren & -> & _).
    eauto.
Qed.

(** What [Admit] leaves in the context: a cutoff that ends with the credential and with
    the view's evidence, and a credential as new as the account's last security change. *)
Lemma Admit_ok v h u operation me boot now at_ ctx ctx' s :
  Admit v h u operation me boot now at_ ctx = Ok (ctx', s) →
  ∃ o r g c, OperationOf v operation = Some o ∧ ResourceOf v (o_ResourceType o) = Some r ∧
    lookupFor me (r_Type r) (us_Subject u) (o_RiskClass o) (o_TighteningOnly o) = Some g ∧
    g_SecurityVersion g ≤ us_SecurityVersion u ∧
    cx_cutoff ctx' = Some c ∧ c ≤ g_Cutoff g ∧ c ≤ int64 (boot + timeSub (us_Expiry u) now) ∧
    s = MkSubject (us_Subject u) v h at_.
Proof.
  unfold Admit. destruct (OperationOf v operation) as [o|]; [|done].
  destruct (ResourceOf v _) as [r|] eqn:Hr; [|done]. destruct (lookupFor _ _ _ _ _) as [g|] eqn:Hl; [|done].
  unfold Stale. case_bool_decide as Hsv; [done|]. intros [= <- <-].
  destruct (WithCutoff_min ctx (int64 (boot + timeSub (us_Expiry u) now))) as (c1 & Hc1 & Hle1 & _).
  destruct (WithCutoff_min (WithCutoff ctx (int64 (boot + timeSub (us_Expiry u) now))) (g_Cutoff g)) as (c & Hc & Hle & H0).
  exists o, r, g, c. specialize (H0 _ Hc1). split_and!; try done; lia.
Qed.

(** ** Ann's order *)

Definition annSubject : Subject := MkSubject "ann" (Validate shopDefs) (v_holder shopFirst) 5.
Definition annMeets : meets :=
  MkMeets (inOrder (v_holder shopFirst)) (inOrder (v_holder shopFirst)) Second Second Second.

Lemma allowed_end_to_end_witness :
  ∃ o r vo g, OperationOf (Validate shopDefs) "shop.order.view" = Some o ∧
    ResourceOf (Validate shopDefs) (o_ResourceType o) = Some r ∧
    OperationOf (Validate shopDefs) (r_ViewOperation r) = Some vo ∧
    (∃ sg, granting (orderFacts "a_b/c" "99") "ann" 5 (g_Segments g) (r_ViewOperation r) sg) ∧
    (∃ sg, granting (orderFacts "a_b/c" "99") "ann" 5 (g_Segments g) "shop.order.view" sg) ∧
    (∃ c, cx_cutoff (MkContext (Some 4995000000) None) = Some c ∧ c ≤ g_Cutoff g ∧
       ∀ c0, cx_cutoff (MkContext None None) = Some c0 → c ≤ c0) ∧
    let high := bool_decide (o_RiskClass o = "high" ∨ o_RiskClass vo = "high") in
    let own st k := ownSegments (Some (Validate shopDefs)) (v_log st) (hd_recovery (v_holder st)) k (r_Type r) "ann" (g_Segments g) in
    (∃ k t, own shopFirst k ∧ renewed (v_log shopFirst) (hd_recovery (v_holder shopFirst)) k t high ∧
       me_now annMeets < g_Cutoff g ≤ t + (if high then 4995000000 else 29970000000)) ∨
    (o_TighteningOnly o = true ∧ ∃ k t, own shopFirst k ∧ renewed (v_log shopFirst) (hd_recovery (v_holder shopFirst)) k t true ∧
       cx_stale (MkContext (Some 4995000000) None) = Some (me_wall annMeets + int64 (t - me_now' annMeets))).
Proof.
  apply (allowed_end_to_end "shop" shopDefs shopFirst shopFirst annSubject annMeets (MkContext None None) "shop.order.view"
    (orderFacts "a_b/c" "99") (MkContext (Some 4995000000) None) (MkDecision True_ True_ ["code"; "price"])).
  - by vm_compute.
  - reflexivity.
  - reflexivity.
  - apply shopFirst_reachable.
  - apply rtc_refl.
  - apply inOrder_iterates.
  - apply inOrder_iterates.
  - by vm_compute.
Defined.
