(* ===== verification/Money.v ===== *)
(** * Splitting an amount by weights

    money/money.go: [Allocate] and [largestRemainder], over the rationals math/big computes
    with.  A decimal of the apd package is its coefficient and exponent, or not finite.
    Parsing, formatting and rounding call apd and are not modelled. *)
From S2P Require Import Prelude.
From Stdlib Require Import QArith Qround Qabs Lqa.
Open Scope Z_scope.
Open Scope list_scope.

#[export] Instance Qlt_decision (x y : Q) : Decision (x < y)%Q.
Proof. unfold Qlt. apply _. Defined.
#[export] Instance Qeq_decision (x y : Q) : Decision (x == y)%Q.
Proof. unfold Qeq. apply _. Defined.

Inductive Decimal := Finite (coeff exponent : Z) | NonFinite.

(** The number a finite decimal stands for. *)
Definition rat (c e : Z) : Q :=
  if decide (0 ≤ e) then inject_Z (c * 10 ^ e) else (inject_Z c / inject_Z (10 ^ (- e)))%Q.

(** [new(big.Rat).SetString(d.String())]. *)
Definition SetString (d : Decimal) : option Q :=
  match d with Finite c e => Some (rat c e) | NonFinite => None end.

Fixpoint sumQ (l : list Q) : Q := match l with [] => 0%Q | x :: l => (x + sumQ l)%Q end.

(** ** The largest remainders *)

Definition share (n : Z) (sum w : Q) : Q := (inject_Z n * w / sum)%Q.
Definition baseOf (n : Z) (sum w : Q) : Z := Qfloor (share n sum w).
Definition remOf (n : Z) (sum w : Q) : Q := (share n sum w - inject_Z (baseOf n sum w))%Q.

Definition remAt (rems : list Q) (i : nat) : Q := default 0%Q (rems !! i).

(** One round of the insertion sort: the index [i] moves towards the front while its
    remainder is greater than the one before it; [l] is the sorted part, last first. *)
Fixpoint sink (rems : list Q) (i : nat) (l : list nat) : list nat :=
  match l with
  | [] => [i]
  | j :: l => if decide (remAt rems j < remAt rems i)%Q then j :: sink rems i l else i :: j :: l
  end.
Definition order (rems : list Q) : list nat :=
  rev (foldl (λ l i, sink rems i l) [] (seq 0 (length rems))).

(** [base[i]] one more. *)
Definition bump (base : list Z) (i : nat) : list Z := alter (Z.add 1) i base.

Definition largestRemainder (n : Z) (ws : list Q) (sum : Q) : list Z :=
  let base := map (baseOf n sum) ws in
  let rems := map (remOf n sum) ws in
  let left := n - sumZ (λ z, z) base in
  foldl bump base (take (Z.to_nat left) (order rems)).

(** ** Allocate *)

Inductive allocErr := TotalInvalid | TotalPlaces | WeightInvalid | WeightsZero.

(** The weights, each a finite and not negative number. *)
Fixpoint weightsOf (l : list Decimal) : option (list Q) :=
  match l with
  | [] => Some []
  | d :: l =>
      match SetString d with
      | Some w => if decide (w < 0)%Q then None else ws ← weightsOf l; Some (w :: ws)
      | None => None
      end
  end.

(** [Exp(10, scale, nil)] is 1 for a scale below zero. *)
Definition unitsPer (scale : Z) : Z := 10 ^ Z.max 0 scale.

Definition Allocate (total : Decimal) (weights : list Decimal) (scale : Z) : res allocErr (list Decimal) :=
  match SetString total with
  | None => Err TotalInvalid
  | Some t =>
      let units := Qred (Qabs t * inject_Z (unitsPer scale))%Q in
      if decide (Qden units = 1%positive) then
        match weightsOf weights with
        | None => Err WeightInvalid
        | Some ws =>
            if decide (sumQ ws == 0)%Q then Err WeightsZero
            else Ok (map (λ p, Finite (if decide (t < 0)%Q then - p else p) (- scale))
                       (largestRemainder (Qnum units) ws (sumQ ws)))
        end
      else Err TotalPlaces
  end.

(** ** Sums *)

Lemma sumQ_inject (f : Q → Z) l : (sumQ (map (λ w, inject_Z (f w)) l) == inject_Z (sumZ f l))%Q.
Proof. induction l as [|w l IH]; simpl; [reflexivity|]. rewrite IH, inject_Z_plus. reflexivity. Qed.

Lemma sumZ_map {A} (f : A → Z) l : sumZ (λ z, z) (map f l) = sumZ f l.
Proof. induction l as [|x l IH]; simpl; [done|]. by rewrite IH. Qed.

Section split.
Variables (n : Z) (sum : Q).
Hypothesis Hsum : (0 < sum)%Q.

Lemma share_sum ws : (sumQ (map (share n sum) ws) == share n sum (sumQ ws))%Q.
Proof.
  induction ws as [|w ws IH]; simpl.
  - unfold share. field. lra.
  - rewrite IH. unfold share. field. lra.
Qed.

Lemma rem_range w : (0 <= remOf n sum w)%Q ∧ (remOf n sum w < 1)%Q.
Proof.
  unfold remOf, baseOf. pose proof (Qfloor_le (share n sum w)). pose proof (Qlt_floor (share n sum w)).
  rewrite inject_Z_plus in *. change (inject_Z 1) with 1%Q in *. split; lra.
Qed.

Lemma rem_base ws :
  (sumQ (map (remOf n sum) ws) == sumQ (map (share n sum) ws) - inject_Z (sumZ (baseOf n sum) ws))%Q.
Proof.
  induction ws as [|w ws IH]; simpl; [reflexivity|]. rewrite IH, inject_Z_plus. unfold remOf. lra.
Qed.

(** The units left are the sum of the remainders. *)
Lemma left_rems ws :
  (sumQ ws == sum)%Q → (inject_Z (n - sumZ (baseOf n sum) ws) == sumQ (map (remOf n sum) ws))%Q.
Proof.
  intros Hs. assert (Ha : (share n sum (sumQ ws) == inject_Z n)%Q) by (unfold share; rewrite Hs; field; lra).
  rewrite rem_base, share_sum, Ha. unfold Zminus. rewrite inject_Z_plus, inject_Z_opp. lra.
Qed.

End split.

(** ** The order of the remainders *)

Section order.
Variable rems : list Q.
#[local] Abbreviation rem := (remAt rems).

(** [x] comes after [y] in the order: a smaller remainder, or the same and a later part. *)
Definition behind (x y : nat) : Prop := (rem x < rem y)%Q ∨ ((rem x == rem y)%Q ∧ (y < x)%nat).

#[local] Instance behind_trans : Transitive behind.
Proof. intros x y z [H1|[H1 H2]] [H3|[H3 H4]]; [left; lra..|right; split; [lra|lia]]. Qed.

Lemma sink_perm i l : sink rems i l ≡ₚ i :: l.
Proof.
  induction l as [|j l IH]; simpl; [done|]. case_decide; [|done]. rewrite IH. apply Permutation_swap.
Qed.

Lemma sink_sorted i l :
  (∀ j, j ∈ l → (j < i)%nat) → StronglySorted behind l → StronglySorted behind (sink rems i l).
Proof.
  intros Hlt Hs. induction Hs as [|j l Hs IH Hj]; simpl; [repeat constructor|].
  case_decide as Hd.
  - constructor; [apply IH; intros; apply Hlt; by right|].
    rewrite sink_perm. constructor; [by left|done].
  - constructor; [by constructor|].
    assert (Hij : behind i j).
    { destruct (Q_dec (rem i) (rem j)) as [[?|?]|?]; [by left|lra|]. right. split; [done|]. apply Hlt. by left. }
    constructor; [done|]. eapply Forall_impl; [exact Hj|]. intros k Hk. simpl in Hk. by trans j.
Qed.

Lemma sinks_sorted m l k :
  (∀ j, j ∈ l → (j < k)%nat) → StronglySorted behind l →
  StronglySorted behind (foldl (λ l i, sink rems i l) l (seq k m)) ∧
  foldl (λ l i, sink rems i l) l (seq k m) ≡ₚ l ++ seq k m.
Proof.
  revert l k. induction m as [|m IH]; intros l k Hl Hs; simpl; [by rewrite app_nil_r|].
  destruct (IH (sink rems k l) (S k)) as [H1 H2].
  - intros j Hj. rewrite sink_perm in Hj. apply elem_of_cons in Hj as [->|Hj]; [lia|]. specialize (Hl j Hj). lia.
  - by apply sink_sorted.
  - split; [done|]. rewrite H2, sink_perm. apply Permutation_middle.
Qed.

Lemma order_perm : order rems ≡ₚ seq 0 (length rems).
Proof.
  unfold order. rewrite <- Permutation_rev.
  destruct (sinks_sorted (length rems) [] 0) as [_ H2]; [by intros ? ?%elem_of_nil|constructor|done].
Qed.

Lemma order_NoDup : NoDup (order rems).
Proof. rewrite order_perm. apply NoDup_seq. Qed.

(** Of two parts, the one behind is not before the other in any prefix of the order. *)
Lemma order_prefix k x y :
  behind x y → x ∈ take k (order rems) → y ∈ order rems → y ∈ take k (order rems).
Proof.
  intros Hb Hx Hy. destruct (decide (y ∈ take k (order rems))) as [|Hny]; [done|]. exfalso.
  assert (Hyd : y ∈ drop k (order rems)).
  { rewrite <- (take_drop k (order rems)) in Hy. by apply elem_of_app in Hy as [?|?]. }
  destruct (sinks_sorted (length rems) [] 0) as [Hs _]; [by intros ? ?%elem_of_nil|constructor|].
  unfold order in *. set (o := foldl _ _ _) in *.
  assert (Ho : o = rev (drop k (rev o)) ++ rev (take k (rev o))).
  { rewrite <- rev_app_distr, take_drop. by rewrite rev_involutive. }
  rewrite Ho in Hs.
  assert (Hyx : behind y x) by (eapply (StronglySorted_app_1_elem_of behind); [exact Hs|by rewrite <- Permutation_rev..]).
  destruct Hb as [?|[? ?]], Hyx as [?|[? ?]]; [lra..|lia].
Qed.

End order.

(** ** The parts *)

Lemma bump_sum base i : (i < length base)%nat → sumZ (λ z, z) (bump base i) = sumZ (λ z, z) base + 1.
Proof.
  unfold bump. revert i. induction base as [|x base IH]; intros [|i] Hi; simpl in *; try lia.
  change (x + sumZ (λ z, z) (alter (Z.add 1) i base) = x + sumZ (λ z, z) base + 1). rewrite IH by lia. lia.
Qed.

Lemma bumps_length L base : length (foldl bump base L) = length base.
Proof. revert base. induction L as [|i L IH]; intros base; simpl; [done|]. rewrite IH. apply length_alter. Qed.

Lemma bumps_sum L base :
  (∀ i, i ∈ L → (i < length base)%nat) → sumZ (λ z, z) (foldl bump base L) = sumZ (λ z, z) base + Z.of_nat (length L).
Proof.
  revert base. induction L as [|i L IH]; intros base Hl; simpl; [lia|].
  rewrite IH, bump_sum; [lia|apply Hl; by left|]. intros j Hj. unfold bump. rewrite length_alter. apply Hl. by right.
Qed.

Lemma bumps_lookup L base i b :
  NoDup L → base !! i = Some b → foldl bump base L !! i = Some (b + if decide (i ∈ L) then 1 else 0).
Proof.
  intros Hn. revert base b. induction Hn as [|j L Hj Hn IH]; intros base b Hb; simpl; [by rewrite Hb, Z.add_0_r|].
  destruct (decide (i = j)) as [->|Hij].
  - rewrite (IH (bump base j) (1 + b)) by (unfold bump; by rewrite list_lookup_alter_eq, Hb). rewrite decide_False by done.
    rewrite decide_True by (by left). f_equal. lia.
  - rewrite (IH (bump base j) b) by (unfold bump; by rewrite list_lookup_alter_ne). f_equal. f_equal.
    apply decide_ext. set_solver.
Qed.

(** *** Sums of remainders *)

Lemma sumQ_perm l1 l2 : l1 ≡ₚ l2 → (sumQ l1 == sumQ l2)%Q.
Proof. induction 1; simpl; lra. Qed.
Lemma sumQ_app l1 l2 : (sumQ (l1 ++ l2) == sumQ l1 + sumQ l2)%Q.
Proof. induction l1 as [|x l IH]; simpl; lra. Qed.
Lemma sumQ_zero l : (∀ x, x ∈ l → (x == 0)%Q) → (sumQ l == 0)%Q.
Proof.
  induction l as [|x l IH]; intros Hl; simpl; [lra|]. rewrite (Hl x) by (by left).
  rewrite IH; [lra|]. intros y Hy. apply Hl. by right.
Qed.
Lemma sumQ_bounds l :
  (∀ x, x ∈ l → (0 <= x)%Q ∧ (x < 1)%Q) →
  (0 <= sumQ l)%Q ∧ (sumQ l <= inject_Z (Z.of_nat (length l)))%Q ∧ (l ≠ [] → (sumQ l < inject_Z (Z.of_nat (length l)))%Q).
Proof.
  induction l as [|x l IH]; intros Hl; cbn [sumQ length].
  { change (inject_Z (Z.of_nat 0)) with 0%Q. split_and!; [lra|lra|done]. }
  destruct IH as (H1 & H2 & _); [intros y Hy; apply Hl; by right|]. destruct (Hl x) as [H3 H4]; [by left|].
  rewrite Nat2Z.inj_succ. unfold Z.succ. rewrite inject_Z_plus. change (inject_Z 1) with 1%Q.
  split_and!; [lra|lra|intros _; lra].
Qed.

Lemma remAt_seq rems : map (remAt rems) (seq 0 (length rems)) = rems.
Proof.
  apply list_eq. intros i. rewrite list_lookup_fmap. destruct (decide (i < length rems)%nat) as [Hi|Hi].
  - rewrite lookup_seq_lt by done. cbn. unfold remAt. destruct (lookup_lt_is_Some_2 rems i Hi) as [q ->]. done.
  - rewrite lookup_seq_ge by lia. symmetry. apply lookup_ge_None. lia.
Qed.

Lemma elem_take {A} k (l : list A) x : x ∈ take k l → x ∈ l.
Proof. intros Hx. rewrite <- (take_drop k l). apply elem_of_app. by left. Qed.
Lemma elem_drop {A} k (l : list A) x : x ∈ drop k l → x ∈ l.
Proof. intros Hx. rewrite <- (take_drop k l). apply elem_of_app. by right. Qed.

Section spec.
Variables (n : Z) (ws : list Q) (sum : Q).
Hypothesis Hn : 0 ≤ n.
Hypothesis Hsum : (0 < sum)%Q.
Hypothesis Hws : (sumQ ws == sum)%Q.
#[local] Abbreviation rems := (map (remOf n sum) ws).
#[local] Abbreviation left := (n - sumZ (baseOf n sum) ws).
#[local] Abbreviation extra := (take (Z.to_nat left) (order rems)).

Lemma rems_range x : x ∈ rems → (0 <= x)%Q ∧ (x < 1)%Q.
Proof. intros (w & -> & _)%list_elem_of_fmap. by apply rem_range. Qed.

Lemma left_bounds : 0 ≤ left ≤ Z.of_nat (length ws).
Proof.
  destruct (sumQ_bounds rems rems_range) as (H1 & H2 & _). pose proof (left_rems n sum Hsum ws Hws) as Hl.
  rewrite <- Hl in H1, H2. change 0%Q with (inject_Z 0) in H1. rewrite <- Zle_Qle in H1, H2.
  rewrite length_map in H2. lia.
Qed.

Lemma extra_length : Z.of_nat (length extra) = left.
Proof.
  pose proof left_bounds. rewrite length_take. rewrite order_perm, length_seq, length_map. lia.
Qed.

Lemma extra_elem i : i ∈ extra → (i < length ws)%nat.
Proof.
  intros Hi%elem_take. rewrite order_perm in Hi. apply elem_of_seq in Hi. rewrite length_map in Hi. lia.
Qed.

Lemma order_all i : (i < length ws)%nat → i ∈ order rems.
Proof. intros Hi. rewrite order_perm. apply elem_of_seq. rewrite length_map. lia. Qed.

(** A part whose share is whole gets no extra unit. *)
Lemma extra_positive i : i ∈ extra → (0 < remAt rems i)%Q.
Proof.
  intros Hi. destruct (Qlt_le_dec 0 (remAt rems i)) as [|Hz]; [done|]. exfalso.
  assert (Hr : ∀ j, (j < length ws)%nat → (0 <= remAt rems j)%Q ∧ (remAt rems j < 1)%Q).
  { intros j Hj. unfold remAt. destruct (lookup_lt_is_Some_2 rems j) as [q Hq]; [by rewrite length_map|].
    rewrite Hq. cbn. apply rems_range. by eapply list_elem_of_lookup_2. }
  assert (Hd : ∀ j, j ∈ drop (Z.to_nat left) (order rems) → (remAt rems j == 0)%Q).
  { intros j Hj. assert (Hjo : j ∈ order rems) by (by eapply elem_drop).
    destruct (Hr j) as [H0 _]. { rewrite order_perm in Hjo. apply elem_of_seq in Hjo. rewrite length_map in Hjo. lia. }
    destruct (Qlt_le_dec 0 (remAt rems j)) as [Hp|?]; [|lra].
    assert (Hje : j ∈ extra) by (apply (order_prefix rems _ i j); [left; lra|exact Hi|done]).
    exfalso. pose proof (order_NoDup rems) as Hnd. rewrite <- (take_drop (Z.to_nat left) (order rems)) in Hnd.
    apply NoDup_app in Hnd as (_ & Hx & _). by apply (Hx j). }
  assert (Hs : (sumQ rems == sumQ (map (remAt rems) extra))%Q).
  { rewrite <- (remAt_seq rems) at 1. rewrite <- (sumQ_perm (map (remAt rems) (order rems)));
      [|by rewrite order_perm].
    rewrite <- (take_drop (Z.to_nat left) (order rems)) at 1. rewrite map_app, sumQ_app.
    rewrite (sumQ_zero (map _ (drop _ _))); [lra|]. intros x (j & -> & Hj)%list_elem_of_fmap. by apply Hd. }
  destruct (sumQ_bounds (map (remAt rems) extra)) as (_ & _ & Hlt).
  { intros x (j & -> & Hj)%list_elem_of_fmap. by apply Hr, extra_elem. }
  rewrite length_map, extra_length in Hlt. rewrite (left_rems n sum Hsum ws Hws), Hs in Hlt.
  apply (Qlt_irrefl (sumQ (map (remAt rems) extra))), Hlt. intros He. apply map_eq_nil in He. rewrite He in Hi.
  by apply elem_of_nil in Hi.
Qed.

Lemma remAt_map i w : ws !! i = Some w → remAt rems i = remOf n sum w.
Proof. intros Hi. unfold remAt. by rewrite list_lookup_fmap, Hi. Qed.

Lemma largestRemainder_part i w :
  ws !! i = Some w →
  largestRemainder n ws sum !! i = Some (baseOf n sum w + if decide (i ∈ extra) then 1 else 0).
Proof.
  intros Hi. unfold largestRemainder. rewrite sumZ_map.
  apply bumps_lookup; [|by rewrite list_lookup_fmap, Hi].
  eapply sublist_NoDup; [apply order_NoDup|apply sublist_take].
Qed.

Lemma largestRemainder_length : length (largestRemainder n ws sum) = length ws.
Proof. unfold largestRemainder. by rewrite bumps_length, length_map. Qed.

Lemma largestRemainder_sum : sumZ (λ z, z) (largestRemainder n ws sum) = n.
Proof.
  unfold largestRemainder. rewrite sumZ_map. rewrite bumps_sum.
  - rewrite sumZ_map, extra_length. lia.
  - intros i Hi%extra_elem. by rewrite length_map.
Qed.

End spec.

(** ** The properties *)

Definition valueOf (d : Decimal) : Q := default 0%Q (SetString d).

Lemma pow10_pos scale : 0 ≤ scale → (0 < inject_Z (10 ^ scale))%Q.
Proof. intros Hs. change 0%Q with (inject_Z 0). rewrite <- Zlt_Qlt. by apply Z.pow_pos_nonneg. Qed.

Lemma rat_scale c scale : 0 ≤ scale → (rat c (- scale) == inject_Z c / inject_Z (10 ^ scale))%Q.
Proof.
  intros Hs. unfold rat. case_decide as Hd.
  - assert (scale = 0) as -> by lia. change (- 0) with 0. rewrite Z.pow_0_r, Z.mul_1_r.
    change (inject_Z 1) with 1%Q. field.
  - by rewrite Z.opp_involutive.
Qed.

Lemma sumQ_scaled (s : Z) (sgn : Z → Z) l :
  0 ≤ s → (∀ a b, sgn (a + b) = sgn a + sgn b) → sgn 0 = 0 →
  (sumQ (map (λ p, rat (sgn p) (- s)) l) == inject_Z (sgn (sumZ (λ z, z) l)) / inject_Z (10 ^ s))%Q.
Proof.
  intros Hs Hadd H0. pose proof (pow10_pos s Hs). induction l as [|p l IH]; simpl.
  - rewrite H0. field. lra.
  - rewrite IH, rat_scale, Hadd, inject_Z_plus by done. field. lra.
Qed.

Lemma weightsOf_ok l ws :
  weightsOf l = Some ws → length ws = length l ∧ ∀ w, w ∈ ws → (0 <= w)%Q.
Proof.
  revert ws. induction l as [|d l IH]; intros ws; simpl; [intros [= <-]; split; [done|by intros ? ?%elem_of_nil]|].
  destruct (SetString d) as [w|]; [|done]. case_decide as Hw; [done|].
  destruct (weightsOf l) as [vs|]; [|done]. intros [= <-]. destruct (IH vs eq_refl) as [H1 H2].
  split; [simpl; by rewrite H1|]. intros v [->|Hv]%elem_of_cons; [lra|auto].
Qed.

Lemma sumQ_pos ws : (∀ w, w ∈ ws → (0 <= w)%Q) → ¬ (sumQ ws == 0)%Q → (0 < sumQ ws)%Q.
Proof.
  intros Hw Hz. assert (H0 : (0 <= sumQ ws)%Q); [|lra]. clear Hz.
  induction ws as [|w ws IH]; simpl; [lra|]. pose proof (Hw w (list_elem_of_here _ _)).
  assert (0 <= sumQ ws)%Q; [|lra]. apply IH. intros v Hv. apply Hw. by right.
Qed.

(** One part against its exact share, in units. *)
Lemma part_near n ws sum i w p :
  (0 < sum)%Q → (sumQ ws == sum)%Q → ws !! i = Some w → largestRemainder n ws sum !! i = Some p →
  (Qabs (inject_Z p - share n sum w) < 1)%Q ∧
  ((share n sum w == inject_Z (baseOf n sum w))%Q → p = baseOf n sum w).
Proof.
  intros Hsum Hws Hi. rewrite (largestRemainder_part n ws sum i w Hi). intros [= <-].
  destruct (rem_range n sum w) as [H0 H1]. pose proof (extra_positive n ws sum Hsum Hws i) as Hp.
  rewrite (remAt_map n ws sum i w Hi) in Hp. unfold remOf in *. case_decide as He.
  - specialize (Hp He). split; [|lra]. rewrite inject_Z_plus. change (inject_Z 1) with 1%Q.
    apply Qabs_case; lra.
  - rewrite Z.add_0_r. split; [|done]. apply Qabs_case; lra.
Qed.

(** The sign a total gives its parts. *)
Definition signed (t : Q) (p : Z) : Z := if decide (t < 0)%Q then - p else p.

Lemma signed_units t scale n :
  0 ≤ scale → (Qabs t * inject_Z (10 ^ scale) == inject_Z n)%Q → (inject_Z (signed t n) / inject_Z (10 ^ scale) == t)%Q.
Proof.
  intros Hs Hn. pose proof (pow10_pos scale Hs). unfold signed.
  assert (Hd : (inject_Z n / inject_Z (10 ^ scale) == Qabs t)%Q) by (rewrite <- Hn; field; lra).
  case_decide as Ht.
  - rewrite inject_Z_opp. assert (He : (- inject_Z n / inject_Z (10 ^ scale) == - Qabs t)%Q)
      by (rewrite <- Hd; field; lra).
    rewrite He, Qabs_neg by lra. lra.
  - rewrite Hd. apply Qabs_pos. lra.
Qed.

(** One part against its exact share of the total. *)
Lemma part_exact t scale n ws i w p :
  0 ≤ scale → (0 < sumQ ws)%Q → (Qabs t * inject_Z (10 ^ scale) == inject_Z n)%Q →
  ws !! i = Some w → largestRemainder n ws (sumQ ws) !! i = Some p →
  let exact := (t * w / sumQ ws)%Q in
  (Qabs (rat (signed t p) (- scale) - exact) < 1 / inject_Z (10 ^ scale))%Q ∧
  ((∃ k, (exact * inject_Z (10 ^ scale) == inject_Z k)%Q) → (rat (signed t p) (- scale) == exact)%Q).
Proof.
  intros Hs Hsum Hn Hi Hp exact. pose proof (pow10_pos scale Hs) as H10.
  destruct (part_near n ws (sumQ ws) i w p Hsum (Qeq_refl _) Hi Hp) as [Hnear Hwhole].
  set (y := (inject_Z p - share n (sumQ ws) w)%Q) in *. set (z := (1 / inject_Z (10 ^ scale))%Q).
  assert (Hz : (0 < z)%Q) by (unfold z; apply Qlt_shift_div_l; [done|lra]).
  apply Qabs_Qlt_condition in Hnear as [Hy1 Hy2].
  assert (Hyz : (- z < y * z)%Q ∧ (y * z < z)%Q).
  { pose proof (Qmult_lt_compat_r _ _ z Hz Hy1). pose proof (Qmult_lt_compat_r _ _ z Hz Hy2). split; lra. }
  assert (Hsh : (share n (sumQ ws) w == Qabs t * inject_Z (10 ^ scale) * w / sumQ ws)%Q)
    by (unfold share; by rewrite Hn).
  assert (Hd : (rat (signed t p) (- scale) - exact == if decide (t < 0) then - (y * z) else y * z)%Q).
  { rewrite rat_scale by done. unfold exact, y, z, signed. case_decide as Ht; rewrite Hsh.
    - rewrite inject_Z_opp, (Qabs_neg t) by lra. field. lra.
    - rewrite (Qabs_pos t) by lra. field. lra. }
  split.
  - rewrite Hd. apply Qabs_Qlt_condition. case_decide; lra.
  - intros [k Hk]. assert (Hy0 : (y == 0)%Q); [|case_decide; nra].
    assert (Hint : (share n (sumQ ws) w == inject_Z (signed t k))%Q).
    { unfold signed, exact in *. case_decide as Ht; rewrite Hsh.
      - rewrite inject_Z_opp, <- Hk, (Qabs_neg t) by lra. field. lra.
      - rewrite <- Hk, (Qabs_pos t) by lra. field. lra. }
    assert (Hb : baseOf n (sumQ ws) w = signed t k).
    { unfold baseOf. rewrite (Qfloor_comp _ _ Hint). apply Qfloor_Z. }
    unfold y. rewrite Hwhole; rewrite Hb; rewrite Hint; lra.
Qed.

(** C33. Splitting an amount loses and invents nothing.  Whenever [Allocate] succeeds, at a
    scale of zero or more places, there is one part for each weight, the parts sum exactly
    to the total, and each part differs from its exact share of the total by less than one
    unit of the scale, and not at all when that share is a whole number of units. *)
Theorem Allocate_exact total weights scale parts :
  0 ≤ scale → Allocate total weights scale = Ok parts →
  ∃ t ws, SetString total = Some t ∧ weightsOf weights = Some ws ∧ length parts = length weights ∧
    (sumQ (map valueOf parts) == t)%Q ∧
    ∀ i w d, ws !! i = Some w → parts !! i = Some d →
      let exact := (t * w / sumQ ws)%Q in
      (Qabs (valueOf d - exact) < 1 / inject_Z (10 ^ scale))%Q ∧
      ((∃ k, (exact * inject_Z (10 ^ scale) == inject_Z k)%Q) → (valueOf d == exact)%Q).
Proof.
  intros Hs. unfold Allocate. destruct (SetString total) as [t|]; [|done].
  set (u := Qred _). case_decide as Hden; [|done].
  destruct (weightsOf weights) as [ws|] eqn:Hw; [|done]. case_decide as Hz; [done|]. intros [= <-].
  apply weightsOf_ok in Hw as [Hlen Hpos]. pose proof (sumQ_pos ws Hpos Hz) as Hsum.
  assert (Hn : (Qabs t * inject_Z (10 ^ scale) == inject_Z (Qnum u))%Q).
  { rewrite <- (Z.max_r 0 scale) by done. fold (unitsPer scale). rewrite <- Qred_correct. fold u.
    destruct u as [a b]. cbn in Hden. by subst b. }
  exists t, ws. do 2 (split; [done|]). split; [by rewrite length_map, largestRemainder_length|]. split.
  - rewrite map_map. cbn [valueOf SetString from_option id]. change (λ x, rat _ _) with (λ p, rat (signed t p) (- scale)).
    rewrite sumQ_scaled; [|done|..].
    + rewrite largestRemainder_sum by (done || reflexivity). by apply signed_units.
    + intros a b. unfold signed. case_decide; lia.
    + unfold signed. by case_decide.
  - intros i w d Hi Hd. rewrite list_lookup_fmap in Hd.
    destruct (largestRemainder _ _ _ !! i) as [p|] eqn:Hp; [|done]. cbn in Hd. injection Hd as <-.
    by apply (part_exact t scale (Qnum u) ws i w p).
Qed.

(** The leftover units go to the largest remainders, the earlier part first on a tie:
    when a part got an extra unit, so did every part with a larger remainder, and every
    earlier part with the same one. *)
Theorem leftover_order n ws sum i j wi wj :
  ws !! i = Some wi → ws !! j = Some wj →
  ((remOf n sum wj < remOf n sum wi)%Q ∨ ((remOf n sum wj == remOf n sum wi)%Q ∧ (i < j)%nat)) →
  largestRemainder n ws sum !! j = Some (baseOf n sum wj + 1) →
  largestRemainder n ws sum !! i = Some (baseOf n sum wi + 1).
Proof.
  intros Hi Hj Hb. rewrite (largestRemainder_part n ws sum j wj Hj), (largestRemainder_part n ws sum i wi Hi).
  case_decide as Hej; [|intros [= ?]; lia]. intros _. rewrite decide_True; [done|].
  apply (order_prefix (map (remOf n sum) ws) _ j i); [|done|].
  - unfold behind. by rewrite (remAt_map n ws sum i wi Hi), (remAt_map n ws sum j wj Hj).
  - apply order_all. by eapply lookup_lt_Some.
Qed.

(** ** A hundred split three ways *)

Lemma Allocate_exact_witness :
  let weights := [Finite 1 0; Finite 1 0; Finite 1 0] in
  ∃ t ws, SetString (Finite (-10000) (-2)) = Some t ∧ weightsOf weights = Some ws ∧
    length [Finite (-3334) (-2); Finite (-3333) (-2); Finite (-3333) (-2)] = length weights ∧
    (sumQ (map valueOf [Finite (-3334) (-2); Finite (-3333) (-2); Finite (-3333) (-2)]) == t)%Q ∧
    ∀ i w d, ws !! i = Some w → [Finite (-3334) (-2); Finite (-3333) (-2); Finite (-3333) (-2)] !! i = Some d →
      let exact := (t * w / sumQ ws)%Q in
      (Qabs (valueOf d - exact) < 1 / inject_Z (10 ^ 2))%Q ∧
      ((∃ k, (exact * inject_Z (10 ^ 2) == inject_Z k)%Q) → (valueOf d == exact)%Q).
Proof. apply Allocate_exact; [lia|]. by vm_compute. Defined.

Lemma leftover_order_witness : largestRemainder 11 [1; 1; 1]%Q 3 !! 0%nat = Some (baseOf 11 3 1 + 1).
Proof.
  apply (leftover_order 11 [1; 1; 1]%Q 3 0 1 1 1); [done|done|right; split; [reflexivity|lia]|by vm_compute].
Defined.
