(* ===== verification/ListQuery.v ===== *)
(** * Lists by pages

    list/list.go ([Build], [filter], [resume], [Next], [ParseLimit]) and list/page.go
    ([Page]): one page of a resource's list as one query, with the subject's authorization
    predicate, the request's filters and search, and the keyset condition a cursor stands
    for.  search/search.go gives the pattern of a search ([Like]).

    Conditions are trees, as in [AuthzSql]; [decides] is what the database makes of one on
    a row.  What the package takes from outside is two interfaces: the values of columns
    with their casts and their order, and the encodings (the cursor's JSON and base64, the
    digest of the request, the folding of a search text). *)
From S2P Require Import Prelude GoStr AuthzDefs AuthzDeclared AuthzEval AuthzSql AuthzView AuthzSubject.
From Stdlib Require Import Ascii String.
Open Scope string_scope.
Open Scope Z_scope.
Open Scope list_scope.

Definition DefaultLimit : Z := 50.
Definition MaxLimit : Z := 200.

(** ** Requests and queries *)

Record Column := MkColumn {
  cl_Field : string; cl_Column : string; cl_Kind : string; cl_Sortable : bool; cl_Filterable : bool }.
Record SearchColumn := MkSearchColumn { sc_Name : string; sc_Column : string; sc_Fields : list string }.
Record Spec := MkSpec {
  sp_Operation : string; sp_IDColumn : string; sp_IDKind : string;
  sp_Columns : list Column; sp_Search : list SearchColumn }.
Record Order := MkOrder { or_Field : string; or_Desc : bool }.
Record Filter := MkFilter { fl_Field : string; fl_Op : string; fl_Values : list string }.
Record Request := MkRequest {
  rq_Sort : list Order; rq_Filters : list Filter; rq_Q : string; rq_Cursor : string; rq_Limit : Z;
  rq_ReadableOnly : list string }.

Record cursor := MkCursor { cu_V : Z; cu_Keys : list string; cu_ID : string; cu_F : string; cu_P : string }.

Inductive relOp := REq | RGe | RGt | RLe | RLt.

(** The conditions of a page's WHERE clause. *)
Inductive cond :=
| KPred (p : pred)
| KFalse
| KAny (col kind : string) (n : nat)
| KRel (col : string) (op : relOp) (kind : string) (n : nat)
| KLike (col : string) (n : nat)
| KAnd (l : list cond)
| KOr (l : list cond).

Definition relText (op : relOp) : string :=
  match op with REq => "=" | RGe => ">=" | RGt => ">" | RLe => "<=" | RLt => "<" end.

(** The text of a condition; [col] is [Query.col]. *)
Fixpoint printCond (col : string → string) (k : cond) : string :=
  match k with
  | KPred p => print col p
  | KFalse => "FALSE"
  | KAny c kind n => (col c ++ " = ANY(" ++ dollar n ++ "::" ++ kind ++ "[])")%string
  | KRel c op kind n => (col c ++ " " ++ relText op ++ " " ++ dollar n ++ "::" ++ kind)%string
  | KLike c n => (col c ++ " LIKE " ++ dollar n ++ " ESCAPE '\'")%string
  | KAnd l => ("(" ++ String.concat " AND " (map (printCond col) l) ++ ")")%string
  | KOr l => ("(" ++ String.concat " OR " (map (printCond col) l) ++ ")")%string
  end.

Record Query := MkQuery {
  q_Where : list cond;
  q_Args : list argv;
  q_OrderBy : list (string * bool);
  q_Limit : Z;
  q_Hits : list pred;
  q_ReadableOnly : list string;
  q_spec : Spec;
  q_plan : Plan;
  q_sorts : list Order;
  q_filterHash : string }.

Inductive lerr :=
| Bad (field : string)
| NotQueryable (field : string)
| CursorInvalid
| PlanChanged
| Auth (e : gerr).

(** The encodings: [encodeCursor] is base64 over JSON, [filterDigest] the hash over the
    request, [searchQuery] is [search.Query]; [utf8] are the texts JSON carries unchanged. *)
Class Encodings := {
  utf8 : string → Prop;
  encodeCursor : cursor → string;
  decodeCursor : string → option cursor;
  filterDigest : list Filter → string → list Order → list string → string;
  searchQuery : string → string }.

(** [search.Like]. *)
Definition Like (q : string) : string := ("%" ++ likeEscape q ++ "%")%string.

(** [ParseLimit]. *)
Definition ParseLimit (v : string) : res lerr Z :=
  if decide (v = "") then Ok DefaultLimit
  else match Atoi v with
       | (n, None) => if decide (1 ≤ n ≤ MaxLimit) then Ok n else Err (Bad "limit")
       | _ => Err (Bad "limit")
       end.

(** ** The clauses of a page *)

(** [Query.arg]: placeholders are counted from one. *)
Definition qarg (v : argv) (args : list argv) : nat * list argv := (List.length (args ++ [v]), args ++ [v]).

Definition opOf (op : string) : option relOp :=
  if decide (op = "eq") then Some REq else if decide (op = "gte") then Some RGe
  else if decide (op = "gt") then Some RGt else if decide (op = "lte") then Some RLe
  else if decide (op = "lt") then Some RLt else None.

(** [Query.filter]. *)
Definition filterCond (c : Column) (f : Filter) (args : list argv) : res lerr (cond * list argv) :=
  if decide (fl_Op f = "in") then
    if decide (fl_Values f = []) then Ok (KFalse, args)
    else let '(n, args) := qarg (ATexts (fl_Values f)) args in Ok (KAny (cl_Column c) (cl_Kind c) n, args)
  else
    match opOf (fl_Op f), fl_Values f with
    | Some op, [v] => let '(n, args) := qarg (AText v) args in Ok (KRel (cl_Column c) op (cl_Kind c) n, args)
    | _, _ => Err (Bad ("filter." ++ fl_Field f)%string)
    end.

(** The columns by field; a later one replaces an earlier one. *)
Definition colsOf (spec : Spec) : gmap string Column := indexBy cl_Field (sp_Columns spec).

Section build.
Variables (plan : Plan) (resource : option Resource).

(** The loop over [ReadableOnly]: the fields narrowed to, in the order met, and their
    conditions. *)
Fixpoint narrow (fs : list string) (narrowed : list string) : res lerr (list string * list cond) :=
  match fs with
  | [] => Ok (narrowed, [])
  | f :: fs =>
      if match resource with Some r => shown r f | None => false end then
        if mem f narrowed then narrow fs narrowed
        else match narrow fs (narrowed ++ [f]) with
             | Err e => Err e
             | Ok (ns, conds) => Ok (ns, KPred (ReadableWhere plan f) :: conds)
             end
      else Err (Bad ("readable_only." ++ f)%string)
  end.

(** A field that may be hidden in some listed row. *)
Definition restricted (narrowed : list string) (field : string) : bool :=
  match resource with
  | None => false
  | Some r =>
      negb (bool_decide (default "" (f_Class <$> r_Fields r !! field) = Ordinary)) && negb (mem field narrowed)
  end.
Definition queryable (narrowed : list string) (field : string) : bool :=
  negb (restricted narrowed field) || ReadableEverywhere plan field.

Fixpoint filterConds (cols : gmap string Column) (narrowed : list string) (fs : list Filter) (args : list argv)
  : res lerr (list cond * list argv) :=
  match fs with
  | [] => Ok ([], args)
  | f :: fs =>
      match cols !! fl_Field f with
      | None => Err (Bad ("filter." ++ fl_Field f)%string)
      | Some c =>
          if negb (cl_Filterable c) then Err (Bad ("filter." ++ fl_Field f)%string)
          else if negb (queryable narrowed (fl_Field f)) then Err (NotQueryable (fl_Field f))
          else match filterCond c f args with
               | Err e => Err e
               | Ok (k, args) =>
                   match filterConds cols narrowed fs args with
                   | Err e => Err e
                   | Ok (ks, args) => Ok (k :: ks, args)
                   end
               end
      end
  end.

(** The search columns the caller may search. *)
Fixpoint searchConds (narrowed : list string) (nq : string) (scs : list SearchColumn) (args : list argv)
  : list cond * list argv :=
  match scs with
  | [] => ([], args)
  | sc :: scs =>
      if forallb (queryable narrowed) (sc_Fields sc) then
        let '(n, args) := qarg (AText (Like nq)) args in
        let '(ks, args) := searchConds narrowed nq scs args in
        (KLike (sc_Column sc) n :: ks, args)
      else searchConds narrowed nq scs args
  end.

Fixpoint sortsOk (cols : gmap string Column) (narrowed : list string) (os : list Order) : option lerr :=
  match os with
  | [] => None
  | o :: os =>
      match cols !! or_Field o with
      | None => Some (Bad ("sort." ++ or_Field o)%string)
      | Some c =>
          if negb (cl_Sortable c) then Some (Bad ("sort." ++ or_Field o)%string)
          else if negb (queryable narrowed (or_Field o)) then Some (NotQueryable (or_Field o))
          else sortsOk cols narrowed os
      end
  end.

End build.

(** ** The keyset condition *)

(** A column as a sort reads it; one that is not there reads as the zero column. *)
Definition zeroColumn : Column := MkColumn "" "" "" false false.
Definition colOf (cols : gmap string Column) (o : Order) : Column := default zeroColumn (cols !! or_Field o).

(** The equalities of the first keys. *)
Fixpoint eqConds (cols : gmap string Column) (os : list Order) (keys : list string) (args : list argv)
  : list cond * list argv :=
  match os, keys with
  | o :: os, k :: keys =>
      let c := colOf cols o in
      let '(n, args) := qarg (AText k) args in
      let '(ks, args) := eqConds cols os keys args in
      (KRel (cl_Column c) REq (cl_Kind c) n :: ks, args)
  | _, _ => ([], args)
  end.

(** The last condition of alternative [i]: the key [i] after its value, or the ID. *)
Definition afterCond (spec : Spec) (cols : gmap string Column) (rest : list Order) (keys : list string) (id : string)
    (args : list argv) : cond * list argv :=
  match rest, keys with
  | o :: _, k :: _ =>
      let c := colOf cols o in
      let '(n, args) := qarg (AText k) args in
      (KRel (cl_Column c) (if or_Desc o then RLt else RGt) (cl_Kind c) n, args)
  | _, _ => let '(n, args) := qarg (AText id) args in (KRel (sp_IDColumn spec) RGt (sp_IDKind spec) n, args)
  end.

(** Alternative [i] of the disjunction. *)
Definition alternative (spec : Spec) (cols : gmap string Column) (sorts : list Order) (keys : list string) (id : string)
    (i : nat) (args : list argv) : cond * list argv :=
  let '(eqs, args) := eqConds cols (take i sorts) (take i keys) args in
  let '(k, args) := afterCond spec cols (drop i sorts) (drop i keys) id args in
  (KAnd (eqs ++ [k]), args).

Fixpoint alternatives (spec : Spec) (cols : gmap string Column) (sorts : list Order) (keys : list string) (id : string)
    (ixs : list nat) (args : list argv) : list cond * list argv :=
  match ixs with
  | [] => ([], args)
  | i :: ixs =>
      let '(k, args) := alternative spec cols sorts keys id i args in
      let '(ks, args) := alternatives spec cols sorts keys id ixs args in
      (k :: ks, args)
  end.

Section encodings.
Context `{Encodings}.

(** [Query.resume]. *)
Definition resume (spec : Spec) (cols : gmap string Column) (sorts : list Order) (filterHash planHash : string)
    (raw : string) (args : list argv) : res lerr (cond * list argv) :=
  match decodeCursor raw with
  | None => Err CursorInvalid
  | Some c =>
      if decide (cu_V c = 1 ∧ List.length (cu_Keys c) = List.length sorts) then
        if decide (cu_F c = filterHash) then
          if decide (cu_P c = planHash) then
            let '(ors, args) := alternatives spec cols sorts (cu_Keys c) (cu_ID c) (seq 0 (S (List.length sorts))) args in
            Ok (KOr ors, args)
          else Err PlanChanged
        else Err CursorInvalid
      else Err CursorInvalid
  end.

(** [Query.Next]. *)
Definition Next (q : Query) (keys : list string) (id : string) : string :=
  encodeCursor (MkCursor 1 keys id (q_filterHash q) (p_Digest (q_plan q))).

(** [Build] from the subject's plan: the page's clauses, up to the cursor. *)
Definition clauses (plan : Plan) (resource : option Resource) (spec : Spec) (req : Request)
  : res lerr (list cond * list argv * list string * string) :=
  let cols := colsOf spec in
  match narrow plan resource (rq_ReadableOnly req) [] with
  | Err e => Err e
  | Ok (narrowed, readable) =>
      match filterConds plan resource cols narrowed (rq_Filters req) (p_Args plan) with
      | Err e => Err e
      | Ok (filters, args) =>
          let nq := searchQuery (rq_Q req) in
          let '(search, args) :=
            (if decide (nq = "") then ([], args)
             else let '(ors, args) := searchConds plan resource narrowed nq (sp_Search spec) args in
                  ([KOr (if decide (ors = []) then [KFalse] else ors)], args)) in
          match sortsOk plan resource cols narrowed (rq_Sort req) with
          | Some e => Err e
          | None =>
              let ro := sortStrings narrowed in
              Ok (KPred (p_Where plan) :: readable ++ filters ++ search, args, ro,
                  filterDigest (rq_Filters req) nq (rq_Sort req) ro)
          end
      end
  end.

(** The rest of [Build]: the cursor and the order. *)
Definition compilePage (plan : Plan) (resource : option Resource) (spec : Spec) (req : Request) (limit : Z)
  : res lerr Query :=
  match clauses plan resource spec req with
  | Err e => Err e
  | Ok (where_, args, ro, fh) =>
      let cols := colsOf spec in
      let orderBy := map (λ o, (cl_Column (colOf cols o), or_Desc o)) (rq_Sort req) ++ [(sp_IDColumn spec, false)] in
      match
        (if decide (rq_Cursor req = "") then Ok (where_, args)
         else match resume spec cols (rq_Sort req) fh (p_Digest plan) (rq_Cursor req) args with
              | Err e => Err e
              | Ok (k, args) => Ok (where_ ++ [k], args)
              end)
      with
      | Err e => Err e
      | Ok (where_, args) =>
          Ok (MkQuery where_ args orderBy limit (p_Hits plan) ro spec plan (rq_Sort req) fh)
      end
  end.

Context `{Env} `{Digests}.

(** [Build]. *)
Definition Build (s : Subject) (me : meets) (ctx : context) (spec : Spec) (req : Request)
  : res lerr (context * Query) :=
  let limit := if decide (rq_Limit req = 0) then DefaultLimit else rq_Limit req in
  if decide (1 ≤ limit ≤ MaxLimit) then
    match SubjectList s me ctx (sp_Operation spec) 0 with
    | Err e => Err (Auth e)
    | Ok (ctx, plan) =>
        let resource :=
          ResourceOf (su_Defs s)
            (default "" (o_ResourceType <$> OperationOf (su_Defs s) (sp_Operation spec))) in
        match compilePage plan resource spec req limit with
        | Err e => Err e
        | Ok q => Ok (ctx, q)
        end
    end
  else Err (Bad "limit").

End encodings.

(** ** What the database makes of a page *)

(** The values of columns: the cast of a text to a kind, the text a value is shown as, and
    the order. *)
Class Values := {
  val : Type;
  vcast : string → string → option val;
  vshow : string → val → string;
  vcmp : val → val → comparison }.

Section decides.
Context `{Env} `{Values}.

(** A row as the plan's predicate reads it, and as values. *)
Record lrow := MkRow { lr_cells : gmap string (cell decimal); lr_vals : gmap string val }.

Definition related (op : relOp) (c : comparison) : bool :=
  match op, c with
  | REq, Eq => true | REq, _ => false
  | RGe, Lt => false | RGe, _ => true
  | RGt, Gt => true | RGt, _ => false
  | RLe, Gt => false | RLe, _ => true
  | RLt, Lt => true | RLt, _ => false
  end.

Variables (numeric : string → option decimal) (row : lrow) (args : list argv).

Fixpoint decides (k : cond) : option (option bool) :=
  match k with
  | KPred p => holds numeric (lr_cells row) 0 args p
  | KFalse => Some (Some false)
  | KAny col kind n =>
      a ← argAt 0 args n;
      match a with
      | ATexts l => vs ← mapM (vcast kind) l; x ← lr_vals row !! col;
                    Some (Some (existsb (λ v, match vcmp x v with Eq => true | _ => false end) vs))
      | AText _ => None
      end
  | KRel col op kind n =>
      t ← textArg 0 args n; v ← vcast kind t; x ← lr_vals row !! col; Some (Some (related op (vcmp x v)))
  | KLike col n => t ← textArg 0 args n; onText (lr_cells row) col (like t)
  | KAnd l => (fix go l := match l with
                           | [] => Some (Some true)
                           | q :: l => x ← decides q; y ← go l; Some (and3 x y)
                           end) l
  | KOr l => (fix go l := match l with
                          | [] => Some (Some false)
                          | q :: l => x ← decides q; y ← go l; Some (or3 x y)
                          end) l
  end.

(** A row of a page: every condition of the WHERE clause is true. *)
Definition listed (ks : list cond) : bool := forallb (λ k, bool_decide (decides k = Some (Some true))) ks.

End decides.
