(* ===== verification/ListProps.v ===== *)
(** * The keyset condition

    What a cursor's condition means: the rows strictly after the cursor's row in the
    list's own order ([resume_means]), whatever arguments the query had before; and the
    order itself, strict and total on rows with different IDs. *)
From S2P Require Import Prelude GoStr AuthzDefs AuthzDeclared AuthzEval AuthzSql AuthzView AuthzSubject ListQuery.
From Stdlib Require Import Ascii String.
Open Scope string_scope.
Open Scope Z_scope.
Open Scope list_scope.

(** ** What the values promise *)

Class ValuesLaws `{Values} := {
  vcmp_eq x y : vcmp x y = Eq ↔ x = y;
  vcmp_opp x y : vcmp y x = CompOpp (vcmp x y);
  vcmp_trans x y z : vcmp x y = Lt → vcmp y z = Lt → vcmp x z = Lt;
  cast_show kind v : vcast kind (vshow kind v) = Some v }.

Class EncodingsLaws `{Encodings} := {
  decode_encode c : Forall utf8 (cu_ID c :: cu_F c :: cu_P c :: cu_Keys c) → decodeCursor (encodeCursor c) = Some c;
  digest_utf8 fs nq os ro : utf8 (filterDigest fs nq os ro);
  encode_not_empty c : encodeCursor c ≠ "" }.

(** ** More arguments change nothing *)

Lemma argAt_mono base args more n a : argAt base args n = Some a → argAt base (args ++ more) n = Some a.
Proof. unfold argAt. case_decide; [|done]. intros Hl. by apply lookup_app_l_Some. Qed.
Lemma textArg_mono base args more n t : textArg base args n = Some t → textArg base (args ++ more) n = Some t.
Proof.
  unfold textArg. destruct (argAt base args n) as [a|] eqn:Ha; [|done]. by rewrite (argAt_mono _ _ more _ _ Ha).
Qed.

Section mono.
Context `{Env} `{Values} (numeric : string → option decimal).

Fixpoint holds_mono row base args more (p : pred) x {struct p} :
  holds numeric row base args p = Some x → holds numeric row base (args ++ more) p = Some x.
Proof.
  destruct p as [| |col n|col n|col n|col|col op n|l|l|p1 p2|p]; cbn [holds].
  - done.
  - done.
  - destruct (argAt base args n) as [a|] eqn:Ha; [|done]. by rewrite (argAt_mono _ _ more _ _ Ha).
  - destruct (textArg base args n) as [a|] eqn:Ha; [|done]. by rewrite (textArg_mono _ _ more _ _ Ha).
  - destruct (textArg base args n) as [a|] eqn:Ha; [|done]. by rewrite (textArg_mono _ _ more _ _ Ha).
  - done.
  - destruct (textArg base args n) as [a|] eqn:Ha; [|done]. by rewrite (textArg_mono _ _ more _ _ Ha).
  - revert x. induction l as [|q l IHl]; intros x; [done|].
    destruct (holds numeric row base args q) as [y|] eqn:Hq; [|done]. rewrite (holds_mono _ _ _ more _ _ Hq).
    cbn [mbind option_bind]. match goal with |- context [?go l] => destruct (go l) as [z|] eqn:Hz; [|done] end.
    rewrite (IHl _ eq_refl). done.
  - revert x. induction l as [|q l IHl]; intros x; [done|].
    destruct (holds numeric row base args q) as [y|] eqn:Hq; [|done]. rewrite (holds_mono _ _ _ more _ _ Hq).
    cbn [mbind option_bind]. match goal with |- context [?go l] => destruct (go l) as [z|] eqn:Hz; [|done] end.
    rewrite (IHl _ eq_refl). done.
  - destruct (holds numeric row base args p1) as [y|] eqn:H1; [|done]. rewrite (holds_mono _ _ _ more _ _ H1).
    cbn [mbind option_bind].
    destruct (holds numeric row base args p2) as [z|] eqn:H2; [|done]. by rewrite (holds_mono _ _ _ more _ _ H2).
  - destruct (holds numeric row base args p) as [y|] eqn:H1; [|done]. by rewrite (holds_mono _ _ _ more _ _ H1).
Qed.

Fixpoint decides_mono row args more (k : cond) x {struct k} :
  decides numeric row args k = Some x → decides numeric row (args ++ more) k = Some x.
Proof.
  destruct k as [p| |col kind n|col op kind n|col n|l|l]; cbn [decides].
  - apply holds_mono.
  - done.
  - destruct (argAt 0 args n) as [a|] eqn:Ha; [|done]. by rewrite (argAt_mono _ _ more _ _ Ha).
  - destruct (textArg 0 args n) as [a|] eqn:Ha; [|done]. by rewrite (textArg_mono _ _ more _ _ Ha).
  - destruct (textArg 0 args n) as [a|] eqn:Ha; [|done]. by rewrite (textArg_mono _ _ more _ _ Ha).
  - revert x. induction l as [|q l IHl]; intros x; [done|].
    destruct (decides numeric row args q) as [y|] eqn:Hq; [|done]. rewrite (decides_mono _ _ more _ _ Hq).
    cbn [mbind option_bind]. match goal with |- context [?go l] => destruct (go l) as [z|] eqn:Hz; [|done] end.
    rewrite (IHl _ eq_refl). done.
  - revert x. induction l as [|q l IHl]; intros x; [done|].
    destruct (decides numeric row args q) as [y|] eqn:Hq; [|done]. rewrite (decides_mono _ _ more _ _ Hq).
    cbn [mbind option_bind]. match goal with |- context [?go l] => destruct (go l) as [z|] eqn:Hz; [|done] end.
    rewrite (IHl _ eq_refl). done.
Qed.

End mono.

(** ** The order of a list *)

Lemma existsb_map {A B} (f : B → bool) (g : A → B) l : existsb f (g <$> l) = existsb (λ x, f (g x)) l.
Proof. induction l as [|x l IH]; [done|]. cbn. by rewrite <- IH. Qed.
Lemma existsb_ext {A} (f g : A → bool) l : (∀ x, f x = g x) → existsb f l = existsb g l.
Proof. intros Hf. induction l as [|x l IH]; [done|]. cbn. by rewrite Hf, IH. Qed.
Lemma existsb_const_false {A} (f : A → bool) l : (∀ x, f x = false) → existsb f l = false.
Proof. intros Hf. induction l as [|x l IH]; [done|]. cbn. by rewrite Hf, IH. Qed.

Section order.
Context `{ValuesLaws}.

(** [b] comes strictly after [a]: the first key that differs decides, each in its
    direction. *)
Fixpoint after (ds : list bool) (a b : list val) : bool :=
  match ds, a, b with
  | d :: ds, x :: a, y :: b => match vcmp x y with Lt => negb d | Gt => d | Eq => after ds a b end
  | _, _, _ => false
  end.

Lemma after_irrefl ds a : after ds a a = false.
Proof.
  revert a. induction ds as [|d ds IH]; intros [|x a]; try done. cbn. by rewrite (proj2 (vcmp_eq x x) eq_refl).
Qed.

Lemma after_asym ds a b : after ds a b = true → after ds b a = false.
Proof.
  revert a b. induction ds as [|d ds IH]; intros [|x a] [|y b]; cbn; try done.
  rewrite (vcmp_opp x y). destruct (vcmp x y), d; cbn; auto.
Qed.

Lemma after_trans ds a b c : after ds a b = true → after ds b c = true → after ds a c = true.
Proof.
  revert a b c. induction ds as [|d ds IH]; intros [|x a] [|y b] [|z c]; cbn; try done.
  destruct (vcmp x y) eqn:H1.
  - apply vcmp_eq in H1 as ->. destruct (vcmp y z) eqn:H2; eauto.
  - destruct d; [done|]. intros _. destruct (vcmp y z) eqn:H2; [apply vcmp_eq in H2 as <-; by rewrite H1| |done].
    intros _. by rewrite (vcmp_trans _ _ _ H1 H2).
  - destruct d; [|done]. intros _. destruct (vcmp y z) eqn:H2; [apply vcmp_eq in H2 as <-; by rewrite H1|done|].
    intros _. rewrite (vcmp_opp z x). rewrite (vcmp_trans z y x); [done|..].
    + by rewrite (vcmp_opp y z), H2.
    + by rewrite (vcmp_opp x y), H1.
Qed.

(** Two lists of keys as long as the directions, neither after the other, are the same. *)
Lemma after_total ds a b :
  List.length a = List.length ds → List.length b = List.length ds →
  after ds a b = false → after ds b a = false → a = b.
Proof.
  revert a b. induction ds as [|d ds IH]; intros [|x a] [|y b]; cbn; try done. intros [= Ha] [= Hb].
  rewrite (vcmp_opp x y). destruct (vcmp x y) eqn:H1; cbn; destruct d; try done;
    intros; apply vcmp_eq in H1 as ->; f_equal; by apply IH.
Qed.

(** Alternative [i] of the keyset condition: the first [i] keys the same, key [i] after. *)
Definition altAfter (ds : list bool) (a b : list val) (i : nat) : bool :=
  forallb (λ '(x, y), match vcmp y x with Eq => true | _ => false end) (zip (take i a) (take i b)) &&
  match drop i ds, drop i a, drop i b with
  | d :: _, x :: _, y :: _ => match vcmp y x with Gt => negb d | Lt => d | Eq => false end
  | _, _, _ => false
  end.

Lemma altAfter_S d ds x a y b i :
  altAfter (d :: ds) (x :: a) (y :: b) (S i) = match vcmp y x with Eq => altAfter ds a b i | _ => false end.
Proof. unfold altAfter. cbn. by destruct (vcmp y x). Qed.

Lemma after_alternatives ds a b n :
  List.length ds = n → List.length a = n → List.length b = n →
  existsb (altAfter ds a b) (seq 0 n) = after ds a b.
Proof.
  revert a b n. induction ds as [|d ds IH]; intros [|x a] [|y b] n; cbn; intros <-; try done.
  intros [= Ha] [= Hb]. cbn [seq existsb].
  rewrite <- fmap_S_seq, existsb_map.
  assert (He : existsb (λ i, altAfter (d :: ds) (x :: a) (y :: b) (S i)) (seq 0 (List.length ds)) =
    match vcmp y x with Eq => after ds a b | _ => false end).
  { destruct (vcmp y x) eqn:Hv.
    - rewrite <- (IH a b (List.length ds)) by done. apply existsb_ext. intros i. by rewrite altAfter_S, Hv.
    - apply existsb_const_false. intros i. by rewrite altAfter_S, Hv.
    - apply existsb_const_false. intros i. by rewrite altAfter_S, Hv. }
  rewrite He. unfold altAfter. cbn. rewrite (vcmp_opp x y).
  destruct (vcmp x y); cbn; by rewrite ?orb_false_r.
Qed.

End order.

(** ** The condition of a cursor *)

Section keyset.
Context `{Env} `{ValuesLaws} (numeric : string → option decimal).
Variables (spec : Spec) (cols : gmap string Column).

(** The text of each key, by its column's kind. *)
Definition texts (os : list Order) (vs : list val) : list string :=
  zip_with (λ o v, vshow (cl_Kind (colOf cols o)) v) os vs.

Lemma texts_take i os vs : take i (texts os vs) = texts (take i os) (take i vs).
Proof.
  unfold texts. revert os vs. induction i as [|i IH]; intros os vs; [done|].
  destruct os as [|o os], vs as [|v vs]; cbn; [done|done|done|f_equal; apply IH].
Qed.
Lemma texts_drop i os vs : drop i (texts os vs) = texts (drop i os) (drop i vs).
Proof.
  unfold texts. revert os vs. induction i as [|i IH]; intros os vs; [done|].
  destruct os as [|o os], vs as [|v vs]; cbn; [done|done|by destruct (drop i os)|apply IH].
Qed.

Variable row : lrow.

(** The row's value of each sort key. *)
Definition keyed (os : list Order) (vs : list val) : Prop :=
  Forall2 (λ o v, lr_vals row !! cl_Column (colOf cols o) = Some v) os vs.

(** A condition that gives [b] whatever arguments come after [args]. *)
Definition meansK (args : list argv) (k : cond) (b : bool) : Prop :=
  ∀ more, decides numeric row (args ++ more) k = Some (Some b).

Lemma meansK_app args ext k b : meansK args k b → meansK (args ++ ext) k b.
Proof. intros Hm more. rewrite <- app_assoc. apply Hm. Qed.

Lemma meansK_And args ks bs : Forall2 (meansK args) ks bs → meansK args (KAnd ks) (forallb id bs).
Proof.
  induction 1 as [|k b ks bs Hk Hks IH]; intros more; [done|]. specialize (IH more). cbn [decides] in IH |- *.
  rewrite (Hk more). cbn [mbind option_bind]. rewrite IH.
  change (forallb id (b :: bs)) with (b && forallb id bs). by destruct b, (forallb id bs).
Qed.
Lemma meansK_Or args ks bs : Forall2 (meansK args) ks bs → meansK args (KOr ks) (existsb id bs).
Proof.
  induction 1 as [|k b ks bs Hk Hks IH]; intros more; [done|]. specialize (IH more). cbn [decides] in IH |- *.
  rewrite (Hk more). cbn [mbind option_bind]. rewrite IH.
  change (existsb id (b :: bs)) with (b || existsb id bs). by destruct b, (existsb id bs).
Qed.

(** A key against the text of a value. *)
Lemma meansK_Rel col op kind v x args :
  lr_vals row !! col = Some x →
  meansK (args ++ [AText (vshow kind v)]) (KRel col op kind (List.length (args ++ [AText (vshow kind v)])))
    (related op (vcmp x v)).
Proof.
  intros Hx more. cbn [decides].
  assert (Ht : textArg 0 ((args ++ [AText (vshow kind v)]) ++ more) (List.length (args ++ [AText (vshow kind v)])) =
    Some (vshow kind v)).
  { unfold textArg, argAt. rewrite length_app. cbn [List.length]. rewrite decide_True by lia.
    replace (List.length args + 1 - 0 - 1)%nat with (List.length args) by lia.
    rewrite <- app_assoc. cbn [app]. by rewrite list_lookup_middle. }
  rewrite Ht. cbn [mbind option_bind]. rewrite cast_show. cbn [mbind option_bind]. by rewrite Hx.
Qed.

Lemma eqConds_means os vs0 vs args ks args' :
  keyed os vs → List.length vs0 = List.length os → eqConds cols os (texts os vs0) args = (ks, args') →
  (∃ ext, args' = args ++ ext) ∧
  Forall2 (meansK args') ks (map (λ '(x, y), match vcmp y x with Eq => true | _ => false end) (zip vs0 vs)).
Proof.
  intros Hk. revert vs0 args ks args'. induction Hk as [|o v os vs Ho Hk IH]; intros [|v0 vs0] args ks args'; cbn; try done.
  - intros _ [= <- <-]. split; [exists []; by rewrite app_nil_r|constructor].
  - intros [= Hl]. unfold qarg. destruct (eqConds cols os _ _) as [ks1 a1] eqn:He. intros [= <- <-].
    apply IH in He as [[e ->] Hks]; [|done]. split; [exists ([AText (vshow (cl_Kind (colOf cols o)) v0)] ++ e); by rewrite app_assoc|].
    constructor; [|done]. apply meansK_app.
    replace (match vcmp v v0 with Eq => true | _ => false end) with (related REq (vcmp v v0)) by (by destruct (vcmp v v0)).
    by apply meansK_Rel.
Qed.

Variables (sorts : list Order) (vs0 vs : list val) (id0 id1 : val).
Hypothesis Hvs : keyed sorts vs.
Hypothesis Hlen : List.length vs0 = List.length sorts.
Hypothesis Hid : lr_vals row !! sp_IDColumn spec = Some id1.

Definition directions (os : list Order) : list bool := map or_Desc os ++ [false].

Lemma Hvs_len : List.length vs = List.length sorts.
Proof. symmetry. by eapply Forall2_length. Qed.

Lemma afterCond_means i args k args' :
  (i ≤ List.length sorts)%nat →
  afterCond spec cols (drop i sorts) (drop i (texts sorts vs0)) (vshow (sp_IDKind spec) id0) args = (k, args') →
  (∃ ext, args' = args ++ ext) ∧
  meansK args' k
    match drop i (directions sorts), drop i (vs0 ++ [id0]), drop i (vs ++ [id1]) with
    | d :: _, x :: _, y :: _ => match vcmp y x with Gt => negb d | Lt => d | Eq => false end
    | _, _, _ => false
    end.
Proof.
  intros Hi. unfold afterCond, directions. rewrite texts_drop. pose proof Hvs_len as Hl.
  destruct (decide (i < List.length sorts)%nat) as [Hlt|Hge].
  - destruct (lookup_lt_is_Some_2 sorts i Hlt) as [o Ho].
    destruct (lookup_lt_is_Some_2 vs0 i) as [x Hx]; [lia|]. destruct (lookup_lt_is_Some_2 vs i) as [y Hy]; [lia|].
    rewrite !drop_app_le by (rewrite ?length_map; lia).
    rewrite (drop_S _ _ _ Ho), (drop_S _ _ _ Hx), (drop_S _ _ _ Hy).
    rewrite (drop_S (map or_Desc sorts) (or_Desc o) i) by (by rewrite list_lookup_fmap, Ho).
    cbn. unfold qarg. intros [= <- <-]. split; [by eexists|].
    assert (Hrow : lr_vals row !! cl_Column (colOf cols o) = Some y) by (exact (Forall2_lookup_lr _ _ _ _ _ _ Hvs Ho Hy)).
    destruct (or_Desc o); [pose proof (meansK_Rel _ RLt (cl_Kind (colOf cols o)) x y args Hrow) as Hm
      |pose proof (meansK_Rel _ RGt (cl_Kind (colOf cols o)) x y args Hrow) as Hm];
      by destruct (vcmp y x).
  - assert (i = List.length sorts) as -> by lia.
    rewrite (drop_ge sorts) by lia. cbn. unfold qarg. intros [= <- <-]. split; [by eexists|].
    rewrite !drop_app_ge by (rewrite ?length_map; lia). rewrite length_map, Hlen, Hl, Nat.sub_diag. cbn.
    pose proof (meansK_Rel _ RGt (sp_IDKind spec) id0 id1 args Hid) as Hm. by destruct (vcmp id1 id0).
Qed.

Lemma alternative_means i args k args' :
  (i ≤ List.length sorts)%nat →
  alternative spec cols sorts (texts sorts vs0) (vshow (sp_IDKind spec) id0) i args = (k, args') →
  (∃ ext, args' = args ++ ext) ∧ meansK args' k (altAfter (directions sorts) (vs0 ++ [id0]) (vs ++ [id1]) i).
Proof.
  intros Hi. unfold alternative. rewrite texts_take. pose proof Hvs_len as Hl.
  destruct (eqConds _ _ _ _) as [eqs a1] eqn:He. destruct (afterCond _ _ _ _ _ _) as [k1 a2] eqn:Ha.
  intros [= <- <-]. eapply eqConds_means in He as [[e1 ->] Heqs].
  2: { apply Forall2_take, Hvs. } 2: { rewrite !length_take. lia. }
  apply afterCond_means in Ha as [[e2 ->] Hk]; [|done].
  split; [exists (e1 ++ e2); by rewrite app_assoc|].
  assert (Hm : meansK ((args ++ e1) ++ e2) (KAnd (eqs ++ [k1]))
    (forallb id (map (λ '(x, y), match vcmp y x with Eq => true | _ => false end) (zip (take i vs0) (take i vs)) ++
       [match drop i (directions sorts), drop i (vs0 ++ [id0]), drop i (vs ++ [id1]) with
        | d :: _, x :: _, y :: _ => match vcmp y x with Gt => negb d | Lt => d | Eq => false end
        | _, _, _ => false end]))).
  { apply meansK_And, Forall2_app; [|by constructor]. eapply Forall2_impl; [exact Heqs|]. intros; by apply meansK_app. }
  rewrite forallb_app in Hm. cbn [forallb] in Hm. rewrite andb_true_r in Hm.
  unfold altAfter. rewrite !take_app_le by lia.
  replace (forallb (λ '(x, y), _) (zip (take i vs0) (take i vs))) with
    (forallb id (map (λ '(x, y), match vcmp y x with Eq => true | _ => false end) (zip (take i vs0) (take i vs)))); [done|].
  clear. induction (zip (take i vs0) (take i vs)) as [|[x y] l IH]; [done|]. cbn. by rewrite IH.
Qed.

Lemma alternatives_means ixs args ks args' :
  (∀ i, i ∈ ixs → (i ≤ List.length sorts)%nat) →
  alternatives spec cols sorts (texts sorts vs0) (vshow (sp_IDKind spec) id0) ixs args = (ks, args') →
  (∃ ext, args' = args ++ ext) ∧
  Forall2 (meansK args') ks (map (altAfter (directions sorts) (vs0 ++ [id0]) (vs ++ [id1])) ixs).
Proof.
  revert args ks args'. induction ixs as [|i ixs IH]; intros args ks args' Hi; cbn [alternatives].
  { intros [= <- <-]. split; [exists []; by rewrite app_nil_r|constructor]. }
  destruct (alternative _ _ _ _ _ _ _) as [k a1] eqn:Hk. destruct (alternatives _ _ _ _ _ _ _) as [ks1 a2] eqn:Hks.
  intros [= <- <-]. apply alternative_means in Hk as [[e1 ->] Hk]; [|apply Hi; by left].
  apply IH in Hks as [[e2 ->] Hks]; [|intros; apply Hi; by right].
  split; [exists (e1 ++ e2); by rewrite app_assoc|]. constructor; [by apply meansK_app|done].
Qed.

(** The whole condition: this row is after the cursor's. *)
Lemma keyset_means args ors args' :
  alternatives spec cols sorts (texts sorts vs0) (vshow (sp_IDKind spec) id0) (seq 0 (S (List.length sorts))) args = (ors, args') →
  (∃ ext, args' = args ++ ext) ∧
  meansK args' (KOr ors) (after (directions sorts) (vs0 ++ [id0]) (vs ++ [id1])).
Proof.
  intros Ha. apply alternatives_means in Ha as [Hext Hf]; [|intros i ?%elem_of_seq; lia]. split; [done|].
  apply meansK_Or in Hf. pose proof Hvs_len as Hl.
  rewrite <- (after_alternatives (directions sorts) (vs0 ++ [id0]) (vs ++ [id1]) (S (List.length sorts)));
    [|unfold directions; rewrite ?length_app, ?length_map; cbn; lia..].
  replace (existsb (altAfter _ _ _) _) with
    (existsb id (map (altAfter (directions sorts) (vs0 ++ [id0]) (vs ++ [id1])) (seq 0 (S (List.length sorts))))); [done|].
  generalize (seq 0 (S (List.length sorts))). intros l. induction l as [|i l IH]; [done|]. cbn. by rewrite IH.
Qed.

End keyset.
