(* ===== verification/ListPages.v ===== *)
(** * Walking a list page by page

    [Page] of list/page.go and the walk a caller makes with it: each page's cursor gives
    the next page, until there is none.  Over a table that does not change, the pages are
    the whole list, in order, no row twice and none left out. *)
From S2P Require Import Prelude GoStr AuthzDefs AuthzDeclared AuthzEval AuthzSql AuthzView AuthzSubject ListQuery ListProps.
From Stdlib Require Import Ascii String.
Open Scope string_scope.
Open Scope Z_scope.
Open Scope list_scope.

(** ** One page *)

Section page.
Context `{Env} `{Values} `{Encodings} (numeric : string → option decimal).

(** The values ORDER BY reads of a row, and the order it gives. *)
Definition rowKey (orderBy : list (string * bool)) (row : lrow) : list val :=
  omap (λ '(c, _), lr_vals row !! c) orderBy.
Definition ordered (orderBy : list (string * bool)) (r1 r2 : lrow) : Prop :=
  after (map snd orderBy) (rowKey orderBy r2) (rowKey orderBy r1) = false.
#[export] Instance ordered_dec orderBy r1 r2 : Decision (ordered orderBy r1 r2).
Proof. unfold ordered. apply _. Defined.

(** The rows of the query's WHERE clause, in its order. *)
Definition selected (q : Query) (rows : list lrow) : list lrow :=
  merge_sort (ordered (q_OrderBy q)) (filter (λ row, listed numeric row (q_Args q) (q_Where q)) rows).

(** What the caller's [keys] gives: the sort values and the ID as texts. *)
Definition keysOf (q : Query) (row : lrow) : list string * string :=
  let cols := colsOf (q_spec q) in
  (map (λ o, match lr_vals row !! cl_Column (colOf cols o) with
             | Some v => vshow (cl_Kind (colOf cols o)) v
             | None => ""
             end) (q_sorts q),
   match lr_vals row !! sp_IDColumn (q_spec q) with Some v => vshow (sp_IDKind (q_spec q)) v | None => "" end).

(** [Page]: at most [Limit] of the [Limit + 1] rows asked for; the cursor is empty on the
    last page. *)
Definition Page (q : Query) (rows : list lrow) : list lrow * string :=
  let limit := Z.to_nat (q_Limit q) in
  let got := take (S limit) (selected q rows) in
  let out := take limit got in
  if decide (limit < List.length got)%nat then
    match last out with
    | Some row => let '(k, id) := keysOf q row in (out, Next q k id)
    | None => (out, "")
    end
  else (out, "").

(** ** The walk *)

Definition withCursor (req : Request) (c : string) : Request :=
  MkRequest (rq_Sort req) (rq_Filters req) (rq_Q req) c (rq_Limit req) (rq_ReadableOnly req).

(** [fuel] bounds the pages that have a next one. *)
Fixpoint walk (fuel : nat) (plan : Plan) (resource : option Resource) (spec : Spec) (req : Request) (limit : Z)
    (rows : list lrow) (c : string) : option (list (list lrow)) :=
  match compilePage plan resource spec (withCursor req c) limit with
  | Err _ => None
  | Ok q =>
      let '(out, next) := Page q rows in
      if decide (next = "") then Some [out]
      else match fuel with
           | O => None
           | S fuel => rest ← walk fuel plan resource spec req limit rows next; Some (out :: rest)
           end
  end.

End page.

(** ** The rows after one *)

Lemma filter_none {A} (P : A → Prop) `{∀ x, Decision (P x)} (l : list A) : (∀ x, x ∈ l → ¬ P x) → filter P l = [].
Proof.
  induction l as [|x l IH]; intros Hl; [done|]. rewrite filter_cons, decide_False by (apply Hl; by left).
  apply IH. intros y Hy. apply Hl. by right.
Qed.
Lemma filter_every {A} (P : A → Prop) `{∀ x, Decision (P x)} (l : list A) : (∀ x, x ∈ l → P x) → filter P l = l.
Proof.
  induction l as [|x l IH]; intros Hl; [done|]. rewrite filter_cons, decide_True by (apply Hl; by left).
  f_equal. apply IH. intros y Hy. apply Hl. by right.
Qed.

Lemma filter_ext_in {A} (P Q : A → Prop) `{∀ x, Decision (P x)} `{∀ x, Decision (Q x)} (l : list A) :
  (∀ x, x ∈ l → P x ↔ Q x) → filter P l = filter Q l.
Proof.
  induction l as [|x l IH]; intros Hl; [done|]. rewrite !filter_cons.
  rewrite IH by (intros y Hy; apply Hl; by right). specialize (Hl x (list_elem_of_here _ _)).
  repeat case_decide; intuition congruence.
Qed.
Lemma forallb_ext_in {A} (f g : A → bool) l : (∀ x, x ∈ l → f x = g x) → forallb f l = forallb g l.
Proof.
  induction l as [|x l IH]; intros Hl; [done|]. cbn. rewrite (Hl x) by (by left). f_equal.
  apply IH. intros y Hy. apply Hl. by right.
Qed.

Section sorted.
Context {A : Type} (lt : A → A → bool).
Hypothesis lt_asym : ∀ x y, lt x y = true → lt y x = false.

Lemma filter_after l1 x l2 :
  StronglySorted (λ a b, lt a b = true) (l1 ++ x :: l2) → filter (λ y, lt x y = true) (l1 ++ x :: l2) = l2.
Proof.
  intros Hs. rewrite filter_app, filter_cons.
  assert (Hxx : lt x x ≠ true) by (intros Hx; specialize (lt_asym _ _ Hx); congruence).
  rewrite decide_False by done.
  assert (H1 : filter (λ y, lt x y = true) l1 = []).
  { apply filter_none. intros y Hy Hxy.
    assert (lt y x = true) by (eapply (StronglySorted_app_1_elem_of (λ a b, lt a b = true)); [exact Hs|done|by left]).
    specialize (lt_asym y x). intuition congruence. }
  assert (H2 : filter (λ y, lt x y = true) l2 = l2).
  { apply StronglySorted_app_1_r in Hs. inversion Hs as [|? ? Hs' Hall]; subst. apply filter_every.
    by apply Forall_forall. }
  by rewrite H1, H2.
Qed.

(** A strict order that decides between any two rows has one sorted arrangement. *)
Lemma strict_unique l1 l2 :
  StronglySorted (λ a b, lt a b = true) l1 → StronglySorted (λ a b, lt a b = true) l2 → l1 ≡ₚ l2 → l1 = l2.
Proof.
  intros H1 H2 Hp. revert l2 H2 Hp. induction H1 as [|x l1 Hs IH Hall]; intros l2 H2 Hp.
  { by apply Permutation_nil_l in Hp. }
  destruct l2 as [|y l2]; [by apply Permutation_nil_r in Hp|]. inversion H2 as [|? ? Hs2 Hall2]; subst.
  assert (x = y) as ->.
  { assert (Hx : x ∈ y :: l2) by (rewrite <- Hp; by left). assert (Hy : y ∈ x :: l1) by (rewrite Hp; by left).
    apply elem_of_cons in Hx as [->|Hx]; [done|]. apply elem_of_cons in Hy as [<-|Hy]; [done|].
    rewrite Forall_forall in Hall, Hall2. specialize (Hall y Hy). specialize (Hall2 x Hx).
    specialize (lt_asym x y Hall). congruence. }
  f_equal. apply IH; [done|]. by apply Permutation_cons_inv in Hp.
Qed.

End sorted.

(** A relation that is transitive on a sorted list orders all of it. *)
Lemma Sorted_strong_on {A} (R : A → A → Prop) (l : list A) :
  (∀ x y z, x ∈ l → y ∈ l → z ∈ l → R x y → R y z → R x z) → Sorted R l → StronglySorted R l.
Proof.
  intros Ht Hs. induction Hs as [|x l Hs IH Hd]; [constructor|].
  assert (Hl : StronglySorted R l) by (apply IH; intros a b c ? ? ?; apply (Ht a b c); by right).
  constructor; [done|]. inversion Hd as [|y l' Hxy]; subst; [constructor|]. constructor; [done|].
  inversion Hl as [|? ? _ Hy]; subst. apply Forall_forall. intros z Hz. rewrite Forall_forall in Hy.
  apply (Ht x y z); [by left|right; by left|right; by right|done|by apply Hy].
Qed.

(** ** The list *)

Section list.
Context `{Env} `{ValuesLaws} `{EncodingsLaws} (numeric : string → option decimal).
Variables (plan : Plan) (resource : option Resource) (spec : Spec) (req : Request) (limit : Z).
Variables (where0 : list cond) (args0 : list argv) (ro : list string) (fh : string) (rows : list lrow).
#[local] Abbreviation cols := (colsOf spec).
#[local] Abbreviation sorts := (rq_Sort req).
Definition orderOf (sp : Spec) (os : list Order) : list (string * bool) :=
  map (λ o, (cl_Column (colOf (colsOf sp) o), or_Desc o)) os ++ [(sp_IDColumn sp, false)].

(** A row has a value for every sort column and for the ID. *)
Definition complete (row : lrow) : Prop :=
  ∃ vs id, keyed cols row sorts vs ∧ lr_vals row !! sp_IDColumn spec = Some id.

Hypothesis Hclauses : clauses plan resource spec req = Ok (where0, args0, ro, fh).
Hypothesis Hlimit : 1 ≤ limit.
Hypothesis Hcomplete : ∀ row, row ∈ rows → complete row.
Hypothesis Hnodup : NoDup rows.
Hypothesis Hids : ∀ r1 r2, r1 ∈ rows → r2 ∈ rows →
  lr_vals r1 !! sp_IDColumn spec = lr_vals r2 !! sp_IDColumn spec → r1 = r2.
Hypothesis Hruns : ∀ row k, row ∈ rows → k ∈ where0 → is_Some (decides numeric row args0 k).
Hypothesis Hshow : ∀ kind v, utf8 (vshow kind v).
Hypothesis Hplan : utf8 (p_Digest plan).

Definition key (row : lrow) : list val := rowKey (orderOf spec sorts) row.
Definition lt (r1 r2 : lrow) : bool := after (directions sorts) (key r1) (key r2).

Lemma lt_asym_rows r1 r2 : lt r1 r2 = true → lt r2 r1 = false.
Proof. apply after_asym. Qed.

Lemma orderOf_directions : map snd (orderOf spec sorts) = directions sorts.
Proof. unfold orderOf, directions. rewrite map_app, map_map. done. Qed.

Lemma key_complete row vs id :
  keyed cols row sorts vs → lr_vals row !! sp_IDColumn spec = Some id → key row = vs ++ [id].
Proof.
  intros Hk Hid. unfold key, rowKey, orderOf. rewrite omap_app. cbn. rewrite Hid. f_equal.
  induction Hk as [|o v os vs Ho Hk IH]; [done|]. cbn. rewrite Ho. by f_equal.
Qed.

Lemma key_length row : row ∈ rows → List.length (key row) = List.length (directions sorts).
Proof.
  intros (vs & id & Hk & Hid)%Hcomplete. rewrite (key_complete row vs id Hk Hid). unfold directions.
  rewrite !length_app, length_map. f_equal. symmetry. by eapply Forall2_length.
Qed.

Lemma lt_total r1 r2 : r1 ∈ rows → r2 ∈ rows → lt r1 r2 = false → lt r2 r1 = false → r1 = r2.
Proof.
  intros Hr1 Hr2 L1 L2. apply Hids; [done..|].
  assert (He : key r1 = key r2) by (by apply (after_total (directions sorts)); try apply key_length).
  destruct (Hcomplete r1 Hr1) as (vs1 & id1 & Hk1 & Hi1), (Hcomplete r2 Hr2) as (vs2 & id2 & Hk2 & Hi2).
  rewrite (key_complete r1 vs1 id1), (key_complete r2 vs2 id2) in He by done.
  apply app_inj_tail in He as [_ ->]. by rewrite Hi1, Hi2.
Qed.

(** Sorting rows of the table gives them in the strict order. *)
Lemma sorted_rows (l : list lrow) :
  (∀ r, r ∈ l → r ∈ rows) → NoDup l →
  StronglySorted (λ a b, lt a b = true) (merge_sort (ordered (orderOf spec sorts)) l).
Proof.
  intros Hl Hn. set (R := ordered (orderOf spec sorts)).
  assert (HR : ∀ a b, R a b ↔ lt b a = false) by (intros; unfold R, ordered, lt; by rewrite orderOf_directions).
  assert (Hin : ∀ r, r ∈ merge_sort R l → r ∈ rows) by (intros r; rewrite merge_sort_Permutation; apply Hl).
  assert (Hstrict : ∀ a b, a ∈ rows → b ∈ rows → a ≠ b → R a b → lt a b = true).
  { intros a b Ha Hb Hab Hr. apply HR in Hr. destruct (lt a b) eqn:E; [done|]. by destruct Hab; apply lt_total. }
  assert (Hss : StronglySorted R (merge_sort R l)).
  { apply Sorted_strong_on.
    - intros x y z Hx%Hin Hy%Hin Hz%Hin Hxy Hyz.
      destruct (decide (lt x y = true)) as [Lxy|Lxy]; [destruct (decide (lt y z = true)) as [Lyz|Lyz]|].
      + apply HR. apply lt_asym_rows. by eapply after_trans.
      + apply not_true_is_false in Lyz. apply HR in Hyz. by rewrite <- (lt_total y z Hy Hz Lyz Hyz).
      + apply not_true_is_false in Lxy. apply HR in Hxy. by rewrite (lt_total x y Hx Hy Lxy Hxy).
    - apply Sorted_merge_sort. intros x y. rewrite !HR. destruct (lt y x) eqn:E; [right; by apply lt_asym_rows|by left]. }
  assert (Hnd : NoDup (merge_sort R l)) by (by rewrite merge_sort_Permutation). clear Hl Hn.
  induction Hss as [|x m Hm IH Hall]; [constructor|]. apply NoDup_cons in Hnd as [Hx Hnd].
  constructor; [apply IH; [intros; apply Hin; by right|done]|]. rewrite Forall_forall in Hall |- *. intros y Hy.
  apply Hstrict; [apply Hin; by left|apply Hin; by right|by intros ->|by apply Hall].
Qed.

(** The query of a cursor; the first page has none. *)
Definition pageQuery (ws : list cond) (args : list argv) : Query :=
  MkQuery ws args (orderOf spec sorts) limit (p_Hits plan) ro spec plan sorts fh.

Definition wanted (row : lrow) : bool := listed numeric row args0 where0.

(** The whole list. *)
Definition whole : list lrow := merge_sort (ordered (orderOf spec sorts)) (filter (λ row, wanted row) rows).

Lemma whole_sorted : StronglySorted (λ a b, lt a b = true) whole.
Proof.
  apply sorted_rows; [by intros r [_ ?]%list_elem_of_filter|by apply NoDup_filter].
Qed.

Lemma whole_rows r : r ∈ whole → r ∈ rows.
Proof. unfold whole. rewrite merge_sort_Permutation. by intros [_ ?]%list_elem_of_filter. Qed.

Lemma compile_first : compilePage plan resource spec (withCursor req "") limit = Ok (pageQuery where0 args0).
Proof.
  unfold compilePage. change (clauses plan resource spec (withCursor req "")) with (clauses plan resource spec req).
  rewrite Hclauses. done.
Qed.

(** More arguments after the first page's leave its conditions as they were. *)
Lemma listed_mono row more : row ∈ rows → listed numeric row (args0 ++ more) where0 = wanted row.
Proof.
  intros Hr. unfold wanted, listed. apply forallb_ext_in. intros k Hk.
  destruct (Hruns row k Hr Hk) as [x Hx]. rewrite Hx. by rewrite (decides_mono numeric row args0 more k x Hx).
Qed.

Lemma keysOf_complete ws args row vs id :
  keyed cols row sorts vs → lr_vals row !! sp_IDColumn spec = Some id →
  keysOf (pageQuery ws args) row = (texts cols sorts vs, vshow (sp_IDKind spec) id).
Proof.
  intros Hk Hid. unfold keysOf. cbn [q_spec q_sorts pageQuery]. rewrite Hid. f_equal. unfold texts.
  induction Hk as [|o v os vs Ho Hk IH]; [done|]. cbn. rewrite Ho. by f_equal.
Qed.

Lemma digest_valid : utf8 fh.
Proof.
  revert Hclauses. unfold clauses. destruct (narrow _ _ _ _) as [[ns rs]|]; [|done].
  destruct (filterConds _ _ _ _ _ _) as [[fs as_]|]; [|done]. destruct (if decide _ then _ else _) as [se as2].
  destruct (sortsOk _ _ _ _ _); [done|]. intros [= <- <- <- <-]. apply digest_utf8.
Qed.

Lemma texts_valid os vs : Forall utf8 (texts cols os vs).
Proof. unfold texts. revert vs. induction os as [|o os IH]; intros [|v vs]; cbn; auto. Qed.

(** A cursor made from a row compiles, and its page is the rest of the list after it. *)
Lemma cursor_page ws args r l1 l2 :
  whole = l1 ++ r :: l2 →
  let '(k, id) := keysOf (pageQuery ws args) r in
  let c := Next (pageQuery ws args) k id in
  c ≠ "" ∧ ∃ ws' args', compilePage plan resource spec (withCursor req c) limit = Ok (pageQuery ws' args') ∧
    selected numeric (pageQuery ws' args') rows = l2.
Proof.
  intros Hw. assert (Hr : r ∈ rows) by (apply whole_rows; rewrite Hw; set_solver).
  destruct (Hcomplete r Hr) as (vs0 & id0 & Hk0 & Hid0). rewrite (keysOf_complete ws args r vs0 id0 Hk0 Hid0).
  split; [apply encode_not_empty|]. unfold compilePage.
  change (clauses plan resource spec (withCursor req _)) with (clauses plan resource spec req).
  rewrite Hclauses. cbn [rq_Cursor rq_Sort withCursor].
  rewrite decide_False by apply encode_not_empty. unfold Next, resume.
  rewrite decode_encode by (cbn; auto using digest_valid, texts_valid).
  cbn [cu_V cu_Keys cu_ID cu_F cu_P q_filterHash q_plan pageQuery].
  assert (Hlen0 : List.length vs0 = List.length sorts) by (symmetry; by eapply Forall2_length).
  assert (Htl : List.length (texts cols sorts vs0) = List.length sorts) by (unfold texts; rewrite length_zip_with; lia).
  rewrite decide_True by done. rewrite !decide_True by done.
  destruct (alternatives _ _ _ _ _ _ _) as [ors args1] eqn:Ha. eexists _, _. split; [reflexivity|].
  unfold selected. cbn [q_OrderBy q_Args q_Where pageQuery].
  assert (Hext : ∃ ext, args1 = args0 ++ ext).
  { by apply (keyset_means numeric spec cols r sorts vs0 vs0 id0 id0 Hk0 Hlen0 Hid0) in Ha as [? _]. }
  destruct Hext as [ext ->].
  assert (Hf : filter (λ row, listed numeric row (args0 ++ ext) (where0 ++ [KOr ors])) rows =
    filter (λ row, lt r row = true) (filter (λ row, wanted row) rows)).
  { rewrite list_filter_filter. apply filter_ext_in. intros row Hrow.
    destruct (Hcomplete row Hrow) as (vs & id & Hk & Hid).
    destruct (keyset_means numeric spec cols row sorts vs0 vs id0 id Hk Hlen0 Hid _ _ _ Ha) as [_ Hm].
    specialize (Hm []). rewrite app_nil_r in Hm. unfold listed at 1. rewrite forallb_app.
    change (forallb _ where0) with (listed numeric row (args0 ++ ext) where0). rewrite listed_mono by done.
    cbn [forallb]. rewrite Hm, andb_true_r, andb_True. unfold lt.
    rewrite (key_complete r vs0 id0 Hk0 Hid0), (key_complete row vs id Hk Hid).
    destruct (after _ _ _), (wanted row); cbn; naive_solver. }
  rewrite Hf.
  assert (Hp : merge_sort (ordered (orderOf spec sorts)) (filter (λ row, lt r row = true) (filter (λ row, wanted row) rows)) ≡ₚ l2).
  { rewrite merge_sort_Permutation. rewrite <- (filter_after lt lt_asym_rows l1 r l2) by (rewrite <- Hw; apply whole_sorted).
    rewrite <- Hw. apply filter_Permutation. unfold whole. by rewrite merge_sort_Permutation. }
  apply (strict_unique lt lt_asym_rows); [| |done].
  - apply sorted_rows; [by intros x [_ [_ ?]%list_elem_of_filter]%list_elem_of_filter|by do 2 apply NoDup_filter].
  - pose proof whole_sorted as Hs. rewrite Hw in Hs. apply StronglySorted_app_1_r in Hs. by inversion Hs.
Qed.

(** From a page of the rest [todo] of the list, the walk gives all of it. *)
Lemma walk_rest fuel c ws args l1 todo :
  whole = l1 ++ todo → (List.length todo ≤ fuel)%nat →
  compilePage plan resource spec (withCursor req c) limit = Ok (pageQuery ws args) →
  selected numeric (pageQuery ws args) rows = todo →
  ∃ pages, walk numeric fuel plan resource spec req limit rows c = Some pages ∧ List.concat pages = todo ∧
    Forall (λ p, Z.of_nat (List.length p) ≤ limit) pages.
Proof.
  revert c ws args l1 todo. induction fuel as [|fuel IH]; intros c ws args l1 todo Hw Hfuel Hc Hsel;
    cbn [walk]; rewrite Hc; unfold Page; rewrite Hsel; cbn [q_Limit pageQuery];
    rewrite take_take, Nat.min_l by lia; rewrite length_take;
    destruct (decide (Z.to_nat limit < Nat.min (S (Z.to_nat limit)) (List.length todo))%nat) as [Hm|Hm].
  - lia.
  - rewrite decide_True by done. exists [take (Z.to_nat limit) todo]. split; [done|]. cbn.
    rewrite take_ge, app_nil_r by lia. split; [done|]. constructor; [lia|constructor].
  - destruct (last (take (Z.to_nat limit) todo)) as [r|] eqn:Hl.
    2: { apply last_None in Hl. apply (f_equal List.length) in Hl. rewrite length_take in Hl. cbn in Hl. lia. }
    apply last_Some in Hl as [front Hfr].
    assert (Hw' : whole = (l1 ++ front) ++ r :: drop (Z.to_nat limit) todo).
    { rewrite Hw, <- (take_drop (Z.to_nat limit) todo) at 1. rewrite Hfr. by rewrite <- !app_assoc. }
    pose proof (cursor_page ws args r _ _ Hw') as Hcp. fold (pageQuery ws args).
    destruct (keysOf (pageQuery ws args) r) as [k id]. destruct Hcp as (Hne & ws' & args' & Hc' & Hsel').
    rewrite decide_False by done.
    destruct (IH (Next (pageQuery ws args) k id) ws' args' (l1 ++ take (Z.to_nat limit) todo) (drop (Z.to_nat limit) todo)) as (pages & Hp & Hcat & Hall).
    + by rewrite <- app_assoc, take_drop.
    + rewrite length_drop. lia.
    + exact Hc'.
    + exact Hsel'.
    + exists (take (Z.to_nat limit) todo :: pages). rewrite Hp. split; [done|]. cbn. rewrite Hcat, take_drop.
      split; [done|]. constructor; [rewrite length_take; lia|done].
  - rewrite decide_True by done. exists [take (Z.to_nat limit) todo]. split; [done|]. cbn.
    rewrite take_ge, app_nil_r by lia. split; [done|]. constructor; [lia|constructor].
Qed.

End list.

(** C4. Walking a list by its cursors, over a table that does not change, gives every row
    the request asks for exactly once and in the list's order, and comes to an end: with as
    much fuel as the table has rows the walk returns, its pages put together are the sorted
    selection of the rows, and no page has more rows than the limit. *)
Theorem pages_cover `{Env} `{ValuesLaws} `{EncodingsLaws} numeric plan resource spec req limit rows q :
  1 ≤ limit → compilePage plan resource spec (withCursor req "") limit = Ok q →
  (∀ row, row ∈ rows → complete spec req row) → NoDup rows →
  (∀ r1 r2, r1 ∈ rows → r2 ∈ rows → lr_vals r1 !! sp_IDColumn spec = lr_vals r2 !! sp_IDColumn spec → r1 = r2) →
  (∀ row k, row ∈ rows → k ∈ q_Where q → is_Some (decides numeric row (q_Args q) k)) →
  (∀ kind v, utf8 (vshow kind v)) → utf8 (p_Digest plan) →
  ∃ pages, walk numeric (List.length rows) plan resource spec req limit rows "" = Some pages ∧
    List.concat pages = selected numeric q rows ∧
    Forall (λ p, Z.of_nat (List.length p) ≤ limit) pages.
Proof.
  intros Hlim Hq Hcomp Hnd Hids Hruns Hshow Hplan.
  destruct (clauses plan resource spec req) as [[[[ws args] ro] fh]|] eqn:Hcl.
  2: { unfold compilePage in Hq. change (clauses plan resource spec (withCursor req "")) with (clauses plan resource spec req) in Hq.
       by rewrite Hcl in Hq. }
  pose proof (compile_first plan resource spec req limit ws args ro fh Hcl) as Hf. rewrite Hq in Hf. injection Hf as ->.
  cbn [q_Where q_Args pageQuery] in Hruns.
  apply (walk_rest numeric plan resource spec req limit ws args ro fh rows Hcl Hlim Hcomp Hnd Hids Hruns Hshow Hplan
    (List.length rows) "" ws args []); [done| |done|done].
  unfold selected. rewrite merge_sort_Permutation. apply length_filter.
Qed.
