(* ===== verification/ListSafety.v ===== *)
(** * What a list request reveals

    Whatever a request filters, sorts or searches by ([Build] of list/list.go), a row it
    lists is one the authorization allows, and every field that decided whether the row is
    there is an ordinary one or one the caller may read in that row. *)
From S2P Require Import Prelude GoStr AuthzDefs AuthzDeclared AuthzEval AuthzEvalProps AuthzSql AuthzSqlProps AuthzList AuthzCompile AuthzView AuthzSubject ListQuery ListProps ListPages.
From Stdlib Require Import Ascii String.
Open Scope string_scope.
Open Scope Z_scope.
Open Scope list_scope.

(** ** The clauses of a request *)

Section clauses.
Variables (plan : Plan) (resource : option Resource).

Lemma narrow_ok fs ns0 ns conds :
  narrow plan resource fs ns0 = Ok (ns, conds) →
  (∀ f, f ∈ ns → f ∈ ns0 ∨ KPred (ReadableWhere plan f) ∈ conds) ∧ ∀ ors, KOr ors ∉ conds.
Proof.
  revert ns0 conds. induction fs as [|f fs IH]; intros ns0 conds; cbn [narrow].
  { intros [= -> <-]. split; [by left|]. intros ors ?%elem_of_nil. done. }
  destruct (match resource with Some r => shown r f | None => false end); [|done].
  destruct (mem f ns0); [apply IH|].
  destruct (narrow plan resource fs (ns0 ++ [f])) as [[ns' conds']|] eqn:Hn; [|done]. intros [= -> <-].
  destruct (IH _ _ Hn) as [Hin Hor]. split.
  - intros g [Hg|Hg]%Hin; [|right; by right]. apply elem_of_app in Hg as [Hg|Hg%list_elem_of_singleton]; [by left|].
    subst. right. by left.
  - intros ors [Hx|Hx]%elem_of_cons; [done|]. by eapply Hor.
Qed.

Lemma filterConds_ok cols narrowed fs args ks args' :
  filterConds plan resource cols narrowed fs args = Ok (ks, args') →
  (∃ ext, args' = args ++ ext) ∧ (∀ f, f ∈ fs → queryable plan resource narrowed (fl_Field f) = true) ∧
  ∀ ors, KOr ors ∉ ks.
Proof.
  revert args ks args'. induction fs as [|f fs IH]; intros args ks args'; cbn [filterConds].
  { intros [= <- <-]. split; [by exists []; rewrite app_nil_r|]. split; [by intros f ?%elem_of_nil|].
    by intros ors ?%elem_of_nil. }
  destruct (cols !! fl_Field f) as [c|]; [|done]. destruct (cl_Filterable c); [|done]. cbn [negb].
  destruct (queryable plan resource narrowed (fl_Field f)) eqn:Hq; [|done]. cbn [negb].
  destruct (filterCond c f args) as [[k args1]|] eqn:Hc; [|done].
  destruct (filterConds plan resource cols narrowed fs args1) as [[ks2 args2]|] eqn:Hf; [|done].
  intros [= <- <-]. destruct (IH _ _ _ Hf) as ([ext ->] & Hall & Hor).
  assert (Hk : (∃ e, args1 = args ++ e) ∧ ∀ ors, KOr ors ≠ k).
  { revert Hc. unfold filterCond, qarg. destruct (decide (fl_Op f = "in")).
    - destruct (decide (fl_Values f = [])); intros [= <- <-]; split; eauto. exists []. by rewrite app_nil_r.
    - destruct (opOf (fl_Op f)); [|done]. destruct (fl_Values f) as [|v [|]]; try done. intros [= <- <-]. eauto. }
  destruct Hk as [[e ->] Hne]. split; [exists (e ++ ext); by rewrite app_assoc|]. split.
  - intros g [->|Hg]%elem_of_cons; [done|by apply Hall].
  - intros ors [Hx|Hx]%elem_of_cons; [by eapply Hne|by eapply Hor].
Qed.

Lemma searchConds_ok narrowed nq scs args ks args' :
  searchConds plan resource narrowed nq scs args = (ks, args') →
  (∃ ext, args' = args ++ ext) ∧
  ∀ col n, KLike col n ∈ ks → ∃ sc, sc ∈ scs ∧ sc_Column sc = col ∧
    ∀ f, f ∈ sc_Fields sc → queryable plan resource narrowed f = true.
Proof.
  revert args ks args'. induction scs as [|sc scs IH]; intros args ks args'; cbn [searchConds].
  { intros [= <- <-]. split; [by exists []; rewrite app_nil_r|]. by intros col n ?%elem_of_nil. }
  destruct (forallb _ (sc_Fields sc)) eqn:Hq.
  - unfold qarg. destruct (searchConds plan resource narrowed nq scs _) as [ks2 args2] eqn:Hs. intros [= <- <-].
    destruct (IH _ _ _ Hs) as ([ext ->] & Hl). split; [eexists; by rewrite <- app_assoc|].
    intros col n [[= -> ->]|Hin]%elem_of_cons.
    + exists sc. split; [by left|]. split; [done|]. intros f Hf. rewrite forallb_forall in Hq.
      by apply Hq, list_elem_of_In.
    + destruct (Hl col n Hin) as (sc2 & Hsc & ?). exists sc2. split; [by right|done].
  - intros Hs. destruct (IH _ _ _ Hs) as (Hext & Hl). split; [done|].
    intros col n Hin. destruct (Hl col n Hin) as (sc2 & Hsc & ?). exists sc2. split; [by right|done].
Qed.

Lemma sortsOk_ok cols narrowed os :
  sortsOk plan resource cols narrowed os = None → ∀ o, o ∈ os → queryable plan resource narrowed (or_Field o) = true.
Proof.
  induction os as [|o os IH]; cbn [sortsOk]; [by intros _ o ?%elem_of_nil|].
  destruct (cols !! or_Field o) as [c|]; [|done]. destruct (cl_Sortable c); [|done]. cbn [negb].
  destruct (queryable plan resource narrowed (or_Field o)) eqn:Hq; [|done]. cbn [negb].
  intros Hs o' [->|Ho]%elem_of_cons; [done|by apply IH].
Qed.

Lemma eqConds_ext cols os keys args ks args' : eqConds cols os keys args = (ks, args') → ∃ ext, args' = args ++ ext.
Proof.
  revert keys args ks args'. induction os as [|o os IH]; intros [|k keys] args ks args'; cbn [eqConds];
    try (intros [= <- <-]; exists []; by rewrite app_nil_r).
  unfold qarg. destruct (eqConds _ _ _ _) as [ks2 args2] eqn:He. intros [= <- <-].
  destruct (IH _ _ _ _ He) as [ext ->]. eexists. by rewrite <- app_assoc.
Qed.

Lemma alternatives_ok spec cols sorts keys id ixs args ks args' :
  alternatives spec cols sorts keys id ixs args = (ks, args') →
  (∃ ext, args' = args ++ ext) ∧ ∀ col n, KLike col n ∉ ks.
Proof.
  revert args ks args'. induction ixs as [|i ixs IH]; intros args ks args'; cbn [alternatives].
  { intros [= <- <-]. split; [exists []; by rewrite app_nil_r|]. by intros col n ?%elem_of_nil. }
  unfold alternative. destruct (eqConds _ _ _ _) as [eqs a1] eqn:He. apply eqConds_ext in He as [e1 ->].
  destruct (afterCond _ _ _ _ _ _) as [k a2] eqn:Hk.
  assert (Hk' : ∃ e, a2 = (args ++ e1) ++ e).
  { revert Hk. unfold afterCond, qarg. destruct (drop i sorts), (drop i keys); intros [= <- <-]; eauto. }
  destruct Hk' as [e2 ->]. destruct (alternatives _ _ _ _ _ _ _) as [ks2 a3] eqn:Ha. intros [= <- <-].
  destruct (IH _ _ _ Ha) as [[e3 ->] Hl]. split; [eexists; by rewrite <- !app_assoc|].
  intros col n [?|Hin]%elem_of_cons; [done|]. by eapply Hl.
Qed.

Lemma resume_ok `{Encodings} spec cols sorts fh ph raw args k args' :
  resume spec cols sorts fh ph raw args = Ok (k, args') →
  (∃ ext, args' = args ++ ext) ∧ ∀ ors col n, KOr ors = k → KLike col n ∉ ors.
Proof.
  unfold resume. destruct (decodeCursor raw) as [c|]; [|done].
  repeat (destruct (decide _); [|done]). destruct (alternatives _ _ _ _ _ _ _) as [ks a1] eqn:Ha.
  intros [= <- <-]. apply alternatives_ok in Ha as [He Hl]. split; [done|]. by intros ors col n [= ->].
Qed.

End clauses.

(** ** Listed rows *)

Section reveals.
Context `{Env} `{Digests} `{Values} `{Encodings}.
Variables (numeric : string → option decimal) (r : Resource) (segs : list Segment) (op principal : string).
Variables (at_ : Z) (plan : Plan) (spec : Spec) (req : Request) (limit : Z) (q : Query).
Variables (row : lrow) (facts : Facts).
Hypothesis Hready : ∀ s, s ∈ segs → segmentReady numeric r s.
Hypothesis Hplan : Compile r segs op principal at_ 0 = Ok plan.
Hypothesis Hq : compilePage plan (Some r) spec req limit = Ok q.
Hypothesis Hrow : rowFacts r (lr_cells row) facts.
Hypothesis Hlisted : listed numeric row (q_Args q) (q_Where q) = true.

Definition ordinary (f : string) : Prop := default "" (f_Class <$> r_Fields r !! f) = Ordinary.
Definition shownFields : list string := Fields plan (bitmap numeric (lr_cells row) 0 (p_Args plan) plan).

Lemma listed_cond k : k ∈ q_Where q → decides numeric row (q_Args q) k = Some (Some true).
Proof.
  intros Hk. revert Hlisted. unfold listed. rewrite forallb_forall. intros Hall.
  specialize (Hall k). rewrite bool_decide_eq_true in Hall. by apply Hall, list_elem_of_In.
Qed.

(** A condition of the plan that is true of a listed row means what it means. *)
Lemma listed_means p b :
  (∃ ext, q_Args q = p_Args plan ++ ext) → means numeric (lr_cells row) 0 (p_Args plan) p b → KPred p ∈ q_Where q → b = true.
Proof.
  intros [ext He] Hm Hk%listed_cond. destruct (Hm ext) as (x & Hx & <-). rewrite He in Hk. cbn [decides] in Hk.
  rewrite Hx in Hk. injection Hk as ->. by apply bool_decide_eq_true.
Qed.

(** What a page is made of. *)
Lemma page_parts :
  ∃ narrowed, (∃ ext, q_Args q = p_Args plan ++ ext) ∧ KPred (p_Where plan) ∈ q_Where q ∧
    (∀ f, f ∈ narrowed → KPred (ReadableWhere plan f) ∈ q_Where q) ∧
    (∀ f, f ∈ rq_Filters req → queryable plan (Some r) narrowed (fl_Field f) = true) ∧
    (∀ o, o ∈ rq_Sort req → queryable plan (Some r) narrowed (or_Field o) = true) ∧
    (∀ ors col n, KOr ors ∈ q_Where q → KLike col n ∈ ors → ∃ sc, sc ∈ sp_Search spec ∧ sc_Column sc = col ∧
       ∀ f, f ∈ sc_Fields sc → queryable plan (Some r) narrowed f = true).
Proof.
  revert Hq. unfold compilePage, clauses.
  destruct (narrow plan (Some r) (rq_ReadableOnly req) []) as [[narrowed readable]|] eqn:Hn; [|done].
  apply narrow_ok in Hn as [Hn Hn'].
  destruct (filterConds _ _ _ _ _ _) as [[filters a1]|] eqn:Hf; [|done].
  apply filterConds_ok in Hf as ([e1 ->] & Hf & Hf').
  match goal with |- context [if decide (?n = "") then _ else _] => set (nq := n) end.
  assert (Hs : ∃ search e2, (if decide (nq = "") then ([], p_Args plan ++ e1)
      else let '(ors, args) := searchConds plan (Some r) narrowed nq (sp_Search spec) (p_Args plan ++ e1) in
           ([KOr (if decide (ors = []) then [KFalse] else ors)], args)) = (search, (p_Args plan ++ e1) ++ e2) ∧
      ∀ ors col n, KOr ors ∈ search → KLike col n ∈ ors → ∃ sc, sc ∈ sp_Search spec ∧ sc_Column sc = col ∧
        ∀ f, f ∈ sc_Fields sc → queryable plan (Some r) narrowed f = true).
  { destruct (decide (nq = "")) as [|_].
    - exists [], []. rewrite app_nil_r. split; [done|]. by intros ors col n ?%elem_of_nil.
    - destruct (searchConds _ _ _ _ _ _) as [ors args] eqn:Hs. apply searchConds_ok in Hs as [[e2 ->] Hs].
      eexists _, e2. split; [done|]. intros ors' col i Hi%list_elem_of_singleton. injection Hi as ->.
      destruct (decide (ors = [])); [by intros ?%list_elem_of_singleton|apply Hs]. }
  destruct Hs as (search & e2 & -> & Hs). destruct (sortsOk _ _ _ _ _) eqn:Ho; [done|].
  pose proof (sortsOk_ok _ _ _ _ _ Ho) as Ho'.
  assert (Hor : ∀ ors col n, KOr ors ∈ KPred (p_Where plan) :: readable ++ filters ++ search → KLike col n ∈ ors →
    ∃ sc, sc ∈ sp_Search spec ∧ sc_Column sc = col ∧ ∀ f, f ∈ sc_Fields sc → queryable plan (Some r) narrowed f = true).
  { intros ors col n. rewrite elem_of_cons, !elem_of_app. intros [?|[?|[?|?]]]; [done|by edestruct Hn'|by edestruct Hf'|].
    by apply Hs. }
  assert (Hrd : ∀ f, f ∈ narrowed → KPred (ReadableWhere plan f) ∈ KPred (p_Where plan) :: readable ++ filters ++ search).
  { intros f [?%elem_of_nil|?]%Hn; [done|]. rewrite elem_of_cons, !elem_of_app. auto. }
  destruct (decide (rq_Cursor req = "")).
  - intros [= <-]. exists narrowed. cbn [q_Args q_Where]. split; [eexists; by rewrite <- !app_assoc|].
    split; [by left|]. auto.
  - destruct (resume _ _ _ _ _ _ _) as [[k args3]|] eqn:Hr; [|done]. apply resume_ok in Hr as [[e3 ->] Hk].
    intros [= <-]. exists narrowed. cbn [q_Args q_Where]. split; [eexists; by rewrite <- !app_assoc|].
    split; [by left|]. rewrite app_comm_cons. split; [intros f Hfn; apply elem_of_app; left; by apply Hrd|]. split; [done|]. split; [done|].
    intros ors col i [Hin|Hin%list_elem_of_singleton]%elem_of_app Hl; [by eapply Hor|]. by edestruct Hk.
Qed.

(** A field that may be used to decide is ordinary or shown in the row. *)
Lemma queryable_shown narrowed f :
  (∃ ext, q_Args q = p_Args plan ++ ext) → KPred (p_Where plan) ∈ q_Where q →
  (∀ f, f ∈ narrowed → KPred (ReadableWhere plan f) ∈ q_Where q) →
  queryable plan (Some r) narrowed f = true → ordinary f ∨ f ∈ shownFields.
Proof.
  intros Hext Hp Hn. unfold queryable, restricted. rewrite orb_true_iff, negb_true_iff, andb_false_iff, !negb_false_iff.
  intros [[?%bool_decide_eq_true|Hm%mem_true]|Hev]; [by left|right|right].
  - destruct (ReadableWhere_means numeric r segs op principal at_ 0 plan Hready Hplan (lr_cells row) facts Hrow f)
      as (b & Hb & Hiff). by apply Hiff, (listed_means _ _ Hext Hb), Hn.
  - destruct (Compile_means numeric r segs op principal at_ 0 plan Hready Hplan (lr_cells row) facts Hrow) as ((b & Hb & _) & _).
    eapply (readable_conditions numeric r segs op principal at_ 0 plan Hready Hplan f _ _ Hrow); [done|].
    rewrite (means_selects _ _ _ _ _ _ Hb). by apply (listed_means _ _ Hext Hb).
Qed.

(** C37. For segments that pass [Check] and are ready for a list ([segmentReady]: no item of
    a tree with an empty path, no value set on an amount, bounds that are decimals; with an
    empty path a list selects rows the evaluation refuses, [empty_path_listed]): a row a
    page lists is one the operation is allowed on, and no field that decided that it is
    listed is hidden from the caller in it: each field of the request's filters, of its
    sort keys and of a column its search looked into is an ordinary field or one of the
    fields the row shows to the caller. *)
Theorem page_reveals_nothing :
  (∀ d, Evaluate r segs op facts principal at_ = Some d → dc_Action d = True_) ∧
  (∀ f, f ∈ rq_Filters req → ordinary (fl_Field f) ∨ fl_Field f ∈ shownFields) ∧
  (∀ o, o ∈ rq_Sort req → ordinary (or_Field o) ∨ or_Field o ∈ shownFields) ∧
  (∀ ors col n, KOr ors ∈ q_Where q → KLike col n ∈ ors → ∃ sc, sc ∈ sp_Search spec ∧ sc_Column sc = col ∧
     ∀ f, f ∈ sc_Fields sc → ordinary f ∨ f ∈ shownFields).
Proof.
  destruct page_parts as (narrowed & Hext & Hp & Hn & Hf & Ho & Hs). repeat split.
  - intros d Hd. pose proof (Evaluate_spec facts principal at_ _ _ _ _ Hd) as (_ & Ha & _). apply Ha.
    destruct (Compile_means numeric r segs op principal at_ 0 plan Hready Hplan (lr_cells row) facts Hrow) as ((b & Hb & Hiff) & _).
    by apply Hiff, (listed_means _ _ Hext Hb).
  - intros f Hin. by eapply queryable_shown; [..|by apply Hf].
  - intros o Hin. by eapply queryable_shown; [..|by apply Ho].
  - intros ors col n Hor Hl. destruct (Hs ors col n Hor Hl) as (sc & ? & ? & Hsc). exists sc. split; [done|].
    split; [done|]. intros f Hin. by eapply queryable_shown; [..|by apply Hsc].
Qed.

End reveals.

(** ** A list to see it on *)

(** Columns of texts. *)
#[export] Instance textValues : Values := {|
  val := string; vcast _ s := Some s; vshow _ v := v; vcmp := String.compare |}.

Lemma compare_refl (s : string) : String.compare s s = Eq.
Proof. induction s as [|a s IH]; [done|]. cbn. unfold Ascii.compare. by rewrite N.compare_refl. Qed.

Lemma compare_Lt s t : String.compare s t = Lt ↔ strLe s t ∧ s ≠ t.
Proof.
  unfold strLe, String.leb. pose proof (String.compare_eq_iff s t) as He.
  destruct (String.compare s t) eqn:Hc; [|split; [intros _; split; [done|]|done]|split; [done|by intros [? _]]].
  - split; [done|]. intros [_ []]. by apply He.
  - intros ->. by rewrite compare_refl in Hc.
Qed.

#[export] Instance textValuesLaws : ValuesLaws.
Proof.
  split; cbn.
  - intros x y. split; [apply String.compare_eq_iff|]. intros ->. apply compare_refl.
  - intros x y. apply String.compare_antisym.
  - intros x y z. rewrite !compare_Lt. intros [L1 N1] [L2 N2]. split; [by trans y|].
    intros ->. by apply N1, (anti_symm strLe).
  - done.
Qed.

(** A cursor written as a text. *)
#[export] Instance cursor_eq_dec : EqDecision cursor.
Proof. solve_decision. Defined.
#[export] Instance cursor_countable : Countable cursor :=
  inj_countable' (λ c, (cu_V c, cu_Keys c, cu_ID c, cu_F c, cu_P c)) (λ '(v, k, i, f, p), MkCursor v k i f p)
    (λ c, match c with MkCursor _ _ _ _ _ => eq_refl end).
#[export] Instance digitEncodings : Encodings := {|
  utf8 _ := True;
  encodeCursor c := textCode c;
  decodeCursor s := textDecode s;
  filterDigest fs nq os ro := nq;
  searchQuery s := s |}.
#[export] Instance digitEncodingsLaws : EncodingsLaws.
Proof.
  split; cbn.
  - intros c _. apply textDecode_code.
  - done.
  - intros c. apply textCode_not_empty.
Qed.

Definition codes : Spec :=
  MkSpec "shop.order.view" "id" "text"
    [MkColumn "code" "code" "text" true true; MkColumn "price" "price" "text" true true]
    [MkSearchColumn "main" "search" ["code"]].
Definition codeRow (id code : string) : lrow :=
  MkRow (list_to_map [("org_path", CText "a_b/c"); ("total", CNum 5); ("currency", CText "EUR"); ("search", CText code)])
    (list_to_map [("id", id); ("code", code); ("price", "7")]).
Definition codeRows : list lrow :=
  [codeRow "1" "x"; codeRow "2" "y"; codeRow "3" "x"; codeRow "4" "a"; codeRow "5" "y"].
Definition codeRequest : Request :=
  MkRequest [MkOrder "code" true] [MkFilter "code" "gt" ["b"]; MkFilter "price" "eq" ["7"]] "" "" 0 ["price"].

Definition codeQuery : Query :=
  match compilePage (ordersPlan "a_b") (Some orders) codes codeRequest 1 with
  | Ok q => q
  | Err _ => MkQuery [] [] [] 0 [] [] codes (ordersPlan "a_b") [] ""
  end.
Definition idsOf (rows : list lrow) : list string := omap (λ row, lr_vals row !! "id") rows.

(** Pages of one row: two codes in descending order, each with its rows by ID. *)
Example code_pages :
  (map idsOf <$> walk NewFromString 5 (ordersPlan "a_b") (Some orders) codes codeRequest 1 codeRows "") =
  Some [["2"]; ["5"]; ["1"]; ["3"]].
Proof. by vm_compute. Qed.

Lemma codeQuery_ok : compilePage (ordersPlan "a_b") (Some orders) codes codeRequest 1 = Ok codeQuery.
Proof. by vm_compute. Qed.

Lemma codeRows_elem (P : lrow → Prop) : Forall P codeRows → ∀ row, row ∈ codeRows → P row.
Proof. by rewrite Forall_forall. Qed.

(** Every row has its keys, and the conditions decide on every row. *)
Lemma codeRows_complete row : row ∈ codeRows → complete codes codeRequest row.
Proof.
  apply codeRows_elem. repeat constructor; eexists [_], _; (split; [constructor; [by vm_compute|constructor]|by vm_compute]).
Qed.
Lemma codeRows_decided row k :
  row ∈ codeRows → k ∈ q_Where codeQuery → is_Some (decides NewFromString row (q_Args codeQuery) k).
Proof.
  intros Hr Hk. assert (Hb : forallb (λ row, forallb (λ k, bool_decide (is_Some (decides NewFromString row (q_Args codeQuery) k)))
    (q_Where codeQuery)) codeRows = true) by (by vm_compute).
  rewrite forallb_forall in Hb. specialize (Hb row (proj1 (list_elem_of_In _ _) Hr)). rewrite forallb_forall in Hb.
  by eapply bool_decide_eq_true, Hb, list_elem_of_In.
Qed.
Lemma codeRows_ids r1 r2 :
  r1 ∈ codeRows → r2 ∈ codeRows → lr_vals r1 !! sp_IDColumn codes = lr_vals r2 !! sp_IDColumn codes → r1 = r2.
Proof.
  unfold codeRows. intros Ha Hb Hid. rewrite !elem_of_cons, elem_of_nil in Ha. rewrite !elem_of_cons, elem_of_nil in Hb.
  destruct Ha as [->|[->|[->|[->|[->|[]]]]]], Hb as [->|[->|[->|[->|[->|[]]]]]];
    first [reflexivity|vm_compute in Hid; discriminate Hid].
Qed.
Lemma codeRows_NoDup : NoDup codeRows.
Proof. apply (NoDup_fmap_1 (λ row, lr_vals row !! "id")). by apply (bool_decide_unpack _); vm_compute. Qed.

Lemma pages_cover_witness :
  ∃ pages, walk NewFromString (List.length codeRows) (ordersPlan "a_b") (Some orders) codes codeRequest 1 codeRows "" = Some pages ∧
    List.concat pages = selected NewFromString codeQuery codeRows ∧
    Forall (λ p, Z.of_nat (List.length p) ≤ 1) pages.
Proof.
  apply (pages_cover NewFromString (ordersPlan "a_b") (Some orders) codes codeRequest 1 codeRows codeQuery).
  - lia.
  - exact codeQuery_ok.
  - exact codeRows_complete.
  - exact codeRows_NoDup.
  - exact codeRows_ids.
  - exact codeRows_decided.
  - done.
  - done.
Defined.

Lemma code_row_facts id code : rowFacts orders (lr_cells (codeRow id code)) (orderFacts "a_b/c" "5").
Proof.
  intros dim d Hd. apply elem_of_list_to_map_2 in Hd. rewrite !elem_of_cons, elem_of_nil in Hd.
  destruct Hd as [[= -> ->]|[[= -> ->]|[]]]; unfold dimFact; cbn [d_Kind d_Column d_CurrencyColumn].
  - right. by vm_compute.
  - split; [exists (CText "EUR"); split; [by vm_compute|right; by eexists]|]. right. split; [by vm_compute|]. split; [done|].
    exists 5. by vm_compute.
Qed.

Lemma page_reveals_witness :
  (∀ d, Evaluate orders [viewSegment "a_b"] "shop.order.view" (orderFacts "a_b/c" "5") "ann" 5 = Some d → dc_Action d = True_) ∧
  (∀ f, f ∈ rq_Filters codeRequest → ordinary orders (fl_Field f) ∨
     fl_Field f ∈ shownFields NewFromString (ordersPlan "a_b") (codeRow "2" "y")) ∧
  (∀ o, o ∈ rq_Sort codeRequest → ordinary orders (or_Field o) ∨
     or_Field o ∈ shownFields NewFromString (ordersPlan "a_b") (codeRow "2" "y")) ∧
  (∀ ors col n, KOr ors ∈ q_Where codeQuery → KLike col n ∈ ors → ∃ sc, sc ∈ sp_Search codes ∧ sc_Column sc = col ∧
     ∀ f, f ∈ sc_Fields sc → ordinary orders f ∨ f ∈ shownFields NewFromString (ordersPlan "a_b") (codeRow "2" "y")).
Proof.
  apply (page_reveals_nothing NewFromString orders [viewSegment "a_b"] "shop.order.view" "ann" 5 (ordersPlan "a_b")
    codes codeRequest 1 codeQuery (codeRow "2" "y") (orderFacts "a_b/c" "5")).
  - intros s. by apply one_ready.
  - by apply ordersPlan_ok.
  - exact codeQuery_ok.
  - apply code_row_facts.
  - by vm_compute.
Defined.
