(* ===== verification/EventsStream.v ===== *)
(** * Events: positions, streams, subjects and subscriptions

    events/envelope.go ([Epoch]), events/progress.go ([Point]), events/stream.go,
    events/subject.go, events/transport.go ([SubscriptionSpec]) and the declarations of
    events/consumer.go: the data the outbox, the queue and the consumers share, and the
    theorems on the texts they exchange: an epoch reads back as it was written, a record
    has one partition, a subscription gets the subjects of its streams and types. *)
From S2P Require Import Prelude GoStr.
From stdpp Require Import pretty.
From Stdlib Require Import Ascii String.
Open Scope string_scope.
Open Scope Z_scope.
Open Scope list_scope.

(** ** Positions *)

Record Epoch := MkEpoch { Generation : Z; Timeline : Z }.
#[export] Instance Epoch_eq_dec : EqDecision Epoch.
Proof. solve_decision. Defined.

(** [Epoch.String]. *)
Definition epochText (e : Epoch) : string := (FormatInt (Generation e) ++ "." ++ FormatInt (Timeline e))%string.

(** [ParseEpoch]; the error carries the text. *)
Definition ParseEpoch (s : string) : res string Epoch :=
  let '(g, t, ok) := cut "." s in
  let '(gen, err1) := ParseInt g in
  let '(tl, err2) := ParseInt t in
  if negb ok || bool_decide (err1 ≠ None) || bool_decide (err2 ≠ None) || bool_decide (gen < 0) || bool_decide (tl < 0)
     || bool_decide (FormatInt gen ≠ g) || bool_decide (FormatInt tl ≠ t)
  then Err s
  else Ok (MkEpoch gen tl).

(** [Epoch.Less]. *)
Definition epochLess (e o : Epoch) : bool :=
  bool_decide (Generation e < Generation o)
  || (bool_decide (Generation e = Generation o) && bool_decide (Timeline e < Timeline o)).

Record Point := MkPoint { pt_Epoch : Epoch; pt_Seq : Z }.
#[export] Instance Point_eq_dec : EqDecision Point.
Proof. solve_decision. Defined.

(** [Point.Less]. *)
Definition pointLess (p q : Point) : bool :=
  if decide (Generation (pt_Epoch p) ≠ Generation (pt_Epoch q)) then
    bool_decide (Generation (pt_Epoch p) < Generation (pt_Epoch q))
  else if decide (Timeline (pt_Epoch p) ≠ Timeline (pt_Epoch q)) then
    bool_decide (Timeline (pt_Epoch p) < Timeline (pt_Epoch q))
  else bool_decide (pt_Seq p < pt_Seq q).

(** [Point.String]. *)
Definition pointText (p : Point) : string := (epochText (pt_Epoch p) ++ "/" ++ FormatInt (pt_Seq p))%string.

(** ** Streams *)

Record Watermark := MkWatermark { wm_Operation : string; wm_Pullers : list string }.
(** The reads of a stream; whether its two functions are given. *)
Record Records := MkRecords { rc_Operation : string; rc_Readers : list string; rc_Read : bool; rc_Page : bool }.
Record Stream := MkStream {
  st_Name : string; st_Partitions : Z; st_Watermark : option Watermark; st_Records : option Records }.

Definition nameChar (a : ascii) : bool :=
  let n := Z.of_N (N_of_ascii a) in
  bool_decide (97 ≤ n ≤ 122) || bool_decide (48 ≤ n ≤ 57) || bool_decide (n = 95).

(** The expression [streamName]: words of name characters joined by dots. *)
Definition streamName (s : string) : bool :=
  forallb (λ w, negb (bool_decide (w = "")) && allChars nameChar w) (GoStr.split "." s).

Inductive streamErr := BadName | BadPartitions | BadWatermark | BadRecords | NoRecords | NotReader (puller : string).

(** [Stream.Validate]. *)
Definition Validate (s : Stream) : option streamErr :=
  if negb (streamName (st_Name s)) then Some BadName
  else if bool_decide (st_Partitions s < 1) || bool_decide (256 < st_Partitions s) then Some BadPartitions
  else if match st_Watermark s with
          | Some w => bool_decide (wm_Operation w = "") || bool_decide (wm_Pullers w = [])
          | None => false
          end then Some BadWatermark
  else if match st_Records s with
          | Some r => bool_decide (rc_Operation r = "") || bool_decide (rc_Readers r = []) || negb (rc_Read r) || negb (rc_Page r)
          | None => false
          end then Some BadRecords
  else match st_Watermark s with
       | None => None
       | Some w =>
           match st_Records s with
           | None => Some NoRecords
           | Some r => NotReader <$> List.find (λ c, negb (bool_decide (c ∈ rc_Readers r))) (wm_Pullers w)
           end
       end.

(** FNV-1a at 64 bits. *)
Definition fnvOffset : Z := 14695981039346656037.
Definition fnvPrime : Z := 1099511628211.
Fixpoint fnv1a (h : Z) (s : string) : Z :=
  match s with
  | EmptyString => h
  | String a s => fnv1a (uint64 (Z.lxor h (Z.of_N (N_of_ascii a)) * fnvPrime)) s
  end.

(** [strings.ToLower]: ASCII texts byte by byte, the others by the Unicode tables. *)
Definition isASCII (s : string) : bool := allChars (λ a, bool_decide (Z.of_N (N_of_ascii a) < 128)) s.
Definition lowerChar (a : ascii) : ascii :=
  let n := N_of_ascii a in if decide (65 ≤ n ≤ 90)%N then ascii_of_N (n + 32) else a.
Fixpoint lowerASCII (s : string) : string :=
  match s with EmptyString => "" | String a s => String (lowerChar a) (lowerASCII s) end.
Definition ToLower (unicodeLower : string → string) (s : string) : string :=
  if isASCII s then lowerASCII s else unicodeLower s.

(** [Stream.PartitionOf]. *)
Definition PartitionOf (unicodeLower : string → string) (s : Stream) (recordID : string) : Z :=
  fnv1a fnvOffset (ToLower unicodeLower recordID) mod st_Partitions s.

Inductive Projection := Full | Partial | Delete | OtherProjection (s : string).
#[export] Instance Projection_eq_dec : EqDecision Projection.
Proof. solve_decision. Defined.
Definition projectionText (p : Projection) : string :=
  match p with Full => "full" | Partial => "partial" | Delete => "delete" | OtherProjection s => s end.
Definition projectionOf (s : string) : Projection :=
  if decide (s = "full") then Full else if decide (s = "partial") then Partial
  else if decide (s = "delete") then Delete else OtherProjection s.

(** ** Subjects *)

(** [Subject]. *)
Definition Subject (stream : string) (partition : Z) (eventType : string) : string :=
  ("be." ++ stream ++ "." ++ FormatInt partition ++ "." ++ eventType)%string.

Definition streamPattern (stream : string) : string := ("be." ++ stream ++ ".>")%string.

(** The loop of [SubjectMatches] over the tokens. *)
Fixpoint tokensMatch (p s : list string) : bool :=
  match p with
  | [] => bool_decide (s = [])
  | tok :: p =>
      if decide (tok = ">") then negb (bool_decide (s = []))
      else match s with
           | [] => false
           | x :: s => (bool_decide (tok = "*") || bool_decide (tok = x)) && tokensMatch p s
           end
  end.

(** [SubjectMatches]. *)
Definition SubjectMatches (pattern subject : string) : bool := tokensMatch (GoStr.split "." pattern) (GoStr.split "." subject).

Fixpoint replaceChars (f : ascii → ascii) (s : string) : string :=
  match s with EmptyString => "" | String a s => String (f a) (replaceChars f s) end.

(** [DurableName]. *)
Definition DurableName (componentID subscription : string) : string :=
  replaceChars (λ a, if decide (a = "/"%char ∨ a = "."%char ∨ a = "-"%char) then "_"%char else a)
    (componentID ++ "_" ++ subscription)%string.

(** ** Subscriptions *)

Definition DefaultMaxDeliver : Z := 3.
Definition DefaultAckWait : Z := 30 * Second.
Definition DefaultBackoffStart : Z := Second.
Definition DefaultBackoffMax : Z := 30 * Second.

Record SubscriptionSpec := MkSubscriptionSpec {
  ss_Durable : string; ss_Streams : list string; ss_Filters : list string; ss_MaxDeliver : Z; ss_AckWait : Z;
  ss_Backoff : list Z; ss_Concurrency : Z; ss_Ordered : bool }.

(** The doubling delays below the largest; [fuel] bounds the doublings. *)
Fixpoint backoffs (fuel : nat) (d : Z) : list Z :=
  match fuel with
  | O => []
  | S fuel => if decide (d < DefaultBackoffMax) then d :: backoffs fuel (d * 2) else []
  end.

(** [SubscriptionSpec.withDefaults]. *)
Definition withDefaults (s : SubscriptionSpec) : SubscriptionSpec :=
  MkSubscriptionSpec (ss_Durable s) (ss_Streams s) (ss_Filters s)
    (if decide (ss_MaxDeliver s ≤ 0) then DefaultMaxDeliver else ss_MaxDeliver s)
    (if decide (ss_AckWait s ≤ 0) then DefaultAckWait else ss_AckWait s)
    (if decide (ss_Backoff s = []) then backoffs 64 DefaultBackoffStart ++ [DefaultBackoffMax] else ss_Backoff s)
    (if decide (ss_Concurrency s ≤ 0) then 1 else ss_Concurrency s)
    (ss_Ordered s).

(** [SubscriptionSpec.BackoffFor]; no backoff at all is out of range. *)
Definition BackoffFor (s : SubscriptionSpec) (attempt : Z) : option Z :=
  let attempt := if decide (attempt < 1) then 1 else attempt in
  if decide (Z.of_nat (List.length (ss_Backoff s)) < attempt) then last (ss_Backoff s)
  else ss_Backoff s !! Z.to_nat (attempt - 1).

(** A module's subscription. *)
Record Sub := MkSub {
  sb_Name : string; sb_Streams : list string; sb_Types : list string; sb_MaxDeliver : Z; sb_Concurrency : Z;
  sb_Ordered : bool }.

(** [Concurrency]. *)
Definition Concurrency (s : Sub) (configured : Z) : Z :=
  if sb_Ordered s then 1
  else if decide (0 < configured) then configured
  else if decide (0 < sb_Concurrency s) then sb_Concurrency s else 1.

(** [Consumer.Spec]. *)
Definition filtersOf (s : Sub) : list string :=
  st ← sb_Streams s; typ ← sb_Types s; [("be." ++ st ++ ".*." ++ typ)%string].
Definition SpecOf (member : string) (s : Sub) (configured : Z) : SubscriptionSpec :=
  withDefaults (MkSubscriptionSpec (DurableName member (sb_Name s)) (sb_Streams s) (filtersOf s)
    (sb_MaxDeliver s) 0 [] (Concurrency s configured) (sb_Ordered s)).

(** [matches] of the queue and of the in-memory transport. *)
Definition matches (s : SubscriptionSpec) (subject : string) : bool :=
  existsb (λ st, SubjectMatches (streamPattern st) subject) (ss_Streams s)
  && (bool_decide (ss_Filters s = []) || existsb (λ f, SubjectMatches f subject) (ss_Filters s)).

(** ** Positions are ordered *)

Definition epochKey (e : Epoch) : Z * Z := (Generation e, Timeline e).

Lemma epochLess_spec e o :
  epochLess e o = true ↔ Generation e < Generation o ∨ (Generation e = Generation o ∧ Timeline e < Timeline o).
Proof. unfold epochLess. rewrite orb_true_iff, andb_true_iff, !bool_decide_eq_true. done. Qed.

Lemma epoch_eq e o : Generation e = Generation o → Timeline e = Timeline o → e = o.
Proof. destruct e, o. cbn. by intros -> ->. Qed.

Lemma pointLess_spec p q :
  pointLess p q = true ↔ epochLess (pt_Epoch p) (pt_Epoch q) = true ∨ (pt_Epoch p = pt_Epoch q ∧ pt_Seq p < pt_Seq q).
Proof.
  rewrite epochLess_spec. unfold pointLess.
  destruct (decide (Generation (pt_Epoch p) ≠ Generation (pt_Epoch q))) as [Hg|Hg%dec_stable];
    [|destruct (decide (Timeline (pt_Epoch p) ≠ Timeline (pt_Epoch q))) as [Ht|Ht%dec_stable]]; rewrite bool_decide_eq_true.
  - split; [auto|]. intros [[?|?]|[He _]]; [done|lia|]. by rewrite He in *.
  - split; [intros; left; lia|]. intros [[?|?]|[He _]]; [lia|lia|]. by rewrite He in *.
  - split; [intros; right; split; [apply epoch_eq|]; lia|]. intros [[?|?]|[_ ?]]; lia.
Qed.

Lemma pointLess_irrefl p : pointLess p p = false.
Proof. apply not_true_is_false. rewrite pointLess_spec, epochLess_spec. lia. Qed.
Lemma pointLess_trans p q r : pointLess p q = true → pointLess q r = true → pointLess p r = true.
Proof.
  rewrite !pointLess_spec, !epochLess_spec. intros [H1|[E1 H1]] [H2|[E2 H2]]; rewrite <- ?E2, ?E1; try (left; lia).
  right. split; [done|lia].
Qed.
Lemma pointLess_asym p q : pointLess p q = true → pointLess q p = false.
Proof.
  intros H. apply not_true_is_false. intros H2. pose proof (pointLess_trans _ _ _ H H2) as Hi.
  by rewrite pointLess_irrefl in Hi.
Qed.
Lemma pointLess_total p q : pointLess p q = false → pointLess q p = false → p = q.
Proof.
  rewrite <- !not_true_iff_false, !pointLess_spec, !epochLess_spec. intros H1 H2.
  apply Decidable.not_or in H1 as [H1 H1'], H2 as [H2 H2'].
  assert (He : pt_Epoch p = pt_Epoch q) by (apply epoch_eq; lia).
  destruct p as [ep sp], q as [eq sq]. cbn in *. subst. f_equal.
  destruct (Z.lt_trichotomy sp sq) as [?|[?|?]]; [by destruct H1'|done|by destruct H2'].
Qed.

(** ** Epochs read back *)

Lemma FormatInt_dot n : allChars (notChar ".") (FormatInt n) = true.
Proof. by apply FormatInt_notChar. Qed.

Definition epochValid (e : Epoch) : Prop := 0 ≤ Generation e ≤ int64_max ∧ 0 ≤ Timeline e ≤ int64_max.

Lemma ParseEpoch_text e : epochValid e → ParseEpoch (epochText e) = Ok e.
Proof.
  intros [Hg Ht]. unfold ParseEpoch, epochText. change ("." ++ ?b)%string with (String "." b) at 1.
  rewrite cut_app by apply FormatInt_dot. unfold int64_max in *.
  rewrite !ParseInt_FormatInt by (unfold int64_min, int64_max; lia).
  rewrite !bool_decide_eq_false_2 by (try (intros []; done); try lia; tauto). cbn [negb orb]. by destruct e.
Qed.

(** An epoch is read from exactly the texts epochs are written as: [ParseEpoch] of a
    text gives an epoch exactly when the epoch has two non-negative 64-bit numbers and the
    text is its own; so no two texts give the same epoch, and every other text (a sign, a
    leading zero, a missing or a second dot, a number out of range) is refused. *)
Theorem ParseEpoch_iff s e : ParseEpoch s = Ok e ↔ epochValid e ∧ s = epochText e.
Proof.
  split; [unfold ParseEpoch, epochValid|].
  - destruct (cut "." s) as [[g t] ok] eqn:Hc. destruct (ParseInt g) as [gen e1] eqn:Hg.
    destruct (ParseInt t) as [tl e2] eqn:Ht.
    pose proof (ParseInt_bound _ _ _ Hg). pose proof (ParseInt_bound _ _ _ Ht).
    destruct ok; [|done]. cbn [negb orb]. case_match eqn:Hb; [done|]. rewrite !orb_false_iff, !bool_decide_eq_false in Hb.
    intros [= <-]. cbn. destruct Hb as [[[[[? ?] ?] ?] Hfg] Hft]. apply dec_stable in Hfg, Hft.
    split; [lia|]. unfold epochText. cbn. rewrite Hfg, Hft. by apply cut_ok.
  - intros [Hv ->]. exact (ParseEpoch_text e Hv).
Qed.

(** ** Partitions *)

Lemma PartitionOf_range ul s id : Validate s = None → 0 ≤ PartitionOf ul s id < st_Partitions s ∧ st_Partitions s ≤ 256.
Proof.
  unfold Validate. destruct (streamName _); [|done]. cbn [negb].
  case_match eqn:Hp; [done|]. rewrite orb_false_iff, !bool_decide_eq_false in Hp. intros _.
  split; [apply Z.mod_pos_bound|]; lia.
Qed.

(** ** Subjects *)

Lemma word_notDot w : allChars nameChar w = true → allChars (notChar ".") w = true.
Proof.
  apply allChars_impl. intros a Ha. unfold notChar. rewrite negb_true_iff, bool_decide_eq_false. intros ->. done.
Qed.

Lemma pattern_tokens st : GoStr.split "." (streamPattern st) = "be" :: GoStr.split "." st ++ [">"].
Proof.
  unfold streamPattern. change ("be." ++ ?x)%string with ("be" ++ String "." x)%string.
  change (".>")%string with (String "." ">"). by rewrite !split_app.
Qed.
Lemma filter_tokens st typ :
  GoStr.split "." ("be." ++ st ++ ".*." ++ typ)%string = "be" :: GoStr.split "." st ++ "*" :: GoStr.split "." typ.
Proof.
  change ("be." ++ ?x)%string with ("be" ++ String "." x)%string.
  change (".*." ++ typ)%string with (String "." ("*" ++ String "." typ)). by rewrite !split_app.
Qed.
Lemma subject_tokens st n typ :
  GoStr.split "." (Subject st n typ) = "be" :: GoStr.split "." st ++ FormatInt n :: GoStr.split "." typ.
Proof.
  change (Subject st n typ) with ("be" ++ String "." (st ++ String "." (FormatInt n ++ String "." typ)))%string.
  rewrite !split_app.
  by rewrite (split_word "." (FormatInt n)) by apply FormatInt_dot.
Qed.

(** Words that are no wildcards. *)
Definition plain (l : list string) : Prop := Forall (λ w, w ≠ ">" ∧ w ≠ "*") l.

Lemma streamName_plain s : streamName s = true → plain (GoStr.split "." s).
Proof.
  unfold streamName, plain. rewrite forallb_forall. intros Hf. apply Forall_forall. intros w Hw%list_elem_of_In%Hf.
  apply andb_true_iff in Hw as [_ Hw]. split; intros ->; done.
Qed.

(** Plain words before a pattern match themselves only. *)
Lemma tokensMatch_plain p q s :
  plain p → tokensMatch (p ++ q) s = true ↔ ∃ t, s = p ++ t ∧ tokensMatch q t = true.
Proof.
  intros Hp. revert s. induction Hp as [|w p [Hw1 Hw2] Hp IH]; intros s; cbn -[decide].
  - split; [by exists s|]. by intros (t & -> & ?).
  - rewrite decide_False by done. destruct s as [|x s]; [by split; [|intros (t & ? & _)]|].
    rewrite andb_true_iff, orb_true_iff, !bool_decide_eq_true, IH. split.
    + intros [[?|<-] (t & -> & ?)]; [done|]. by exists t.
    + intros (t & [= -> ->] & ?). eauto.
Qed.

Lemma pattern_matches st tokens :
  plain (GoStr.split "." st) →
  tokensMatch ("be" :: GoStr.split "." st ++ [">"]) tokens = true ↔
  ∃ t, tokens = "be" :: GoStr.split "." st ++ t ∧ t ≠ [].
Proof.
  intros Hp. change ("be" :: ?a ++ ?b) with (("be" :: a) ++ b). rewrite tokensMatch_plain by (by constructor).
  split; intros (t & -> & Ht); exists t; (split; [done|]); revert Ht; cbn -[decide]; rewrite decide_True by done;
    rewrite negb_true_iff, bool_decide_eq_false; done.
Qed.

(** A stream is apart from the streams a subscription reads: no dotted name of one begins
    the dotted name of the other. *)
Definition apart (stream : string) (streams : list string) : Prop :=
  ∀ st, st ∈ streams → (GoStr.split "." st `prefix_of` GoStr.split "." stream ∨
                        GoStr.split "." stream `prefix_of` GoStr.split "." st) → st = stream.

Lemma prefix_apart st stream (t u : list string) streams :
  st ∈ streams → apart stream streams → GoStr.split "." st ++ t = GoStr.split "." stream ++ u → st = stream.
Proof.
  intros Hin Ha He. apply (Ha st Hin). apply app_eq_app in He as [k [[Hk _]|[Hk _]]].
  - right. by exists k.
  - left. by exists k.
Qed.

Section routing.
Variables (sub : Sub) (stream : string) (n : Z) (typ : string).
Hypothesis Hs : streamName stream = true.
Hypothesis Ht : streamName typ = true.
Hypothesis Hss : ∀ st, st ∈ sb_Streams sub → streamName st = true.
Hypothesis Hts : ∀ ty, ty ∈ sb_Types sub → streamName ty = true.
Hypothesis Ha : apart stream (sb_Streams sub).

Lemma streams_match :
  existsb (λ st, SubjectMatches (streamPattern st) (Subject stream n typ)) (sb_Streams sub) = true ↔
  stream ∈ sb_Streams sub.
Proof.
  rewrite existsb_exists. unfold SubjectMatches. rewrite subject_tokens. split.
  - intros (st & Hin%list_elem_of_In & Hm). rewrite pattern_tokens in Hm.
    apply pattern_matches in Hm as (t & [= He] & _); [|by apply streamName_plain, Hss].
    by rewrite <- (prefix_apart st stream t _ _ Hin Ha (eq_sym He)).
  - intros Hin. exists stream. split; [by apply list_elem_of_In|]. rewrite pattern_tokens.
    apply pattern_matches; [by apply streamName_plain|]. eexists. split; [done|]. done.
Qed.

Lemma filter_match st ty :
  st ∈ sb_Streams sub → ty ∈ sb_Types sub →
  SubjectMatches ("be." ++ st ++ ".*." ++ ty) (Subject stream n typ) = true ↔ st = stream ∧ ty = typ.
Proof.
  intros Hst Hty. unfold SubjectMatches. rewrite subject_tokens, filter_tokens.
  change ("be" :: ?a ++ "*" :: ?b) with (("be" :: a) ++ "*" :: b).
  rewrite tokensMatch_plain by (constructor; [done|by apply streamName_plain, Hss]). split.
  - intros (t & [= He] & Hm). pose proof (prefix_apart st stream t _ _ Hst Ha (eq_sym He)) as ->.
    apply app_inv_head in He as <-. cbn -[decide] in Hm. rewrite decide_False in Hm by done.
    rewrite bool_decide_eq_true_2 in Hm by done. cbn [orb andb] in Hm. rewrite <- (app_nil_r (GoStr.split "." ty)) in Hm.
    apply tokensMatch_plain in Hm as (t & He & Hm); [|by apply streamName_plain, Hts].
    apply bool_decide_eq_true in Hm as ->. rewrite app_nil_r in He. by apply split_inj in He as ->.
  - intros [-> ->]. eexists. split; [done|]. cbn -[decide]. rewrite decide_False by done.
    rewrite bool_decide_eq_true_2 by done. cbn [orb andb]. rewrite <- (app_nil_r (GoStr.split "." typ)) at 1.
    apply tokensMatch_plain; [by apply streamName_plain|]. exists []. by rewrite app_nil_r.
Qed.

Lemma filters_match :
  stream ∈ sb_Streams sub →
  existsb (λ f, SubjectMatches f (Subject stream n typ)) (filtersOf sub) = true ↔ typ ∈ sb_Types sub.
Proof.
  intros Hin. rewrite existsb_exists. unfold filtersOf. split.
  - intros (f & Hf%list_elem_of_In & Hm). apply list_elem_of_bind in Hf as (st & Hf & Hst).
    apply list_elem_of_bind in Hf as (ty & Hf & Hty). apply list_elem_of_singleton in Hf as ->.
    by apply filter_match in Hm as [_ ->].
  - intros Hty. exists ("be." ++ stream ++ ".*." ++ typ)%string. split; [|by apply filter_match].
    apply list_elem_of_In, list_elem_of_bind. exists stream. split; [|done]. apply list_elem_of_bind.
    exists typ. split; [|done]. by apply list_elem_of_singleton.
Qed.

Lemma filters_nil : stream ∈ sb_Streams sub → filtersOf sub = [] ↔ sb_Types sub = [].
Proof.
  intros Hin. unfold filtersOf. split; intros Hn.
  - destruct (sb_Types sub); [done|]. destruct (sb_Streams sub); [by apply elem_of_nil in Hin|]. cbn in Hn. done.
  - rewrite Hn. clear. induction (sb_Streams sub); [done|]. cbn. done.
Qed.

(** Among streams whose names do not begin one another, a subscription gets exactly
    the events of the streams it names and, when it names types, of those types. *)
Theorem subscription_gets member configured :
  matches (SpecOf member sub configured) (Subject stream n typ) = true ↔
  stream ∈ sb_Streams sub ∧ (sb_Types sub = [] ∨ typ ∈ sb_Types sub).
Proof.
  unfold matches. cbn [SpecOf withDefaults ss_Streams ss_Filters].
  rewrite andb_true_iff, orb_true_iff, bool_decide_eq_true, streams_match. split.
  - intros [Hin Hf]. split; [done|]. by rewrite filters_nil, filters_match in Hf.
  - intros [Hin Hf]. split; [done|]. by rewrite filters_nil, filters_match.
Qed.

End routing.

(** A stream whose name goes on from another one's reaches the other's subscription. *)
Theorem prefix_stream_delivered :
  let sub := MkSub "stock" ["erp"] [] 0 0 false in
  matches (SpecOf "acme/wms" sub 0) (Subject "erp.inventory" 0 "moved.v1") = true ∧ "erp.inventory" ∉ sb_Streams sub.
Proof. split; [by vm_compute|]. by intros ?%list_elem_of_singleton. Qed.

Lemma subscription_gets_witness :
  let sub := MkSub "stock" ["erp.inventory"; "erp.sales"] ["erp.inventory.moved.v1"] 0 0 false in
  matches (SpecOf "acme/wms" sub 0) (Subject "erp.inventory" 3 "erp.inventory.moved.v1") = true ↔
  "erp.inventory" ∈ sb_Streams sub ∧ (sb_Types sub = [] ∨ "erp.inventory.moved.v1" ∈ sb_Types sub).
Proof.
  apply (subscription_gets (MkSub "stock" ["erp.inventory"; "erp.sales"] ["erp.inventory.moved.v1"] 0 0 false)
    "erp.inventory" 3 "erp.inventory.moved.v1").
  - by vm_compute.
  - by vm_compute.
  - intros st Hst. apply list_elem_of_In in Hst as [<-|[<-|[]]]; by vm_compute.
  - cbn. intros ty ->%list_elem_of_singleton. by vm_compute.
  - intros st Hst. apply list_elem_of_In in Hst as [<-|[<-|[]]]; [done|].
    intros [[k Hk]|[k Hk]]; discriminate Hk.
Defined.
