(* ===== verification/EventsEnvelope.v ===== *)
(** * Events: from [Emit] to the handler

    The producer's half of an event (events/producer.go: [Emit], [insert], [message];
    events/envelope.go: [Row], [Headers], [Digest]) and the consumer's
    (events/consumer.go: [received], [Receive]; events/claim.go: [ResolveClaim]), and the
    theorem that the second reads what the first wrote, inline or through a claim check.

    JSON, SHA-256, the format of a time and the object storage are interfaces. *)
From S2P Require Import Prelude GoStr EventsStream.
From Stdlib Require Import Ascii String.
Open Scope string_scope.
Open Scope Z_scope.
Open Scope list_scope.

Definition MaxPayload : Z := 65536.
Definition MaxHops : Z := 10.
Definition MaxSubjects : Z := 1000.

(** What an event carries: nothing, or a value with the outcome of its encoding. *)
Inductive data := NoData | Encoded (r : res string string).

Record Event := MkEvent {
  ev_Type : string; ev_RecordID : string; ev_Version : Z; ev_Projection : Projection; ev_Data : data;
  ev_LegalEntity : string; ev_Subjects : option (list string) }.

Record Row := MkRow {
  r_EventID : string; r_Stream : string; r_Partition : Z; r_Type : string; r_OccurredAt : Z; r_RecordID : string;
  r_Version : Z; r_Projection : Projection; r_LegalEntity : string; r_Subjects : option (list string);
  r_Causation : string; r_Hops : Z; r_Trace : gmap string string; r_Payload : string; r_Digest : string }.

Record ClaimRef := MkClaimRef { cr_URI : string; cr_Size : Z; cr_SHA256 : string }.
Record Message := MkMessage {
  m_Subject : string; m_Headers : gmap string string; m_Data : string; m_MsgID : string }.

(** [Message.ID] and [Message.DedupID]. *)
Definition MsgEventID (m : Message) : string := default "" (m_Headers m !! "ce-id").
Definition DedupID (m : Message) : string := if decide (m_MsgID m = "") then MsgEventID m else m_MsgID m.

Class Codec := {
  utf8Text : string → Prop;
  sha256Hex : string → string;
  formatTime : Z → string;
  encodeStrings : list string → string;
  encodeClaim : ClaimRef → string;
  decodeClaim : string → option ClaimRef;
  unicodeLower : string → string }.

(** [Digest]: of the identity, a zero byte and the payload. *)
Definition Digest `{Codec} (eventID payload : string) : string := sha256Hex (eventID ++ String "000"%char payload)%string.

(** The errors, each with what it names. *)
Inductive everr :=
| NoStream (s : string) | Nameless | BadProjection | TooManySubjects | NoSubjects | NotEncoded (why : string)
| NeedsStorage | TooManyHops (n : Z) | PutFailed (why : string)
| NoEnvelope | BadHeader (key v : string) | NoClaim | NoReader | GetFailed (why : string) | Mismatch.

Section producer.
Context `{Codec}.

Record Producer := MkProducer { pr_streams : gmap string Stream; pr_claims : option (string → string → res string string) }.

(** [NewProducer]: the first stream that is not valid refuses them all. *)
Fixpoint newStreams (l : list Stream) (m : gmap string Stream) : res streamErr (gmap string Stream) :=
  match l with
  | [] => Ok m
  | s :: l => match Validate s with Some e => Err e | None => newStreams l (<[st_Name s := s]> m) end
  end.
Definition NewProducer (l : list Stream) (claims : option (string → string → res string string)) : res streamErr Producer :=
  match newStreams l ∅ with Ok m => Ok (MkProducer m claims) | Err e => Err e end.

(** The context an event is emitted in: the event being processed with its hops, the
    trace, a new identity and the time. *)
Record emission := MkEmission { em_cause : option (string * Z); em_trace : gmap string string; em_id : string; em_now : Z }.

(** [insert]: the row, or why none is written. *)
Definition insertRow (p : Producer) (em : emission) (stream : string) (n : Z) (ev : Event) : res everr Row :=
  match match ev_Data ev with NoData => Ok "{}" | Encoded r => r end with
  | Err why => Err (NotEncoded why)
  | Ok payload =>
      if bool_decide (MaxPayload < Z.of_nat (String.length payload)) && bool_decide (pr_claims p = None) then Err NeedsStorage
      else
        let '(hops, causation) := match em_cause em with Some (id, h) => (h + 1, id) | None => (0, "") end in
        if decide (MaxHops < hops) then Err (TooManyHops hops)
        else Ok (MkRow (em_id em) stream n (ev_Type ev) (em_now em) (ev_RecordID ev) (ev_Version ev) (ev_Projection ev)
                   (ev_LegalEntity ev) (ev_Subjects ev) causation hops (em_trace em) payload (Digest (em_id em) payload))
  end.

(** [Emit]. *)
Definition Emit (p : Producer) (em : emission) (stream : string) (ev : Event) : res everr Row :=
  match pr_streams p !! stream with
  | None => Err (NoStream stream)
  | Some s =>
      if bool_decide (ev_Type ev = "") || bool_decide (ev_RecordID ev = "") then Err Nameless
      else if bool_decide (ev_Projection ev ≠ Full) && bool_decide (ev_Projection ev ≠ Partial)
              && bool_decide (ev_Projection ev ≠ Delete) then Err BadProjection
      else if decide (MaxSubjects < Z.of_nat (List.length (default [] (ev_Subjects ev)))) then Err TooManySubjects
      else if bool_decide (st_Watermark s ≠ None) && bool_decide (default [] (ev_Subjects ev) = []) then Err NoSubjects
      else insertRow p em (st_Name s) (PartitionOf unicodeLower s (ev_RecordID ev)) ev
  end.

(** [Row.Headers] of a row at position [pos]. *)
Definition baseHeaders (r : Row) (pos : Point) (source impl : string) : gmap string string :=
  list_to_map
    [("ce-specversion", "1.0"); ("ce-id", r_EventID r); ("ce-source", ("urn:be:" ++ source)%string); ("ce-type", r_Type r);
     ("ce-time", formatTime (r_OccurredAt r)); ("ce-subject", r_RecordID r); ("ce-datacontenttype", "application/json");
     ("ce-bestream", r_Stream r); ("ce-bepartition", FormatInt (r_Partition r)); ("ce-beimpl", impl);
     ("ce-beepoch", epochText (pt_Epoch pos)); ("ce-beseq", FormatInt (pt_Seq pos));
     ("ce-beversion", FormatInt (r_Version r)); ("ce-beprojection", projectionText (r_Projection r));
     ("ce-bedigest", r_Digest r); ("ce-behops", FormatInt (r_Hops r))].
Definition optional (b : bool) (k v : string) (h : gmap string string) : gmap string string := if b then <[k := v]> h else h.
Definition HeadersOf (r : Row) (pos : Point) (claim : bool) (source impl : string) : gmap string string :=
  let h := baseHeaders r pos source impl in
  let h := optional (negb (bool_decide (r_Causation r = ""))) "ce-becausation" (r_Causation r) h in
  let h := optional (negb (bool_decide (r_LegalEntity r = ""))) "ce-belegalentity" (r_LegalEntity r) h in
  let h := match r_Subjects r with Some l => <["ce-besubjects" := encodeStrings l]> h | None => h end in
  let h := optional claim "ce-beclaim" "true" h in
  list_to_map (map (λ '(k, v), (("ce-" ++ k)%string, v)) (map_to_list (r_Trace r))) ∪ h.

(** [Producer.message]: a large payload goes to object storage first. *)
Definition messageOf (p : Producer) (r : Row) (pos : Point) (source impl : string) : res everr (Message * bool) :=
  let mk payload claim :=
    (MkMessage (Subject (r_Stream r) (r_Partition r) (r_Type r)) (HeadersOf r pos claim source impl) payload "", claim) in
  if decide (MaxPayload < Z.of_nat (String.length (r_Payload r))) then
    match pr_claims p with
    | None => Err NeedsStorage
    | Some put =>
        match put (r_EventID r) (r_Payload r) with
        | Err why => Err (PutFailed why)
        | Ok uri =>
            Ok (mk (encodeClaim (MkClaimRef uri (Z.of_nat (String.length (r_Payload r))) (sha256Hex (r_Payload r)))) true)
        end
    end
  else Ok (mk (r_Payload r) false).

(** ** The consumer's half *)

Record Received := MkReceived {
  rv_ID : string; rv_Type : string; rv_Source : string; rv_RecordID : string; rv_Version : Z; rv_Projection : Projection;
  rv_Stream : string; rv_Partition : Z; rv_Seq : Z; rv_Epoch : string; rv_Impl : string; rv_Hops : Z; rv_Data : string }.

Definition header (h : gmap string string) (k : string) : string := default "" (h !! k).

(** A number of the envelope; an absent one is zero. *)
Definition num (h : gmap string string) (key : string) : res everr Z :=
  match h !! key with
  | None => Ok 0
  | Some v => match ParseInt v with (n, None) => Ok n | (_, Some _) => Err (BadHeader key v) end
  end.

(** [received]. *)
Definition received (m : Message) : res everr Received :=
  let h := m_Headers m in
  if bool_decide (header h "ce-id" = "") || bool_decide (header h "ce-type" = "") then Err NoEnvelope
  else
    match num h "ce-beversion" with
    | Err e => Err e
    | Ok version =>
        match num h "ce-beseq" with
        | Err e => Err e
        | Ok seq_ =>
            match num h "ce-bepartition" with
            | Err e => Err e
            | Ok part =>
                match num h "ce-behops" with
                | Err e => Err e
                | Ok hops =>
                    Ok (MkReceived (header h "ce-id") (header h "ce-type") (header h "ce-source") (header h "ce-subject")
                          version (projectionOf (header h "ce-beprojection")) (header h "ce-bestream") part seq_
                          (header h "ce-beepoch") (header h "ce-beimpl") hops "")
                end
            end
        end
    end.

(** [ResolveClaim]. *)
Definition ResolveClaim (m : Message) (reader : option (string → res string string)) : res everr string :=
  if decide (m_Headers m !! "ce-beclaim" = Some "true") then
    match decodeClaim (m_Data m) with
    | None => Err NoClaim
    | Some ref =>
        if decide (cr_URI ref = "") then Err NoClaim
        else match reader with
             | None => Err NoReader
             | Some get =>
                 match get (cr_URI ref) with
                 | Err why => Err (GetFailed why)
                 | Ok d =>
                     if bool_decide (Z.of_nat (String.length d) ≠ cr_Size ref) || bool_decide (sha256Hex d ≠ cr_SHA256 ref)
                     then Err Mismatch else Ok d
                 end
             end
    end
  else Ok (m_Data m).

(** [Receive]. *)
Definition Receive (m : Message) (reader : option (string → res string string)) : res everr Received :=
  match received m with
  | Err e => Err e
  | Ok r =>
      if decide (MaxHops < rv_Hops r) then Err (TooManyHops (rv_Hops r))
      else match ResolveClaim m reader with
           | Err e => Err e
           | Ok d => Ok (MkReceived (rv_ID r) (rv_Type r) (rv_Source r) (rv_RecordID r) (rv_Version r) (rv_Projection r)
                           (rv_Stream r) (rv_Partition r) (rv_Seq r) (rv_Epoch r) (rv_Impl r) (rv_Hops r) d)
           end
  end.

End producer.

(** ** What the handler gets is what was emitted *)

Class CodecLaws `{Codec} := {
  decode_claim c : utf8Text (cr_URI c) → utf8Text (cr_SHA256 c) → decodeClaim (encodeClaim c) = Some c;
  sha_text d : utf8Text (sha256Hex d) }.

Lemma newStreams_ok l m m' :
  newStreams l m = Ok m' → (∀ k s, m !! k = Some s → Validate s = None ∧ st_Name s = k) →
  ∀ k s, m' !! k = Some s → Validate s = None ∧ st_Name s = k.
Proof.
  revert m. induction l as [|s l IH]; intros m; cbn [newStreams]; [by intros [= ->]|].
  destruct (Validate s) eqn:Hv; [done|]. intros Hn Hm. eapply IH; [exact Hn|]. intros k s'.
  destruct (decide (k = st_Name s)) as [->|Hk].
  - rewrite lookup_insert_eq. by intros [= <-].
  - rewrite lookup_insert_ne by done. apply Hm.
Qed.

Lemma projectionOf_text p : (∀ s, p ≠ OtherProjection s) → projectionOf (projectionText p) = p.
Proof. destruct p as [| | |s]; try done. intros Hp. by destruct (Hp s). Qed.

(** The next condition of a chain of refusals does not hold. *)
Ltac next_if H :=
  match goal with
  | |- (if decide ?P then _ else _) = _ → _ => destruct (decide P) as [?|H]; [done|]
  | |- (if ?b then _ else _) = _ → _ => destruct b eqn:H; [done|]
  end.

Section arrives.
Context `{CodecLaws}.
Variables (l : list Stream) (claims : option (string → string → res string string)) (get : string → res string string).
Variables (p : Producer) (em : emission) (stream : string) (ev : Event) (row : Row) (pos : Point) (source impl : string).
Hypothesis Hp : NewProducer l claims = Ok p.
Hypothesis Hemit : Emit p em stream ev = Ok row.
Hypothesis Hid : em_id em ≠ "".
Hypothesis Hversion : int64_min ≤ ev_Version ev ≤ int64_max.
Hypothesis Hseq : 0 ≤ pt_Seq pos ≤ int64_max.
Hypothesis Hhops : ∀ id h, em_cause em = Some (id, h) → 0 ≤ h.
(** The trace context of W3C. *)
Hypothesis Htrace : ∀ k, is_Some (em_trace em !! k) → k = "traceparent" ∨ k = "tracestate".
(** The storage returns what was put. *)
Hypothesis Hstore : ∀ put id d uri, claims = Some put → put id d = Ok uri → uri ≠ "" ∧ utf8Text uri ∧ get uri = Ok d.

Definition emittedPayload : res string string := match ev_Data ev with NoData => Ok "{}" | Encoded r => r end.
Definition hopsOf : Z := match em_cause em with Some (_, h) => h + 1 | None => 0 end.

Lemma Emit_row :
  ∃ s payload, pr_streams p !! stream = Some s ∧ Validate s = None ∧ st_Name s = stream ∧ pr_claims p = claims ∧
    emittedPayload = Ok payload ∧ ev_Type ev ≠ "" ∧ (∀ t, ev_Projection ev ≠ OtherProjection t) ∧ hopsOf ≤ MaxHops ∧
    row = MkRow (em_id em) stream (PartitionOf unicodeLower s (ev_RecordID ev)) (ev_Type ev) (em_now em) (ev_RecordID ev)
      (ev_Version ev) (ev_Projection ev) (ev_LegalEntity ev) (ev_Subjects ev)
      (match em_cause em with Some (id, _) => id | None => "" end) hopsOf (em_trace em) payload (Digest (em_id em) payload).
Proof.
  revert Hp Hemit. unfold NewProducer, Emit. destruct (newStreams l ∅) as [ms|] eqn:Hn; [|done]. intros [= <-]. cbn [pr_streams].
  destruct (ms !! stream) as [s|] eqn:Hs; [|done].
  destruct (newStreams_ok _ _ _ Hn (λ k s Hk, ltac:(by rewrite lookup_empty in Hk)) _ _ Hs) as [Hv Hname].
  next_if Hname'. apply orb_false_iff in Hname' as [Ht _]. apply bool_decide_eq_false in Ht.
  next_if Hpr. next_if Hsub. next_if Hwm.
  unfold insertRow, emittedPayload.
  destruct (match ev_Data ev with NoData => Ok "{}" | Encoded r => r end) as [payload|] eqn:Hpl; [|done].
  next_if Hsize. unfold hopsOf.
  destruct (em_cause em) as [[id h]|]; next_if Hh; intros [= <-]; exists s, payload; rewrite Hname.
  all: repeat (split; [first [done|lia]|]); split; [|split; [lia|done]].
  all: intros t Ht'; rewrite Ht' in Hpr; done.
Qed.

(** The headers of the row, apart from the trace's. *)
Lemma trace_lookup (h : gmap string string) k :
  k ≠ "ce-traceparent" → k ≠ "ce-tracestate" →
  (list_to_map (map (λ '(k, v), (("ce-" ++ k)%string, v)) (map_to_list (em_trace em))) ∪ h) !! k = h !! k.
Proof.
  intros H1 H2. apply lookup_union_r, not_elem_of_list_to_map_1. rewrite list_elem_of_fmap.
  intros ([k' v] & -> & Hin). apply list_elem_of_fmap in Hin as ([k2 v2] & [= -> ->] & Hin).
  apply elem_of_map_to_list in Hin. destruct (Htrace k2) as [->| ->]; eauto.
Qed.

(** A header of the row's base. *)
Lemma header_base claim k :
  r_Trace row = em_trace em → k ≠ "ce-traceparent" → k ≠ "ce-tracestate" → k ≠ "ce-becausation" → k ≠ "ce-belegalentity" →
  k ≠ "ce-besubjects" → k ≠ "ce-beclaim" → HeadersOf row pos claim source impl !! k = baseHeaders row pos source impl !! k.
Proof.
  intros Ht H1 H2 H3 H4 H5 H6. unfold HeadersOf. rewrite Ht, trace_lookup by done. unfold optional.
  repeat case_match; by rewrite ?lookup_insert_ne.
Qed.

Lemma header_claim claim : r_Trace row = em_trace em →
  HeadersOf row pos claim source impl !! "ce-beclaim" = if claim then Some "true" else None.
Proof.
  intros Ht. unfold HeadersOf. rewrite Ht, trace_lookup by done. unfold optional, baseHeaders.
  destruct claim; [by rewrite lookup_insert_eq|]. repeat case_match; rewrite ?lookup_insert_ne by done; done.
Qed.

Lemma num_FormatInt h k n : h !! k = Some (FormatInt n) → int64_min ≤ n ≤ int64_max → num h k = Ok n.
Proof. intros Hk Hn. unfold num. by rewrite Hk, ParseInt_FormatInt. Qed.

(** The envelope reads back. *)
Lemma received_row s payload m claim :
  Validate s = None → ev_Type ev ≠ "" → (∀ t, ev_Projection ev ≠ OtherProjection t) → hopsOf ≤ MaxHops →
  row = MkRow (em_id em) stream (PartitionOf unicodeLower s (ev_RecordID ev)) (ev_Type ev) (em_now em) (ev_RecordID ev)
      (ev_Version ev) (ev_Projection ev) (ev_LegalEntity ev) (ev_Subjects ev)
      (match em_cause em with Some (id, _) => id | None => "" end) hopsOf (em_trace em) payload (Digest (em_id em) payload) →
  m_Headers m = HeadersOf row pos claim source impl →
  received m =
    Ok (MkReceived (em_id em) (ev_Type ev) ("urn:be:" ++ source) (ev_RecordID ev) (ev_Version ev) (ev_Projection ev) stream
          (PartitionOf unicodeLower s (ev_RecordID ev)) (pt_Seq pos) (epochText (pt_Epoch pos)) impl hopsOf "").
Proof.
  intros Hv Htype Hproj Hmax Hrow Hh. assert (Ht : r_Trace row = em_trace em) by (by subst row).
  assert (Hb : ∀ k v, baseHeaders row pos source impl !! k = Some v → k ≠ "ce-traceparent" → k ≠ "ce-tracestate" →
    k ≠ "ce-becausation" → k ≠ "ce-belegalentity" → k ≠ "ce-besubjects" → k ≠ "ce-beclaim" → m_Headers m !! k = Some v).
  { intros k v Hk **. rewrite Hh. by rewrite header_base. }
  subst row. pose proof (PartitionOf_range unicodeLower s (ev_RecordID ev) Hv) as Hpart.
  assert (Hh0 : 0 ≤ hopsOf). { unfold hopsOf. destruct (em_cause em) as [[id h]|]; [|done]. specialize (Hhops id h eq_refl). lia. }
  unfold received, header. unfold MaxHops, int64_min, int64_max in *.
  rewrite (Hb "ce-id" (em_id em)), (Hb "ce-type" (ev_Type ev)) by done. cbn [default from_option id].
  rewrite !bool_decide_eq_false_2 by done. cbn [orb].
  rewrite (num_FormatInt _ "ce-beversion" (ev_Version ev)) by (try apply Hb; unfold int64_min, int64_max; done || lia).
  rewrite (num_FormatInt _ "ce-beseq" (pt_Seq pos)) by (try apply Hb; unfold int64_min, int64_max; done || lia).
  rewrite (num_FormatInt _ "ce-bepartition" (PartitionOf unicodeLower s (ev_RecordID ev)))
    by (try apply Hb; unfold int64_min, int64_max; done || lia).
  rewrite (num_FormatInt _ "ce-behops" hopsOf) by (try apply Hb; unfold int64_min, int64_max; done || lia).
  rewrite (Hb "ce-source" ("urn:be:" ++ source)%string), (Hb "ce-subject" (ev_RecordID ev)), (Hb "ce-bestream" stream),
    (Hb "ce-beepoch" (epochText (pt_Epoch pos))), (Hb "ce-beimpl" impl),
    (Hb "ce-beprojection" (projectionText (ev_Projection ev))) by done.
  cbn [default from_option id]. by rewrite projectionOf_text.
Qed.

(** C24. What a handler receives is what was emitted.  For an event [Emit] accepted, at any
    position it was numbered with, the message the producer makes of its row, inline or by
    a claim check, is received with the identity, type, record, version, projection,
    stream, partition, position and hops of the emission, and with its payload. *)
Theorem event_arrives m claim :
  messageOf p row pos source impl = Ok (m, claim) →
  ∃ s payload, pr_streams p !! stream = Some s ∧ emittedPayload = Ok payload ∧
    Receive m (Some get) =
    Ok (MkReceived (em_id em) (ev_Type ev) ("urn:be:" ++ source) (ev_RecordID ev) (ev_Version ev) (ev_Projection ev) stream
          (PartitionOf unicodeLower s (ev_RecordID ev)) (pt_Seq pos) (epochText (pt_Epoch pos)) impl hopsOf payload).
Proof.
  destruct Emit_row as (s & payload & Hs & Hv & Hname & Hcl & Hpl & Htype & Hproj & Hmax & Hrow).
  assert (Ht : r_Trace row = em_trace em) by (by subst row). assert (Hpay : r_Payload row = payload) by (by subst row).
  intros Hm. exists s, payload. split; [done|]. split; [done|]. revert Hm. unfold messageOf, Receive. rewrite Hcl, Hpay.
  destruct (decide (MaxPayload < Z.of_nat (String.length payload))) as [Hbig|Hbig].
  - destruct claims as [put|] eqn:Hput; [|done]. destruct (put (r_EventID row) payload) as [uri|] eqn:Huri; [|done].
    intros [= <- <-]. match goal with |- context [received ?x] => rewrite (received_row s payload x true Hv Htype Hproj Hmax Hrow eq_refl) end.
    cbn [rv_Hops]. rewrite decide_False by lia. unfold ResolveClaim. cbn [m_Headers m_Data].
    rewrite header_claim by done. rewrite decide_True by done.
    destruct (Hstore put _ _ uri eq_refl Huri) as (Hne & Hutf & Hget).
    rewrite decode_claim by (cbn; auto using sha_text). cbn [cr_URI cr_Size cr_SHA256].
    rewrite decide_False by done. rewrite Hget. by rewrite !bool_decide_eq_false_2 by (intros []; done).
  - intros [= <- <-]. match goal with |- context [received ?x] => rewrite (received_row s payload x false Hv Htype Hproj Hmax Hrow eq_refl) end.
    cbn [rv_Hops]. rewrite decide_False by lia. unfold ResolveClaim. cbn [m_Headers m_Data].
    rewrite header_claim by done. by rewrite decide_False.
Qed.

End arrives.

(** ** A stream to see it on *)

#[export] Instance ClaimRef_eq_dec : EqDecision ClaimRef.
Proof. solve_decision. Defined.
#[export] Instance ClaimRef_countable : Countable ClaimRef :=
  inj_countable' (λ c, (cr_URI c, cr_Size c, cr_SHA256 c)) (λ '(u, n, h), MkClaimRef u n h)
    (λ c, match c with MkClaimRef _ _ _ => eq_refl end).

(** Texts stand for their own digests. *)
#[export] Instance plainCodec : Codec := {|
  utf8Text _ := True; sha256Hex d := d; formatTime t := FormatInt t; encodeStrings l := String.concat "," l;
  encodeClaim c := textCode c; decodeClaim s := textDecode s;
  unicodeLower s := s |}.
#[export] Instance plainCodecLaws : CodecLaws.
Proof. split; [|done]. intros c _ _. apply textDecode_code. Qed.

Definition stockStream : Stream := MkStream "erp.stock" 4 None None.
Definition stockProducer : Producer := MkProducer {[ "erp.stock" := stockStream ]} None.
Definition stockMoved : Event := MkEvent "erp.stock.moved.v1" "Bolt" 7 Full (Encoded (Ok "{qty:3}")) "acme" (Some ["ann"]).
Definition stockEmission : emission := MkEmission (Some ("e0", 2)) {[ "traceparent" := "00-1" ]} "e1" 1000.
Definition stockRow : Row :=
  MkRow "e1" "erp.stock" (PartitionOf (λ s, s) stockStream "Bolt") "erp.stock.moved.v1" 1000 "Bolt" 7 Full "acme" (Some ["ann"]) "e0" 3
    {[ "traceparent" := "00-1" ]} "{qty:3}" (Digest "e1" "{qty:3}").
Definition stockPos : Point := MkPoint (MkEpoch 1 1) 5.
Definition stockMessage : Message :=
  MkMessage (Subject "erp.stock" (r_Partition stockRow) "erp.stock.moved.v1") (HeadersOf stockRow stockPos false "acme/wms" "i1") "{qty:3}" "".

Lemma event_arrives_witness :
  ∃ s payload, pr_streams stockProducer !! "erp.stock" = Some s ∧ emittedPayload stockMoved = Ok payload ∧
    Receive stockMessage (Some (λ _, Err "none")) =
    Ok (MkReceived "e1" "erp.stock.moved.v1" "urn:be:acme/wms" "Bolt" 7 Full "erp.stock"
          (PartitionOf unicodeLower s "Bolt") 5 "1.1" "i1" (hopsOf stockEmission) payload).
Proof.
  apply (event_arrives [stockStream] None (λ _, Err "none") stockProducer stockEmission "erp.stock" stockMoved stockRow
    stockPos "acme/wms" "i1") with (claim := false).
  - by vm_compute.
  - by vm_compute.
  - done.
  - done.
  - done.
  - by intros id h [= <- <-].
  - intros k [v Hk]. cbn [em_trace stockEmission] in Hk. apply lookup_singleton_Some in Hk as [<- _]. by left.
  - done.
  - by vm_compute.
Defined.
