(* ===== verification/EventsOutbox.v ===== *)
(** * Events: the outbox and its forwarders

    events/number.go ([numberIn]), events/forwarder.go ([lease], [partition], [forward],
    [pending], [unpublishedIn], [markPublished], [Purge]) over the outbox's tables, and the
    system they make: business transactions that write rows and commit in any order, any
    number of forwarders that number, publish, fail and die, purges, failovers that change
    the database's epoch.

    A transaction is a step.  Rows get their [ord] from a sequence when they are inserted
    and become visible when their transaction commits. *)
From S2P Require Import Prelude GoStr EventsStream EventsEnvelope.
From Stdlib Require Import Ascii String.
Open Scope string_scope.
Open Scope Z_scope.
Open Scope list_scope.

Definition streamPart : Type := string * Z.

(** ** The tables *)

(** be_outbox, by [ord]. *)
Record orow := MkORow { o_row : Row; o_pos : option Point; o_published : option Z; o_claim : bool }.
Definition partOf (r : orow) : streamPart := (r_Stream (o_row r), r_Partition (o_row r)).

(** be_outbox_partition. *)
Record Counter := MkCounter {
  c_last : Z; c_epoch : option Epoch; c_owner : option string; c_until : option Z; c_purged : option Point }.
Definition newCounter : Counter := MkCounter 0 None None None None.

(** be_epoch_history. *)
Record fork := MkFork { fk_part : streamPart; fk_old : Epoch; fk_seq : Z; fk_new : Epoch }.

Record store := MkStore {
  outbox : gmap Z orow; counters : gmap streamPart Counter; history : list fork; dbEpoch : option Epoch; dbNow : Z }.

Definition set_outbox (f : gmap Z orow → gmap Z orow) (s : store) : store :=
  MkStore (f (outbox s)) (counters s) (history s) (dbEpoch s) (dbNow s).
Definition set_counters (f : gmap streamPart Counter → gmap streamPart Counter) (s : store) : store :=
  MkStore (outbox s) (f (counters s)) (history s) (dbEpoch s) (dbNow s).
Definition set_history (f : list fork → list fork) (s : store) : store :=
  MkStore (outbox s) (counters s) (f (history s)) (dbEpoch s) (dbNow s).

Inductive oerr := ErrNoEpoch.
#[local] Abbreviation M := (tx store oerr).

Definition counterOf (s : store) (sp : streamPart) : Counter := default newCounter (counters s !! sp).
(** INSERT ... ON CONFLICT DO NOTHING. *)
Definition ensureCounter (sp : streamPart) (m : gmap streamPart Counter) : gmap streamPart Counter :=
  match m !! sp with Some _ => m | None => <[sp := newCounter]> m end.

(** ** Numbering *)

Definition unnumbered (s : store) (sp : streamPart) : list Z :=
  map fst (filter (λ '(_, r), partOf r = sp ∧ o_pos r = None) (map_to_list (outbox s))).
(** The first rows without a number, in insertion order. *)
Definition picked (s : store) (sp : streamPart) (batch : nat) : list Z := take batch (merge_sort Z.le (unnumbered s sp)).

(** Their positions after [last]. *)
Fixpoint assign (now : Epoch) (last : Z) (ords : list Z) : list (Z * Point) :=
  match ords with [] => [] | o :: ords => (o, MkPoint now (last + 1)) :: assign now (last + 1) ords end.
Definition setPos (p : Point) (r : orow) : orow := MkORow (o_row r) (Some p) (o_published r) (o_claim r).
Definition place (l : list (Z * Point)) (m : gmap Z orow) : gmap Z orow :=
  foldr (λ '(o, p), alter (setPos p) o) m l.

(** Whether the counter is of another epoch than the database. *)
Definition epochChanged (c : Counter) (now : Epoch) : bool := bool_decide (c_epoch c ≠ Some now).

(** [numberIn]: answers how many rows it numbered. *)
Definition numberIn (sp : streamPart) (batch : nat) : M nat :=
  (tmod (set_counters (ensureCounter sp)) ;~
   s <~ tget ;
   let c := counterOf s sp in
   match dbEpoch s with
   | None => tfail ErrNoEpoch
   | Some now =>
       match c_epoch c with
       | Some old =>
           if epochChanged c now then tmod (set_history (λ h, h ++ [MkFork sp old (c_last c) now])) else tret tt
       | None => tret tt
       end ;~
       let last := if epochChanged c now then 0 else c_last c in
       s <~ tget ;
       let l := assign now last (picked s sp batch) in
       tmod (set_outbox (place l)) ;~
       tmod (set_counters (insert sp (MkCounter (last + Z.of_nat (List.length l)) (Some now) (c_owner c) (c_until c) (c_purged c)))) ;~
       tret (List.length l)
   end)%tx.

(** ** Publishing *)

(** The order of positions, and rows in it. *)
Definition pointLe (p q : Point) : Prop := pointLess q p = false.
#[export] Instance pointLe_dec p q : Decision (pointLe p q).
Proof. unfold pointLe. apply _. Defined.
Definition rowLe (x y : Z * Point) : Prop := pointLe x.2 y.2.
#[export] Instance rowLe_dec x y : Decision (rowLe x y).
Proof. unfold rowLe. apply _. Defined.

(** The numbered rows of a partition that satisfy a condition, in position order. *)
Definition positions (P : orow → Point → bool) (s : store) (sp : streamPart) : list (Z * Point) :=
  omap (λ '(o, r), match o_pos r with
                   | Some p => if bool_decide (partOf r = sp) && P r p then Some (o, p) else None
                   | None => None
                   end) (map_to_list (outbox s)).

(** [unpublishedIn]. *)
Definition isUnpublished (r : orow) (_ : Point) : bool := bool_decide (o_published r = None).
Definition unpublishedIn (s : store) (sp : streamPart) (batch : nat) : list (Z * Point) :=
  take batch (merge_sort rowLe (positions isUnpublished s sp)).

(** Numbering and reading in one transaction. *)
Definition takeBatch (sp : streamPart) (batch : nat) : M (list (Z * Point)) :=
  (numberIn sp batch ;~ s <~ tget ; tret (unpublishedIn s sp batch))%tx.

(** [markPublished]. *)
Definition markOne (now : Z) (claimed : list Z) (o : Z) (r : orow) : orow :=
  MkORow (o_row r) (o_pos r) (Some now) (bool_decide (o ∈ claimed)).
Definition markPublished (ords claimed : list Z) (s : store) : store :=
  set_outbox (map_imap (λ o r, Some (if bool_decide (o ∈ ords ∧ o_published r = None) then markOne (dbNow s) claimed o r else r))) s.

(** ** Purging *)

(** The rows one batch deletes: published ones older than the retention. *)
Definition purgeable (s : store) (retention : Z) (r : orow) : bool :=
  match o_published r with Some t => bool_decide (t < dbNow s - retention) | None => false end.

(** The largest position deleted of each partition. *)
Definition noteTop (r : orow) (top : gmap streamPart Point) : gmap streamPart Point :=
  match o_pos r with
  | None => top
  | Some p => match top !! partOf r with
              | Some cur => if pointLess cur p then <[partOf r := p]> top else top
              | None => <[partOf r := p]> top
              end
  end.
Definition notePurged (p : Point) (c : Counter) : Counter :=
  if match c_purged c with Some q => pointLess q p | None => true end
  then MkCounter (c_last c) (c_epoch c) (c_owner c) (c_until c) (Some p)
  else c.

(** One batch of [Purge], deleting the rows [ords]. *)
Definition purgeBatch (retention : Z) (ords : list Z) (s : store) : store :=
  let gone := filter (λ '(o, r), o ∈ ords ∧ purgeable s retention r = true) (outbox s) in
  let top := map_fold (λ _ r, noteTop r) ∅ gone in
  set_counters (map_imap (λ sp c, Some (match top !! sp with Some p => notePurged p c | None => c end)))
    (set_outbox (λ m, m ∖ gone) s).

(** ** A forwarder *)

(** [f_held]: until when it holds each partition's lease, by its own clock. *)
Record Forwarder := MkForwarder { f_owner : string; f_Lease : Z; f_Batch : nat; f_held : gmap streamPart Z }.
Definition set_held (h : gmap streamPart Z) (f : Forwarder) : Forwarder := MkForwarder (f_owner f) (f_Lease f) (f_Batch f) h.

(** The lease row as the UPDATE leaves it, when its condition holds. *)
Definition leaseRow (owner : string) (lease now : Z) (c : Counter) : option Counter :=
  if match c_until c with None => true | Some u => bool_decide (u < now) end || bool_decide (c_owner c = Some owner)
  then Some (MkCounter (c_last c) (c_epoch c) (Some owner) (Some (now + lease)) (c_purged c))
  else None.

(** [Forwarder.lease] at the process's time [asked]. *)
Definition lease (asked : Z) (f : Forwarder) (sp : streamPart) (s : store) : bool * Forwarder * store :=
  if match f_held f !! sp with Some u => bool_decide (f_Lease f / 2 < u - asked) | None => false end then (true, f, s)
  else
    let s := set_counters (ensureCounter sp) s in
    match leaseRow (f_owner f) (f_Lease f) (dbNow s) (counterOf s sp) with
    | Some c => (true, set_held (<[sp := asked + f_Lease f]> (f_held f)) f, set_counters (insert sp c) s)
    | None => (false, set_held (delete sp (f_held f)) f, s)
    end.

(** [Forwarder.release]. *)
Definition releaseRow (owner : string) (c : Counter) : Counter :=
  if decide (c_owner c = Some owner) then MkCounter (c_last c) (c_epoch c) None None (c_purged c) else c.
Definition release (f : Forwarder) (s : store) : Forwarder * store :=
  (set_held ∅ f, set_counters (fmap (releaseRow (f_owner f))) s).

(** The loop over a batch: rows published one by one until one is not prepared or not
    accepted; [accepts] answers for the [i]-th publish of the transport. *)
Fixpoint publishAll (accepts : nat → Z → bool) (rows : list (Z * Point)) (log : list Z) : list Z * bool * list Z :=
  match rows with
  | [] => ([], false, log)
  | (o, _) :: rows =>
      if accepts (List.length log) o then
        let '(done, failed, log) := publishAll accepts rows (log ++ [o]) in (o :: done, failed, log)
      else ([], true, log)
  end.

(** Rows whose payload went to object storage. *)
Definition isLarge (s : store) (o : Z) : bool :=
  match outbox s !! o with
  | Some r => bool_decide (MaxPayload < Z.of_nat (String.length (r_Payload (o_row r))))
  | None => false
  end.

Record world := MkWorld { w_store : store; w_log : list Z }.

(** [Forwarder.partition]: how many rows it published, and whether it failed. *)
Definition partition (accepts : nat → Z → bool) (asked : Z) (f : Forwarder) (sp : streamPart) (w : world)
  : nat * bool * Forwarder * world :=
  let '(held, f, s) := lease asked f sp (w_store w) in
  if negb held then (O, false, f, MkWorld s (w_log w))
  else
    match takeBatch sp (f_Batch f) s with
    | Err _ => (O, true, f, MkWorld s (w_log w))
    | Ok (rows, s) =>
        let '(done, failed, log) := publishAll accepts rows (w_log w) in
        let s := match done with [] => s | _ => markPublished done (filter (λ o, isLarge s o) done) s end in
        (List.length done, failed, f, MkWorld s log)
    end.

(** One round of [Forwarder.forward] over the parts; answers the parts whose batch was full. *)
Fixpoint round (accepts : nat → Z → bool) (asked : Z) (f : Forwarder) (parts : list streamPart) (w : world)
  : nat * bool * list streamPart * Forwarder * world :=
  match parts with
  | [] => (O, false, [], f, w)
  | sp :: parts =>
      let '(n, failed, f, w) := partition accepts asked f sp w in
      let '(n', failed', full, f, w) := round accepts asked f parts w in
      ((n + n')%nat, failed || failed',
       if negb failed && bool_decide (n = f_Batch f) then sp :: full else full, f, w)
  end.

(** [Forwarder.forward]: rounds until no batch was full; [fuel] bounds the rounds. *)
Fixpoint forward (fuel : nat) (accepts : nat → Z → bool) (asked : Z) (f : Forwarder) (parts : list streamPart) (w : world)
  : option (nat * bool * Forwarder * world) :=
  match parts with
  | [] => Some (O, false, f, w)
  | _ =>
      match fuel with
      | O => None
      | S fuel =>
          let '(n, failed, full, f, w) := round accepts asked f parts w in
          match forward fuel accepts asked f full w with
          | None => None
          | Some (n', failed', f, w) => Some ((n + n')%nat, failed || failed', f, w)
          end
      end
  end.

(** [Forwarder.pending]: the parts that have rows to number or to publish. *)
Definition hasRows (s : store) (sp : streamPart) : bool :=
  existsb (λ '(_, r), bool_decide (partOf r = sp) && (bool_decide (o_pos r = None) || bool_decide (o_published r = None)))
    (map_to_list (outbox s)).
Definition pending (s : store) (parts : list streamPart) : list streamPart := filter (λ sp, hasRows s sp) parts.

(** [Forwarder.Once]. *)
Definition Once (fuel : nat) (accepts : nat → Z → bool) (asked : Z) (f : Forwarder) (parts : list streamPart) (w : world) :=
  forward fuel accepts asked f (pending (w_store w) parts) w.
