(* ===== verification/EventsSys.v ===== *)
(** * Events: the life of an outbox

    The system of the outbox's transactions and forwarders, its steps, and the invariant of
    the positions it gives: each row is numbered once, the positions of a partition grow
    with no gap in an epoch, and never go back over a failover. *)
From S2P Require Import Prelude GoStr EventsStream EventsEnvelope EventsOutbox.
From Stdlib Require Import Ascii String.
Open Scope string_scope.
Open Scope Z_scope.
Open Scope list_scope.

(** ** The system *)

(** A numbering: the partition, the position and the row. *)
Definition numbering : Type := streamPart * Point * Z.

Record sys := MkSys {
  y_db : store;
  y_next : Z;                                       (** the sequence of [ord] *)
  y_open : list (nat * (Z * Row));                  (** rows of open transactions *)
  y_work : gmap nat (list (Z * Point) * list Z);    (** a forwarder's rows in hand and rows published *)
  y_log : list Z;                                   (** the rows the transport accepted *)
  y_numbered : list numbering;                      (** every numbering, in order *)
  y_top : Epoch }.                                  (** the highest epoch of the database *)

(** The numberings [numberIn] makes. *)
Definition startSeq (c : Counter) (now : Epoch) : Z := if epochChanged c now then 0 else c_last c.
Definition newly (s : store) (sp : streamPart) (batch : nat) : list numbering :=
  match dbEpoch s with
  | Some now => map (λ '(o, p), (sp, p, o)) (assign now (startSeq (counterOf s sp) now) (picked s sp batch))
  | None => []
  end.

Definition ofTx (k : nat) (l : list (nat * (Z * Row))) : list (Z * Row) := map snd (filter (λ x, x.1 = k) l).
Definition others (k : nat) (l : list (nat * (Z * Row))) : list (nat * (Z * Row)) := filter (λ x, x.1 ≠ k) l.
Definition fresh (r : Row) : orow := MkORow r None None false.
Definition committed (l : list (Z * Row)) : gmap Z orow := fresh <$> (list_to_map l : gmap Z Row).

Definition with_db (s : store) (y : sys) : sys :=
  MkSys s (y_next y) (y_open y) (y_work y) (y_log y) (y_numbered y) (y_top y).
Definition with_work (wk : gmap nat (list (Z * Point) * list Z)) (y : sys) : sys :=
  MkSys (y_db y) (y_next y) (y_open y) wk (y_log y) (y_numbered y) (y_top y).

Section steps.
Context `{Codec} (p : Producer).

Inductive step : sys → sys → Prop :=
| step_emit y k em stream ev row :
    Emit p em stream ev = Ok row →
    step y (MkSys (y_db y) (y_next y + 1) (y_open y ++ [(k, (y_next y, row))]) (y_work y) (y_log y) (y_numbered y) (y_top y))
| step_commit y k :
    step y (MkSys (set_outbox (λ m, m ∪ committed (ofTx k (y_open y))) (y_db y)) (y_next y) (others k (y_open y))
              (y_work y) (y_log y) (y_numbered y) (y_top y))
| step_rollback y k :
    step y (MkSys (y_db y) (y_next y) (others k (y_open y)) (y_work y) (y_log y) (y_numbered y) (y_top y))
| step_number y sp batch n s :
    numberIn sp batch (y_db y) = Ok (n, s) →
    step y (MkSys s (y_next y) (y_open y) (y_work y) (y_log y) (y_numbered y ++ newly (y_db y) sp batch) (y_top y))
| step_read y w sp batch :
    y_work y !! w = None → step y (with_work (<[w := (unpublishedIn (y_db y) sp batch, [])]> (y_work y)) y)
| step_publish y w o pt rows done :
    y_work y !! w = Some ((o, pt) :: rows, done) →
    step y (MkSys (y_db y) (y_next y) (y_open y) (<[w := (rows, done ++ [o])]> (y_work y)) (y_log y ++ [o]) (y_numbered y) (y_top y))
| step_mark y w rows done claimed :
    y_work y !! w = Some (rows, done) →
    step y (with_work (delete w (y_work y)) (with_db (markPublished done claimed (y_db y)) y))
| step_die y w : step y (with_work (delete w (y_work y)) y)
| step_lease y sp owner d c :
    leaseRow owner d (dbNow (y_db y)) (counterOf (set_counters (ensureCounter sp) (y_db y)) sp) = Some c →
    step y (with_db (set_counters (λ m, <[sp := c]> (ensureCounter sp m)) (y_db y)) y)
| step_release y owner : step y (with_db (set_counters (fmap (releaseRow owner)) (y_db y)) y)
| step_purge y retention ords : step y (with_db (purgeBatch retention ords (y_db y)) y)
| step_tick y d :
    0 ≤ d → step y (with_db (MkStore (outbox (y_db y)) (counters (y_db y)) (history (y_db y)) (dbEpoch (y_db y)) (dbNow (y_db y) + d)) y)
| step_standby y :
    step y (with_db (MkStore (outbox (y_db y)) (counters (y_db y)) (history (y_db y)) None (dbNow (y_db y))) y)
| step_epoch y e :
    epochLess e (y_top y) = false →
    step y (MkSys (MkStore (outbox (y_db y)) (counters (y_db y)) (history (y_db y)) (Some e) (dbNow (y_db y)))
              (y_next y) (y_open y) (y_work y) (y_log y) (y_numbered y) e).

Definition initial (e : Epoch) : sys :=
  MkSys (MkStore ∅ ∅ [] (Some e) 0) 0 [] ∅ [] [] e.
Definition reachable (y : sys) : Prop := ∃ e, rtc step (initial e) y.

End steps.

(** ** What the transactions do *)

Lemma counterOf_ensure s sp : counterOf (set_counters (ensureCounter sp) s) sp = counterOf s sp.
Proof.
  unfold counterOf, ensureCounter. cbn. destruct (counters s !! sp) eqn:Hc; [by rewrite Hc|]. by rewrite lookup_insert_eq.
Qed.

Definition forkOf (sp : streamPart) (c : Counter) (now : Epoch) : list fork :=
  match c_epoch c with
  | Some old => if epochChanged c now then [MkFork sp old (c_last c) now] else []
  | None => []
  end.
Definition numberedCounter (c : Counter) (now : Epoch) (n : nat) : Counter :=
  MkCounter (startSeq c now + Z.of_nat n) (Some now) (c_owner c) (c_until c) (c_purged c).

Lemma numberIn_spec s sp batch n s' :
  numberIn sp batch s = Ok (n, s') →
  ∃ now, dbEpoch s = Some now ∧
    let l := assign now (startSeq (counterOf s sp) now) (picked s sp batch) in
    n = List.length l ∧
    s' = MkStore (place l (outbox s)) (<[sp := numberedCounter (counterOf s sp) now n]> (ensureCounter sp (counters s)))
           (history s ++ forkOf sp (counterOf s sp) now) (dbEpoch s) (dbNow s).
Proof.
  unfold numberIn. rewrite tbind_mod, tbind_get, counterOf_ensure. cbn [dbEpoch set_counters].
  destruct (dbEpoch s) as [now|] eqn:Hd; [|done]. intros Hr. exists now. split; [done|]. rewrite <- Hd.
  set (c := counterOf s sp) in *. unfold forkOf, numberedCounter. fold (startSeq c now) in Hr.
  destruct (c_epoch c) as [old|]; [destruct (epochChanged c now)|]; inv_tx; cbn in *;
    rewrite ?app_nil_r; split; reflexivity.
Qed.

(** ** What numbering does *)

Lemma assign_lookup now last ords i :
  assign now last ords !! i = (λ o, (o, MkPoint now (last + Z.of_nat i + 1))) <$> ords !! i.
Proof.
  revert last i. induction ords as [|o ords IH]; intros last i; [done|]. destruct i as [|i]; cbn.
  - do 3 f_equal. lia.
  - rewrite IH. destruct (ords !! i); [|done]. cbn. do 3 f_equal. lia.
Qed.
Lemma assign_fst now last ords : map fst (assign now last ords) = ords.
Proof. revert last. induction ords as [|o ords IH]; intros last; [done|]. cbn. by rewrite IH. Qed.
Lemma assign_length now last ords : List.length (assign now last ords) = List.length ords.
Proof. by rewrite <- (length_map fst), assign_fst. Qed.

Lemma place_lookup l m o :
  NoDup (map fst l) →
  place l m !! o = match (list_to_map l : gmap Z Point) !! o with Some p => setPos p <$> m !! o | None => m !! o end.
Proof.
  induction l as [|[o' p] l IH]; intros Hn; [done|]. cbn in Hn. apply NoDup_cons in Hn as [Ho' Hn].
  cbn [place foldr list_to_map]. fold (place l m). cbn.
  destruct (decide (o' = o)) as [->|Hne].
  - rewrite lookup_alter_eq, lookup_insert_eq, (IH Hn). rewrite (not_elem_of_list_to_map_1 l o); [done|]. done.
  - rewrite lookup_alter_ne, lookup_insert_ne by done. by apply IH.
Qed.

Lemma unnumbered_elem s sp o : o ∈ unnumbered s sp ↔ ∃ r, outbox s !! o = Some r ∧ partOf r = sp ∧ o_pos r = None.
Proof.
  unfold unnumbered. rewrite list_elem_of_fmap. split.
  - intros ([o' r] & -> & Hf). apply list_elem_of_filter in Hf as [Hp Hm]. apply elem_of_map_to_list in Hm. eauto.
  - intros (r & Hr & Hp). exists (o, r). split; [done|]. apply list_elem_of_filter. by rewrite elem_of_map_to_list.
Qed.
Lemma unnumbered_NoDup s sp : NoDup (unnumbered s sp).
Proof. eapply sublist_NoDup; [apply (NoDup_fst_map_to_list (outbox s))|]. apply fmap_sublist, sublist_filter. Qed.

Lemma picked_elem s sp batch o :
  o ∈ picked s sp batch → ∃ r, outbox s !! o = Some r ∧ partOf r = sp ∧ o_pos r = None.
Proof. intros Ho%firsts_elem. by apply unnumbered_elem. Qed.
Lemma picked_NoDup s sp batch : NoDup (picked s sp batch).
Proof. apply firsts_NoDup, unnumbered_NoDup. Qed.

Lemma newly_lookup s sp batch now i :
  dbEpoch s = Some now →
  newly s sp batch !! i =
  (λ o, (sp, MkPoint now (startSeq (counterOf s sp) now + Z.of_nat i + 1), o)) <$> picked s sp batch !! i.
Proof.
  intros Hd. unfold newly. rewrite Hd, list_lookup_fmap, assign_lookup. by destruct (picked s sp batch !! i).
Qed.
Lemma newly_elem s sp batch now sp' p o :
  dbEpoch s = Some now →
  (sp', p, o) ∈ newly s sp batch ↔
  sp' = sp ∧ ∃ i, picked s sp batch !! i = Some o ∧ p = MkPoint now (startSeq (counterOf s sp) now + Z.of_nat i + 1).
Proof.
  intros Hd. rewrite list_elem_of_lookup. setoid_rewrite (newly_lookup s sp batch now _ Hd). split.
  - intros [i Hi]. apply fmap_Some in Hi as (o' & Ho' & [= -> -> ->]). eauto.
  - intros (-> & i & Hi & ->). exists i. by rewrite Hi.
Qed.
Lemma newly_ords s sp batch now : dbEpoch s = Some now → map snd (newly s sp batch) = picked s sp batch.
Proof.
  intros Hd. unfold newly. rewrite Hd, map_map.
  rewrite <- (assign_fst now (startSeq (counterOf s sp) now) (picked s sp batch)) at 2. apply map_ext. by intros [].
Qed.

(** A row after numbering. *)
Lemma number_row s sp batch now o r' :
  dbEpoch s = Some now →
  place (assign now (startSeq (counterOf s sp) now) (picked s sp batch)) (outbox s) !! o = Some r' ↔
  (∃ r p, outbox s !! o = Some r ∧ partOf r = sp ∧ o_pos r = None ∧ (sp, p, o) ∈ newly s sp batch ∧ r' = setPos p r) ∨
  (outbox s !! o = Some r' ∧ o ∉ picked s sp batch).
Proof.
  intros Hd. rewrite place_lookup by (rewrite assign_fst; apply picked_NoDup).
  set (l := assign now _ _). destruct ((list_to_map l : gmap Z Point) !! o) as [p|] eqn:Hl.
  - apply elem_of_list_to_map_2 in Hl. assert (Ho : o ∈ picked s sp batch).
    { rewrite <- (assign_fst now (startSeq (counterOf s sp) now) (picked s sp batch)). apply list_elem_of_fmap. by exists (o, p). }
    destruct (picked_elem _ _ _ _ Ho) as (r & Hr & Hp & Hnone). rewrite Hr. cbn.
    assert (Hnew : (sp, p, o) ∈ newly s sp batch).
    { unfold newly. rewrite Hd. apply list_elem_of_fmap. by exists (o, p). }
    split; [intros [= <-]; left; eauto 10|]. intros [(r0 & p0 & [= <-] & _ & _ & Hin & ->)|[_ []]]; [|done].
    apply (newly_elem _ _ _ _ _ _ _ Hd) in Hin as (_ & i & Hi & ->), Hnew as (_ & j & Hj & ->).
    by rewrite (NoDup_lookup _ _ _ _ (picked_NoDup s sp batch) Hi Hj).
  - apply not_elem_of_list_to_map_2 in Hl. change (fst <$> l) with (map fst l) in Hl. unfold l in Hl.
    rewrite assign_fst in Hl. split; [by right|]. intros [(r0 & p0 & _ & _ & _ & Hin & _)|[Hr _]]; [|done].
    apply (newly_elem _ _ _ _ _ _ _ Hd) in Hin as (_ & i & Hi & _). by apply list_elem_of_lookup_2 in Hi.
Qed.

(** ** The invariant of the positions *)

Record posInv (y : sys) : Prop := {
  pi_next : ∀ o r, outbox (y_db y) !! o = Some r → o < y_next y;
  pi_open : ∀ k o r, (k, (o, r)) ∈ y_open y → o < y_next y ∧ outbox (y_db y) !! o = None ∧ o ∉ map snd (y_numbered y);
  pi_open_once : NoDup (map (λ x, x.2.1) (y_open y));
  pi_numbered : ∀ sp p o, (sp, p, o) ∈ y_numbered y → o < y_next y;
  pi_once : NoDup (map snd (y_numbered y));
  pi_row : ∀ o r, outbox (y_db y) !! o = Some r →
    (∀ p, o_pos r = Some p → (partOf r, p, o) ∈ y_numbered y) ∧
    (∀ sp p, (sp, p, o) ∈ y_numbered y → sp = partOf r ∧ o_pos r = Some p);
  pi_db : ∀ e, dbEpoch (y_db y) = Some e → e = y_top y;
  pi_counter : ∀ sp c, counters (y_db y) !! sp = Some c → 0 ≤ c_last c ∧
    ∀ e, c_epoch c = Some e → epochLess (y_top y) e = false ∧ ∀ q, 1 ≤ q ≤ c_last c → ∃ o, (sp, MkPoint e q, o) ∈ y_numbered y;
  pi_bound : ∀ sp p o, (sp, p, o) ∈ y_numbered y →
    1 ≤ pt_Seq p ∧ ∃ c e, counters (y_db y) !! sp = Some c ∧ c_epoch c = Some e ∧ pointLe p (MkPoint e (c_last c));
  pi_sorted : ∀ i j sp p p' o o', (i < j)%nat → y_numbered y !! i = Some (sp, p, o) → y_numbered y !! j = Some (sp, p', o') →
    pointLess p p' = true;
  pi_dense : ∀ sp p o q, (sp, p, o) ∈ y_numbered y → 1 ≤ q < pt_Seq p → ∃ o', (sp, MkPoint (pt_Epoch p) q, o') ∈ y_numbered y;
  pi_forks : ∀ f, f ∈ history (y_db y) →
    (∃ c e, counters (y_db y) !! fk_part f = Some c ∧ c_epoch c = Some e ∧ epochLess (fk_old f) e = true) ∧
    (∀ q, 1 ≤ q ≤ fk_seq f → ∃ o, (fk_part f, MkPoint (fk_old f) q, o) ∈ y_numbered y) ∧
    (∀ p o, (fk_part f, p, o) ∈ y_numbered y → pt_Epoch p = fk_old f → pt_Seq p ≤ fk_seq f) }.

(** The counters are the same but for leases and purges. *)
Definition sameCounters (m m' : gmap streamPart Counter) : Prop :=
  (∀ sp c', m' !! sp = Some c' →
     (∃ c, m !! sp = Some c ∧ c_last c' = c_last c ∧ c_epoch c' = c_epoch c) ∨ (c_last c' = 0 ∧ c_epoch c' = None)) ∧
  (∀ sp c, m !! sp = Some c → ∃ c', m' !! sp = Some c' ∧ c_last c' = c_last c ∧ c_epoch c' = c_epoch c).

Lemma sameCounters_refl m : sameCounters m m.
Proof. split; intros sp c Hc; eauto. Qed.

Lemma epochLess_irrefl e : epochLess e e = false.
Proof. apply not_true_is_false. rewrite epochLess_spec. lia. Qed.
Lemma epochLess_trans a b c : epochLess a b = false → epochLess b c = false → epochLess a c = false.
Proof. rewrite <- !not_true_iff_false, !epochLess_spec. lia. Qed.

(** Steps that number nothing and insert nothing. *)
Lemma pos_keep y y' :
  posInv y → y_numbered y' = y_numbered y → epochLess (y_top y') (y_top y) = false → y_next y' = y_next y →
  y_open y' = y_open y → history (y_db y') = history (y_db y) → (∀ e, dbEpoch (y_db y') = Some e → e = y_top y') →
  sameCounters (counters (y_db y)) (counters (y_db y')) →
  (∀ o r', outbox (y_db y') !! o = Some r' → ∃ r, outbox (y_db y) !! o = Some r ∧ o_row r' = o_row r ∧ o_pos r' = o_pos r) →
  posInv y'.
Proof.
  intros I Hn Ht Hnext Ho Hh Hd [Hc1 Hc2] Hrow.
  assert (Hnone : ∀ o, outbox (y_db y) !! o = None → outbox (y_db y') !! o = None).
  { intros o Hno. destruct (outbox (y_db y') !! o) as [r'|] eqn:Hr; [|done]. apply Hrow in Hr as (r & Hr & _). congruence. }
  split; rewrite ?Hn, ?Hnext, ?Ho, ?Hh.
  - intros o r' (r & Hr & _)%Hrow. by eapply (pi_next _ I).
  - intros k o r (? & ? & ?)%(pi_open _ I). auto.
  - apply (pi_open_once _ I).
  - apply (pi_numbered _ I).
  - apply (pi_once _ I).
  - intros o r' (r & Hr & Hrr & Hp)%Hrow. unfold partOf. rewrite Hrr, Hp. by apply (pi_row _ I).
  - done.
  - intros sp c' Hc'. destruct (Hc1 _ _ Hc') as [(c & Hc & -> & ->)|[-> ->]]; [|done].
    destruct (pi_counter _ I _ _ Hc) as [H0 He]. split; [done|]. intros e Hce. destruct (He e Hce) as [Hl Hq].
    split; [by eapply epochLess_trans|done].
  - intros sp p o Hin. destruct (pi_bound _ I _ _ _ Hin) as (H1 & c & e & Hc & He & Hle). split; [done|].
    destruct (Hc2 _ _ Hc) as (c' & Hc' & Hl & He'). exists c', e. by rewrite Hl, He'.
  - apply (pi_sorted _ I).
  - apply (pi_dense _ I).
  - intros f Hf. destruct (pi_forks _ I f Hf) as ((c & e & Hc & He & Hl) & Hq). split; [|done].
    destruct (Hc2 _ _ Hc) as (c' & Hc' & _ & He'). exists c', e. by rewrite He'.
Qed.

Lemma sameCounters_ensure sp m c c' :
  default newCounter (m !! sp) = c → c_last c' = c_last c → c_epoch c' = c_epoch c →
  sameCounters m (<[sp := c']> (ensureCounter sp m)).
Proof.
  intros Hd Hl He. unfold ensureCounter. split; intros sp' c1.
  - destruct (decide (sp' = sp)) as [->|Hne].
    + rewrite lookup_insert_eq. intros [= <-]. destruct (m !! sp) as [c0|]; cbn in Hd; subst; eauto.
    + destruct (m !! sp); rewrite ?lookup_insert_ne by done; intros; left; eauto.
  - intros Hc1. destruct (decide (sp' = sp)) as [->|Hne].
    + exists c'. rewrite lookup_insert_eq. rewrite Hc1 in Hd. cbn in Hd. by subst.
    + exists c1. destruct (m !! sp); rewrite ?lookup_insert_ne by done; done.
Qed.

Lemma sameCounters_map (f : streamPart → Counter → Counter) m :
  (∀ sp c, c_last (f sp c) = c_last c ∧ c_epoch (f sp c) = c_epoch c) →
  sameCounters m (map_imap (λ sp c, Some (f sp c)) m).
Proof.
  intros Hf. split; intros sp c Hc.
  - rewrite map_lookup_imap in Hc. destruct (m !! sp) as [c0|]; [|done]. injection Hc as <-. left. exists c0.
    split; [done|apply Hf].
  - exists (f sp c). rewrite map_lookup_imap, Hc. split; [done|apply Hf].
Qed.

Lemma sameCounters_fmap (f : Counter → Counter) m :
  (∀ c, c_last (f c) = c_last c ∧ c_epoch (f c) = c_epoch c) → sameCounters m (f <$> m).
Proof.
  intros Hf. split; intros sp c Hc.
  - apply lookup_fmap_Some in Hc as (c0 & <- & Hc). left. exists c0. split; [done|apply Hf].
  - exists (f c). rewrite lookup_fmap, Hc. split; [done|apply Hf].
Qed.

Lemma leaseRow_same owner d now c c' : leaseRow owner d now c = Some c' → c_last c' = c_last c ∧ c_epoch c' = c_epoch c.
Proof. unfold leaseRow. destruct (_ || _); [|done]. by intros [= <-]. Qed.

Lemma pos_emit y k row :
  posInv y →
  posInv (MkSys (y_db y) (y_next y + 1) (y_open y ++ [(k, (y_next y, row))]) (y_work y) (y_log y) (y_numbered y) (y_top y)).
Proof.
  intros I. split; cbn [y_db y_next y_open y_numbered y_top];
    try solve [apply I].
  - intros o r Hr. pose proof (pi_next _ I _ _ Hr). lia.
  - intros k' o r. rewrite elem_of_app, list_elem_of_singleton. intros [Hin|[= -> -> ->]].
    + destruct (pi_open _ I _ _ _ Hin) as (? & ? & ?). split; [lia|done].
    + split; [lia|]. split.
      * destruct (outbox (y_db y) !! y_next y) eqn:Hr; [|done]. pose proof (pi_next _ I _ _ Hr). lia.
      * intros Hin. apply list_elem_of_fmap in Hin as ([[sp p] o] & Ho & Hin). cbn in Ho. subst o.
        pose proof (pi_numbered _ I _ _ _ Hin). lia.
  - rewrite map_app. apply NoDup_app. split; [apply (pi_open_once _ I)|]. split; [|apply NoDup_singleton].
    intros o Hin ->%list_elem_of_singleton. apply list_elem_of_fmap in Hin as ([k' [o r]] & Ho & Hin). cbn in Ho. subst o.
    destruct (pi_open _ I _ _ _ Hin). lia.
  - intros sp p o Hin. pose proof (pi_numbered _ I _ _ _ Hin). lia.
Qed.

Lemma others_sub k l x : x ∈ others k l → x ∈ l.
Proof. by intros [_ ?]%list_elem_of_filter. Qed.
Lemma others_NoDup {B} (f : nat * (Z * Row) → B) k l : NoDup (map f l) → NoDup (map f (others k l)).
Proof. intros Hn. eapply sublist_NoDup; [exact Hn|]. apply fmap_sublist, sublist_filter. Qed.

Lemma pos_rollback y k :
  posInv y →
  posInv (MkSys (y_db y) (y_next y) (others k (y_open y)) (y_work y) (y_log y) (y_numbered y) (y_top y)).
Proof.
  intros I. split; cbn [y_db y_next y_open y_numbered y_top]; try solve [apply I].
  - intros k' o r Hin%others_sub. by apply (pi_open _ I _ _ _ Hin).
  - apply others_NoDup, I.
Qed.

Lemma committed_lookup k l o r' :
  NoDup (map (λ x, x.2.1) l) → committed (ofTx k l) !! o = Some r' ↔ ∃ r, (k, (o, r)) ∈ l ∧ r' = fresh r.
Proof.
  intros Hn. unfold committed. rewrite lookup_fmap_Some.
  assert (Hn2 : NoDup (ofTx k l).*1).
  { unfold ofTx. change (NoDup (map fst (map snd (filter (λ x, x.1 = k) l)))). rewrite map_map.
    eapply sublist_NoDup; [exact Hn|]. apply fmap_sublist, sublist_filter. }
  setoid_rewrite <- (elem_of_list_to_map _ o _ Hn2). unfold ofTx. split.
  - intros (r & <- & Hin). apply list_elem_of_fmap in Hin as ([k' [o' r0]] & [= <- <-] & Hin).
    apply list_elem_of_filter in Hin as [Hk Hin]. cbn in Hk. subst. eauto.
  - intros (r & Hin & ->). exists r. split; [done|]. apply list_elem_of_fmap. exists (k, (o, r)). split; [done|].
    by apply list_elem_of_filter.
Qed.

Lemma pos_commit y k :
  posInv y →
  posInv (MkSys (set_outbox (λ m, m ∪ committed (ofTx k (y_open y))) (y_db y)) (y_next y) (others k (y_open y))
            (y_work y) (y_log y) (y_numbered y) (y_top y)).
Proof.
  intros I. pose proof (λ o r', committed_lookup k (y_open y) o r' (pi_open_once _ I)) as Hcm.
  split; cbn [y_db y_next y_open y_numbered y_top set_outbox outbox counters history dbEpoch]; try solve [apply I].
  - intros o r' [Hr|[Hn Hr]]%lookup_union_Some_raw; [by eapply (pi_next _ I)|].
    apply Hcm in Hr as (r & Hin & _). by apply (pi_open _ I) in Hin as [? _].
  - intros k' o r Hin. destruct (pi_open _ I _ _ _ (others_sub _ _ _ Hin)) as (? & Hno & ?). split; [done|]. split; [|done].
    apply lookup_union_None. split; [done|]. destruct (committed _ !! o) as [r'|] eqn:Hr; [|done].
    apply Hcm in Hr as (r2 & Hin2 & _). apply list_elem_of_filter in Hin as [Hk Hin]. cbn in Hk.
    apply list_elem_of_lookup in Hin as [i Hi], Hin2 as [j Hj].
    assert (i = j) as ->; [|congruence].
    eapply (NoDup_lookup _ i j o (pi_open_once _ I)); rewrite list_lookup_fmap; [by rewrite Hi|by rewrite Hj].
  - apply others_NoDup, I.
  - intros o r' [Hr|[Hn Hr]]%lookup_union_Some_raw; [by apply (pi_row _ I)|].
    apply Hcm in Hr as (r & Hin & ->). split; [done|]. intros sp p Hnum. destruct (pi_open _ I _ _ _ Hin) as (_ & _ & []).
    apply list_elem_of_fmap. by exists (sp, p, o).
Qed.

Lemma pointLe_lt p a b : pointLe p a → pointLess a b = true → pointLess p b = true.
Proof.
  unfold pointLe. intros Hle Hlt. destruct (pointLess p a) eqn:Hp; [by eapply pointLess_trans|].
  by rewrite (pointLess_total p a Hp Hle).
Qed.
Lemma pointLe_refl p : pointLe p p.
Proof. apply pointLess_irrefl. Qed.
Lemma pointLt_le p q : pointLess p q = true → pointLe p q.
Proof. apply pointLess_asym. Qed.

Lemma epochChanged_spec c now : epochChanged c now = false ↔ c_epoch c = Some now.
Proof. unfold epochChanged. rewrite bool_decide_eq_false. split; [apply dec_stable|naive_solver]. Qed.

(** The epoch of a counter is not after the database's. *)
Lemma counter_epoch y sp c e now :
  posInv y → dbEpoch (y_db y) = Some now → counters (y_db y) !! sp = Some c → c_epoch c = Some e →
  e = now ∨ epochLess e now = true.
Proof.
  intros I Hd Hc He. destruct (pi_counter _ I _ _ Hc) as [_ Hce]. destruct (Hce e He) as [Hl _].
  rewrite <- (pi_db _ I _ Hd) in Hl. rewrite <- not_true_iff_false, epochLess_spec in Hl.
  destruct (decide (e = now)) as [|Hne]; [by left|right]. apply epochLess_spec.
  destruct (decide (Generation e = Generation now)); [|lia].
  destruct (decide (Timeline e = Timeline now)); [|lia]. by destruct Hne; apply epoch_eq.
Qed.

(** New positions come after every position the partition has. *)
Lemma new_later y sp now p o q :
  posInv y → dbEpoch (y_db y) = Some now → (sp, p, o) ∈ y_numbered y → startSeq (counterOf (y_db y) sp) now < q →
  pointLess p (MkPoint now q) = true.
Proof.
  intros I Hd Hin Hq. destruct (pi_bound _ I _ _ _ Hin) as (_ & c & e & Hc & He & Hle).
  assert (Hco : counterOf (y_db y) sp = c) by (unfold counterOf; by rewrite Hc). rewrite Hco in Hq.
  eapply pointLe_lt; [exact Hle|]. apply pointLess_spec. cbn. unfold startSeq in Hq.
  destruct (epochChanged c now) eqn:Hch.
  - left. destruct (counter_epoch y sp c e now I Hd Hc He) as [->|]; [|done].
    apply epochChanged_spec in He. congruence.
  - right. apply epochChanged_spec in Hch. split; [congruence|lia].
Qed.

(** What was numbered up to the start of the new ones in the current epoch. *)
Lemma start_dense y sp now q :
  posInv y → 1 ≤ q ≤ startSeq (counterOf (y_db y) sp) now → ∃ o, (sp, MkPoint now q, o) ∈ y_numbered y.
Proof.
  intros I Hq. unfold startSeq in Hq. destruct (epochChanged _ now) eqn:Hch; [lia|]. apply epochChanged_spec in Hch.
  unfold counterOf in *. destruct (counters (y_db y) !! sp) as [c|] eqn:Hc; [|done]. cbn in *.
  destruct (pi_counter _ I _ _ Hc) as [_ Hce]. destruct (Hce now Hch) as [_ Hl]. by apply Hl.
Qed.

Lemma start_nonneg y sp now : posInv y → 0 ≤ startSeq (counterOf (y_db y) sp) now.
Proof.
  intros I. unfold startSeq, counterOf. destruct (epochChanged _ now); [done|].
  destruct (counters (y_db y) !! sp) as [c|] eqn:Hc; [|done]. by destruct (pi_counter _ I _ _ Hc).
Qed.

Section number.
Variables (y : sys) (sp : streamPart) (batch : nat) (now : Epoch).
Hypothesis I : posInv y.
Hypothesis Hd : dbEpoch (y_db y) = Some now.
#[local] Abbreviation nums := (y_numbered y ++ newly (y_db y) sp batch).
#[local] Abbreviation c0 := (counterOf (y_db y) sp).
#[local] Abbreviation start := (startSeq c0 now).
#[local] Abbreviation ords := (picked (y_db y) sp batch).
#[local] Abbreviation cs := (<[sp := numberedCounter c0 now (List.length ords)]> (ensureCounter sp (counters (y_db y)))).

Lemma nums_elem sp' p o : (sp', p, o) ∈ nums ↔
  (sp', p, o) ∈ y_numbered y ∨ (sp' = sp ∧ ∃ i, ords !! i = Some o ∧ p = MkPoint now (start + Z.of_nat i + 1)).
Proof. by rewrite elem_of_app, (newly_elem _ _ _ _ _ _ _ Hd). Qed.

Lemma not_numbered_yet o : o ∈ ords → o ∉ map snd (y_numbered y).
Proof.
  intros Ho Hin. apply list_elem_of_fmap in Hin as ([[sp' p] o'] & Heq & Hin). cbn in Heq. subst o'.
  destruct (picked_elem _ _ _ _ Ho) as (r & Hr & _ & Hn). destruct (pi_row _ I _ _ Hr) as [_ Hrow].
  destruct (Hrow _ _ Hin). congruence.
Qed.

Lemma cs_lookup sp' c' : cs !! sp' = Some c' ↔
  (sp' = sp ∧ c' = numberedCounter c0 now (List.length ords)) ∨ (sp' ≠ sp ∧ counters (y_db y) !! sp' = Some c').
Proof.
  unfold ensureCounter. destruct (decide (sp' = sp)) as [->|Hne].
  - rewrite lookup_insert_eq. naive_solver.
  - destruct (counters (y_db y) !! sp); rewrite ?lookup_insert_ne by done; naive_solver.
Qed.

Lemma number_sorted i j sp' p p' o o' :
  (i < j)%nat → nums !! i = Some (sp', p, o) → nums !! j = Some (sp', p', o') → pointLess p p' = true.
Proof.
  intros Hij Hi Hj. apply lookup_app_Some in Hi as [Hi|[Hli Hi]], Hj as [Hj|[Hlj Hj]].
  - by eapply (pi_sorted _ I i j).
  - rewrite (newly_lookup _ _ _ _ _ Hd) in Hj. apply fmap_Some in Hj as (o2 & _ & [= -> -> ->]).
    eapply (new_later y sp now p o); [done..|by eapply list_elem_of_lookup_2|lia].
  - apply lookup_lt_Some in Hj. lia.
  - rewrite (newly_lookup _ _ _ _ _ Hd) in Hi. rewrite (newly_lookup _ _ _ _ _ Hd) in Hj.
    apply fmap_Some in Hi as (o1 & _ & [= -> -> ->]), Hj as (o2 & _ & [= -> ->]).
    apply pointLess_spec. cbn. right. split; [done|lia].
Qed.

Lemma number_dense sp' e q o :
  (sp', MkPoint e q, o) ∈ nums → ∀ q', 1 ≤ q' < q → ∃ o', (sp', MkPoint e q', o') ∈ nums.
Proof.
  intros Hin q' Hq'. apply nums_elem in Hin as [Hin|(-> & i & Hi & [= -> ->])].
  - destruct (pi_dense _ I _ _ _ q' Hin Hq') as [o' Ho']. exists o'. apply nums_elem. by left.
  - destruct (decide (q' ≤ start)) as [Hs|Hs].
    + destruct (start_dense y sp now q' I) as [o' Ho']; [lia|]. exists o'. apply nums_elem. by left.
    + assert (Hj : (Z.to_nat (q' - start - 1) < List.length ords)%nat) by (apply lookup_lt_Some in Hi; lia).
      apply lookup_lt_is_Some in Hj as [o' Ho']. exists o'. apply nums_elem. right. split; [done|].
      eexists. split; [exact Ho'|]. f_equal. lia.
Qed.

Lemma number_bound sp' p o :
  (sp', p, o) ∈ nums →
  1 ≤ pt_Seq p ∧ ∃ c e, cs !! sp' = Some c ∧ c_epoch c = Some e ∧ pointLe p (MkPoint e (c_last c)).
Proof.
  pose proof (start_nonneg y sp now I) as H0. intros [Hin|(-> & i & Hi & ->)]%nums_elem.
  - destruct (pi_bound _ I _ _ _ Hin) as (H1 & c & e & Hc & He & Hle). split; [done|].
    destruct (decide (sp' = sp)) as [->|Hne].
    + eexists _, now. split; [apply cs_lookup; by left|]. split; [done|]. cbn.
      destruct ords as [|o1 l] eqn:Hl.
      * cbn. rewrite Z.add_0_r. assert (Hco : c0 = c) by (unfold counterOf; by rewrite Hc).
        destruct (pointLess p (MkPoint now start)) eqn:Hlt; [by apply pointLt_le|].
        destruct (decide (start = 0)) as [H00|H00].
        -- apply pointLt_le. destruct (pointLess_spec p (MkPoint now start)) as [_ Hsp].
           pose proof (new_later y sp now p o 1 I Hd Hin ltac:(lia)) as Hn.
           apply pointLess_spec in Hn as [Hn|[He1 Hn]]; [apply Hsp; by left|]. cbn in *. lia.
        -- rewrite Hco in *. unfold startSeq in *. destruct (epochChanged c now) eqn:Hch; [done|].
           apply epochChanged_spec in Hch. congruence.
      * apply pointLt_le. eapply (new_later y sp now p o); [done..|]. cbn. lia.
    + exists c, e. split; [apply cs_lookup; by right|done].
  - split; [cbn; lia|]. eexists _, now. split; [apply cs_lookup; by left|]. split; [done|]. cbn.
    unfold pointLe. apply not_true_is_false. rewrite pointLess_spec, epochLess_spec. cbn.
    apply lookup_lt_Some in Hi. lia.
Qed.

Lemma number_forks f :
  f ∈ history (y_db y) ++ forkOf sp c0 now →
  (∃ c e, cs !! fk_part f = Some c ∧ c_epoch c = Some e ∧ epochLess (fk_old f) e = true) ∧
  (∀ q, 1 ≤ q ≤ fk_seq f → ∃ o, (fk_part f, MkPoint (fk_old f) q, o) ∈ nums) ∧
  (∀ p o, (fk_part f, p, o) ∈ nums → pt_Epoch p = fk_old f → pt_Seq p ≤ fk_seq f).
Proof.
  assert (Hnew : ∀ old p o q, epochLess old now = true → (∀ p o, (sp, p, o) ∈ y_numbered y → pt_Epoch p = old → pt_Seq p ≤ q) →
    (sp, p, o) ∈ nums → pt_Epoch p = old → pt_Seq p ≤ q).
  { intros old p o q Hl Hq [Hin|(_ & i & Hi & ->)]%nums_elem He; [by eapply Hq|]. cbn in He. subst old.
    apply epochLess_spec in Hl. lia. }
  assert (Hold : ∀ sp' p o, (sp', p, o) ∈ y_numbered y → (sp', p, o) ∈ nums) by (intros; apply nums_elem; by left).
  rewrite elem_of_app. intros [Hf|Hf].
  - destruct (pi_forks _ I f Hf) as ((c & e & Hc & He & Hl) & Hq1 & Hq2).
    assert (Hq1' : ∀ q, 1 ≤ q ≤ fk_seq f → ∃ o, (fk_part f, MkPoint (fk_old f) q, o) ∈ nums) by (intros q [o ?]%Hq1; eauto).
    destruct (decide (fk_part f = sp)) as [Hsp|Hne].
    + assert (Hln : epochLess (fk_old f) now = true).
      { destruct (counter_epoch y _ c e now I Hd Hc He) as [->|Hen]; [done|].
        rewrite epochLess_spec in *. lia. }
      split; [eexists _, now; split; [apply cs_lookup; by left|done]|]. split; [done|]. rewrite Hsp in *. eauto.
    + split; [exists c, e; split; [apply cs_lookup; by right|done]|]. split; [done|].
      intros p o [Hin|[? _]]%nums_elem; [by eapply Hq2|done].
  - unfold forkOf in Hf. destruct (c_epoch c0) as [old|] eqn:He; [|by apply elem_of_nil in Hf].
    destruct (epochChanged c0 now) eqn:Hch; [|by apply elem_of_nil in Hf]. apply list_elem_of_singleton in Hf as ->. cbn.
    assert (Hc : counters (y_db y) !! sp = Some c0).
    { unfold counterOf in *. by destruct (counters (y_db y) !! sp). }
    assert (Hln : epochLess old now = true).
    { destruct (counter_epoch y _ _ _ now I Hd Hc He) as [->|]; [|done]. apply epochChanged_spec in He. congruence. }
    split; [eexists _, now; split; [apply cs_lookup; by left|done]|]. split.
    + intros q Hq. destruct (pi_counter _ I _ _ Hc) as [_ Hce]. destruct (Hce old He) as [_ Hl].
      destruct (Hl q Hq) as [o Ho]. eauto.
    + intros p o Hin Hep. eapply (Hnew old p o); [done| |done|done]. intros p1 o1 Hin1 Hep1.
      destruct (pi_bound _ I _ _ _ Hin1) as (_ & c & e & Hc' & He' & Hle). assert (c = c0) as -> by congruence.
      assert (e = old) as -> by congruence. unfold pointLe in Hle. rewrite <- not_true_iff_false, pointLess_spec in Hle.
      destruct (decide (pt_Seq p1 ≤ c_last c0)); [done|]. destruct Hle. right. cbn. split; [done|lia].
Qed.

Lemma number_row_inv o r :
  place (assign now start ords) (outbox (y_db y)) !! o = Some r →
  (∀ p, o_pos r = Some p → (partOf r, p, o) ∈ nums) ∧ (∀ sp' p, (sp', p, o) ∈ nums → sp' = partOf r ∧ o_pos r = Some p).
Proof.
  intros [(r0 & p0 & Hr0 & Hsp & Hn & Hin & ->)|[Hr Hno]]%(number_row _ _ _ _ _ _ Hd).
  - change (partOf (setPos p0 r0)) with (partOf r0). cbn. rewrite Hsp. split.
    + intros p [= <-]. apply elem_of_app. by right.
    + intros sp' p Hin'. assert (Ho : o ∈ ords).
      { apply (newly_elem _ _ _ _ _ _ _ Hd) in Hin as (_ & i & Hi & _). by eapply list_elem_of_lookup_2. }
      apply elem_of_app in Hin' as [Hold|Hin'].
      { destruct (not_numbered_yet o Ho). apply list_elem_of_fmap. by exists (sp', p, o). }
      apply (newly_elem _ _ _ _ _ _ _ Hd) in Hin as (_ & i & Hi & ->), Hin' as (-> & j & Hj & ->).
      by rewrite (NoDup_lookup _ _ _ _ (picked_NoDup _ _ _) Hi Hj).
  - destruct (pi_row _ I _ _ Hr) as [H1 H2]. split; [intros p Hp; apply elem_of_app; left; by apply H1|].
    intros sp' p [Hin|(-> & i & Hi & _)]%nums_elem; [by apply H2|]. by apply list_elem_of_lookup_2 in Hi.
Qed.

Lemma pos_number :
  posInv (MkSys (MkStore (place (assign now start ords) (outbox (y_db y))) cs (history (y_db y) ++ forkOf sp c0 now)
                   (dbEpoch (y_db y)) (dbNow (y_db y)))
            (y_next y) (y_open y) (y_work y) (y_log y) nums (y_top y)).
Proof.
  assert (Hrow : ∀ o r, place (assign now start ords) (outbox (y_db y)) !! o = Some r → is_Some (outbox (y_db y) !! o)).
  { intros o r [(r0 & p0 & Hr0 & _)|[Hr _]]%(number_row _ _ _ _ _ _ Hd); eauto. }
  split; cbn [y_db y_next y_open y_numbered y_top outbox counters history dbEpoch]; try solve [apply I].
  - intros o r [r0 Hr]%Hrow. by apply (pi_next _ I _ _ Hr).
  - intros k o r Hin. destruct (pi_open _ I _ _ _ Hin) as (? & Hno & Hnn). split; [done|]. split.
    + destruct (place _ _ !! o) eqn:Hp; [|done]. apply Hrow in Hp as [? ?]. congruence.
    + rewrite map_app, elem_of_app. intros [?|Ho]; [done|]. rewrite (newly_ords _ _ _ _ Hd) in Ho.
      apply picked_elem in Ho as (? & ? & _). congruence.
  - intros sp' p o [Hin|(_ & i & Hi & _)]%nums_elem; [by apply (pi_numbered _ I _ _ _ Hin)|].
    apply list_elem_of_lookup_2, picked_elem in Hi as (r & Hr & _). by apply (pi_next _ I _ _ Hr).
  - rewrite map_app, (newly_ords _ _ _ _ Hd). apply NoDup_app. split; [apply I|]. split; [|apply picked_NoDup].
    intros o Ho Ho'. by apply (not_numbered_yet o Ho').
  - apply number_row_inv.
  - intros sp' c [[-> ->]|[Hne Hc]]%cs_lookup.
    + pose proof (start_nonneg y sp now I). split; [cbn; lia|]. cbn [c_epoch numberedCounter c_last]. intros e [= <-].
      rewrite <- (pi_db _ I _ Hd). split; [apply epochLess_irrefl|]. intros q Hq.
      destruct (decide (q ≤ start)) as [Hs|Hs].
      * destruct (start_dense y sp now q I) as [o Ho]; [lia|]. exists o. apply nums_elem. by left.
      * assert (Hj : (Z.to_nat (q - start - 1) < List.length ords)%nat) by lia.
        apply lookup_lt_is_Some in Hj as [o Ho]. exists o. apply nums_elem. right. split; [done|].
        eexists. split; [exact Ho|]. f_equal. lia.
    + destruct (pi_counter _ I _ _ Hc) as [H0 Hce]. split; [done|]. intros e He. destruct (Hce e He) as [Hl Hq].
      split; [done|]. intros q [o Ho]%Hq. exists o. apply nums_elem. by left.
  - apply number_bound.
  - intros i j *. apply number_sorted.
  - intros sp' [e q] o q' Hin Hq'. by eapply number_dense.
  - apply number_forks.
Qed.

End number.

(** Every step keeps the positions in order. *)
Lemma pos_step `{Codec} (p : Producer) y y' : posInv y → step p y y' → posInv y'.
Proof.
  intros I Hs. destruct Hs as [y k em stream ev row _|y k|y k|y sp batch n s Hn|y w sp batch _|y w o pt rows done _|
    y w rows done claimed _|y w|y sp owner d c Hl|y owner|y retention ords|y d _|y|y e He].
  - by apply pos_emit.
  - by apply pos_commit.
  - by apply pos_rollback.
  - apply numberIn_spec in Hn as (now & Hd & -> & ->). rewrite assign_length. by apply pos_number.
  - eapply (pos_keep y); try done; [apply epochLess_irrefl|by apply I|apply sameCounters_refl|eauto].
  - eapply (pos_keep y); try done; [apply epochLess_irrefl|by apply I|apply sameCounters_refl|eauto].
  - eapply (pos_keep y); try done; [apply epochLess_irrefl|by apply I|apply sameCounters_refl|].
    cbn. intros o r'. rewrite map_lookup_imap. destruct (outbox (y_db y) !! o) as [r|]; [|done]. cbn.
    case_bool_decide; intros [= <-]; eauto.
  - eapply (pos_keep y); try done; [apply epochLess_irrefl|by apply I|apply sameCounters_refl|eauto].
  - rewrite counterOf_ensure in Hl. apply leaseRow_same in Hl as [H1 H2].
    eapply (pos_keep y); try done; [apply epochLess_irrefl|by apply I| |eauto].
    by eapply sameCounters_ensure.
  - eapply (pos_keep y); try done; [apply epochLess_irrefl|by apply I| |eauto]. cbn.
    apply sameCounters_fmap. intros c. unfold releaseRow. by case_decide.
  - eapply (pos_keep y); try done; [apply epochLess_irrefl|by apply I| |].
    + cbn. apply sameCounters_map. intros sp c. destruct (_ !! sp); [|done]. unfold notePurged. by destruct (match _ with Some _ => _ | None => _ end).
    + cbn. intros o r' [Hr _]%lookup_difference_Some. eauto.
  - eapply (pos_keep y); try done; [apply epochLess_irrefl|by apply I|apply sameCounters_refl|eauto].
  - eapply (pos_keep y); try done; [apply epochLess_irrefl|apply sameCounters_refl|eauto].
  - eapply (pos_keep y); try done; [cbn; congruence|apply sameCounters_refl|eauto].
Qed.
