(* ===== verification/EventsOrder.v ===== *)
(** * Events: published in order, none lost

    The invariant of publishing over the system of [EventsSys], and the theorems on the
    outbox: positions without gaps, publishing in position order whatever the forwarders
    do, an order that follows the order of commits, and no row that goes before it was
    published. *)
From S2P Require Import Prelude GoStr EventsStream EventsEnvelope EventsOutbox EventsSys.
From Stdlib Require Import Ascii String.
Open Scope string_scope.
Open Scope Z_scope.
Open Scope list_scope.

(** ** Rows in position order *)

Lemma positions_elem P s sp o p :
  (o, p) ∈ positions P s sp ↔ ∃ r, outbox s !! o = Some r ∧ o_pos r = Some p ∧ partOf r = sp ∧ P r p = true.
Proof.
  unfold positions. rewrite list_elem_of_omap. split.
  - intros ([o' r] & Hin & Hr). apply elem_of_map_to_list in Hin. destruct (o_pos r) as [p'|] eqn:Hp; [|done].
    destruct (_ && _) eqn:Hb; [|done]. injection Hr as <- <-. apply andb_true_iff in Hb as [Hb HP].
    apply bool_decide_eq_true in Hb. eauto 10.
  - intros (r & Hr & Hp & Hsp & HP). exists (o, r). rewrite elem_of_map_to_list. split; [done|].
    by rewrite Hp, HP, bool_decide_eq_true_2.
Qed.

#[export] Instance rowLe_trans : Transitive rowLe.
Proof.
  intros [o1 p1] [o2 p2] [o3 p3]. unfold rowLe, pointLe. cbn. intros H1 H2. apply not_true_is_false. intros H3.
  destruct (pointLess p2 p1) eqn:H21; [done|]. destruct (pointLess p1 p2) eqn:H12.
  - by rewrite (pointLess_trans _ _ _ H3 H12) in H2.
  - rewrite (pointLess_total _ _ H12 H21) in H3. congruence.
Qed.
#[export] Instance rowLe_total : Total rowLe.
Proof.
  intros [o1 p1] [o2 p2]. unfold rowLe, pointLe. cbn. destruct (pointLess p2 p1) eqn:H21; [right|by left].
  by apply pointLess_asym.
Qed.

(** Of the rows read in position order, one before another in position is read before it. *)
Lemma read_before P s sp batch a o p b o1 p1 :
  take batch (merge_sort rowLe (positions P s sp)) = a ++ (o, p) :: b → (o1, p1) ∈ positions P s sp → pointLess p1 p = true →
  o1 ∈ map fst a.
Proof.
  intros Hl Hin Hlt. assert (Hj : take batch (merge_sort rowLe (positions P s sp)) !! List.length a = Some (o, p)).
  { by rewrite Hl, list_lookup_middle. }
  destruct (firsts_before rowLe batch _ (o1, p1) (o, p) _ Hin Hj) as (i & Hi & Hx).
  { unfold rowLe, pointLe. cbn. by rewrite Hlt. }
  rewrite Hl, lookup_app_l in Hx by done. apply list_elem_of_fmap. exists (o1, p1). split; [done|].
  by eapply list_elem_of_lookup_2.
Qed.

(** ** The invariant of publishing *)

Lemma numbered_unique y sp p sp' p' o :
  posInv y → (sp, p, o) ∈ y_numbered y → (sp', p', o) ∈ y_numbered y → sp = sp' ∧ p = p'.
Proof.
  intros I [i Hi]%list_elem_of_lookup [j Hj]%list_elem_of_lookup.
  assert (i = j) as ->; [|naive_solver].
  eapply (NoDup_lookup _ i j o (pi_once _ I)); rewrite list_lookup_fmap; [by rewrite Hi|by rewrite Hj].
Qed.

Definition inHand (y : sys) (rows : list (Z * Point)) : Prop :=
  ∀ a o p b, rows = a ++ (o, p) :: b → ∃ sp, (sp, p, o) ∈ y_numbered y ∧
    ∀ p1 o1, (sp, p1, o1) ∈ y_numbered y → pointLess p1 p = true → o1 ∈ y_log y ∨ o1 ∈ map fst a.

Record pubInv (y : sys) : Prop := {
  bi_log : ∀ o, o ∈ y_log y → ∃ sp p, (sp, p, o) ∈ y_numbered y;
  bi_pub : ∀ o r, outbox (y_db y) !! o = Some r → o_published r ≠ None → o ∈ y_log y;
  bi_gone : ∀ sp p o, (sp, p, o) ∈ y_numbered y → outbox (y_db y) !! o = None → o ∈ y_log y ∧
    ∃ c pp, counters (y_db y) !! sp = Some c ∧ c_purged c = Some pp ∧ pointLe p pp;
  bi_done : ∀ w rows done, y_work y !! w = Some (rows, done) → ∀ o, o ∈ done → o ∈ y_log y;
  bi_hand : ∀ w rows done, y_work y !! w = Some (rows, done) → inHand y rows;
  bi_order : ∀ i o sp p, y_log y !! i = Some o → (sp, p, o) ∈ y_numbered y →
    ∀ p1 o1, (sp, p1, o1) ∈ y_numbered y → pointLess p1 p = true → ∃ j, (j < i)%nat ∧ y_log y !! j = Some o1 }.

(** A counter keeps or raises its purge mark. *)
Definition keepsPurged (m m' : gmap streamPart Counter) : Prop :=
  ∀ sp c pp, m !! sp = Some c → c_purged c = Some pp → ∃ c' pp', m' !! sp = Some c' ∧ c_purged c' = Some pp' ∧ pointLe pp pp'.

Lemma keepsPurged_refl m : keepsPurged m m.
Proof. intros sp c pp Hc Hp. exists c, pp. split; [done|]. split; [done|apply pointLe_refl]. Qed.

Lemma pointLe_trans p q r : pointLe p q → pointLe q r → pointLe p r.
Proof. intros H1 H2. exact (rowLe_trans (0, p) (0, q) (0, r) H1 H2). Qed.

(** Steps that number and publish nothing. *)
Lemma pub_keep y y' :
  pubInv y → y_numbered y' = y_numbered y → y_log y' = y_log y →
  (∀ w x, y_work y' !! w = Some x → y_work y !! w = Some x ∨ inHand y x.1 ∧ x.2 = []) →
  keepsPurged (counters (y_db y)) (counters (y_db y')) →
  (∀ o r', outbox (y_db y') !! o = Some r' → o_published r' ≠ None →
     o ∈ y_log y ∨ ∃ r, outbox (y_db y) !! o = Some r ∧ o_published r ≠ None) →
  (∀ o r, outbox (y_db y) !! o = Some r → is_Some (outbox (y_db y') !! o)) → pubInv y'.
Proof.
  intros I Hn Hl Hw Hc Hp Ho. split; rewrite ?Hn, ?Hl.
  - apply (bi_log _ I).
  - intros o r' Hr Hpub. destruct (Hp _ _ Hr Hpub) as [?|(r & Hr' & ?)]; [done|]. by eapply (bi_pub _ I).
  - intros sp p o Hin Hno. destruct (bi_gone _ I _ _ _ Hin) as (Hlog & c & pp & H1 & H2 & H3).
    { destruct (outbox (y_db y) !! o) eqn:Hr; [|done]. apply Ho in Hr as [? ?]. congruence. }
    split; [done|]. destruct (Hc _ _ _ H1 H2) as (c' & pp' & H1' & H2' & H3'). exists c', pp'. eauto using pointLe_trans.
  - intros w rows done Hx. destruct (Hw _ _ Hx) as [Hx'|[_ Hd]]; [by eapply (bi_done _ I)|]. cbn in Hd. subst.
    intros o ?%elem_of_nil. done.
  - intros w rows done Hx. unfold inHand. rewrite Hn, Hl. destruct (Hw _ _ Hx) as [Hx'|[Hh _]]; [|exact Hh].
    by eapply (bi_hand _ I).
  - apply (bi_order _ I).
Qed.

Lemma read_inHand y sp batch : posInv y → pubInv y → inHand y (unpublishedIn (y_db y) sp batch).
Proof.
  intros I B a o p b Hl. exists sp.
  assert (Hin : (o, p) ∈ positions isUnpublished (y_db y) sp).
  { apply (firsts_elem rowLe batch). fold (unpublishedIn (y_db y) sp batch). rewrite Hl. set_solver. }
  apply positions_elem in Hin as (r & Hr & Hp & Hsp & _). split.
  { rewrite <- Hsp. by apply (pi_row _ I _ _ Hr). }
  intros p1 o1 Hin1 Hlt. destruct (outbox (y_db y) !! o1) as [r1|] eqn:Hr1.
  2: { left. by apply (bi_gone _ B _ _ _ Hin1). }
  destruct (o_published r1) as [t|] eqn:Hpub.
  { left. eapply (bi_pub _ B); [exact Hr1|]. by rewrite Hpub. }
  right. eapply (read_before _ _ _ _ _ _ _ _ o1 p1 Hl); [|done]. apply positions_elem.
  destruct (pi_row _ I _ _ Hr1) as [_ Hrow]. destruct (Hrow _ _ Hin1) as [-> Hp1]. exists r1.
  split; [done|]. split; [done|]. split; [done|]. unfold isUnpublished. by apply bool_decide_eq_true_2.
Qed.

Lemma pub_publish y w o pt rows done :
  posInv y → pubInv y → y_work y !! w = Some ((o, pt) :: rows, done) →
  pubInv (MkSys (y_db y) (y_next y) (y_open y) (<[w := (rows, done ++ [o])]> (y_work y)) (y_log y ++ [o]) (y_numbered y) (y_top y)).
Proof.
  intros I B Hw. destruct (bi_hand _ B _ _ _ Hw [] o pt rows eq_refl) as (sp & Hin & Hbefore).
  assert (Hmono : ∀ rows', inHand y rows' →
    ∀ a o2 p2 b, rows' = a ++ (o2, p2) :: b → ∃ sp2, (sp2, p2, o2) ∈ y_numbered y ∧
      ∀ p1 o1, (sp2, p1, o1) ∈ y_numbered y → pointLess p1 p2 = true → o1 ∈ y_log y ++ [o] ∨ o1 ∈ map fst a).
  { intros rows' Hh a o2 p2 b ->. destruct (Hh a o2 p2 b eq_refl) as (sp2 & Hin2 & Hb2). exists sp2. split; [done|].
    intros p1 o1 H1 H2. rewrite elem_of_app. destruct (Hb2 _ _ H1 H2); auto. }
  split; cbn [y_db y_log y_work y_numbered].
  - intros o2 [?|Ho]%elem_of_app; [by apply (bi_log _ B)|]. apply list_elem_of_singleton in Ho as ->. eauto.
  - intros o2 r Hr Hp. apply elem_of_app. left. by eapply (bi_pub _ B).
  - intros sp2 p2 o2 H1 H2. destruct (bi_gone _ B _ _ _ H1 H2) as [? ?]. split; [apply elem_of_app; by left|done].
  - intros w2 rows2 done2. destruct (decide (w2 = w)) as [->|Hne].
    + rewrite lookup_insert_eq. intros [= <- <-] o2. rewrite !elem_of_app. intros [?|?]; [left|by right].
      by eapply (bi_done _ B).
    + rewrite lookup_insert_ne by done. intros Hx o2 Ho2. apply elem_of_app. left. by eapply (bi_done _ B).
  - intros w2 rows2 done2. destruct (decide (w2 = w)) as [->|Hne].
    + rewrite lookup_insert_eq. intros [= <- <-] a o2 p2 b ->.
      destruct (bi_hand _ B _ _ _ Hw ((o, pt) :: a) o2 p2 b eq_refl) as (sp2 & Hin2 & Hb2). exists sp2. split; [done|].
      cbn [y_log]. intros p1 o1 H1 H2. rewrite elem_of_app, list_elem_of_singleton.
      destruct (Hb2 _ _ H1 H2) as [?|Ha]; [auto|]. cbn in Ha. apply elem_of_cons in Ha as [?|?]; auto.
    + rewrite lookup_insert_ne by done. intros Hx. exact (Hmono rows2 (bi_hand _ B _ _ _ Hx)).
  - intros i o2 sp2 p2 Hi Hin2 p1 o1 Hin1 Hlt. apply lookup_app_Some in Hi as [Hi|[Hlen Hi]].
    + destruct (bi_order _ B i o2 sp2 p2 Hi Hin2 p1 o1 Hin1 Hlt) as (j & Hj & Hx). exists j. split; [done|].
      by apply lookup_app_l_Some.
    + apply list_lookup_singleton_Some in Hi as [Hi ->]. destruct (numbered_unique y _ _ _ _ _ I Hin Hin2) as [<- <-].
      destruct (Hbefore p1 o1 Hin1 Hlt) as [Hl|Hl]; [|by apply elem_of_nil in Hl].
      apply list_elem_of_lookup in Hl as [j Hj]. exists j. split; [apply lookup_lt_Some in Hj; lia|].
      by apply lookup_app_l_Some.
Qed.

Lemma pub_number y sp batch now :
  posInv y → pubInv y → dbEpoch (y_db y) = Some now →
  pubInv (MkSys (MkStore (place (assign now (startSeq (counterOf (y_db y) sp) now) (picked (y_db y) sp batch)) (outbox (y_db y)))
                   (<[sp := numberedCounter (counterOf (y_db y) sp) now (List.length (picked (y_db y) sp batch))]>
                      (ensureCounter sp (counters (y_db y))))
                   (history (y_db y) ++ forkOf sp (counterOf (y_db y) sp) now) (dbEpoch (y_db y)) (dbNow (y_db y)))
            (y_next y) (y_open y) (y_work y) (y_log y) (y_numbered y ++ newly (y_db y) sp batch) (y_top y)).
Proof.
  intros I B Hd. set (nums := y_numbered y ++ newly (y_db y) sp batch).
  assert (Hel : ∀ sp' p o, (sp', p, o) ∈ nums ↔ (sp', p, o) ∈ y_numbered y ∨ (sp', p, o) ∈ newly (y_db y) sp batch).
  { intros. unfold nums. by rewrite elem_of_app. }
  assert (Hold : ∀ sp' p o, (sp', p, o) ∈ nums → o ∈ y_log y → (sp', p, o) ∈ y_numbered y).
  { intros sp' p o [?|Hn]%Hel Ho; [done|]. destruct (bi_log _ B _ Ho) as (sp2 & p2 & H2).
    apply (newly_elem _ _ _ _ _ _ _ Hd) in Hn as (_ & i & Hi & _). apply list_elem_of_lookup_2 in Hi.
    destruct (not_numbered_yet y sp batch I o Hi). apply list_elem_of_fmap. by exists (sp2, p2, o). }
  assert (Hlow : ∀ sp' p p1 o o1, (sp', p, o) ∈ y_numbered y → (sp', p1, o1) ∈ nums → pointLess p1 p = true →
    (sp', p1, o1) ∈ y_numbered y).
  { intros sp' p p1 o o1 Hin [?|Hn]%Hel Hlt; [done|]. apply (newly_elem _ _ _ _ _ _ _ Hd) in Hn as (-> & i & Hi & ->).
    pose proof (new_later y sp now p o (startSeq (counterOf (y_db y) sp) now + Z.of_nat i + 1) I Hd Hin ltac:(lia)) as Hn2.
    by rewrite (pointLess_asym _ _ Hn2) in Hlt. }
  split; cbn [y_db y_log y_work y_numbered outbox counters].
  - intros o Ho. destruct (bi_log _ B _ Ho) as (sp2 & p2 & H2). exists sp2, p2. apply Hel. by left.
  - intros o r [(r0 & p0 & Hr0 & _ & _ & _ & ->)|[Hr _]]%(number_row _ _ _ _ _ _ Hd); [|by apply (bi_pub _ B)].
    cbn. by apply (bi_pub _ B).
  - intros sp2 p2 o2 Hin Hno. assert (Hno' : outbox (y_db y) !! o2 = None).
    { destruct (outbox (y_db y) !! o2) as [r|] eqn:Hr; [|done].
      rewrite place_lookup, Hr in Hno by (rewrite assign_fst; apply picked_NoDup). by destruct (_ !! o2). }
    apply Hel in Hin as [Hin|Hin].
    2: { apply (newly_elem _ _ _ _ _ _ _ Hd) in Hin as (_ & i & Hi & _).
         apply list_elem_of_lookup_2, picked_elem in Hi as (? & ? & _). congruence. }
    destruct (bi_gone _ B _ _ _ Hin Hno') as (Hl & c & pp & H1 & H2 & H3). split; [done|].
    destruct (decide (sp2 = sp)) as [->|Hne].
    + eexists _, pp. split; [by rewrite lookup_insert_eq|]. split; [|done]. cbn. unfold counterOf. by rewrite H1.
    + exists c, pp. split; [|done]. unfold ensureCounter. destruct (counters (y_db y) !! sp); by rewrite ?lookup_insert_ne.
  - apply (bi_done _ B).
  - intros w rows done Hw a o p b ->. destruct (bi_hand _ B _ _ _ Hw a o p b eq_refl) as (sp2 & Hin & Hb).
    exists sp2. split; [apply Hel; by left|]. cbn [y_numbered y_log]. intros p1 o1 H1 H2. eapply Hb; [|done]. by eapply Hlow.
  - intros i o sp2 p Hi Hin p1 o1 Hin1 Hlt. apply Hold in Hin; [|by eapply list_elem_of_lookup_2].
    eapply (bi_order _ B); [done|exact Hin| |done]. by eapply Hlow.
Qed.

(** ** Purging *)

Lemma noteTop_covers (m : gmap Z orow) o r p :
  m !! o = Some r → o_pos r = Some p → ∃ q, map_fold (λ _ r, noteTop r) ∅ m !! partOf r = Some q ∧ pointLe p q.
Proof.
  revert o r p. apply (map_fold_weak_ind (λ top m, ∀ o r p, m !! o = Some r → o_pos r = Some p → ∃ q, top !! partOf r = Some q ∧ pointLe p q)).
  - by intros o r p Hr.
  - intros o0 r0 m0 top Hno IH o r p Hr Hp. destruct (decide (o0 = o)) as [->|Hne].
    + rewrite lookup_insert_eq in Hr. injection Hr as ->. unfold noteTop. rewrite Hp.
      destruct (top !! partOf r) as [cur|] eqn:Hc; [destruct (pointLess cur p) eqn:Hl|].
      * exists p. rewrite lookup_insert_eq. split; [done|apply pointLe_refl].
      * exists cur. by split.
      * exists p. rewrite lookup_insert_eq. split; [done|apply pointLe_refl].
    + rewrite lookup_insert_ne in Hr by done. destruct (IH _ _ _ Hr Hp) as (q & Hq & Hle). unfold noteTop.
      destruct (o_pos r0) as [p0|]; [|eauto]. destruct (decide (partOf r0 = partOf r)) as [He|He].
      * rewrite He, Hq. destruct (pointLess q p0) eqn:Hl; [|eauto]. exists p0. rewrite lookup_insert_eq. split; [done|].
        eapply pointLe_trans; [exact Hle|by apply pointLt_le].
      * destruct (top !! partOf r0) as [cur|]; [destruct (pointLess cur p0)|]; rewrite ?lookup_insert_ne by done; eauto.
Qed.

Lemma notePurged_ge p c : ∃ pp, c_purged (notePurged p c) = Some pp ∧ pointLe p pp ∧ (∀ q, c_purged c = Some q → pointLe q pp).
Proof.
  unfold notePurged. destruct (c_purged c) as [q|] eqn:Hq; [destruct (pointLess q p) eqn:Hl|]; cbn.
  - exists p. split; [done|]. split; [apply pointLe_refl|]. intros q' [= <-]. by apply pointLt_le.
  - exists q. split; [done|]. split; [done|]. intros q' [= <-]. apply pointLe_refl.
  - exists p. split; [done|]. split; [apply pointLe_refl|done].
Qed.

Lemma pub_purge y retention ords :
  posInv y → pubInv y → pubInv (with_db (purgeBatch retention ords (y_db y)) y).
Proof.
  intros I B. unfold with_db, purgeBatch.
  set (gone := filter (λ '(o, r), o ∈ ords ∧ purgeable (y_db y) retention r = true) (outbox (y_db y))).
  set (top := map_fold (λ _ r, noteTop r) ∅ gone).
  split; cbn [y_db y_log y_work y_numbered outbox counters set_counters set_outbox]; try solve [apply B].
  - intros o r [Hr _]%lookup_difference_Some. by apply (bi_pub _ B).
  - intros sp p o Hin Hno. destruct (outbox (y_db y) !! o) as [r|] eqn:Hr.
    + apply lookup_difference_None in Hno as [Hno|[r' Hg]]; [congruence|].
      pose proof Hg as Hg'. apply map_lookup_filter_Some in Hg' as [Hr' [_ Hpu]]. assert (r' = r) as -> by congruence.
      destruct (pi_row _ I _ _ Hr) as [_ Hrow]. destruct (Hrow _ _ Hin) as [-> Hp]. split.
      { eapply (bi_pub _ B); [exact Hr|]. unfold purgeable in Hpu. by destruct (o_published r). }
      destruct (noteTop_covers gone o r p Hg Hp) as (q & Hq & Hle). fold top in Hq.
      destruct (pi_bound _ I _ _ _ Hin) as (_ & c & e & Hc & _). destruct (notePurged_ge q c) as (pp & Hpp & Hle2 & _).
      exists (notePurged q c), pp. rewrite map_lookup_imap, Hc. cbn. rewrite Hq. split; [done|]. split; [done|].
      by eapply pointLe_trans.
    + destruct (bi_gone _ B _ _ _ Hin Hr) as (Hl & c & pp & Hc & Hpp & Hle). split; [done|].
      rewrite map_lookup_imap, Hc. cbn. destruct (top !! sp) as [q|]; [|eauto].
      destruct (notePurged_ge q c) as (pp' & Hpp' & _ & Hle'). exists (notePurged q c), pp'. split; [done|]. split; [done|].
      eapply pointLe_trans; [exact Hle|by apply Hle'].
Qed.

(** ** The whole invariant *)

Lemma keepsPurged_insert sp m c c' :
  default newCounter (m !! sp) = c → c_purged c' = c_purged c → keepsPurged m (<[sp := c']> (ensureCounter sp m)).
Proof.
  intros Hd Hp sp' c1 pp Hc1 Hpp. destruct (decide (sp' = sp)) as [->|Hne].
  - exists c', pp. rewrite lookup_insert_eq. split; [done|]. rewrite Hc1 in Hd. cbn in Hd. subst c1.
    split; [congruence|apply pointLe_refl].
  - exists c1, pp. split; [unfold ensureCounter; destruct (m !! sp); by rewrite ?lookup_insert_ne|].
    split; [done|apply pointLe_refl].
Qed.

Lemma leaseRow_purged owner d now c c' : leaseRow owner d now c = Some c' → c_purged c' = c_purged c.
Proof. unfold leaseRow. destruct (_ || _); [|done]. by intros [= <-]. Qed.

Lemma pub_step `{Codec} (p : Producer) y y' : posInv y → pubInv y → step p y y' → pubInv y'.
Proof.
  intros I B Hs. destruct Hs as [y k em stream ev row _|y k|y k|y sp batch n s Hn|y w sp batch _|y w o pt rows done Hw|
    y w rows done claimed Hw|y w|y sp owner d c Hl|y owner|y retention ords|y d _|y|y e He].
  - eapply (pub_keep y); try done; eauto using keepsPurged_refl.
  - eapply (pub_keep y); try done; eauto using keepsPurged_refl; cbn.
    + intros o r' [Hr|[_ Hr]]%lookup_union_Some_raw Hp; [eauto|]. unfold committed in Hr.
      apply lookup_fmap_Some in Hr as (r & <- & _). done.
    + intros o r Hr. apply lookup_union_is_Some. eauto.
  - eapply (pub_keep y); try done; eauto using keepsPurged_refl.
  - apply numberIn_spec in Hn as (now & Hd & -> & ->). rewrite assign_length. by apply pub_number.
  - eapply (pub_keep y); try done; eauto using keepsPurged_refl. cbn. intros w' x.
    destruct (decide (w' = w)) as [->|Hne]; [|rewrite lookup_insert_ne by done; eauto].
    rewrite lookup_insert_eq. intros [= <-]. right. split; [by apply read_inHand|done].
  - by eapply pub_publish.
  - eapply (pub_keep y); try done; cbn.
    + intros w' x [_ Hx]%lookup_delete_Some. eauto.
    + apply keepsPurged_refl.
    + intros o r'. rewrite map_lookup_imap. destruct (outbox (y_db y) !! o) as [r|] eqn:Hr; [|done]. cbn.
      case_bool_decide as Hb; intros [= <-]; [|eauto]. intros _. left. by apply (bi_done _ B _ _ _ Hw), Hb.
    + intros o r Hr. rewrite map_lookup_imap, Hr. by eexists.
  - eapply (pub_keep y); try done; eauto using keepsPurged_refl. cbn. intros w' x [_ Hx]%lookup_delete_Some. eauto.
  - rewrite counterOf_ensure in Hl. apply leaseRow_purged in Hl.
    eapply (pub_keep y); try done; eauto. by eapply keepsPurged_insert.
  - eapply (pub_keep y); try done; eauto. cbn. intros sp c pp Hc Hp. exists (releaseRow owner c), pp.
    rewrite lookup_fmap, Hc. split; [done|]. split; [|apply pointLe_refl]. unfold releaseRow. by case_decide.
  - by apply pub_purge.
  - eapply (pub_keep y); try done; eauto using keepsPurged_refl.
  - eapply (pub_keep y); try done; eauto using keepsPurged_refl.
  - eapply (pub_keep y); try done; eauto using keepsPurged_refl.
Qed.

Lemma initial_inv e : posInv (initial e) ∧ pubInv (initial e).
Proof.
  split; split; cbn; try (by intros * ?%elem_of_nil); try (by intros * Hx; rewrite ?lookup_empty in Hx); try constructor; try done.
  by intros e' [= <-].
Qed.

Lemma inv_steps `{Codec} (p : Producer) y y' : rtc (step p) y y' → posInv y → pubInv y → posInv y' ∧ pubInv y'.
Proof.
  induction 1 as [y|y y1 y2 Hs _ IH]; [done|]. intros I B. apply IH; [by eapply pos_step|by eapply pub_step].
Qed.

Lemma reachable_inv `{Codec} (p : Producer) y : reachable p y → posInv y ∧ pubInv y.
Proof. intros [e Hr]. destruct (initial_inv e). by eapply inv_steps. Qed.

Section theorems.
Context `{Codec} (p : Producer) (y : sys).
Hypothesis Hy : reachable p y.

(** C23. Positions: every row is numbered at most once and keeps its number; the positions
    of a partition grow in the order they are given, over every failover; and in an epoch
    they are 1, 2, 3 and so on with no gap and no repetition. *)
Theorem positions_dense :
  (∀ sp pt o sp' pt', (sp, pt, o) ∈ y_numbered y → (sp', pt', o) ∈ y_numbered y → sp = sp' ∧ pt = pt') ∧
  (∀ o r pt, outbox (y_db y) !! o = Some r → o_pos r = Some pt ↔ (partOf r, pt, o) ∈ y_numbered y) ∧
  (∀ i j sp pt pt' o o', y_numbered y !! i = Some (sp, pt, o) → y_numbered y !! j = Some (sp, pt', o') →
     pointLess pt pt' = true ↔ (i < j)%nat) ∧
  (∀ sp e q o, (sp, MkPoint e q, o) ∈ y_numbered y → 1 ≤ q ∧
     ∀ q', 1 ≤ q' < q → ∃ o', (sp, MkPoint e q', o') ∈ y_numbered y).
Proof.
  destruct (reachable_inv p y Hy) as [I _]. split; [|split; [|split]].
  - intros *. by apply numbered_unique.
  - intros o r pt Hr. destruct (pi_row _ I _ _ Hr) as [H1 H2]. split; [apply H1|apply H2].
  - intros i j sp pt pt' o o' Hi Hj. split; [|by intros; eapply (pi_sorted _ I i j)]. intros Hlt.
    destruct (decide (i < j)%nat) as [|Hn]; [done|]. destruct (decide (i = j)) as [->|Hne].
    + simplify_eq. by rewrite pointLess_irrefl in Hlt.
    + assert (Hji : (j < i)%nat) by lia. pose proof (pi_sorted _ I j i _ _ _ _ _ Hji Hj Hi) as Hl.
      by rewrite (pointLess_asym _ _ Hl) in Hlt.
  - intros sp e q o Hin. destruct (pi_bound _ I _ _ _ Hin) as [H1 _]. split; [done|]. intros q' Hq'.
    by apply (pi_dense _ I _ _ _ q' Hin).
Qed.

(** C5. Publishing: whatever the forwarders do, at every publish of a row all the rows of
    its partition with a smaller position were accepted by the transport before; and a row
    that was numbered and is gone from the outbox was published. *)
Theorem published_in_order :
  (∀ i o sp pt, y_log y !! i = Some o → (sp, pt, o) ∈ y_numbered y →
     ∀ pt1 o1, (sp, pt1, o1) ∈ y_numbered y → pointLess pt1 pt = true → ∃ j, (j < i)%nat ∧ y_log y !! j = Some o1) ∧
  (∀ i o, y_log y !! i = Some o → ∃ sp pt, (sp, pt, o) ∈ y_numbered y) ∧
  (∀ sp pt o, (sp, pt, o) ∈ y_numbered y → outbox (y_db y) !! o = None → o ∈ y_log y).
Proof.
  destruct (reachable_inv p y Hy) as [_ B]. split; [apply B|]. split.
  - intros i o Hi. apply (bi_log _ B). by eapply list_elem_of_lookup_2.
  - intros sp pt o Hin Hno. by apply (bi_gone _ B _ _ _ Hin Hno).
Qed.

End theorems.

(** ** The order of commits *)

Section causal.
Context `{Codec} (p : Producer).
Variables (sp : streamPart) (o1 B : Z).
Hypothesis Hlow : o1 < B.

(** The row [o1] is numbered before every row from [B] on, or none of those is numbered. *)
Definition firstNumbered (y : sys) : Prop :=
  (∃ pt1, (sp, pt1, o1) ∈ y_numbered y ∧
     ∀ pt2 o2, (sp, pt2, o2) ∈ y_numbered y → B ≤ o2 → pointLess pt1 pt2 = true) ∨
  (∃ r, outbox (y_db y) !! o1 = Some r ∧ partOf r = sp ∧ o_pos r = None ∧
     ∀ pt2 o2, (sp, pt2, o2) ∈ y_numbered y → o2 < B).

Lemma first_keep y y' :
  firstNumbered y → y_numbered y' = y_numbered y →
  (∀ r, outbox (y_db y) !! o1 = Some r → o_pos r = None →
     ∃ r', outbox (y_db y') !! o1 = Some r' ∧ partOf r' = partOf r ∧ o_pos r' = None) → firstNumbered y'.
Proof.
  intros [(pt1 & Hin & Hall)|(r & Hr & Hsp & Hp & Hall)] Hn Hk; [left|right]; rewrite Hn; [eauto|].
  destruct (Hk r Hr Hp) as (r' & Hr' & Hsp' & Hp'). exists r'. rewrite Hsp'. eauto.
Qed.

Lemma first_number y sp' batch n s :
  posInv y → firstNumbered y → numberIn sp' batch (y_db y) = Ok (n, s) →
  firstNumbered (MkSys s (y_next y) (y_open y) (y_work y) (y_log y) (y_numbered y ++ newly (y_db y) sp' batch) (y_top y)).
Proof.
  intros I HF (now & Hd & -> & ->)%numberIn_spec. unfold firstNumbered. cbn [y_numbered y_db outbox].
  set (nw := newly (y_db y) sp' batch).
  assert (Hel : ∀ pt o, (sp, pt, o) ∈ y_numbered y ++ nw ↔ (sp, pt, o) ∈ y_numbered y ∨ (sp, pt, o) ∈ nw)
    by (intros; apply elem_of_app).
  destruct HF as [(pt1 & Hin & Hall)|(r & Hr & Hsp & Hp & Hall)].
  - left. exists pt1. split; [apply Hel; by left|]. intros pt2 o2 [?|Hn]%Hel Ho2; [by eapply Hall|].
    apply (newly_elem _ _ _ _ _ _ _ Hd) in Hn as (-> & i & _ & ->). eapply new_later; [done..|lia].
  - destruct (decide (o1 ∈ picked (y_db y) sp' batch)) as [Hpk|Hpk].
    + left. apply list_elem_of_lookup in Hpk as [i Hi].
      pose proof (picked_elem _ _ _ _ (list_elem_of_lookup_2 _ _ _ Hi)) as (r' & Hr' & Hsp' & _).
      assert (sp' = sp) as -> by congruence.
      exists (MkPoint now (startSeq (counterOf (y_db y) sp) now + Z.of_nat i + 1)).
      split; [apply Hel; right; apply (newly_elem _ _ _ _ _ _ _ Hd); eauto|].
      intros pt2 o2 [Hold|Hn]%Hel Ho2; [specialize (Hall _ _ Hold); lia|].
      apply (newly_elem _ _ _ _ _ _ _ Hd) in Hn as (_ & j & Hj & ->). apply pointLess_spec. right. cbn. split; [done|].
      destruct (firsts_before Z.le batch (unnumbered (y_db y) sp) o1 o2 j) as (i' & Hij & Hi').
      { apply unnumbered_elem. eauto. } { exact Hj. } { lia. }
      assert (i' = i) as -> by (eapply (NoDup_lookup _ _ _ _ (picked_NoDup (y_db y) sp batch)); [exact Hi'|exact Hi]). lia.
    + right. exists r. split; [apply (number_row _ _ _ _ _ _ Hd); by right|]. split; [done|]. split; [done|].
      intros pt2 o2 [Hold|Hn]%Hel; [by eapply Hall|]. apply (newly_elem _ _ _ _ _ _ _ Hd) in Hn as (-> & j & Hj & _).
      destruct (decide (o2 < B)) as [|Hge]; [done|]. destruct Hpk.
      destruct (firsts_before Z.le batch (unnumbered (y_db y) sp') o1 o2 j) as (i' & _ & Hi').
      { apply unnumbered_elem. eauto. } { exact Hj. } { lia. }
      by eapply list_elem_of_lookup_2.
Qed.

Lemma unnumbered_unpublished y o r :
  posInv y → pubInv y → outbox (y_db y) !! o = Some r → o_pos r = None → o_published r = None.
Proof.
  intros I Bi Hr Hp. destruct (o_published r) eqn:Hpub; [|done].
  destruct (bi_log _ Bi o) as (sp' & pt & Hin); [eapply (bi_pub _ Bi); [exact Hr|congruence]|].
  destruct (pi_row _ I _ _ Hr) as [_ Hrow]. destruct (Hrow _ _ Hin). congruence.
Qed.

Lemma first_step y y' : posInv y → pubInv y → firstNumbered y → step p y y' → firstNumbered y'.
Proof.
  intros I Bi HF Hs. destruct Hs as [y k em stream ev row _|y k|y k|y sp' batch n s Hn|y w sp' batch _|y w o pt rows dn Hw|
    y w rows dn claimed Hw|y w|y sp' owner d c Hl|y owner|y retention ords|y d _|y|y e He];
    try (apply (first_keep y); [done|done|intros r Hr Hp; exists r; split_and!; done]).
  - apply (first_keep y); [done|done|]. cbn. intros r Hr Hp. exists r. split; [|done]. by apply lookup_union_Some_l.
  - by eapply first_number.
  - apply (first_keep y); [done|done|]. cbn. intros r Hr Hp. rewrite map_lookup_imap, Hr. cbn. eexists.
    split; [done|]. by case_bool_decide.
  - apply (first_keep y); [done|done|]. cbn. intros r Hr Hp. exists r. split; [|done].
    apply lookup_difference_Some. split; [done|]. apply map_lookup_filter_None. right. intros r' Hr' [_ Hpu].
    assert (r' = r) as -> by congruence. unfold purgeable in Hpu. by rewrite (unnumbered_unpublished y o1 r I Bi Hr Hp) in Hpu.
Qed.

End causal.

(** The order of a partition follows the order of the commits: an event that was
    committed before another one was emitted has the smaller position, so it is published
    before it.  The events of one record are such events, since its row is locked until
    the commit. *)
Theorem causal_order `{Codec} p y y' o1 r1 pt2 o2 :
  reachable p y → outbox (y_db y) !! o1 = Some r1 → rtc (step p) y y' →
  (partOf r1, pt2, o2) ∈ y_numbered y' → y_next y ≤ o2 →
  ∃ pt1, (partOf r1, pt1, o1) ∈ y_numbered y' ∧ pointLess pt1 pt2 = true.
Proof.
  intros Hy Hr1 Hrun Hin2 Ho2. destruct (reachable_inv p y Hy) as [I Bi].
  pose proof (pi_next _ I _ _ Hr1) as Hlow.
  assert (HF : firstNumbered (partOf r1) o1 (y_next y) y).
  { destruct (o_pos r1) as [pt1|] eqn:Hp; [left|right].
    - exists pt1. split; [by apply (pi_row _ I _ _ Hr1)|]. intros pt o Hin Ho. pose proof (pi_numbered _ I _ _ _ Hin). lia.
    - exists r1. split; [done|]. split; [done|]. split; [done|]. intros pt o. apply (pi_numbered _ I). }
  assert (HF' : firstNumbered (partOf r1) o1 (y_next y) y').
  { clear Hin2. revert HF. generalize (y_next y) Hlow. clear Hlow Hr1 Ho2 Hy. intros b Hb.
    induction Hrun as [y0|y0 y1 y2 Hs _ IH]; [done|]. intros HF.
    apply IH; [by eapply pos_step|by eapply pub_step|by eapply first_step]. }
  destruct HF' as [(pt1 & Hin & Hall)|(r & _ & _ & _ & Hall)]; [eauto|]. specialize (Hall _ _ Hin2). lia.
Qed.

(** A committed row is in the outbox until it was published. *)
Theorem committed_never_lost `{Codec} p y y' o r :
  reachable p y → outbox (y_db y) !! o = Some r → rtc (step p) y y' → is_Some (outbox (y_db y') !! o) ∨ o ∈ y_log y'.
Proof.
  intros Hy Hr Hrun. destruct (reachable_inv p y Hy) as [I Bi]. clear Hy.
  assert (Hor : is_Some (outbox (y_db y) !! o) ∨ o ∈ y_log y) by (left; eauto). clear Hr.
  revert Hor. induction Hrun as [y0|y0 y1 y2 Hs _ IH]; [done|]. intros Hor.
  apply IH; [by eapply pos_step|by eapply pub_step|]. clear IH.
  destruct Hor as [[r0 Hr0]|Hl]; [|right; destruct Hs; cbn; first [exact Hl|apply elem_of_app; left; exact Hl]].
  destruct Hs as [y k em stream ev row _|y k|y k|y sp' batch n s Hn|y w sp' batch _|y w o' pt rows dn Hw|
    y w rows dn claimed Hw|y w|y sp' owner d c Hl|y owner|y retention ords|y d _|y|y e He]; cbn; try (left; by eauto).
  - left. apply lookup_union_is_Some. eauto.
  - left. apply numberIn_spec in Hn as (now & Hd & -> & ->). cbn.
    rewrite place_lookup, Hr0 by (rewrite assign_fst; apply picked_NoDup). cbn. case_match; eauto.
  - left. rewrite map_lookup_imap, Hr0. by eexists.
  - match goal with |- is_Some ?x ∨ _ => destruct x as [r'|] eqn:Hg; [left; by eexists|] end. right.
    apply lookup_difference_None in Hg as [?|[r' Hg]]; [congruence|].
    apply map_lookup_filter_Some in Hg as [Hr' [_ Hpu]]. assert (r' = r0) as -> by congruence.
    eapply (bi_pub _ Bi); [exact Hr0|]. unfold purgeable in Hpu. by destruct (o_published r0).
Qed.
