(* ===== verification/EventsForward.v ===== *)
(** * Events: a forwarder drains the outbox

    [Forwarder.forward] run alone with a transport that accepts: it ends, and every row of
    its partitions is numbered and published. *)
From S2P Require Import Prelude GoStr EventsStream EventsEnvelope EventsOutbox EventsSys EventsOrder.
From Stdlib Require Import Ascii String.
Open Scope string_scope.
Open Scope Z_scope.
Open Scope list_scope.

(** A row that still has to be numbered or published. *)
Definition unfinished (r : orow) : Prop := o_pos r = None ∨ o_published r = None.
Definition unfinishedRows (s : store) : gset Z := dom (filter (λ '(_, r), unfinished r) (outbox s)).

Lemma unfinishedRows_elem s o : o ∈ unfinishedRows s ↔ ∃ r, outbox s !! o = Some r ∧ unfinished r.
Proof.
  unfold unfinishedRows. rewrite elem_of_dom. split.
  - intros [r [Hr Hu]%map_lookup_filter_Some]. eauto.
  - intros (r & Hr & Hu). exists r. by apply map_lookup_filter_Some.
Qed.

Lemma hasRows_false s sp : hasRows s sp = false ↔ ∀ o r, outbox s !! o = Some r → partOf r = sp → ¬ unfinished r.
Proof.
  unfold hasRows, unfinished. rewrite <- not_true_iff_false, existsb_exists. split.
  - intros Hn o r Hr Hsp Hu. apply Hn. exists (o, r). split; [by apply list_elem_of_In, elem_of_map_to_list|].
    by rewrite andb_true_iff, orb_true_iff, !bool_decide_eq_true.
  - intros Hn ([o r] & Hin & Hb). apply list_elem_of_In, elem_of_map_to_list in Hin.
    rewrite andb_true_iff, orb_true_iff, !bool_decide_eq_true in Hb. by apply (Hn o r Hin); destruct Hb.
Qed.

(** The lease of a partition is the forwarder's, free or run out. *)
Definition leasable (f : Forwarder) (s : store) (sp : streamPart) : Prop :=
  is_Some (leaseRow (f_owner f) (f_Lease f) (dbNow s) (counterOf s sp)).

Lemma leaseRow_is_Some owner d now c :
  is_Some (leaseRow owner d now c) ↔ (∀ u, c_until c = Some u → u < now) ∨ c_owner c = Some owner.
Proof.
  unfold leaseRow. destruct (c_until c) as [u|]; cbn [orb].
  - destruct (bool_decide (u < now)) eqn:Hb; cbn [orb].
    + apply bool_decide_eq_true in Hb. split; [|by eauto]. intros _. left. by intros u' [= <-].
    + apply bool_decide_eq_false in Hb. destruct (bool_decide (c_owner c = Some owner)) eqn:Ho.
      * apply bool_decide_eq_true in Ho. split; [by right|by eauto].
      * apply bool_decide_eq_false in Ho. split; [by intros [? ?]|]. intros [Hu|?]; [|done]. specialize (Hu u eq_refl). lia.
  - split; [by left|]. by eauto.
Qed.

(** Two stores a forwarder sees alike: the same clock, epoch and rights to lease. *)
Record alike (f : Forwarder) (s s' : store) : Prop := {
  al_now : dbNow s' = dbNow s;
  al_epoch : dbEpoch s' = dbEpoch s;
  al_lease : ∀ sp, leasable f s sp → leasable f s' sp }.

Lemma alike_trans f s1 s2 s3 : alike f s1 s2 → alike f s2 s3 → alike f s1 s3.
Proof. intros [? ? H1] [? ? H2]. split; [congruence|congruence|]. auto. Qed.
Lemma alike_owner f f' s s' : f_owner f' = f_owner f → f_Lease f' = f_Lease f → alike f s s' → alike f' s s'.
Proof. intros Ho Hl [H1 H2 H3]. split; [done|done|]. unfold leasable in *. by rewrite Ho, Hl. Qed.

Lemma ensured_lookup (m : gmap streamPart Counter) sp c sp' :
  default newCounter (<[sp := c]> (ensureCounter sp m) !! sp') = if decide (sp' = sp) then c else default newCounter (m !! sp').
Proof.
  unfold ensureCounter. case_decide as Hd; [subst; by rewrite lookup_insert_eq|].
  destruct (m !! sp); by rewrite ?lookup_insert_ne.
Qed.

Lemma lease_ok asked f sp s :
  leasable f s sp →
  ∃ f' s', lease asked f sp s = (true, f', s') ∧ f_owner f' = f_owner f ∧ f_Lease f' = f_Lease f ∧ f_Batch f' = f_Batch f ∧
    outbox s' = outbox s ∧ alike f s s'.
Proof.
  intros Hl. unfold lease. destruct (match f_held f !! sp with Some _ => _ | None => _ end).
  { exists f, s. split_and!; try done. }
  rewrite counterOf_ensure. cbn [dbNow set_counters]. pose proof Hl as [c Hc]. rewrite Hc.
  eexists _, _. split; [done|]. split_and!; try done. split; [done|done|]. intros sp' Hl'. unfold leasable, counterOf.
  cbn [counters set_counters dbNow]. rewrite ensured_lookup. case_decide; [|done]. apply leaseRow_is_Some. right.
  unfold leaseRow in Hc. destruct (_ || _); [|done]. by injection Hc as <-.
Qed.

Lemma number_alike f s sp batch n s' : numberIn sp batch s = Ok (n, s') → alike f s s'.
Proof.
  intros (now & Hd & -> & ->)%numberIn_spec. split; [done|done|]. intros sp' Hl. unfold leasable in *. cbn [dbNow].
  unfold counterOf at 1. cbn [counters]. rewrite ensured_lookup.
  case_decide as Hd'; [subst sp'|done]. apply leaseRow_is_Some. by apply leaseRow_is_Some in Hl.
Qed.

Lemma publishAll_all rows log : publishAll (λ _ _, true) rows log = (map fst rows, false, log ++ map fst rows).
Proof.
  revert log. induction rows as [|[o p] rows IH]; intros log; cbn; [by rewrite app_nil_r|]. rewrite IH.
  by rewrite <- app_assoc.
Qed.

Lemma numberIn_runs s sp batch now : dbEpoch s = Some now → ∃ n s', numberIn sp batch s = Ok (n, s').
Proof.
  intros Hd. unfold numberIn. rewrite tbind_mod, tbind_get, counterOf_ensure. cbn [dbEpoch set_counters]. rewrite Hd.
  destruct (c_epoch (counterOf s sp)); [destruct (epochChanged _ now)|]; eexists _, _; reflexivity.
Qed.

(** A published row has its number. *)
Definition numberedFirst (s : store) : Prop := ∀ o r, outbox s !! o = Some r → o_pos r = None → o_published r = None.

Section batch.
Variables (s s' : store) (sp : streamPart) (batch n : nat).
Hypothesis Hwf : numberedFirst s.
Hypothesis Hnum : numberIn sp batch s = Ok (n, s').

Lemma numbered_from o r' :
  outbox s' !! o = Some r' → ∃ r, outbox s !! o = Some r ∧ partOf r' = partOf r ∧ o_published r' = o_published r ∧
    (o_pos r' = o_pos r ∧ o ∉ picked s sp batch ∨ partOf r = sp ∧ o_pos r = None ∧ is_Some (o_pos r') ∧ o ∈ picked s sp batch).
Proof.
  apply numberIn_spec in Hnum as (now & Hd & _ & ->). cbn [outbox].
  intros [(r & p & Hr & Hsp & Hp & Hin & ->)|[Hr Hno]]%(number_row _ _ _ _ _ _ Hd).
  - exists r. split; [done|]. split; [done|]. split; [done|]. right. split; [done|]. split; [done|]. split; [by eexists|].
    apply (newly_elem _ _ _ _ _ _ _ Hd) in Hin as (_ & i & Hi & _). by eapply list_elem_of_lookup_2.
  - exists r'. split_and!; auto.
Qed.

Lemma numbered_wf : numberedFirst s'.
Proof.
  intros o r' (r & Hr & _ & Hpub & [[Hp _]|(_ & _ & [p Hp] & _)])%numbered_from Hn.
  - rewrite Hpub. eapply Hwf; [exact Hr|congruence].
  - congruence.
Qed.

Lemma numbered_has o r : outbox s !! o = Some r → is_Some (outbox s' !! o).
Proof.
  intros Hr. apply numberIn_spec in Hnum as (now & Hd & _ & ->). cbn [outbox].
  rewrite place_lookup, Hr by (rewrite assign_fst; apply picked_NoDup). cbn. case_match; eauto.
Qed.

Lemma batch_elem o p :
  (o, p) ∈ unpublishedIn s' sp batch → ∃ r, outbox s' !! o = Some r ∧ partOf r = sp ∧ o_pos r = Some p ∧ o_published r = None.
Proof.
  intros Hin%firsts_elem. apply positions_elem in Hin as (r & Hr & Hp & Hsp & Hu). apply bool_decide_eq_true in Hu. eauto.
Qed.

Lemma positions_keys P st q : NoDup (map fst (positions P st q)).
Proof.
  unfold positions. pose proof (NoDup_fst_map_to_list (outbox st)) as Hn. revert Hn.
  induction (map_to_list (outbox st)) as [|[o r] l IH]; cbn; [constructor|]. intros [Ho Hn]%NoDup_cons.
  destruct (o_pos r) as [p|]; [destruct (_ && _)|]; cbn; [|by apply IH..]. apply NoDup_cons. split; [|by apply IH].
  intros Hin. apply Ho. apply list_elem_of_fmap in Hin as ([o' p'] & He & Hin). cbn in He. subst o'.
  apply list_elem_of_omap in Hin as ([o2 r2] & Hin & H2). destruct (o_pos r2); [|done]. destruct (_ && _); [|done].
  injection H2 as -> _. apply list_elem_of_fmap. by exists (o, r2).
Qed.
Lemma takeBatch_NoDup : NoDup (map fst (unpublishedIn s' sp batch)).
Proof.
  unfold unpublishedIn. change (NoDup (fst <$> take batch (merge_sort rowLe (positions isUnpublished s' sp)))).
  rewrite fmap_take. eapply sublist_NoDup; [|apply sublist_take]. rewrite merge_sort_Permutation. apply positions_keys.
Qed.

(** A batch that is not full has everything the partition had to do. *)
Lemma short_batch o r :
  (List.length (unpublishedIn s' sp batch) < batch)%nat → outbox s' !! o = Some r → partOf r = sp → unfinished r →
  o ∈ map fst (unpublishedIn s' sp batch).
Proof.
  intros Hlen Hr Hsp Hu.
  assert (Hall : ∀ o p, (o, p) ∈ positions isUnpublished s' sp → (o, p) ∈ unpublishedIn s' sp batch).
  { intros o1 p1 Hin. destruct (decide ((o1, p1) ∈ unpublishedIn s' sp batch)) as [|Hno]; [done|].
    pose proof (firsts_full rowLe batch _ _ Hin Hno). unfold unpublishedIn in Hlen. lia. }
  assert (Hpos : ∀ o p r, outbox s' !! o = Some r → partOf r = sp → o_pos r = Some p → o_published r = None →
    o ∈ map fst (unpublishedIn s' sp batch)).
  { intros o1 p1 r1 Hr1 Hsp1 Hp1 Hpub. apply list_elem_of_fmap. exists (o1, p1). split; [done|]. apply Hall, positions_elem.
    exists r1. split_and!; try done. by apply bool_decide_eq_true_2. }
  destruct (o_pos r) as [p|] eqn:Hp; [destruct Hu as [?|Hpub]; [congruence|]; by eapply Hpos|].
  destruct (numbered_from o r Hr) as (r0 & Hr0 & Hsp0 & _ & [[Hp0 Hnp]|(_ & _ & [? ?] & _)]); [|congruence].
  assert (Hun : o ∈ unnumbered s sp) by (apply unnumbered_elem; exists r0; split_and!; congruence).
  pose proof (firsts_full Z.le batch _ _ Hun Hnp) as Hfull. fold (picked s sp batch) in Hfull.
  assert (Hsub : picked s sp batch ⊆+ map fst (unpublishedIn s' sp batch)).
  { apply NoDup_submseteq; [apply picked_NoDup|]. intros o1 Ho1. destruct (picked_elem _ _ _ _ Ho1) as (r1 & Hr1 & Hsp1 & Hp1).
    destruct (numbered_has _ _ Hr1) as [r2 Hr2].
    destruct (numbered_from _ _ Hr2) as (r3 & Hr3 & Hsp3 & Hpub3 & [[_ []]|(_ & _ & [p2 Hp2] & _)]); [done|].
    assert (r3 = r1) as -> by congruence. eapply (Hpos o1 p2 r2); try congruence. rewrite Hpub3. by eapply Hwf. }
  apply submseteq_length in Hsub. rewrite length_map in Hsub. lia.
Qed.

End batch.

(** The rows of some partitions. *)
Definition rowsOf (parts : list streamPart) (s : store) (dn : list Z) : Prop := ∀ o r, o ∈ dn → outbox s !! o = Some r → partOf r ∈ parts.

(** What one turn at a partition leaves: rows are only finished, none is begun anew. *)
Record turned (f : Forwarder) (s s' : store) (done : list Z) : Prop := {
  tu_alike : alike f s s';
  tu_wf : numberedFirst s';
  tu_rows : unfinishedRows s' ## list_to_set done;
  tu_sub : unfinishedRows s' ⊆ unfinishedRows s;
  tu_all : unfinishedRows s ⊆ unfinishedRows s' ∪ list_to_set done;
  tu_parts : ∀ o r', outbox s' !! o = Some r' → ∃ r, outbox s !! o = Some r ∧ partOf r' = partOf r;
  tu_done : list_to_set done ⊆ unfinishedRows s;
  tu_once : NoDup done }.

Lemma mark_row ords claimed s o r' :
  outbox (markPublished ords claimed s) !! o = Some r' ↔
  ∃ r, outbox s !! o = Some r ∧
    r' = if bool_decide (o ∈ ords ∧ o_published r = None) then markOne (dbNow s) claimed o r else r.
Proof.
  unfold markPublished. cbn. rewrite map_lookup_imap. destruct (outbox s !! o) as [r|]; cbn; [|naive_solver].
  split; [intros [= <-]; eauto|]. by intros (r0 & [= <-] & ->).
Qed.

(** The rows of a batch published and marked. *)
Definition markDone (s : store) (dn : list Z) : store :=
  match dn with [] => s | _ => markPublished dn (filter (λ o, isLarge s o) dn) s end.

Lemma marked_from s2 sp batch o r3 :
  outbox (markDone s2 (map fst (unpublishedIn s2 sp batch))) !! o = Some r3 →
  ∃ r2, outbox s2 !! o = Some r2 ∧ partOf r3 = partOf r2 ∧ o_pos r3 = o_pos r2 ∧
    ((o ∉ map fst (unpublishedIn s2 sp batch) ∧ o_published r3 = o_published r2) ∨
     (o ∈ map fst (unpublishedIn s2 sp batch) ∧ is_Some (o_published r3) ∧ is_Some (o_pos r2))).
Proof.
  assert (Hpos : ∀ o r2, o ∈ map fst (unpublishedIn s2 sp batch) → outbox s2 !! o = Some r2 → is_Some (o_pos r2)).
  { intros o' r2 Hin Hr2. apply list_elem_of_fmap in Hin as ([o2 p] & Heq & Hin). cbn in Heq. subst o2.
    apply batch_elem in Hin as (r & Hr & _ & Hp & _). assert (r = r2) as -> by congruence. eauto. }
  unfold markDone. destruct (map fst (unpublishedIn s2 sp batch)) as [|d0 dn0].
  - intros Hr. exists r3. split_and!; try done. left. split; [apply not_elem_of_nil|done].
  - intros (r2 & Hr2 & ->)%mark_row. exists r2. case_bool_decide as Hb.
    + split_and!; try done. right. destruct Hb as [Hin _]. split; [done|]. split; [by eexists|by eapply Hpos].
    + split_and!; try done. destruct (decide (o ∈ d0 :: dn0)) as [Hin|]; [|by left]. right. split; [done|].
      assert (Hp : o_published r2 ≠ None) by tauto. split; [by destruct (o_published r2)|by eapply Hpos].
Qed.

Lemma partition_turn asked f sp w now :
  leasable f (w_store w) sp → dbEpoch (w_store w) = Some now → numberedFirst (w_store w) →
  ∃ f' w' done, partition (λ _ _, true) asked f sp w = (List.length done, false, f', w') ∧
    f_owner f' = f_owner f ∧ f_Lease f' = f_Lease f ∧ f_Batch f' = f_Batch f ∧ w_log w' = w_log w ++ done ∧
    turned f (w_store w) (w_store w') done ∧ rowsOf [sp] (w_store w) done ∧
    (List.length done ≠ f_Batch f → hasRows (w_store w') sp = false).
Proof.
  intros Hl Hd Hwf. destruct (lease_ok asked f sp (w_store w) Hl) as (f' & s1 & Hle & Ho & HL & HB & Hout & Hal).
  unfold partition. rewrite Hle. cbn [negb]. rewrite <- (al_epoch _ _ _ Hal) in Hd.
  assert (Hwf1 : numberedFirst s1) by (unfold numberedFirst; by rewrite Hout).
  destruct (numberIn_runs s1 sp (f_Batch f') now Hd) as (n & s2 & Hn). unfold takeBatch, tbind, tget, tret. rewrite Hn.
  rewrite publishAll_all. set (rows := unpublishedIn s2 sp (f_Batch f')). set (dn := map fst rows).
  change (match dn with [] => s2 | _ => markPublished dn (filter (λ o, isLarge s2 o) dn) s2 end) with (markDone s2 dn).
  set (s3 := markDone s2 dn).
  exists f', (MkWorld s3 (w_log w ++ dn)), dn. split; [done|]. split; [done|]. split; [done|]. split; [done|]. split; [done|].
  pose proof (marked_from s2 sp (f_Batch f')) as Hrow. change (markDone s2 dn) with s3 in Hrow.
  pose proof (numbered_from s1 s2 sp (f_Batch f') n Hn) as Hfrom. pose proof (numbered_wf s1 s2 sp (f_Batch f') n Hwf1 Hn) as Hwf2.
  assert (Hun2 : ∀ o r2, outbox s2 !! o = Some r2 → unfinished r2 → o ∈ unfinishedRows (w_store w)).
  { intros o r2 Hr2 Hu. destruct (Hfrom o r2 Hr2) as (r & Hr & _ & Hpub & Hpos). rewrite Hout in Hr.
    apply unfinishedRows_elem. exists r. split; [done|]. unfold unfinished in *. destruct Hpos as [[Hp _]|(_ & Hp & _)]; [|by left].
    by rewrite <- Hp, <- Hpub. }
  assert (Hkeep : ∀ o r, outbox (w_store w) !! o = Some r → unfinished r → ∃ r2, outbox s2 !! o = Some r2 ∧ unfinished r2).
  { intros o r Hr Hu. rewrite <- Hout in Hr. destruct (numbered_has s1 s2 sp (f_Batch f') n Hn o r Hr) as [r2 Hr2]. exists r2. split; [done|].
    destruct (Hfrom o r2 Hr2) as (r0 & Hr0 & _ & Hpub & _). assert (r0 = r) as -> by congruence. right. rewrite Hpub.
    destruct Hu as [Hu|Hu]; [by eapply Hwf1|done]. }
  assert (Hmark : ∀ o r2, outbox s2 !! o = Some r2 → unfinished r2 → o ∉ dn → o ∈ unfinishedRows s3).
  { intros o r2 Hr2 Hu Hno. apply unfinishedRows_elem. exists r2. split; [|done]. unfold s3, markDone. destruct dn as [|d0 dn0]; [done|].
    apply mark_row. exists r2. split; [done|]. by rewrite bool_decide_eq_false_2 by (intros [Hx _]; by apply Hno). }
  split; [split|split].
  - eapply alike_trans; [exact Hal|]. eapply alike_trans; [by eapply number_alike|]. unfold s3, markDone. by destruct dn.
  - intros o r3 (r2 & Hr2 & _ & Hp & [[_ Hpub]|(_ & _ & [? ?])])%Hrow Hnone; [|congruence]. rewrite Hpub. eapply Hwf2; [exact Hr2|congruence].
  - intros o (r3 & Hr3 & Hu)%unfinishedRows_elem Hdn%elem_of_list_to_set.
    destruct (Hrow o r3 Hr3) as (r2 & Hr2 & _ & Hp & [[? _]|(_ & [? ?] & [? ?])]); [done|]. destruct Hu; congruence.
  - intros o (r3 & Hr3 & Hu)%unfinishedRows_elem.
    destruct (Hrow o r3 Hr3) as (r2 & Hr2 & _ & Hp & [[_ Hpub]|(_ & [? ?] & [? ?])]); [|destruct Hu; congruence].
    eapply Hun2; [exact Hr2|]. unfold unfinished in *. by rewrite <- Hp, <- Hpub.
  - intros o (r & Hr & Hu)%unfinishedRows_elem. destruct (Hkeep o r Hr Hu) as (r2 & Hr2 & Hu2). apply elem_of_union.
    destruct (decide (o ∈ dn)) as [|Hno]; [right; by apply elem_of_list_to_set|left; by eapply Hmark].
  - intros o r3 (r2 & Hr2 & -> & _)%Hrow. destruct (Hfrom o r2 Hr2) as (r & Hr & -> & _). rewrite Hout in Hr. eauto.
  - intros o Hin%elem_of_list_to_set. unfold dn in Hin. apply list_elem_of_fmap in Hin as ([o' p] & Heq & Hin). cbn in Heq. subst o'.
    apply batch_elem in Hin as (r & Hr & _ & _ & Hp). eapply Hun2; [exact Hr|]. by right.
  - apply takeBatch_NoDup.
  - intros o r Hin Hr. unfold dn in Hin. apply list_elem_of_fmap in Hin as ([o' p] & Heq & Hin). cbn in Heq. subst o'.
    apply batch_elem in Hin as (r2 & Hr2 & Hsp & _). destruct (Hfrom o r2 Hr2) as (r0 & Hr0 & Hp0 & _). rewrite Hout in Hr0.
    apply list_elem_of_singleton. congruence.
  - intros Hne. apply hasRows_false. intros o r3 Hr3 Hsp Hu.
    destruct (Hrow o r3 Hr3) as (r2 & Hr2 & Hsp2 & Hp & [[Hnd Hpub]|(_ & [? ?] & [? ?])]); [|destruct Hu; congruence].
    apply Hnd. unfold dn. eapply (short_batch s1 s2 sp (f_Batch f') n Hwf1 Hn o r2); [|done|congruence|].
    + unfold dn, rows in *. rewrite length_map in Hne. rewrite <- HB in Hne. unfold unpublishedIn in *. rewrite length_take in *. lia.
    + unfold unfinished in *. by rewrite <- Hp, <- Hpub.
Qed.

Lemma turned_trans f s1 s2 s3 d1 d2 : turned f s1 s2 d1 → turned f s2 s3 d2 → turned f s1 s3 (d1 ++ d2).
Proof.
  intros [A1 W1 R1 S1 L1 P1 D1 O1] [A2 W2 R2 S2 L2 P2 D2 O2]. split.
  - by eapply alike_trans.
  - done.
  - rewrite list_to_set_app. set_solver.
  - set_solver.
  - rewrite list_to_set_app. set_solver.
  - intros o r3 (r2 & Hr2 & ->)%P2. destruct (P1 _ _ Hr2) as (r1 & Hr1 & ->). eauto.
  - rewrite list_to_set_app. set_solver.
  - apply NoDup_app. split; [done|]. split; [|done]. intros o H1 H2.
    assert (o ∈ unfinishedRows s2) by (apply D2; by apply elem_of_list_to_set).
    apply (R1 o); [done|by apply elem_of_list_to_set].
Qed.

Lemma rowsOf_before f s1 s2 d1 d2 s3 parts : turned f s1 s2 d1 → turned f s2 s3 d2 → rowsOf parts s2 d2 → rowsOf parts s1 d2.
Proof.
  intros T1 T2 Hm o r Hin Hr. assert (Hu : o ∈ unfinishedRows s2) by (apply (tu_done _ _ _ _ T2); by apply elem_of_list_to_set).
  apply unfinishedRows_elem in Hu as (r2 & Hr2 & _). destruct (tu_parts _ _ _ _ T1 _ _ Hr2) as (r0 & Hr0 & Hp).
  assert (r0 = r) as -> by congruence. rewrite <- Hp. by eapply Hm.
Qed.
Lemma rowsOf_app parts s d1 d2 : rowsOf parts s (d1 ++ d2) ↔ rowsOf parts s d1 ∧ rowsOf parts s d2.
Proof.
  split; [intros Hm; split; intros o r Ho; apply Hm, elem_of_app; auto|]. intros [H1 H2] o r [Ho|Ho]%elem_of_app; eauto.
Qed.
Lemma rowsOf_mono parts parts' s dn : parts ⊆ parts' → rowsOf parts s dn → rowsOf parts' s dn.
Proof. intros Hs Hm o r Ho Hr. by eapply Hs, Hm. Qed.

Lemma turned_count f s s' dn : turned f s s' dn → (size (unfinishedRows s') + List.length dn ≤ size (unfinishedRows s))%nat.
Proof.
  intros T. rewrite <- (size_list_to_set (C := gset Z) dn) by apply (tu_once _ _ _ _ T).
  rewrite <- size_union by apply (tu_rows _ _ _ _ T). apply subseteq_size.
  pose proof (tu_sub _ _ _ _ T). pose proof (tu_done _ _ _ _ T). set_solver.
Qed.

(** A partition with nothing to do stays so. *)
Lemma turned_idle f s s' dn sp : turned f s s' dn → hasRows s sp = false → hasRows s' sp = false.
Proof.
  intros T. rewrite !hasRows_false. intros Hn o r' Hr' Hsp Hu. destruct (tu_parts _ _ _ _ T _ _ Hr') as (r & Hr & Hp).
  assert (Hin : o ∈ unfinishedRows s') by (apply unfinishedRows_elem; eauto).
  apply (tu_sub _ _ _ _ T), unfinishedRows_elem in Hin as (r2 & Hr2 & Hu2). assert (r2 = r) as -> by congruence.
  eapply Hn; [exact Hr|congruence|done].
Qed.

Lemma turned_refl f s : numberedFirst s → turned f s s [].
Proof. intros Hwf. split; [by split|done|cbn; set_solver|done|cbn; set_solver|eauto|cbn; set_solver|constructor]. Qed.
Lemma turned_owner f f' s s' dn : f_owner f' = f_owner f → f_Lease f' = f_Lease f → turned f s s' dn → turned f' s s' dn.
Proof. intros Ho Hl [A W R S L P D O]. split; try done. by eapply alike_owner. Qed.

(** The settings of a forwarder do not change. *)
Definition sameForwarder (f f' : Forwarder) : Prop := f_owner f' = f_owner f ∧ f_Lease f' = f_Lease f ∧ f_Batch f' = f_Batch f.

Lemma leasable_owner f f' s sp : sameForwarder f f' → leasable f s sp → leasable f' s sp.
Proof. intros (Ho & Hl & _). unfold leasable. by rewrite Ho, Hl. Qed.

Lemma round_turn asked parts : ∀ f w now,
  (∀ sp, sp ∈ parts → leasable f (w_store w) sp) → dbEpoch (w_store w) = Some now → numberedFirst (w_store w) → (0 < f_Batch f)%nat →
  ∃ f' w' dn full, round (λ _ _, true) asked f parts w = (List.length dn, false, full, f', w') ∧ sameForwarder f f' ∧
    w_log w' = w_log w ++ dn ∧ turned f (w_store w) (w_store w') dn ∧ rowsOf parts (w_store w) dn ∧ full ⊆ parts ∧
    (∀ sp, sp ∈ parts → sp ∉ full → hasRows (w_store w') sp = false) ∧ (full ≠ [] → (0 < List.length dn)%nat).
Proof.
  induction parts as [|sp parts IH]; intros f w now Hl Hd Hwf HB.
  - exists f, w, [], []. cbn. rewrite app_nil_r. split_and!; try done; first [by apply turned_refl|by intros sp ?%elem_of_nil|by intros o r ?%elem_of_nil].
  - destruct (partition_turn asked f sp w now) as (f1 & w1 & d1 & Hp & Ho & HL & HB1 & Hlog & T1 & Hm1 & Hidle); [apply Hl; by left|done..|].
    destruct (IH f1 w1 now) as (f2 & w2 & d2 & full & Hr & (Ho2 & HL2 & HB2) & Hlog2 & T2 & Hm2 & Hsub & Hidle2 & Hne).
    + intros sp' Hin. apply (leasable_owner f); [by split_and!|]. apply (al_lease _ _ _ (tu_alike _ _ _ _ T1)), Hl. by right.
    + by rewrite (al_epoch _ _ _ (tu_alike _ _ _ _ T1)).
    + apply T1.
    + lia.
    + cbn [round]. rewrite Hp, Hr. cbn [negb andb orb]. pose proof (turned_owner f1 f _ _ _ (eq_sym Ho) (eq_sym HL) T2) as T2'.
      exists f2, w2, (d1 ++ d2). rewrite length_app.
      assert (HBB : f_Batch f2 = f_Batch f) by congruence.
      assert (Hm : rowsOf (sp :: parts) (w_store w) (d1 ++ d2)).
      { apply rowsOf_app. split; [by eapply rowsOf_mono; [|exact Hm1]; set_solver|].
        eapply rowsOf_mono; [|eapply (rowsOf_before _ _ _ _ _ _ _ T1 T2' Hm2)]. set_solver. }
      assert (Hrest : ∀ sp', sp' ∈ parts → sp' ∉ full → hasRows (w_store w2) sp' = false) by done.
      destruct (bool_decide (List.length d1 = f_Batch f2)) eqn:Hfull.
      * apply bool_decide_eq_true in Hfull. exists (sp :: full). split; [done|]. split; [split_and!; congruence|].
        split; [by rewrite Hlog2, Hlog, app_assoc|]. split; [by eapply turned_trans|]. split; [done|]. split; [set_solver|].
        split; [intros sp' Hin Hno; apply Hrest; set_solver|lia].
      * apply bool_decide_eq_false in Hfull. exists full. split; [done|]. split; [split_and!; congruence|].
        split; [by rewrite Hlog2, Hlog, app_assoc|]. split; [by eapply turned_trans|]. split; [done|]. split; [set_solver|].
        split; [|intros Hf; specialize (Hne Hf); lia].
        intros sp' [->|Hin]%elem_of_cons Hno; [|by apply Hrest]. eapply (turned_idle _ _ _ _ _ T2). apply Hidle. lia.
Qed.

Lemma forward_turn asked fuel : ∀ f w parts now,
  (∀ sp, sp ∈ parts → leasable f (w_store w) sp) → dbEpoch (w_store w) = Some now → numberedFirst (w_store w) →
  (0 < f_Batch f)%nat → (size (unfinishedRows (w_store w)) < fuel)%nat →
  ∃ f' w' dn, forward fuel (λ _ _, true) asked f parts w = Some (List.length dn, false, f', w') ∧
    w_log w' = w_log w ++ dn ∧ turned f (w_store w) (w_store w') dn ∧ rowsOf parts (w_store w) dn ∧
    (∀ sp, sp ∈ parts → hasRows (w_store w') sp = false).
Proof.
  induction fuel as [|fuel IH]; intros f w parts now Hl Hd Hwf HB Hfuel; [lia|].
  destruct parts as [|sp0 parts0] eqn:Hparts.
  { exists f, w, []. cbn. rewrite app_nil_r. split_and!; try done; first [by apply turned_refl|by intros sp ?%elem_of_nil|by intros o r ?%elem_of_nil]. }
  rewrite <- Hparts in *.
  destruct (round_turn asked parts f w now Hl Hd Hwf HB) as (f1 & w1 & d1 & full & Hr & (Ho & HL & HB1) & Hlog & T1 & Hm1 & Hsub & Hidle & Hne).
  assert (Hs : forward (S fuel) (λ _ _, true) asked f parts w =
    match forward fuel (λ _ _, true) asked f1 full w1 with
    | None => None
    | Some (n', failed', f, w) => Some ((List.length d1 + n')%nat, failed', f, w)
    end).
  { rewrite Hparts in *. cbn [forward]. rewrite Hr. done. }
  rewrite Hs. clear Hs. destruct full as [|sp1 full1] eqn:Hfull.
  - destruct fuel; cbn [forward]; exists f1, w1, d1; rewrite Nat.add_0_r; split_and!; try done;
      (intros sp Hin; apply Hidle; [done|apply not_elem_of_nil]).
  - rewrite <- Hfull in *. pose proof (turned_count _ _ _ _ T1) as Hcount.
    destruct (IH f1 w1 full now) as (f2 & w2 & d2 & Hf & Hlog2 & T2 & Hm2 & Hi2).
    + intros sp Hin. apply (leasable_owner f); [by split_and!|]. apply (al_lease _ _ _ (tu_alike _ _ _ _ T1)), Hl. by apply Hsub.
    + by rewrite (al_epoch _ _ _ (tu_alike _ _ _ _ T1)).
    + apply T1.
    + lia.
    + assert (0 < List.length d1)%nat by (apply Hne; by rewrite Hfull). lia.
    + rewrite Hf. pose proof (turned_owner f1 f _ _ _ (eq_sym Ho) (eq_sym HL) T2) as T2'. exists f2, w2, (d1 ++ d2).
      rewrite length_app. split_and!; try done; [by rewrite Hlog2, Hlog, app_assoc|by eapply turned_trans| |].
      { apply rowsOf_app. split; [done|]. eapply rowsOf_mono; [exact Hsub|]. by eapply rowsOf_before. }
      intros sp Hin. destruct (decide (sp ∈ full)) as [|Hno]; [by apply Hi2|].
      eapply (turned_idle _ _ _ _ _ T2'). by apply Hidle.
Qed.


(** ** An outbox to see it on *)

Definition bolt : streamPart := ("erp.stock", r_Partition stockRow).
Definition boltEmission (id : string) : emission := MkEmission (Some ("e0", 2)) {[ "traceparent" := "00-1" ]} id 1000.
Definition boltRow (id : string) : Row :=
  MkRow id "erp.stock" (r_Partition stockRow) "erp.stock.moved.v1" 1000 "Bolt" 7 Full "acme" (Some ["ann"]) "e0" 3
    {[ "traceparent" := "00-1" ]} "{qty:3}" (Digest id "{qty:3}").
Lemma bolt_emits id : Emit stockProducer (boltEmission id) "erp.stock" stockMoved = Ok (boltRow id).
Proof. reflexivity. Qed.

Definition emitted (k : nat) (id : string) (y : sys) : sys :=
  MkSys (y_db y) (y_next y + 1) (y_open y ++ [(k, (y_next y, boltRow id))]) (y_work y) (y_log y) (y_numbered y) (y_top y).
Definition commits (k : nat) (y : sys) : sys :=
  MkSys (set_outbox (λ m, m ∪ committed (ofTx k (y_open y))) (y_db y)) (y_next y) (others k (y_open y))
    (y_work y) (y_log y) (y_numbered y) (y_top y).
Definition numbers (y : sys) : sys :=
  match numberIn bolt 10 (y_db y) with
  | Ok (_, s) => MkSys s (y_next y) (y_open y) (y_work y) (y_log y) (y_numbered y ++ newly (y_db y) bolt 10) (y_top y)
  | Err _ => y
  end.
Definition reads (y : sys) : sys := with_work (<[0%nat := (unpublishedIn (y_db y) bolt 10, [])]> (y_work y)) y.
Definition publishes (y : sys) : sys :=
  match y_work y !! 0%nat with
  | Some ((o, pt) :: rows, dn) =>
      MkSys (y_db y) (y_next y) (y_open y) (<[0%nat := (rows, dn ++ [o])]> (y_work y)) (y_log y ++ [o]) (y_numbered y) (y_top y)
  | _ => y
  end.

Lemma steps_emitted k id y : rtc (step stockProducer) y (emitted k id y).
Proof. apply rtc_once. eapply step_emit. apply bolt_emits. Qed.
Lemma steps_commits k y : rtc (step stockProducer) y (commits k y).
Proof. apply rtc_once. apply step_commit. Qed.
Lemma steps_numbers y : rtc (step stockProducer) y (numbers y).
Proof.
  unfold numbers. destruct (numberIn bolt 10 (y_db y)) as [[n s]|] eqn:Hn; [|done]. apply rtc_once. by eapply step_number.
Qed.
Lemma steps_reads y : y_work y !! 0%nat = None → rtc (step stockProducer) y (reads y).
Proof. intros Hw. apply rtc_once. by apply step_read. Qed.
Lemma steps_publishes y : rtc (step stockProducer) y (publishes y).
Proof.
  unfold publishes. destruct (y_work y !! 0%nat) as [[[|[o pt] rows] dn]|] eqn:Hw; try done. apply rtc_once.
  by eapply step_publish.
Qed.

(** One event is committed; a second one is emitted and committed; both are numbered, read
    and published. *)
Definition boltOne : sys := commits 1 (emitted 1 "e1" (initial (MkEpoch 1 1))).
Definition boltTwo : sys := numbers (commits 2 (emitted 2 "e2" boltOne)).
Definition boltRun : sys := publishes (publishes (reads boltTwo)).

Example bolt_run : y_log boltRun = [0; 1] ∧
  y_numbered boltRun = [(bolt, MkPoint (MkEpoch 1 1) 1, 0); (bolt, MkPoint (MkEpoch 1 1) 2, 1)].
Proof. by vm_compute. Qed.

Lemma boltOne_reachable : reachable stockProducer boltOne.
Proof. exists (MkEpoch 1 1). etrans; [apply steps_emitted|apply steps_commits]. Qed.
Lemma boltTwo_steps : rtc (step stockProducer) boltOne boltTwo.
Proof. etrans; [apply steps_emitted|]. etrans; [apply steps_commits|apply steps_numbers]. Qed.
Lemma boltRun_reachable : reachable stockProducer boltRun.
Proof.
  destruct boltOne_reachable as [e He]. exists e. etrans; [exact He|].
  etrans; [apply boltTwo_steps|]. etrans; [by apply steps_reads|].
  etrans; apply steps_publishes.
Qed.

Lemma positions_dense_witness :
  (∀ sp pt o sp' pt', (sp, pt, o) ∈ y_numbered boltRun → (sp', pt', o) ∈ y_numbered boltRun → sp = sp' ∧ pt = pt') ∧
  (∀ o r pt, outbox (y_db boltRun) !! o = Some r → o_pos r = Some pt ↔ (partOf r, pt, o) ∈ y_numbered boltRun) ∧
  (∀ i j sp pt pt' o o', y_numbered boltRun !! i = Some (sp, pt, o) → y_numbered boltRun !! j = Some (sp, pt', o') →
     pointLess pt pt' = true ↔ (i < j)%nat) ∧
  (∀ sp e q o, (sp, MkPoint e q, o) ∈ y_numbered boltRun → 1 ≤ q ∧
     ∀ q', 1 ≤ q' < q → ∃ o', (sp, MkPoint e q', o') ∈ y_numbered boltRun).
Proof. exact (positions_dense stockProducer boltRun boltRun_reachable). Defined.

Lemma published_in_order_witness :
  (∀ i o sp pt, y_log boltRun !! i = Some o → (sp, pt, o) ∈ y_numbered boltRun →
     ∀ pt1 o1, (sp, pt1, o1) ∈ y_numbered boltRun → pointLess pt1 pt = true → ∃ j, (j < i)%nat ∧ y_log boltRun !! j = Some o1) ∧
  (∀ i o, y_log boltRun !! i = Some o → ∃ sp pt, (sp, pt, o) ∈ y_numbered boltRun) ∧
  (∀ sp pt o, (sp, pt, o) ∈ y_numbered boltRun → outbox (y_db boltRun) !! o = None → o ∈ y_log boltRun).
Proof. exact (published_in_order stockProducer boltRun boltRun_reachable). Defined.

Lemma causal_order_witness :
  ∃ pt1, (bolt, pt1, 0) ∈ y_numbered boltTwo ∧ pointLess pt1 (MkPoint (MkEpoch 1 1) 2) = true.
Proof.
  apply (causal_order stockProducer boltOne boltTwo 0 (fresh (boltRow "e1")) (MkPoint (MkEpoch 1 1) 2) 1).
  - exact boltOne_reachable.
  - by vm_compute.
  - exact boltTwo_steps.
  - apply (list_elem_of_lookup_2 _ 1%nat). by vm_compute.
  - by vm_compute.
Defined.

Definition boltForwarder : Forwarder := MkForwarder "f1" (10 * Second) 1 ∅.
Definition boltStore : store := y_db (commits 2 (emitted 2 "e2" boltOne)).

