(* ===== verification/EventsQueue.v ===== *)
(** * Events: the PostgreSQL queue

    events/pgqueue/pgqueue.go: the tables of the bus and the statements on them ([Publish],
    [Subscribe], [advance], [claim], [claimOrdered], [settle], [giveUp], [Purge] and the
    renewal of a lease).  A statement is one atomic operation on the tables; the transaction
    identifiers and the snapshot's lower bound ([pg_snapshot_xmin]) are given by the system
    of [EventsBus]. *)
From S2P Require Import Prelude GoStr EventsStream EventsEnvelope.
From Stdlib Require Import Ascii String.
Open Scope string_scope.
Open Scope Z_scope.
Open Scope list_scope.

Definition MaxMessage : Z := 1048576.

(** [size]. *)
Definition size_ (m : Message) : Z :=
  Z.of_nat (String.length (m_Data m) + String.length (m_Subject m)) +
  map_fold (λ k v n, n + Z.of_nat (String.length k + String.length v)) 0 (m_Headers m).

(** ** The tables *)

(** be_bus_message, by [seq]. *)
Record bmsg := MkBMsg { b_xid : Z; b_id : option string; b_msg : Message; b_at : Z }.
(** be_bus_subscription, by durable; the waits in milliseconds. *)
Record bsub := MkBSub {
  u_Streams : list string; u_Filters : list string; u_MaxDeliver : Z; u_AckWait : Z; u_Backoff : list Z; u_pos : Z * Z }.
(** be_bus_delivery, by durable and [seq]. *)
Record delivery := MkDelivery {
  d_flight : bool; d_attempts : Z; d_token : option nat; d_until : Z; d_notBefore : Z }.

Record queue := MkQueue {
  q_messages : gmap Z bmsg; q_subs : gmap string bsub; q_deliveries : gmap (string * Z) delivery; q_now : Z }.

Definition set_deliveries (f : gmap (string * Z) delivery → gmap (string * Z) delivery) (q : queue) : queue :=
  MkQueue (q_messages q) (q_subs q) (f (q_deliveries q)) (q_now q).

(** The order of positions in the queue. *)
Definition posLt (a b : Z * Z) : Prop := a.1 < b.1 ∨ (a.1 = b.1 ∧ a.2 < b.2).
#[export] Instance posLt_dec a b : Decision (posLt a b).
Proof. unfold posLt. apply _. Defined.
Definition posLe (a b : Z * Z) : Prop := ¬ posLt b a.
#[export] Instance posLe_dec a b : Decision (posLe a b).
Proof. unfold posLe. apply _. Defined.

(** ** Publishing *)

Inductive perr := TooLarge.

(** [Publish]'s row; none for a message identity the table has. *)
Definition dedupKey (m : Message) : option string := if decide (DedupID m = "") then None else Some (DedupID m).
Definition duplicate (q : queue) (m : Message) : bool :=
  match dedupKey m with
  | None => false
  | Some id => existsb (λ '(_, b), bool_decide (b_id b = Some id)) (map_to_list (q_messages q))
  end.
Definition publishRow (q : queue) (xid seq_ : Z) (m : Message) : res perr queue :=
  if decide (MaxMessage < size_ m) then Err TooLarge
  else if duplicate q m then Ok q
  else Ok (MkQueue (<[seq_ := MkBMsg xid (dedupKey m) m (q_now q)]> (q_messages q)) (q_subs q) (q_deliveries q) (q_now q)).

(** ** Subscribing *)

(** Durations are stored in milliseconds, as 32-bit integers. *)
Definition Millisecond : Z := 1000000.
Definition int32 (n : Z) : Z := (n + 2147483648) mod 4294967296 - 2147483648.
Definition toMs (d : Z) : Z := int32 (Z.quot d Millisecond).

(** The row [Subscribe] inserts when there is none; [pos0] is the table's default position. *)
Definition subRow (pos0 : Z * Z) (s : SubscriptionSpec) : bsub :=
  MkBSub (ss_Streams s) (ss_Filters s) (ss_MaxDeliver s) (toMs (ss_AckWait s)) (map toMs (ss_Backoff s)) pos0.
Definition subscribe (pos0 : Z * Z) (spec : SubscriptionSpec) (q : queue) : queue :=
  let spec := withDefaults spec in
  match q_subs q !! ss_Durable spec with
  | Some _ => q
  | None => MkQueue (q_messages q) (<[ss_Durable spec := subRow pos0 spec]> (q_subs q)) (q_deliveries q) (q_now q)
  end.

(** [load]: the stored settings, with the instance's concurrency and order. *)
Definition load (q : queue) (durable : string) (concurrency : Z) (ordered : bool) : option SubscriptionSpec :=
  (λ u, withDefaults (MkSubscriptionSpec durable (u_Streams u) (u_Filters u) (u_MaxDeliver u) (u_AckWait u * Millisecond)
          (map (λ b, b * Millisecond) (u_Backoff u)) concurrency ordered)) <$> q_subs q !! durable.

(** ** Reading *)

Definition advanceBatch : nat := 500.

Definition rowPos (x : Z * bmsg) : Z * Z := (b_xid x.2, x.1).
Definition rowPosLe (x y : Z * bmsg) : Prop := posLe (rowPos x) (rowPos y).
#[export] Instance rowPosLe_dec x y : Decision (rowPosLe x y).
Proof. unfold rowPosLe. apply _. Defined.

(** The messages after a position and below [xmin], in order. *)
Definition nextMessages (q : queue) (pos : Z * Z) (xmin : Z) : list (Z * bmsg) :=
  take advanceBatch (merge_sort rowPosLe
    (filter (λ x, posLt pos (rowPos x) ∧ b_xid x.2 < xmin) (map_to_list (q_messages q)))).

Definition newDelivery (now : Z) : delivery := MkDelivery false 0 None now now.
(** INSERT ... ON CONFLICT DO NOTHING. *)
Definition queueOne (durable : string) (now seq_ : Z) (m : gmap (string * Z) delivery) : gmap (string * Z) delivery :=
  match m !! (durable, seq_) with Some _ => m | None => <[(durable, seq_) := newDelivery now]> m end.

(** [advance]: whether the position moved. *)
Definition advance (xmin : Z) (s : SubscriptionSpec) (q : queue) : bool * queue :=
  match q_subs q !! ss_Durable s with
  | None => (false, q)
  | Some u =>
      let rows := nextMessages q (u_pos u) xmin in
      match last rows with
      | None => (false, q)
      | Some x =>
          let seqs := omap (λ y, if matches s (m_Subject (b_msg y.2)) then Some y.1 else None) rows in
          (true,
           MkQueue (q_messages q)
             (<[ss_Durable s := MkBSub (u_Streams u) (u_Filters u) (u_MaxDeliver u) (u_AckWait u) (u_Backoff u) (rowPos x)]> (q_subs q))
             (foldr (queueOne (ss_Durable s) (q_now q)) (q_deliveries q) seqs) (q_now q))
      end
  end.

(** ** Delivering *)

(** The deliveries of a durable, in the order of their messages. *)
Definition ofDurable (q : queue) (durable : string) : list (Z * delivery) :=
  omap (λ '((d, n), x), if decide (d = durable) then Some (n, x) else None) (map_to_list (q_deliveries q)).
Definition seqLe (x y : Z * delivery) : Prop := x.1 ≤ y.1.
#[export] Instance seqLe_dec x y : Decision (seqLe x y).
Proof. unfold seqLe. apply _. Defined.

Definition isReady (now : Z) (x : delivery) : bool := negb (d_flight x) && bool_decide (d_notBefore x ≤ now).
Definition isExpired (now maxDeliver : Z) (x : delivery) : bool :=
  d_flight x && bool_decide (d_until x < now) && bool_decide (d_attempts x < maxDeliver).
Definition isDue (now maxDeliver : Z) (x : delivery) : bool := isReady now x || isExpired now maxDeliver x.

(** The row a claim takes: the first due one, or the first one when it is due. *)
Definition dueRow (s : SubscriptionSpec) (q : queue) : option (Z * delivery) :=
  let rows := merge_sort seqLe (ofDurable q (ss_Durable s)) in
  if ss_Ordered s then
    match rows with
    | x :: _ => if isDue (q_now q) (ss_MaxDeliver s) x.2 then Some x else None
    | [] => None
    end
  else List.find (λ x, isDue (q_now q) (ss_MaxDeliver s) x.2) rows.

Definition claimed (s : SubscriptionSpec) (token : nat) (now : Z) (x : delivery) : delivery :=
  MkDelivery true (d_attempts x + 1) (Some token) (now + ss_AckWait s) (d_notBefore x).

(** A delivery handed to a worker. *)
Record claimRow := MkClaim { k_durable : string; k_seq : Z; k_token : nat; k_attempt : Z; k_msg : Message }.

(** [claim] and [claimOrdered]: the delivery, and the tables; one whose message is gone is
    dropped. *)
Definition claim (s : SubscriptionSpec) (token : nat) (q : queue) : option claimRow * queue :=
  match dueRow s q with
  | None => (None, q)
  | Some (n, x) =>
      match q_messages q !! n with
      | None => (None, set_deliveries (delete (ss_Durable s, n)) q)
      | Some b => (Some (MkClaim (ss_Durable s) n token (d_attempts x + 1) (b_msg b)),
                   set_deliveries (<[(ss_Durable s, n) := claimed s token (q_now q) x]>) q)
      end
  end.

(** ** Settling *)

Inductive Outcome := Ack | Nak | Term.
#[export] Instance Outcome_eq_dec : EqDecision Outcome.
Proof. solve_decision. Defined.

(** The rows a token names. *)
Definition holdsToken (durable : string) (token : nat) (k : string * Z) (x : delivery) : bool :=
  bool_decide (k.1 = durable) && bool_decide (d_token x = Some token) && d_flight x.
Definition removes (maxDeliver attempt : Z) (out : Outcome) : bool :=
  match out with Ack => true | Term => true | Nak => bool_decide (maxDeliver ≤ attempt) end.

(** [settle]. *)
Definition settle (s : SubscriptionSpec) (attempt : Z) (token : nat) (out : Outcome) (q : queue) : queue :=
  if removes (ss_MaxDeliver s) attempt out then
    set_deliveries (filter (λ '(k, x), holdsToken (ss_Durable s) token k x = false)) q
  else
    let wait := default 0 (BackoffFor s attempt) in
    set_deliveries (map_imap (λ k x, Some (if holdsToken (ss_Durable s) token k x
      then MkDelivery false (d_attempts x) None (d_until x) (q_now q + wait) else x))) q.

(** [InProgress]. *)
Definition renew (s : SubscriptionSpec) (token : nat) (q : queue) : queue :=
  set_deliveries (map_imap (λ k x, Some (if holdsToken (ss_Durable s) token k x
    then MkDelivery true (d_attempts x) (d_token x) (q_now q + ss_AckWait s) (d_notBefore x) else x))) q.

(** [giveUp]: exhausted deliveries whose lease ran out. *)
Definition giveUp (s : SubscriptionSpec) (q : queue) : queue :=
  set_deliveries (filter (λ '(k, x),
    ¬ (k.1 = ss_Durable s ∧ d_flight x = true ∧ d_until x < q_now q ∧ ss_MaxDeliver s ≤ d_attempts x))) q.

(** [Purge]. *)
Definition purge (retention : Z) (q : queue) : queue :=
  let gone := filter (λ '(_, b), b_at b < q_now q - retention) (q_messages q) in
  MkQueue (q_messages q ∖ gone) (q_subs q) (filter (λ '(k, _), gone !! k.2 = None) (q_deliveries q)) (q_now q).
