(* ===== verification/EventsBus.v ===== *)
(** * Events: consumers over the queue

    events/consumer.go ([process], [Handle], [deadLetter]) over a member's inbox, and the
    system of publishers, durable subscriptions and competing consumers over the queue of
    [EventsQueue]: publishers take their transaction identifiers and sequence numbers in
    any order and commit in any order; workers claim, handle, fail, crash and settle late;
    leases run out; messages are purged. *)
From S2P Require Import Prelude GoStr EventsStream EventsEnvelope EventsQueue.
From Stdlib Require Import Ascii String.
Open Scope string_scope.
Open Scope Z_scope.
Open Scope list_scope.

(** ** A member's database *)

(** be_inbox, by subscription and event. *)
Record inboxRow := MkInboxRow {
  n_component : string; n_impl : string; n_stream : string; n_partition : Z; n_pos : option Point; n_at : Z }.
(** [m_effects]: the events whose handling committed, in order. *)
Record member := MkMember {
  m_inbox : gmap (string * string) inboxRow; m_dead : gset (string * string); m_effects : list (string * string) }.

(** [sourceOf]. *)
Definition TrimPrefix (s p : string) : string := if HasPrefix s p then substring (String.length p) (String.length s) s else s.
Definition sourceOf (source : string) : string := TrimPrefix source "urn:be:".

(** The inbox row of an event: a position only when the envelope has one. *)
Definition inboxOf (r : Received) (now : Z) : inboxRow :=
  MkInboxRow (sourceOf (rv_Source r)) (rv_Impl r) (rv_Stream r) (rv_Partition r)
    (match ParseEpoch (rv_Epoch r) with
     | Ok e => if negb (bool_decide (rv_Impl r = "")) && bool_decide (0 < rv_Seq r) then Some (MkPoint e (rv_Seq r)) else None
     | Err _ => None
     end) now.

(** How the handler's own writes end. *)
Inductive cerr := NotReceived (e : everr) | HandlerFailed.

(** The transaction of [process]. *)
Definition processTx (sub : string) (r : Received) (now : Z) (handlerOk : bool) : tx member cerr unit :=
  (s <~ tget ;
   match m_inbox s !! (sub, rv_ID r) with
   | Some _ => tret tt
   | None =>
       tmod (λ s, MkMember (<[(sub, rv_ID r) := inboxOf r now]> (m_inbox s)) (m_dead s) (m_effects s)) ;~
       if handlerOk then tmod (λ s, MkMember (m_inbox s) (m_dead s) (m_effects s ++ [(sub, rv_ID r)])) else tfail HandlerFailed
   end)%tx.

Section consumer.
Context `{Codec} (reader : option (string → res string string)).

(** [Consumer.process]. *)
Definition process (sub : string) (m : Message) (now : Z) (handlerOk : bool) (s : member) : option cerr * member :=
  match Receive m reader with
  | Err e => (Some (NotReceived e), s)
  | Ok r => match commit (processTx sub r now handlerOk) s with
            | (Ok _, s) => (None, s)
            | (Err e, s) => (Some e, s)
            end
  end.

(** [Consumer.deadLetter]; [ok]: the write succeeds. *)
Definition deadLetter (sub : string) (m : Message) (ok : bool) (s : member) : bool * member :=
  if ok then (true, MkMember (m_inbox s) (m_dead s ∪ {[ (sub, MsgEventID m) ]}) (m_effects s)) else (false, s).

(** What [Consumer.Handle] decides after [process]: an outcome, or a dead letter first. *)
Definition afterProcess (maxDeliver attempt : Z) (e : option cerr) : option Outcome :=
  match e with
  | None => Some Ack
  | Some _ => if decide (attempt < maxDeliver) then Some Nak else None
  end.

(** [Consumer.Handle]: one delivery from beginning to end. *)
Definition Handle (sub : string) (m : Message) (maxDeliver attempt now : Z) (handlerOk deadOk : bool) (s : member)
  : Outcome * member :=
  let '(e, s) := process sub m now handlerOk s in
  match afterProcess maxDeliver attempt e with
  | Some out => (out, s)
  | None => let '(ok, s) := deadLetter sub m deadOk s in (if ok then Term else Nak, s)
  end.

End consumer.

(** ** The system *)

(** A publishing transaction: its identifier and sequence number, taken in any order. *)
Record ptx := MkPtx { x_xid : option Z; x_seq : option Z; x_msg : Message }.

(** Where a worker is with the delivery it claimed. *)
Inductive phase := Claimed (c : claimRow) | Failed (c : claimRow) | Decided (c : claimRow) (out : Outcome).
Definition claimOf (ph : phase) : claimRow := match ph with Claimed c => c | Failed c => c | Decided c _ => c end.

Record bus := MkBus {
  g_queue : queue; g_nextXid : Z; g_nextSeq : Z; g_active : gmap nat ptx; g_nextToken : nat;
  g_workers : gmap nat phase; g_member : member;
  g_committed : list (Z * Z * Message);      (** every message stored: xid, seq, message *)
  g_queued : gset (string * Z);              (** every delivery queued *)
  g_claims : list claimRow }.                (** every claim *)

(** [pg_snapshot_xmin]: the smallest identifier of a running transaction. *)
Definition xminOf (g : bus) : Z :=
  map_fold (λ _ t m, match x_xid t with Some x => Z.min x m | None => m end) (g_nextXid g) (g_active g).

Section steps.
Context `{Codec} (reader : option (string → res string string)).
(** [pos0]: where a new subscription starts; whether a durable is ordered, its
    subscription's name and the delivery limit its consumers declare. *)
Context (pos0 : Z * Z) (ordered : string → bool) (subOf : string → string) (maxOf : string → Z).

Definition specOf (g : bus) (durable : string) : option SubscriptionSpec := load (g_queue g) durable 1 (ordered durable).

Definition with_queue (q : queue) (g : bus) : bus :=
  MkBus q (g_nextXid g) (g_nextSeq g) (g_active g) (g_nextToken g) (g_workers g) (g_member g) (g_committed g) (g_queued g) (g_claims g).
Definition with_active (a : gmap nat ptx) (g : bus) : bus :=
  MkBus (g_queue g) (g_nextXid g) (g_nextSeq g) a (g_nextToken g) (g_workers g) (g_member g) (g_committed g) (g_queued g) (g_claims g).
Definition with_worker (w : nat) (ph : option phase) (s : member) (g : bus) : bus :=
  MkBus (g_queue g) (g_nextXid g) (g_nextSeq g) (g_active g) (g_nextToken g) (partial_alter (λ _, ph) w (g_workers g)) s
    (g_committed g) (g_queued g) (g_claims g).

Inductive bstep : bus → bus → Prop :=
| bs_begin g k m : g_active g !! k = None → bstep g (with_active (<[k := MkPtx None None m]> (g_active g)) g)
| bs_xid g k t : g_active g !! k = Some t → x_xid t = None →
    bstep g (MkBus (g_queue g) (g_nextXid g + 1) (g_nextSeq g) (<[k := MkPtx (Some (g_nextXid g)) (x_seq t) (x_msg t)]> (g_active g))
               (g_nextToken g) (g_workers g) (g_member g) (g_committed g) (g_queued g) (g_claims g))
| bs_seq g k t : g_active g !! k = Some t → x_seq t = None →
    bstep g (MkBus (g_queue g) (g_nextXid g) (g_nextSeq g + 1) (<[k := MkPtx (x_xid t) (Some (g_nextSeq g)) (x_msg t)]> (g_active g))
               (g_nextToken g) (g_workers g) (g_member g) (g_committed g) (g_queued g) (g_claims g))
| bs_commit g k x n m q : g_active g !! k = Some (MkPtx (Some x) (Some n) m) → publishRow (g_queue g) x n m = Ok q →
    bstep g (MkBus q (g_nextXid g) (g_nextSeq g) (delete k (g_active g)) (g_nextToken g) (g_workers g) (g_member g)
               (if duplicate (g_queue g) m then g_committed g else g_committed g ++ [(x, n, m)]) (g_queued g) (g_claims g))
| bs_abort g k : bstep g (with_active (delete k (g_active g)) g)
| bs_subscribe g spec : bstep g (with_queue (subscribe pos0 spec (g_queue g)) g)
| bs_advance g durable s moved q :
    specOf g durable = Some s → advance (xminOf g) s (g_queue g) = (moved, q) →
    bstep g (MkBus q (g_nextXid g) (g_nextSeq g) (g_active g) (g_nextToken g) (g_workers g) (g_member g) (g_committed g)
               (g_queued g ∪ dom (q_deliveries q)) (g_claims g))
| bs_claim g w durable s oc q :
    g_workers g !! w = None → specOf g durable = Some s → claim s (g_nextToken g) (g_queue g) = (oc, q) →
    bstep g (MkBus q (g_nextXid g) (g_nextSeq g) (g_active g) (S (g_nextToken g))
               (match oc with Some c => <[w := Claimed c]> (g_workers g) | None => g_workers g end)
               (g_member g) (g_committed g) (g_queued g)
               (match oc with Some c => g_claims g ++ [c] | None => g_claims g end))
| bs_renew g w c s : g_workers g !! w = Some (Claimed c) → specOf g (k_durable c) = Some s →
    bstep g (with_queue (renew s (k_token c) (g_queue g)) g)
| bs_process g w c handlerOk now e mb :
    g_workers g !! w = Some (Claimed c) →
    process reader (subOf (k_durable c)) (k_msg c) now handlerOk (g_member g) = (e, mb) →
    bstep g (with_worker w (Some (match afterProcess (maxOf (k_durable c)) (k_attempt c) e with
                                  | Some out => Decided c out
                                  | None => Failed c
                                  end)) mb g)
| bs_dead g w c written ok mb :
    g_workers g !! w = Some (Failed c) →
    deadLetter (subOf (k_durable c)) (k_msg c) written (g_member g) = (ok, mb) →
    bstep g (with_worker w (Some (Decided c (if ok then Term else Nak))) mb g)
| bs_settle g w c out s :
    g_workers g !! w = Some (Decided c out) → specOf g (k_durable c) = Some s →
    bstep g (with_queue (settle s (k_attempt c) (k_token c) out (g_queue g)) (with_worker w None (g_member g) g))
| bs_crash g w : bstep g (with_worker w None (g_member g) g)
| bs_giveUp g durable s : specOf g durable = Some s → bstep g (with_queue (giveUp s (g_queue g)) g)
| bs_purge g retention : bstep g (with_queue (purge retention (g_queue g)) g)
| bs_tick g d : 0 ≤ d →
    bstep g (with_queue (MkQueue (q_messages (g_queue g)) (q_subs (g_queue g)) (q_deliveries (g_queue g)) (q_now (g_queue g) + d)) g).

Definition busInitial (xid0 : Z) : bus :=
  MkBus (MkQueue ∅ ∅ ∅ 0) xid0 1 ∅ 0 ∅ (MkMember ∅ ∅ []) [] ∅ [].
Definition busReachable (g : bus) : Prop := ∃ xid0, pos0.1 < xid0 ∧ rtc bstep (busInitial xid0) g.

End steps.
