(* ===== verification/EventsBusProps.v ===== *)
(** * Events: no message is skipped

    The invariant of the queue's positions over the system of [EventsBus]: a subscription's
    position never passes a message that can still commit, so every message at or before it
    was queued. *)
From S2P Require Import Prelude GoStr EventsStream EventsEnvelope EventsQueue EventsBus.
From Stdlib Require Import Ascii String.
Open Scope string_scope.
Open Scope Z_scope.
Open Scope list_scope.

(** ** The snapshot's lower bound *)

Lemma xmin_bounds g :
  xminOf g ≤ g_nextXid g ∧ ∀ k t x, g_active g !! k = Some t → x_xid t = Some x → xminOf g ≤ x.
Proof.
  unfold xminOf. apply (map_fold_weak_ind (λ m a, m ≤ g_nextXid g ∧ ∀ k t x, a !! k = Some t → x_xid t = Some x → m ≤ x)).
  - split; [lia|]. intros k t x Hk. by rewrite lookup_empty in Hk.
  - intros k0 t0 a m Hk0 [IH1 IH2]. split; [destruct (x_xid t0); lia|]. intros k t x Hk Hx.
    destruct (decide (k0 = k)) as [->|Hne].
    + rewrite lookup_insert_eq in Hk. injection Hk as ->. rewrite Hx. lia.
    + rewrite lookup_insert_ne in Hk by done. specialize (IH2 _ _ _ Hk Hx). destruct (x_xid t0); lia.
Qed.

(** ** The order of positions *)

#[export] Instance rowPosLe_trans : Transitive rowPosLe.
Proof. intros x y z. unfold rowPosLe, posLe, posLt. lia. Qed.
#[export] Instance rowPosLe_total : Total rowPosLe.
Proof. intros x y. unfold rowPosLe, posLe, posLt. lia. Qed.

Lemma nextMessages_elem q pos xmin x :
  x ∈ nextMessages q pos xmin → q_messages q !! x.1 = Some x.2 ∧ posLt pos (rowPos x) ∧ b_xid x.2 < xmin.
Proof.
  intros Hin%firsts_elem. apply list_elem_of_filter in Hin as [? Hin]. destruct x as [n b].
  by apply elem_of_map_to_list in Hin.
Qed.

(** Up to its last row, a batch has every message. *)
Lemma nextMessages_all q pos xmin l n b :
  last (nextMessages q pos xmin) = Some l → q_messages q !! n = Some b → posLt pos (b_xid b, n) → posLe (b_xid b, n) (rowPos l) →
  (n, b) ∈ nextMessages q pos xmin.
Proof.
  intros Hl Hb Hpos Hle. pose proof (nextMessages_elem q pos xmin l) as Hle'.
  assert (Hlin : l ∈ nextMessages q pos xmin) by (apply last_Some in Hl as [l' ->]; set_solver).
  destruct (Hle' Hlin) as (Hlm & _ & Hlx).
  assert (Hin : (n, b) ∈ filter (λ x, posLt pos (rowPos x) ∧ b_xid x.2 < xmin) (map_to_list (q_messages q))).
  { apply list_elem_of_filter. split; [|by apply elem_of_map_to_list]. split; [done|]. cbn.
    unfold posLe, posLt, rowPos in Hle. cbn in Hle. lia. }
  rewrite last_lookup in Hl. destruct (decide (posLt (b_xid b, n) (rowPos l))) as [Hlt|Hge].
  - destruct (firsts_before rowPosLe advanceBatch _ (n, b) l _ Hin Hl) as (i & _ & Hi).
    + unfold rowPosLe, posLe. cbn. unfold rowPos at 2. cbn. by intros ?.
    + by eapply list_elem_of_lookup_2.
  - assert (Heq : n = l.1) by (unfold posLe, posLt, rowPos in *; cbn in *; lia).
    destruct l as [n' b']. cbn in *. subst n'. assert (b' = b) as -> by congruence. done.
Qed.

(** ** What the statements keep *)

Lemma queueOne_dom durable now l m :
  dom (foldr (queueOne durable now) m l) = dom m ∪ list_to_set (map (pair durable) l).
Proof.
  induction l as [|n l IH]; cbn [foldr map list_to_set]; [set_solver|]. unfold queueOne at 1.
  destruct (foldr (queueOne durable now) m l !! (durable, n)) eqn:Hn.
  - apply elem_of_dom_2 in Hn. rewrite IH in *. set_solver.
  - rewrite dom_insert_L, IH. set_solver.
Qed.

Definition umatches (u : bsub) (subject : string) : bool :=
  matches (MkSubscriptionSpec "" (u_Streams u) (u_Filters u) 0 0 [] 0 false) subject.

Record seqInv (pos0 : Z * Z) (g : bus) : Prop := {
  si_start : pos0.1 < g_nextXid g;
  si_active : ∀ k t, g_active g !! k = Some t →
    (∀ x, x_xid t = Some x → pos0.1 < x < g_nextXid g) ∧ (∀ n, x_seq t = Some n → n < g_nextSeq g);
  si_distinct : ∀ k k' t t' n, g_active g !! k = Some t → g_active g !! k' = Some t' → x_seq t = Some n → x_seq t' = Some n → k = k';
  si_committed : ∀ x n m, (x, n, m) ∈ g_committed g → x < g_nextXid g ∧ n < g_nextSeq g ∧
    ∀ k t, g_active g !! k = Some t → x_seq t ≠ Some n;
  si_once : ∀ x n m x' m', (x, n, m) ∈ g_committed g → (x', n, m') ∈ g_committed g → x = x' ∧ m = m';
  si_message : ∀ n b, q_messages (g_queue g) !! n = Some b → (b_xid b, n, b_msg b) ∈ g_committed g;
  si_pos : ∀ d u, q_subs (g_queue g) !! d = Some u → (u_pos u).1 < g_nextXid g ∧
    ∀ k t x, g_active g !! k = Some t → x_xid t = Some x → (u_pos u).1 < x;
  si_read : ∀ d u n b, q_subs (g_queue g) !! d = Some u → q_messages (g_queue g) !! n = Some b → posLt pos0 (b_xid b, n) →
    posLe (b_xid b, n) (u_pos u) → umatches u (m_Subject (b_msg b)) = true → (d, n) ∈ g_queued g;
  si_queued : ∀ d n, (d, n) ∈ g_queued g → ∃ u x m, q_subs (g_queue g) !! d = Some u ∧ (x, n, m) ∈ g_committed g ∧
    posLe (x, n) (u_pos u) ∧ umatches u (m_Subject m) = true;
  si_delivery : dom (q_deliveries (g_queue g)) ⊆ g_queued g }.

(** Steps that publish nothing and read nothing. *)
Lemma seq_keep pos0 g g' :
  seqInv pos0 g → g_nextXid g' = g_nextXid g → g_nextSeq g' = g_nextSeq g → g_active g' = g_active g →
  g_committed g' = g_committed g → g_queued g' = g_queued g → q_subs (g_queue g') = q_subs (g_queue g) →
  q_messages (g_queue g') ⊆ q_messages (g_queue g) → dom (q_deliveries (g_queue g')) ⊆ dom (q_deliveries (g_queue g)) →
  seqInv pos0 g'.
Proof.
  intros I Hx Hs Ha Hc Hq Hu Hm Hd.
  assert (Hm' : ∀ n b, q_messages (g_queue g') !! n = Some b → q_messages (g_queue g) !! n = Some b)
    by (intros n b Hb; by eapply lookup_weaken).
  split; rewrite ?Hx, ?Hs, ?Ha, ?Hc, ?Hq, ?Hu; try solve [apply I].
  - intros n b Hb%Hm'. by apply (si_message _ _ I).
  - intros d u n b Hu' Hb%Hm'. by apply (si_read _ _ I).
  - pose proof (si_delivery _ _ I). set_solver.
Qed.


Lemma seq_active pos0 g a nx ns :
  seqInv pos0 g → g_nextXid g ≤ nx → g_nextSeq g ≤ ns →
  (∀ k t, a !! k = Some t →
     (∀ x, x_xid t = Some x → (∃ t0, g_active g !! k = Some t0 ∧ x_xid t0 = Some x) ∨ g_nextXid g ≤ x < nx) ∧
     (∀ n, x_seq t = Some n → (∃ t0, g_active g !! k = Some t0 ∧ x_seq t0 = Some n) ∨
        (g_nextSeq g ≤ n < ns ∧ ∀ k' t', a !! k' = Some t' → x_seq t' = Some n → k' = k))) →
  seqInv pos0 (MkBus (g_queue g) nx ns a (g_nextToken g) (g_workers g) (g_member g) (g_committed g) (g_queued g) (g_claims g)).
Proof.
  intros I Hx Hs Ha. pose proof (si_start _ _ I). split; cbn [g_nextXid g_nextSeq g_active g_committed g_queued g_queue]; try solve [apply I].
  - lia.
  - intros k t Hk. destruct (Ha k t Hk) as [H1 H2]. split.
    + intros x Hxx. destruct (H1 x Hxx) as [(t0 & Ht0 & Hx0)|?]; [|lia]. destruct (si_active _ _ I _ _ Ht0) as [Hb _].
      specialize (Hb x Hx0). lia.
    + intros n Hn. destruct (H2 n Hn) as [(t0 & Ht0 & Hx0)|[? _]]; [|lia]. destruct (si_active _ _ I _ _ Ht0) as [_ Hb].
      specialize (Hb n Hx0). lia.
  - intros k k' t t' n Hk Hk' Hn Hn'. destruct (Ha k t Hk) as [_ H2], (Ha k' t' Hk') as [_ H2'].
    destruct (H2 n Hn) as [(t0 & Ht0 & Hx0)|[_ Hu]]; [|symmetry; by eapply Hu].
    destruct (H2' n Hn') as [(t0' & Ht0' & Hx0')|[_ Hu]]; [|by eapply Hu]. by eapply (si_distinct _ _ I k k').
  - intros x n m Hin. destruct (si_committed _ _ I _ _ _ Hin) as (? & ? & Hno). split; [lia|]. split; [lia|].
    intros k t Hk Hn. destruct (Ha k t Hk) as [_ H2]. destruct (H2 n Hn) as [(t0 & Ht0 & Hx0)|[? _]]; [by apply (Hno k t0)|lia].
  - intros d u Hu. destruct (si_pos _ _ I _ _ Hu) as [Hb Hb']. split; [lia|]. intros k t x Hk Hxx. destruct (Ha k t Hk) as [H1 _].
    destruct (H1 x Hxx) as [(t0 & Ht0 & Hx0)|?]; [by eapply Hb'|lia].
Qed.

Lemma publishRow_ok q xid n m q' :
  publishRow q xid n m = Ok q' →
  (duplicate q m = true ∧ q' = q) ∨
  (duplicate q m = false ∧ q' = MkQueue (<[n := MkBMsg xid (dedupKey m) m (q_now q)]> (q_messages q)) (q_subs q) (q_deliveries q) (q_now q)).
Proof. unfold publishRow. case_decide; [done|]. destruct (duplicate q m); intros [= <-]; auto. Qed.

Lemma seq_abort pos0 g k : seqInv pos0 g → seqInv pos0 (with_active (delete k (g_active g)) g).
Proof.
  intros I. apply seq_active; [done|lia|lia|]. intros k' t [_ Hk]%lookup_delete_Some. split; eauto.
Qed.

Lemma seq_commit pos0 g k x n m q :
  seqInv pos0 g → g_active g !! k = Some (MkPtx (Some x) (Some n) m) → publishRow (g_queue g) x n m = Ok q →
  seqInv pos0 (MkBus q (g_nextXid g) (g_nextSeq g) (delete k (g_active g)) (g_nextToken g) (g_workers g) (g_member g)
               (if duplicate (g_queue g) m then g_committed g else g_committed g ++ [(x, n, m)]) (g_queued g) (g_claims g)).
Proof.
  intros I Hk [[-> ->]|[-> ->]]%publishRow_ok; [by apply seq_abort|].
  destruct (si_active _ _ I _ _ Hk) as [Hx Hn]. specialize (Hx x eq_refl). specialize (Hn n eq_refl).
  assert (Hfresh : ∀ x' m', (x', n, m') ∉ g_committed g).
  { intros x' m' Hin. destruct (si_committed _ _ I _ _ _ Hin) as (_ & _ & Hno). by apply (Hno k _ Hk). }
  pose proof (seq_abort pos0 g k I) as I'.
  split; cbn [g_nextXid g_nextSeq g_active g_committed g_queued g_queue q_messages q_subs q_deliveries]; try solve [apply I'].
  - intros x' n' m' [Hin|Hin]%elem_of_app; [by eapply (si_committed _ _ I')|]. apply list_elem_of_singleton in Hin as [= -> -> ->].
    split; [lia|]. split; [lia|]. intros k' t' [Hne Hk']%lookup_delete_Some Hn'. destruct Hne.
    by eapply (si_distinct _ _ I k k').
  - intros x1 n1 m1 x2 m2 [H1|H1]%elem_of_app [H2|H2]%elem_of_app.
    + by eapply (si_once _ _ I).
    + apply list_elem_of_singleton in H2 as [= -> -> ->]. by destruct (Hfresh _ _ H1).
    + apply list_elem_of_singleton in H1 as [= -> -> ->]. by destruct (Hfresh _ _ H2).
    + apply list_elem_of_singleton in H1 as [= -> -> ->]. by apply list_elem_of_singleton in H2 as [= -> ->].
  - intros n' b Hb. apply elem_of_app. destruct (decide (n' = n)) as [->|Hne].
    + rewrite lookup_insert_eq in Hb. injection Hb as <-. right. by apply list_elem_of_singleton.
    + rewrite lookup_insert_ne in Hb by done. left. by apply (si_message _ _ I).
  - intros d u n' b Hu Hb. destruct (decide (n' = n)) as [->|Hne].
    + rewrite lookup_insert_eq in Hb. injection Hb as <-. cbn [b_xid b_msg]. intros _ Hle.
      destruct (si_pos _ _ I _ _ Hu) as [_ Hp]. specialize (Hp k _ x Hk eq_refl). unfold posLe, posLt in Hle. cbn in Hle. lia.
    + rewrite lookup_insert_ne in Hb by done. by apply (si_read _ _ I).
  - intros d n' (u & x' & m' & Hu & Hin & Hr)%(si_queued _ _ I). exists u, x', m'. split; [done|]. split; [|done].
    apply elem_of_app. by left.
Qed.

Lemma seq_subscribe pos0 g spec : seqInv pos0 g → seqInv pos0 (with_queue (subscribe pos0 spec (g_queue g)) g).
Proof.
  intros I. unfold subscribe, with_queue. set (s := withDefaults spec).
  destruct (q_subs (g_queue g) !! ss_Durable s) as [u0|] eqn:Hu0; [by destruct g|].
  split; cbn [g_nextXid g_nextSeq g_active g_committed g_queued g_queue q_messages q_subs q_deliveries]; try solve [apply I].
  - intros d u. destruct (decide (d = ss_Durable s)) as [->|Hne].
    + rewrite lookup_insert_eq. intros [= <-]. cbn. split; [apply I|]. intros k t x Hk Hx.
      destruct (si_active _ _ I _ _ Hk) as [Hb _]. by apply Hb.
    + rewrite lookup_insert_ne by done. apply (si_pos _ _ I).
  - intros d u n b. destruct (decide (d = ss_Durable s)) as [->|Hne].
    + rewrite lookup_insert_eq. intros [= <-] _ Hlt Hle. cbn in Hle. done.
    + rewrite lookup_insert_ne by done. apply (si_read _ _ I).
  - intros d n (u & x & m & Hu & Hr)%(si_queued _ _ I). exists u, x, m. split; [|done].
    rewrite lookup_insert_ne; [done|]. intros <-. congruence.
Qed.

Lemma umatches_load g ordered d s u subject :
  specOf ordered g d = Some s → q_subs (g_queue g) !! ss_Durable s = Some u → matches s subject = umatches u subject.
Proof.
  unfold specOf, load. intros (u' & Hu & Hs)%fmap_Some Hu'. subst s. cbn in Hu'. assert (u' = u) as -> by congruence. done.
Qed.

(** The last row of a batch has its greatest position. *)
Lemma nextMessages_last q pos xmin l x :
  last (nextMessages q pos xmin) = Some l → x ∈ nextMessages q pos xmin → posLe (rowPos x) (rowPos l).
Proof.
  intros Hl Hx. rewrite last_lookup in Hl. apply list_elem_of_lookup in Hx as [i Hi].
  pose proof (lookup_lt_Some _ _ _ Hi). destruct (decide (i = pred (List.length (nextMessages q pos xmin)))) as [->|Hne].
  - simplify_eq. unfold posLe, posLt. lia.
  - apply lookup_take_Some in Hi as [Hi _], Hl as [Hl _]. change (rowPosLe x l).
    eapply sorted_lookup; [apply (StronglySorted_merge_sort rowPosLe)|done|done|]. unfold nextMessages in *. lia.
Qed.

(** A subscription that moves forward keeps what it had queued. *)
Lemma seq_queued_keep pos0 g d' n d u p :
  seqInv pos0 g → q_subs (g_queue g) !! d = Some u → posLt (u_pos u) p → (d', n) ∈ g_queued g →
  let u' := MkBSub (u_Streams u) (u_Filters u) (u_MaxDeliver u) (u_AckWait u) (u_Backoff u) p in
  ∃ v x m, <[d := u']> (q_subs (g_queue g)) !! d' = Some v ∧ (x, n, m) ∈ g_committed g ∧
    posLe (x, n) (u_pos v) ∧ umatches v (m_Subject m) = true.
Proof.
  intros I Hu Hp (v & x & m & Hv & Hin & Hle & Hm)%(si_queued _ _ I). cbn zeta. destruct (decide (d' = d)) as [->|Hne].
  - assert (v = u) as -> by congruence. eexists _, x, m. rewrite lookup_insert_eq. split; [done|]. split; [done|]. split; [|done].
    cbn. unfold posLe, posLt in *. cbn in *. lia.
  - exists v, x, m. by rewrite lookup_insert_ne.
Qed.

Lemma seq_advance pos0 ordered g d s moved q :
  seqInv pos0 g → specOf ordered g d = Some s → advance (xminOf g) s (g_queue g) = (moved, q) →
  seqInv pos0 (MkBus q (g_nextXid g) (g_nextSeq g) (g_active g) (g_nextToken g) (g_workers g) (g_member g) (g_committed g)
               (g_queued g ∪ dom (q_deliveries q)) (g_claims g)).
Proof.
  intros I Hs. pose proof (xmin_bounds g) as [Hxm1 Hxm2]. pose proof (si_delivery _ _ I) as Hdel.
  assert (Hsame : seqInv pos0 (MkBus (g_queue g) (g_nextXid g) (g_nextSeq g) (g_active g) (g_nextToken g) (g_workers g) (g_member g)
    (g_committed g) (g_queued g ∪ dom (q_deliveries (g_queue g))) (g_claims g))).
  { replace (g_queued g ∪ dom (q_deliveries (g_queue g))) with (g_queued g) by set_solver. by destruct g. }
  unfold advance. destruct (q_subs (g_queue g) !! ss_Durable s) as [u|] eqn:Hu; [|by intros [= <- <-]].
  set (rows := nextMessages (g_queue g) (u_pos u) (xminOf g)). destruct (last rows) as [l|] eqn:Hl; [|by intros [= <- <-]].
  intros [= <- <-].
  pose proof (λ subj, umatches_load g ordered d s u subj Hs Hu) as Hmt.
  assert (Hlin : l ∈ rows) by (apply last_Some in Hl as [l' Hl']; rewrite Hl'; set_solver).
  destruct (nextMessages_elem _ _ _ _ Hlin) as (Hlm & Hlp & Hlx).
  split; cbn [g_nextXid g_nextSeq g_active g_committed g_queued g_queue q_messages q_subs q_deliveries]; try solve [apply I].
  - intros d' u'. destruct (decide (d' = ss_Durable s)) as [->|Hne].
    + rewrite lookup_insert_eq. intros [= <-]. cbn. split; [lia|]. intros k t x Hk Hx. specialize (Hxm2 k t x Hk Hx). lia.
    + rewrite lookup_insert_ne by done. apply (si_pos _ _ I).
  - intros d' u' n b. destruct (decide (d' = ss_Durable s)) as [->|Hne].
    + rewrite lookup_insert_eq. intros [= <-] Hb Hlt Hle Hm. cbn in Hle. change (umatches u (m_Subject (b_msg b)) = true) in Hm.
      apply elem_of_union.
      destruct (decide (posLe (b_xid b, n) (u_pos u))) as [Hold|Hnew]; [left; by eapply (si_read _ _ I)|].
      right. rewrite queueOne_dom. apply elem_of_union. right. apply elem_of_list_to_set, list_elem_of_fmap. exists n. split; [done|].
      apply list_elem_of_omap. exists (n, b). split; [|cbn; by rewrite Hmt, Hm].
      eapply nextMessages_all; [done|done| |done]. apply dec_stable. done.
    + rewrite lookup_insert_ne by done. intros. apply elem_of_union. left. by eapply (si_read _ _ I).
  - intros d' n Hin. rewrite queueOne_dom in Hin.
    assert ((d', n) ∈ g_queued g ∨ (d', n) ∈ map (pair (ss_Durable s)) (omap (λ y, if matches s (m_Subject (b_msg y.2)) then Some y.1 else None) rows))
      as [Hin'|Hin'] by set_solver; [by eapply seq_queued_keep|].
    apply list_elem_of_fmap in Hin' as (n' & [= -> ->] & Hin'). apply list_elem_of_omap in Hin' as ([n1 b1] & Hr & Hr').
    cbn in Hr'. destruct (matches s (m_Subject (b_msg b1))) eqn:Hm; [|done]. injection Hr' as ->.
    destruct (nextMessages_elem _ _ _ _ Hr) as (Hb1 & _). cbn in Hb1. eexists _, (b_xid b1), (b_msg b1). rewrite lookup_insert_eq.
    split; [done|]. split; [by apply (si_message _ _ I)|]. split; [|rewrite <- Hm; symmetry; apply Hmt].
    apply (nextMessages_last _ _ _ _ _ Hl Hr).
  - set_solver.
Qed.

Lemma seq_initial pos0 xid0 : pos0.1 < xid0 → seqInv pos0 (busInitial xid0).
Proof. intros Hx. by split; cbn; try (intros; set_solver). Qed.

Lemma seq_worker pos0 g w ph mb : seqInv pos0 g → seqInv pos0 (with_worker w ph mb g).
Proof. intros I. by eapply seq_keep. Qed.

Lemma settle_sub s a t out q :
  q_messages (settle s a t out q) = q_messages q ∧ q_subs (settle s a t out q) = q_subs q ∧
  dom (q_deliveries (settle s a t out q)) ⊆ dom (q_deliveries q).
Proof.
  unfold settle, set_deliveries. destruct (removes _ _ _); cbn; split; [done| |done|]; split; try done.
  - apply dom_filter_subseteq.
  - apply dom_imap_subseteq.
Qed.

Lemma ofDurable_elem q d n x : (n, x) ∈ ofDurable q d ↔ q_deliveries q !! (d, n) = Some x.
Proof.
  unfold ofDurable. rewrite list_elem_of_omap. split.
  - intros ([[d' n'] x'] & Hin & Hx). case_decide; [|done]. simplify_eq. by apply elem_of_map_to_list in Hin.
  - intros Hx. exists ((d, n), x). split; [by apply elem_of_map_to_list|]. by rewrite decide_True.
Qed.

(** The row a claim takes is a delivery of its durable that is due. *)
Lemma dueRow_Some s q n x :
  dueRow s q = Some (n, x) → q_deliveries q !! (ss_Durable s, n) = Some x ∧ isDue (q_now q) (ss_MaxDeliver s) x = true.
Proof.
  unfold dueRow. intros Hd. rewrite <- ofDurable_elem, <- (merge_sort_Permutation seqLe (ofDurable q (ss_Durable s))).
  destruct (ss_Ordered s).
  - destruct (merge_sort seqLe _) as [|y l]; [done|]. destruct (isDue _ _ y.2) eqn:Hy; [|done]. injection Hd as ->. split; [left|done].
  - apply List.find_some in Hd as [Hin Hd]. split; [by apply list_elem_of_In|done].
Qed.

Lemma claim_sub s t q oc q' :
  claim s t q = (oc, q') → q_messages q' = q_messages q ∧ q_subs q' = q_subs q ∧ dom (q_deliveries q') ⊆ dom (q_deliveries q).
Proof.
  unfold claim. destruct (dueRow s q) as [[n x]|] eqn:Hd; [|by intros [= <- <-]]. apply dueRow_Some in Hd as [Hd%elem_of_dom_2 _].
  destruct (q_messages q !! n); intros [= <- <-]; cbn; split_and!; set_solver.
Qed.

Section seq.
Context `{Codec} (reader : option (string → res string string)).
Context (pos0 : Z * Z) (ordered : string → bool) (subOf : string → string) (maxOf : string → Z).

Lemma seq_step g g' : seqInv pos0 g → bstep reader pos0 ordered subOf maxOf g g' → seqInv pos0 g'.
Proof.
  intros I Hst. destruct Hst as [g k m Hk|g k t Hk Hx|g k t Hk Hx|g k x n m q Hk Hp|g k|g spec|g d s mv q Hs Ha|
    g w d s oc q Hw Hs Hc|g w c s Hw Hs|g w c ok now e mb Hw Hp|g w c written ok mb Hw Hd|g w c out s Hw Hs|g w|g d s Hs|g r|g dt Hd].
  - apply seq_active; [done|lia|lia|]. intros k' t'. rewrite lookup_insert_Some. intros [[<- <-]|[_ Hk']]; [done|]. split; eauto.
  - apply seq_active; [done|lia|lia|]. intros k' t'. rewrite lookup_insert_Some. intros [[<- <-]|[_ Hk']]; [|split; eauto].
    cbn. split; [intros x [= <-]; right; lia|]. eauto.
  - apply seq_active; [done|lia|lia|]. intros k' t'. rewrite lookup_insert_Some. intros [[<- <-]|[_ Hk']]; [|split; eauto].
    cbn. split; [eauto|]. intros n [= <-]. right. split; [lia|]. intros k2 t2. rewrite lookup_insert_Some. intros [[<- _]|[_ Hk2]]; [done|].
    intros Hn. destruct (si_active _ _ I _ _ Hk2) as [_ Hb]. specialize (Hb _ Hn). lia.
  - by apply seq_commit.
  - by apply seq_abort.
  - by apply seq_subscribe.
  - by eapply seq_advance.
  - apply claim_sub in Hc as (H1 & H2 & H3). eapply seq_keep; cbn; try done. by rewrite H1.
  - eapply seq_keep; cbn; try done. apply dom_imap_subseteq.
  - by apply seq_worker.
  - by apply seq_worker.
  - destruct (settle_sub s (k_attempt c) (k_token c) out (g_queue g)) as (H1 & H2 & H3).
    eapply seq_keep; cbn; try done. by rewrite H1.
  - by apply seq_worker.
  - eapply seq_keep; cbn; try done. apply dom_filter_subseteq.
  - eapply seq_keep; cbn; try done; [apply map_subseteq_difference_l; done|apply dom_filter_subseteq].
  - by eapply seq_keep.
Qed.

Lemma seq_reachable g : busReachable reader pos0 ordered subOf maxOf g → seqInv pos0 g.
Proof.
  intros (x & Hx & Hr). apply seq_initial in Hx. revert Hx. induction Hr as [|? ? ? Hs _ IH]; [done|]. intros Hx.
  apply IH. by eapply seq_step.
Qed.
End seq.

(** C7. The queue skips no message.  Publishers take transaction identifiers and sequence
    numbers in any order and commit in any order; whatever a subscription's position has
    reached, every stored message at or before it that the subscription matches was queued
    for it, and no transaction that is still running can commit a message at or before it. *)
Theorem no_message_skipped `{Codec} reader pos0 ordered subOf maxOf g d u :
  busReachable reader pos0 ordered subOf maxOf g → q_subs (g_queue g) !! d = Some u →
  (∀ n b, q_messages (g_queue g) !! n = Some b → posLt pos0 (b_xid b, n) → posLe (b_xid b, n) (u_pos u) →
     umatches u (m_Subject (b_msg b)) = true → (d, n) ∈ g_queued g) ∧
  (∀ k t x n, g_active g !! k = Some t → x_xid t = Some x → posLt (u_pos u) (x, n)).
Proof.
  intros I%seq_reachable Hu. split; [intros; by eapply (si_read _ _ I)|].
  intros k t x n Hk Hx. left. by eapply (si_pos _ _ I).
Qed.

(** ** Two publishers whose order of commit is not their order *)

Definition stockMsg (id : string) : Message :=
  let row := MkRow id "erp.stock" 1 "erp.stock.moved.v1" 1000 "Bolt" 7 Full "acme" None "" 0 ∅ "{}" "" in
  MkMessage (Subject "erp.stock" 1 "erp.stock.moved.v1") (HeadersOf row stockPos false "acme/wms" "i1") "{}" "".
Definition stockSpec : SubscriptionSpec := MkSubscriptionSpec "wms_stock" ["erp.stock"] [] 2 0 [] 1 true.
Definition pubA (x n : option Z) : ptx := MkPtx x n (stockMsg "a").
Definition pubB (x n : option Z) : ptx := MkPtx x n (stockMsg "b").

Definition after (g : bus) (q : queue) (nx ns : Z) (a : gmap nat ptx) (c : list (Z * Z * Message)) (l : gset (string * Z)) : bus :=
  MkBus q nx ns a (g_nextToken g) (g_workers g) (g_member g) c l (g_claims g).
(** Publisher 0 takes the smaller identifier and the greater number, and commits last. *)
Definition sb0 : bus := busInitial 10.
Definition sb1 : bus := with_active {[ 0%nat := pubA None None ]} sb0.
Definition sb2 : bus := with_active (<[ 1%nat := pubB None None ]> (g_active sb1)) sb1.
Definition sb3 : bus := after sb2 (g_queue sb2) 11 1 (<[ 0%nat := pubA (Some 10) None ]> (g_active sb2)) [] ∅.
Definition sb4 : bus := after sb3 (g_queue sb3) 12 1 (<[ 1%nat := pubB (Some 11) None ]> (g_active sb3)) [] ∅.
Definition sb5 : bus := after sb4 (g_queue sb4) 12 2 (<[ 1%nat := pubB (Some 11) (Some 1) ]> (g_active sb4)) [] ∅.
Definition sb6 : bus := after sb5 (g_queue sb5) 12 3 (<[ 0%nat := pubA (Some 10) (Some 2) ]> (g_active sb5)) [] ∅.
Definition stored (q : queue) (x n : Z) (m : Message) : queue := match publishRow q x n m with Ok q => q | Err _ => q end.
Definition sb7 : bus := with_queue (subscribe (0, 0) stockSpec (g_queue sb6)) sb6.
Definition published (g : bus) (k : nat) (x n : Z) (m : Message) : bus :=
  after g (stored (g_queue g) x n m) (g_nextXid g) (g_nextSeq g) (delete k (g_active g))
    (if duplicate (g_queue g) m then g_committed g else g_committed g ++ [(x, n, m)]) (g_queued g).
Definition sb8 : bus := published sb7 1 11 1 (stockMsg "b").
Definition advanced (g : bus) : bus :=
  let q := (advance (xminOf g) (withDefaults stockSpec) (g_queue g)).2 in
  after g q (g_nextXid g) (g_nextSeq g) (g_active g) (g_committed g) (g_queued g ∪ dom (q_deliveries q)).
Definition sb9 : bus := advanced sb8.
Definition sb10 : bus := published sb9 0 10 2 (stockMsg "a").
Definition sb11 : bus := advanced sb10.

Section stock.
Context (ordered : string → bool) (Hord : ordered "wms_stock" = true).
Let R := busReachable None (0, 0) ordered (λ d, d) (λ _, 2).

Lemma reach_r g g' : R g → bstep None (0, 0) ordered (λ d, d) (λ _, 2) g g' → R g'.
Proof. intros (x & Hx & Hr) Hs. exists x. split; [done|]. by eapply rtc_r. Qed.

Lemma published_step g k x n m :
  g_active g !! k = Some (MkPtx (Some x) (Some n) m) → publishRow (g_queue g) x n m = Ok (stored (g_queue g) x n m) →
  bstep None (0, 0) ordered (λ d, d) (λ _, 2) g (published g k x n m).
Proof. apply bs_commit. Qed.

Lemma advanced_step g :
  load (g_queue g) "wms_stock" 1 true = Some (withDefaults stockSpec) →
  bstep None (0, 0) ordered (λ d, d) (λ _, 2) g (advanced g).
Proof.
  intros Hu. unfold advanced. set (a := advance _ _ _). eapply (bs_advance _ _ _ _ _ g "wms_stock" _ a.1).
  - unfold specOf. by rewrite Hord.
  - subst a. by destruct (advance _ _ _).
Qed.

Lemma sb7_reachable : R sb7.
Proof.
  assert (R sb0) as H0 by (exists 10; split; [cbn; lia|reflexivity]).
  assert (R sb1) as H1 by (eapply reach_r; [exact H0|by apply bs_begin]).
  assert (R sb2) as H2 by (eapply reach_r; [exact H1|by apply (bs_begin _ _ _ _ _ sb1)]).
  assert (R sb3) as H3 by (eapply reach_r; [exact H2|by apply (bs_xid _ _ _ _ _ sb2 _ (pubA None None))]).
  assert (R sb4) as H4 by (eapply reach_r; [exact H3|by apply (bs_xid _ _ _ _ _ sb3 _ (pubB None None))]).
  assert (R sb5) as H5 by (eapply reach_r; [exact H4|by apply (bs_seq _ _ _ _ _ sb4 _ (pubB (Some 11) None))]).
  assert (R sb6) as H6 by (eapply reach_r; [exact H5|by apply (bs_seq _ _ _ _ _ sb5 _ (pubA (Some 10) None))]).
  eapply reach_r; [exact H6|by apply bs_subscribe].
Qed.

Lemma sb11_reachable : R sb11.
Proof.
  pose proof sb7_reachable as H7.
  assert (R sb8) as H8 by (eapply reach_r; [exact H7|by apply published_step]).
  assert (R sb9) as H9 by (eapply reach_r; [exact H8|by apply advanced_step]).
  assert (R sb10) as H10 by (eapply reach_r; [exact H9|by apply published_step]).
  eapply reach_r; [exact H10|by apply advanced_step].
Qed.
End stock.

(** While publisher 0 runs, the later identifier that committed first is not read. *)
Example not_read_early : g_queued sb9 = ∅ ∧ q_messages (g_queue sb9) !! 1 = Some (MkBMsg 11 (Some "b") (stockMsg "b") 0).
Proof. by vm_compute. Qed.

Lemma no_message_skipped_witness : ("wms_stock", 1) ∈ g_queued sb11 ∧ ("wms_stock", 2) ∈ g_queued sb11.
Proof.
  assert (∃ u, q_subs (g_queue sb11) !! "wms_stock" = Some u ∧ u_pos u = (11, 1) ∧ u_Streams u = ["erp.stock"] ∧ u_Filters u = []) as (u & Hu & Hp & Hs & Hf)
    by (eexists; split; [by vm_compute|by vm_compute]).
  destruct (no_message_skipped None (0, 0) (λ _, true) (λ d, d) (λ _, 2) sb11 "wms_stock" u (sb11_reachable _ eq_refl) Hu) as [Hall _].
  split.
  - apply (Hall 1 (MkBMsg 11 (Some "b") (stockMsg "b") 0)); [by vm_compute|by left| |].
    + rewrite Hp. unfold posLe, posLt. cbn. lia.
    + unfold umatches. rewrite Hs, Hf. by vm_compute.
  - apply (Hall 2 (MkBMsg 10 (Some "a") (stockMsg "a") 0)); [by vm_compute|by left| |].
    + rewrite Hp. unfold posLe, posLt. cbn. lia.
    + unfold umatches. rewrite Hs, Hf. by vm_compute.
Defined.
