(* ===== verification/EventsBusFate.v ===== *)
(** * Events: what becomes of a queued delivery

    The accounting of deliveries over the system of [EventsBus]: every claim is counted, a
    delivery is handed out at most as often as its subscription allows, and one that is no
    longer queued was handled, is a dead letter, was handed out that often, or lost its
    message to the retention. *)
From S2P Require Import Prelude GoStr EventsStream EventsEnvelope EventsQueue EventsBus EventsBusProps.
From Stdlib Require Import Ascii String.
Open Scope string_scope.
Open Scope Z_scope.
Open Scope list_scope.

(** ** What is counted *)

#[export] Instance claimRow_of_dec d n c : Decision (k_durable c = d ∧ k_seq c = n).
Proof. apply _. Defined.
Definition claimsOf (g : bus) (d : string) (n : Z) : list claimRow :=
  filter (λ c, k_durable c = d ∧ k_seq c = n) (g_claims g).
Definition claimCount (g : bus) (d : string) (n : Z) : Z := Z.of_nat (List.length (claimsOf g d n)).

(** How often a durable's subscription lets a message be delivered. *)
Definition limit (q : queue) (d : string) : option Z :=
  (λ u, if decide (u_MaxDeliver u ≤ 0) then DefaultMaxDeliver else u_MaxDeliver u) <$> q_subs q !! d.

Lemma specOf_limit ordered g d s :
  specOf ordered g d = Some s → ss_Durable s = d ∧ limit (g_queue g) d = Some (ss_MaxDeliver s).
Proof. unfold specOf, load, limit. intros (u & -> & ->)%fmap_Some. done. Qed.

Lemma limit_pos q d l : limit q d = Some l → 0 < l.
Proof. unfold limit, DefaultMaxDeliver. intros (u & _ & ->)%fmap_Some. case_decide; lia. Qed.

Lemma elem_of_claimsOf g d n c : c ∈ claimsOf g d n ↔ c ∈ g_claims g ∧ k_durable c = d ∧ k_seq c = n.
Proof. unfold claimsOf. rewrite list_elem_of_filter. naive_solver. Qed.

Section fate.
Context `{Codec} (reader : option (string → res string string)).
Context (pos0 : Z * Z) (ordered : string → bool) (subOf : string → string) (maxOf : string → Z).

(** The event of a message was applied by a subscription. *)
Definition handled (mb : member) (sub : string) (m : Message) : Prop :=
  ∃ r, Receive m reader = Ok r ∧ is_Some (m_inbox mb !! (sub, rv_ID r)).
Definition isDead (mb : member) (sub : string) (m : Message) : Prop := (sub, MsgEventID m) ∈ m_dead mb.

Definition ended (g : bus) (d : string) (n : Z) : Prop :=
  (∃ x m, (x, n, m) ∈ g_committed g ∧ (handled (g_member g) (subOf d) m ∨ isDead (g_member g) (subOf d) m)) ∨
  (∃ l, limit (g_queue g) d = Some l ∧ l ≤ claimCount g d n) ∨
  q_messages (g_queue g) !! n = None.

Definition decidedOk (mb : member) (ph : phase) : Prop :=
  match ph with
  | Decided c Ack => handled mb (subOf (k_durable c)) (k_msg c)
  | Decided c Term => isDead mb (subOf (k_durable c)) (k_msg c)
  | _ => True
  end.

Record rowOk (g : bus) (d : string) (n : Z) (x : delivery) (l : Z) : Prop := {
  ro_count : d_attempts x = claimCount g d n;
  ro_ready : d_flight x = false → d_attempts x < l;
  ro_flight : d_flight x = true → d_attempts x ≤ l ∧
    ∃ c, c ∈ claimsOf g d n ∧ k_attempt c = d_attempts x ∧ d_token x = Some (k_token c) }.

Record fateInv (g : bus) : Prop := {
  fi_claim : ∀ c, c ∈ g_claims g → (k_token c < g_nextToken g)%nat ∧ (k_durable c, k_seq c) ∈ g_queued g ∧
    (∃ x, (x, k_seq c, k_msg c) ∈ g_committed g) ∧ k_attempt c ≤ claimCount g (k_durable c) (k_seq c);
  fi_token : ∀ c c', c ∈ g_claims g → c' ∈ g_claims g → k_token c = k_token c' → c = c';
  fi_row : ∀ d n x l, q_deliveries (g_queue g) !! (d, n) = Some x → limit (g_queue g) d = Some l → rowOk g d n x l;
  fi_bound : ∀ d n l, limit (g_queue g) d = Some l → claimCount g d n ≤ l;
  fi_worker : ∀ w ph, g_workers g !! w = Some ph → claimOf ph ∈ g_claims g ∧ decidedOk (g_member g) ph;
  fi_end : ∀ d n, (d, n) ∈ g_queued g → is_Some (q_deliveries (g_queue g) !! (d, n)) ∨ ended g d n }.

Lemma not_queued_unclaimed g d n : fateInv g → (d, n) ∉ g_queued g → claimCount g d n = 0.
Proof.
  intros I Hq. unfold claimCount. destruct (claimsOf g d n) as [|c l] eqn:Hc; [done|].
  assert (c ∈ claimsOf g d n) as (Hin & <- & <-)%elem_of_claimsOf by (rewrite Hc; left).
  by destruct Hq; apply (fi_claim _ I).
Qed.

(** The members of the state a step may change besides the deliveries. *)
Record grows (g g' : bus) : Prop := {
  gr_claims : g_claims g' = g_claims g;
  gr_queued : g_queued g' = g_queued g;
  gr_token : (g_nextToken g ≤ g_nextToken g')%nat;
  gr_committed : ∀ y, y ∈ g_committed g → y ∈ g_committed g';
  gr_inbox : ∀ k, is_Some (m_inbox (g_member g) !! k) → is_Some (m_inbox (g_member g') !! k);
  gr_dead : m_dead (g_member g) ⊆ m_dead (g_member g');
  gr_messages : ∀ n b, q_messages (g_queue g') !! n = Some b → is_Some (q_messages (g_queue g) !! n) ∨ (∀ d, (d, n) ∉ g_queued g);
  gr_limit : ∀ d l, limit (g_queue g') d = Some l → limit (g_queue g) d = Some l ∨ (∀ n, (d, n) ∉ g_queued g);
  gr_limit' : ∀ d l, limit (g_queue g) d = Some l → limit (g_queue g') d = Some l }.

Lemma grows_count g g' d n : grows g g' → claimCount g' d n = claimCount g d n.
Proof. intros G. unfold claimCount, claimsOf. by rewrite (gr_claims _ _ G). Qed.
Lemma grows_handled g g' sub m : grows g g' → handled (g_member g) sub m → handled (g_member g') sub m.
Proof. intros G (r & Hr & Hi). exists r. split; [done|]. by apply (gr_inbox _ _ G). Qed.
Lemma grows_isDead g g' sub m : grows g g' → isDead (g_member g) sub m → isDead (g_member g') sub m.
Proof. intros G Hd. by apply (gr_dead _ _ G). Qed.

Lemma grows_ended g g' d n : grows g g' → (d, n) ∈ g_queued g → ended g d n → ended g' d n.
Proof.
  intros G Hq [(x & m & Hin & Hm)|[(l & Hl & Hc)|Hn]].
  - left. exists x, m. split; [by apply (gr_committed _ _ G)|].
    destruct Hm; [left; by eapply grows_handled|right; by eapply grows_isDead].
  - right; left. exists l. split; [by apply (gr_limit' _ _ G)|]. by rewrite (grows_count _ _ _ _ G).
  - right; right. destruct (q_messages (g_queue g') !! n) as [b|] eqn:Hb; [|done].
    destruct (gr_messages _ _ G _ _ Hb) as [[? ?]|Hno]; [congruence|by destruct (Hno d)].
Qed.

(** A step that claims nothing keeps the accounting when each row it leaves is a row that
    was there, as it was or put back, each row it takes away has ended, and the workers'
    outcomes are so. *)
Lemma fate_grows g g' :
  fateInv g → grows g g' → dom (q_deliveries (g_queue g)) ⊆ g_queued g →
  (∀ d n x', q_deliveries (g_queue g') !! (d, n) = Some x' → ∃ x, q_deliveries (g_queue g) !! (d, n) = Some x ∧
     d_attempts x' = d_attempts x ∧ (d_flight x' = true → d_flight x = true ∧ d_token x' = d_token x) ∧
     (d_flight x' = false → d_flight x = false ∨ ∀ l, limit (g_queue g) d = Some l → d_attempts x < l)) →
  (∀ d n x, q_deliveries (g_queue g) !! (d, n) = Some x → q_deliveries (g_queue g') !! (d, n) = None → ended g' d n) →
  (∀ w ph, g_workers g' !! w = Some ph → (g_workers g !! w = Some ph ∨ claimOf ph ∈ g_claims g ∧ decidedOk (g_member g') ph)) →
  fateInv g'.
Proof.
  intros I G Hdom Hrow Hgone Hw. split.
  - intros c. rewrite (gr_claims _ _ G), (gr_queued _ _ G). intros Hc. destruct (fi_claim _ I c Hc) as (Ht & Hq & (x & Hx) & Ha).
    split; [pose proof (gr_token _ _ G); lia|]. split; [done|]. split; [exists x; by apply (gr_committed _ _ G)|].
    by rewrite (grows_count _ _ _ _ G).
  - rewrite (gr_claims _ _ G). apply I.
  - intros d n x' l Hx' Hl. destruct (Hrow _ _ _ Hx') as (x & Hx & Ha & Hf & Hr).
    assert (limit (g_queue g) d = Some l) as Hl0.
    { destruct (gr_limit _ _ G _ _ Hl) as [|Hno]; [done|]. destruct (Hno n). apply Hdom. by apply elem_of_dom. }
    destruct (fi_row _ I _ _ _ _ Hx Hl0) as [R1 R2 R3]. split.
    + rewrite (grows_count _ _ _ _ G). congruence.
    + intros Hfl. rewrite Ha. destruct (Hr Hfl) as [?|Hlt]; [by apply R2|by apply Hlt].
    + intros Hfl. destruct (Hf Hfl) as [Hfl0 Htok]. destruct (R3 Hfl0) as (Hle & c & Hc & Hk & Ht). rewrite Ha, Htok. split; [done|].
      exists c. split; [|done]. unfold claimsOf in *. by rewrite (gr_claims _ _ G).
  - intros d n l Hl. rewrite (grows_count _ _ _ _ G). destruct (gr_limit _ _ G _ _ Hl) as [Hl0|Hno]; [by apply (fi_bound _ I)|].
    rewrite not_queued_unclaimed by auto. apply limit_pos in Hl. lia.
  - intros w ph Hph. rewrite (gr_claims _ _ G). destruct (Hw w ph Hph) as [Hold|?]; [|done].
    destruct (fi_worker _ I w ph Hold) as [Hc Hd]. split; [done|]. destruct ph as [| |c []]; try done; cbn in *;
      [by eapply grows_handled|by eapply grows_isDead].
  - intros d n. rewrite (gr_queued _ _ G). intros Hq. destruct (q_deliveries (g_queue g') !! (d, n)) as [x|] eqn:Hx; [left; by eexists|]. right.
    destruct (fi_end _ I d n Hq) as [[x Hx0]|He]; [by eapply Hgone|by eapply grows_ended].
Qed.

(** ** The steps *)

Lemma processMsg_spec sub m now ok mb e mb' :
  process reader sub m now ok mb = (e, mb') →
  (∀ k, is_Some (m_inbox mb !! k) → is_Some (m_inbox mb' !! k)) ∧ m_dead mb' = m_dead mb ∧ (e = None → handled mb' sub m).
Proof.
  unfold process, handled. destruct (Receive m reader) as [r|err]; [|by intros [= <- <-]].
  unfold commit, processTx, tbind, tget, tret, tmod, tfail. cbn. destruct (m_inbox mb !! (sub, rv_ID r)) as [row|] eqn:Hi; cbn.
  - intros [= <- <-]. split; [done|]. split; [done|]. intros _. exists r. split; [done|]. by eexists.
  - destruct ok; cbn; intros [= <- <-]; [|done]. cbn. split; [|split; [done|]].
    + intros k Hk. destruct (decide (k = (sub, rv_ID r))) as [->|Hne]; [rewrite lookup_insert_eq; by eexists|].
      by rewrite lookup_insert_ne.
    + intros _. exists r. split; [done|]. rewrite lookup_insert_eq. by eexists.
Qed.

(** Steps over the publishers and the clock. *)
Lemma fate_publishers g g' :
  fateInv g → dom (q_deliveries (g_queue g)) ⊆ g_queued g → grows g g' → q_deliveries (g_queue g') = q_deliveries (g_queue g) →
  g_workers g' = g_workers g → fateInv g'.
Proof.
  intros I Hd G Hq Hw. eapply fate_grows; [done|done|done| | |].
  - intros d n x. rewrite Hq. intros Hx. exists x. auto.
  - intros d n x. rewrite Hq. congruence.
  - intros w ph. rewrite Hw. auto.
Qed.

(** Steps of a worker that leave the queue. *)
Lemma fate_worker g w ph mb :
  fateInv g → dom (q_deliveries (g_queue g)) ⊆ g_queued g →
  (∀ k, is_Some (m_inbox (g_member g) !! k) → is_Some (m_inbox mb !! k)) → m_dead (g_member g) ⊆ m_dead mb →
  (∀ p, ph = Some p → claimOf p ∈ g_claims g ∧ decidedOk mb p) → fateInv (with_worker w ph mb g).
Proof.
  intros I Hdom Hi Hd Hp. eapply fate_grows; [done| |done| | |].
  - split; cbn; eauto.
  - intros d n x Hx. exists x. auto.
  - intros d n x. cbn. congruence.
  - intros w' ph'. cbn. destruct (decide (w' = w)) as [->|Hne]; [rewrite lookup_partial_alter_eq; auto|].
    rewrite lookup_partial_alter_ne by done. auto.
Qed.

(** The row a token names is the row of its claim. *)
Lemma token_row g c n x l :
  fateInv g → c ∈ g_claims g → q_deliveries (g_queue g) !! (k_durable c, n) = Some x → limit (g_queue g) (k_durable c) = Some l →
  holdsToken (k_durable c) (k_token c) (k_durable c, n) x = true → n = k_seq c ∧ d_attempts x = k_attempt c.
Proof.
  intros I Hc Hx Hl Ht. unfold holdsToken in Ht. apply andb_true_iff in Ht as [[_ Ht]%andb_true_iff Hf].
  apply bool_decide_eq_true in Ht. destruct (ro_flight _ _ _ _ _ (fi_row _ I _ _ _ _ Hx Hl) Hf) as (_ & c' & Hc' & Ha & Ht').
  apply elem_of_claimsOf in Hc' as (Hc' & _ & <-). assert (c' = c) as -> by (apply (fi_token _ I); congruence). auto.
Qed.

Lemma holdsToken_durable d t k x : holdsToken d t k x = true → k.1 = d.
Proof. unfold holdsToken. intros [[Hk _]%andb_true_iff _]%andb_true_iff. by apply bool_decide_eq_true in Hk. Qed.

Lemma fate_settle g w c out s :
  fateInv g → dom (q_deliveries (g_queue g)) ⊆ g_queued g → g_workers g !! w = Some (Decided c out) → specOf ordered g (k_durable c) = Some s →
  fateInv (with_queue (settle s (k_attempt c) (k_token c) out (g_queue g)) (with_worker w None (g_member g) g)).
Proof.
  intros I Hdom Hw Hs. apply specOf_limit in Hs as [Hsd Hl]. destruct (fi_worker _ I _ _ Hw) as [Hc Hok]. cbn in Hc.
  destruct (settle_sub s (k_attempt c) (k_token c) out (g_queue g)) as (Hm & Hu & _).
  assert (Hlim : ∀ d, limit (settle s (k_attempt c) (k_token c) out (g_queue g)) d = limit (g_queue g) d) by (intros d; unfold limit; by rewrite Hu).
  assert (Hg : grows g (with_queue (settle s (k_attempt c) (k_token c) out (g_queue g)) (with_worker w None (g_member g) g))).
  { split; cbn; auto; [rewrite Hm; intros n b ->; left; by eexists|intros d l; rewrite Hlim; auto|intros d l; rewrite Hlim; auto]. }
  eapply fate_grows; [done|done|done| | |].
  - intros d n x'. cbn. unfold settle. destruct (removes _ _ _) eqn:Hr; cbn.
    + rewrite map_lookup_filter_Some. intros [Hx _]. exists x'. auto.
    + rewrite map_lookup_imap. intros (x & Hx & Hx')%bind_Some. exists x. split; [done|].
      rewrite Hsd in Hx'. destruct (holdsToken (k_durable c) (k_token c) (d, n) x) eqn:Ht; injection Hx' as <-; [|auto].
      cbn. split; [done|]. split; [done|]. intros _. right. intros l Hl'. pose proof (holdsToken_durable _ _ _ _ Ht) as Hd. cbn in Hd. subst d.
      destruct (token_row g c n x _ I Hc Hx Hl Ht) as [_ ->]. assert (l = ss_MaxDeliver s) as -> by congruence.
      destruct out; cbn in Hr; [done|by apply bool_decide_eq_false in Hr; lia|done].
  - intros d n x Hx. cbn. unfold settle. destruct (removes _ _ _) eqn:Hr; cbn; [|by rewrite map_lookup_imap, Hx].
    intros Hn. destruct (holdsToken (k_durable c) (k_token c) (d, n) x) eqn:Ht.
    2:{ assert (filter (λ '(k, x), holdsToken (ss_Durable s) (k_token c) k x = false) (q_deliveries (g_queue g)) !! (d, n) = Some x) by (apply map_lookup_filter_Some; by rewrite Hsd). congruence. }
    pose proof (holdsToken_durable _ _ _ _ Ht) as Hd. cbn in Hd. subst d. destruct (token_row g c n x _ I Hc Hx Hl Ht) as [-> Ha].
    destruct (fi_claim _ I c Hc) as (_ & _ & (y & Hy) & Hat). destruct out; cbn in Hok, Hr.
    + left. exists y, (k_msg c). auto.
    + right; left. exists (ss_MaxDeliver s). split; [exact Hl|]. apply bool_decide_eq_true in Hr.
      change (ss_MaxDeliver s ≤ claimCount g (k_durable c) (k_seq c)). lia.
    + left. exists y, (k_msg c). auto.
  - intros w' ph. cbn. destruct (decide (w' = w)) as [->|Hne]; [by rewrite lookup_partial_alter_eq|].
    rewrite lookup_partial_alter_ne by done. auto.
Qed.

(** Statements that keep every row as it was or drop it for good. *)
Lemma fate_queue g q :
  fateInv g → dom (q_deliveries (g_queue g)) ⊆ g_queued g → q_subs q = q_subs (g_queue g) →
  (∀ n b, q_messages q !! n = Some b → is_Some (q_messages (g_queue g) !! n)) →
  (∀ d n x', q_deliveries q !! (d, n) = Some x' → ∃ x, q_deliveries (g_queue g) !! (d, n) = Some x ∧
     d_attempts x' = d_attempts x ∧ d_flight x' = d_flight x ∧ d_token x' = d_token x) →
  (∀ d n x, q_deliveries (g_queue g) !! (d, n) = Some x → q_deliveries q !! (d, n) = None →
     (∃ l, limit (g_queue g) d = Some l ∧ l ≤ d_attempts x) ∨ q_messages q !! n = None) →
  fateInv (with_queue q g).
Proof.
  intros I Hdom Hu Hm Hr Hgone.
  assert (Hlim : ∀ d, limit q d = limit (g_queue g) d) by (intros d; unfold limit; by rewrite Hu).
  eapply fate_grows; [done| |done| | |].
  - split; cbn; eauto; intros d l; rewrite Hlim; auto.
  - intros d n x' Hx'. destruct (Hr _ _ _ Hx') as (x & Hx & Ha & Hf & Ht). exists x. rewrite Ha, Hf, Ht. auto.
  - intros d n x Hx Hn. cbn in Hn. right. destruct (Hgone _ _ _ Hx Hn) as [(l & Hl & Hle)|?]; [|by right]. left. exists l. cbn.
    rewrite Hlim. split; [done|]. change (l ≤ claimCount g d n). by rewrite <- (ro_count _ _ _ _ _ (fi_row _ I _ _ _ _ Hx Hl)).
  - intros w ph. auto.
Qed.

Lemma fate_renew g c s :
  fateInv g → dom (q_deliveries (g_queue g)) ⊆ g_queued g → fateInv (with_queue (renew s c (g_queue g)) g).
Proof.
  intros I Hdom. apply fate_queue; [done|done|done|cbn; eauto| |].
  - intros d n x'. cbn. rewrite map_lookup_imap. intros (x & Hx & Hx')%bind_Some. exists x. split; [done|].
    destruct (holdsToken _ _ _ x) eqn:Ht; injection Hx' as <-; [|done]. apply andb_true_iff in Ht as [_ Hf]. by rewrite Hf.
  - intros d n x Hx. cbn. by rewrite map_lookup_imap, Hx.
Qed.

Lemma fate_giveUp g d s :
  fateInv g → dom (q_deliveries (g_queue g)) ⊆ g_queued g → specOf ordered g d = Some s → fateInv (with_queue (giveUp s (g_queue g)) g).
Proof.
  intros I Hdom Hs. apply specOf_limit in Hs as [Hsd Hl]. apply fate_queue; [done|done|done|cbn; eauto| |].
  - intros d' n x'. cbn. rewrite map_lookup_filter_Some. intros [Hx _]. eauto.
  - intros d' n x Hx Hn. cbn in Hn. left.
    destruct (decide (d' = ss_Durable s ∧ d_flight x = true ∧ d_until x < q_now (g_queue g) ∧ ss_MaxDeliver s ≤ d_attempts x)) as [(-> & _ & _ & Hle)|Hno].
    + exists (ss_MaxDeliver s). by rewrite Hsd.
    + destruct (map_lookup_filter_None_1 _ _ _ Hn) as [?|Hd]; [congruence|]. by destruct (Hd x Hx).
Qed.

Lemma fate_purge g r :
  fateInv g → dom (q_deliveries (g_queue g)) ⊆ g_queued g → fateInv (with_queue (purge r (g_queue g)) g).
Proof.
  intros I Hdom. apply fate_queue; [done|done|done| | |].
  - intros n b. cbn. rewrite lookup_difference_Some. intros [-> _]. by eexists.
  - intros d n x'. cbn. rewrite map_lookup_filter_Some. intros [Hx _]. eauto.
  - intros d n x Hx Hn. right. cbn in Hn |- *. set (gone := filter _ (q_messages (g_queue g))) in *.
    destruct (map_lookup_filter_None_1 _ _ _ Hn) as [?|Hd]; [congruence|]. specialize (Hd x Hx). cbn in Hd.
    apply lookup_difference_None. right. by apply not_eq_None_Some in Hd.
Qed.

(** ** Claiming *)

Lemma claimsOf_snoc g c l d n :
  g_claims l = g_claims g ++ [c] → claimsOf l d n = claimsOf g d n ++ (if decide (k_durable c = d ∧ k_seq c = n) then [c] else []).
Proof. intros Hl. unfold claimsOf. rewrite Hl, filter_app. f_equal. Qed.

Lemma due_below g d n x s :
  fateInv g → specOf ordered g d = Some s → q_deliveries (g_queue g) !! (d, n) = Some x →
  isDue (q_now (g_queue g)) (ss_MaxDeliver s) x = true → d_attempts x = claimCount g d n ∧ d_attempts x < ss_MaxDeliver s.
Proof.
  intros I [_ Hl]%specOf_limit Hx Hdue. destruct (fi_row _ I _ _ _ _ Hx Hl) as [R1 R2 R3]. split; [done|].
  unfold isDue, isReady, isExpired in Hdue. destruct (d_flight x) eqn:Hf; cbn in Hdue; [|by apply R2].
  apply andb_true_iff in Hdue as [_ Hdue]. by apply bool_decide_eq_true in Hdue.
Qed.

Lemma fate_claim g w d s oc q :
  fateInv g → seqInv pos0 g → specOf ordered g d = Some s → claim s (g_nextToken g) (g_queue g) = (oc, q) →
  fateInv (MkBus q (g_nextXid g) (g_nextSeq g) (g_active g) (S (g_nextToken g))
             (match oc with Some c => <[w := Claimed c]> (g_workers g) | None => g_workers g end)
             (g_member g) (g_committed g) (g_queued g)
             (match oc with Some c => g_claims g ++ [c] | None => g_claims g end)).
Proof.
  intros I J Hs. pose proof (si_delivery _ _ J) as Hdom. destruct (specOf_limit _ _ _ _ Hs) as [Hsd Hlim].
  unfold claim. rewrite Hsd. destruct (dueRow s (g_queue g)) as [[n x]|] eqn:Hdue.
  2:{ intros [= <- <-]. eapply fate_publishers; [done|done| |done|done]. split; cbn; eauto; lia. }
  apply dueRow_Some in Hdue as [Hx Hdue]. rewrite Hsd in Hx. destruct (due_below g d n x s I Hs Hx Hdue) as [Hcount Hlt].
  destruct (q_messages (g_queue g) !! n) as [b|] eqn:Hb; intros [= <- <-].
  2:{ eapply fate_grows; [done| |done| | |].
      - split; cbn; eauto; lia.
      - intros d' n' x'. cbn. rewrite lookup_delete_Some. intros [_ Hx']. exists x'. auto.
      - intros d' n' x' Hx'. cbn. rewrite lookup_delete_None. intros [[= <- <-]|?]; [|congruence]. by right; right.
      - intros w' ph. auto. }
  set (c := MkClaim d n (g_nextToken g) (d_attempts x + 1) (b_msg b)).
  match goal with |- fateInv ?y => set (g' := y) end.
  assert (Hsnoc : ∀ d' n', claimsOf g' d' n' = claimsOf g d' n' ++ (if decide (d = d' ∧ n = n') then [c] else [])).
  { intros d' n'. by apply (claimsOf_snoc g c g'). }
  assert (Hsame : ∀ d' n', ¬ (d = d' ∧ n = n') → claimsOf g' d' n' = claimsOf g d' n').
  { intros d' n' Hne. rewrite Hsnoc, decide_False by done. by rewrite app_nil_r. }
  assert (Hnew : claimCount g' d n = claimCount g d n + 1).
  { unfold claimCount. rewrite Hsnoc, decide_True, length_app by done. cbn. lia. }
  assert (Hmono : ∀ d' n', claimCount g d' n' ≤ claimCount g' d' n').
  { intros d' n'. unfold claimCount. rewrite Hsnoc, length_app. lia. }
  split.
  - intros c' [Hc'|Hc']%elem_of_app.
    + destruct (fi_claim _ I c' Hc') as (Ht & Hq & Hx' & Ha). split; [cbn; lia|]. split; [done|]. split; [done|].
      specialize (Hmono (k_durable c') (k_seq c')). lia.
    + apply list_elem_of_singleton in Hc' as ->. cbn [k_token k_durable k_seq k_msg k_attempt c]. split; [cbn; lia|].
      split; [apply Hdom; by apply elem_of_dom|]. split; [exists (b_xid b); by apply (si_message _ _ J)|]. rewrite Hnew. lia.
  - intros c1 c2 [H1|H1]%elem_of_app [H2|H2]%elem_of_app Ht.
    + by apply (fi_token _ I).
    + apply list_elem_of_singleton in H2 as ->. destruct (fi_claim _ I _ H1) as (? & _). cbn in Ht. lia.
    + apply list_elem_of_singleton in H1 as ->. destruct (fi_claim _ I _ H2) as (? & _). cbn in Ht. lia.
    + apply list_elem_of_singleton in H1 as ->, H2 as ->. done.
  - intros d' n' x' l Hx' Hl. change (limit (g_queue g) d' = Some l) in Hl.
    cbn in Hx'. destruct (decide ((d', n') = (d, n))) as [[= -> ->]|Hne].
    + rewrite lookup_insert_eq in Hx'. injection Hx' as <-. assert (l = ss_MaxDeliver s) as -> by congruence. split; cbn [claimed d_attempts d_flight d_token].
      * lia.
      * done.
      * intros _. split; [lia|]. exists c. split; [|done]. rewrite Hsnoc, decide_True by done. set_solver.
    + rewrite lookup_insert_ne in Hx' by congruence. assert (¬ (d = d' ∧ n = n')) as Hne' by naive_solver.
      destruct (fi_row _ I _ _ _ _ Hx' Hl) as [R1 R2 R3]. split; [|done|].
      * unfold claimCount. by rewrite Hsame.
      * by rewrite Hsame.
  - intros d' n' l Hl. change (limit (g_queue g) d' = Some l) in Hl. destruct (decide (d = d' ∧ n = n')) as [[<- <-]|Hne].
    + rewrite Hnew. assert (l = ss_MaxDeliver s) as -> by congruence. lia.
    + unfold claimCount. rewrite Hsame by done. by apply (fi_bound _ I).
  - intros w' ph. cbn. destruct (decide (w' = w)) as [->|Hne].
    + rewrite lookup_insert_eq. intros [= <-]. cbn. split; [|done]. set_solver.
    + rewrite lookup_insert_ne by done. intros Hph. destruct (fi_worker _ I _ _ Hph) as [Hc Hd]. split; [set_solver|done].
  - intros d' n' Hq. cbn. destruct (decide ((d', n') = (d, n))) as [[= -> ->]|Hne]; [rewrite lookup_insert_eq; by left|].
    rewrite lookup_insert_ne by congruence. destruct (fi_end _ I _ _ Hq) as [?|[He|[(l & Hl & Hle)|Hn]]]; [by left|by right; left| |by right; right; right].
    right; right; left. exists l. split; [done|]. specialize (Hmono d' n'). lia.
Qed.

(** ** Reading *)

Lemma queueOne_lookup d now m l k x :
  foldr (queueOne d now) m l !! k = Some x → m !! k = Some x ∨ (m !! k = None ∧ x = newDelivery now ∧ ∃ n, n ∈ l ∧ k = (d, n)).
Proof.
  induction l as [|n l IH]; cbn [foldr]; [by left|]. unfold queueOne at 1.
  destruct (foldr (queueOne d now) m l !! (d, n)) as [y|] eqn:Hn.
  - intros Hx. destruct (IH Hx) as [?|(? & ? & n' & ? & ?)]; [by left|right]. split; [done|]. split; [done|]. exists n'. split; [by right|done].
  - destruct (decide (k = (d, n))) as [->|Hne].
    + rewrite lookup_insert_eq. intros [= <-]. right. split; [|split; [done|]; exists n; split; [left|done]].
      destruct (m !! (d, n)) eqn:Hm; [|done]. exfalso. assert ((d, n) ∈ dom (foldr (queueOne d now) m l)) as [y Hy]%elem_of_dom; [|congruence].
      rewrite queueOne_dom. apply elem_of_union_l. by apply elem_of_dom_2 in Hm.
    + rewrite lookup_insert_ne by done. intros Hx. destruct (IH Hx) as [?|(? & ? & n' & ? & ?)]; [by left|right]. split; [done|]. split; [done|].
      exists n'. split; [by right|done].
Qed.

(** A message after the position was not queued before. *)
Lemma next_not_queued g d u n b xmin :
  seqInv pos0 g → q_subs (g_queue g) !! d = Some u → (n, b) ∈ nextMessages (g_queue g) (u_pos u) xmin → (d, n) ∉ g_queued g.
Proof.
  intros J Hu (Hb & Hp & _)%nextMessages_elem (u' & x & m & Hu' & Hin & Hle & _)%(si_queued _ _ J). cbn in Hb.
  assert (u' = u) as -> by congruence. destruct (si_once _ _ J _ _ _ _ _ Hin (si_message _ _ J _ _ Hb)) as [-> _]. done.
Qed.

Lemma fate_advance g d s moved q :
  fateInv g → seqInv pos0 g → specOf ordered g d = Some s → advance (xminOf g) s (g_queue g) = (moved, q) →
  fateInv (MkBus q (g_nextXid g) (g_nextSeq g) (g_active g) (g_nextToken g) (g_workers g) (g_member g) (g_committed g)
             (g_queued g ∪ dom (q_deliveries q)) (g_claims g)).
Proof.
  intros I J Hs. destruct (specOf_limit _ _ _ _ Hs) as [Hsd Hlim]. pose proof (si_delivery _ _ J) as Hdom.
  assert (Hsame : fateInv (MkBus (g_queue g) (g_nextXid g) (g_nextSeq g) (g_active g) (g_nextToken g) (g_workers g) (g_member g)
    (g_committed g) (g_queued g ∪ dom (q_deliveries (g_queue g))) (g_claims g))).
  { replace (g_queued g ∪ dom (q_deliveries (g_queue g))) with (g_queued g) by set_solver. by destruct g. }
  unfold advance. rewrite Hsd. destruct (q_subs (g_queue g) !! d) as [u|] eqn:Hu; [|by intros [= <- <-]].
  destruct (last _) as [lst|]; [|by intros [= <- <-]]. intros [= <- <-]. set (seqs := omap _ _).
  set (u' := MkBSub _ _ _ _ _ _).
  assert (Hl' : ∀ d', limit (MkQueue (q_messages (g_queue g)) (<[d := u']> (q_subs (g_queue g))) (foldr (queueOne d (q_now (g_queue g))) (q_deliveries (g_queue g)) seqs) (q_now (g_queue g))) d' = limit (g_queue g) d').
  { intros d'. unfold limit. cbn. destruct (decide (d' = d)) as [->|]; [by rewrite lookup_insert_eq, Hu|by rewrite lookup_insert_ne]. }
  split; cbn [g_claims g_nextToken g_queued g_committed g_workers g_member].
  - intros c Hc. destruct (fi_claim _ I c Hc) as (? & ? & ? & ?). split; [done|]. split; [set_solver|done].
  - apply I.
  - intros d' n x l Hx Hl. cbn in Hx, Hl. rewrite Hl' in Hl. apply queueOne_lookup in Hx as [Hx|(Hnone & -> & n' & Hin & [= -> ->])].
    + by destruct (fi_row _ I _ _ _ _ Hx Hl) as [R1 R2 R3].
    + apply list_elem_of_omap in Hin as ([n1 b1] & Hr & Hr'). cbn in Hr'. destruct (matches _ _); [|done]. injection Hr' as ->.
      pose proof (next_not_queued _ _ _ _ _ _ J Hu Hr) as Hnq. pose proof (not_queued_unclaimed g d n' I Hnq) as H0. apply limit_pos in Hl.
      split; [symmetry; exact H0|cbn; lia|done].
  - intros d' n l Hl. cbn in Hl. rewrite Hl' in Hl. by apply (fi_bound _ I).
  - apply I.
  - intros d' n Hin. cbn [g_queue q_deliveries].
    destruct (foldr (queueOne d (q_now (g_queue g))) (q_deliveries (g_queue g)) seqs !! (d', n)) eqn:Hx; [left; by eexists|]. right.
    apply not_elem_of_dom in Hx. apply elem_of_union in Hin as [Hin|?]; [|done].
    destruct (fi_end _ I _ _ Hin) as [Hsome%elem_of_dom|He]; [rewrite queueOne_dom in Hx; set_solver|].
    destruct He as [He|[(l & Hl & Hle)|Hn]]; [by left| |by right; right]. right; left. exists l. split; [|done]. by rewrite <- Hl; apply Hl'.
Qed.

(** ** Every step *)

Lemma seq_unused g k t n d : seqInv pos0 g → g_active g !! k = Some t → x_seq t = Some n → (d, n) ∉ g_queued g.
Proof.
  intros J Hk Hn (u & x & m & _ & Hin & _)%(si_queued _ _ J). destruct (si_committed _ _ J _ _ _ Hin) as (_ & _ & Hno).
  by apply (Hno k t).
Qed.

Lemma grows_commit g k x n m q :
  seqInv pos0 g → g_active g !! k = Some (MkPtx (Some x) (Some n) m) → publishRow (g_queue g) x n m = Ok q →
  grows g (MkBus q (g_nextXid g) (g_nextSeq g) (delete k (g_active g)) (g_nextToken g) (g_workers g) (g_member g)
             (if duplicate (g_queue g) m then g_committed g else g_committed g ++ [(x, n, m)]) (g_queued g) (g_claims g)).
Proof.
  intros J Hk [[-> ->]|[-> ->]]%publishRow_ok; split; cbn; eauto; [intros y Hy; set_solver|].
  intros n' b. destruct (decide (n' = n)) as [->|Hne].
  - intros _. right. intros d. by eapply seq_unused.
  - rewrite lookup_insert_ne by done. eauto.
Qed.

Lemma grows_subscribe g spec : seqInv pos0 g → grows g (with_queue (subscribe pos0 spec (g_queue g)) g).
Proof.
  intros J. unfold subscribe. set (s := withDefaults spec). destruct (q_subs (g_queue g) !! ss_Durable s) as [u|] eqn:Hu; [split; cbn; eauto|].
  split; cbn; eauto.
  - intros d l. unfold limit. cbn. destruct (decide (d = ss_Durable s)) as [->|Hne]; [|rewrite lookup_insert_ne by done; auto].
    intros _. right. intros n (u & _ & _ & Hu' & _)%(si_queued _ _ J). congruence.
  - intros d l. unfold limit. cbn. destruct (decide (d = ss_Durable s)) as [->|Hne]; [by rewrite Hu|by rewrite lookup_insert_ne].
Qed.

Lemma fate_step g g' : fateInv g → seqInv pos0 g → bstep reader pos0 ordered subOf maxOf g g' → fateInv g'.
Proof.
  intros I J Hst. pose proof (si_delivery _ _ J) as Hdom.
  destruct Hst as [g k m Hk|g k t Hk Hx|g k t Hk Hx|g k x n m q Hk Hp|g k|g spec|g d s mv q Hs Ha|
    g w d s oc q Hw Hs Hc|g w c s Hw Hs|g w c ok now e mb Hw Hp|g w c written ok mb Hw Hd|g w c out s Hw Hs|g w|g d s Hs|g r|g dt Hd];
    try (eapply fate_publishers; [done|done| |done|done]; split; cbn; by eauto).
  - eapply fate_publishers; [done|done|by apply grows_commit| |done]. by apply publishRow_ok in Hp as [[_ ->]|[_ ->]].
  - eapply fate_publishers; [done|done|by apply grows_subscribe| |done]. cbn. unfold subscribe. by destruct (q_subs _ !! _).
  - by eapply fate_advance.
  - by eapply fate_claim.
  - by apply fate_renew.
  - apply processMsg_spec in Hp as (Hin & Hd & Hok). destruct (fi_worker _ I _ _ Hw) as [Hc _].
    apply fate_worker; [done|done|done|by rewrite Hd|]. intros ph [= <-]. unfold afterProcess. destruct e as [e|]; [case_decide|]; cbn; auto.
  - destruct (fi_worker _ I _ _ Hw) as [Hc _]. unfold deadLetter in Hd. destruct written; injection Hd as <- <-.
    + apply fate_worker; [done|done|done|cbn; set_solver|]. intros ph [= <-]. cbn. split; [done|]. unfold isDead. cbn. set_solver.
    + apply fate_worker; [done|done|done|done|]. by intros ph [= <-].
  - by apply fate_settle.
  - by apply fate_worker.
  - by eapply fate_giveUp.
  - by apply fate_purge.
Qed.

Lemma fate_initial x : fateInv (busInitial x).
Proof. split; cbn; try (intros; set_solver). Qed.

Lemma fate_reachable g : busReachable reader pos0 ordered subOf maxOf g → fateInv g ∧ seqInv pos0 g.
Proof.
  intros (x & Hx & Hr). apply seq_initial in Hx. pose proof (fate_initial x) as I. revert I Hx.
  induction Hr as [|? ? ? Hs _ IH]; [done|]. intros I Hx. apply IH; [by eapply fate_step|by eapply seq_step].
Qed.

(** C8. No queued delivery is lost silently.  Whatever workers crash, settle late or hold
    expired leases, a delivery that was queued is handed out at most as often as its
    subscription allows, and while it is neither applied by its subscription, nor a dead
    letter, nor handed out that often, nor its message purged, it is still queued. *)
Theorem delivery_fate g d n :
  busReachable reader pos0 ordered subOf maxOf g → (d, n) ∈ g_queued g →
  ∃ x m l, (x, n, m) ∈ g_committed g ∧ limit (g_queue g) d = Some l ∧ claimCount g d n ≤ l ∧
    (is_Some (q_deliveries (g_queue g) !! (d, n)) ∨ handled (g_member g) (subOf d) m ∨ isDead (g_member g) (subOf d) m ∨
     claimCount g d n = l ∨ q_messages (g_queue g) !! n = None).
Proof.
  intros [I J]%fate_reachable Hq. destruct (si_queued _ _ J _ _ Hq) as (u & x & m & Hu & Hin & _).
  assert (∃ l, limit (g_queue g) d = Some l) as [l Hl] by (unfold limit; rewrite Hu; by eexists).
  pose proof (fi_bound _ I d n l Hl) as Hb. exists x, m, l. split; [done|]. split; [done|]. split; [done|].
  destruct (fi_end _ I d n Hq) as [?|[(x' & m' & Hin' & Hm)|[(l' & Hl' & Hle)|?]]]; [by left| | |by do 4 right].
  - destruct (si_once _ _ J _ _ _ _ _ Hin Hin') as [-> ->]. destruct Hm; [by right; left|by right; right; left].
  - right; right; right; left. assert (l' = l) as -> by congruence. lia.
Qed.
End fate.

(** ** Effects *)

Record effectsInv (mb : member) : Prop := {
  ei_once : NoDup (m_effects mb);
  ei_inbox : ∀ k, k ∈ m_effects mb ↔ is_Some (m_inbox mb !! k) }.

Lemma effects_process `{Codec} reader sub m now ok mb e mb' :
  effectsInv mb → process reader sub m now ok mb = (e, mb') → effectsInv mb'.
Proof.
  intros [E1 E2]. unfold process. destruct (Receive m reader) as [r|err]; [|by intros [= <- <-]].
  unfold commit, processTx, tbind, tget, tret, tmod, tfail. cbn. destruct (m_inbox mb !! (sub, rv_ID r)) as [row|] eqn:Hi; cbn; [by intros [= <- <-]|].
  destruct ok; cbn; intros [= <- <-]; [|done]. assert ((sub, rv_ID r) ∉ m_effects mb) by (rewrite E2, Hi; by intros [? ?]). split; cbn.
  - apply NoDup_app. split; [done|]. split; [set_solver|apply NoDup_singleton].
  - intros k. rewrite elem_of_app, list_elem_of_singleton, E2. destruct (decide (k = (sub, rv_ID r))) as [->|Hne].
    + rewrite lookup_insert_eq. split; [by eexists|by right].
    + rewrite lookup_insert_ne by done. naive_solver.
Qed.

(** C9. An event takes effect once.  However often a message is delivered, whatever fails
    or crashes in between, a subscription's handler commits at most once for an event, and
    exactly the events it committed for are in the inbox. *)
Theorem effects_once `{Codec} reader pos0 ordered subOf maxOf g :
  busReachable reader pos0 ordered subOf maxOf g →
  NoDup (m_effects (g_member g)) ∧ ∀ k, k ∈ m_effects (g_member g) ↔ is_Some (m_inbox (g_member g) !! k).
Proof.
  intros (x & _ & Hr). assert (effectsInv (g_member (busInitial x))) as I.
  { split; [apply NoDup_nil_2|]. intros k. cbn. rewrite lookup_empty. split; [by intros ?%elem_of_nil|by intros [? ?]]. }
  revert I. induction Hr as [g|g1 g2 g3 Hs _ IH]; [by intros []|]. intros I. apply IH. destruct Hs; try exact I.
  - cbn. by eapply effects_process.
  - cbn. unfold deadLetter in *. destruct written; simplify_eq; by destruct I.
Qed.

(** ** A message that fails every time *)

Definition stockLoaded : SubscriptionSpec := withDefaults stockSpec.
Definition doClaim (w : nat) (g : bus) : bus :=
  let oc := claim stockLoaded (g_nextToken g) (g_queue g) in
  MkBus oc.2 (g_nextXid g) (g_nextSeq g) (g_active g) (S (g_nextToken g))
    (match oc.1 with Some c => <[w := Claimed c]> (g_workers g) | None => g_workers g end)
    (g_member g) (g_committed g) (g_queued g) (match oc.1 with Some c => g_claims g ++ [c] | None => g_claims g end).
Definition doProcess (w : nat) (c : claimRow) (ok : bool) (g : bus) : bus :=
  let r := process None (k_durable c) (k_msg c) 0 ok (g_member g) in
  with_worker w (Some (match afterProcess 2 (k_attempt c) r.1 with Some out => Decided c out | None => Failed c end)) r.2 g.
Definition doDead (w : nat) (c : claimRow) (g : bus) : bus := with_worker w (Some (Decided c Nak)) (g_member g) g.
Definition doSettle (w : nat) (c : claimRow) (out : Outcome) (g : bus) : bus :=
  with_queue (settle stockLoaded (k_attempt c) (k_token c) out (g_queue g)) (with_worker w None (g_member g) g).
Definition doTick (dt : Z) (g : bus) : bus :=
  with_queue (MkQueue (q_messages (g_queue g)) (q_subs (g_queue g)) (q_deliveries (g_queue g)) (q_now (g_queue g) + dt)) g.

Definition firstClaim : claimRow := MkClaim "wms_stock" 1 0 1 (stockMsg "b").
Definition lastClaim : claimRow := MkClaim "wms_stock" 1 1 2 (stockMsg "b").
Definition fb1 : bus := doClaim 0 sb11.
Definition fb2 : bus := doProcess 0 firstClaim false fb1.
Definition fb3 : bus := doTick (60 * Second) (doSettle 0 firstClaim Nak fb2).
Definition fb4 : bus := doClaim 0 fb3.
Definition fb5 : bus := doProcess 0 lastClaim false fb4.
Definition fb6 : bus := doDead 0 lastClaim fb5.
Definition fb7 : bus := doSettle 0 lastClaim Nak fb6.
(** The message after it succeeds. *)
Definition nextClaim : claimRow := MkClaim "wms_stock" 2 2 1 (stockMsg "a").
Definition fb8 : bus := doClaim 0 fb7.
Definition fb9 : bus := doProcess 0 nextClaim true fb8.

Section failing.
Let ord : string → bool := λ _, true.
Let R := busReachable None (0, 0) ord (λ d, d) (λ _, 2).
Let stepR := bstep None (0, 0) ord (λ d, d) (λ _, 2).

Lemma loaded g :
  load (g_queue g) "wms_stock" 1 true = Some stockLoaded → specOf ord g "wms_stock" = Some stockLoaded.
Proof. done. Qed.

Lemma doClaim_step g w : g_workers g !! w = None → load (g_queue g) "wms_stock" 1 true = Some stockLoaded → stepR g (doClaim w g).
Proof. intros Hw Hl. eapply bs_claim; [done|by apply loaded|by apply surjective_pairing]. Qed.
Lemma doProcess_step g w c ok : g_workers g !! w = Some (Claimed c) → stepR g (doProcess w c ok g).
Proof. intros Hw. eapply bs_process; [done|by apply surjective_pairing]. Qed.
Lemma doSettle_step g w c out :
  g_workers g !! w = Some (Decided c out) → k_durable c = "wms_stock" → load (g_queue g) "wms_stock" 1 true = Some stockLoaded →
  stepR g (doSettle w c out g).
Proof. intros Hw Hd Hl. eapply bs_settle; [done|]. rewrite Hd. by apply loaded. Qed.

Lemma fb7_reachable : R fb7.
Proof.
  assert (R sb11) as H0 by (by apply sb11_reachable).
  assert (R fb1) as H1 by (eapply reach_r; [exact H0|by apply doClaim_step]).
  assert (R fb2) as H2 by (eapply reach_r; [exact H1|by apply doProcess_step]).
  assert (R (doSettle 0 firstClaim Nak fb2)) as H2' by (eapply reach_r; [exact H2|by apply doSettle_step]).
  assert (R fb3) as H3 by (eapply reach_r; [exact H2'|by apply bs_tick]).
  assert (R fb4) as H4 by (eapply reach_r; [exact H3|by apply doClaim_step]).
  assert (R fb5) as H5 by (eapply reach_r; [exact H4|by apply doProcess_step]).
  assert (R fb6) as H6 by (eapply reach_r; [exact H5|by apply (bs_dead _ _ _ _ _ fb5 0%nat lastClaim false false (g_member fb5))]).
  eapply reach_r; [exact H6|by apply doSettle_step].
Qed.

Lemma fb9_reachable : R fb9.
Proof.
  assert (R fb8) as H8 by (eapply reach_r; [apply fb7_reachable|by apply doClaim_step]).
  eapply reach_r; [exact H8|by apply doProcess_step].
Qed.
End failing.

(** A message that fails at its last delivery and whose dead letter cannot be written is
    gone from the queue: it is neither applied nor a dead letter, though it is stored and
    was matched, and nothing delivers it again. *)
Theorem last_failure_lost :
  busReachable None (0, 0) (λ _, true) (λ d, d) (λ _, 2) fb7 ∧ ("wms_stock", 1) ∈ g_queued fb7 ∧
  q_deliveries (g_queue fb7) !! ("wms_stock", 1) = None ∧ is_Some (q_messages (g_queue fb7) !! 1) ∧
  m_inbox (g_member fb7) = ∅ ∧ m_dead (g_member fb7) = ∅.
Proof.
  split; [apply fb7_reachable|]. split; [by apply (bool_decide_unpack _); vm_compute|]. split; [by vm_compute|].
  split; [vm_compute; by eexists|]. by vm_compute.
Qed.

Lemma delivery_fate_witness :
  claimCount fb7 "wms_stock" 1 = 2 ∧
  ∃ x m l, (x, 1, m) ∈ g_committed fb7 ∧ limit (g_queue fb7) "wms_stock" = Some l ∧ claimCount fb7 "wms_stock" 1 ≤ l ∧
    (is_Some (q_deliveries (g_queue fb7) !! ("wms_stock", 1)) ∨ handled None (g_member fb7) "wms_stock" m ∨
     isDead (g_member fb7) "wms_stock" m ∨ claimCount fb7 "wms_stock" 1 = l ∨ q_messages (g_queue fb7) !! 1 = None).
Proof.
  split; [by vm_compute|]. apply (delivery_fate None (0, 0) (λ _, true) (λ d, d) (λ _, 2) fb7 "wms_stock" 1); [apply fb7_reachable|].
  apply (bool_decide_unpack _). by vm_compute.
Defined.

Lemma effects_once_witness :
  m_effects (g_member fb9) = [("wms_stock", "a")] ∧ NoDup (m_effects (g_member fb9)) ∧
  ∀ k, k ∈ m_effects (g_member fb9) ↔ is_Some (m_inbox (g_member fb9) !! k).
Proof. split; [by vm_compute|]. apply (effects_once None (0, 0) (λ _, true) (λ d, d) (λ _, 2) fb9), fb9_reachable. Defined.

(** ** Two messages of an ordered subscription in flight *)

(** Publisher 0, with the greater number, commits and is read and claimed first; publisher
    1, with the smaller number, commits after. *)
Definition ob8 : bus := published sb7 0 10 2 (stockMsg "a").
Definition ob9 : bus := advanced ob8.
Definition ob10 : bus := doClaim 0 ob9.
Definition ob11 : bus := published ob10 1 11 1 (stockMsg "b").
Definition ob12 : bus := advanced ob11.
Definition ob13 : bus := doClaim 1 ob12.

Lemma ob13_reachable : busReachable None (0, 0) (λ _, true) (λ d, d) (λ _, 2) ob13.
Proof.
  pose (ord := λ _ : string, true). pose (R := busReachable None (0, 0) ord (λ d, d) (λ _, 2)).
  assert (R sb7) as H7 by (by apply sb7_reachable).
  assert (R ob8) as H8 by (eapply reach_r; [exact H7|by apply published_step]).
  assert (R ob9) as H9 by (eapply reach_r; [exact H8|by apply advanced_step]).
  assert (R ob10) as H10 by (eapply reach_r; [exact H9|by apply doClaim_step]).
  assert (R ob11) as H11 by (eapply reach_r; [exact H10|by apply published_step]).
  assert (R ob12) as H12 by (eapply reach_r; [exact H11|by apply advanced_step]).
  eapply reach_r; [exact H12|by apply doClaim_step].
Qed.

(** An ordered subscription, whose claims are to wait while one of its messages is in
    flight, hands out two at a time when a message with a smaller number becomes readable
    after one with a greater number was claimed: both leases run. *)
Theorem ordered_two_in_flight :
  busReachable None (0, 0) (λ _, true) (λ d, d) (λ _, 2) ob13 ∧ ss_Ordered stockLoaded = true ∧
  ∃ x y, q_deliveries (g_queue ob13) !! ("wms_stock", 1) = Some x ∧ q_deliveries (g_queue ob13) !! ("wms_stock", 2) = Some y ∧
    d_flight x = true ∧ d_flight y = true ∧ q_now (g_queue ob13) < d_until x ∧ q_now (g_queue ob13) < d_until y.
Proof. split; [apply ob13_reachable|]. split; [done|]. eexists _, _. split; [by vm_compute|]. split; [by vm_compute|]. by vm_compute. Qed.
