(* ===== verification/Canon.v ===== *)
(** * The canonical encoding of security records

    canon/canon.go ([Encode], [encodeString], [encodeInt], [Digest], [DigestBytes],
    [SortedSet]) and records/records.go ([Seal]): a text for values made of strings,
    integers, booleans, lists and objects, and a digest of it under a record type.

    A Go string is its bytes; a loop over one goes rune by rune and takes a byte that
    starts no rune as U+FFFD.  A Go map is the list of its members in the order a loop may
    take.  Every refusal is [ErrRefused], so an error is [None].  SHA-256 and Unicode's NFC
    are interfaces. *)
From S2P Require Import Prelude GoStr.
From Stdlib Require Import Ascii String.
Open Scope string_scope.
Open Scope Z_scope.
Open Scope list_scope.

(** ** Strings *)

Definition code (a : ascii) : Z := Z.of_N (N_of_ascii a).
Definition within (lo hi : Z) (a : ascii) : bool := bool_decide (lo ≤ code a ≤ hi).

(** The multi-byte sequences [utf8.DecodeRune] accepts. *)
Definition rune2 (a b : ascii) : bool := within 194 223 a && within 128 191 b.
Definition rune3 (a b c : ascii) : bool :=
  ((within 224 224 a && within 160 191 b) || (within 225 236 a && within 128 191 b)
   || (within 237 237 a && within 128 159 b) || (within 238 239 a && within 128 191 b)) && within 128 191 c.
Definition rune4 (a b c d : ascii) : bool :=
  ((within 240 240 a && within 144 191 b) || (within 241 243 a && within 128 191 b)
   || (within 244 244 a && within 128 143 b)) && within 128 191 c && within 128 191 d.

(** What [encodeString] writes for an ASCII character. *)
Definition hexDigit (n : N) : ascii := ascii_of_N (if decide (n < 10)%N then 48 + n else 87 + n).
Definition escChar (a : ascii) : string :=
  match a with
  | "034"%char => String "\" (String "034" EmptyString)
  | "\"%char => "\\"
  | "008"%char => "\b"
  | "012"%char => "\f"
  | "010"%char => "\n"
  | "013"%char => "\r"
  | "009"%char => "\t"
  | _ =>
      if decide (code a < 32) then
        ("\u00" ++ String (hexDigit (N_of_ascii a / 16)) (String (hexDigit (N_of_ascii a mod 16)) ""))%string
      else String a ""
  end.

Definition replacement : string := String "239" (String "191" (String "189" EmptyString)).

(** The loop of [encodeString] over the runes of a string. *)
Fixpoint escape (s : string) : string :=
  match s with
  | EmptyString => EmptyString
  | String a s1 =>
      if decide (code a < 128) then (escChar a ++ escape s1)%string
      else
        match s1 with
        | EmptyString => (replacement ++ escape s1)%string
        | String b s2 =>
            if rune2 a b then String a (String b (escape s2))
            else
              match s2 with
              | EmptyString => (replacement ++ escape s1)%string
              | String c s3 =>
                  if rune3 a b c then String a (String b (String c (escape s3)))
                  else
                    match s3 with
                    | EmptyString => (replacement ++ escape s1)%string
                    | String d s4 => if rune4 a b c d then String a (String b (String c (String d (escape s4)))) else (replacement ++ escape s1)%string
                    end
              end
        end
  end.

Definition encodeString (s : string) : string := String "034" (escape s ++ String "034" EmptyString)%string.

(** ** Values *)

(** [Int]: any of Go's integer types and [big.Int]; [Float]: with the text encoding/json
    writes for it; [Number]: [json.Number]; [Other]: a type
    the encoding does not know. *)
Inductive value :=
| Null | Bool (b : bool) | Int (n : Z) | Float (json : string) | Number (s : string) | Str (s : string) | Strs (l : list string)
| Arr (l : list value) | Obj (m : list (string * value)) | Other.

Definition maxInt : Z := 2 ^ 53.

(** [encodeInt]. *)
Definition encodeInt (n : Z) : option string := if decide (maxInt ≤ Z.abs n) then None else Some (FormatInt n).

(** [big.Int.SetString] in base ten. *)
Fixpoint bigDigits (n : Z) (s : string) : option Z :=
  match s with
  | EmptyString => Some n
  | String a s => match digit a with Some d => bigDigits (n * 10 + d) s | None => None end
  end.
Definition bigUint (s : string) : option Z := if decide (s = "") then None else bigDigits 0 s.
Definition SetString (s : string) : option Z :=
  match s with
  | String "-" s => Z.opp <$> bigUint s
  | String "+" s => bigUint s
  | _ => bigUint s
  end.

Fixpoint join (l : list string) : string :=
  match l with
  | [] => ""
  | [x] => x
  | x :: l => (x ++ "," ++ join l)%string
  end.

(** Every element has a result, or none. *)
Definition allOk {A B} (f : A → option B) : list A → option (list B) :=
  fix go l :=
    match l with
    | [] => Some []
    | x :: l => match f x, go l with Some y, Some k => Some (y :: k) | _, _ => None end
    end.

Definition keyLe {A} (x y : string * A) : Prop := strLe x.1 y.1.
#[export] Instance keyLe_dec {A} (x y : string * A) : Decision (keyLe x y).
Proof. unfold keyLe. apply _. Defined.

Definition member (x : string * string) : string := (encodeString x.1 ++ ":" ++ x.2)%string.
Definition brackets (s : string) : string := ("[" ++ s ++ "]")%string.
Definition braces (s : string) : string := ("{" ++ s ++ "}")%string.

(** [encode]. *)
Fixpoint encode (v : value) : option string :=
  match v with
  | Null => None
  | Bool b => Some (if b then "true" else "false")
  | Int n => encodeInt n
  | Float _ => None
  | Number s => n ← SetString s; encodeInt n
  | Str s => Some (encodeString s)
  | Strs l => Some (brackets (join (map encodeString l)))
  | Arr l => items ← allOk encode l; Some (brackets (join items))
  | Obj m =>
      members ← allOk (λ '(k, x), t ← encode x; Some (k, t)) m;
      Some (braces (join (map member (merge_sort keyLe members))))
  | Other => None
  end.
Definition Encode : value → option string := encode.

(** [SortedSet]: the elements by their encodings, each encoding once, the last element that
    has it. *)
Definition SortedSet (items : list value) : option (list value) :=
  texts ← allOk (λ v, t ← Encode v; Some (t, v)) items;
  let seen := foldl (λ m '(t, v), <[t := v]> m) (∅ : gmap string value) texts in
  Some (omap (λ t, seen !! t) (sortStrings (elements (dom seen)))).

(** ** Digests *)

Class Hashes := { sha256 : string → string; nfcText : string → string }.

Section digests.
Context `{Hashes}.

Definition Major : Z := 1.

(** [DigestBytes]: under the line "<record type>.v<major>". *)
Definition digestInput (recordType : string) (major : Z) (body : string) : string :=
  (recordType ++ ".v" ++ FormatInt major ++ String "010" body)%string.
Definition DigestBytes (recordType : string) (major : Z) (body : string) : string :=
  ("sha256:" ++ sha256 (digestInput recordType major body))%string.
Definition Digest (recordType : string) (major : Z) (v : value) : option string :=
  DigestBytes recordType major <$> Encode v.

(** [records.Seal]. *)
Definition Seal (recordType : string) (v : value) : option (string * string) :=
  raw ← Encode v; Some (raw, DigestBytes recordType Major raw).

End digests.
