(* ===== verification/CanonProps.v ===== *)
(** * One text for one value

    What an encoding of [Canon] means: [meaning] is the value with its numbers as integers
    and the members of its objects in key order.  Texts of equal meanings are equal, and,
    for texts in UTF-8, equal texts have equal meanings; a digest then binds the record
    type, its version and the meaning, or exhibits a collision of SHA-256. *)
From stdpp Require Import pretty.
From S2P Require Import Prelude GoStr Canon.
From Stdlib Require Import Ascii String.
Open Scope string_scope.
Open Scope Z_scope.
Open Scope list_scope.

(** ** Strings *)

(** [utf8.ValidString]. *)
Fixpoint validString (s : string) : bool :=
  match s with
  | EmptyString => true
  | String a s1 =>
      if decide (code a < 128) then validString s1
      else
        match s1 with
        | EmptyString => false
        | String b s2 =>
            if rune2 a b then validString s2
            else
              match s2 with
              | EmptyString => false
              | String c s3 =>
                  if rune3 a b c then validString s3
                  else match s3 with EmptyString => false | String d s4 => rune4 a b c d && validString s4 end
              end
        end
  end.

Fixpoint flat (s : string) : string := match s with EmptyString => "" | String a s => (escChar a ++ flat s)%string end.

Lemma escChar_high a : 128 ≤ code a → escChar a = String a "".
Proof. intros Ha. destruct a as [[] [] [] [] [] [] [] []]; try done; vm_compute in Ha; by destruct Ha. Qed.

Lemma within_high lo hi a : 128 ≤ lo → within lo hi a = true → 128 ≤ code a.
Proof. unfold within. rewrite bool_decide_eq_true. lia. Qed.

Lemma flat_high a s : 128 ≤ code a → flat (String a s) = String a (flat s).
Proof. intros Ha. cbn [flat]. by rewrite escChar_high. Qed.

Ltac runes := repeat match goal with
  | H : _ && _ = true |- _ => apply andb_true_iff in H as [? ?]
  | H : _ || _ = true |- _ => apply orb_true_iff in H as [?|?]
  end.

Lemma rune2_high a b : rune2 a b = true → 128 ≤ code a ∧ 128 ≤ code b.
Proof. unfold rune2. intros H. runes; split; (eapply within_high; [|eassumption]; lia). Qed.
Lemma rune3_high a b c : rune3 a b c = true → 128 ≤ code a ∧ 128 ≤ code b ∧ 128 ≤ code c.
Proof. unfold rune3. intros H. runes; split_and!; (eapply within_high; [|eassumption]; lia). Qed.
Lemma rune4_high a b c d : rune4 a b c d = true → 128 ≤ code a ∧ 128 ≤ code b ∧ 128 ≤ code c ∧ 128 ≤ code d.
Proof. unfold rune4. intros H. runes; split_and!; (eapply within_high; [|eassumption]; lia). Qed.

(** On valid text the loop over runes is a loop over bytes. *)
Lemma escape_flat s : validString s = true → escape s = flat s.
Proof.
  remember (String.length s) as n eqn:Hn. assert (String.length s ≤ n)%nat as Hle by lia. clear Hn. revert s Hle.
  induction n as [|n IH]; intros [|a s1] Hle; cbn [String.length] in Hle; try (lia || done).
  cbn [validString escape]. destruct (decide (code a < 128)) as [Ha|Ha]; [intros Hv; cbn [flat]; by rewrite IH by (done || lia)|].
  destruct s1 as [|b s2]; [done|]. cbn [String.length] in Hle. destruct (rune2 a b) eqn:H2.
  { intros Hv. apply rune2_high in H2 as [? ?]. rewrite !flat_high by done. by rewrite IH by (done || lia). }
  destruct s2 as [|c s3]; [done|]. cbn [String.length] in Hle. destruct (rune3 a b c) eqn:H3.
  { intros Hv. apply rune3_high in H3 as (? & ? & ?). rewrite !flat_high by done. by rewrite IH by (done || lia). }
  destruct s3 as [|d s4]; [done|]. cbn [String.length] in Hle. intros [H4 Hv]%andb_true_iff. rewrite H4.
  apply rune4_high in H4 as (? & ? & ? & ?). rewrite !flat_high by done. by rewrite IH by (done || lia).
Qed.

(** Reading back one character. *)
Definition unhex (a : ascii) : N := if decide (code a < 58) then N_of_ascii a - 48 else N_of_ascii a - 87.
Definition unesc (s : string) : option (ascii * string) :=
  match s with
  | EmptyString => None
  | String "\" (String c t) =>
      match c with
      | "b"%char => Some ("008"%char, t)
      | "f"%char => Some ("012"%char, t)
      | "n"%char => Some ("010"%char, t)
      | "r"%char => Some ("013"%char, t)
      | "t"%char => Some ("009"%char, t)
      | "u"%char =>
          match t with
          | String _ (String _ (String h (String l t))) => Some (ascii_of_N (unhex h * 16 + unhex l), t)
          | _ => None
          end
      | _ => Some (c, t)
      end
  | String "034" _ => None
  | String a t => Some (a, t)
  end.

Lemma unesc_escChar a t : unesc (escChar a ++ t) = Some (a, t).
Proof. destruct a as [[] [] [] [] [] [] [] []]; reflexivity. Qed.

Lemma append_assoc_str (a b c : string) : ((a ++ b) ++ c)%string = (a ++ b ++ c)%string.
Proof. induction a as [|x a IH]; [done|]. rewrite !append_cons. by rewrite IH. Qed.

Lemma flat_prefix s t x y :
  (flat s ++ String "034" x)%string = (flat t ++ String "034" y)%string → s = t ∧ x = y.
Proof.
  revert t. induction s as [|a s IH]; intros [|b t]; cbn [flat]; rewrite ?append_nil, ?append_assoc_str; intros He.
  - by injection He as ->.
  - apply (f_equal unesc) in He. by rewrite unesc_escChar in He.
  - apply (f_equal unesc) in He. by rewrite unesc_escChar in He.
  - apply (f_equal unesc) in He. rewrite !unesc_escChar in He. injection He as -> He. destruct (IH _ He) as [-> ->]. done.
Qed.

Lemma encodeString_prefix s t x y :
  validString s = true → validString t = true → (encodeString s ++ x)%string = (encodeString t ++ y)%string → s = t ∧ x = y.
Proof.
  intros Hs Ht. unfold encodeString. rewrite !escape_flat by done. rewrite !append_cons, !append_assoc_str. cbn [append].
  intros [= He]. by apply flat_prefix in He.
Qed.

(** ** Meanings *)

Inductive nf := NBool (b : bool) | NInt (n : Z) | NStr (s : string) | NArr (l : list nf) | NObj (m : list (string * nf)).

Section nested.
Context (P : nf → Prop) (Hb : ∀ b, P (NBool b)) (Hi : ∀ n, P (NInt n)) (Hs : ∀ s, P (NStr s))
  (Ha : ∀ l, Forall P l → P (NArr l)) (Ho : ∀ m, Forall (λ x, P x.2) m → P (NObj m)).
Fixpoint nf_nested (v : nf) : P v :=
  match v with
  | NBool b => Hb b
  | NInt n => Hi n
  | NStr s => Hs s
  | NArr l => Ha l ((fix go l := match l return Forall P l with [] => Forall_nil_2 _ | x :: l => Forall_cons_2 _ _ _ (nf_nested x) (go l) end) l)
  | NObj m => Ho m ((fix go m := match m return Forall (λ x, P x.2) m with
                                 | [] => Forall_nil_2 _ | (k, x) :: m => Forall_cons_2 _ (k, x) _ (nf_nested x) (go m) end) m)
  end.
End nested.

Section nestedValue.
Context (P : value → Prop) (Hn : ∀ v, match v with Arr _ => False | Obj _ => False | _ => True end → P v)
  (Ha : ∀ l, Forall P l → P (Arr l)) (Ho : ∀ m, Forall (λ x, P x.2) m → P (Obj m)).
Fixpoint value_nested (v : value) : P v :=
  match v with
  | Arr l => Ha l ((fix go l := match l return Forall P l with [] => Forall_nil_2 _ | x :: l => Forall_cons_2 _ _ _ (value_nested x) (go l) end) l)
  | Obj m => Ho m ((fix go m := match m return Forall (λ x, P x.2) m with
                                | [] => Forall_nil_2 _ | (k, x) :: m => Forall_cons_2 _ (k, x) _ (value_nested x) (go m) end) m)
  | Null => Hn Null I | Bool b => Hn (Bool b) I | Int n => Hn (Int n) I | Float t => Hn (Float t) I
  | Number s => Hn (Number s) I | Str s => Hn (Str s) I | Strs l => Hn (Strs l) I | Other => Hn Other I
  end.
End nestedValue.

Definition meaningInt (n : Z) : option nf := if decide (maxInt ≤ Z.abs n) then None else Some (NInt n).
Fixpoint meaning (v : value) : option nf :=
  match v with
  | Null | Float _ | Other => None
  | Bool b => Some (NBool b)
  | Int n => meaningInt n
  | Number s => n ← SetString s; meaningInt n
  | Str s => Some (NStr s)
  | Strs l => Some (NArr (map NStr l))
  | Arr l => items ← allOk meaning l; Some (NArr items)
  | Obj m => members ← allOk (λ '(k, x), t ← meaning x; Some (k, t)) m; Some (NObj (merge_sort keyLe members))
  end.

Fixpoint print (v : nf) : string :=
  match v with
  | NBool b => if b then "true" else "false"
  | NInt n => FormatInt n
  | NStr s => encodeString s
  | NArr l => brackets (join (map print l))
  | NObj m => braces (join (map (λ '(k, x), member (k, print x)) m))
  end.

Lemma allOk_fmap {A B D} (f : A → option D) (g : B → D) (h : A → option B) l :
  Forall (λ x, f x = g <$> h x) l → allOk f l = map g <$> allOk h l.
Proof.
  induction 1 as [|x l Hx _ IH]; [done|]. cbn. rewrite Hx, IH. by destruct (h x), (allOk h l).
Qed.

(** Sorting by a key and changing what goes with it commute. *)
Section sortMap.
Context {A B : Type} (g : A → B) (R : relation A) (R' : relation B) `{∀ x y, Decision (R x y)} `{∀ x y, Decision (R' x y)}
  (HR : ∀ x y, R' (g x) (g y) ↔ R x y).
Lemma list_merge_map l1 l2 : list_merge R' (map g l1) (map g l2) = map g (list_merge R l1 l2).
Proof.
  revert l2. induction l1 as [|x l1 IH1]; [by intros []|]. intros l2. induction l2 as [|y l2 IH2]; [done|]. cbn.
  destruct (decide (R' (g x) (g y))) as [Hd|Hd], (decide (R x y)) as [Hd'|Hd']; [|by destruct Hd'; apply HR|by destruct Hd; apply HR|]; cbn; f_equal; [|done].
  apply (IH1 (y :: l2)).
Qed.
Lemma merge_list_to_stack_map st l :
  merge_list_to_stack R' (map (fmap (map g)) st) (map g l) = map (fmap (map g)) (merge_list_to_stack R st l).
Proof. revert l. induction st as [|[l'|] st IH]; intros l; cbn; [done| |done]. rewrite list_merge_map. by rewrite IH. Qed.
Lemma merge_stack_map st : merge_stack R' (map (fmap (map g)) st) = map g (merge_stack R st).
Proof. induction st as [|[l|] st IH]; cbn; [done| |done]. rewrite IH. apply list_merge_map. Qed.
Lemma merge_sort_map l : merge_sort R' (map g l) = map g (merge_sort R l).
Proof.
  unfold merge_sort. change (@nil (option (list B))) with (map (fmap (map g)) (@nil (option (list A)))).
  generalize (@nil (option (list A))) as st. induction l as [|x l IH]; intros st; cbn; [apply merge_stack_map|].
  change [g x] with (map g [x]). by rewrite merge_list_to_stack_map, IH.
Qed.
End sortMap.

(** An encoding is the text of the meaning. *)
Lemma encode_print v : encode v = print <$> meaning v.
Proof.
  induction v as [v Hv|l IH|m IH] using value_nested.
  - destruct v; cbn; try done.
    + unfold encodeInt, meaningInt. by case_decide.
    + destruct (SetString s); cbn; [|done]. unfold encodeInt, meaningInt. by case_decide.
    + by rewrite map_map.
  - cbn. rewrite (allOk_fmap encode print meaning) by done. by destruct (allOk meaning l).
  - cbn. rewrite (allOk_fmap _ (λ '(k, x), (k, print x)) (λ '(k, x), t ← meaning x; Some (k, t))).
    + destruct (allOk _ m) as [l|]; cbn; [|done]. rewrite (merge_sort_map _ keyLe keyLe) by (by intros [] []).
      rewrite map_map. do 3 f_equal. apply map_ext. by intros [].
    + eapply Forall_impl; [exact IH|]. intros [k x] Hx. cbn in *. rewrite Hx. by destruct (meaning x).
Qed.

(** ** Texts are unambiguous *)

Definition numChar (a : ascii) : bool := bool_decide (a = "-"%char) || match digit a with Some _ => true | None => false end.
Definition follow (x : string) : Prop := match x with EmptyString => True | String a _ => numChar a = false end.

Lemma word_prefix (f : ascii → bool) u v x y :
  allChars f u = true → allChars f v = true → match x with String a _ => f a = false | _ => True end →
  match y with String a _ => f a = false | _ => True end → (u ++ x)%string = (v ++ y)%string → u = v ∧ x = y.
Proof.
  intros Hu Hv Hx Hy. revert v Hu Hv. induction u as [|a u IH]; intros [|b v]; cbn [allChars]; rewrite ?append_nil, ?append_cons.
  - done.
  - intros _ [Hb _]%andb_true_iff ->. congruence.
  - intros [Ha _]%andb_true_iff _ <-. congruence.
  - intros [_ Hu]%andb_true_iff [_ Hv]%andb_true_iff [= -> He]. by destruct (IH v Hu Hv He) as [-> ->].
Qed.

Lemma FormatInt_chars n : allChars numChar (FormatInt n) = true.
Proof.
  assert (∀ x : N, allChars numChar (pretty x) = true) as Hp.
  { intros x. apply pretty_allChars. intros d Hd.
    assert (d = 0 ∨ d = 1 ∨ d = 2 ∨ d = 3 ∨ d = 4 ∨ d = 5 ∨ d = 6 ∨ d = 7 ∨ d = 8 ∨ d = 9)%N as Hcases by lia.
    by repeat destruct Hcases as [->|Hcases]; [..|subst d]. }
  unfold FormatInt. case_decide; [|apply Hp]. cbn. by rewrite Hp.
Qed.

Lemma FormatInt_first n : ∃ a s, FormatInt n = String a s ∧ numChar a = true.
Proof.
  pose proof (FormatInt_chars n) as Hc. destruct (FormatInt n) as [|a s] eqn:Hf.
  - unfold FormatInt in Hf. case_decide; [done|]. destruct (pretty_digit (Z.to_N n)) as (a & s & Hp & _). congruence.
  - cbn in Hc. apply andb_true_iff in Hc as [? _]. eauto.
Qed.

Lemma FormatInt_prefix n m x y :
  Z.abs n < maxInt → Z.abs m < maxInt → follow x → follow y → (FormatInt n ++ x)%string = (FormatInt m ++ y)%string → n = m ∧ x = y.
Proof.
  intros Hn Hm Hx Hy He. destruct (word_prefix numChar _ _ x y (FormatInt_chars n) (FormatInt_chars m) Hx Hy He) as [He' ->].
  split; [|done]. unfold maxInt in *. pose proof (ParseInt_FormatInt n ltac:(unfold int64_min, int64_max; lia)) as H1.
  pose proof (ParseInt_FormatInt m ltac:(unfold int64_min, int64_max; lia)) as H2. congruence.
Qed.

(** Lists of items between a separator and a closing character. *)
Fixpoint rests (l : list string) : string := match l with [] => "" | x :: l => ("," ++ x ++ rests l)%string end.
Lemma append_nil_r s : (s ++ "")%string = s.
Proof. induction s as [|a s IH]; [done|]. by rewrite append_cons, IH. Qed.
Lemma join_rests x l : join (x :: l) = (x ++ rests l)%string.
Proof.
  revert x. induction l as [|y l IH]; intros x; [cbn; symmetry; apply append_nil_r|]. change (join (x :: y :: l)) with (x ++ "," ++ join (y :: l))%string.
  by rewrite IH.
Qed.

Section items.
Context {A : Type} (p : A → string) (ok : A → Prop) (close : ascii).
Context (Hclose : numChar close = false) (Hcomma : close ≠ ","%char) (Hfirst : ∀ a x, ok a → match (p a ++ x)%string with String c _ => c ≠ close | _ => False end).
Definition prefixOk (a : A) : Prop :=
  ∀ b x y, ok a → ok b → follow x → follow y → (p a ++ x)%string = (p b ++ y)%string → a = b ∧ x = y.

Lemma rests_follow l x : follow (rests l ++ String close x)%string.
Proof. by destruct l. Qed.

Lemma rests_prefix l l' x y :
  Forall prefixOk l → Forall ok l → Forall ok l' →
  (rests (map p l) ++ String close x)%string = (rests (map p l') ++ String close y)%string → l = l' ∧ x = y.
Proof.
  intros Hp Hl. revert l'. induction l as [|a l IH]; intros [|b l']; cbn [map rests]; intros Hl'; rewrite ?append_nil, ?append_cons, ?append_assoc_str.
  - by intros [= ->].
  - intros [= He _]. done.
  - intros [= He _]. by destruct Hcomma.
  - rewrite Forall_cons in Hp, Hl, Hl'. destruct Hp as [Hpa Hp], Hl as [Ha Hl], Hl' as [Hb Hl']. cbn [append]. intros [= He].
    rewrite ?append_nil, ?append_assoc_str in He. apply Hpa in He as [-> He]; [|done|done|apply rests_follow..]. destruct (IH Hp Hl l' Hl' He) as [-> ->]. done.
Qed.

Lemma items_prefix l l' x y :
  Forall prefixOk l → Forall ok l → Forall ok l' →
  (join (map p l) ++ String close x)%string = (join (map p l') ++ String close y)%string → l = l' ∧ x = y.
Proof.
  destruct l as [|a l], l' as [|b l']; cbn [map]; rewrite ?join_rests.
  - by intros _ _ _ [= ->].
  - intros _ _ [Hb _]%Forall_cons. rewrite append_assoc_str. intros He. specialize (Hfirst b (rests (map p l') ++ String close y)%string Hb).
    rewrite <- He in Hfirst. by cbn in Hfirst.
  - intros _ [Ha _]%Forall_cons _. rewrite append_assoc_str. intros He. specialize (Hfirst a (rests (map p l) ++ String close x)%string Ha).
    rewrite He in Hfirst. by cbn in Hfirst.
  - intros [Hpa Hp]%Forall_cons [Ha Hl]%Forall_cons [Hb Hl']%Forall_cons. rewrite !append_assoc_str. intros He.
    apply Hpa in He as [-> He]; [|done|done|apply rests_follow..]. by destruct (rests_prefix l l' x y Hp Hl Hl' He) as [-> ->].
Qed.
End items.

Fixpoint nfOk (v : nf) : bool :=
  match v with
  | NBool _ => true
  | NInt n => bool_decide (Z.abs n < maxInt)
  | NStr s => validString s
  | NArr l => forallb nfOk l
  | NObj m => forallb (λ '(k, x), validString k && nfOk x) m
  end.

(** What a text begins with says what it is. *)
Definition begins (v : nf) (a : ascii) : bool :=
  match v with
  | NBool b => bool_decide (a = if b then "t" else "f")%char
  | NInt _ => numChar a
  | NStr _ => bool_decide (a = "034"%char)
  | NArr _ => bool_decide (a = "["%char)
  | NObj _ => bool_decide (a = "{"%char)
  end.
Lemma print_first v x : ∃ a r, (print v ++ x)%string = String a r ∧ begins v a = true.
Proof.
  destruct v as [[]|n|s|l|m]; try by eexists _, _. cbn [print]. destruct (FormatInt_first n) as (a & s & -> & Ha). rewrite append_cons. by eexists _, _.
Qed.

(** Two texts with a first character in common are of values of one kind. *)
Lemma same_kind v w x y :
  (print v ++ x)%string = (print w ++ y)%string →
  match v, w with
  | NBool b, NBool b' => b = b' | NInt _, NInt _ | NStr _, NStr _ | NArr _, NArr _ | NObj _, NObj _ => True | _, _ => False
  end.
Proof.
  destruct (print_first v x) as (a & r & -> & Ha), (print_first w y) as (b & r' & -> & Hb). intros [= <- _].
  destruct v as [[]| | | |], w as [[]| | | |]; try done; cbn in Ha, Hb; repeat match goal with
    | H : bool_decide _ = true |- _ => apply bool_decide_eq_true in H; subst
    end; done.
Qed.

Definition printMember (x : string * nf) : string := member (x.1, print x.2).
Lemma print_obj m : print (NObj m) = braces (join (map printMember m)).
Proof. cbn [print]. do 2 f_equal. apply map_ext. by intros []. Qed.

Lemma forallb_all {A} (f : A → bool) l : forallb f l = true → Forall (λ x, f x = true) l.
Proof. intros Hl. apply Forall_forall. intros x Hx. eapply forallb_forall in Hl; [done|]. by apply list_elem_of_In. Qed.

Lemma first_not_close close v z :
  close = "]"%char ∨ close = "}"%char → match (print v ++ z)%string with String c _ => c ≠ close | _ => False end.
Proof.
  intros Hc. destruct (print_first v z) as (a & r & -> & Ha). intros ->.
  destruct v as [[]| | | |], Hc; subst; done.
Qed.

Lemma print_prefix v : prefixOk print (λ v, nfOk v = true) v.
Proof.
  induction v as [b|n|s|l IH|m IH] using nf_nested; intros w x y Hv Hw Hx Hy He; pose proof (same_kind _ _ _ _ He) as Hk;
    destruct w as [b'|n'|s'|l'|m']; try done.
  - subst b'. split; [done|]. destruct b; by simplify_eq/=.
  - cbn [print nfOk] in *. apply bool_decide_eq_true in Hv, Hw. by destruct (FormatInt_prefix n n' x y Hv Hw Hx Hy He) as [-> ->].
  - cbn [print nfOk] in *. by destruct (encodeString_prefix s s' x y Hv Hw He) as [-> ->].
  - cbn [print nfOk] in *. unfold brackets in He. cbn [append] in He. injection He as He. rewrite !append_nil, !append_assoc_str in He. cbn [append] in He.
    apply (items_prefix print (λ v, nfOk v = true) "]") in He as [-> ->]; try done; [|by apply forallb_all..].
    intros v z _. apply first_not_close. by left.
  - rewrite !print_obj in He. cbn [nfOk] in *. unfold braces in He. cbn [append] in He. injection He as He.
    rewrite !append_nil, !append_assoc_str in He. cbn [append] in He.
    apply (items_prefix printMember (λ x, validString x.1 = true ∧ nfOk x.2 = true) "}") in He as [-> ->]; try done.
    + eapply Forall_impl; [exact IH|]. intros [k v] Hp [k' v'] x' y' [Hk1 Hk2] [Hk1' Hk2'] Hx' Hy'. unfold printMember, member. cbn [fst snd] in *.
      rewrite !append_assoc_str. intros He'. apply encodeString_prefix in He' as [-> He']; [|done..]. cbn [append] in He'. injection He' as He'.
      rewrite !append_nil in He'. by destruct (Hp v' x' y' Hk2 Hk2' Hx' Hy' He') as [-> ->].
    + eapply Forall_impl; [apply forallb_all, Hv|]. intros [k v]. apply andb_true_iff.
    + eapply Forall_impl; [apply forallb_all, Hw|]. intros [k v]. apply andb_true_iff.
Qed.

(** ** Values with one text *)

(** Every text of the value is in UTF-8. *)
Fixpoint textOk (v : value) : bool :=
  match v with
  | Str s => validString s
  | Strs l => forallb validString l
  | Arr l => forallb textOk l
  | Obj m => forallb (λ '(k, x), validString k && textOk x) m
  | _ => true
  end.

Lemma allOk_cons {A B} (f : A → option B) x l k :
  allOk f (x :: l) = Some k → ∃ y k', f x = Some y ∧ allOk f l = Some k' ∧ k = y :: k'.
Proof.
  change (allOk f (x :: l)) with (match f x, allOk f l with Some y, Some k => Some (y :: k) | _, _ => None end).
  destruct (f x), (allOk f l); intros [= <-]; eauto.
Qed.

Lemma allOk_Forall2 {A B} (f : A → option B) l k : allOk f l = Some k → Forall2 (λ x y, f x = Some y) l k.
Proof.
  revert k. induction l as [|x l IH]; intros k; [by intros [= <-]|]. intros (y & k' & Hy & Hk & ->)%allOk_cons. constructor; auto.
Qed.

Lemma Forall2_in_r {A B} (R : A → B → Prop) l k y : Forall2 R l k → y ∈ k → ∃ x, x ∈ l ∧ R x y.
Proof.
  induction 1 as [|x y' l k Hxy _ IH]; [by intros ?%elem_of_nil|]. rewrite elem_of_cons. intros [->|Hy]; [exists x; by split; [left|]|].
  destruct (IH Hy) as (x' & ? & ?). exists x'. by split; [right|].
Qed.

Lemma meaningInt_ok z n : meaningInt z = Some n → nfOk n = true.
Proof. unfold meaningInt. case_decide; [done|]. intros [= <-]. cbn. apply bool_decide_eq_true. lia. Qed.

Lemma forallb_perm {A} (f : A → bool) l l' : l ≡ₚ l' → forallb f l = true → forallb f l' = true.
Proof. intros Hp. rewrite !forallb_forall. intros Hl x Hx. apply Hl. by rewrite Hp. Qed.

Lemma meaning_ok v n : textOk v = true → meaning v = Some n → nfOk n = true.
Proof.
  revert n. induction v as [v Hv|l IH|m IH] using value_nested; intros n.
  - destruct v; cbn; try done; try (intros Ht [= <-]; done).
    + intros _. apply meaningInt_ok.
    + intros _. destruct (SetString s); [apply meaningInt_ok|done].
    + intros Hl [= <-]. cbn. apply forallb_forall. intros x (s & <- & Hs)%in_map_iff. by eapply forallb_forall in Hl.
  - cbn. intros Hl. destruct (allOk meaning l) as [k|] eqn:Hk; [|done]. intros [= <-]. cbn. apply allOk_Forall2 in Hk.
    apply forallb_all in Hl. apply forallb_forall. intros y Hy%list_elem_of_In.
    destruct (Forall2_in_r _ _ _ _ Hk Hy) as (x & Hx & Hxy). rewrite Forall_forall in IH, Hl. eapply IH; eauto.
  - cbn. intros Hm. destruct (allOk _ m) as [k|] eqn:Hk; [|done]. intros [= <-]. cbn. apply allOk_Forall2 in Hk.
    eapply forallb_perm; [symmetry; apply merge_sort_Permutation|]. apply forallb_all in Hm. apply forallb_forall. intros [k0 y] Hy%list_elem_of_In.
    destruct (Forall2_in_r _ _ _ _ Hk Hy) as ([k1 x] & Hx & Hxy). destruct (meaning x) as [t|] eqn:Ht; [|done]. injection Hxy as -> ->.
    rewrite Forall_forall in IH, Hm. specialize (Hm _ Hx). cbn in Hm. apply andb_true_iff in Hm as [-> Hm]. cbn. by apply (IH _ Hx).
Qed.

Lemma encoding_equal v w t : textOk v = true → textOk w = true → Encode v = Some t → Encode w = Some t → meaning w = meaning v.
Proof.
  unfold Encode. rewrite !encode_print. intros Hv Hw (n & Hn & Ht)%fmap_Some (n' & Hn' & Ht')%fmap_Some. rewrite Hn, Hn'. f_equal. symmetry.
  eapply (print_prefix n n' "" ""); [exact (meaning_ok _ _ Hv Hn)|exact (meaning_ok _ _ Hw Hn')|done|done|]. congruence.
Qed.

(** The canonical encoding is unambiguous.  For values whose texts are in UTF-8, a value
    has the same encoding as another exactly when both mean the same: the same kind, the
    same boolean, integer or text, the same elements in order, the same members under the
    same keys. *)
Theorem encoding_unambiguous v w t :
  textOk v = true → textOk w = true → Encode v = Some t → (Encode w = Some t ↔ meaning w = meaning v).
Proof.
  intros Hv Hw Ht. split; [by apply encoding_equal|]. unfold Encode in *. rewrite encode_print in *. by intros ->.
Qed.

(** Values that differ only in the order a loop over their maps takes. *)
Inductive reordered : value → value → Prop :=
| re_same v : reordered v v
| re_arr l l' : Forall2 reordered l l' → reordered (Arr l) (Arr l')
| re_obj m m1 m' : NoDup (map fst m) → Forall2 (λ x y, x.1 = y.1 ∧ reordered x.2 y.2) m m1 → m1 ≡ₚ m' → reordered (Obj m) (Obj m').

Lemma allOk_perm {A B} (f : A → option B) l l' k : l ≡ₚ l' → allOk f l = Some k → ∃ k', allOk f l' = Some k' ∧ k ≡ₚ k'.
Proof.
  intros Hp. revert k. induction Hp as [|x l l' _ IH|x y l|l1 l2 l3 _ IH1 _ IH2]; intros k Hk.
  - eauto.
  - apply allOk_cons in Hk as (y & k1 & Hy & Hk1 & ->). destruct (IH _ Hk1) as (k' & Hk' & Hp'). exists (y :: k').
    split; [cbn; rewrite Hy; fold (allOk f); by rewrite Hk'|by constructor].
  - apply allOk_cons in Hk as (a & k1 & Ha & Hk1 & ->). apply allOk_cons in Hk1 as (b & k2 & Hb & Hk2 & ->). exists (b :: a :: k2).
    split; [cbn; rewrite Ha, Hb; fold (allOk f); by rewrite Hk2|constructor].
  - destruct (IH1 _ Hk) as (k' & Hk' & Hp1). destruct (IH2 _ Hk') as (k'' & Hk'' & Hp2). exists k''. split; [done|]. by etrans.
Qed.

Lemma keyLe_trans' {A} : Transitive (@keyLe A).
Proof. intros x y z. unfold keyLe. apply strLe_trans. Qed.
Lemma keyLe_total' {A} : Total (@keyLe A).
Proof. intros x y. unfold keyLe. apply strLe_total. Qed.

(** Members with keys of their own are sorted in one way. *)
Lemma sort_unique {A} (k k' : list (string * A)) : NoDup (map fst k) → k ≡ₚ k' → merge_sort keyLe k = merge_sort keyLe k'.
Proof.
  intros Hnd Hp. pose proof (@keyLe_trans' A) as Ht. pose proof (@keyLe_total' A) as Htot.
  apply (Sorted_unique_strong keyLe); [|apply Sorted_merge_sort, _..|by rewrite !merge_sort_Permutation].
  intros [a x] [b y]. rewrite !merge_sort_Permutation, <- Hp. intros Hx Hy H1 H2. unfold keyLe in H1, H2. cbn in H1, H2.
  assert (a = b) as <- by (by apply (anti_symm strLe)). f_equal. clear -Hnd Hx Hy.
  apply list_elem_of_lookup in Hx as [i Hi], Hy as [j Hj].
  assert (i = j) as <-; [|congruence]. eapply NoDup_lookup; [exact Hnd| |]; rewrite list_lookup_fmap; [by rewrite Hi|by rewrite Hj].
Qed.

Lemma meaning_reordered v w : reordered v w → meaning v = meaning w.
Proof.
  revert w. induction v as [v Hv|l IH|m IH] using value_nested; intros w Hr; inversion Hr as [|l0 l' Hl|m0 m1 m' Hnd Hm Hp]; subst; try done.
  - assert (allOk meaning l = allOk meaning l') as He; [|cbn; by rewrite He]. clear Hr.
    induction Hl as [|x y l l' Hxy _ IHl]; [done|]. apply Forall_cons in IH as [Hx IH].
    change (match meaning x, allOk meaning l with Some a, Some k => Some (a :: k) | _, _ => None end =
            match meaning y, allOk meaning l' with Some a, Some k => Some (a :: k) | _, _ => None end). by rewrite (Hx _ Hxy), (IHl IH).
  - cbn. set (f := λ '(k, x), t ← meaning x; Some (k, t)).
    assert (map fst m = map fst m1 ∧ allOk f m = allOk f m1) as [Hk Hf].
    { clear Hr Hp Hnd. induction Hm as [|[k x] [k' y] m m1 [Hk Hxy] _ IHm]; [done|]. apply Forall_cons in IH as [Hx IH]. cbn in Hk, Hxy, Hx. subst k'.
      destruct (IHm IH) as [Hm1 He]. split; [cbn; by rewrite Hm1|].
      change (match f (k, x), allOk f m with Some a, Some k => Some (a :: k) | _, _ => None end =
              match f (k, y), allOk f m1 with Some a, Some k => Some (a :: k) | _, _ => None end). rewrite He. cbn. by rewrite (Hx _ Hxy). }
    rewrite Hf. rewrite Hk in Hnd. destruct (allOk f m1) as [k|] eqn:Hk1.
    + destruct (allOk_perm f _ _ _ Hp Hk1) as (k' & -> & Hp'). cbn. do 2 f_equal.
      assert (map fst k = map fst m1) as Hkeys.
      { apply allOk_Forall2 in Hk1. clear -Hk1. induction Hk1 as [|[a x] [b y] m k Hxy _ IHk]; [done|]. cbn in *. destruct (meaning x); [|done].
        injection Hxy as -> ->. by rewrite IHk. }
      apply sort_unique; [by rewrite Hkeys|done].
    + destruct (allOk f m') as [k'|] eqn:Hk'; [|done]. symmetry in Hp. destruct (allOk_perm f _ _ _ Hp Hk') as (? & ? & _). congruence.
Qed.

(** The order a loop over a map takes does not show in the text. *)
Theorem order_irrelevant v w : reordered v w → Encode v = Encode w.
Proof. intros Hr. unfold Encode. by rewrite !encode_print, (meaning_reordered v w Hr). Qed.

(** ** Digests bind *)

Lemma digestInput_inj t t' m m' b b' :
  allChars (notChar "010") t = true → allChars (notChar "010") t' = true → 0 ≤ m ≤ int64_max → 0 ≤ m' ≤ int64_max →
  digestInput t m b = digestInput t' m' b' → t = t' ∧ m = m' ∧ b = b'.
Proof.
  intros Ht Ht' Hm Hm'. unfold digestInput.
  assert (Hline : ∀ t m, allChars (notChar "010") t = true → allChars (notChar "010") (t ++ ".v" ++ FormatInt m)%string = true).
  { intros u n Hu. induction u as [|a u IH]; [cbn; by apply FormatInt_notChar|]. rewrite append_cons. cbn [allChars] in Hu |- *. apply andb_true_iff in Hu as [-> Hu]. by apply IH. }
  replace (t ++ ".v" ++ FormatInt m ++ String "010" b)%string with ((t ++ ".v" ++ FormatInt m) ++ String "010" b)%string by (by rewrite !append_assoc_str).
  replace (t' ++ ".v" ++ FormatInt m' ++ String "010" b')%string with ((t' ++ ".v" ++ FormatInt m') ++ String "010" b')%string by (by rewrite !append_assoc_str).
  intros He. apply (f_equal (cut "010")) in He. rewrite !cut_app in He by (by apply Hline). injection He as He ->.
  apply (f_equal (GoStr.split ".")) in He. change (".v" ++ FormatInt m)%string with (String "." ("v" ++ FormatInt m)) in He.
  change (".v" ++ FormatInt m')%string with (String "." ("v" ++ FormatInt m')) in He. rewrite !split_app in He.
  rewrite (split_word "." ("v" ++ FormatInt m)), (split_word "." ("v" ++ FormatInt m')) in He by (cbn; by apply FormatInt_notChar).
  apply app_inj_tail in He as [He1 He2]. apply split_inj in He1 as ->. cbn [append] in He2. injection He2 as He2. rewrite !append_nil in He2.
  pose proof (ParseInt_FormatInt m ltac:(unfold int64_min, int64_max in *; lia)) as H1.
  pose proof (ParseInt_FormatInt m' ltac:(unfold int64_min, int64_max in *; lia)) as H2. split; [done|]. split; [congruence|done].
Qed.

Lemma digest_equal `{Hashes} t t' m m' v v' d :
  allChars (notChar "010") t = true → allChars (notChar "010") t' = true → 0 ≤ m ≤ int64_max → 0 ≤ m' ≤ int64_max →
  textOk v = true → textOk v' = true → Digest t m v = Some d → Digest t' m' v' = Some d →
  (t = t' ∧ m = m' ∧ meaning v = meaning v') ∨ ∃ a b, a ≠ b ∧ sha256 a = sha256 b.
Proof.
  intros Ht Ht' Hm Hm' Hv Hv' (b & Hb & ->)%fmap_Some (b' & Hb' & He)%fmap_Some. unfold DigestBytes in He.
  cbn [append] in He. injection He as He. rewrite !append_nil in He.
  destruct (decide (digestInput t m b = digestInput t' m' b')) as [Heq|Hne]; [|right; eauto]. left.
  destruct (digestInput_inj _ _ _ _ _ _ Ht Ht' Hm Hm' Heq) as (-> & -> & ->). split; [done|]. split; [done|].
  symmetry. by apply (encoding_equal v v' b').
Qed.

(** C13. A digest binds what it is taken of.  Two records with the same digest have the same
    record type, the same major version and the same meaning, unless two different texts
    with the same SHA-256 are at hand. *)
Theorem digest_binds `{Hashes} t t' m m' v v' d :
  allChars (notChar "010") t = true → allChars (notChar "010") t' = true → 0 ≤ m ≤ int64_max → 0 ≤ m' ≤ int64_max →
  textOk v = true → textOk v' = true → Digest t m v = Some d → Digest t' m' v' = Some d →
  (t = t' ∧ m = m' ∧ meaning v = meaning v') ∨ ∃ a b, a ≠ b ∧ sha256 a = sha256 b.
Proof. apply digest_equal. Qed.

(** ** Records to see it on *)

#[export] Instance plainHashes : Hashes := {| sha256 s := s; nfcText s := s |}.
Definition stockAudit : value :=
  Obj [("id", Str "a1"); ("count", Number "12"); ("ok", Bool true); ("who", Strs ["ann"; "bob"]); ("at", Obj [("z", Int (-3)); ("a", Str "x\y")])].

Lemma encoding_unambiguous_witness :
  Encode (Obj [("b", Number "12"); ("a", Strs ["x"])]) = Some (String "{" (String "034" (String "a" (String "034" (":[" ++ String "034" (String "x" (String "034" ("]," ++ String "034" (String "b" (String "034" ":12}"))))))))))%string ∧
  (Encode (Obj [("a", Arr [Str "x"]); ("b", Int 12)]) = Encode (Obj [("b", Number "12"); ("a", Strs ["x"])]) ↔
   meaning (Obj [("a", Arr [Str "x"]); ("b", Int 12)]) = meaning (Obj [("b", Number "12"); ("a", Strs ["x"])])).
Proof.
  split; [by vm_compute|].
  apply (encoding_unambiguous (Obj [("b", Number "12"); ("a", Strs ["x"])]) (Obj [("a", Arr [Str "x"]); ("b", Int 12)])); by vm_compute.
Defined.

Lemma digest_binds_witness :
  (("be.audit.record" = "be.audit.record" ∧ 1 = 1 ∧ meaning stockAudit = meaning stockAudit) ∨ ∃ a b, a ≠ b ∧ sha256 a = sha256 b).
Proof.
  apply (digest_binds "be.audit.record" "be.audit.record" 1 1 stockAudit stockAudit (default "" (Digest "be.audit.record" 1 stockAudit)));
    by vm_compute.
Defined.
