(* ===== verification/Idem.v ===== *)
(** * Idempotency keys

    idem/idem.go ([Request.Fingerprint], [ValidKey], [Do], [stored]) and idem/cleanup.go
    ([Cleanup]) over the table be_idempotency, and the system they make: commands under
    any keys, repeated, failing, meeting one another, cleanups and time.

    The insert of [Do] waits for another transaction that holds the key, or gives up with
    55P03 ([locked]); so transactions on one key follow one another, and a [Do] is a step.
    The text a jsonb column gives back is a parameter. *)
From S2P Require Import Prelude GoStr Canon CanonProps.
From Stdlib Require Import Ascii String.
Open Scope string_scope.
Open Scope Z_scope.
Open Scope list_scope.

Definition Retention : Z := 24 * 3600 * Second.

Record Request := MkRequest { rq_Principal : string; rq_Key : string; rq_Operation : string; rq_Target : string; rq_Body : string }.

(** [ValidKey]: 1-255 visible ASCII characters. *)
Definition ValidKey (k : string) : bool :=
  let n := String.length k in
  bool_decide (1 ≤ n ∧ n ≤ 255)%nat && allChars (within 33 126) k.

Record Outcome := MkOutcome { oc_Status : Z; oc_Result : option string }.

(** be_idempotency, by principal and key. *)
Record irow := MkIRow {
  i_fingerprint : string; i_operation : string; i_status : Z; i_result : option string; i_created : Z; i_expires : Z }.
Notation table := (gmap (string * string) irow) (only parsing).

Record istore (B : Type) := MkIStore { keys : table; biz : B }.
Arguments MkIStore {B} keys biz.
Arguments keys {B} i.
Arguments biz {B} i.

(** [FnFailed]: the command's own error. *)
Inductive ierr := InProgress | BeingRemoved | KeyReused | FnFailed | BadResult | NotFingerprinted.

Section idem.
Context `{Hashes} {B : Type} (jsonb : string → option string).

Definition rowKey (r : Request) : string * string := (rq_Principal r, rq_Key r).

(** [Request.Fingerprint]. *)
Definition identity (r : Request) : value :=
  Obj [("principal", Str (nfcText (rq_Principal r))); ("operation", Str (nfcText (rq_Operation r)));
       ("target", Str (nfcText (rq_Target r))); ("body_sha256", Str (sha256 (rq_Body r)))].
Definition Fingerprint (r : Request) : option string := Digest "be.idempotency.request" 1 (identity r).

(** [stored]. *)
Definition stored (t : table) (r : Request) (fp : string) : res ierr Outcome :=
  match t !! rowKey r with
  | None => Err BeingRemoved
  | Some row => if decide (i_fingerprint row = fp) then Ok (MkOutcome (i_status row) (i_result row)) else Err KeyReused
  end.

(** The row the claim leaves, and the row with the outcome. *)
Definition claimRow_ (r : Request) (fp : string) (now : Z) : irow := MkIRow fp (rq_Operation r) 0 None now (now + Retention).
Definition normal (o : Outcome) : Outcome := MkOutcome (if decide (oc_Status o = 0) then 200 else oc_Status o) (oc_Result o).
Definition storedResult (o : Outcome) : option (option string) :=
  match oc_Result o with None => Some None | Some t => Some <$> jsonb t end.
Definition withOutcome (o : Outcome) (res : option string) (row : irow) : irow :=
  MkIRow (i_fingerprint row) (i_operation row) (oc_Status o) res (i_created row) (i_expires row).

(** [Do]: the answer with whether it is a replay, and the store; [fn] is the command,
    [other] what other transactions do to the table between the claim and the read, [now]
    the time the transaction began. *)
Definition Do (r : Request) (fn : B → res unit (Outcome * B)) (locked : bool) (other : table → table) (now : Z) (s : istore B)
  : res ierr (Outcome * bool) * istore B :=
  match Fingerprint r with
  | None => (Err NotFingerprinted, s)
  | Some fp =>
      if locked then (Err InProgress, s)
      else
        let claimed := match keys s !! rowKey r with Some row => bool_decide (i_expires row ≤ now) | None => true end in
        if negb claimed then
          let t := other (keys s) in
          (match stored t r fp with Ok o => Ok (o, true) | Err e => Err e end, MkIStore t (biz s))
        else
          match fn (biz s) with
          | Err _ => (Err FnFailed, s)
          | Ok (o, b) =>
              let o := normal o in
              match storedResult o with
              | None => (Err BadResult, s)
              | Some result =>
                  (Ok (o, false),
                   MkIStore (<[rowKey r := withOutcome o result (claimRow_ r fp now)]> (keys s)) b)
              end
          end
  end.

(** [Cleanup], deleting the expired rows among [ks]. *)
Definition Cleanup (ks : list (string * string)) (now : Z) (t : table) : table :=
  filter (λ '(k, row), ¬ (k ∈ ks ∧ i_expires row < now)) t.

(** ** The system *)

(** One execution of a command that committed: when its transaction began and ended. *)
Record execution := MkExecution { e_request : Request; e_outcome : Outcome; e_result : option string; e_start : Z; e_end : Z }.

Record isys := MkISys { y_store : istore B; y_clock : Z; y_done : list execution }.

Definition executed (r : Request) (start end_ : Z) (a : res ierr (Outcome * bool)) : list execution :=
  match a with
  | Ok (o, false) => [MkExecution r o (default None (storedResult o)) start end_]
  | _ => []
  end.

(** A [Do] begins at any time until it ends; a cleanup may run meanwhile. *)
Inductive istep : isys → isys → Prop :=
| is_do y r fn locked ks start at_ end_ a s :
    start ≤ end_ → y_clock y ≤ end_ → at_ ≤ end_ → Do r fn locked (Cleanup ks at_) start (y_store y) = (a, s) →
    istep y (MkISys s end_ (y_done y ++ executed r start end_ a))
| is_cleanup y ks at_ : at_ ≤ y_clock y →
    istep y (MkISys (MkIStore (Cleanup ks at_ (keys (y_store y))) (biz (y_store y))) (y_clock y) (y_done y))
| is_tick y d : 0 ≤ d → istep y (MkISys (y_store y) (y_clock y + d) (y_done y)).

Definition iInitial (b : B) (now : Z) : isys := MkISys (MkIStore ∅ b) now [].
Definition iReachable (y : isys) : Prop := ∃ b now, rtc istep (iInitial b now) y.
End idem.

(** ** A key runs its command once *)

Section once.
Context `{Hashes} {B : Type} (jsonb : string → option string).

Lemma identity_encodes r : is_Some (Encode (identity r)).
Proof. unfold Encode. rewrite encode_print. cbn. by eexists. Qed.
Lemma Fingerprint_total r : is_Some (Fingerprint r).
Proof. unfold Fingerprint, Digest. destruct (identity_encodes r) as [t ->]. by eexists. Qed.

Lemma Cleanup_lookup (ks : list (string * string)) (now : Z) (t : table) k row : Cleanup ks now t !! k = Some row ↔ t !! k = Some row ∧ ¬ (k ∈ ks ∧ i_expires row < now).
Proof. unfold Cleanup. by rewrite map_lookup_filter_Some. Qed.

(** What a [Do] does, by what it answers. *)
Lemma Do_cases r fn locked other now (s : istore B) a s' :
  Do jsonb r fn locked other now s = (a, s') → ∃ fp, Fingerprint r = Some fp ∧
  ((∃ e, a = Err e ∧ s' = s) ∨
   (∃ row, keys s !! rowKey r = Some row ∧ now < i_expires row ∧ s' = MkIStore (other (keys s)) (biz s) ∧
      a = match stored (other (keys s)) r fp with Ok o => Ok (o, true) | Err e => Err e end) ∨
   (∃ o b result, (∀ row, keys s !! rowKey r = Some row → i_expires row ≤ now) ∧ fn (biz s) = Ok (o, b) ∧
      storedResult jsonb (normal o) = Some result ∧ a = Ok (normal o, false) ∧
      s' = MkIStore (<[rowKey r := withOutcome (normal o) result (claimRow_ r fp now)]> (keys s)) b)).
Proof.
  unfold Do. destruct (Fingerprint_total r) as [fp Hfp]. intros Hd. exists fp. split; [done|]. revert Hd. rewrite Hfp.
  destruct locked; [intros [= <- <-]; left; eauto|].
  destruct (keys s !! rowKey r) as [row|] eqn:Hrow; [case_bool_decide as Hexp|]; cbn [negb].
  2:{ intros [= <- <-]. right; left. exists row. split; [done|]. split; [lia|done]. }
  all: destruct (fn (biz s)) as [[o b]|]; [|by intros [= <- <-]; left; eauto];
    destruct (storedResult jsonb (normal o)) as [result|] eqn:Hres; intros [= <- <-]; [|by left; eauto];
    right; right; exists o, b, result; repeat split; auto; intros row'; by intros [= <-].
Qed.

(** The last execution under a key, and the row it leaves. *)
Definition lastOf (k : string * string) (l : list execution) : option execution := last (filter (λ e, rowKey (e_request e) = k) l).
Definition rowOf (e : execution) (row : irow) : Prop :=
  Fingerprint (e_request e) = Some (i_fingerprint row) ∧ i_status row = oc_Status (e_outcome e) ∧ i_result row = e_result e ∧
  i_expires row = e_start e + Retention.

Lemma lastOf_snoc k l e : lastOf k (l ++ [e]) = if decide (rowKey (e_request e) = k) then Some e else lastOf k l.
Proof.
  unfold lastOf. rewrite filter_app, filter_cons. destruct (decide (rowKey (e_request e) = k)); [|by rewrite filter_nil, app_nil_r].
  by rewrite filter_nil, last_snoc.
Qed.

Record idemInv (y : isys (B := B)) : Prop := {
  ii_row : ∀ k row, keys (y_store y) !! k = Some row → ∃ e, lastOf k (y_done y) = Some e ∧ rowOf e row;
  ii_gone : ∀ k e, lastOf k (y_done y) = Some e → keys (y_store y) !! k = None → e_start e + Retention ≤ y_clock y;
  ii_spaced : ∀ i j e e', y_done y !! i = Some e → y_done y !! j = Some e' → (i < j)%nat → rowKey (e_request e) = rowKey (e_request e') →
    e_start e + Retention ≤ e_end e' }.

(** Every execution of a key is covered by the last one: its row is there, or its time is over. *)
Lemma covered y e :
  idemInv y → (∀ x, x ∈ y_done y → e_start x ≤ e_end x ≤ y_clock y) → e ∈ y_done y →
  e_start e + Retention ≤ y_clock y ∨
  ∃ row, keys (y_store y) !! rowKey (e_request e) = Some row ∧ rowOf e row.
Proof.
  intros I Hc He. apply list_elem_of_lookup in He as [i Hi].
  assert (∃ e' j, lastOf (rowKey (e_request e)) (y_done y) = Some e' ∧ y_done y !! j = Some e' ∧ (i ≤ j)%nat ∧ rowKey (e_request e') = rowKey (e_request e)) as (e' & j & Hl & Hj & Hij & Hk).
  { clear -Hi. revert i Hi. induction (y_done y) as [|x l IH] using rev_ind; intros i Hi; [done|]. rewrite lastOf_snoc.
    destruct (decide (rowKey (e_request x) = rowKey (e_request e))) as [Hx|Hx].
    - exists x, (List.length l). split; [done|]. split; [by rewrite lookup_app_r, Nat.sub_diag by lia|]. split; [|done].
      apply lookup_lt_Some in Hi. rewrite length_app in Hi. cbn in Hi. lia.
    - apply lookup_app_Some in Hi as [Hi|[Hge Hi]].
      + destruct (IH i Hi) as (e' & j & ? & Hj & ? & ?). exists e', j. split; [done|]. split; [by apply lookup_app_l_Some|done].
      + apply list_lookup_singleton_Some in Hi as [_ ->]. done. }
  destruct (decide (i = j)) as [->|Hne].
  - assert (e' = e) as -> by congruence. destruct (keys (y_store y) !! rowKey (e_request e)) as [row|] eqn:Hrow.
    + right. destruct (ii_row _ I _ _ Hrow) as (e2 & He2 & Hr). assert (e2 = e) as -> by congruence. eauto.
    + left. by eapply (ii_gone _ I).
  - left. pose proof (ii_spaced _ I i j e e' Hi Hj ltac:(lia) (eq_sym Hk)) as Hs. apply list_elem_of_lookup_2 in Hj. apply Hc in Hj. lia.
Qed.

Record timed (y : isys (B := B)) : Prop := {
  ti_inv : idemInv y;
  ti_done : ∀ x, x ∈ y_done y → e_start x ≤ e_end x ≤ y_clock y }.

Lemma cleanup_inv y t clock :
  timed y → y_clock y ≤ clock → (∀ k row, t !! k = Some row → keys (y_store y) !! k = Some row) →
  (∀ k row, keys (y_store y) !! k = Some row → t !! k = None → i_expires row ≤ clock) →
  ∀ b, timed (MkISys (MkIStore t b) clock (y_done y)).
Proof.
  intros [I Hd] Hc Ht Hgone b. split; [|cbn; intros x Hx; specialize (Hd x Hx); lia]. split; cbn [keys y_store y_done y_clock biz].
  - intros k row Hrow. by apply (ii_row _ I), Ht.
  - intros k e He Hn. destruct (keys (y_store y) !! k) as [row|] eqn:Hrow.
    + destruct (ii_row _ I _ _ Hrow) as (e' & He' & _ & _ & _ & Hexp). assert (e' = e) as -> by congruence. rewrite <- Hexp. by eapply Hgone.
    + pose proof (ii_gone _ I _ _ He Hrow). lia.
  - apply I.
Qed.

Lemma execute_inv y r fp o b result start end_ :
  timed y → start ≤ end_ → y_clock y ≤ end_ → Fingerprint r = Some fp →
  (∀ row, keys (y_store y) !! rowKey r = Some row → i_expires row ≤ start) →
  timed (MkISys (MkIStore (<[rowKey r := withOutcome o result (claimRow_ r fp start)]> (keys (y_store y))) b) end_
           (y_done y ++ [MkExecution r o result start end_])).
Proof.
  intros [I Hd] Hse Hc Hfp Hexp. split.
  - split; cbn [keys y_store y_done y_clock biz].
    + intros k row. rewrite lastOf_snoc. cbn [e_request]. destruct (decide (rowKey r = k)) as [<-|Hne].
      * rewrite lookup_insert_eq. intros [= <-]. eexists. split; [done|]. done.
      * rewrite lookup_insert_ne by done. apply (ii_row _ I).
    + intros k e. rewrite lastOf_snoc. cbn [e_request]. destruct (decide (rowKey r = k)) as [<-|Hne]; [by rewrite lookup_insert_eq|].
      rewrite lookup_insert_ne by done. intros He Hn. pose proof (ii_gone _ I _ _ He Hn). lia.
    + intros i j e e' Hi Hj Hij Hk. apply lookup_app_Some in Hj as [Hj|[Hge Hj]].
      * rewrite lookup_app_l in Hi by (apply lookup_lt_Some in Hj; lia). by eapply (ii_spaced _ I i j).
      * apply list_lookup_singleton_Some in Hj as [Hj0 <-]. rewrite lookup_app_l in Hi by lia. cbn in *.
        apply list_elem_of_lookup_2 in Hi. destruct (covered y e I Hd Hi) as [?|(row & Hrow & _ & _ & _ & Hx)]; [lia|].
        rewrite Hk in Hrow. specialize (Hexp row Hrow). lia.
  - cbn. intros x [Hx|Hx]%elem_of_app; [specialize (Hd x Hx); lia|]. apply list_elem_of_singleton in Hx as ->. done.
Qed.

Lemma idem_step y y' : timed y → istep jsonb y y' → timed y'.
Proof.
  intros T Hst. destruct Hst as [y r fn locked ks start at_ end_ a s Hse Hc Hat Hdo|y ks at_ Hat|y d Hd].
  - apply Do_cases in Hdo as (fp & Hfp & [(e & -> & ->)|[(row & Hrow & Hlt & -> & ->)|(o & b & result & Hexp & Hfn & Hres & -> & ->)]]).
    + cbn. rewrite app_nil_r. destruct (y_store y) as [t b] eqn:Hs. apply (cleanup_inv y t end_); try done; rewrite Hs; cbn; intros; congruence.
    + assert (executed jsonb r start end_ (match stored (Cleanup ks at_ (keys (y_store y))) r fp with Ok o => Ok (o, true) | Err e => Err e end) = []) as ->
        by (by destruct (stored _ _ _)).
      rewrite app_nil_r. apply cleanup_inv; [done|done|by intros k row0 [? _]%Cleanup_lookup|].
      intros k row0 Hk Hn. destruct (decide (k ∈ ks ∧ i_expires row0 < at_)) as [[_ ?]|Hno]; [lia|].
      assert (Cleanup ks at_ (keys (y_store y)) !! k = Some row0) by (by apply Cleanup_lookup). congruence.
    + cbn [executed]. rewrite Hres. cbn [default from_option id]. by apply execute_inv.
  - apply cleanup_inv; [done|done|by intros k row0 [? _]%Cleanup_lookup|].
    intros k row0 Hk Hn. destruct (decide (k ∈ ks ∧ i_expires row0 < at_)) as [[_ ?]|Hno]; [lia|].
    assert (Cleanup ks at_ (keys (y_store y)) !! k = Some row0) by (by apply Cleanup_lookup). congruence.
  - destruct (y_store y) as [t b] eqn:Hs. apply (cleanup_inv y t (y_clock y + d)); [done|lia|by rewrite Hs|rewrite Hs; cbn; intros; congruence].
Qed.

Lemma idem_reachable (y : isys (B := B)) : iReachable jsonb y → timed y.
Proof.
  intros (b & now & Hr). assert (timed (iInitial b now)) as T.
  { split; [split|]; cbn; [done|done|done|by intros x ?%elem_of_nil]. }
  revert T. induction Hr as [|y1 y2 y3 Hs _ IH]; [done|]. intros T. apply IH. by eapply idem_step.
Qed.

(** C12. A key runs its command once.  Whatever requests repeat, fail, meet one another or
    are cleaned up, two executions under one principal and key are at least the retention
    apart: the second ends no sooner than the retention after the first began. *)
Theorem once_per_key (y : isys (B := B)) i j e e' :
  iReachable jsonb y → y_done y !! i = Some e → y_done y !! j = Some e' → (i < j)%nat →
  rowKey (e_request e) = rowKey (e_request e') → e_start e + Retention ≤ e_end e'.
Proof. intros [I _]%idem_reachable. apply (ii_spaced _ I). Qed.

(** A repeated request is answered with the first one's outcome, another one refused.
    Within the retention of an execution, a request under its key changes nothing: with
    the same fingerprint it is answered with the stored status and result as a replay, with
    another one it is IDEMPOTENCY_KEY_REUSED. *)
Theorem repeated_request (y : isys (B := B)) e r fn ks at_ start a s :
  iReachable jsonb y → e ∈ y_done y → rowKey (e_request e) = rowKey r → y_clock y < e_start e + Retention →
  start < e_start e + Retention → at_ ≤ e_start e + Retention →
  Do jsonb r fn false (Cleanup ks at_) start (y_store y) = (a, s) →
  biz s = biz (y_store y) ∧
  a = if decide (Fingerprint r = Fingerprint (e_request e)) then Ok (MkOutcome (oc_Status (e_outcome e)) (e_result e), true) else Err KeyReused.
Proof.
  intros [I Hd]%idem_reachable He Hk Hclock Hstart Hat Hdo. destruct (covered y e I Hd He) as [?|(row & Hrow & Hf & Hst & Hrs & Hx)]; [lia|].
  rewrite Hk in Hrow. destruct (Fingerprint_total r) as [fp Hfp]. unfold Do in Hdo. rewrite Hfp, Hrow in Hdo.
  rewrite bool_decide_eq_false_2 in Hdo by lia. cbn [negb] in Hdo. injection Hdo as <- <-. split; [done|].
  assert (Cleanup ks at_ (keys (y_store y)) !! rowKey r = Some row) as Hc by (apply Cleanup_lookup; split; [done|lia]).
  unfold stored. rewrite Hc, Hf, Hfp. destruct (decide (i_fingerprint row = fp)) as [<-|Hne].
  - rewrite decide_True by done. by rewrite Hst, Hrs.
  - by rewrite decide_False by congruence.
Qed.
End once.

(** Requests with one fingerprint are one request: the same principal, operation and
    target as NFC, and bodies with one SHA-256, or a collision of SHA-256 is at hand. *)
Theorem fingerprint_binds `{Hashes} r r' fp :
  textOk (identity r) = true → textOk (identity r') = true → Fingerprint r = Some fp → Fingerprint r' = Some fp →
  (nfcText (rq_Principal r) = nfcText (rq_Principal r') ∧ nfcText (rq_Operation r) = nfcText (rq_Operation r') ∧
   nfcText (rq_Target r) = nfcText (rq_Target r') ∧ rq_Body r = rq_Body r') ∨ ∃ a b, a ≠ b ∧ sha256 a = sha256 b.
Proof.
  intros Hr Hr' Hf Hf'. destruct (digest_equal "be.idempotency.request" "be.idempotency.request" 1 1 _ _ fp eq_refl eq_refl ltac:(unfold int64_max; lia) ltac:(unfold int64_max; lia) Hr Hr' Hf Hf') as [(_ & _ & Hm)|Hc]; [|by right].
  cbn in Hm. injection Hm as Hb Ho Hp Ht. destruct (decide (rq_Body r = rq_Body r')) as [->|Hne]; [left; auto|right; eauto].
Qed.

(** ** A key used, repeated and used again *)

Definition orderRequest : Request := MkRequest "ann" "k1" "shop.order.create" "POST /orders" "{qty:1}".
Definition otherRequest : Request := MkRequest "ann" "k1" "shop.order.create" "POST /orders" "{qty:2}".
Definition createOrder (n : nat) : res unit (Outcome * nat) := Ok (MkOutcome 0 (Some "{}"), S n).
Definition asText (s : string) : option string := Some s.
Definition order1 : execution := MkExecution orderRequest (MkOutcome 200 (Some "{}")) (Some "{}") 0 1.
Definition order2 : execution := MkExecution orderRequest (MkOutcome 200 (Some "{}")) (Some "{}") (Retention + 5) (Retention + 6).
Definition ran (start : Z) (s : istore nat) : istore nat := (Do asText orderRequest createOrder false (Cleanup [] 0) start s).2.
Definition iy0 : isys (B := nat) := iInitial 0%nat 0.
Definition iy1 : isys (B := nat) := MkISys (ran 0 (y_store iy0)) 1 [order1].
Definition iy2 : isys (B := nat) := MkISys (ran (Retention + 5) (y_store iy1)) (Retention + 6) [order1; order2].

Lemma iy1_reachable : iReachable asText iy1.
Proof.
  exists 0%nat, 0. apply rtc_once. eapply (is_do asText iy0 orderRequest createOrder false [] 0 0 1 (Ok (MkOutcome 200 (Some "{}"), false))); [lia|done|lia|].
  apply injective_projections; by vm_compute.
Qed.
Lemma iy2_reachable : iReachable asText iy2.
Proof.
  destruct iy1_reachable as (b & now & Hr). exists b, now. eapply rtc_r; [exact Hr|].
  eapply (is_do asText iy1 orderRequest createOrder false [] (Retention + 5) 0 (Retention + 6) (Ok (MkOutcome 200 (Some "{}"), false)));
    [lia|cbn; unfold Retention, Second; lia|unfold Retention, Second; lia|].
  apply injective_projections; by vm_compute.
Qed.

Lemma once_per_key_witness : e_start order1 + Retention ≤ e_end order2.
Proof. apply (once_per_key asText iy2 0%nat 1%nat order1 order2); [apply iy2_reachable|done|done|lia|done]. Defined.

Lemma repeated_request_witness :
  ∃ a s, Do asText otherRequest createOrder false (Cleanup [] 2) 2 (y_store iy1) = (a, s) ∧ biz s = 1%nat ∧ a = Err KeyReused.
Proof.
  eexists _, _. split; [apply surjective_pairing|].
  destruct (repeated_request asText iy1 order1 otherRequest createOrder [] 2 2 _ _ iy1_reachable ltac:(left) eq_refl
    ltac:(cbn; unfold Retention, Second; lia) ltac:(cbn; unfold Retention, Second; lia) ltac:(cbn; unfold Retention, Second; lia)
    (surjective_pairing (Do asText otherRequest createOrder false (Cleanup [] 2) 2 (y_store iy1)))) as [Hb Ha].
  split; [exact Hb|]. rewrite Ha. by rewrite decide_False by (by vm_compute).
Defined.

Lemma fingerprint_binds_witness :
  (rq_Body orderRequest = rq_Body orderRequest) ∨ ∃ a b, a ≠ b ∧ sha256 a = sha256 b.
Proof.
  destruct (fingerprint_binds orderRequest orderRequest (default "" (Fingerprint orderRequest))) as [(_ & _ & _ & Hb)|Hc]; try (by vm_compute);
    [by left|by right].
Defined.
