(* ===== verification/AuditLog.v ===== *)
(** * Reliable audit

    audit/audit.go, audit/transfer.go and audit/job.go: the local audit table written with
    the business change, denials within a budget, numbering, transfer to the audit
    component with receipts, and deletion once a receipt is backed up.

    A record's body is a value of [Canon].  The audit component, the schemas of records
    and the texts of [fmt.Sprint] are parameters; identifiers and clock readings are
    arguments. *)
From S2P Require Import Prelude GoStr EventsStream Canon CanonProps.
From Stdlib Require Import Ascii String.
Open Scope string_scope.
Open Scope Z_scope.
Open Scope list_scope.

Definition DenialBudget : Z := 20.
Definition MinRetention : Z := 7 * 24 * 3600 * Second.
Definition Batch : nat := 500.

(** ** Records *)

(** A Go [map[string]any], by its members. *)
Notation gomap := (list (string * value)) (only parsing).

Record ARecord := MkARecord {
  ar_Category : string; ar_Operation : string; ar_Outcome : string; ar_Reason : string; ar_Actor : string;
  ar_Represented : string; ar_Target : option gomap; ar_Changes : option gomap; ar_Request : option gomap }.

Record Auditor := MkAuditor {
  au_Capacity : Z; au_Restricted : gmap string (gset string); au_Strict : gset string; au_backlog : Z }.

(** A string as it comes back from JSON: bytes that start no rune are replaced. *)
Fixpoint coerceUTF8 (s : string) : string :=
  match s with
  | EmptyString => EmptyString
  | String a s1 =>
      if decide (code a < 128) then String a (coerceUTF8 s1)
      else
        match s1 with
        | EmptyString => (replacement ++ coerceUTF8 s1)%string
        | String b s2 =>
            if rune2 a b then String a (String b (coerceUTF8 s2))
            else
              match s2 with
              | EmptyString => (replacement ++ coerceUTF8 s1)%string
              | String c s3 =>
                  if rune3 a b c then String a (String b (String c (coerceUTF8 s3)))
                  else
                    match s3 with
                    | EmptyString => (replacement ++ coerceUTF8 s1)%string
                    | String d s4 => if rune4 a b c d then String a (String b (String c (String d (coerceUTF8 s4)))) else (replacement ++ coerceUTF8 s1)%string
                    end
              end
        end
  end.

(** The members of an object as the decoder keeps them: the last of a key. *)
Fixpoint lastMembers {A} (m : list (string * A)) : list (string * A) :=
  match m with
  | [] => []
  | x :: m => if decide (x.1 ∈ map fst m) then lastMembers m else x :: lastMembers m
  end.

Definition isNull (v : value) : bool := match v with Null => true | _ => false end.

(** [canonMap]'s round trip through JSON, without the null members ([dropNulls]); a nil
    slice or map is [Null]. *)
Fixpoint roundTrip (v : value) : option value :=
  match v with
  | Null => Some Null
  | Bool b => Some (Bool b)
  | Int n => Some (Number (FormatInt n))
  | Float t => Some (Number t)
  | Number s => Some (Number s)
  | Str s => Some (Str (coerceUTF8 s))
  | Strs l => Some (Arr (map (λ s, Str (coerceUTF8 s)) l))
  | Arr l => Arr <$> allOk roundTrip l
  | Obj m =>
      members ← allOk (λ '(k, x), y ← roundTrip x; Some (k, y)) m;
      let sent := map (λ x, (coerceUTF8 x.1, x.2)) (merge_sort keyLe members) in
      Some (Obj (filter (λ x, isNull x.2 = false) (lastMembers sent)))
  | Other => None
  end.

(** [body]. *)
Definition nonEmpty (k v : string) : gomap := if decide (v = "") then [] else [(k, Str v)].
Definition nested (k : string) (m : option gomap) : option gomap :=
  match m with
  | None => Some []
  | Some m => match roundTrip (Obj m) with Some v => Some [(k, v)] | None => None end
  end.
Definition body (r : ARecord) (id at_ : string) : option value :=
  target ← nested "target" (ar_Target r);
  changes ← nested "changes" (ar_Changes r);
  request ← nested "request" (ar_Request r);
  Some (Obj ([("id", Str id); ("occurred_at", Str at_); ("category", Str (ar_Category r)); ("operation", Str (ar_Operation r));
              ("outcome", Str (ar_Outcome r))] ++
             nonEmpty "reason" (ar_Reason r) ++ nonEmpty "actor" (ar_Actor r) ++ nonEmpty "represented" (ar_Represented r) ++
             target ++ changes ++ request)).

Class AuditEnv `{Hashes} := {
  sprint : value → string;                 (** [fmt.Sprint] *)
  timeText : Z → string;                   (** [canon.Time] *)
  schemaOk : string → value → bool;        (** [records.Validate] *)
  bigint : string → option Z }.            (** the database's [::bigint] *)

(** ** The tables *)

Inductive tstate := Pending | Received | Conflict.
#[export] Instance tstate_eq_dec : EqDecision tstate.
Proof. solve_decision. Defined.

Record AReceipt := MkAReceipt { rc_ID : string; rc_Status : string; rc_Epoch : string; rc_Seq : Z; rc_Chain : string }.

(** be_audit_log, by [ord]; the columns that repeat the record are left out. *)
Record arow := MkARow {
  l_id : string; l_digest : string; l_record : string; l_pos : option Point; l_state : tstate;
  l_receipt : option (string * Z * string); l_receivedAt : option Z }.
(** be_audit_denial_budget, by principal, reason and minute. *)
Record window := MkWindow { w_detailed : Z; w_overflow : Z; w_first : option Z; w_last : option Z; w_summarized : bool }.
Notation wkey := (string * string * Z)%type (only parsing).

Record astore := MkAStore {
  log_ : gmap Z arow; counterEpoch : option Epoch; counterLast : Z; budget : gmap (string * string * Z) window;
  nextOrd : Z; epochNow : option Epoch; anow : Z }.

Definition set_log (f : gmap Z arow → gmap Z arow) (s : astore) : astore :=
  MkAStore (f (log_ s)) (counterEpoch s) (counterLast s) (budget s) (nextOrd s) (epochNow s) (anow s).
Definition set_budget (f : gmap (string * string * Z) window → gmap (string * string * Z) window) (s : astore) : astore :=
  MkAStore (log_ s) (counterEpoch s) (counterLast s) (f (budget s)) (nextOrd s) (epochNow s) (anow s).

Inductive aerr := CapacityExhausted | NotEncodable | NotValid | NoAuditEpoch | NoReceipt | SendFailed | BadEpoch.

Section audit.
Context `{AuditEnv}.
Notation M := (tx astore aerr).

(** ** Writing *)

(** [Auditor.mask]. *)
Definition digestOf (v : value) : string :=
  ("sha256:" ++ sha256 (match Encode v with Some b => b | None => sprint v end))%string.
Definition typeOf (target : option gomap) : string :=
  match target ≫= (λ m, list_to_map (M := gmap string value) m !! "type") with Some (Str t) => t | _ => "" end.
Definition mask (a : Auditor) (r : ARecord) : option gomap :=
  let restricted := default ∅ (au_Restricted a !! typeOf (ar_Target r)) in
  match ar_Changes r with
  | None => None
  | Some m => Some (map (λ '(k, v), (k, if decide (k ∈ restricted) then Str (digestOf v) else v)) m)
  end.

(** [Auditor.insert]. *)
Definition insertA (a : Auditor) (id : string) (at_ : Z) (r : ARecord) : M string :=
  let r := MkARecord (ar_Category r) (ar_Operation r) (ar_Outcome r) (ar_Reason r) (ar_Actor r) (ar_Represented r)
             (ar_Target r) (mask a r) (ar_Request r) in
  match body r id (timeText at_) with
  | None => tfail NotEncodable
  | Some b =>
      match Seal "be.audit.record" b with
      | None => tfail NotEncodable
      | Some (raw, digest) =>
          if schemaOk "be.audit.record" b then
            (tmod (λ s, MkAStore (<[nextOrd s := MkARow id digest raw None Pending None None]> (log_ s)) (counterEpoch s)
                          (counterLast s) (budget s) (nextOrd s + 1) (epochNow s) (anow s)) ;~ tret id)%tx
          else tfail NotValid
      end
  end.

(** [Auditor.Write]. *)
Definition overCapacity (a : Auditor) : bool := bool_decide (0 < au_Capacity a) && bool_decide (au_Capacity a ≤ au_backlog a).
Definition Write (a : Auditor) (id : string) (at_ : Z) (r : ARecord) : M string :=
  if overCapacity a then tfail CapacityExhausted else insertA a id at_ r.

(** ** Denials *)

Definition truncMinute (t : Z) : Z := t - t mod Minute.

(** [Auditor.Denial]; [now] is the process's clock. *)
Definition Denial (a : Auditor) (id : string) (now : Z) (r : ARecord) : M unit :=
  let r := MkARecord "security_denial" (ar_Operation r) "denied" (ar_Reason r) (ar_Actor r) (ar_Represented r)
             (ar_Target r) (ar_Changes r) (ar_Request r) in
  let k := (ar_Actor r, ar_Reason r, truncMinute now) in
  (s <~ tget ;
   let w := default (MkWindow 0 0 None None false) (budget s !! k) in
   let detailed := w_detailed w + 1 in
   let w := MkWindow detailed (w_overflow w) (w_first w) (w_last w) (w_summarized w) in
   tmod (set_budget (insert k w)) ;~
   if decide (detailed ≤ DenialBudget) then insertA a id now r ;~ tret tt
   else tmod (set_budget (insert k (MkWindow detailed (w_overflow w + 1)
                (Some (default now (w_first w))) (Some now) (w_summarized w)))))%tx.

(** The windows [Flush] summarizes, and the summary of one. *)
Definition finished (now : Z) (k : wkey) (w : window) : bool :=
  bool_decide (0 < w_overflow w) && negb (w_summarized w) && bool_decide (k.2 < truncMinute now).
Definition optText (t : option Z) : string := match t with Some t => timeText t | None => "" end.
Definition summary (k : wkey) (w : window) : ARecord :=
  MkARecord "security_denial" "be.audit.denials_over_budget" "denied" k.1.2 k.1.1 ""
    None (Some [("count", Str (FormatInt (w_overflow w))); ("first", Str (optText (w_first w)));
                ("last", Str (optText (w_last w))); ("window", Str (timeText k.2))]) None.
Definition summarizeOne (a : Auditor) (id : string) (at_ : Z) (k : wkey) (w : window) : M unit :=
  (insertA a id at_ (summary k w) ;~
   tmod (set_budget (insert k (MkWindow (w_detailed w) (w_overflow w) (w_first w) (w_last w) true))))%tx.
Fixpoint summarizeAll (a : Auditor) (newID : nat → string) (at_ : Z) (n : nat) (ws : list (wkey * window)) : M nat :=
  match ws with
  | [] => tret n
  | (k, w) :: ws => (summarizeOne a (newID n) at_ k w ;~ summarizeAll a newID at_ (S n) ws)%tx
  end.
(** [Auditor.Flush], over the finished windows it could lock. *)
Definition Flush (a : Auditor) (newID : nat → string) (at_ : Z) (locked : list wkey) : M nat :=
  (s <~ tget ;
   summarizeAll a newID at_ 0 (filter (λ '(k, w), k ∈ locked ∧ finished (anow s) k w = true) (map_to_list (budget s))))%tx.

(** ** Numbering *)

Definition unnumberedA (s : astore) : list Z :=
  map fst (filter (λ '(_, r), l_pos r = None) (map_to_list (log_ s))).
Definition pickedA (s : astore) : list Z := take Batch (merge_sort Z.le (unnumberedA s)).
Definition setPosA (p : Point) (r : arow) : arow := MkARow (l_id r) (l_digest r) (l_record r) (Some p) (l_state r) (l_receipt r) (l_receivedAt r).
Fixpoint placeA (e : Epoch) (last : Z) (ords : list Z) (m : gmap Z arow) : gmap Z arow :=
  match ords with [] => m | o :: ords => placeA e (last + 1) ords (alter (setPosA (MkPoint e (last + 1))) o m) end.

(** [Auditor.Number]. *)
Definition NumberA : M nat :=
  (s <~ tget ;
   match epochNow s with
   | None => tfail NoAuditEpoch
   | Some e =>
       let last := if decide (counterEpoch s = Some e) then counterLast s else 0 in
       let ords := pickedA s in
       tmod (λ s, MkAStore (placeA e last ords (log_ s)) (Some e) (last + Z.of_nat (List.length ords)) (budget s) (nextOrd s)
                    (epochNow s) (anow s)) ;~
       tret (List.length ords)
   end)%tx.

(** ** Transfer *)

Record Wire := MkWire { wi_ID : string; wi_Seq : Z; wi_Epoch : string; wi_Digest : string; wi_Record : string }.
Definition wireOf (r : arow) : option Wire :=
  p ← l_pos r; Some (MkWire (l_id r) (pt_Seq p) (epochText (pt_Epoch p)) (l_digest r) (l_record r)).

(** The batch [Transfer] reads. *)
Definition ordLe {A} (x y : Z * A) : Prop := x.1 ≤ y.1.
#[export] Instance ordLe_dec {A} (x y : Z * A) : Decision (ordLe x y).
Proof. unfold ordLe. apply _. Defined.
Definition sendable (r : arow) : bool := bool_decide (l_state r = Pending) && bool_decide (is_Some (l_pos r)).
Definition batchOf (s : astore) : list Wire :=
  omap (λ x, wireOf x.2) (take Batch (merge_sort ordLe (filter (λ x, sendable x.2 = true) (map_to_list (log_ s))))).

(** [Auditor.settle]. *)
Definition settleRow (now : Z) (c : AReceipt) (r : arow) : arow :=
  if decide (l_id r = rc_ID c ∧ l_state r = Pending) then
    MkARow (l_id r) (l_digest r) (l_record r) (l_pos r) (if decide (rc_Status c = "received") then Received else Conflict)
      (Some (rc_Epoch c, rc_Seq c, rc_Chain c)) (Some now)
  else r.
Definition settleOne (c : AReceipt) (s : astore) : astore := set_log (fmap (settleRow (anow s) c)) s.
Definition settleA (cs : list AReceipt) (s : astore) : astore := foldl (λ s c, settleOne c s) s cs.

(** [Auditor.Transfer], with the audit component's answer: how many were settled. *)
Definition Transfer (send : list Wire → option (list AReceipt)) (s : astore) : res aerr nat * astore :=
  match batchOf s with
  | [] => (Ok O, s)
  | batch => match send batch with
             | None => (Err SendFailed, s)
             | Some cs => (Ok (List.length cs), settleA cs s)
             end
  end.

(** [Auditor.Drain]: numbering and sending batch after batch; [fuel] bounds the batches. *)
Fixpoint transferAll (fuel : nat) (send : list Wire → option (list AReceipt)) (total : nat) (s : astore)
  : option (nat * option aerr * astore) :=
  match fuel with
  | O => None
  | S fuel =>
      match Transfer send s with
      | (Err e, s) => Some (total, Some e, s)
      | (Ok n, s) => if decide (n < Batch)%nat then Some ((total + n)%nat, None, s) else transferAll fuel send (total + n) s
      end
  end.
Fixpoint Drain (fuel : nat) (send : list Wire → option (list AReceipt)) (total : nat) (s : astore)
  : option (nat * option aerr * astore) :=
  match fuel with
  | O => None
  | S fuel =>
      match commit NumberA s with
      | (Err e, s) => Some (total, Some e, s)
      | (Ok numbered, s) =>
          match transferAll fuel send total s with
          | None => None
          | Some (total, Some e, s) => Some (total, Some e, s)
          | Some (total, None, s) => if decide (numbered < Batch)%nat then Some (total, None, s) else Drain fuel send total s
          end
      end
  end.

(** [Auditor.Backlog]. *)
Definition Backlog (s : astore) : Z := Z.of_nat (size (filter (λ '(_, r), l_state r = Pending) (log_ s))).
Definition refresh (s : astore) (a : Auditor) : Auditor := MkAuditor (au_Capacity a) (au_Restricted a) (au_Strict a) (Backlog s).

(** ** Sensitive reads *)

(** [Auditor.wire]. *)
Definition wireFor (id : string) (s : astore) : option Wire :=
  match filter (λ x, l_id x.2 = id ∧ is_Some (l_pos x.2)) (map_to_list (log_ s)) with (_, r) :: _ => wireOf r | [] => None end.

(** [Auditor.receipt]; no sender is [None]. *)
Definition receiptFor (sender : option (list Wire → option (list AReceipt))) (id : string) (s : astore) : option aerr * astore :=
  match sender with
  | None => (Some NoReceipt, s)
  | Some send =>
      match commit NumberA s with
      | (Err _, s) => (Some NoReceipt, s)
      | (Ok _, s) =>
          match wireFor id s with
          | None => (Some NoReceipt, s)
          | Some w =>
              match send [w] with
              | None => (Some NoReceipt, s)
              | Some cs =>
                  let s := settleA cs s in
                  match cs with
                  | [c] => if decide (rc_ID c = id ∧ rc_Status c = "received") then (None, s) else (Some NoReceipt, s)
                  | _ => (Some NoReceipt, s)
                  end
              end
          end
      end
  end.

(** [Auditor.Read]: no error is the release of the data. *)
Definition ReadA (a : Auditor) (sender : option (list Wire → option (list AReceipt))) (id : string) (at_ : Z) (r : ARecord) (s : astore)
  : option aerr * astore :=
  if overCapacity a then (Some CapacityExhausted, s)
  else
    let r := MkARecord "sensitive_read" (ar_Operation r) (ar_Outcome r) (ar_Reason r) (ar_Actor r) (ar_Represented r)
               (ar_Target r) (ar_Changes r) (ar_Request r) in
    match commit (insertA a id at_ r) s with
    | (Err e, s) => (Some e, s)
    | (Ok id, s) => if decide (ar_Operation r ∈ au_Strict a) then receiptFor sender id s else (None, s)
    end.

(** ** Purging *)

Record AWatermark := MkAWatermark { wk_Epoch : string; wk_Seq : Z; wk_Ancestors : gmap string Z; wk_BackedUp : bool }.

Definition receiptIs (P : string → Z → bool) (r : arow) : bool :=
  bool_decide (l_state r = Received) && match l_receipt r with Some (e, n, _) => P e n | None => false end.
Definition aged (now : Z) (r : arow) : bool :=
  match l_receivedAt r with Some t => bool_decide (t < now - MinRetention) | None => false end.
Definition again (r : arow) : arow := MkARow (l_id r) (l_digest r) (l_record r) (l_pos r) Pending None None.

(** The deletions and the rows sent again of one epoch. *)
Definition deleteOf (now : Z) (epoch : string) (upTo : Z) (m : gmap Z arow) : gmap Z arow :=
  filter (λ '(_, r), ¬ (receiptIs (λ e n, bool_decide (e = epoch) && bool_decide (n ≤ upTo)) r = true ∧ aged now r = true)) m.
Definition resendOf (epoch : string) (fork : Z) (m : gmap Z arow) : gmap Z arow :=
  (λ r, if receiptIs (λ e n, bool_decide (e = epoch) && bool_decide (fork < n)) r then again r else r) <$> m.

(** The epoch of a receipt as the database reads it: two numbers. *)
Definition splitEpoch (t : string) : option (Z * Z) :=
  let '(a, b) := match GoStr.split "." t with a :: b :: _ => (a, b) | [a] => (a, "") | [] => ("", "") end in
  match bigint a, bigint b with Some x, Some y => Some (x, y) | _, _ => None end.
Definition laterEpoch (a b : Z * Z) : bool := bool_decide (b.1 < a.1) || (bool_decide (a.1 = b.1) && bool_decide (b.2 < a.2)).

(** A receipt of an epoch that is no longer on the history; [None]: a cast failed. *)
Definition lost (w : AWatermark) (r : arow) : option bool :=
  if negb (receiptIs (λ e _, bool_decide (e ≠ wk_Epoch w) && bool_decide (wk_Ancestors w !! e = None)) r) then Some false
  else match l_receipt r with
       | None => Some false
       | Some (e, _, _) => match splitEpoch e, splitEpoch (wk_Epoch w) with
                           | Some x, Some y => Some (negb (laterEpoch x y))
                           | _, _ => None
                           end
       end.

(** [Auditor.Purge], the ancestors in an order of the map. *)
Definition ancestorStep (w : AWatermark) (now : Z) (x : string * Z) (m : gmap Z arow) : gmap Z arow :=
  resendOf x.1 x.2 (if wk_BackedUp w then deleteOf now x.1 x.2 m else m).
Definition PurgeA (w : AWatermark) (ancestors : list (string * Z)) (s : astore) : res aerr astore :=
  let m := deleteOf (anow s) (wk_Epoch w) (wk_Seq w) (log_ s) in
  let m := foldl (λ m x, ancestorStep w (anow s) x m) m ancestors in
  if existsb (λ '(_, r), bool_decide (lost w r = None)) (map_to_list m) then Err BadEpoch
  else Ok (set_log (λ _, (λ r, if bool_decide (lost w r = Some true) then again r else r) <$> m) s).
End audit.
