(* ===== verification/AuditProps.v ===== *)
(** * Audit: what a purge deletes, and that no record is lost

    [PurgeA] row by row, and the system of writers, denials, numbering, transfers, purges
    and failovers over the tables of [AuditLog]: every record that committed is in the table
    until the audit component's backup covers the receipt it gave for it, and every denial
    is recorded or counted. *)
From S2P Require Import Prelude GoStr EventsStream Canon CanonProps AuditLog.
From Stdlib Require Import Ascii String.
Open Scope string_scope.
Open Scope Z_scope.
Open Scope list_scope.

Section purge.
Context `{AuditEnv}.

(** ** A purge, row by row *)

(** Whether a watermark covers a receipt. *)
Definition covers (w : AWatermark) (e : string) (n : Z) : bool :=
  (bool_decide (e = wk_Epoch w) && bool_decide (n ≤ wk_Seq w)) ||
  match wk_Ancestors w !! e with Some f => wk_BackedUp w && bool_decide (n ≤ f) | None => false end.
(** Whether it says the receipt is not on the history. *)
Definition offHistory (w : AWatermark) (e : string) (n : Z) : bool :=
  match wk_Ancestors w !! e with
  | Some f => bool_decide (f < n)
  | None => bool_decide (e ≠ wk_Epoch w) &&
      match splitEpoch e, splitEpoch (wk_Epoch w) with Some x, Some y => negb (laterEpoch x y) | _, _ => false end
  end.
Definition fateRow (w : AWatermark) (now : Z) (r : arow) : option arow :=
  if receiptIs (covers w) r && aged now r then None
  else if receiptIs (offHistory w) r then Some (again r) else Some r.

(** The statements, row by row. *)
Definition deleteRow (now : Z) (epoch : string) (upTo : Z) (r : arow) : option arow :=
  if receiptIs (λ e n, bool_decide (e = epoch) && bool_decide (n ≤ upTo)) r && aged now r then None else Some r.
Definition resendRow (epoch : string) (fork : Z) (r : arow) : arow :=
  if receiptIs (λ e n, bool_decide (e = epoch) && bool_decide (fork < n)) r then again r else r.
Definition ancestorRow (w : AWatermark) (now : Z) (x : string * Z) (r : arow) : option arow :=
  resendRow x.1 x.2 <$> (if wk_BackedUp w then deleteRow now x.1 x.2 r else Some r).

Lemma deleteOf_row now epoch upTo m : deleteOf now epoch upTo m = omap (deleteRow now epoch upTo) m.
Proof.
  apply map_eq. intros k. apply option_eq. intros r. rewrite lookup_omap. unfold deleteOf, deleteRow. rewrite map_lookup_filter_Some, bind_Some. split.
  - intros [Hr Hn]. exists r. split; [done|]. by destruct (receiptIs _ r), (aged now r); try done; destruct Hn.
  - intros (r' & Hr & Hd). destruct (receiptIs _ r') eqn:H1, (aged now r') eqn:H2; cbn in Hd; simplify_eq; (split; [done|]); rewrite ?H1, ?H2; by intros [].
Qed.

Lemma resendOf_row epoch fork m : resendOf epoch fork m = resendRow epoch fork <$> m.
Proof. done. Qed.

Lemma ancestorStep_row w now x m : ancestorStep w now x m = omap (ancestorRow w now x) m.
Proof.
  apply map_eq. intros k. unfold ancestorStep. rewrite resendOf_row, lookup_fmap, lookup_omap. unfold ancestorRow.
  destruct (wk_BackedUp w); [rewrite deleteOf_row, lookup_omap|]; by destruct (m !! k).
Qed.

(** The ancestors, one after the other. *)
Fixpoint ancestorsRow (w : AWatermark) (now : Z) (l : list (string * Z)) (r : arow) : option arow :=
  match l with [] => Some r | x :: l => ancestorRow w now x r ≫= ancestorsRow w now l end.
Lemma ancestors_row w now l m : foldl (λ m x, ancestorStep w now x m) m l = omap (ancestorsRow w now l) m.
Proof.
  revert m. induction l as [|x l IH]; intros m; cbn [foldl ancestorsRow]; [symmetry; apply map_eq; intros k; rewrite lookup_omap; by destruct (m !! k)|].
  rewrite IH, ancestorStep_row. apply map_eq. intros k. rewrite !lookup_omap. by destruct (m !! k).
Qed.

(** An ancestor that is not a row's leaves it alone. *)
Definition epochOf (r : arow) : option string := if decide (l_state r = Received) then (λ x, x.1.1) <$> l_receipt r else None.
Lemma receiptIs_epoch P r : receiptIs P r = true → is_Some (epochOf r).
Proof. unfold receiptIs, epochOf. rewrite andb_true_iff, bool_decide_eq_true. intros [-> Hr]. rewrite decide_True by done. destruct (l_receipt r); [cbn; by eexists|done]. Qed.
Lemma receiptIs_eq e n c P r : l_state r = Received → l_receipt r = Some (e, n, c) → receiptIs P r = P e n.
Proof. intros Hs Hr. unfold receiptIs. by rewrite Hs, Hr. Qed.

Lemma ancestorRow_other w now x r : epochOf r ≠ Some x.1 → ancestorRow w now x r = Some r.
Proof.
  intros Hne. assert (∀ P, receiptIs (λ e n, bool_decide (e = x.1) && P n) r = false) as Hf.
  { intros P. destruct (receiptIs _ r) eqn:Hr; [|done]. destruct (receiptIs_epoch _ _ Hr) as [e He]. destruct Hne. rewrite He. f_equal.
    unfold receiptIs, epochOf in *. case_decide; [|done]. destruct (l_receipt r) as [[[e' n] c]|]; [|done]. cbn in He. injection He as ->.
    apply andb_true_iff in Hr as [_ Hr]. apply andb_true_iff in Hr as [Hr _]. by apply bool_decide_eq_true in Hr. }
  unfold ancestorRow, deleteRow, resendRow. rewrite Hf. cbn. destruct (wk_BackedUp w); cbn; by rewrite Hf.
Qed.

Lemma ancestorsRow_other w now l r : (∀ f, epochOf r = Some f → f ∉ map fst l) → ancestorsRow w now l r = Some r.
Proof.
  induction l as [|x l IH]; [done|]. intros Hn. cbn. rewrite ancestorRow_other; [|intros He; apply (Hn _ He); by left]. cbn. apply IH.
  intros f Hf Hin. apply (Hn _ Hf). by right.
Qed.

Lemma ancestorsRow_app w now l1 l2 r : ancestorsRow w now (l1 ++ l2) r = ancestorsRow w now l1 r ≫= ancestorsRow w now l2.
Proof. revert r. induction l1 as [|x l1 IH]; intros r; [done|]. cbn. destruct (ancestorRow w now x r); [apply IH|done]. Qed.

(** What the ancestors do to a received row. *)
Lemma ancestorsRow_at w now l e n c r :
  l ≡ₚ map_to_list (wk_Ancestors w) → l_state r = Received → l_receipt r = Some (e, n, c) →
  ancestorsRow w now l r =
  match wk_Ancestors w !! e with
  | None => Some r
  | Some f => if wk_BackedUp w && bool_decide (n ≤ f) && aged now r then None else if bool_decide (f < n) then Some (again r) else Some r
  end.
Proof.
  intros Hp Hs Hr. assert (He : epochOf r = Some e) by (unfold epochOf; by rewrite decide_True, Hr by done).
  assert (Hnd : NoDup (map fst l)) by (rewrite Hp; apply NoDup_fst_map_to_list).
  destruct (wk_Ancestors w !! e) as [f|] eqn:Hf.
  - assert ((e, f) ∈ l) as (l1 & l2 & ->)%list_elem_of_split by (rewrite Hp; by apply elem_of_map_to_list).
    rewrite map_app in Hnd. cbn in Hnd. apply NoDup_app in Hnd as (_ & Hn1 & [Hn2 _]%NoDup_cons).
    rewrite ancestorsRow_app, ancestorsRow_other; [|rewrite He; intros f' [= <-] Hin; apply (Hn1 _ Hin); by left]. cbn.
    unfold ancestorRow, deleteRow, resendRow. cbn [fst snd]. rewrite !(receiptIs_eq e n c) by done. rewrite bool_decide_eq_true_2 by done. cbn [andb].
    assert (∀ r', r' = r ∨ r' = again r → ancestorsRow w now l2 r' = Some r') as Hrest.
    { intros r' Hr'. apply ancestorsRow_other. intros f' Hf'. destruct Hr' as [->| ->]; [congruence|]. done. }
    destruct (wk_BackedUp w); cbn.
    + destruct (bool_decide (n ≤ f) && aged now r); [done|]. cbn. rewrite !(receiptIs_eq e n c) by done. rewrite bool_decide_eq_true_2 by done. cbn [andb].
      destruct (bool_decide (f < n)); apply Hrest; auto.
    + rewrite !(receiptIs_eq e n c) by done. rewrite bool_decide_eq_true_2 by done. cbn [andb]. destruct (bool_decide (f < n)); apply Hrest; auto.
  - apply ancestorsRow_other. rewrite He. intros f' [= <-]. rewrite Hp. intros ([e' f'] & Heq & Hin%elem_of_map_to_list)%list_elem_of_fmap. cbn in Heq. congruence.
Qed.

Definition purgeRow (w : AWatermark) (now : Z) (l : list (string * Z)) (r : arow) : option arow :=
  deleteRow now (wk_Epoch w) (wk_Seq w) r ≫= ancestorsRow w now l.

Lemma purgeRow_unreceived w now l r : epochOf r = None → purgeRow w now l r = Some r ∧ fateRow w now r = Some r ∧ lost w r = Some false.
Proof.
  intros He. assert (∀ P, receiptIs P r = false) as Hf.
  { intros P. destruct (receiptIs P r) eqn:Hr; [|done]. destruct (receiptIs_epoch _ _ Hr). congruence. }
  unfold purgeRow, deleteRow, fateRow, lost. rewrite !Hf. cbn. rewrite ancestorsRow_other by congruence. done.
Qed.

Lemma purgeRow_fate w now l r r1 :
  l ≡ₚ map_to_list (wk_Ancestors w) → purgeRow w now l r = Some r1 → lost w r1 ≠ None →
  fateRow w now r = Some (if bool_decide (lost w r1 = Some true) then again r1 else r1).
Proof.
  intros Hp. destruct (epochOf r) as [e|] eqn:He.
  2:{ destruct (purgeRow_unreceived w now l r He) as (-> & -> & Hl). intros [= <-] _. rewrite Hl. done. }
  unfold epochOf in He. case_decide as Hs; [|done]. destruct (l_receipt r) as [[[e' n] c]|] eqn:Hr; [|done]. cbn in He. injection He as ->.
  unfold purgeRow, deleteRow, fateRow. rewrite !(receiptIs_eq e n c) by done. unfold covers, offHistory.
  destruct (bool_decide (e = wk_Epoch w) && bool_decide (n ≤ wk_Seq w) && aged now r) eqn:Hdel; cbn [mbind option_bind]; [done|].
  rewrite (ancestorsRow_at w now l e n c r Hp Hs Hr). destruct (wk_Ancestors w !! e) as [f|] eqn:Hf.
  - destruct (wk_BackedUp w && bool_decide (n ≤ f) && aged now r) eqn:Hd2; [done|].
    assert ((bool_decide (e = wk_Epoch w) && bool_decide (n ≤ wk_Seq w) || wk_BackedUp w && bool_decide (n ≤ f)) && aged now r = false) as ->.
    { destruct (bool_decide (e = wk_Epoch w)), (bool_decide (n ≤ wk_Seq w)), (wk_BackedUp w), (bool_decide (n ≤ f)), (aged now r); done. }
    destruct (bool_decide (f < n)); intros [= <-] _; [done|].
    unfold lost. rewrite (receiptIs_eq e n c) by done. by rewrite Hf, (bool_decide_eq_false_2 (Some f = None)), andb_false_r.
  - rewrite orb_false_r, Hdel. intros [= <-]. unfold lost. rewrite (receiptIs_eq e n c), Hf by done.
    rewrite (bool_decide_eq_true_2 (None = None)), andb_true_r by done. destruct (bool_decide (e ≠ wk_Epoch w)); cbn; [|done]. rewrite Hr.
    destruct (splitEpoch e), (splitEpoch (wk_Epoch w)); try done. intros _. by destruct (negb _).
Qed.

Lemma purgeRow_none w now l r : l ≡ₚ map_to_list (wk_Ancestors w) → purgeRow w now l r = None → fateRow w now r = None.
Proof.
  intros Hp. destruct (epochOf r) as [e|] eqn:He.
  2:{ destruct (purgeRow_unreceived w now l r He) as (-> & _). done. }
  unfold epochOf in He. case_decide as Hs; [|done]. destruct (l_receipt r) as [[[e' n] c]|] eqn:Hr; [|done]. cbn in He. injection He as ->.
  unfold purgeRow, deleteRow, fateRow. rewrite !(receiptIs_eq e n c) by done. unfold covers.
  destruct (bool_decide (e = wk_Epoch w) && bool_decide (n ≤ wk_Seq w) && aged now r) eqn:Hdel; cbn [mbind option_bind].
  - apply andb_true_iff in Hdel as [-> ->]. done.
  - rewrite (ancestorsRow_at w now l e n c r Hp Hs Hr). destruct (wk_Ancestors w !! e) as [f|]; [|done].
    destruct (wk_BackedUp w && bool_decide (n ≤ f) && aged now r) eqn:Hd2; [|by destruct (bool_decide (f < n))].
    apply andb_true_iff in Hd2 as [-> ->]. by rewrite orb_true_r.
Qed.

Lemma PurgeA_log w l s s' :
  l ≡ₚ map_to_list (wk_Ancestors w) → PurgeA w l s = Ok s' → log_ s' = omap (fateRow w (anow s)) (log_ s).
Proof.
  intros Hp. unfold PurgeA. rewrite deleteOf_row, ancestors_row. set (m := omap _ (omap _ _)).
  destruct (existsb _ (map_to_list m)) eqn:Hx; [done|]. intros [= <-]. cbn. apply map_eq. intros k. rewrite lookup_fmap, lookup_omap.
  assert (m !! k = log_ s !! k ≫= purgeRow w (anow s) l) as Hm by (subst m; rewrite !lookup_omap; by destruct (log_ s !! k)).
  rewrite Hm. destruct (log_ s !! k) as [r|]; [|done]. cbn in *. destruct (purgeRow w (anow s) l r) as [r1|] eqn:Hr1; cbn.
  - symmetry. eapply purgeRow_fate; [done|done|]. intros Hl. rewrite <- not_true_iff_false, existsb_exists in Hx. destruct Hx. exists (k, r1).
    split; [by apply list_elem_of_In, elem_of_map_to_list|]. by rewrite Hl.
  - symmetry. by eapply purgeRow_none.
Qed.

(** A purge is decided row by row.  Whatever order the ancestors of the watermark come
    in, a purge that succeeds deletes exactly the received rows older than the minimum
    retention whose receipt the watermark covers, sends again exactly the other received
    rows whose receipt is past a fork or on a lost branch, and leaves every other row. *)
Theorem purge_reference w l s s' :
  l ≡ₚ map_to_list (wk_Ancestors w) → PurgeA w l s = Ok s' → log_ s' = omap (fateRow w (anow s)) (log_ s).
Proof. apply PurgeA_log. Qed.
End purge.
