(* ===== verification/AuditSys.v ===== *)
(** * Audit: the system

    Writers, denials, flushes, numbering, settlements, purges, failovers and time over the
    tables of [AuditLog], in any order, and what holds of every run: no record is lost, no
    denial uncounted. *)
From S2P Require Import Prelude GoStr EventsStream Canon CanonProps AuditLog AuditProps.
From Stdlib Require Import Ascii String.
Open Scope string_scope.
Open Scope Z_scope.
Open Scope list_scope.

Notation wkey := (string * string * Z)%type (only parsing).
Notation entry := (string * string * string)%type (only parsing).

(** What a row records: its identity, digest and text. *)
Definition entryOf (r : arow) : entry := (l_id r, l_digest r, l_record r).
(** The rows a transaction added. *)
Definition newEntries (s s' : astore) : list entry :=
  omap (λ o, entryOf <$> log_ s' !! o) (seqZ (nextOrd s) (nextOrd s' - nextOrd s)).

(** [v_written]: every record that committed; [v_receipts]: every receipt the audit
    component gave; [v_purges]: the watermarks of the purges; [v_denials], [v_details],
    [v_summaries]: the windows of the denials, of their rows, and of the summaries. *)
Record asys := MkASys {
  v_store : astore; v_written : list entry; v_receipts : list AReceipt; v_purges : list AWatermark;
  v_denials : list wkey; v_details : list wkey; v_summaries : list (wkey * Z) }.

Section system.
Context `{AuditEnv}.

Definition denialKey (r : ARecord) (now : Z) : wkey := (ar_Actor r, ar_Reason r, truncMinute now).
Definition toSummarize (locked : list wkey) (s : astore) : list (wkey * window) :=
  filter (λ '(k, w), k ∈ locked ∧ finished (anow s) k w = true) (map_to_list (budget s)).

Inductive astep : asys → asys → Prop :=
| as_write v a id at_ r x s : Write a id at_ r (v_store v) = Ok (x, s) →
    astep v (MkASys s (v_written v ++ newEntries (v_store v) s) (v_receipts v) (v_purges v) (v_denials v) (v_details v) (v_summaries v))
| as_denial v a id now r s : Denial a id now r (v_store v) = Ok (tt, s) →
    astep v (MkASys s (v_written v ++ newEntries (v_store v) s) (v_receipts v) (v_purges v) (v_denials v ++ [denialKey r now])
               (v_details v ++ map (λ _, denialKey r now) (newEntries (v_store v) s)) (v_summaries v))
| as_flush v a newID at_ locked n s : Flush a newID at_ locked (v_store v) = Ok (n, s) →
    astep v (MkASys s (v_written v ++ newEntries (v_store v) s) (v_receipts v) (v_purges v) (v_denials v) (v_details v)
               (v_summaries v ++ map (λ x, (x.1, w_overflow x.2)) (toSummarize locked (v_store v))))
| as_number v n s : NumberA (v_store v) = Ok (n, s) →
    astep v (MkASys s (v_written v) (v_receipts v) (v_purges v) (v_denials v) (v_details v) (v_summaries v))
| as_settle v cs :
    astep v (MkASys (settleA cs (v_store v)) (v_written v) (v_receipts v ++ cs) (v_purges v) (v_denials v) (v_details v) (v_summaries v))
| as_purge v w l s : l ≡ₚ map_to_list (wk_Ancestors w) → PurgeA w l (v_store v) = Ok s →
    astep v (MkASys s (v_written v) (v_receipts v) (v_purges v ++ [w]) (v_denials v) (v_details v) (v_summaries v))
| as_time v e now : anow (v_store v) ≤ now →
    astep v (MkASys (MkAStore (log_ (v_store v)) (counterEpoch (v_store v)) (counterLast (v_store v)) (budget (v_store v))
                       (nextOrd (v_store v)) e now)
               (v_written v) (v_receipts v) (v_purges v) (v_denials v) (v_details v) (v_summaries v)).

Definition aInitial (e : option Epoch) (now : Z) : asys := MkASys (MkAStore ∅ None 0 ∅ 1 e now) [] [] [] [] [] [].
Definition aReachable (v : asys) : Prop := ∃ e now, rtc astep (aInitial e now) v.

(** ** No record is lost *)

Definition fresh (s : astore) : Prop := ∀ o r, log_ s !! o = Some r → o < nextOrd s.

(** What a transaction that writes does to the log. *)
Record wrote (s s' : astore) : Prop := {
  wr_next : nextOrd s ≤ nextOrd s';
  wr_old : ∀ o r, log_ s !! o = Some r → log_ s' !! o = Some r;
  wr_new : ∀ o r, log_ s' !! o = Some r → log_ s !! o = Some r ∨ (nextOrd s ≤ o < nextOrd s' ∧ l_state r = Pending) }.

Lemma wrote_refl s : wrote s s.
Proof. split; auto; lia. Qed.
Lemma wrote_trans s1 s2 s3 : wrote s1 s2 → wrote s2 s3 → wrote s1 s3.
Proof.
  intros [A1 A2 A3] [B1 B2 B3]. split; [lia|auto|]. intros o r Hr. destruct (B3 _ _ Hr) as [Hr2|[? ?]]; [|right; split; [lia|done]].
  destruct (A3 _ _ Hr2) as [?|[? ?]]; [by left|right; split; [lia|done]].
Qed.
Lemma wrote_fresh s s' : fresh s → wrote s s' → fresh s'.
Proof. intros Hf [A1 A2 A3] o r Hr. destruct (A3 _ _ Hr) as [Ho|[? _]]; [specialize (Hf _ _ Ho); lia|lia]. Qed.

Lemma insertA_wrote a id at_ r s x s' :
  fresh s → insertA a id at_ r s = Ok (x, s') →
  wrote s s' ∧ nextOrd s' = nextOrd s + 1 ∧ budget s' = budget s ∧ anow s' = anow s ∧ is_Some (log_ s' !! nextOrd s).
Proof.
  intros Hf. unfold insertA. destruct (body _ _ _) as [b|]; [|done]. destruct (Seal _ b) as [[raw digest]|]; [|done].
  destruct (schemaOk _ b); [|done]. intros [= <- <-]. cbn. split; [|split; [done|]; split; [done|]; split; [done|]; rewrite lookup_insert_eq; by eexists].
  split; cbn.
  - lia.
  - intros o r0 Hr. rewrite lookup_insert_ne; [done|]. specialize (Hf _ _ Hr). lia.
  - intros o r0. rewrite lookup_insert_Some. intros [[<- <-]|[_ Hr]]; [right; split; [lia|done]|by left].
Qed.

Lemma budget_wrote f s : wrote s (set_budget f s).
Proof. split; cbn; auto; lia. Qed.

Lemma summarize_spec a newID at_ ws n s x s' :
  fresh s → NoDup (map fst ws) → summarizeAll a newID at_ n ws s = Ok (x, s') →
  wrote s s' ∧ (∀ k, budget s' !! k = match (list_to_map ws : gmap wkey window) !! k with
                                      | Some w => Some (MkWindow (w_detailed w) (w_overflow w) (w_first w) (w_last w) true)
                                      | None => budget s !! k end).
Proof.
  revert n s. induction ws as [|[k w] ws IH]; intros n s Hf Hnd; cbn [summarizeAll].
  - intros [= <- <-]. split; [apply wrote_refl|done].
  - cbn in Hnd. apply NoDup_cons in Hnd as [Hk Hnd]. rewrite tbind_ok. intros (u & s1 & Hs1 & Hs2). unfold summarizeOne in Hs1. rewrite tbind_ok in Hs1.
    destruct Hs1 as (id & s0 & Hins & [= <- <-]). destruct (insertA_wrote _ _ _ _ _ _ _ Hf Hins) as (Hw & _ & Hb & _).
    pose proof (wrote_trans _ _ _ Hw (budget_wrote (insert k (MkWindow (w_detailed w) (w_overflow w) (w_first w) (w_last w) true)) s0)) as Hw1.
    destruct (IH (S n) _ (wrote_fresh _ _ Hf Hw1) Hnd Hs2) as [Hw2 Hb2]. split; [by eapply wrote_trans|]. intros k'. rewrite Hb2. cbn.
    destruct (decide (k' = k)) as [->|Hne].
    + rewrite lookup_insert_eq. rewrite (proj1 (not_elem_of_list_to_map ws k)) by done. by rewrite lookup_insert_eq.
    + rewrite !lookup_insert_ne by done. by rewrite Hb.
Qed.

(** Every transaction that writes rows, and the window a denial leaves. *)
Lemma Denial_spec a id now r s s' :
  fresh s → Denial a id now r s = Ok (tt, s') →
  wrote s s' ∧ ∃ w, budget s' !! denialKey r now = Some w ∧ (∀ k, k ≠ denialKey r now → budget s' !! k = budget s !! k) ∧
    (let w0 := default (MkWindow 0 0 None None false) (budget s !! denialKey r now) in
     w_detailed w = w_detailed w0 + 1 ∧ w_summarized w = w_summarized w0 ∧
     if decide (w_detailed w ≤ DenialBudget) then nextOrd s' = nextOrd s + 1 ∧ is_Some (log_ s' !! nextOrd s) ∧ w_overflow w = w_overflow w0
     else nextOrd s' = nextOrd s ∧ w_overflow w = w_overflow w0 + 1).
Proof.
  intros Hf. unfold Denial. rewrite tbind_get. cbn [ar_Actor ar_Reason]. fold (denialKey r now). set (k := denialKey r now).
  set (w0 := default _ (budget s !! k)). rewrite tbind_mod. destruct (decide (w_detailed w0 + 1 ≤ DenialBudget)) as [Hd|Hd].
  - rewrite tbind_ok. intros (x & s1 & Hins & [= <-]). set (s0 := set_budget _ s) in Hins.
    assert (fresh s0) as Hf0 by exact Hf. destruct (insertA_wrote _ _ _ _ _ _ _ Hf0 Hins) as (Hw & Hn & Hb & _ & Hl).
    split; [by eapply wrote_trans; [apply budget_wrote|]|]. eexists. rewrite Hb. cbn. rewrite lookup_insert_eq. split; [done|].
    split; [intros k' Hk'; by rewrite lookup_insert_ne|]. cbn. split; [done|]. split; [done|]. by rewrite decide_True.
  - intros [= <-]. split; [split; cbn; auto; lia|]. eexists. cbn. rewrite lookup_insert_eq. split; [done|].
    split; [intros k' Hk'; by rewrite !lookup_insert_ne|]. cbn. split; [done|]. split; [done|]. by rewrite decide_False.
Qed.

Lemma Flush_spec a newID at_ locked s n s' :
  fresh s → Flush a newID at_ locked s = Ok (n, s') →
  wrote s s' ∧ (∀ k, budget s' !! k = match (list_to_map (toSummarize locked s) : gmap wkey window) !! k with
                                      | Some w => Some (MkWindow (w_detailed w) (w_overflow w) (w_first w) (w_last w) true)
                                      | None => budget s !! k end).
Proof.
  intros Hf. unfold Flush. rewrite tbind_get. apply summarize_spec; [done|]. unfold toSummarize.
  eapply sublist_NoDup; [apply (NoDup_fst_map_to_list (budget s))|]. apply fmap_sublist, sublist_filter.
Qed.

Record keptInv (v : asys) : Prop := {
  ki_fresh : fresh (v_store v);
  ki_received : ∀ o r, log_ (v_store v) !! o = Some r → l_state r = Received →
    ∃ c, c ∈ v_receipts v ∧ rc_ID c = l_id r ∧ rc_Status c = "received" ∧ l_receipt r = Some (rc_Epoch c, rc_Seq c, rc_Chain c);
  ki_kept : ∀ x, x ∈ v_written v → (∃ o r, log_ (v_store v) !! o = Some r ∧ entryOf r = x) ∨
    ∃ w c, w ∈ v_purges v ∧ c ∈ v_receipts v ∧ rc_ID c = x.1.1 ∧ rc_Status c = "received" ∧ covers w (rc_Epoch c) (rc_Seq c) = true }.

Lemma kept_wrote v s ds dt sm :
  keptInv v → wrote (v_store v) s →
  keptInv (MkASys s (v_written v ++ newEntries (v_store v) s) (v_receipts v) (v_purges v) ds dt sm).
Proof.
  intros I W. split; cbn.
  - by eapply wrote_fresh; [apply I|].
  - intros o r Hr Hs. destruct (wr_new _ _ W _ _ Hr) as [Hr0|[_ ?]]; [by eapply (ki_received _ I)|congruence].
  - intros x [Hx|Hx]%elem_of_app.
    + destruct (ki_kept _ I x Hx) as [(o & r & Hr & He)|?]; [left; exists o, r; split; [by apply (wr_old _ _ W)|done]|by right].
    + left. apply list_elem_of_omap in Hx as (o & _ & (r & Hr & ->)%fmap_Some). eauto.
Qed.

(** Steps that change rows one by one and keep what they record. *)
Lemma kept_rows v f s cs :
  keptInv v → (∀ o, log_ s !! o = f o <$> log_ (v_store v) !! o) → nextOrd s = nextOrd (v_store v) →
  (∀ o r, entryOf (f o r) = entryOf r) →
  (∀ o r, l_state (f o r) = Received → (l_state r = Received ∧ l_receipt (f o r) = l_receipt r) ∨
     ∃ c, c ∈ cs ∧ rc_ID c = l_id r ∧ rc_Status c = "received" ∧ l_receipt (f o r) = Some (rc_Epoch c, rc_Seq c, rc_Chain c)) →
  keptInv (MkASys s (v_written v) (v_receipts v ++ cs) (v_purges v) (v_denials v) (v_details v) (v_summaries v)).
Proof.
  intros I Hl Hn He Hr. split; cbn.
  - intros o r. rewrite Hl, Hn. intros (r0 & Hr0 & _)%fmap_Some. by eapply (ki_fresh _ I).
  - intros o r. rewrite Hl. intros (r0 & Hr0 & ->)%fmap_Some Hs. specialize (He o r0). assert (l_id (f o r0) = l_id r0) as -> by (unfold entryOf in He; congruence).
    destruct (Hr o r0 Hs) as [[Hs0 ->]|(c & Hc & Hrest)].
    + destruct (ki_received _ I _ _ Hr0 Hs0) as (c & Hc & Hrest). exists c. split; [set_solver|done].
    + exists c. split; [set_solver|done].
  - intros x Hx. destruct (ki_kept _ I x Hx) as [(o & r & Ho & Hxr)|(w & c & ? & ? & ?)].
    + left. exists o, (f o r). rewrite Hl, Ho. split; [done|]. by rewrite He.
    + right. exists w, c. split; [done|]. split; [set_solver|done].
Qed.

(** Numbering and settling keep what rows record. *)
Lemma placeA_rows e last ords m :
  ∃ f, (∀ o, placeA e last ords m !! o = f o <$> m !! o) ∧
    ∀ o r, entryOf (f o r) = entryOf r ∧ l_state (f o r) = l_state r ∧ l_receipt (f o r) = l_receipt r.
Proof.
  revert last m. induction ords as [|x ords IH]; intros last m; cbn [placeA].
  - exists (λ _ r, r). split; [intros o; by destruct (m !! o)|done].
  - destruct (IH (last + 1) (alter (setPosA (MkPoint e (last + 1))) x m)) as (f & Hf & Hk).
    exists (λ o r, f o (if decide (o = x) then setPosA (MkPoint e (last + 1)) r else r)). split.
    + intros o. rewrite Hf. destruct (decide (o = x)) as [->|Hne]; [rewrite lookup_alter_eq; by destruct (m !! x)|by rewrite lookup_alter_ne].
    + intros o r. destruct (Hk o (if decide (o = x) then setPosA (MkPoint e (last + 1)) r else r)) as (-> & -> & ->). by case_decide.
Qed.

Lemma settleA_rows cs s :
  ∃ f, (∀ o, log_ (settleA cs s) !! o = f o <$> log_ s !! o) ∧ nextOrd (settleA cs s) = nextOrd s ∧ budget (settleA cs s) = budget s ∧
    ∀ o r, entryOf (f o r) = entryOf r ∧
      (l_state (f o r) = Received → (l_state r = Received ∧ l_receipt (f o r) = l_receipt r) ∨
        ∃ c, c ∈ cs ∧ rc_ID c = l_id r ∧ rc_Status c = "received" ∧ l_receipt (f o r) = Some (rc_Epoch c, rc_Seq c, rc_Chain c)).
Proof.
  unfold settleA. revert s. induction cs as [|c cs IH]; intros s; cbn [foldl].
  - exists (λ _ r, r). split; [intros o; by destruct (log_ s !! o)|]. split; [done|]. split; [done|]. auto.
  - destruct (IH (settleOne c s)) as (f & Hf & Hn & Hb & Hk). exists (λ o r, f o (settleRow (anow s) c r)).
    split; [intros o; rewrite Hf; cbn; rewrite lookup_fmap; by destruct (log_ s !! o)|]. split; [done|]. split; [done|]. intros o r.
    destruct (Hk o (settleRow (anow s) c r)) as [He Hs]. rewrite He. split; [unfold settleRow; by case_decide|].
    intros Hst. assert (l_id (settleRow (anow s) c r) = l_id r) as Hid by (unfold settleRow; by case_decide).
    destruct (Hs Hst) as [[Hs0 ->]|(c' & Hc' & Hrest)]; [|right; exists c'; rewrite <- Hid; split; [by right|done]].
    revert Hs0. unfold settleRow. case_decide as Hd; cbn; [|auto]. destruct Hd as [Hid' Hp]. destruct (decide (rc_Status c = "received")); [|done].
    intros _. right. exists c. split; [left|]. split; [done|]. done.
Qed.

Lemma kept_purge v w l s :
  keptInv v → l ≡ₚ map_to_list (wk_Ancestors w) → PurgeA w l (v_store v) = Ok s →
  keptInv (MkASys s (v_written v) (v_receipts v) (v_purges v ++ [w]) (v_denials v) (v_details v) (v_summaries v)).
Proof.
  intros I Hp Hpu. pose proof (PurgeA_log w l _ _ Hp Hpu) as Hlog.
  assert (nextOrd s = nextOrd (v_store v)) as Hn by (unfold PurgeA in Hpu; destruct (existsb _ _); [done|]; by injection Hpu as <-).
  assert (Hrow : ∀ r r', fateRow w (anow (v_store v)) r = Some r' → entryOf r' = entryOf r ∧ (l_state r' = Received → r' = r)).
  { intros r r'. unfold fateRow. destruct (_ && _); [done|]. by destruct (receiptIs (offHistory w) r); intros [= <-]. }
  split; cbn.
  - intros o r. rewrite Hlog, lookup_omap, Hn. intros (r0 & Hr0 & _)%bind_Some. by eapply (ki_fresh _ I).
  - intros o r. rewrite Hlog, lookup_omap. intros (r0 & Hr0 & Hf)%bind_Some Hs. destruct (Hrow _ _ Hf) as [_ Heq]. rewrite (Heq Hs). rewrite (Heq Hs) in Hs.
    by eapply (ki_received _ I).
  - intros x Hx. destruct (ki_kept _ I x Hx) as [(o & r & Ho & Hxr)|(w' & c & ? & ? & ?)].
    + destruct (fateRow w (anow (v_store v)) r) as [r'|] eqn:Hf.
      * left. exists o, r'. rewrite Hlog, lookup_omap, Ho. split; [done|]. destruct (Hrow _ _ Hf) as [-> _]. done.
      * right. unfold fateRow in Hf. destruct (receiptIs (covers w) r) eqn:Hc; cbn [andb] in Hf; [|by destruct (receiptIs (offHistory w) r)].
        unfold receiptIs in Hc. apply andb_true_iff in Hc as [Hs Hc]. apply bool_decide_eq_true in Hs.
        destruct (ki_received _ I _ _ Ho Hs) as (c & Hin & Hid & Hst & Hrc). rewrite Hrc in Hc. exists w, c. split; [set_solver|]. split; [done|].
        split; [by rewrite Hid, <- Hxr|done].
    + right. exists w', c. split; [set_solver|done].
Qed.

Lemma kept_step v v' : keptInv v → astep v v' → keptInv v'.
Proof.
  intros I Hst. pose proof (ki_fresh _ I) as Hf. destruct Hst as [v a id at_ r x s Hw|v a id now r s Hd|v a newID at_ locked n s Hfl|v n s Hn|v cs|v w l s Hp Hpu|v e now Hnow].
  - apply kept_wrote; [done|]. unfold Write in Hw. destruct (overCapacity a); [done|]. by eapply insertA_wrote.
  - apply kept_wrote; [done|]. by eapply Denial_spec.
  - apply kept_wrote; [done|]. by eapply Flush_spec.
  - unfold NumberA in Hn. rewrite tbind_get in Hn. destruct (epochNow (v_store v)) as [e|]; [|done]. rewrite tbind_mod in Hn. injection Hn as _ <-.
    match goal with |- context [placeA e ?last ?ords ?m] => destruct (placeA_rows e last ords m) as (f & Hpf & Hk) end.
    rewrite <- (app_nil_r (v_receipts v)). eapply (kept_rows v f); [done|done|done|by intros o r; destruct (Hk o r)|].
    intros o r. destruct (Hk o r) as (_ & -> & ->). auto.
  - destruct (settleA_rows cs (v_store v)) as (f & Hl & Hn & _ & Hk).
    eapply (kept_rows v f); [done|done|done|by intros o r; destruct (Hk o r)|by intros o r; destruct (Hk o r)].
  - by eapply kept_purge.
  - rewrite <- (app_nil_r (v_receipts v)). eapply (kept_rows v (λ _ r, r)); [done|intros o; cbn; by destruct (log_ (v_store v) !! o)|done|done|]. auto.
Qed.

(** C11. No audit record is lost.  Whatever is written, numbered, sent, answered, purged
    and failed over, in any order, a record that committed is in the local table with the
    text and digest it was sealed with, or a purge was told of a backup that covers the
    receipt the audit component gave for it. *)
Theorem audit_never_lost v x :
  aReachable v → x ∈ v_written v →
  (∃ o r, log_ (v_store v) !! o = Some r ∧ entryOf r = x) ∨
  ∃ w c, w ∈ v_purges v ∧ c ∈ v_receipts v ∧ rc_ID c = x.1.1 ∧ rc_Status c = "received" ∧ covers w (rc_Epoch c) (rc_Seq c) = true.
Proof.
  intros (e & now & Hr). assert (keptInv (aInitial e now)) as I by (split; cbn; [done|done|by intros x0 ?%elem_of_nil]).
  revert I. induction Hr as [v|v1 v2 v3 Hs _ IH]; [intros I; apply (ki_kept _ I)|]. intros I. apply IH. by eapply kept_step.
Qed.

(** ** Denials are recorded or counted *)

Definition countK (k : wkey) (l : list wkey) : Z := Z.of_nat (List.length (filter (λ x, x = k) l)).
Definition summariesOf (k : wkey) (l : list (wkey * Z)) : list (wkey * Z) := filter (λ x, x.1 = k) l.

Definition windowOk (v : asys) (k : wkey) : Prop :=
  match budget (v_store v) !! k with
  | None => countK k (v_denials v) = 0 ∧ countK k (v_details v) = 0 ∧ summariesOf k (v_summaries v) = []
  | Some w => w_detailed w = countK k (v_denials v) ∧ w_overflow w = Z.max 0 (countK k (v_denials v) - DenialBudget) ∧
      countK k (v_details v) = Z.min DenialBudget (countK k (v_denials v)) ∧
      List.length (summariesOf k (v_summaries v)) = (if w_summarized w then 1 else 0)%nat ∧
      ∀ x, x ∈ summariesOf k (v_summaries v) → 0 < x.2 ≤ w_overflow w
  end.

Lemma countK_app k l l' : countK k (l ++ l') = countK k l + countK k l'.
Proof. unfold countK. rewrite filter_app, length_app. lia. Qed.
Lemma countK_one k x : countK k [x] = if decide (x = k) then 1 else 0.
Proof. unfold countK. rewrite filter_cons, filter_nil. by case_decide. Qed.
Lemma countK_nonneg k l : 0 ≤ countK k l.
Proof. unfold countK. lia. Qed.

Lemma newEntries_none s s' : nextOrd s' = nextOrd s → newEntries s s' = [].
Proof. intros Hn. unfold newEntries. by rewrite Hn, Z.sub_diag. Qed.
Lemma newEntries_one s s' : nextOrd s' = nextOrd s + 1 → is_Some (log_ s' !! nextOrd s) → ∃ x, newEntries s s' = [x].
Proof.
  intros Hn [r Hr]. unfold newEntries. rewrite Hn. replace (nextOrd s + 1 - nextOrd s) with 1 by lia. exists (entryOf r).
  rewrite seqZ_cons by lia. rewrite seqZ_nil by lia. cbn. by rewrite Hr.
Qed.

Lemma summariesOf_map (k : wkey) (ts : list (wkey * window)) :
  NoDup (map fst ts) →
  summariesOf k (map (λ x, (x.1, w_overflow x.2)) ts) =
  match (list_to_map ts : gmap wkey window) !! k with Some w => [(k, w_overflow w)] | None => [] end.
Proof.
  induction ts as [|[k' w] ts IH]; [done|]. cbn [map]. intros [Hn Hnd]%NoDup_cons. unfold summariesOf in *. rewrite filter_cons. cbn [fst snd list_to_map].
  destruct (decide (k' = k)) as [->|Hne].
  - cbn. rewrite lookup_insert_eq. rewrite IH by done. by rewrite (proj1 (not_elem_of_list_to_map ts k)) by done.
  - cbn. rewrite lookup_insert_ne by done. by apply IH.
Qed.

Lemma window_same v v' k :
  windowOk v k → budget (v_store v') !! k = budget (v_store v) !! k → countK k (v_denials v') = countK k (v_denials v) →
  countK k (v_details v') = countK k (v_details v) → summariesOf k (v_summaries v') = summariesOf k (v_summaries v) → windowOk v' k.
Proof. unfold windowOk. by intros ? -> -> -> ->. Qed.

Lemma window_step v v' k : keptInv v → windowOk v k → astep v v' → windowOk v' k.
Proof.
  intros I W Hst. pose proof (ki_fresh _ I) as Hf.
  destruct Hst as [v a id at_ r x s Hw|v a id now r s Hd|v a newID at_ locked n s Hfl|v n s Hn|v cs|v w l s Hp Hpu|v e now Hnow].
  - eapply window_same; [done|..]; try done. cbn. unfold Write in Hw. destruct (overCapacity a); [done|].
    by destruct (insertA_wrote _ _ _ _ _ _ _ Hf Hw) as (_ & _ & -> & _).
  - destruct (Denial_spec _ _ _ _ _ _ Hf Hd) as (_ & w & Hb & Hother & Hdet & Hsum & Hcase). set (k0 := denialKey r now) in *.
    assert (countK k (map (λ _, k0) (newEntries (v_store v) s)) = if decide (k0 = k) then if decide (w_detailed w ≤ DenialBudget) then 1 else 0 else 0) as Hnew.
    { destruct (decide (w_detailed w ≤ DenialBudget)).
      - destruct Hcase as (Hn & Hl & _). destruct (newEntries_one _ _ Hn Hl) as [e ->]. apply countK_one.
      - destruct Hcase as (Hn & _). rewrite (newEntries_none _ _ Hn). by case_decide. }
    destruct (decide (k0 = k)) as [<-|Hne].
    + unfold windowOk in *. cbn [v_store v_denials v_details v_summaries]. rewrite Hb, !countK_app, countK_one, Hnew, !(decide_True _ _ (eq_refl k0)).
      pose proof (countK_nonneg k0 (v_denials v)). destruct (budget (v_store v) !! k0) as [w0|] eqn:Hw0; cbn in Hdet, Hsum, Hcase; unfold DenialBudget in *.
      * destruct W as (W1 & W2 & W3 & W4 & W5). rewrite Hsum. destruct (decide (w_detailed w ≤ 20)); [destruct Hcase as (_ & _ & Hov)|destruct Hcase as (_ & Hov)];
          (split; [lia|]; split; [lia|]; split; [lia|]; split; [done|]; intros x Hx; specialize (W5 x Hx); lia).
      * destruct W as (W1 & W2 & W3). rewrite Hsum, W3. destruct (decide (w_detailed w ≤ 20)); [destruct Hcase as (_ & _ & Hov)|lia].
        split; [lia|]. split; [lia|]. split; [lia|]. split; [done|]. by intros x ?%elem_of_nil.
    + eapply window_same; [done|cbn; by apply Hother| | |done]; cbn [v_denials v_details]; rewrite countK_app, ?countK_one, ?Hnew, ?decide_False by done; lia.
  - destruct (Flush_spec _ _ _ _ _ _ _ Hf Hfl) as [_ Hb]. unfold windowOk in *. cbn [v_store v_denials v_details v_summaries]. rewrite Hb.
    assert (Hnd : NoDup (map fst (toSummarize locked (v_store v)))).
    { eapply sublist_NoDup; [apply (NoDup_fst_map_to_list (budget (v_store v)))|]. apply fmap_sublist, sublist_filter. }
    unfold summariesOf. rewrite filter_app. fold (summariesOf k (v_summaries v)).
    change (filter (λ x, x.1 = k) (map (λ x, (x.1, w_overflow x.2)) (toSummarize locked (v_store v)))) with (summariesOf k (map (λ x, (x.1, w_overflow x.2)) (toSummarize locked (v_store v)))).
    rewrite (summariesOf_map k _ Hnd). destruct (list_to_map (toSummarize locked (v_store v)) !! k) as [w|] eqn:Hk.
    + apply elem_of_list_to_map_2 in Hk. apply list_elem_of_filter in Hk as [[_ Hfin] Hk]. apply elem_of_map_to_list in Hk. rewrite Hk in W.
      destruct W as (W1 & W2 & W3 & W4 & W5). unfold finished in Hfin. apply andb_true_iff in Hfin as [[Hpos Hns]%andb_true_iff _].
      apply bool_decide_eq_true in Hpos. apply negb_true_iff in Hns. rewrite Hns in W4. destruct (summariesOf k (v_summaries v)); [|done]. cbn.
      split; [done|]. split; [done|]. split; [done|]. split; [done|]. intros x ->%list_elem_of_singleton. cbn. lia.
    + by rewrite app_nil_r.
  - eapply window_same; [done|..]; try done. unfold NumberA in Hn. rewrite tbind_get in Hn. destruct (epochNow (v_store v)); [|done]. by injection Hn as _ <-.
  - eapply window_same; [done|..]; try done. cbn. destruct (settleA_rows cs (v_store v)) as (f & _ & _ & -> & _). done.
  - eapply window_same; [done|..]; try done. cbn. unfold PurgeA in Hpu. destruct (existsb _ _); [done|]. by injection Hpu as <-.
  - by eapply window_same.
Qed.

(** C32. Denials are recorded or counted.  Of the denials of a principal for a reason in a
    minute, at most the budget have a row of their own and every other one is counted on
    the window; a window is summarized at most once, never with more than it counted. *)
Theorem denials_accounted v k :
  aReachable v →
  countK k (v_details v) ≤ DenialBudget ∧
  countK k (v_details v) + match budget (v_store v) !! k with Some w => w_overflow w | None => 0 end = countK k (v_denials v) ∧
  (List.length (summariesOf k (v_summaries v)) ≤ 1)%nat ∧
  ∀ c, (k, c) ∈ v_summaries v → 0 < c ≤ match budget (v_store v) !! k with Some w => w_overflow w | None => 0 end.
Proof.
  intros (e & now & Hr). assert (keptInv v ∧ windowOk v k) as [_ W].
  { assert (keptInv (aInitial e now) ∧ windowOk (aInitial e now) k) as I by (split; [split; cbn; [done|done|by intros x0 ?%elem_of_nil]|done]).
    revert I. induction Hr as [|v1 v2 v3 Hs _ IH]; [done|]. intros [I W]. apply IH. split; [by eapply kept_step|by eapply window_step]. }
  assert (∀ c, (k, c) ∈ v_summaries v → (k, c) ∈ summariesOf k (v_summaries v)) as Hin by (intros c Hc; by apply list_elem_of_filter).
  pose proof (countK_nonneg k (v_denials v)). unfold windowOk, DenialBudget in *. destruct (budget (v_store v) !! k) as [w|].
  - destruct W as (W1 & W2 & W3 & W4 & W5). split; [lia|]. split; [lia|]. split; [rewrite W4; destruct (w_summarized w); lia|].
    intros c Hc. by apply (W5 (k, c)), Hin.
  - destruct W as (W1 & W2 & W3). split; [lia|]. split; [lia|]. split; [rewrite W3; cbn; lia|]. intros c Hc%Hin. rewrite W3 in Hc. by apply elem_of_nil in Hc.
Qed.


(** ** Sensitive reads *)

Lemma insertA_row a id at_ r s x s' :
  insertA a id at_ r s = Ok (x, s') → x = id ∧ ∃ row, log_ s' !! nextOrd s = Some row ∧ l_id row = id ∧ l_state row = Pending.
Proof.
  unfold insertA. destruct (body _ _ _) as [b|]; [|done]. destruct (Seal _ b) as [[raw digest]|]; [|done].
  destruct (schemaOk _ b); [|done]. intros [= <- <-]. split; [done|]. eexists. cbn. by rewrite lookup_insert_eq.
Qed.

Lemma settle_receives c s o r :
  log_ s !! o = Some r → l_state r = Pending → l_id r = rc_ID c → rc_Status c = "received" →
  ∃ r', log_ (settleA [c] s) !! o = Some r' ∧ entryOf r' = entryOf r ∧ l_state r' = Received ∧ l_receipt r' = Some (rc_Epoch c, rc_Seq c, rc_Chain c).
Proof.
  intros Hr Hs Hid Hst. unfold settleA. cbn. rewrite lookup_fmap, Hr. eexists. split; [done|]. unfold settleRow. rewrite decide_True by done.
  by rewrite (decide_True (P := rc_Status c = "received")).
Qed.

(** A sensitive read is recorded before it is released.  A read that is released left
    its record in the table; a read of the strict tier is released only once the audit
    component answered its record as received, with the receipt stored on its row. *)
Theorem read_recorded a sender id at_ r s s' :
  ReadA a sender id at_ r s = (None, s') →
  ∃ o row, log_ s' !! o = Some row ∧ l_id row = id ∧
    (ar_Operation r ∈ au_Strict a →
       l_state row = Received ∧ ∃ send w c, sender = Some send ∧ wi_ID w = id ∧ send [w] = Some [c] ∧ rc_ID c = id ∧
         rc_Status c = "received" ∧ l_receipt row = Some (rc_Epoch c, rc_Seq c, rc_Chain c)).
Proof.
  unfold ReadA. destruct (overCapacity a); [done|]. unfold commit at 1. set (r1 := MkARecord _ _ _ _ _ _ _ _ _).
  destruct (insertA a id at_ r1 s) as [[x s1]|] eqn:Hins; [|done].
  destruct (insertA_row _ _ _ _ _ _ _ Hins) as (-> & row & Hrow & Hid & Hst). cbn [ar_Operation r1].
  destruct (decide (ar_Operation r ∈ au_Strict a)) as [Hstrict|Hno]; [|intros [= <-]; exists (nextOrd s), row; split; [done|]; split; [done|]; by intros ?].
  unfold receiptFor. destruct sender as [send|]; [|done]. destruct (commit NumberA s1) as [[n|] s2] eqn:Hn; [|done].
  destruct (wireFor id s2) as [w|] eqn:Hw; [|done]. destruct (send [w]) as [[|c [|]]|] eqn:Hsend; [done| |done|done].
  destruct (decide (rc_ID c = id ∧ rc_Status c = "received")) as [[Hc1 Hc2]|]; [|done]. intros [= <-].
  assert (∃ row2, log_ s2 !! nextOrd s = Some row2 ∧ l_id row2 = id ∧ l_state row2 = Pending) as (row2 & Hr2 & Hid2 & Hst2).
  { unfold commit, NumberA in Hn. rewrite tbind_get in Hn. destruct (epochNow s1); [|done]. injection Hn as _ <-. cbn.
    match goal with |- context [placeA ?e ?last ?ords ?m] => destruct (placeA_rows e last ords m) as (f & Hpf & Hk) end.
    rewrite Hpf, Hrow. destruct (Hk (nextOrd s) row) as (He & Hs2 & _). eexists. split; [done|]. rewrite Hs2. split; [|done].
    unfold entryOf in He. congruence. }
  assert (wi_ID w = id) as Hwid.
  { unfold wireFor in Hw. destruct (filter _ _) as [|[o' r'] l] eqn:Hfl; [done|].
    assert ((o', r') ∈ filter (λ x, l_id x.2 = id ∧ is_Some (l_pos x.2)) (map_to_list (log_ s2))) as [[Hi _] _]%list_elem_of_filter by (rewrite Hfl; left).
    unfold wireOf in Hw. destruct (l_pos r'); [|done]. injection Hw as <-. done. }
  destruct (settle_receives c s2 _ _ Hr2 Hst2 ltac:(congruence) Hc2) as (row3 & Hr3 & He3 & Hs3 & Hrc).
  exists (nextOrd s), row3. split; [done|]. split; [unfold entryOf in He3; congruence|]. intros _. split; [done|]. by exists send, w, c.
Qed.
End system.

(** ** A member to see it on *)

#[export] Instance plainAudit : AuditEnv := {|
  sprint _ := "?"; timeText t := FormatInt t; schemaOk _ _ := true;
  bigint s := match ParseInt s with (n, None) => Some n | _ => None end |}.

Definition priceChange : ARecord :=
  MkARecord "business_change" "shop.price.set" "succeeded" "" "ann" "" (Some [("type", Str "price"); ("id", Str "p1")])
    (Some [("amount", Str "7")]) None.
Definition shopAuditor : Auditor := MkAuditor 10 {[ "price" := {[ "amount" ]} ]} {[ "shop.salary.read" ]} 0.
Definition runA {A} (c : tx astore aerr A) (s : astore) : astore := after c s.

Definition av0 : asys := aInitial (Some (MkEpoch 1 1)) 0.
Definition au1 : astore := runA (Write shopAuditor "a1" 5 priceChange) (v_store av0).
Definition av1 : asys := MkASys au1 (newEntries (v_store av0) au1) [] [] [] [] [].
Definition au2 : astore := runA NumberA au1.
Definition av2 : asys := MkASys au2 (v_written av1) [] [] [] [] [].
Definition priceReceipt : AReceipt := MkAReceipt "a1" "received" "1.1" 41 "c".
Definition av3 : asys := MkASys (settleA [priceReceipt] au2) (v_written av2) [priceReceipt] [] [] [] [].
Definition au4 : astore :=
  let s := v_store av3 in MkAStore (log_ s) (counterEpoch s) (counterLast s) (budget s) (nextOrd s) (epochNow s) (MinRetention + 1).
Definition av4 : asys := MkASys au4 (v_written av3) [priceReceipt] [] [] [] [].
Definition backup : AWatermark := MkAWatermark "1.1" 50 ∅ true.
Definition au5 : astore := match PurgeA backup [] au4 with Ok s => s | Err _ => au4 end.
Definition av5 : asys := MkASys au5 (v_written av4) [priceReceipt] [backup] [] [] [].

Lemma astep_r v v' : aReachable v → astep v v' → aReachable v'.
Proof. intros (e & now & Hr) Hs. exists e, now. by eapply rtc_r. Qed.

Lemma av5_reachable : aReachable av5.
Proof.
  assert (aReachable av0) as H0 by (exists (Some (MkEpoch 1 1)), 0; apply rtc_refl).
  assert (aReachable av1) as H1 by (eapply astep_r; [exact H0|by apply (as_write av0 shopAuditor "a1" 5 priceChange "a1")]).
  assert (aReachable av2) as H2 by (eapply astep_r; [exact H1|by apply (as_number av1 1%nat)]).
  assert (aReachable av3) as H3 by (eapply astep_r; [exact H2|apply (as_settle av2 [priceReceipt])]).
  assert (aReachable av4) as H4 by (eapply astep_r; [exact H3|by apply (as_time av3 (Some (MkEpoch 1 1)) (MinRetention + 1))]).
  eapply astep_r; [exact H4|by apply (as_purge av4 backup [] au5)].
Qed.

(** The restricted amount is in the record by its digest only. *)
Example restricted_masked : mask shopAuditor priceChange = Some [("amount", Str (digestOf (Str "7")))].
Proof. by vm_compute. Qed.

Lemma purge_reference_witness : log_ au5 = omap (fateRow backup (anow au4)) (log_ au4) ∧ log_ au5 = ∅ ∧ log_ au4 ≠ ∅.
Proof. split; [apply (purge_reference backup [] au4 au5); [done|by vm_compute]|]. split; by vm_compute. Defined.

Lemma audit_never_lost_witness :
  ∃ x, x ∈ v_written av5 ∧
  ((∃ o r, log_ (v_store av5) !! o = Some r ∧ entryOf r = x) ∨
   ∃ w c, w ∈ v_purges av5 ∧ c ∈ v_receipts av5 ∧ rc_ID c = x.1.1 ∧ rc_Status c = "received" ∧ covers w (rc_Epoch c) (rc_Seq c) = true).
Proof.
  assert (∃ x, v_written av5 = [x]) as [x Hx] by (eexists; by vm_compute).
  exists x. split; [rewrite Hx; left|]. apply audit_never_lost; [apply av5_reachable|]. rewrite Hx. left.
Defined.

Definition salaryRead : ARecord := MkARecord "" "shop.salary.read" "succeeded" "" "ann" "" None None None.
Definition answering (ws : list Wire) : option (list AReceipt) := Some (map (λ w, MkAReceipt (wi_ID w) "received" "1.1" (wi_Seq w) "c") ws).

Lemma read_recorded_witness :
  let s' := (ReadA shopAuditor (Some answering) "r1" 5 salaryRead (v_store av0)).2 in
  ∃ o row, log_ s' !! o = Some row ∧ l_id row = "r1" ∧ l_state row = Received.
Proof.
  cbn zeta. set (s' := (ReadA _ _ _ _ _ _).2).
  destruct (read_recorded shopAuditor (Some answering) "r1" 5 salaryRead (v_store av0) s') as (o & row & Hl & Hid & Hst).
  - apply injective_projections; by vm_compute.
  - exists o, row. split; [done|]. split; [done|]. apply Hst. apply (bool_decide_unpack _). by vm_compute.
Defined.

(** *** Twenty-two denials, the last of them after the summary *)

Definition denied : ARecord := MkARecord "" "shop.price.set" "" "NOT_ALLOWED" "bob" "" None None None.
Definition deny (n : nat) (at_ : Z) (v : asys) : asys :=
  let s := runA (Denial shopAuditor (FormatInt (Z.of_nat n)) at_ denied) (v_store v) in
  MkASys s (v_written v ++ newEntries (v_store v) s) (v_receipts v) (v_purges v) (v_denials v ++ [denialKey denied at_])
    (v_details v ++ map (λ _, denialKey denied at_) (newEntries (v_store v) s)) (v_summaries v).
Fixpoint denyMany (n : nat) (v : asys) : asys := match n with O => v | S n => deny n 7 (denyMany n v) end.
Definition dv1 : asys := denyMany 21 av0.
Definition timeTo (now : Z) (v : asys) : asys :=
  MkASys (MkAStore (log_ (v_store v)) (counterEpoch (v_store v)) (counterLast (v_store v)) (budget (v_store v))
            (nextOrd (v_store v)) (epochNow (v_store v)) now)
    (v_written v) (v_receipts v) (v_purges v) (v_denials v) (v_details v) (v_summaries v).
Definition flushed (at_ : Z) (locked : list (string * string * Z)) (v : asys) : asys :=
  let s := runA (Flush shopAuditor (λ _, "sum") at_ locked) (v_store v) in
  MkASys s (v_written v ++ newEntries (v_store v) s) (v_receipts v) (v_purges v) (v_denials v) (v_details v)
    (v_summaries v ++ map (λ x, (x.1, w_overflow x.2)) (toSummarize locked (v_store v))).
Definition dv2 : asys := timeTo (2 * Minute) dv1.
Definition dv3 : asys := flushed (2 * Minute) [denialKey denied 7] dv2.
(** A denial read its clock in the minute before, and commits after the summary. *)
Definition dv4 : asys := deny 30 8 dv3.

Lemma deny_step n at_ v :
  (∃ s, Denial shopAuditor (FormatInt (Z.of_nat n)) at_ denied (v_store v) = Ok (tt, s)) → astep v (deny n at_ v).
Proof. intros [s Hs]. unfold deny, runA, after, commit. rewrite Hs. cbn [snd]. exact (as_denial v shopAuditor _ at_ denied s Hs). Qed.

Lemma Denial_succeeds n at_ (s : astore) : ∃ s', Denial shopAuditor (FormatInt (Z.of_nat n)) at_ denied s = Ok (tt, s').
Proof.
  unfold Denial. rewrite tbind_get, tbind_mod. case_decide; [|by eexists]. unfold tbind, insertA. cbn -[Seal].
  match goal with |- context [Seal ?t ?v] => assert (∃ x, Seal t v = Some x) as [[raw d] ->] end; [|by eexists].
  unfold Seal, Encode. rewrite encode_print. cbn -[print]. by eexists.
Qed.

Lemma dv1_reachable : aReachable dv1.
Proof.
  unfold dv1. generalize 21%nat. intros m. induction m as [|n IH]; [exists (Some (MkEpoch 1 1)), 0; apply rtc_refl|].
  eapply astep_r; [exact IH|]. apply deny_step, Denial_succeeds.
Qed.

Lemma timeTo_step now v : anow (v_store v) ≤ now → astep v (timeTo now v).
Proof. apply as_time. Qed.
Lemma flushed_step at_ locked v :
  match Flush shopAuditor (λ _, "sum") at_ locked (v_store v) with Ok _ => True | Err _ => False end → astep v (flushed at_ locked v).
Proof.
  unfold flushed, runA, after, commit. destruct (Flush _ _ at_ locked (v_store v)) as [[n s]|] eqn:Hs; [|done]. intros _. cbn [snd].
  exact (as_flush v shopAuditor _ at_ locked n s Hs).
Qed.

Lemma dv2_reachable : aReachable dv2.
Proof. apply (astep_r dv1); [exact dv1_reachable|]. apply (timeTo_step (2 * Minute) dv1). by vm_compute. Qed.
Lemma dv3_reachable : aReachable dv3.
Proof. apply (astep_r dv2); [exact dv2_reachable|]. apply (flushed_step (2 * Minute) [denialKey denied 7] dv2). by vm_compute. Qed.
Lemma dv4_reachable : aReachable dv4.
Proof. apply (astep_r dv3); [exact dv3_reachable|]. apply (deny_step 30 8 dv3), Denial_succeeds. Qed.

Lemma denials_accounted_witness :
  let k := denialKey denied 7 in
  countK k (v_denials dv4) = 22 ∧ countK k (v_details dv4) ≤ DenialBudget ∧
  countK k (v_details dv4) + match budget (v_store dv4) !! k with Some w => w_overflow w | None => 0 end = countK k (v_denials dv4).
Proof.
  cbn zeta. destruct (denials_accounted dv4 (denialKey denied 7) dv4_reachable) as (H1 & H2 & _). split; [by vm_compute|]. split; [exact H1|exact H2].
Defined.

(** A denial that commits after its minute was summarized is neither recorded nor in the
    summary: two went past the budget, the one summary says one, and no flush will write
    another. *)
Theorem late_denial_uncounted :
  let k := denialKey denied 7 in
  aReachable dv4 ∧ countK k (v_denials dv4) = 22 ∧ countK k (v_details dv4) = 20 ∧ v_summaries dv4 = [(k, 1)] ∧
  ∃ w, budget (v_store dv4) !! k = Some w ∧ w_overflow w = 2 ∧ ∀ now, finished now k w = false.
Proof.
  cbn zeta. split; [apply dv4_reachable|]. split; [by vm_compute|]. split; [by vm_compute|]. split; [by vm_compute|]. eexists. split; [by vm_compute|].
  split; [done|]. intros now. done.
Qed.
