(* ===== verification/EventsProgress.v ===== *)
(** * Events: how far a subscription is

    events/progress.go: the cut of a subscription's runs, [ProgressOf] over inbox rows in
    memory and [Progress] over the database, which reads the same with aggregates and a
    sorted distinct query.  The two agree, and the progress of a partition is its largest
    position handled at or before the cut. *)
From S2P Require Import Prelude GoStr EventsStream EventsEnvelope EventsOutbox EventsSys EventsOrder EventsQueue EventsBus.
From Stdlib Require Import Ascii String.
Open Scope string_scope.
Open Scope Z_scope.
Open Scope list_scope.

Definition DeliveryLifetime : Z := 10 * Minute.

(** ** Positions of a source *)

Record SourceKey := MkSourceKey { sk_Component : string; sk_Impl : string; sk_Stream : string; sk_Partition : Z }.
#[export] Instance SourceKey_eq_dec : EqDecision SourceKey.
Proof. solve_decision. Defined.
#[export] Instance SourceKey_countable : Countable SourceKey.
Proof.
  refine (inj_countable' (λ k, (sk_Component k, sk_Impl k, sk_Stream k, sk_Partition k))
    (λ '(c, i, s, n), MkSourceKey c i s n) _). by intros [].
Defined.

Record Handled := MkHandled { h_Key : SourceKey; h_Pos : option Point; h_At : Z }.

(** ** The cut *)

(** [cutOf]'s loop from the latest run down; [later] is the start of the run after. *)
Fixpoint cutFrom (lastIn : Z → option Z → option Z) (lifetime : Z) (later : option Z) (starts : list Z) : option Z :=
  match starts with
  | [] => None
  | start :: starts =>
      match lastIn start later with
      | Some last => if bool_decide (last - lifetime < start) then cutFrom lastIn lifetime (Some start) starts
                     else Some (last - lifetime)
      | None => cutFrom lastIn lifetime (Some start) starts
      end
  end.
Definition cutOf (runs : list Z) (lastIn : Z → option Z → option Z) (lifetime : Z) : option Z :=
  cutFrom lastIn lifetime None (reverse (merge_sort Z.le runs)).

(** Whether a handling is in a run. *)
Definition inRun (from : Z) (to : option Z) (t : Z) : bool :=
  bool_decide (from ≤ t) && match to with None => true | Some u => bool_decide (t < u) end.

(** The last handling in a run, as [ProgressOf] finds it. *)
Definition lastHandled (at_ : list Z) (from : Z) (to : option Z) : option Z :=
  foldl (λ last t, if inRun from to t && match last with None => true | Some l => bool_decide (l < t) end
                   then Some t else last) None at_.

(** ** Progress in memory *)

(** One row of [ProgressOf]'s loop. *)
Definition noteHandled (cut : Z) (out : gmap SourceKey Point) (r : Handled) : gmap SourceKey Point :=
  match h_Pos r with
  | None => out
  | Some p =>
      if bool_decide (cut < h_At r) then out
      else match out !! h_Key r with
           | Some cur => if pointLess cur p then <[h_Key r := p]> out else out
           | None => <[h_Key r := p]> out
           end
  end.
Definition ProgressOf (runs : list Z) (rows : list Handled) (lifetime : Z) : gmap SourceKey Point :=
  match cutOf runs (lastHandled (map h_At rows)) lifetime with
  | None => ∅
  | Some cut => foldl (noteHandled cut) ∅ rows
  end.

(** ** Progress from the database *)

(** be_inbox and be_subscription_run. *)
Record progressDb := MkProgressDb { g_inbox : gmap (string * string) inboxRow; g_runs : list (string * Z) }.

(** [StartRun]. *)
Definition StartRun (subscription : string) (now : Z) (d : progressDb) : progressDb :=
  MkProgressDb (g_inbox d) (g_runs d ++ [(subscription, now)]).

Definition keyOf (r : inboxRow) : SourceKey := MkSourceKey (n_component r) (n_impl r) (n_stream r) (n_partition r).
(** A subscription's inbox rows. *)
Definition inboxRows (d : progressDb) (subscription : string) : list inboxRow :=
  map snd (filter (λ x, x.1.1 = subscription) (map_to_list (g_inbox d))).
Definition handledOf (r : inboxRow) : Handled := MkHandled (keyOf r) (n_pos r) (n_at r).

(** SELECT max(processed_at) ... *)
Definition sqlMax (l : list Z) : option Z := foldr (λ t m, Some (match m with Some u => Z.max t u | None => t end)) None l.
Definition lastIn (d : progressDb) (subscription : string) (from : Z) (to : option Z) : option Z :=
  sqlMax (filter (λ t, inRun from to t) (map n_at (inboxRows d subscription))).

(** SELECT DISTINCT ON (source) ... ORDER BY source, position DESC: the first row of each
    source in descending order of position.  The order of the sources does not matter to
    the map the rows are read into. *)
Definition descLe (x y : SourceKey * Point) : Prop := pointLe y.2 x.2.
#[export] Instance descLe_dec x y : Decision (descLe x y).
Proof. unfold descLe. apply _. Defined.
Definition before (d : progressDb) (subscription : string) (cut : Z) : list (SourceKey * Point) :=
  omap (λ r, match n_pos r with
             | Some p => if bool_decide (n_at r ≤ cut) then Some (keyOf r, p) else None
             | None => None
             end) (inboxRows d subscription).
Definition distinctOn (l : list (SourceKey * Point)) : list (SourceKey * Point) :=
  foldr (λ x out, x :: filter (λ y, y.1 ≠ x.1) out) [] l.

(** [Progress]. *)
Definition runsOf (d : progressDb) (subscription : string) : list Z :=
  map snd (filter (λ x, x.1 = subscription) (g_runs d)).
Definition Progress (d : progressDb) (subscription : string) (lifetime : Z) : gmap SourceKey Point :=
  match cutOf (merge_sort Z.le (runsOf d subscription)) (lastIn d subscription) lifetime with
  | None => ∅
  | Some cut => list_to_map (distinctOn (merge_sort descLe (before d subscription cut)))
  end.

(** ** The largest position of each source *)

Definition topOf (l : list (SourceKey * Point)) (k : SourceKey) (p : Point) : Prop :=
  (k, p) ∈ l ∧ ∀ q, (k, q) ∈ l → pointLe q p.

Lemma topOf_unique l k p q : topOf l k p → topOf l k q → p = q.
Proof. intros [H1 H2] [H3 H4]. apply pointLess_total; [by apply H2|by apply H4]. Qed.
Lemma topOf_perm l l' k p : l ≡ₚ l' → topOf l k p → topOf l' k p.
Proof. intros Hp [H1 H2]. split; [by rewrite <- Hp|]. intros q. rewrite <- Hp. apply H2. Qed.

Lemma distinctOn_map l : (list_to_map (distinctOn l) : gmap SourceKey Point) = list_to_map l.
Proof.
  induction l as [|[k p] l IH]; [done|]. cbn [distinctOn foldr list_to_map fst snd]. fold (distinctOn l). rewrite <- IH. clear IH. apply map_eq. intros k'.
  destruct (decide (k = k')) as [->|Hne]; [by rewrite !lookup_insert_eq|]. rewrite !lookup_insert_ne by done.
  induction (distinctOn l) as [|[k1 q] out IH]; [done|]. rewrite filter_cons. case_decide as Hk; cbn in *.
  - destruct (decide (k1 = k')) as [->|]; [by rewrite !lookup_insert_eq|]. by rewrite !lookup_insert_ne, IH.
  - subst. by rewrite lookup_insert_ne, IH.
Qed.

#[export] Instance descLe_trans : Transitive descLe.
Proof. intros x y z H1 H2. exact (pointLe_trans _ _ _ H2 H1). Qed.
#[export] Instance descLe_total : Total descLe.
Proof. intros [k p] [k' q]. unfold descLe. cbn. destruct (rowLe_total (0, q) (0, p)); [by left|by right]. Qed.

Lemma sorted_top l k p : StronglySorted descLe l → (list_to_map l : gmap SourceKey Point) !! k = Some p ↔ topOf l k p.
Proof.
  intros Hs. induction Hs as [|[k1 q] l Hs IH Hf]; cbn.
  - split; [by rewrite lookup_empty|]. intros [?%elem_of_nil _]. done.
  - unfold topOf. setoid_rewrite elem_of_cons. destruct (decide (k1 = k)) as [->|Hne].
    + rewrite lookup_insert_eq. rewrite Forall_forall in Hf. split.
      * intros [= ->]. split; [by left|]. intros q' [[= ->]|Hin]; [apply pointLe_refl|]. by apply (Hf _ Hin).
      * intros [[[= ->]|Hin] Htop]; [done|]. f_equal. apply pointLess_total; [by apply (Hf _ Hin)|]. apply Htop. by left.
    + rewrite lookup_insert_ne, IH by done. unfold topOf. split; intros [H1 H2]; split; eauto.
      * intros q' [[= -> ->]|?]; [done|eauto].
      * destruct H1 as [[= -> ->]|?]; done.
Qed.

(** The rows [noteHandled] counts. *)
Definition counted (cut : Z) (rows : list Handled) : list (SourceKey * Point) :=
  omap (λ r, match h_Pos r with
             | Some p => if bool_decide (h_At r ≤ cut) then Some (h_Key r, p) else None
             | None => None
             end) rows.

#[export] Instance counted_perm cut : Proper ((≡ₚ) ==> (≡ₚ)) (counted cut).
Proof. intros l l' Hl. unfold counted. by rewrite Hl. Qed.

Lemma topOf_snoc l k q k' p : topOf (l ++ [(k, q)]) k' p ↔
  (k ≠ k' ∧ topOf l k' p) ∨ (k = k' ∧ ((p = q ∧ ∀ r, (k, r) ∈ l → pointLe r q) ∨ (pointLe q p ∧ topOf l k p))).
Proof.
  unfold topOf. setoid_rewrite elem_of_app. setoid_rewrite list_elem_of_singleton. split.
  - intros [[Hin|[= <- <-]] Ht].
    + destruct (decide (k = k')) as [->|]; [|left; naive_solver]. right. split; [done|]. right. naive_solver.
    + right. split; [done|]. left. naive_solver.
  - intros [[Hne [H1 H2]]|[<- [[-> H]|[Hq [H1 H2]]]]].
    + split; [by left|]. intros r [?|[= -> ->]]; naive_solver.
    + split; [by right|]. intros r [?|[= ->]]; [by apply H|apply pointLe_refl].
    + split; [by left|]. intros r [?|[= ->]]; [by apply H2|done].
Qed.

Lemma handled_snoc cut rows r : counted cut (rows ++ [r]) = counted cut rows ++ counted cut [r].
Proof. apply omap_app. Qed.

Lemma noteHandled_fold cut rows :
  (∀ k p, foldl (noteHandled cut) ∅ rows !! k = Some p → topOf (counted cut rows) k p) ∧
  (∀ k p, (k, p) ∈ counted cut rows → is_Some (foldl (noteHandled cut) ∅ rows !! k)).
Proof.
  induction rows as [|r rows [IH1 IH2]] using rev_ind.
  { cbn. split; intros k p; [by rewrite lookup_empty|]. intros ?%elem_of_nil. done. }
  rewrite foldl_snoc, handled_snoc. unfold noteHandled at 1 3. unfold counted at 2 4. cbn.
  destruct (h_Pos r) as [q|]; cbn; [|by rewrite app_nil_r]. case_bool_decide as Hc; case_bool_decide as Hc'; try lia; cbn.
  { by rewrite app_nil_r. }
  set (out := foldl (noteHandled cut) ∅ rows) in *. set (k0 := h_Key r).
  setoid_rewrite topOf_snoc. setoid_rewrite elem_of_app. setoid_rewrite list_elem_of_singleton.
  destruct (out !! k0) as [cur|] eqn:Ho; [destruct (pointLess cur q) eqn:Hl|]; split.
  - intros k p. destruct (decide (k0 = k)) as [<-|Hne]; [|rewrite lookup_insert_ne by done; eauto].
    rewrite lookup_insert_eq. intros [= <-]. right. split; [done|]. left. split; [done|]. intros x Hx.
    eapply pointLe_trans; [by apply (IH1 _ _ Ho)|by apply pointLt_le].
  - intros k p Hin. destruct (decide (k0 = k)) as [<-|Hne]; [by rewrite lookup_insert_eq|rewrite lookup_insert_ne by done].
    destruct Hin as [?|[= ]]; [eauto|done].
  - intros k p Hk. destruct (decide (k0 = k)) as [<-|Hne]; [|eauto]. right. split; [done|]. right.
    rewrite Ho in Hk. simplify_eq. eauto.
  - intros k p [Hin|[= -> ->]]; eauto.
  - intros k p. destruct (decide (k0 = k)) as [<-|Hne]; [|rewrite lookup_insert_ne by done; eauto].
    rewrite lookup_insert_eq. intros [= <-]. right. split; [done|]. left. split; [done|]. intros x Hx%IH2.
    rewrite Ho in Hx. by destruct Hx.
  - intros k p Hin. destruct (decide (k0 = k)) as [<-|Hne]; [by rewrite lookup_insert_eq|rewrite lookup_insert_ne by done].
    destruct Hin as [?|[= ]]; [eauto|done].
Qed.

Lemma noteHandled_top cut rows k p : foldl (noteHandled cut) ∅ rows !! k = Some p ↔ topOf (counted cut rows) k p.
Proof.
  destruct (noteHandled_fold cut rows) as [H1 H2]. split; [apply H1|]. intros Ht.
  destruct (H2 k p (proj1 Ht)) as [q Hq]. rewrite Hq. f_equal. by eapply topOf_unique; [apply H1|].
Qed.

(** ** The last handling *)

Definition optMax (a b : option Z) : option Z :=
  match a, b with Some x, Some y => Some (Z.max x y) | Some x, None => Some x | None, _ => b end.

Lemma sqlMax_cons t l : sqlMax (t :: l) = optMax (Some t) (sqlMax l).
Proof. unfold sqlMax. cbn [foldr]. by destruct (foldr _ None l). Qed.

Lemma lastHandled_acc at_ from to acc :
  foldl (λ last t, if inRun from to t && match last with None => true | Some l => bool_decide (l < t) end
                   then Some t else last) acc at_ = optMax acc (sqlMax (filter (λ t, inRun from to t) at_)).
Proof.
  revert acc. induction at_ as [|t at_ IH]; intros acc; cbn [foldl]; [by destruct acc|]. rewrite IH, filter_cons.
  destruct (inRun from to t); cbn [andb]; [|done]. rewrite decide_True by done. rewrite sqlMax_cons.
  destruct (sqlMax _) as [m|], acc as [l|]; try case_bool_decide; apply (f_equal Some); lia.
Qed.
Lemma lastHandled_max at_ from to : lastHandled at_ from to = sqlMax (filter (λ t, inRun from to t) at_).
Proof. unfold lastHandled. by rewrite lastHandled_acc. Qed.

Lemma sqlMax_perm l l' : l ≡ₚ l' → sqlMax l = sqlMax l'.
Proof.
  induction 1 as [|x l l' _ IH|x y l|l l2 l3 _ IH1 _ IH2]; [done|by rewrite !sqlMax_cons, IH| |by rewrite IH1].
  rewrite !sqlMax_cons. destruct (sqlMax l); apply (f_equal Some); lia.
Qed.

Lemma cutFrom_ext f g lifetime later starts : (∀ a b, f a b = g a b) → cutFrom f lifetime later starts = cutFrom g lifetime later starts.
Proof. intros He. revert later. induction starts as [|s l IH]; intros later; [done|]. cbn. rewrite He. by rewrite !IH. Qed.

Lemma cutOf_perm f runs runs' lifetime : runs ≡ₚ runs' → cutOf runs f lifetime = cutOf runs' f lifetime.
Proof.
  intros Hp. unfold cutOf. assert (Hs : merge_sort Z.le runs = merge_sort Z.le runs'); [|by rewrite Hs].
  eapply (StronglySorted_unique Z.le); [apply StronglySorted_merge_sort; apply _..|]. by rewrite !merge_sort_Permutation.
Qed.

Lemma before_counted d sub cut : before d sub cut = counted cut (map handledOf (inboxRows d sub)).
Proof. unfold before, counted. induction (inboxRows d sub) as [|r l IH]; [done|]. cbn. destruct (n_pos r); [case_bool_decide|]; by rewrite IH. Qed.

(** C27. Reading the progress from the database is [ProgressOf] over the subscription's runs and
    inbox rows, whatever order the database holds them in. *)
Theorem progress_agrees d sub lifetime runs rows :
  runs ≡ₚ runsOf d sub → rows ≡ₚ map handledOf (inboxRows d sub) → Progress d sub lifetime = ProgressOf runs rows lifetime.
Proof.
  intros Hr Hh. unfold Progress, ProgressOf.
  assert (Hc : cutOf (merge_sort Z.le (runsOf d sub)) (lastIn d sub) lifetime = cutOf runs (lastHandled (map h_At rows)) lifetime).
  { rewrite (cutOf_perm _ _ runs) by (by rewrite merge_sort_Permutation, Hr). apply cutFrom_ext. intros a b.
    rewrite lastHandled_max. unfold lastIn. apply sqlMax_perm. rewrite Hh, map_map. done. }
  rewrite Hc. destruct (cutOf runs _ lifetime) as [cut|]; [|done]. apply map_eq. intros k. apply option_eq. intros p.
  rewrite distinctOn_map, sorted_top, noteHandled_top by (apply StronglySorted_merge_sort; apply _).
  assert (Hp : merge_sort descLe (before d sub cut) ≡ₚ counted cut rows).
  { rewrite merge_sort_Permutation, before_counted, Hh. done. }
  split; by apply topOf_perm.
Qed.

(** ** A concrete member *)

Definition stockInbox : gmap (string * string) inboxRow := list_to_map
  [(("stock", "e1"), MkInboxRow "acme/erp" "i1" "erp.stock" 0 (Some (MkPoint (MkEpoch 1 1) 4)) (10 * Minute));
   (("stock", "e2"), MkInboxRow "acme/erp" "i1" "erp.stock" 0 (Some (MkPoint (MkEpoch 1 1) 5)) (11 * Minute));
   (("stock", "e3"), MkInboxRow "acme/erp" "i1" "erp.stock" 0 (Some (MkPoint (MkEpoch 1 1) 6)) (22 * Minute));
   (("sales", "e1"), MkInboxRow "acme/erp" "i1" "erp.stock" 0 (Some (MkPoint (MkEpoch 1 1) 4)) (11 * Minute))].
Definition stockProgress : progressDb := StartRun "stock" (25 * Minute) (StartRun "stock" Minute (MkProgressDb stockInbox [])).

Lemma progress_agrees_witness :
  Progress stockProgress "stock" DeliveryLifetime =
  ProgressOf [25 * Minute; Minute] (map handledOf (inboxRows stockProgress "stock")) DeliveryLifetime.
Proof. apply (progress_agrees stockProgress "stock"); [apply perm_swap|done]. Defined.

(** The run of 25 minutes handled nothing yet; of the one before, what was handled ten
    minutes before its last handling counts. *)
Example stockProgress_at :
  Progress stockProgress "stock" DeliveryLifetime !! MkSourceKey "acme/erp" "i1" "erp.stock" 0 = Some (MkPoint (MkEpoch 1 1) 5) ∧
  Progress stockProgress "sales" DeliveryLifetime = ∅.
Proof. by vm_compute. Qed.
