(* ===== verification/EventsResend.v ===== *)
(** * Events: sending a partition again

    events/resend.go over the outbox of [EventsOutbox]: [Resender.Resend] judges each
    partition of a stream against the asked start and sends its published rows after it
    again, a batch in each transaction, in position order.  The database a transaction
    finds is an argument, so that forwarders, numbering and purges go on between two
    transactions. *)
From S2P Require Import Prelude GoStr EventsStream EventsEnvelope EventsOutbox EventsSys EventsOrder.
From Stdlib Require Import Ascii String.
Open Scope string_scope.
Open Scope Z_scope.
Open Scope list_scope.

(** ** Requests and answers *)

Record Position := MkPosition { ps_Impl : string; ps_Epoch : string; ps_Seq : Z }.
Record PartitionFrom := MkPartitionFrom { pf_Partition : Z; pf_After : option Position }.
Record ResendRequest := MkResendRequest { rq_Stream : string; rq_RequestId : string; rq_From : list PartitionFrom }.
Record ResendResponse := MkResendResponse { rp_Resent : Z; rp_Beyond : list Z; rp_Ahead : list Z }.

(** Why a request is refused or stops; [JudgeFailed] is the database's error. *)
Inductive rserr := NoSuchStream | NoSuchPartition | BadEpoch | JudgeFailed | Stopped.

Record Resender := MkResender { rs_Producer : Producer; rs_Source : string; rs_Impl : string; rs_Batch : Z }.

Definition DefaultBatch : nat := 500.
Definition batchOf (r : Resender) : nat := if decide (rs_Batch r ≤ 0) then DefaultBatch else Z.to_nat (rs_Batch r).

(** The starts of a request; a position of another instance is no start. *)
Fixpoint starts (impl : string) (partitions : Z) (l : list PartitionFrom) (from : gmap Z Point) : res rserr (gmap Z Point) :=
  match l with
  | [] => Ok from
  | f :: l =>
      if decide (partitions ≤ pf_Partition f) then Err NoSuchPartition
      else match pf_After f with
           | None => starts impl partitions l from
           | Some a =>
               if decide (ps_Impl a ≠ impl) then starts impl partitions l from
               else match ParseEpoch (ps_Epoch a) with
                    | Err _ => Err BadEpoch
                    | Ok e => starts impl partitions l (<[pf_Partition f := MkPoint e (int64 (ps_Seq a))]> from)
                    end
           end
  end.

(** ** Judging a start *)

(** [Resender.judge]: whether rows after the start were purged, and whether the start is
    past what the partition has. *)
Definition judge (s : store) (sp : streamPart) (after : option Point) : bool * bool :=
  match counters s !! sp with
  | None => (false, bool_decide (after ≠ None))
  | Some c =>
      let beyond := match c_purged c with
                    | Some purged => match after with None => true | Some a => pointLess a purged end
                    | None => false
                    end in
      match after with
      | None => (beyond, false)
      | Some a =>
          if bool_decide (c_epoch c = Some (pt_Epoch a)) then (beyond, bool_decide (c_last c < pt_Seq a))
          else match List.find (λ f, bool_decide (fk_part f = sp ∧ fk_old f = pt_Epoch a)) (history s) with
               | None => (beyond, true)
               | Some f => (beyond, bool_decide (fk_seq f < pt_Seq a))
               end
      end
  end.

(** ** Sending *)

Definition afterStart (after : option Point) (p : Point) : bool :=
  match after with None => true | Some a => pointLess a p end.
Definition resendable (after : option Point) (r : orow) (p : Point) : bool :=
  negb (bool_decide (o_published r = None)) && afterStart after p.
(** One batch of published rows after the start. *)
Definition readAfter (s : store) (sp : streamPart) (after : option Point) (batch : nat) : list (Z * Point) :=
  take batch (merge_sort rowLe (positions (resendable after) s sp)).
Definition scanRows (s : store) (l : list (Z * Point)) : list (Z * Point * Row) :=
  omap (λ '(o, p), (λ r, (o, p, o_row r)) <$> outbox s !! o) l.

Definition withMsgID (id : string) (m : Message) : Message := MkMessage (m_Subject m) (m_Headers m) (m_Data m) id.

Section resender.
Context `{Codec} (r : Resender).
(** The database as the i-th transaction finds it, none when the transaction fails; and
    whether the transport accepts the i-th message. *)
Variables (dbs : nat → option store) (accepts : nat → Z → bool).

(** The loop over one batch: the start after it, the rows sent, whether it failed. *)
Fixpoint sendRows (request : string) (rows : list (Z * Point * Row)) (after : option Point) (log : list (Z * Message))
  : option Point * nat * bool * list (Z * Message) :=
  match rows with
  | [] => (after, O, false, log)
  | (o, p, row) :: rows =>
      match messageOf (rs_Producer r) row p (rs_Source r) (rs_Impl r) with
      | Err _ => (after, O, true, log)
      | Ok (m, _) =>
          if accepts (List.length log) o then
            let m := withMsgID (r_EventID row ++ "/resend/" ++ request)%string m in
            let '(after, sent, failed, log) := sendRows request rows (Some p) (log ++ [(o, m)]) in (after, S sent, failed, log)
          else (after, O, true, log)
      end
  end.

(** [Resender.partition]: the next transaction, the rows sent, whether it failed; [fuel]
    bounds the batches. *)
Fixpoint resendPartition (fuel tx : nat) (request : string) (sp : streamPart) (after : option Point) (log : list (Z * Message))
  : option (nat * nat * bool * list (Z * Message)) :=
  match fuel with
  | O => None
  | S fuel =>
      match dbs tx with
      | None => Some (S tx, O, true, log)
      | Some s =>
          let rows := scanRows s (readAfter s sp after (batchOf r)) in
          let '(after, sent, failed, log) := sendRows request rows after log in
          if failed then Some (S tx, sent, true, log)
          else if bool_decide (List.length rows < batchOf r)%nat then Some (S tx, sent, false, log)
          else match resendPartition fuel (S tx) request sp after log with
               | None => None
               | Some (tx, sent', failed, log) => Some (tx, (sent + sent')%nat, failed, log)
               end
      end
  end.

(** The loop of [Resend] over the partitions. *)
Fixpoint resendAll (fuel tx : nat) (request stream : string) (from : gmap Z Point) (ns : list Z) (out : ResendResponse)
    (log : list (Z * Message)) : option (res rserr ResendResponse * list (Z * Message)) :=
  match ns with
  | [] => Some (Ok out, log)
  | n :: ns =>
      match dbs tx with
      | None => Some (Err JudgeFailed, log)
      | Some s =>
          let '(beyond, ahead) := judge s (stream, n) (from !! n) in
          let out := if beyond then MkResendResponse (rp_Resent out) (rp_Beyond out ++ [n]) (rp_Ahead out) else out in
          if ahead then resendAll fuel (S tx) request stream from ns (MkResendResponse (rp_Resent out) (rp_Beyond out) (rp_Ahead out ++ [n])) log
          else match resendPartition fuel (S tx) request (stream, n) (from !! n) log with
               | None => None
               | Some (tx, sent, failed, log) =>
                   let out := MkResendResponse (uint64 (rp_Resent out + Z.of_nat sent)) (rp_Beyond out) (rp_Ahead out) in
                   if failed then Some (Err Stopped, log) else resendAll fuel tx request stream from ns out log
               end
      end
  end.

(** [Producer.Streams] and the search in it. *)
Definition streamOf (p : Producer) (name : string) : option Stream :=
  snd <$> List.find (λ x, bool_decide (st_Name x.2 = name)) (map_to_list (pr_streams p)).

(** [Resender.Resend]; [fresh] is the identity given to a request without one. *)
Definition Resend (fuel : nat) (fresh : string) (req : ResendRequest) (log : list (Z * Message))
  : option (res rserr ResendResponse * list (Z * Message)) :=
  match streamOf (rs_Producer r) (rq_Stream req) with
  | None => Some (Err NoSuchStream, log)
  | Some st =>
      let request := if decide (rq_RequestId req = "") then fresh else rq_RequestId req in
      match starts (rs_Impl r) (st_Partitions st) (rq_From req) ∅ with
      | Err e => Some (Err e, log)
      | Ok from => resendAll fuel O request (st_Name st) from (seqZ 0 (st_Partitions st)) (MkResendResponse 0 [] []) log
      end
  end.

End resender.
