(* ===== verification/EventsResendProps.v ===== *)
(** * Events: a redelivery is complete

    What the counters, the purge marks and the history of forks say of the positions a
    partition gave, so that [judge] is exact; and that [Resend] sends every published row
    after its start, in position order, or names the partition. *)
From S2P Require Import Prelude GoStr EventsStream EventsEnvelope EventsOutbox EventsSys EventsOrder EventsForward EventsResend.
From Stdlib Require Import Ascii String.
Open Scope string_scope.
Open Scope Z_scope.
Open Scope list_scope.

(** ** What the counters and the history say *)

(** Every epoch that numbered rows of a partition is its counter's or ended by a fork; a
    purge mark is the position of a row that is gone. *)
Record markInv (y : sys) : Prop := {
  mi_epoch : ∀ sp p o, (sp, p, o) ∈ y_numbered y →
    (∃ c, counters (y_db y) !! sp = Some c ∧ c_epoch c = Some (pt_Epoch p)) ∨
    (∃ f, f ∈ history (y_db y) ∧ fk_part f = sp ∧ fk_old f = pt_Epoch p);
  mi_purged : ∀ sp c pp, counters (y_db y) !! sp = Some c → c_purged c = Some pp →
    ∃ o, (sp, pp, o) ∈ y_numbered y ∧ outbox (y_db y) !! o = None }.

(** Steps that number nothing and leave the purge marks. *)
Lemma mark_keep y y' :
  markInv y → y_numbered y' = y_numbered y → history (y_db y') = history (y_db y) →
  (∀ sp c, counters (y_db y) !! sp = Some c → ∃ c', counters (y_db y') !! sp = Some c' ∧ c_epoch c' = c_epoch c) →
  (∀ sp c', counters (y_db y') !! sp = Some c' → c_purged c' = None ∨
     ∃ c, counters (y_db y) !! sp = Some c ∧ c_purged c' = c_purged c) →
  (∀ sp p o, (sp, p, o) ∈ y_numbered y → outbox (y_db y) !! o = None → outbox (y_db y') !! o = None) → markInv y'.
Proof.
  intros I Hn Hh Hc Hp Ho. split; rewrite ?Hn, ?Hh.
  - intros sp p o Hin. destruct (mi_epoch _ I _ _ _ Hin) as [(c & H1 & H2)|?]; [left|by right].
    destruct (Hc _ _ H1) as (c' & H3 & H4). exists c'. by rewrite H4.
  - intros sp c' pp H1 H2. destruct (Hp _ _ H1) as [?|(c & H3 & H4)]; [congruence|].
    destruct (mi_purged _ I sp c pp H3) as (o & H5 & H6); [congruence|]. exists o. split; [done|]. by eapply Ho.
Qed.

Lemma noteTop_of (m : gmap Z orow) sp q :
  map_fold (λ _ r, noteTop r) ∅ m !! sp = Some q → ∃ o r, m !! o = Some r ∧ o_pos r = Some q ∧ partOf r = sp.
Proof.
  revert sp q. apply (map_fold_weak_ind (λ top m, ∀ sp q, top !! sp = Some q → ∃ o r, m !! o = Some r ∧ o_pos r = Some q ∧ partOf r = sp)).
  - intros sp q. by rewrite lookup_empty.
  - intros o0 r0 m0 top Hno IH sp q Hq.
    assert (Hold : top !! sp = Some q → ∃ o r, <[o0:=r0]> m0 !! o = Some r ∧ o_pos r = Some q ∧ partOf r = sp).
    { intros (o & r & H1 & H2)%IH. exists o, r. split; [|done]. rewrite lookup_insert_ne by congruence. done. }
    assert (Hnew : ∀ p0, o_pos r0 = Some p0 → <[partOf r0 := p0]> top !! sp = Some q →
      ∃ o r, <[o0:=r0]> m0 !! o = Some r ∧ o_pos r = Some q ∧ partOf r = sp).
    { intros p0 Hp. destruct (decide (partOf r0 = sp)) as [<-|Hne]; [|by rewrite lookup_insert_ne].
      rewrite lookup_insert_eq. intros [= ->]. exists o0, r0. by rewrite lookup_insert_eq. }
    unfold noteTop in Hq. destruct (o_pos r0) as [p0|] eqn:Hp; [|by apply Hold].
    destruct (top !! partOf r0) as [cur|]; [destruct (pointLess cur p0)|]; eauto.
Qed.

Lemma mark_purge y retention ords : posInv y → markInv y → markInv (with_db (purgeBatch retention ords (y_db y)) y).
Proof.
  intros I M. unfold with_db, purgeBatch.
  set (gone := filter (λ '(o, r), o ∈ ords ∧ purgeable (y_db y) retention r = true) (outbox (y_db y))).
  set (top := map_fold (λ _ r, noteTop r) ∅ gone).
  split; cbn [y_db y_numbered outbox counters history set_counters set_outbox].
  - intros sp p o Hin. destruct (mi_epoch _ M _ _ _ Hin) as [(c & Hc & He)|?]; [left|by right].
    rewrite map_lookup_imap, Hc. cbn. eexists. split; [done|]. destruct (top !! sp) as [q|]; [|done].
    unfold notePurged. by case_match.
  - assert (Hkeep : ∀ sp p o, (sp, p, o) ∈ y_numbered y → outbox (y_db y) !! o = None → (outbox (y_db y) ∖ gone) !! o = None).
    { intros sp p o _ Hno. apply lookup_difference_None. by left. }
    intros sp c' pp. rewrite map_lookup_imap. destruct (counters (y_db y) !! sp) as [c|] eqn:Hc; [|done]. cbn.
    intros [= <-] Hpp. destruct (top !! sp) as [q|] eqn:Hq.
    + unfold notePurged in Hpp. destruct (match c_purged c with Some q' => pointLess q' q | None => true end); cbn in Hpp.
      * injection Hpp as ->. destruct (noteTop_of gone sp pp Hq) as (o & r & Hr & Hp & <-). exists o.
        pose proof Hr as Hr'. apply map_lookup_filter_Some in Hr' as [Hr' _]. split; [by apply (pi_row _ I _ _ Hr')|].
        apply lookup_difference_None. right. by eexists.
      * destruct (mi_purged _ M _ _ _ Hc Hpp) as (o & H1 & H2). eauto.
    + destruct (mi_purged _ M _ _ _ Hc Hpp) as (o & H1 & H2). eauto.
Qed.

Lemma mark_number y sp batch n s :
  posInv y → markInv y → numberIn sp batch (y_db y) = Ok (n, s) →
  markInv (MkSys s (y_next y) (y_open y) (y_work y) (y_log y) (y_numbered y ++ newly (y_db y) sp batch) (y_top y)).
Proof.
  intros I M (now & Hd & -> & ->)%numberIn_spec. set (c := counterOf (y_db y) sp).
  assert (Hother : ∀ sp', sp' ≠ sp → ∀ c', <[sp := c']> (ensureCounter sp (counters (y_db y))) !! sp' = counters (y_db y) !! sp').
  { intros sp' Hne c'. rewrite lookup_insert_ne by done. unfold ensureCounter.
    destruct (counters (y_db y) !! sp); [done|]. by rewrite lookup_insert_ne. }
  split; cbn [y_db y_numbered outbox counters history]; fold c.
  - intros sp' p o [Hin|Hin]%elem_of_app.
    + destruct (decide (sp' = sp)) as [->|Hne].
      * destruct (mi_epoch _ M _ _ _ Hin) as [(c' & Hc' & He)|(f & Hf & ?)]; [|right; exists f; rewrite elem_of_app; auto].
        assert (Hcc : c' = c) by (unfold c, counterOf; by rewrite Hc'). subst c'. destruct (epochChanged c now) eqn:Hch.
        -- right. exists (MkFork sp (pt_Epoch p) (c_last c) now). rewrite elem_of_app. split; [right|done].
           unfold forkOf. rewrite He, Hch. apply list_elem_of_here.
        -- left. eexists. rewrite lookup_insert_eq. split; [done|]. cbn. apply epochChanged_spec in Hch. congruence.
      * destruct (mi_epoch _ M _ _ _ Hin) as [(c' & Hc' & He)|(f & Hf & ?)]; [left|right].
        -- exists c'. by rewrite Hother.
        -- exists f. rewrite elem_of_app. auto.
    + apply (newly_elem _ _ _ _ _ _ _ Hd) in Hin as (-> & i & Hi & ->). left. eexists. by rewrite lookup_insert_eq.
  - intros sp' c' pp Hc' Hpp. assert (Hold : ∃ c0, counters (y_db y) !! sp' = Some c0 ∧ c_purged c0 = Some pp).
    { destruct (decide (sp' = sp)) as [->|Hne].
      - rewrite lookup_insert_eq in Hc'. injection Hc' as <-. cbn in Hpp. unfold c, counterOf in Hpp.
        destruct (counters (y_db y) !! sp) as [c0|]; [|done]. eauto.
      - rewrite Hother in Hc' by done. eauto. }
    destruct Hold as (c0 & H1 & H2). destruct (mi_purged _ M _ _ _ H1 H2) as (o & H3 & H4). exists o.
    split; [apply elem_of_app; by left|]. rewrite place_lookup by (rewrite assign_fst; apply picked_NoDup).
    by case_match; rewrite H4.
Qed.

Lemma mark_step `{Codec} (p : Producer) y y' : posInv y → markInv y → step p y y' → markInv y'.
Proof.
  intros I M Hs. destruct Hs as [y k em stream ev row _|y k|y k|y sp batch n s Hn|y w sp batch _|y w o pt rows done Hw|
    y w rows done claimed Hw|y w|y sp owner d c Hl|y owner|y retention ords|y d _|y|y e He];
    try solve [eapply (mark_keep y); eauto; cbn; eauto].
  - eapply (mark_keep y); eauto; cbn; eauto. intros sp pt o Hin Hno. apply lookup_union_None. split; [done|].
    destruct (committed (ofTx k (y_open y)) !! o) as [r|] eqn:Hr; [|done].
    apply committed_lookup in Hr as (row & Hrow & _); [|apply I]. apply (pi_open _ I) in Hrow as (_ & _ & Hnot).
    destruct Hnot. apply list_elem_of_fmap. by exists (sp, pt, o).
  - by eapply mark_number.
  - eapply (mark_keep y); eauto; cbn; eauto. intros sp pt o _ Hno. by rewrite map_lookup_imap, Hno.
  - rewrite counterOf_ensure in Hl. pose proof (leaseRow_purged _ _ _ _ _ Hl) as Hp. apply leaseRow_same in Hl as [_ Hl].
    unfold counterOf in *. eapply (mark_keep y); eauto; cbn; eauto.
    + intros sp' c' Hc'. destruct (decide (sp' = sp)) as [->|Hne].
      * exists c. rewrite lookup_insert_eq. split; [done|]. by rewrite Hl, Hc'.
      * exists c'. rewrite lookup_insert_ne by done. unfold ensureCounter. destruct (counters (y_db y) !! sp); [done|].
        by rewrite lookup_insert_ne.
    + intros sp' c'. destruct (decide (sp' = sp)) as [->|Hne].
      * rewrite lookup_insert_eq. intros [= <-]. rewrite Hp. destruct (counters (y_db y) !! sp) as [c1|]; [right; eauto|by left].
      * rewrite lookup_insert_ne by done. unfold ensureCounter. destruct (counters (y_db y) !! sp); [eauto|].
        rewrite lookup_insert_ne by done. eauto.
  - assert (Hr : ∀ c, c_epoch (releaseRow owner c) = c_epoch c ∧ c_purged (releaseRow owner c) = c_purged c).
    { intros c. unfold releaseRow. by case_decide. }
    eapply (mark_keep y); eauto; cbn; eauto.
    + intros sp c Hc. exists (releaseRow owner c). rewrite lookup_fmap, Hc. split; [done|apply Hr].
    + intros sp c'. rewrite lookup_fmap. destruct (counters (y_db y) !! sp) as [c|]; [|done]. intros [= <-]. right.
      exists c. split; [done|apply Hr].
  - by apply mark_purge.
Qed.

Lemma mark_reachable `{Codec} (p : Producer) y : reachable p y → markInv y.
Proof.
  intros [e Hr]. destruct (initial_inv e) as [I B]. assert (M : markInv (initial e)).
  { split; cbn; [by intros * ?%elem_of_nil|]. intros sp c pp. by rewrite lookup_empty. }
  revert I B M. induction Hr as [y|y y1 y2 Hs _ IH]; [done|]. intros I B M.
  apply IH; [by eapply pos_step|by eapply pub_step|by eapply mark_step].
Qed.

Lemma judge_ahead y sp after :
  posInv y → markInv y → (∀ a, after = Some a → 1 ≤ pt_Seq a) →
  (judge (y_db y) sp after).2 = true ↔ ∃ a, after = Some a ∧ ∀ o, (sp, a, o) ∉ y_numbered y.
Proof.
  intros I M Ha.
  unfold judge. destruct after as [a|].
  2: { destruct (counters (y_db y) !! sp); cbn; (split; [done|]); by intros (a & ? & _). }
  destruct (counters (y_db y) !! sp) as [c|] eqn:Hc.
  2: { cbn. split; [|done]. intros _. exists a. split; [done|]. intros o Hin.
       apply (pi_bound _ I) in Hin as (_ & c & e & Hc' & _). congruence. }
  destruct a as [e q]. specialize (Ha _ eq_refl). cbn [pt_Epoch pt_Seq] in *. case_bool_decide as He; cbn.
  - rewrite bool_decide_eq_true. split.
    + intros Hlt. exists (MkPoint e q). split; [done|]. intros o Hin. apply (pi_bound _ I) in Hin as (_ & c' & e' & Hc' & He' & Hle).
      rewrite Hc in Hc'. injection Hc' as <-. rewrite He in He'. injection He' as <-.
      apply not_true_iff_false in Hle. apply Hle, pointLess_spec. right. cbn. done.
    + intros (a & [= <-] & Hno). destruct (decide (c_last c < q)) as [|Hge]; [done|].
      destruct (pi_counter _ I _ _ Hc) as [_ Hcur]. destruct (Hcur _ He) as [_ Hd]. destruct (Hd q) as [o Ho]; [lia|]. by destruct (Hno o).
  - destruct (List.find _ _) as [f|] eqn:Hf; cbn.
    + apply find_some in Hf as [Hin Hf]. apply bool_decide_eq_true in Hf as [Hfp Hfe].
      apply list_elem_of_In in Hin. destruct (pi_forks _ I _ Hin) as (_ & Hd & Hmax). rewrite bool_decide_eq_true, Hfp, Hfe in *. split.
      * intros Hlt. exists (MkPoint e q). split; [done|]. intros o Ho. pose proof (Hmax _ _ Ho eq_refl). cbn in *. lia.
      * intros (a & [= <-] & Hno). destruct (decide (fk_seq f < q)) as [|Hge]; [done|].
         destruct (Hd q) as [o Ho]; [lia|]. by destruct (Hno o).
    + split; [|done]. intros _. exists (MkPoint e q). split; [done|]. intros o Hin.
      destruct (mi_epoch _ M _ _ _ Hin) as [(c' & Hc' & He')|(f & Hin' & Hfp & Hfe)].
      * rewrite Hc in Hc'. injection Hc' as <-. done.
      * apply list_elem_of_In in Hin'. pose proof (find_none _ _ Hf f Hin') as Hn. cbn in Hn.
         apply bool_decide_eq_false in Hn. by destruct Hn.
Qed.

Lemma judge_beyond y sp after :
  pubInv y → markInv y →
  (judge (y_db y) sp after).1 = true ↔
    ∃ pt o, (sp, pt, o) ∈ y_numbered y ∧ outbox (y_db y) !! o = None ∧ afterStart after pt = true.
Proof.
  intros B M.
  assert (Hb : (judge (y_db y) sp after).1 = true ↔
    ∃ c pp, counters (y_db y) !! sp = Some c ∧ c_purged c = Some pp ∧ afterStart after pp = true).
  { unfold judge. destruct (counters (y_db y) !! sp) as [c|]; [|split; [done|by intros (? & ? & ? & _)]].
    destruct after as [a|]; [case_bool_decide; [|destruct (List.find _ _)]|]; cbn;
      (destruct (c_purged c) as [pp|] eqn:Hp; [|split; [done|]; intros (? & ? & [= <-] & ? & _); congruence]);
      (split; [intros ?; exists c, pp; done|]); intros (? & ? & [= <-] & Hp' & ?); congruence. }
  rewrite Hb. split.
  - intros (c & pp & Hc & Hp & Hs). destruct (mi_purged _ M _ _ _ Hc Hp) as (o & H1 & H2). eauto.
  - intros (pt & o & Hin & Hno & Hs). destruct (bi_gone _ B _ _ _ Hin Hno) as (_ & c & pp & Hc & Hp & Hle).
    exists c, pp. split; [done|]. split; [done|]. destruct after as [a|]; [|done]. cbn in *.
    destruct (pointLess a pp) eqn:Hap; [done|]. 
    assert (Hx : pointLe pt a) by (eapply pointLe_trans; [exact Hle|exact Hap]). unfold pointLe in Hx. congruence.
Qed.

(** A start is judged ahead exactly when the partition never gave its position, and beyond
    exactly when a row after it was purged. *)
Theorem judge_exact `{Codec} (p : Producer) y sp after :
  reachable p y → (∀ a, after = Some a → 1 ≤ pt_Seq a) →
  ((judge (y_db y) sp after).2 = true ↔ ∃ a, after = Some a ∧ ∀ o, (sp, a, o) ∉ y_numbered y) ∧
  ((judge (y_db y) sp after).1 = true ↔
     ∃ pt o, (sp, pt, o) ∈ y_numbered y ∧ outbox (y_db y) !! o = None ∧ afterStart after pt = true).
Proof.
  intros Hy Ha. destruct (reachable_inv p y Hy) as [I B]. pose proof (mark_reachable p y Hy) as M.
  split; [by apply judge_ahead|by apply judge_beyond].
Qed.

(** ** Sending one partition *)

Lemma lookup_sorted {A} (R : relation A) (l : list A) :
  (∀ i j x x', l !! i = Some x → l !! j = Some x' → (i < j)%nat → R x x') → StronglySorted R l.
Proof.
  induction l as [|a l IH]; intros Hl; constructor.
  - apply IH. intros i j x x' Hi Hj Hij. apply (Hl (S i) (S j)); [done|done|lia].
  - apply Forall_lookup. intros i x Hx. apply (Hl O (S i)); [done|done|lia].
Qed.


(** Steps of a run: numberings stay, and a row that is gone stays gone. *)
Lemma step_gone `{Codec} (p : Producer) y y' sp pt o :
  posInv y → step p y y' → (sp, pt, o) ∈ y_numbered y → outbox (y_db y) !! o = None →
  (sp, pt, o) ∈ y_numbered y' ∧ outbox (y_db y') !! o = None.
Proof.
  intros I Hs Hin Hno. destruct Hs; cbn; auto.
  - split; [done|]. apply lookup_union_None. split; [done|]. destruct (committed _ !! o) as [r|] eqn:Hr; [|done].
    apply committed_lookup in Hr as (row & Hrow & _); [|apply I]. apply (pi_open _ I) in Hrow as (_ & _ & Hnot).
    destruct Hnot. apply list_elem_of_fmap. by exists (sp, pt, o).
  - split; [apply elem_of_app; by left|]. apply numberIn_spec in H0 as (now & Hd & -> & ->). cbn.
    rewrite place_lookup by (rewrite assign_fst; apply picked_NoDup). by case_match; rewrite Hno.
  - by rewrite map_lookup_imap, Hno.
  - split; [done|]. apply lookup_difference_None. by left.
Qed.

Lemma run_gone `{Codec} (p : Producer) y y' sp pt o :
  rtc (step p) y y' → posInv y → pubInv y → (sp, pt, o) ∈ y_numbered y → outbox (y_db y) !! o = None →
  (sp, pt, o) ∈ y_numbered y' ∧ outbox (y_db y') !! o = None.
Proof.
  induction 1 as [y|y y1 y2 Hs _ IH]; [done|]. intros I B H1 H2. destruct (step_gone p _ _ _ _ _ I Hs H1 H2).
  apply IH; [by eapply pos_step|by eapply pub_step|done..].
Qed.

(** A position belongs to one row. *)
Lemma pos_unique y o o' r r' pt :
  posInv y → outbox (y_db y) !! o = Some r → outbox (y_db y) !! o' = Some r' → partOf r = partOf r' →
  o_pos r = Some pt → o_pos r' = Some pt → o = o'.
Proof.
  intros I Hr Hr' Hsp Hp Hp'. destruct (pi_row _ I _ _ Hr) as [H1 _], (pi_row _ I _ _ Hr') as [H2 _].
  specialize (H1 _ Hp). specialize (H2 _ Hp'). rewrite <- Hsp in H2.
  apply list_elem_of_lookup in H1 as [i Hi], H2 as [j Hj].
  destruct (Nat.lt_trichotomy i j) as [Hij|[->|Hij]]; [|by simplify_eq|].
  - pose proof (pi_sorted _ I _ _ _ _ _ _ _ Hij Hi Hj) as Hl. by rewrite pointLess_irrefl in Hl.
  - pose proof (pi_sorted _ I _ _ _ _ _ _ _ Hij Hj Hi) as Hl. by rewrite pointLess_irrefl in Hl.
Qed.

Section sending.
Context `{Codec} (r : Resender) (accepts : nat → Z → bool).

(** A row as it is sent again. *)
Definition resentAs (request : string) (x : Z * Point * Row) (e : Z * Message) : Prop :=
  e.1 = x.1.1 ∧ ∃ m claim, messageOf (rs_Producer r) x.2 x.1.2 (rs_Source r) (rs_Impl r) = Ok (m, claim) ∧
    e.2 = withMsgID (r_EventID x.2 ++ "/resend/" ++ request)%string m.

Lemma sendRows_ok request rows after log after' sent log' :
  sendRows r accepts request rows after log = (after', sent, false, log') →
  ∃ l, log' = log ++ l ∧ Forall2 (resentAs request) rows l ∧ after' = match last rows with Some x => Some x.1.2 | None => after end.
Proof.
  revert after log sent. induction rows as [|[[o p] row] rows IH]; intros after log sent; cbn.
  - intros [= <- <- <-]. exists []. by rewrite app_nil_r.
  - destruct (messageOf _ row p _ _) as [[m claim]|e] eqn:Hm; [|done]. destruct (accepts _ o); [|done].
    destruct (sendRows _ _ _ rows _ _) as [[[a n] f] lg] eqn:Hs. intros [= <- <- -> <-].
    apply IH in Hs as (l & -> & Hf & ->). eexists (_ :: l). rewrite <- app_assoc. split; [done|]. split.
    + constructor; [|done]. split; [done|]. by exists m, claim.
    + change (match rows with [] => Some (o, p, row) | _ => last rows end) with (last ((o, p, row) :: rows)).
      rewrite last_cons. by destruct (last rows).
Qed.

Lemma readAfter_elem s sp after batch o p :
  (o, p) ∈ readAfter s sp after batch →
  ∃ row, outbox s !! o = Some row ∧ o_pos row = Some p ∧ partOf row = sp ∧ o_published row ≠ None ∧ afterStart after p = true.
Proof.
  intros Hin%firsts_elem. apply positions_elem in Hin as (row & H1 & H2 & H3 & H4). unfold resendable in H4.
  apply andb_true_iff in H4 as [H4 H5]. apply negb_true_iff, bool_decide_eq_false in H4. eauto 10.
Qed.

Lemma scanRows_fst s l : (∀ o p, (o, p) ∈ l → is_Some (outbox s !! o)) → map fst (scanRows s l) = l.
Proof.
  intros Hl. induction l as [|[o p] l IH]; [done|]. cbn. destruct (Hl o p) as [row ->]; [apply list_elem_of_here|]. cbn.
  f_equal. apply IH. intros o' p' Hin. apply (Hl o' p'). by apply list_elem_of_further.
Qed.
Lemma scanRows_elem s l o p row : (o, p, row) ∈ scanRows s l ↔ (o, p) ∈ l ∧ ∃ orw, outbox s !! o = Some orw ∧ row = o_row orw.
Proof.
  unfold scanRows. rewrite list_elem_of_omap. split.
  - intros ([o' p'] & Hin & Hx). apply fmap_Some in Hx as (orw & Hr & [= -> -> ->]). eauto.
  - intros (Hin & orw & Hr & ->). exists (o, p). by rewrite Hr.
Qed.

Section batch.
Variables (y : sys) (sp : streamPart) (after : option Point) (batch : nat).
Hypothesis I : posInv y.
#[local] Abbreviation keys := (readAfter (y_db y) sp after batch).
#[local] Abbreviation rows := (scanRows (y_db y) keys).

Lemma rows_fst : map fst rows = keys.
Proof. apply scanRows_fst. intros o p (row & Hr & _)%readAfter_elem. by exists row. Qed.

(** The rows of a batch are published, of the partition and after the start. *)
Lemma resend_batch_elem o p row : (o, p, row) ∈ rows →
  ∃ orw, outbox (y_db y) !! o = Some orw ∧ o_pos orw = Some p ∧ partOf orw = sp ∧ o_published orw ≠ None ∧
    row = o_row orw ∧ afterStart after p = true.
Proof.
  intros (Hin & orw & Hr & ->)%scanRows_elem. apply readAfter_elem in Hin as (orw' & Hr' & Hp & Hsp & Hpub & Ha).
  rewrite Hr in Hr'. injection Hr' as <-. eauto 10.
Qed.

(** They are in strict order. *)
Lemma resend_batch_sorted i j x x' : keys !! i = Some x → keys !! j = Some x' → (i < j)%nat → pointLess x.2 x'.2 = true.
Proof.
  intros Hi Hj Hij. destruct x as [o p], x' as [o' p']. cbn.
  assert (Hle : rowLe (o, p) (o', p')).
  { unfold readAfter in Hi, Hj. apply lookup_take_Some in Hi as [Hi _], Hj as [Hj _].
    eapply (sorted_lookup rowLe); [apply (StronglySorted_merge_sort rowLe)|exact Hi|exact Hj|done]. }
  destruct (pointLess p p') eqn:Hl; [done|]. exfalso. pose proof (pointLess_total _ _ Hl Hle) as <-.
  destruct (readAfter_elem _ _ _ _ _ _ (list_elem_of_lookup_2 _ _ _ Hi)) as (r1 & Hr1 & Hp1 & Hs1 & _).
  destruct (readAfter_elem _ _ _ _ _ _ (list_elem_of_lookup_2 _ _ _ Hj)) as (r2 & Hr2 & Hp2 & Hs2 & _).
  assert (o = o') as <- by (eapply (pos_unique y); eauto; congruence).
  assert (Hn : NoDup keys) by (apply firsts_NoDup; eapply NoDup_fmap_1, positions_keys).
  pose proof (NoDup_lookup _ _ _ _ Hn Hi Hj). lia.
Qed.

(** A published row after the start that a batch leaves out is after all of it, and the
    batch is full. *)
Lemma resend_batch_left o orw p :
  outbox (y_db y) !! o = Some orw → o_published orw ≠ None → partOf orw = sp → o_pos orw = Some p → afterStart after p = true →
  (o, p) ∈ keys ∨ List.length keys = batch ∧ ∀ x, x ∈ keys → pointLess x.2 p = true.
Proof.
  intros Hr Hpub Hsp Hp Ha.
  assert (Hin : (o, p) ∈ positions (resendable after) (y_db y) sp).
  { apply positions_elem. exists orw. repeat split; try done. unfold resendable. rewrite Ha. by rewrite bool_decide_eq_false_2. }
  destruct (decide ((o, p) ∈ keys)) as [|Hno]; [by left|right]. split; [by eapply firsts_full|]. intros [o' p'] Hin'. cbn.
  destruct (pointLess p' p) eqn:Hl; [done|]. exfalso. apply list_elem_of_lookup in Hin' as [j Hj].
  destruct (pointLess p p') eqn:Hl'.
  - destruct (firsts_before rowLe batch _ _ (o', p') j Hin Hj) as (i & _ & Hi).
    { unfold rowLe, pointLe. cbn. by rewrite Hl'. }
    apply Hno. by eapply list_elem_of_lookup_2.
  - pose proof (pointLess_total _ _ Hl' Hl) as <-.
    destruct (readAfter_elem _ _ _ _ _ _ (list_elem_of_lookup_2 _ _ _ Hj)) as (r2 & Hr2 & Hp2 & Hs2 & _).
    assert (o = o') as <- by (eapply (pos_unique y); eauto; congruence). apply Hno. by eapply list_elem_of_lookup_2.
Qed.

End batch.

(** ** A run of the producer *)

Section run.
Variables (p : Producer) (ys : nat → sys) (dbs : nat → option store).
(** The transactions of a redelivery happen in a run of the producer's outbox. *)
Hypothesis Hy0 : reachable p (ys 0%nat).
Hypothesis Hrun : ∀ i, rtc (step p) (ys i) (ys (S i)).
Hypothesis Hdb : ∀ i s, dbs i = Some s → s = y_db (ys i).

(** The row stays in the outbox from a transaction on: nothing purges it. *)
Definition staysFrom (tx : nat) (o : Z) (orw : orow) : Prop := ∀ i, (tx ≤ i)%nat → outbox (y_db (ys i)) !! o = Some orw.

Lemma run_to i j : (i ≤ j)%nat → rtc (step p) (ys i) (ys j).
Proof. induction 1; [done|]. etrans; [done|apply Hrun]. Qed.
Lemma run_reachable i : reachable p (ys i).
Proof. destruct Hy0 as [e He]. exists e. etrans; [exact He|]. apply run_to. lia. Qed.
Lemma run_pos i : posInv (ys i).
Proof. apply (reachable_inv p (ys i)), run_reachable. Qed.

Lemma batchOf_pos : (0 < batchOf r)%nat.
Proof. unfold batchOf, DefaultBatch. case_decide; lia. Qed.

Definition inOrder (x x' : Z * Point * Row) : Prop := pointLess x.1.2 x'.1.2 = true.

(** What was sent of a partition: published rows after the start, in order, and of those that
    stay from the first transaction on each one. *)
Definition sentOf (tx : nat) (sp : streamPart) (after : option Point) (rs : list (Z * Point * Row)) : Prop :=
  StronglySorted inOrder rs ∧
  (∀ o pt row, (o, pt, row) ∈ rs → afterStart after pt = true ∧ ∃ i orw, (tx ≤ i)%nat ∧
     outbox (y_db (ys i)) !! o = Some orw ∧ partOf orw = sp ∧ o_pos orw = Some pt ∧ o_published orw ≠ None ∧ row = o_row orw) ∧
  (∀ o orw pt, staysFrom tx o orw → o_published orw ≠ None → partOf orw = sp → o_pos orw = Some pt →
     afterStart after pt = true → (o, pt) ∈ map fst rs).

Lemma sent_batch tx sp after (rows := scanRows (y_db (ys tx)) (readAfter (y_db (ys tx)) sp after (batchOf r))) :
  StronglySorted inOrder rows ∧ map fst rows = readAfter (y_db (ys tx)) sp after (batchOf r).
Proof.
  pose proof (rows_fst (ys tx) sp after (batchOf r)) as Hf. split; [|done]. apply lookup_sorted. intros i j x x' Hi Hj Hij.
  apply (resend_batch_sorted (ys tx) sp after (batchOf r) (run_pos tx) i j); [| |done]; rewrite <- Hf, list_lookup_fmap;
    [fold rows; by rewrite Hi|fold rows; by rewrite Hj].
Qed.

Lemma sent_short tx sp after (rows := scanRows (y_db (ys tx)) (readAfter (y_db (ys tx)) sp after (batchOf r))) :
  (List.length rows < batchOf r)%nat → sentOf tx sp after rows.
Proof.
  destruct (sent_batch tx sp after) as [Hs Hf]. intros Hlen. split; [exact Hs|]. split.
  - intros o pt row (orw & H1 & H2 & H3 & H4 & H5 & H6)%resend_batch_elem. split; [done|]. exists tx, orw. done.
  - intros o orw pt Hr Hpub Hsp Hp Ha. unfold rows. rewrite Hf.
    destruct (resend_batch_left (ys tx) sp after (batchOf r) (run_pos tx) o orw pt (Hr tx ltac:(lia)) Hpub Hsp Hp Ha) as [|[Hl _]]; [done|].
    rewrite <- Hf, length_map in Hl. unfold rows in Hlen. lia.
Qed.

Lemma sent_more tx sp after rs (rows := scanRows (y_db (ys tx)) (readAfter (y_db (ys tx)) sp after (batchOf r))) x :
  last rows = Some x → sentOf (S tx) sp (Some x.1.2) rs → sentOf tx sp after (rows ++ rs).
Proof.
  destruct (sent_batch tx sp after) as [Hs Hf]. fold rows in Hs, Hf. intros Hx (Hs' & Hel & Hall).
  assert (Hlast : ∀ x', x' ∈ rows → x' = x ∨ inOrder x' x).
  { intros x' Hin. apply last_Some in Hx as [l Hl]. rewrite Hl in Hs, Hin.
    apply elem_of_app in Hin as [Hin|Hin%list_elem_of_singleton]; [right|by left].
    eapply StronglySorted_app_1_elem_of; [exact Hs|exact Hin|apply list_elem_of_here]. }
  split; [|split].
  - apply StronglySorted_app_2; [|done..]. intros x1 [[o pt] row] H1 H2. destruct (Hel _ _ _ H2) as [Ha _]. cbn in Ha.
    destruct (Hlast _ H1) as [->|Hlt]; [done|]. unfold inOrder in *. cbn. by eapply pointLess_trans.
  - intros o pt row [Hin|Hin]%elem_of_app.
    + apply resend_batch_elem in Hin as (orw & H1 & H2 & H3 & H4 & H5 & H6). split; [done|]. exists tx, orw. done.
    + destruct (Hel _ _ _ Hin) as (Ha & i & orw & Hi & H2 & H3 & H4). cbn in Ha. split; [|exists i, orw; split; [lia|done]].
      apply last_Some_elem_of in Hx. destruct x as [[o1 p1] row1]. apply resend_batch_elem in Hx as (? & _ & _ & _ & _ & _ & Hx).
      destruct after as [a|]; [|done]. cbn in *. by eapply pointLess_trans.
  - intros o orw pt Hr Hpub Hsp Hp Ha. rewrite map_app, elem_of_app, Hf.
    destruct (resend_batch_left (ys tx) sp after (batchOf r) (run_pos tx) o orw pt (Hr tx ltac:(lia)) Hpub Hsp Hp Ha) as [|[_ Hl]]; [by left|right].
    apply (Hall o orw pt); try done; [intros i Hi; apply Hr; lia|]. cbn. apply Hl. rewrite <- Hf. apply list_elem_of_fmap.
    exists x. split; [done|]. by apply last_Some_elem_of.
Qed.

Lemma resendPartition_ok fuel tx request sp after log tx' sent log' :
  resendPartition r dbs accepts fuel tx request sp after log = Some (tx', sent, false, log') →
  (tx < tx')%nat ∧ ∃ rs l, log' = log ++ l ∧ Forall2 (resentAs request) rs l ∧ sentOf tx sp after rs.
Proof.
  revert tx after log sent. induction fuel as [|fuel IH]; intros tx after log sent; cbn [resendPartition]; [done|].
  destruct (dbs tx) as [s|] eqn:Hs; [|done]. apply Hdb in Hs as ->.
  set (rows := scanRows (y_db (ys tx)) (readAfter (y_db (ys tx)) sp after (batchOf r))).
  destruct (sendRows _ _ _ rows _ _) as [[[after' n] failed] log1] eqn:Hsend. destruct failed; [done|].
  apply sendRows_ok in Hsend as (l & -> & Hf & ->). case_bool_decide as Hlen.
  - intros [= <- _ <-]. split; [lia|]. exists rows, l. split; [done|]. split; [done|]. by apply sent_short.
  - destruct (last rows) as [x|] eqn:Hx; [|apply last_None in Hx; rewrite Hx in Hlen; cbn in Hlen; pose proof batchOf_pos; lia].
    destruct (resendPartition _ _ _ _ _ _ _ _ _) as [[[[tx1 sent1] f1] log2]|] eqn:Hr; [|done].
    intros [= <- _ -> <-]. apply IH in Hr as (Hlt & rs & l' & -> & Hf' & Hsent). split; [lia|].
    exists (rows ++ rs), (l ++ l'). rewrite app_assoc. split; [done|]. split; [by apply Forall2_app|]. by apply (sent_more _ _ _ _ x).
Qed.

(** ** All partitions *)

(** How one partition fares: it is named as ahead, or its rows are sent, and it is named as
    beyond when the judge said so. *)
Definition fares (tx : nat) (request stream : string) (from : gmap Z Point) (n : Z) (resp : ResendResponse) (l : list (Z * Message)) : Prop :=
  ∃ i, (tx ≤ i)%nat ∧
  ((n ∈ rp_Ahead resp ∧ (judge (y_db (ys i)) (stream, n) (from !! n)).2 = true) ∨
   (∃ rs l1, l1 `sublist_of` l ∧ Forall2 (resentAs request) rs l1 ∧ sentOf (S i) (stream, n) (from !! n) rs ∧
      ((judge (y_db (ys i)) (stream, n) (from !! n)).1 = true → n ∈ rp_Beyond resp))).

Lemma fares_later tx tx' request stream from n resp l0 l :
  (tx ≤ tx')%nat → fares tx' request stream from n resp l → fares tx request stream from n resp (l0 ++ l).
Proof.
  intros Hle (i & Hi & Hf). exists i. split; [lia|]. destruct Hf as [?|(rs & l1 & Hs & ?)]; [by left|right].
  exists rs, l1. split; [|done]. by apply sublist_inserts_l.
Qed.

Lemma resendAll_ok fuel tx request stream from ns out log resp log' :
  resendAll r dbs accepts fuel tx request stream from ns out log = Some (Ok resp, log') →
  rp_Beyond out ⊆ rp_Beyond resp ∧ rp_Ahead out ⊆ rp_Ahead resp ∧
  ∃ l, log' = log ++ l ∧ ∀ n, n ∈ ns → fares tx request stream from n resp l.
Proof.
  revert tx out log. induction ns as [|n ns IH]; intros tx out log; cbn [resendAll].
  { intros [= -> ->]. split; [done|]. split; [done|]. exists []. rewrite app_nil_r. split; [done|]. by intros n ?%elem_of_nil. }
  destruct (dbs tx) as [s|] eqn:Hs; [|done]. apply Hdb in Hs as ->.
  destruct (judge (y_db (ys tx)) (stream, n) (from !! n)) as [beyond ahead] eqn:Hj.
  set (out1 := if beyond then _ else out).
  assert (Hout : rp_Beyond out ⊆ rp_Beyond out1 ∧ rp_Ahead out1 = rp_Ahead out ∧ (beyond = true → n ∈ rp_Beyond out1)).
  { subst out1. destruct beyond; cbn; [|done]. split; [set_solver|]. split; [done|set_solver]. }
  destruct Hout as (Ho1 & Ho2 & Ho3). destruct ahead.
  - intros (Hb & Ha & l & -> & Hf)%IH. cbn in Hb, Ha. rewrite Ho2 in Ha. split; [set_solver|]. split; [set_solver|].
    exists l. split; [done|]. intros n' [->|Hin]%elem_of_cons; [|apply (fares_later tx (S tx) _ _ _ _ _ []); [lia|auto]].
    exists tx. split; [done|]. left. rewrite Hj. split; [set_solver|done].
  - destruct (resendPartition _ _ _ _ _ _ _ _ _) as [[[[tx1 sent] failed] log1]|] eqn:Hp; [|done].
    destruct failed; [done|]. apply resendPartition_ok in Hp as (Hlt & rs & l0 & -> & Hrs & Hsent).
    intros (Hb & Ha & l & -> & Hf)%IH. cbn in Hb, Ha. rewrite Ho2 in Ha. split; [set_solver|]. split; [done|].
    exists (l0 ++ l). rewrite app_assoc. split; [done|]. intros n' [->|Hin]%elem_of_cons; [|apply (fares_later tx tx1); [lia|auto]].
    exists tx. split; [done|]. right. exists rs, l0. split; [by apply sublist_inserts_r|]. split; [done|]. split; [done|].
    rewrite Hj. cbn. set_solver.
Qed.

Lemma run_numbered i x : x ∈ y_numbered (ys 0%nat) → x ∈ y_numbered (ys i).
Proof.
  intros Hx. induction i as [|i IH]; [done|]. revert IH. generalize (Hrun i). generalize (ys i) (ys (S i)). clear.
  induction 1 as [y|y y1 y2 Hs _ IH]; [done|]. intros Hin. apply IH. destruct Hs; cbn; try done. apply elem_of_app. by left.
Qed.

(** A redelivery that answers, of a request for a stream: each partition either is named as
    ahead, and then its start is a position the partition had not given; or every row of
    the partition after the start that was published when the request came and is not purged
    while the redelivery runs is sent again with its event and its envelope, in position
    order and with nothing else, and when such a row was purged before, the partition is
    named as beyond the retention. *)
Lemma resend_sent fuel fresh req log resp log' :
  Resend r dbs accepts fuel fresh req log = Some (Ok resp, log') →
  let request := if decide (rq_RequestId req = "") then fresh else rq_RequestId req in
  ∃ st from l, streamOf (rs_Producer r) (rq_Stream req) = Some st ∧
  starts (rs_Impl r) (st_Partitions st) (rq_From req) ∅ = Ok from ∧ log' = log ++ l ∧
  ∀ n, 0 ≤ n < st_Partitions st →
  (n ∈ rp_Ahead resp ∧ ∀ a, from !! n = Some a → 1 ≤ pt_Seq a → ∀ o, ((st_Name st, n), a, o) ∉ y_numbered (ys 0%nat)) ∨
  ∃ rs l1, l1 `sublist_of` l ∧ Forall2 (resentAs request) rs l1 ∧ StronglySorted inOrder rs ∧
    (∀ o pt row, (o, pt, row) ∈ rs → afterStart (from !! n) pt = true ∧ ∃ i orw,
       outbox (y_db (ys i)) !! o = Some orw ∧ partOf orw = (st_Name st, n) ∧ o_pos orw = Some pt ∧ o_published orw ≠ None ∧ row = o_row orw) ∧
    (∀ o pt orw, ((st_Name st, n), pt, o) ∈ y_numbered (ys 0%nat) → afterStart (from !! n) pt = true →
       staysFrom 0 o orw → o_published orw ≠ None → (o, pt) ∈ map fst rs) ∧
    (∀ o pt, ((st_Name st, n), pt, o) ∈ y_numbered (ys 0%nat) → afterStart (from !! n) pt = true →
       outbox (y_db (ys 0%nat)) !! o = None → n ∈ rp_Beyond resp).
Proof.
  unfold Resend. destruct (streamOf _ _) as [st|]; [|done].
  destruct (starts _ _ _ _) as [from|e] eqn:Hst; [|done]. intros (_ & _ & l & -> & Hf)%resendAll_ok. cbn zeta.
  exists st, from, l. split; [done|]. split; [done|]. split; [done|]. intros n Hn.
  destruct (Hf n) as (i & _ & [[Hin Hj]|(rs & l1 & Hl1 & Hrs & (Hsort & Hel & Hall) & Hb)]); [by apply elem_of_seqZ| |]; clear Hf.
  - left. split; [done|]. intros a Ha Hq o Ho%(run_numbered i). rewrite Ha in Hj.
    apply (judge_ahead (ys i)) in Hj as (a' & [= <-] & Hno); [by apply (Hno o)|apply run_pos|by eapply mark_reachable, run_reachable|].
    intros a' [= <-]. done.
  - right. exists rs, l1. destruct (reachable_inv p _ Hy0) as [I0 B0]. split; [done|]. split; [done|]. split; [done|]. split; [|split].
    + intros o pt row Hin. destruct (Hel _ _ _ Hin) as (Ha & j & orw & _ & ?). split; [done|]. by exists j, orw.
    + intros o pt orw Hin Ha Ho Hpub. destruct (pi_row _ I0 _ _ (Ho 0%nat ltac:(lia))) as [_ Hrow]. destruct (Hrow _ _ Hin) as [Hsp Hp].
      eapply Hall; [intros j Hj; apply Ho; lia|done|done|done|done].
    + intros o pt Hin Ha Ho. apply Hb. destruct (run_gone p _ (ys i) _ _ _ (run_to 0 i ltac:(lia)) I0 B0 Hin Ho) as [H1 H2].
      apply (judge_beyond (ys i)); [apply (reachable_inv p), run_reachable|by eapply mark_reachable, run_reachable|]. eauto.
Qed.

End run.
End sending.

(** ** A redelivery ends *)

Section ends.
Context `{Codec} (r : Resender) (accepts : nat → Z → bool) (dbs : nat → option store) (y : sys).
(** The database stands still, or transactions fail. *)
Hypothesis Hstill : ∀ i s, dbs i = Some s → s = y_db y.
#[local] Abbreviation left_ sp after := (List.length (positions (resendable after) (y_db y) sp)).

Lemma left_less sp after x :
  x ∈ positions (resendable after) (y_db y) sp → (left_ sp (Some x.2) < left_ sp after)%nat.
Proof.
  intros Hx. assert (Hx' : x ∉ positions (resendable (Some x.2)) (y_db y) sp).
  { destruct x as [o p]. intros (row0 & _ & _ & _ & Hr)%positions_elem. unfold resendable in Hr.
    apply andb_true_iff in Hr as [_ Hr]. cbn in Hr. by rewrite pointLess_irrefl in Hr. }
  assert (Hsub : x :: positions (resendable (Some x.2)) (y_db y) sp ⊆+ positions (resendable after) (y_db y) sp).
  { apply NoDup_submseteq.
    - apply NoDup_cons. split; [done|]. eapply NoDup_fmap_1, positions_keys.
    - intros [o p] [->|Hin]%elem_of_cons; [done|]. destruct x as [o0 p0].
      apply positions_elem in Hx as (row0 & _ & _ & _ & Hr0). apply positions_elem in Hin as (row & H1 & H2 & H3 & Hr).
      apply positions_elem. exists row. repeat split; try done. unfold resendable in *.
      apply andb_true_iff in Hr as [Hr1 Hr2], Hr0 as [_ Hr0]. rewrite Hr1. destruct after as [a|]; [|done]. cbn in *.
      by eapply pointLess_trans. }
  apply submseteq_length in Hsub. cbn in Hsub. lia.
Qed.

Lemma resendPartition_returns fuel tx request sp after log :
  (left_ sp after < fuel)%nat → ∃ x, resendPartition r dbs accepts fuel tx request sp after log = Some x.
Proof.
  revert tx after log. induction fuel as [|fuel IH]; intros tx after log Hfuel; [lia|]. cbn [resendPartition].
  destruct (dbs tx) as [s|] eqn:Hs; [|eauto]. apply Hstill in Hs as ->.
  set (rows := scanRows (y_db y) (readAfter (y_db y) sp after (batchOf r))).
  destruct (sendRows _ _ _ rows _ _) as [[[after' n] failed] log1] eqn:Hsend. destruct failed; [eauto|].
  apply sendRows_ok in Hsend as (l & -> & _ & ->). case_bool_decide as Hlen; [eauto|].
  destruct (last rows) as [x|] eqn:Hx.
  2: { apply last_None in Hx. rewrite Hx in Hlen. pose proof (batchOf_pos r). cbn in Hlen. lia. }
  destruct (IH (S tx) (Some x.1.2) (log ++ l)) as [[[[? ?] ?] ?] ->]; [|eauto].
  assert (Hin : x.1 ∈ positions (resendable after) (y_db y) sp).
  { apply last_Some_elem_of in Hx. destruct x as [[o p] row]. apply scanRows_elem in Hx as [Hx _]. by apply firsts_elem in Hx. }
  pose proof (left_less sp after _ Hin). lia.
Qed.

Lemma left_bound sp after : (left_ sp after ≤ size (outbox (y_db y)))%nat.
Proof.
  rewrite <- length_map_to_list. unfold positions. induction (map_to_list _) as [|[o row] l IH]; [done|]. cbn.
  destruct (o_pos row); [destruct (_ && _)|]; cbn; lia.
Qed.

(** C26. A redelivery over a database that stands still answers, whatever transactions fail and
    whatever the transport refuses: one unit of fuel for each row of the outbox and one more
    are enough. *)
Theorem resend_returns fuel fresh req log :
  (size (outbox (y_db y)) < fuel)%nat → ∃ answer log', Resend r dbs accepts fuel fresh req log = Some (answer, log').
Proof.
  intros Hfuel. unfold Resend. destruct (streamOf _ _) as [st|]; [|eauto]. destruct (starts _ _ _ _) as [from|e]; [|eauto].
  generalize O, (MkResendResponse 0 [] []), log. induction (seqZ 0 (st_Partitions st)) as [|n ns IH]; intros tx out lg; cbn; [eauto|].
  destruct (dbs tx) as [s|]; [|eauto]. destruct (judge s _ _) as [beyond ahead]. destruct ahead; [apply IH|].
  destruct (resendPartition_returns fuel (S tx) (if decide (rq_RequestId req = "") then fresh else rq_RequestId req)
    (st_Name st, n) (from !! n) lg) as [[[[tx' sent] failed] lg'] ->].
  { pose proof (left_bound (st_Name st, n) (from !! n)). lia. }
  destruct failed; [eauto|apply IH].
Qed.

End ends.

(** ** A concrete redelivery *)

(** Both rows of [boltRun] are marked as published. *)
Definition boltDone : sys :=
  match y_work boltRun !! 0%nat with
  | Some (rows, dn) => with_work (delete 0%nat (y_work boltRun)) (with_db (markPublished dn [] (y_db boltRun)) boltRun)
  | None => boltRun
  end.
Lemma boltDone_reachable : reachable stockProducer boltDone.
Proof.
  destruct boltRun_reachable as [e He]. exists e. etrans; [exact He|]. unfold boltDone.
  destruct (y_work boltRun !! 0%nat) as [[rows dn]|] eqn:Hw; [|done]. apply rtc_once. by eapply step_mark.
Qed.

Definition boltResender : Resender := MkResender stockProducer "acme/erp" "i1" 1.
(** After the first row. *)
Definition boltAfter : ResendRequest :=
  MkResendRequest "erp.stock" "q1" [MkPartitionFrom 2 (Some (MkPosition "i1" "1.1" 1))].
Definition boltAll : ResendRequest := MkResendRequest "erp.stock" "q1" [].
Definition boltResend (req : ResendRequest) (dbs : nat → option store) :=
  Resend boltResender dbs (λ _ _, true) 3 "fresh" req [].
Definition still (s : store) (_ : nat) : option store := Some s.

Example bolt_resent :
  (map fst <$> (snd <$> boltResend boltAfter (still (y_db boltDone)))) = Some [1] ∧
  (map fst <$> (snd <$> boltResend boltAll (still (y_db boltDone)))) = Some [0; 1].
Proof. by vm_compute. Qed.

Definition boltAnswer : ResendResponse * list (Z * Message) :=
  match boltResend boltAfter (still (y_db boltDone)) with Some (Ok resp, log) => (resp, log) | _ => (MkResendResponse 0 [] [], []) end.

Definition boltSecond : orow := MkORow (boltRow "e2") (Some (MkPoint (MkEpoch 1 1) 2)) (Some 0) false.
Lemma bolt_second : outbox (y_db boltDone) !! 1 = Some boltSecond ∧
  (("erp.stock", 2), MkPoint (MkEpoch 1 1) 2, 1) ∈ y_numbered boltDone.
Proof. split; [by vm_compute|]. apply (list_elem_of_lookup_2 _ 1%nat). by vm_compute. Qed.

Lemma bolt_resend_sent :
  2 ∈ rp_Ahead boltAnswer.1 ∨
  ∃ rs l1, l1 `sublist_of` boltAnswer.2 ∧ Forall2 (resentAs boltResender "q1") rs l1 ∧ (1, MkPoint (MkEpoch 1 1) 2) ∈ map fst rs.
Proof.
  destruct (resend_sent boltResender (λ _ _, true) stockProducer (λ _, boltDone) (still (y_db boltDone))
    boltDone_reachable (λ _, rtc_refl _ _) (λ _ _ e, f_equal (default (y_db boltDone)) (eq_sym e))
    3 "fresh" boltAfter [] boltAnswer.1 boltAnswer.2) as (st & from & l & Hst & Hfrom & Hl & Hn); [by vm_compute|].
  vm_compute in Hst. injection Hst as <-. vm_compute in Hfrom. injection Hfrom as <-.
  destruct (Hn 2 ltac:(cbn; lia)) as [Ha|Hs]; [left; exact (proj1 Ha)|right]. destruct Hs as (rs & l1 & Hl1 & Hf & _ & _ & Hall & _).
  exists rs, l1. rewrite Hl. split; [exact Hl1|]. split; [exact Hf|].
  exact (Hall 1 (MkPoint (MkEpoch 1 1) 2) boltSecond (proj2 bolt_second) eq_refl (λ _ _, proj1 bolt_second) ltac:(discriminate)).
Defined.

Lemma boltSize : (size (outbox (y_db boltDone)) < 3)%nat.
Proof. by vm_compute. Qed.
Lemma resend_returns_witness :
  ∃ answer log', Resend boltResender (still (y_db boltDone)) (λ _ _, true) 3 "fresh" boltAfter [] = Some (answer, log').
Proof.
  exact (resend_returns boltResender (λ _ _, true) (still (y_db boltDone)) boltDone
    (λ _ _ e, f_equal (default (y_db boltDone)) (eq_sym e))
    3 "fresh" boltAfter [] boltSize).
Defined.

Lemma judge_exact_witness :
  ((judge (y_db boltDone) bolt (Some (MkPoint (MkEpoch 1 1) 3))).2 = true ↔
     ∃ a, Some (MkPoint (MkEpoch 1 1) 3) = Some a ∧ ∀ o, (bolt, a, o) ∉ y_numbered boltDone) ∧
  ((judge (y_db boltDone) bolt (Some (MkPoint (MkEpoch 1 1) 3))).1 = true ↔
     ∃ pt o, (bolt, pt, o) ∈ y_numbered boltDone ∧ outbox (y_db boltDone) !! o = None ∧ afterStart (Some (MkPoint (MkEpoch 1 1) 3)) pt = true).
Proof. apply (judge_exact stockProducer); [exact boltDone_reachable|]. intros a [= <-]. by vm_compute. Defined.

(** The start is judged in a transaction of its own: rows purged between it and the
    reading are neither sent nor is their partition named. *)
Definition boltPurged : store :=
  let s := y_db boltDone in
  purgeBatch 10 [0; 1] (MkStore (outbox s) (counters s) (history s) (dbEpoch s) (dbNow s + 100)).
Definition purgedAfter (k : nat) (i : nat) : option store := Some (if decide (i ≤ k)%nat then y_db boltDone else boltPurged).
Theorem purge_between_unseen :
  (judge (y_db boltDone) bolt None).1 = false ∧ (judge boltPurged bolt None).1 = true ∧
  boltResend boltAll (purgedAfter (2 * Z.to_nat bolt.2)) = Some (Ok (MkResendResponse 0 [] []), []).
Proof. by vm_compute. Qed.
