(* ===== verification/EventsRedelivery.v ===== *)
(** * Events: asking for a redelivery

    events/redelivery.go: after a member's database went back ([WentBack]), its consumer
    side asks every producer it has seen for a redelivery of each stream, each partition
    from the smallest progress of the subscriptions that read it ([fromOf]), records the
    partitions a redelivery cannot cover ([gaps]) and settles the epoch when all answered
    ([Run]). *)
From S2P Require Import Prelude GoStr EventsStream EventsEnvelope EventsQueue EventsBus EventsProgress EventsResend.
From Stdlib Require Import Ascii String.
Open Scope string_scope.
Open Scope Z_scope.
Open Scope list_scope.

Record sourceStream := MkSourceStream { sc_component : string; sc_stream : string }.
#[export] Instance sourceStream_eq_dec : EqDecision sourceStream.
Proof. solve_decision. Defined.

(** ** Where a redelivery starts *)

Abbreviation entries := (list (SourceKey * Point)).
Definition uint32 (n : Z) : Z := n mod 2 ^ 32.

(** [fromOf]'s state: the starts, the partitions without one, and those the subscription
    at hand has. *)
Record fromState := MkFromState { fs_starts : gmap Z (string * Point); fs_open : gset Z; fs_mine : gset Z }.

(** One entry of a subscription's progress; [first] is the first subscription. *)
Definition noteEntry (ss : sourceStream) (first : bool) (st : fromState) (e : SourceKey * Point) : fromState :=
  let '(k, p) := e in
  if bool_decide (sk_Component k ≠ sc_component ss) || bool_decide (sk_Stream k ≠ sc_stream ss) then st
  else
    let n := sk_Partition k in
    let mine := {[n]} ∪ fs_mine st in
    if decide (n ∈ fs_open st) then MkFromState (fs_starts st) (fs_open st) mine
    else match fs_starts st !! n with
         | None => MkFromState (if first then <[n := (sk_Impl k, p)]> (fs_starts st) else fs_starts st) (fs_open st) mine
         | Some (impl, q) =>
             if decide (impl ≠ sk_Impl k) then MkFromState (fs_starts st) ({[n]} ∪ fs_open st) mine
             else if pointLess p q then MkFromState (<[n := (impl, p)]> (fs_starts st)) (fs_open st) mine
             else MkFromState (fs_starts st) (fs_open st) mine
         end.
(** One subscription: a start it has no progress for is none. *)
Definition noteSub (ss : sourceStream) (first : bool) (st : fromState) (l : entries) : fromState :=
  let st := foldl (noteEntry ss first) (MkFromState (fs_starts st) (fs_open st) ∅) l in
  MkFromState (fs_starts st) (fs_open st ∪ (dom (fs_starts st) ∖ fs_mine st)) (fs_mine st).
Fixpoint noteSubs (ss : sourceStream) (first : bool) (st : fromState) (ls : list entries) : fromState :=
  match ls with [] => st | l :: ls => noteSubs ss false (noteSub ss first st l) ls end.

Definition fromOne (n : Z) (x : string * Point) : PartitionFrom :=
  MkPartitionFrom (uint32 n) (Some (MkPosition x.1 (epochText (pt_Epoch x.2)) (uint64 (pt_Seq x.2)))).
(** [fromOf], of the progress of each subscription in the order it is visited. *)
Definition fromOf (ss : sourceStream) (ls : list entries) : list PartitionFrom :=
  let st := noteSubs ss true (MkFromState ∅ ∅ ∅) ls in
  omap (λ n, fromOne n <$> fs_starts st !! n) (merge_sort Z.le (elements (dom (fs_starts st) ∖ fs_open st))).

(** ** What it cannot cover *)

(** be_resend_gap. *)
Inductive gapKind := BeyondRetention | ConsumerAhead.
#[export] Instance gapKind_eq_dec : EqDecision gapKind.
Proof. solve_decision. Defined.
Record gap := MkGap {
  gp_Sub : string; gp_Component : string; gp_Stream : string; gp_Partition : Z; gp_Kind : gapKind; gp_Progress : option string }.

(** The consumer side's database, the repairs it started, and the world its calls change. *)
Record consumer W := MkConsumer {
  cn_epoch : option Epoch;         (** the database's, none when it cannot be read *)
  cn_last : option Epoch;          (** be_consumer_epoch *)
  cn_db : progressDb;
  cn_gaps : list gap;
  cn_repairs : list (string * SourceKey);
  cn_world : W }.
Arguments MkConsumer {W}.
Arguments cn_epoch {W}. Arguments cn_last {W}. Arguments cn_db {W}. Arguments cn_gaps {W}. Arguments cn_repairs {W}.
Arguments cn_world {W}.

Section redelivery.
Context {W : Type}.
#[local] Abbreviation state := (consumer W).

Definition with_gap (g : gap) (s : state) : state :=
  MkConsumer (cn_epoch s) (cn_last s) (cn_db s) (cn_gaps s ++ [g]) (cn_repairs s) (cn_world s).
Definition with_repair (sub : string) (k : SourceKey) (s : state) : state :=
  MkConsumer (cn_epoch s) (cn_last s) (cn_db s) (cn_gaps s) (cn_repairs s ++ [(sub, k)]) (cn_world s).
Definition with_world (w : W) (s : state) : state :=
  MkConsumer (cn_epoch s) (cn_last s) (cn_db s) (cn_gaps s) (cn_repairs s) w.
Definition with_last (e : option Epoch) (s : state) : state :=
  MkConsumer (cn_epoch s) e (cn_db s) (cn_gaps s) (cn_repairs s) (cn_world s).

Inductive rderr := ErrNoEpoch | CallFailed | GapFailed | ReadFailed.

(** [Redelivery.WentBack]. *)
Definition WentBack (s : state) : res rderr (bool * Epoch) * state :=
  match cn_epoch s with
  | None => (Err ErrNoEpoch, s)
  | Some cur =>
      match cn_last s with
      | None => (Ok (false, cur), with_last (Some cur) s)
      | Some last => (Ok (bool_decide (last ≠ cur), cur), s)
      end
  end.

(** [Redelivery.Settle]. *)
Definition Settle (e : Epoch) (s : state) : state := with_last ((λ _, e) <$> cn_last s) s.

(** A producer's surface, none when no address is known; whether the i-th gap can be
    written; whether a subscription has a repair. *)
Variables (conn : string → option (ResendRequest → W → res string ResendResponse * W)) (gapOk : nat → bool) (repairs : string → bool).

(** The progress a gap is recorded with, and its source. *)
Definition progressAt (ss : sourceStream) (n : Z) (l : entries) : option string * SourceKey :=
  foldl (λ acc '(k, p), if bool_decide (sk_Component k = sc_component ss) && bool_decide (sk_Stream k = sc_stream ss)
                            && bool_decide (sk_Partition k = n)
                         then (Some (sk_Impl k ++ "/" ++ pointText p)%string, k) else acc)
    (None, MkSourceKey (sc_component ss) "" (sc_stream ss) n) l.

(** [gaps]' record: a row for each subscription, and the repair of a read model. *)
Fixpoint record (ss : sourceStream) (kind : gapKind) (n : Z) (subs : list (string * entries)) (s : state) : option rderr * state :=
  match subs with
  | [] => (None, s)
  | (sub, l) :: subs =>
      let '(at_, key) := progressAt ss n l in
      if gapOk (List.length (cn_gaps s)) then
        let s := with_gap (MkGap sub (sc_component ss) (sc_stream ss) n kind at_) s in
        let s := if bool_decide (kind = BeyondRetention) && repairs sub then with_repair sub key s else s in
        record ss kind n subs s
      else (Some GapFailed, s)
  end.
Fixpoint recordAll (ss : sourceStream) (kind : gapKind) (ns : list Z) (subs : list (string * entries)) (s : state) : option rderr * state :=
  match ns with
  | [] => (None, s)
  | n :: ns => match record ss kind n subs s with (Some e, s) => (Some e, s) | (None, s) => recordAll ss kind ns subs s end
  end.
(** [Redelivery.gaps]. *)
Definition gaps (ss : sourceStream) (subs : list (string * entries)) (resp : ResendResponse) (s : state) : option rderr * state :=
  match recordAll ss BeyondRetention (rp_Beyond resp) subs s with
  | (Some e, s) => (Some e, s)
  | (None, s) => recordAll ss ConsumerAhead (rp_Ahead resp) subs s
  end.

(** [Redelivery.one]; [id] is the request's identity. *)
Definition one (id : string) (ss : sourceStream) (subs : list (string * entries)) (s : state) : option rderr * state :=
  match conn (sc_component ss) with
  | None => (None, s)
  | Some invoke =>
      match invoke (MkResendRequest (sc_stream ss) id (fromOf ss (map snd subs))) (cn_world s) with
      | (Err _, w) => (Some CallFailed, with_world w s)
      | (Ok resp, w) => gaps ss subs resp (with_world w s)
      end
  end.

(** The source streams of the inbox with the subscriptions that read each. *)
Definition seenPairs (d : progressDb) : list (sourceStream * string) :=
  remove_dups (omap (λ '((sub, _), r), match n_pos r with
                                       | Some _ => Some (MkSourceStream (n_component r) (n_stream r), sub)
                                       | None => None
                                       end) (map_to_list (g_inbox d))).
Definition seen (d : progressDb) : list (sourceStream * list string) :=
  map (λ ss, (ss, map snd (filter (λ x, x.1 = ss) (seenPairs d)))) (remove_dups (map fst (seenPairs d))).

(** The subscriptions with their progress, in the order a map is visited. *)
Definition lifetimeOf (lifetime : Z) : Z := if decide (lifetime ≤ 0) then DeliveryLifetime else lifetime.
Definition progressed (lifetime : Z) (d : progressDb) (subs : list string) : list (string * entries) :=
  map (λ sub, (sub, map_to_list (Progress d sub (lifetimeOf lifetime)))) subs.

(** [Request]'s loop: every producer is asked, whatever another answered. *)
Fixpoint askAll (id : string) (l : list (sourceStream * list (string * entries))) (s : state) : bool * state :=
  match l with
  | [] => (true, s)
  | (ss, subs) :: l =>
      let '(e, s) := one id ss subs s in
      let '(ok, s) := askAll id l s in (bool_decide (e = None) && ok, s)
  end.
(** [Redelivery.Request]; [readOk] is whether the inbox could be read. *)
Definition asked (lifetime : Z) (d : progressDb) : list (sourceStream * list (string * entries)) :=
  map (λ '(ss, subs), (ss, progressed lifetime d subs)) (seen d).
Definition Request (readOk : bool) (id : string) (lifetime : Z) (s : state) : bool * state :=
  if readOk then askAll id (asked lifetime (cn_db s)) s else (false, s).

End redelivery.

(** ** The start-up check *)

(** What an attempt of [Run] meets: the producers, which writes and reads succeed, and the
    database as other transactions left it. *)
Record attempt W := MkAttempt {
  at_conn : string → option (ResendRequest → W → res string ResendResponse * W); at_gapOk : nat → bool;
  at_readOk : bool; at_id : string; at_settleOk : bool; at_change : consumer W → consumer W }.
Arguments MkAttempt {W}.
Arguments at_conn {W}. Arguments at_gapOk {W}. Arguments at_readOk {W}. Arguments at_id {W}. Arguments at_settleOk {W}.
Arguments at_change {W}.

Section run.
Context {W : Type} (repairs : string → bool) (lifetime : Z).

(** The requests until one is answered in full; the list ends when the process stops. *)
Fixpoint requests (cur : Epoch) (l : list (attempt W)) (s : consumer W) : consumer W :=
  match l with
  | [] => s
  | a :: l =>
      let s := at_change a s in
      match Request (at_conn a) (at_gapOk a) repairs (at_readOk a) (at_id a) lifetime s with
      | (true, s) => if at_settleOk a then Settle cur s else s
      | (false, s) => requests cur l s
      end
  end.
(** [Redelivery.Run]. *)
Fixpoint Run (l : list (attempt W)) (s : consumer W) : consumer W :=
  match l with
  | [] => s
  | a :: l =>
      match WentBack (at_change a s) with
      | (Err _, s) => Run l s
      | (Ok (back, cur), s) => if back then requests cur l s else s
      end
  end.

End run.
