(* ===== verification/EventsRedeliveryProps.v ===== *)
(** * Events: what a redelivery accounts for

    Where a redelivery starts, that a row past a subscription's progress is sent again or
    recorded as a gap, and that the epoch is settled only after every producer answered. *)
From S2P Require Import Prelude GoStr EventsStream EventsEnvelope EventsOutbox EventsSys EventsOrder EventsForward EventsQueue EventsBus EventsProgress EventsResend EventsResendProps EventsRedelivery.
From Stdlib Require Import Ascii String.
Open Scope string_scope.
Open Scope Z_scope.
Open Scope list_scope.

(** ** Where a partition starts *)

(** The progress of a subscription on one partition of a source stream. *)
Definition onPart (ss : sourceStream) (n : Z) (l : entries) : list (string * Point) :=
  omap (λ '(k, p), if bool_decide (sk_Component k = sc_component ss ∧ sk_Stream k = sc_stream ss ∧ sk_Partition k = n)
                   then Some (sk_Impl k, p) else None) l.

(** The state of one partition: its start, whether it has none, whether the subscription
    has it. *)
Definition view : Type := option (string * Point) * bool * bool.
Definition viewOf (n : Z) (st : fromState) : view := (fs_starts st !! n, bool_decide (n ∈ fs_open st), bool_decide (n ∈ fs_mine st)).
Definition noteAt (first : bool) (v : view) (e : string * Point) : view :=
  let '(cur, op, _) := v in
  if op then (cur, op, true)
  else match cur with
       | None => (if first then Some e else None, false, true)
       | Some (impl, q) => if decide (impl ≠ e.1) then (cur, true, true)
                           else if pointLess e.2 q then (Some (impl, e.2), false, true) else (cur, false, true)
       end.

Lemma viewOf_is n st cur op mn :
  fs_starts st !! n = cur → (n ∈ fs_open st ↔ op = true) → (n ∈ fs_mine st ↔ mn = true) → viewOf n st = (cur, op, mn).
Proof.
  intros <- Ho Hm. unfold viewOf. f_equal; [f_equal|]; [destruct op|destruct mn];
    first [apply bool_decide_eq_true_2; tauto|apply bool_decide_eq_false_2; intros Hx; (apply Ho in Hx || apply Hm in Hx); done].
Qed.

Lemma noteEntry_view ss first n st e :
  viewOf n (noteEntry ss first st e) = foldl (noteAt first) (viewOf n st) (onPart ss n [e]).
Proof.
  destruct e as [k p]. unfold noteEntry, onPart. cbn.
  destruct (decide (sk_Component k = sc_component ss)) as [Hc|Hc].
  2: { rewrite bool_decide_eq_true_2 by done. rewrite (bool_decide_eq_false_2 (_ ∧ _)) by tauto. done. }
  destruct (decide (sk_Stream k = sc_stream ss)) as [Hs|Hs].
  2: { rewrite (bool_decide_eq_true_2 (sk_Stream k ≠ _)) by done. rewrite orb_true_r, (bool_decide_eq_false_2 (_ ∧ _)) by tauto. done. }
  rewrite !(bool_decide_eq_false_2 (_ ≠ _)) by (intros Hx; by apply Hx). cbn [orb].
  destruct (decide (sk_Partition k = n)) as [<-|Hn].
  - rewrite bool_decide_eq_true_2 by done. cbn -[viewOf]. set (n := sk_Partition k). unfold viewOf at 2.
    case_decide as Ho; [rewrite (bool_decide_eq_true_2 (n ∈ fs_open st)) by done|rewrite (bool_decide_eq_false_2 (n ∈ fs_open st)) by done].
    { apply viewOf_is; cbn; set_solver. }
    unfold noteAt. destruct (fs_starts st !! n) as [[impl q]|] eqn:Hst; cbn [fst snd];
      [case_decide; [|destruct (pointLess p q)]|destruct first]; apply viewOf_is; cbn; rewrite ?lookup_insert_eq; set_solver.
  - rewrite bool_decide_eq_false_2 by tauto. cbn -[viewOf]. set (m := sk_Partition k) in *. unfold viewOf at 2. apply viewOf_is.
    all: case_decide; [|destruct (fs_starts st !! m) as [[impl q]|]; [case_decide; [|destruct (pointLess p q)]|destruct first]];
      cbn; rewrite ?lookup_insert_ne, ?bool_decide_eq_true by done; set_solver.
Qed.

Lemma onPart_cons ss n e l : onPart ss n (e :: l) = onPart ss n [e] ++ onPart ss n l.
Proof. change (e :: l) with ([e] ++ l). apply omap_app. Qed.

Lemma noteEntries_view ss first n st l :
  viewOf n (foldl (noteEntry ss first) st l) = foldl (noteAt first) (viewOf n st) (onPart ss n l).
Proof.
  revert st. induction l as [|e l IH]; intros st; [done|]. cbn [foldl]. rewrite IH, noteEntry_view, (onPart_cons ss n e l).
  by rewrite foldl_app.
Qed.

(** What the partition's entries so far say: all of one instance, with the smallest
    position; or no start.  [ne] is that every subscription had an entry. *)
Definition uniform (impl : string) (l : list (string * Point)) : Prop := ∀ e, e ∈ l → e.1 = impl.
Definition least (l : list (string * Point)) (e : string * Point) : Prop := e ∈ l ∧ ∀ e', e' ∈ l → pointLe e.2 e'.2.
Definition says (v : view) (l : list (string * Point)) (ne : Prop) : Prop :=
  match v with
  | (Some e, false, _) => ne ∧ uniform e.1 l ∧ least l e
  | (None, false, _) => ¬ ne
  | (_, true, _) => ¬ (ne ∧ ∃ impl, uniform impl l)
  end.

Lemma says_iff v l ne ne' : (ne ↔ ne') → says v l ne → says v l ne'.
Proof. destruct v as [[[e|] []] mn]; cbn; tauto. Qed.

Lemma noteAt_says first v l ne e :
  says v l ne → (first = true → v.1.1 ≠ None) → says (noteAt first v e) (l ++ [e]) ne.
Proof.
  assert (Huni : ∀ impl, uniform impl (l ++ [e]) → uniform impl l ∧ e.1 = impl).
  { intros impl Hu. split; [intros x Hx|]; apply Hu; set_solver. }
  destruct v as [[cur op] mn]. unfold noteAt, says.
  destruct op; [destruct cur; intros Hn _ (Hne & impl & Hu); apply Hn; split; [done| |done|]; exists impl; by apply Huni|].
  destruct cur as [[impl q]|]; cbn [fst snd].
  - intros (Hne & Hu & Hin & Hl) _. case_decide as Hi.
    + intros (_ & impl' & Hu'). apply Huni in Hu' as [Hu' <-]. apply Hi. by rewrite <- (Hu' _ Hin).
    + assert (Hu' : uniform impl (l ++ [e])).
      { intros x [Hx| ->%list_elem_of_singleton]%elem_of_app; [by apply Hu|done]. }
      destruct (pointLess e.2 q) eqn:Hlt; cbn; (split; [done|]; split; [done|]; split).
      * destruct e as [i p]. cbn in *. subst. set_solver.
      * intros x [Hx| ->%list_elem_of_singleton]%elem_of_app; [|apply pointLe_refl].
        eapply pointLe_trans; [by apply pointLt_le|apply (Hl _ Hx)].
      * set_solver.
      * intros x [Hx| ->%list_elem_of_singleton]%elem_of_app; [apply (Hl _ Hx)|exact Hlt].
  - intros Hne Hf. destruct first; [by destruct Hf|done].
Qed.
Lemma noteAt_some first v e : v.1.1 ≠ None → (noteAt first v e).1.1 ≠ None.
Proof. destruct v as [[[[impl q]|] op] mn]; [|done]. cbn. intros _. destruct op; [done|]. case_decide; [done|]. by destruct (pointLess _ _). Qed.

Lemma noteAll_says first v l l' ne :
  says v l ne → (first = true → v.1.1 ≠ None) → says (foldl (noteAt first) v l') (l ++ l') ne.
Proof.
  revert v l. induction l' as [|e l' IH]; intros v l Hs Hf; cbn; [by rewrite app_nil_r|].
  replace (l ++ e :: l') with ((l ++ [e]) ++ l') by (by rewrite <- app_assoc). apply IH; [by apply noteAt_says|].
  intros Ht. apply noteAt_some. auto.
Qed.
Lemma noteAll_mine first v l : l ≠ [] → (foldl (noteAt first) v l).2 = true.
Proof.
  induction l as [|e l _] using rev_ind; [done|]. intros _. rewrite foldl_snoc. set (w := foldl _ v l).
  destruct w as [[cur op] mn]. cbn. destruct op; [done|]. destruct cur as [[impl q]|]; [|done]. case_decide; [done|]. by destruct (pointLess _ _).
Qed.

(** One subscription on one partition. *)
Definition subAt (first : bool) (v : view) (l : list (string * Point)) : view :=
  let '(cur, op, mn) := foldl (noteAt first) (v.1, false) l in (cur, op || (bool_decide (cur ≠ None) && negb mn), mn).

Lemma noteSub_view ss first n st l : viewOf n (noteSub ss first st l) = subAt first (viewOf n st) (onPart ss n l).
Proof.
  unfold noteSub, subAt. pose proof (noteEntries_view ss first n (MkFromState (fs_starts st) (fs_open st) ∅) l) as He.
  set (st' := foldl _ _ l) in *. unfold viewOf at 2 in He. cbn [fs_starts fs_open fs_mine] in He.
  rewrite (bool_decide_eq_false_2 (n ∈ ∅)) in He by set_solver. unfold viewOf at 2. cbn [fst]. rewrite <- He.
  unfold viewOf at 2. apply viewOf_is; cbn; [done| |].
  - rewrite elem_of_union, elem_of_difference, elem_of_dom, orb_true_iff, andb_true_iff, negb_true_iff.
    rewrite !bool_decide_eq_true, bool_decide_eq_false. by rewrite not_eq_None_Some.
  - by rewrite bool_decide_eq_true.
Qed.

Lemma subAt_says (first : bool) v l l' ne :
  (if first then v.1 = (None, false) ∧ l = [] ∧ ne else says v l ne) → says (subAt first v l') (l ++ l') (ne ∧ l' ≠ []).
Proof.
  intros Hv. unfold subAt. destruct l' as [|e l'].
  - cbn [foldl]. rewrite app_nil_r. destruct v as [[cur op] mn]. cbn [fst]. unfold says. destruct first.
    + destruct Hv as [[= -> ->] _]. cbn. naive_solver.
    + destruct cur as [c|], op; cbn; naive_solver.
  - assert (Hs : says (foldl (noteAt first) (v.1, false) (e :: l')) (l ++ e :: l') ne).
    { destruct first.
      - destruct Hv as (Hv & -> & Hne). rewrite Hv. cbn [foldl noteAt app].
        apply (noteAll_says true (Some e, false, true) [e] l' ne); [|done]. split; [done|]. split; [by intros x ->%list_elem_of_singleton|]. split; [apply list_elem_of_here|].
        intros x ->%list_elem_of_singleton. apply pointLe_refl.
      - apply noteAll_says; [|done]. by destruct v as [[cur op] mn]. }
    pose proof (noteAll_mine first (v.1, false) (e :: l') ltac:(done)) as Hm.
    destruct (foldl _ _ _) as [[cur op] mn]. cbn in Hm. subst mn. rewrite andb_false_r, orb_false_r.
    unfold says in *. destruct cur, op; naive_solver.
Qed.

Definition flatPart (ss : sourceStream) (n : Z) (ls : list entries) : list (string * Point) := List.concat (map (onPart ss n) ls).
Definition allHave (ss : sourceStream) (n : Z) (ls : list entries) : Prop := ∀ l, l ∈ ls → onPart ss n l ≠ [].

Lemma noteSubs_says ss n st ls done_ ne :
  says (viewOf n st) done_ ne → says (viewOf n (noteSubs ss false st ls)) (done_ ++ flatPart ss n ls) (ne ∧ allHave ss n ls).
Proof.
  revert st done_ ne. induction ls as [|l ls IH]; intros st dn ne Hs; cbn [noteSubs].
  - unfold flatPart. cbn [map List.concat]. rewrite app_nil_r. assert (Ha : allHave ss n []) by (by intros l ?%elem_of_nil).
    eapply says_iff; [|exact Hs]. tauto.
  - assert (Hs' := IH (noteSub ss false st l) (dn ++ onPart ss n l) (ne ∧ onPart ss n l ≠ [])).
    rewrite noteSub_view in Hs'. specialize (Hs' (subAt_says false _ _ _ _ Hs)). unfold flatPart in *. cbn [map List.concat]. rewrite <- app_assoc in Hs'.
    assert (Ha : allHave ss n (l :: ls) ↔ onPart ss n l ≠ [] ∧ allHave ss n ls).
    { unfold allHave. setoid_rewrite elem_of_cons. naive_solver. }
    eapply says_iff; [|exact Hs']. tauto.
Qed.

(** A partition has a start exactly when every subscription has progress on it, all of one
    instance, and the start is the smallest. *)
Lemma noteSubs_start ss n l ls impl p (st := noteSubs ss true (MkFromState ∅ ∅ ∅) (l :: ls)) :
  (fs_starts st !! n = Some (impl, p) ∧ n ∉ fs_open st) ↔
  allHave ss n (l :: ls) ∧ uniform impl (flatPart ss n (l :: ls)) ∧ least (flatPart ss n (l :: ls)) (impl, p).
Proof.
  assert (Hs : says (viewOf n st) (flatPart ss n (l :: ls)) (allHave ss n (l :: ls))).
  { subst st. cbn [noteSubs]. assert (H1 : says (viewOf n (noteSub ss true (MkFromState ∅ ∅ ∅) l)) (onPart ss n l) (True ∧ onPart ss n l ≠ [])).
    { rewrite noteSub_view. apply (subAt_says true _ []). split; [|done]. done. }
    apply (noteSubs_says ss n _ ls) in H1. unfold flatPart in *. cbn [map List.concat].
    assert (Ha : allHave ss n (l :: ls) ↔ onPart ss n l ≠ [] ∧ allHave ss n ls).
    { unfold allHave. setoid_rewrite elem_of_cons. naive_solver. }
    eapply says_iff; [|exact H1]. tauto. }
  unfold viewOf, says in Hs. destruct (fs_starts st !! n) as [e|]; case_bool_decide as Ho.
  - split; [by intros [_ ?]|]. intros (Ha & Hu & _). destruct Hs. eauto.
  - split; [intros [[= ->] _]; naive_solver|]. intros (Ha & Hu & Hl). split; [|done]. f_equal. destruct Hs as (_ & Hu' & Hl').
    destruct e as [i q]. cbn in *. destruct Hl as [Hin Hle], Hl' as [Hin' Hle']. f_equal; [by rewrite <- (Hu _ Hin')|].
    apply pointLess_total; [apply (Hle _ Hin')|apply (Hle' _ Hin)].
  - split; [by intros [? _]|]. intros (Ha & Hu & _). destruct Hs. eauto.
  - split; [by intros [? _]|]. intros (Ha & _). by destruct Hs.
Qed.

Lemma fromOf_elem ss l ls f :
  f ∈ fromOf ss (l :: ls) ↔
  ∃ n impl p, f = fromOne n (impl, p) ∧ allHave ss n (l :: ls) ∧
    uniform impl (flatPart ss n (l :: ls)) ∧ least (flatPart ss n (l :: ls)) (impl, p).
Proof.
  unfold fromOf. set (st := noteSubs _ _ _ _). rewrite list_elem_of_omap. setoid_rewrite merge_sort_Permutation.
  setoid_rewrite elem_of_elements. setoid_rewrite elem_of_difference. split.
  - intros (n & [_ Ho] & Hf). apply fmap_Some in Hf as ([impl p] & Hst & ->). exists n, impl, p. split; [done|].
    by apply noteSubs_start.
  - intros (n & impl & p & -> & Hg). apply noteSubs_start in Hg as [Hst Ho]. exists n. split; [split; [|done]|].
    + apply elem_of_dom. by exists (impl, p).
    + fold st in Hst. by rewrite Hst.
Qed.

Lemma onPart_elem ss n l impl p :
  (impl, p) ∈ onPart ss n l ↔ (MkSourceKey (sc_component ss) impl (sc_stream ss) n, p) ∈ l.
Proof.
  unfold onPart. rewrite list_elem_of_omap. split.
  - intros ([k q] & Hin & Hk). case_bool_decide as Hc; [|done]. destruct Hc as (<- & <- & <-). injection Hk as <- <-. by destruct k.
  - intros Hin. eexists (_, _). split; [exact Hin|]. cbn. by rewrite bool_decide_eq_true_2.
Qed.
Lemma flatPart_elem ss n ls e : e ∈ flatPart ss n ls ↔ ∃ l, l ∈ ls ∧ e ∈ onPart ss n l.
Proof.
  unfold flatPart. induction ls as [|l ls IH]; cbn; [split; [by intros ?%elem_of_nil|by intros (l & ?%elem_of_nil & _)]|].
  rewrite elem_of_app, IH. setoid_rewrite elem_of_cons. naive_solver.
Qed.

(** A redelivery is asked for from the smallest progress, in whatever order the maps are
    visited: a partition has a start exactly when every subscription has progress on it on
    one instance and on no other, and the start is the smallest of their positions. *)
Theorem from_smallest ss (ls : list entries) (ms : list (gmap SourceKey Point)) f :
  ls ≠ [] → Forall2 (λ l m, l ≡ₚ map_to_list m) ls ms →
  f ∈ fromOf ss ls ↔
  ∃ n impl p, f = fromOne n (impl, p) ∧
    (∀ m, m ∈ ms → ∃ q, m !! MkSourceKey (sc_component ss) impl (sc_stream ss) n = Some q ∧ pointLe p q) ∧
    (∀ m impl', m ∈ ms → impl' ≠ impl → m !! MkSourceKey (sc_component ss) impl' (sc_stream ss) n = None) ∧
    ∃ m, m ∈ ms ∧ m !! MkSourceKey (sc_component ss) impl (sc_stream ss) n = Some p.
Proof.
  intros Hne Hm. assert (Hlm : ∀ n, (∀ l, l ∈ ls → ∃ m, m ∈ ms ∧ ∀ impl q, (impl, q) ∈ onPart ss n l ↔ m !! MkSourceKey (sc_component ss) impl (sc_stream ss) n = Some q) ∧
    (∀ m, m ∈ ms → ∃ l, l ∈ ls ∧ ∀ impl q, (impl, q) ∈ onPart ss n l ↔ m !! MkSourceKey (sc_component ss) impl (sc_stream ss) n = Some q)).
  { intros n. clear Hne. assert (Hx : ∀ l (m : gmap SourceKey Point), l ≡ₚ map_to_list m → ∀ impl q,
      (impl, q) ∈ onPart ss n l ↔ m !! MkSourceKey (sc_component ss) impl (sc_stream ss) n = Some q).
    { intros l m Hp impl q. by rewrite onPart_elem, Hp, elem_of_map_to_list. }
    induction Hm as [|l m ls ms Hlm Hm [IH1 IH2]]; [split; by intros ? ?%elem_of_nil|].
    split; intros x [->|Hin]%elem_of_cons; [exists m|destruct (IH1 _ Hin) as (m' & ? & ?); exists m'|exists l|destruct (IH2 _ Hin) as (l' & ? & ?); exists l'];
      (split; [set_solver|auto]). }
  destruct ls as [|l0 ls]; [done|]. rewrite fromOf_elem. apply exist_proper; intros n; apply exist_proper; intros impl; apply exist_proper; intros p.
  destruct (Hlm n) as [H1 H2]. apply and_iff_compat_l. unfold least. setoid_rewrite flatPart_elem. split.
  - intros (Ha & Hu & (l & Hl & Hin) & Hle).
    assert (Hu' : ∀ l i q, l ∈ l0 :: ls → (i, q) ∈ onPart ss n l → i = impl ∧ pointLe p q).
    { intros l' i q Hl' Hq. split; [apply (Hu (i, q)), flatPart_elem; eauto|apply (Hle (i, q)); eauto]. }
    split; [|split].
    + intros m (l' & Hl' & Hx)%H2. destruct (onPart ss n l') as [|[i q] r] eqn:Hr; [by destruct (Ha l')|].
      assert (Hq : (i, q) ∈ onPart ss n l') by (rewrite Hr; apply list_elem_of_here). rewrite Hr in Hq.
      exists q. rewrite <- Hx. destruct (Hu' l' i q) as [-> ?]; [done|by rewrite Hr|done].
    + intros m i' (l' & Hl' & Hx)%H2 Hi. destruct (m !! _) as [q|] eqn:Hq; [|done]. apply Hx in Hq. by destruct (Hu' l' i' q).
    + destruct (H1 l Hl) as (m & Hin' & Hx). exists m. rewrite <- Hx. done.
  - intros (Ha & Hu & m0 & Hm0 & Hp).
    assert (Hu' : ∀ l i q, l ∈ l0 :: ls → (i, q) ∈ onPart ss n l → i = impl ∧ pointLe p q).
    { intros l i q (m & Hin & Hx)%H1 Hq%Hx. destruct (decide (i = impl)) as [->|Hi]; [|by rewrite (Hu m i) in Hq].
      split; [done|]. destruct (Ha m Hin) as (q' & Hq' & ?). congruence. }
    split; [|split; [|split]].
    + intros l (m & Hin & Hx)%H1 Hnil. destruct (Ha m Hin) as (q & Hq & _). apply Hx in Hq. rewrite Hnil in Hq. by apply elem_of_nil in Hq.
    + intros [i q] (l & Hl & Hq)%flatPart_elem. by apply (Hu' l i q).
    + destruct (H2 m0 Hm0) as (l & Hl & Hx). exists l. by rewrite Hx.
    + intros [i q] (l & Hl & Hq). by apply (Hu' l i q).
Qed.

(** ** The producer reads the starts back *)

Definition validEntries (l : entries) : Prop :=
  ∀ k p, (k, p) ∈ l → epochValid (pt_Epoch p) ∧ 0 ≤ pt_Seq p ≤ int64_max ∧ 0 ≤ sk_Partition k < 2 ^ 32.

Lemma int64_uint64 n : 0 ≤ n ≤ int64_max → int64 (uint64 n) = n.
Proof. unfold int64, uint64, int64_max. intros H. rewrite (Z.mod_small n) by lia. rewrite Z.mod_small by lia. lia. Qed.

Lemma starts_lookup impl parts l m from n a :
  starts impl parts l m = Ok from → from !! n = Some a →
  m !! n = Some a ∨ ∃ pos e, MkPartitionFrom n (Some pos) ∈ l ∧ ps_Impl pos = impl ∧
    ParseEpoch (ps_Epoch pos) = Ok e ∧ a = MkPoint e (int64 (ps_Seq pos)).
Proof.
  revert m. induction l as [|[n' after] l IH]; intros m; cbn; [intros [= ->]; by left|]. case_decide; [done|].
  destruct after as [pos|]; [case_decide as Hi|].
  - intros Hs Hn. destruct (IH _ Hs Hn) as [|(pos' & e & Hin & ?)]; [by left|right]. exists pos', e. set_solver.
  - destruct (ParseEpoch _) as [e|] eqn:He; [|done]. intros Hs Hn. destruct (IH _ Hs Hn) as [Hm|(pos' & e' & Hin & ?)].
    + destruct (decide (n' = n)) as [->|Hne]; [|rewrite lookup_insert_ne in Hm by done; by left].
      rewrite lookup_insert_eq in Hm. injection Hm as <-. right. exists pos, e. split; [apply list_elem_of_here|]. done.
    + right. exists pos', e'. set_solver.
  - intros Hs Hn. destruct (IH _ Hs Hn) as [|(pos' & e & Hin & ?)]; [by left|right]. exists pos', e. set_solver.
Qed.

(** A start the producer reads is at or before the progress of every subscription. *)
Lemma start_before impl parts ss ls from n a l :
  Forall validEntries ls → starts impl parts (fromOf ss ls) ∅ = Ok from → from !! n = Some a → l ∈ ls →
  ∃ q, (MkSourceKey (sc_component ss) impl (sc_stream ss) n, q) ∈ l ∧ pointLe a q.
Proof.
  intros Hv Hs Hn Hl. destruct ls as [|l0 ls]; [by apply elem_of_nil in Hl|].
  destruct (starts_lookup _ _ _ _ _ _ _ Hs Hn) as [?|(pos & e & Hin & Himpl & He & ->)]; [done|].
  apply fromOf_elem in Hin as (n' & i & p & [= -> ->] & Ha & Hu & Hin & Hle). cbn in Himpl, He. subst i.
  rewrite Forall_forall in Hv. apply flatPart_elem in Hin as (l1 & Hl1 & Hp%onPart_elem).
  destruct (Hv _ Hl1 _ _ Hp) as (Hve & Hq & Hpart). cbn in Hpart. rewrite ParseEpoch_text in He by done. injection He as <-.
  unfold uint32. rewrite Z.mod_small by lia. cbn [ps_Seq]. rewrite int64_uint64 by done.
  destruct (onPart ss n' l) as [|[i q] r] eqn:Hr; [by destruct (Ha l)|].
  assert (Hq' : (i, q) ∈ onPart ss n' l) by (rewrite Hr; apply list_elem_of_here).
  assert (Hf : (i, q) ∈ flatPart ss n' (l0 :: ls)) by (apply flatPart_elem; eauto).
  exists q. rewrite <- onPart_elem. rewrite <- (Hu _ Hf) at 1. split; [done|]. destruct p. exact (Hle _ Hf).
Qed.

(** ** Gaps are recorded *)

Section gaps.
Context {W : Type} (gapOk : nat → bool) (repairs : string → bool) (ss : sourceStream).

(** The rows of a gap for every subscription, and nothing taken away. *)
Definition recorded (kind : gapKind) (n : Z) (subs : list (string * entries)) (s : consumer W) : Prop :=
  ∀ sub l, (sub, l) ∈ subs → ∃ at_, MkGap sub (sc_component ss) (sc_stream ss) n kind at_ ∈ cn_gaps s.
Definition extends (s s' : consumer W) : Prop := cn_gaps s ⊆ cn_gaps s' ∧ cn_world s' = cn_world s.

Lemma extends_trans s1 s2 s3 : extends s1 s2 → extends s2 s3 → extends s1 s3.
Proof. intros [H1 H2] [H3 H4]. split; [set_solver|congruence]. Qed.
Lemma recorded_extends kind n subs s s' : extends s s' → recorded kind n subs s → recorded kind n subs s'.
Proof. intros [He _] Hr sub l Hin. destruct (Hr _ _ Hin) as [a Ha]. exists a. by apply He. Qed.

Lemma record_ok kind n subs s s' :
  record gapOk repairs ss kind n subs s = (None, s') → extends s s' ∧ recorded kind n subs s'.
Proof.
  revert s. induction subs as [|[sub l] subs IH]; intros s; cbn.
  - intros [= <-]. split; [done|]. by intros ? ? ?%elem_of_nil.
  - destruct (progressAt ss n l) as [at_ key]. destruct (gapOk _); [|done]. set (g := MkGap _ _ _ _ _ _).
    set (s1 := if _ && _ then _ else _). assert (He : extends s s1 ∧ g ∈ cn_gaps s1).
    { subst s1. destruct (_ && _); cbn; (split; [split; [set_solver|done]|set_solver]). }
    intros [He' Hr]%IH. split; [by eapply extends_trans; [apply He|]|]. intros sub' l' [[= -> ->]|Hin]%elem_of_cons; [|by eapply Hr].
    exists at_. apply He'. apply He.
Qed.
Lemma recordAll_ok kind ns subs s s' :
  recordAll gapOk repairs ss kind ns subs s = (None, s') → extends s s' ∧ ∀ n, n ∈ ns → recorded kind n subs s'.
Proof.
  revert s. induction ns as [|n ns IH]; intros s; cbn.
  - intros [= <-]. split; [done|]. by intros ? ?%elem_of_nil.
  - destruct (record _ _ _ _ _ _ _) as [[e|] s1] eqn:Hr; [done|]. apply record_ok in Hr as [He Hr].
    intros [He' Hr']%IH. split; [by eapply extends_trans|]. intros n' [->|Hin]%elem_of_cons; [by eapply recorded_extends|by apply Hr'].
Qed.
Lemma gaps_ok subs resp s s' :
  gaps gapOk repairs ss subs resp s = (None, s') →
  extends s s' ∧ (∀ n, n ∈ rp_Beyond resp → recorded BeyondRetention n subs s') ∧
  (∀ n, n ∈ rp_Ahead resp → recorded ConsumerAhead n subs s').
Proof.
  unfold gaps. destruct (recordAll _ _ _ _ _ _ _) as [[e|] s1] eqn:Hr; [done|]. apply recordAll_ok in Hr as [He Hr].
  intros [He' Hr']%recordAll_ok. split; [by eapply extends_trans|]. split; [|done].
  intros n Hin. eapply recorded_extends; [exact He'|auto].
Qed.

End gaps.

(** ** A producer and its consumers *)

(** The producer's surface over its outbox: the messages it sent are the world. *)
Definition surface `{Codec} (r : Resender) (dbs : nat → option store) (accepts : nat → Z → bool) (fuel : nat) (fresh : string)
    (req : ResendRequest) (w : list (Z * Message)) : res string ResendResponse * list (Z * Message) :=
  match Resend r dbs accepts fuel fresh req w with
  | Some (Ok resp, w) => (Ok resp, w)
  | Some (Err _, w) => (Err "refused", w)
  | None => (Err "deadline", w)
  end.

Lemma streamOf_name p name st : streamOf p name = Some st → st_Name st = name.
Proof.
  unfold streamOf. intros Hf. apply fmap_Some in Hf as (x & Hf & ->). apply find_some in Hf as [_ Hf].
  by apply bool_decide_eq_true in Hf.
Qed.

Lemma in_range_start impl parts ss (subs : list (string * entries)) from n sub l pt :
  Forall validEntries (map snd subs) → starts impl parts (fromOf ss (map snd subs)) ∅ = Ok from → (sub, l) ∈ subs →
  (∀ q, (MkSourceKey (sc_component ss) impl (sc_stream ss) n, q) ∈ l → pointLess q pt = true) →
  afterStart (from !! n) pt = true.
Proof.
  intros Hv Hfrom Hin Hq. destruct (from !! n) as [a|] eqn:Ha; [|done].
  destruct (start_before _ _ _ _ _ _ _ l Hv Hfrom Ha) as (q & Hq' & Hle).
  { apply list_elem_of_fmap. by exists (sub, l). }
  cbn. specialize (Hq _ Hq'). destruct (pointLess a pt) eqn:Hap; [done|].
  assert (Hx : pointLe pt q) by (eapply pointLe_trans; [exact Hap|exact Hle]). unfold pointLe in Hx. congruence.
Qed.

Section accounts.
Context `{Codec} (r : Resender) (accepts : nat → Z → bool) (p : Producer) (ys : nat → sys) (dbs : nat → option store).
Hypothesis Hy0 : reachable p (ys 0%nat).
Hypothesis Hrun : ∀ i, rtc (step p) (ys i) (ys (S i)).
Hypothesis Hdb : ∀ i s, dbs i = Some s → s = y_db (ys i).
Variables (conn : string → option (ResendRequest → list (Z * Message) → res string ResendResponse * list (Z * Message))).
Variables (gapOk : nat → bool) (repairs : string → bool) (ss : sourceStream) (fuel : nat) (fresh : string).
Hypothesis Hconn : conn (sc_component ss) = Some (surface r dbs accepts fuel fresh).

(** C10. A redelivery accounts for every event that no purge takes from the outbox while it
    runs: when the producer's answer was recorded, each row of the stream that was
    published and stays in the outbox until the redelivery is over, or was published and
    purged before it began, and is past the progress of a subscription that reads it, was
    sent again, or the subscription has a gap recorded for the row's partition. The rows a
    purge takes meanwhile are excepted for a reason: the start is judged in one transaction
    and the rows are read in later ones ([purge_between_unseen]). *)
Theorem redelivery_accounts id subs s s' sub l n o pt :
  Forall validEntries (map snd subs) → EventsRedelivery.one conn gapOk repairs id ss subs s = (None, s') → (sub, l) ∈ subs →
  (∀ st, streamOf (rs_Producer r) (sc_stream ss) = Some st → 0 ≤ n < st_Partitions st) →
  ((sc_stream ss, n), pt, o) ∈ y_numbered (ys 0%nat) →
  (∀ orw, outbox (y_db (ys 0%nat)) !! o = Some orw → o_published orw ≠ None ∧ staysFrom ys 0 o orw) →
  (∀ q, (MkSourceKey (sc_component ss) (rs_Impl r) (sc_stream ss) n, q) ∈ l → pointLess q pt = true) →
  (∃ m, (o, m) ∈ cn_world s') ∨
  (∃ kind at_, MkGap sub (sc_component ss) (sc_stream ss) n kind at_ ∈ cn_gaps s').
Proof.
  intros Hv Hone Hin Hn Hnum Hstays Hq. unfold EventsRedelivery.one in Hone. rewrite Hconn in Hone. unfold surface in Hone.
  destruct (Resend r dbs accepts fuel fresh _ _) as [[[resp|e] w]|] eqn:Hr; [|done..].
  apply gaps_ok in Hone as ([_ Hw] & Hbeyond & Hahead). cbn in Hw.
  apply (resend_sent r accepts p ys dbs Hy0 Hrun Hdb) in Hr as (st & from & l0 & Hst & Hfrom & -> & Hall).
  cbn [rq_Stream rq_From] in *. pose proof (streamOf_name _ _ _ Hst) as Hname. destruct (Hall n (Hn _ Hst)) as [[Ha _]|Hs].
  { right. destruct (Hahead _ Ha _ _ Hin) as [a Ha']. eauto. }
  destruct Hs as (rs & l1 & Hl1 & Hrs & _ & _ & Hsent & Hgone). rewrite Hname in Hsent, Hgone.
  assert (Hafter : afterStart (from !! n) pt = true) by (by eapply in_range_start).
  destruct (outbox (y_db (ys 0%nat)) !! o) as [orw|] eqn:Ho.
  - left. destruct (Hstays _ eq_refl) as [Hpub Hst']. specialize (Hsent o pt orw Hnum Hafter Hst' Hpub). apply list_elem_of_fmap in Hsent as (x & Hx & Hxin).
    apply list_elem_of_lookup in Hxin as [i Hi]. destruct (Forall2_lookup_l _ _ _ _ _ Hrs Hi) as ([o' m] & Hi' & [He _]).
    exists m. rewrite Hw. apply elem_of_app. right. cbn in He. subst o'. replace o with x.1.1 by (by rewrite <- Hx).
    eapply elem_of_sublist; [by eapply list_elem_of_lookup_2|done].
  - right. destruct (Hbeyond _ (Hgone o pt Hnum Hafter Ho) _ _ Hin) as [a Ha]. eauto.
Qed.

End accounts.

(** ** The epoch is settled last *)

Section settle.
Context {W : Type} (repairs : string → bool) (lifetime : Z).

Definition keepsLast (s s' : consumer W) : Prop := cn_last s' = cn_last s ∧ cn_db s' = cn_db s.

Lemma record_last gapOk ss kind n subs s : keepsLast s (record gapOk repairs ss kind n subs s).2.
Proof.
  revert s. induction subs as [|[sub l] subs IH]; intros s; cbn; [done|]. destruct (progressAt ss n l). destruct (gapOk _); [|done].
  destruct (_ && _); match goal with |- keepsLast _ (record _ _ _ _ _ _ ?t).2 => exact (IH t) end.
Qed.
Lemma recordAll_last gapOk ss kind ns subs s : keepsLast s (recordAll gapOk repairs ss kind ns subs s).2.
Proof.
  revert s. induction ns as [|n ns IH]; intros s; cbn; [done|]. pose proof (record_last gapOk ss kind n subs s) as Hr.
  destruct (record _ _ _ _ _ _ _) as [[e|] s1]; [done|]. destruct (IH s1) as [H1 H2], Hr as [H3 H4]. cbn in *. split; congruence.
Qed.
Lemma one_last conn gapOk id ss subs s : keepsLast s (EventsRedelivery.one conn gapOk repairs id ss subs s).2.
Proof.
  unfold EventsRedelivery.one. destruct (conn _) as [f|]; [|done]. destruct (f _ _) as [[resp|e] w]; [|done]. unfold gaps.
  pose proof (recordAll_last gapOk ss BeyondRetention (rp_Beyond resp) subs (with_world w s)) as H1.
  destruct (recordAll _ _ _ BeyondRetention _ _ _) as [[e|] s1]; [done|].
  destruct (recordAll_last gapOk ss ConsumerAhead (rp_Ahead resp) subs s1) as [H2 H3], H1 as [H4 H5]. cbn in *. split; congruence.
Qed.
Lemma askAll_spec conn gapOk id l s :
  keepsLast s (askAll conn gapOk repairs id l s).2 ∧
  ((askAll conn gapOk repairs id l s).1 = true → ∀ ss subs, (ss, subs) ∈ l →
     ∃ t t', EventsRedelivery.one conn gapOk repairs id ss subs t = (None, t')).
Proof.
  revert s. induction l as [|[ss subs] l IH]; intros s; cbn; [split; [done|]; by intros _ ? ? ?%elem_of_nil|].
  pose proof (one_last conn gapOk id ss subs s) as H1. destruct (EventsRedelivery.one _ _ _ _ _ _ s) as [e s1] eqn:Ho.
  destruct (IH s1) as [H2 Hall]. destruct (askAll _ _ _ _ l s1) as [ok s2]. cbn in *. split.
  - destruct H1, H2. split; congruence.
  - intros [He Hok]%andb_true_iff ss' subs' [[= -> ->]|Hin]%elem_of_cons; [|by apply Hall].
    apply bool_decide_eq_true in He. subst. eauto.
Qed.

(** An attempt whose requests were all answered and whose epoch was settled. *)
Definition answered (l : list (attempt W)) : Prop :=
  ∃ a (t : consumer W), a ∈ l ∧ at_settleOk a = true ∧ at_readOk a = true ∧ ∀ ss subs, (ss, subs) ∈ asked lifetime (cn_db t) →
    ∃ t1 t2, EventsRedelivery.one (at_conn a) (at_gapOk a) repairs (at_id a) ss subs t1 = (None, t2).
Lemma answered_cons a l : answered l → answered (a :: l).
Proof. intros (a' & t & Hin & ?). exists a', t. split; [by apply list_elem_of_further|done]. Qed.

Lemma requests_settled cur l s old :
  (∀ a t, a ∈ l → cn_last (at_change a t) = cn_last t) → cn_last s = Some old →
  cn_last (requests repairs lifetime cur l s) ≠ Some old → answered l.
Proof.
  revert s. induction l as [|a l IH]; intros s Hc Hs; cbn; [done|]. unfold Request.
  assert (Ha : cn_last (at_change a s) = Some old) by (rewrite Hc by apply list_elem_of_here; done).
  assert (IH' : ∀ s, cn_last s = Some old → cn_last (requests repairs lifetime cur l s) ≠ Some old → answered (a :: l)).
  { intros s' Hs' Hx. apply answered_cons. eapply IH; [|exact Hs'|exact Hx]. intros b t Hb. apply Hc. by apply list_elem_of_further. }
  destruct (at_readOk a) eqn:Hr; [|by apply IH'].
  destruct (askAll_spec (at_conn a) (at_gapOk a) (at_id a) (asked lifetime (cn_db (at_change a s))) (at_change a s)) as [[H1 _] Hall].
  destruct (askAll _ _ _ _ _ _) as [[] s1]; cbn in *; [|apply IH'; congruence].
  destruct (at_settleOk a) eqn:Hst; [intros _|congruence].
  exists a, (at_change a s). split; [apply list_elem_of_here|]. split; [done|]. split; [done|]. by apply Hall.
Qed.

(** The epoch the consumer side runs on is settled last: when it changes from the one
    recorded before, in one attempt every producer of the inbox's streams that has an
    address answered, and the gaps of all of them were written. *)
Theorem settles_after_answers l s old :
  (∀ a t, a ∈ l → cn_last (at_change a t) = cn_last t) → cn_last s = Some old →
  cn_last (Run repairs lifetime l s) ≠ Some old → answered l.
Proof.
  revert s. induction l as [|a l IH]; intros s Hc Hs; cbn; [done|]. unfold WentBack.
  assert (Hlater : ∀ b t, b ∈ l → cn_last (at_change b t) = cn_last t) by (intros b t Hb; apply Hc; by apply list_elem_of_further).
  assert (Ha : cn_last (at_change a s) = Some old) by (rewrite Hc by apply list_elem_of_here; done).
  destruct (cn_epoch (at_change a s)) as [cur|]; [|intros Hx; by eapply answered_cons, IH].
  rewrite Ha. case_bool_decide as Hb; [|by rewrite Ha]. intros Hx. by eapply answered_cons, requests_settled.
Qed.

End settle.

(** ** A concrete redelivery *)

(** The stock member saw the first row of [bolt]; its database is of epoch 1.2 now, while
    its consumer side last ran on 1.1. *)
Definition boltSource : sourceStream := MkSourceStream "acme/erp" "erp.stock".
Definition boltKey : SourceKey := MkSourceKey "acme/erp" "i1" "erp.stock" 2.
Definition boltSubs : list (string * entries) :=
  [("stock", [(boltKey, MkPoint (MkEpoch 1 1) 1)]); ("sales", [(boltKey, MkPoint (MkEpoch 1 1) 1)])].
Definition boltSurface : ResendRequest → list (Z * Message) → res string ResendResponse * list (Z * Message) :=
  surface boltResender (still (y_db boltDone)) (λ _ _, true) 3 "fresh".
Definition boltConn (c : string) : option (ResendRequest → list (Z * Message) → res string ResendResponse * list (Z * Message)) :=
  if decide (c = "acme/erp") then Some boltSurface else None.
Definition boltConsumer (d : progressDb) : consumer (list (Z * Message)) :=
  MkConsumer (Some (MkEpoch 1 2)) (Some (MkEpoch 1 1)) d [] [] [].
Definition boltOneDone : consumer (list (Z * Message)) :=
  (EventsRedelivery.one boltConn (λ _, true) (λ _, false) "q1" boltSource boltSubs (boltConsumer stockProgress)).2.

Lemma redelivery_accounts_witness :
  (∃ m, (1, m) ∈ cn_world boltOneDone) ∨ (∃ kind at_, MkGap "sales" "acme/erp" "erp.stock" 2 kind at_ ∈ cn_gaps boltOneDone).
Proof.
  apply (redelivery_accounts boltResender (λ _ _, true) stockProducer (λ _, boltDone) (still (y_db boltDone))
    boltDone_reachable (λ _, rtc_refl _ _) (λ _ _ e, f_equal (default (y_db boltDone)) (eq_sym e))
    boltConn (λ _, true) (λ _, false) boltSource 3 "fresh" eq_refl "q1" boltSubs (boltConsumer stockProgress) boltOneDone "sales"
    [(boltKey, MkPoint (MkEpoch 1 1) 1)] 2 1 (MkPoint (MkEpoch 1 1) 2)).
  - assert (Hv : validEntries [(boltKey, MkPoint (MkEpoch 1 1) 1)]).
    { intros k p [= -> ->]%list_elem_of_singleton. unfold epochValid, int64_max. cbn. lia. }
    apply Forall_cons. split; [exact Hv|]. apply Forall_cons. split; [exact Hv|]. constructor.
  - by vm_compute.
  - apply list_elem_of_further, list_elem_of_here.
  - intros st Hst. vm_compute in Hst. injection Hst as <-. cbn. lia.
  - exact (proj2 bolt_second).
  - intros orw Ho. rewrite (proj1 bolt_second) in Ho. injection Ho as <-.
    split; [discriminate|]. intros i _. exact (proj1 bolt_second).
  - intros q [= ->]%list_elem_of_singleton. by vm_compute.
Defined.

(** The stock member's inbox names one source stream, read by two subscriptions; the first
    attempt is not answered, the second one is. *)
Definition failing (_ : string) : option (ResendRequest → list (Z * Message) → res string ResendResponse * list (Z * Message)) :=
  Some (λ _ w, (Err "unavailable", w)).
Definition boltAttempts : list (attempt (list (Z * Message))) :=
  [MkAttempt failing (λ _, true) true "q0" true id; MkAttempt failing (λ _, true) true "q1" true id;
   MkAttempt boltConn (λ _, true) true "q2" true id].
Definition boltRestarted : consumer (list (Z * Message)) :=
  Run (λ _, false) DeliveryLifetime boltAttempts (boltConsumer stockProgress).

Example boltRestarted_at : cn_last boltRestarted = Some (MkEpoch 1 2) ∧ map fst (cn_world boltRestarted) = [0; 1].
Proof. by vm_compute. Qed.

Lemma bolt_settled : cn_last (Run (λ _, false) DeliveryLifetime boltAttempts (boltConsumer stockProgress)) ≠ Some (MkEpoch 1 1).
Proof. vm_compute. discriminate. Qed.

Lemma settles_after_answers_witness : answered (λ _, false) DeliveryLifetime boltAttempts.
Proof.
  apply (settles_after_answers (λ _, false) DeliveryLifetime boltAttempts (boltConsumer stockProgress) (MkEpoch 1 1)).
  - intros a t Hin. by apply list_elem_of_In in Hin as [<-|[<-|[<-|[]]]].
  - reflexivity.
  - exact bolt_settled.
Defined.

Definition boltMap : gmap SourceKey Point := {[boltKey := MkPoint (MkEpoch 1 1) 1]}.
Lemma boltMaps : Forall2 (λ l m, l ≡ₚ map_to_list m) [map_to_list boltMap; map_to_list boltMap] [boltMap; boltMap].
Proof. constructor; [reflexivity|]. constructor; [reflexivity|]. constructor. Qed.
Lemma from_smallest_witness :
  fromOne 2 ("i1", MkPoint (MkEpoch 1 1) 1) ∈ fromOf boltSource [map_to_list boltMap; map_to_list boltMap].
Proof.
  apply (proj2 (from_smallest boltSource [map_to_list boltMap; map_to_list boltMap] [boltMap; boltMap]
    (fromOne 2 ("i1", MkPoint (MkEpoch 1 1) 1)) ltac:(discriminate) boltMaps)).
  exists 2, "i1", (MkPoint (MkEpoch 1 1) 1). split; [done|]. split; [|split].
  - intros m Hm. apply list_elem_of_In in Hm as [<-|[<-|[]]]; exists (MkPoint (MkEpoch 1 1) 1); by vm_compute.
  - intros m impl' Hm Hi. assert (m = boltMap) as -> by (by apply list_elem_of_In in Hm as [<-|[<-|[]]]).
    apply lookup_singleton_ne. intros Heq. apply Hi. by injection Heq as ->.
  - exists boltMap. split; [apply list_elem_of_here|by vm_compute].
Defined.
