(* ===== verification/TierPlan.v ===== *)
(** * Tiering: classes and the plan

    tiering/class.go (a class's declaration, its tables and levels, [Check]) and
    tiering/plan.go ([Plan], the pure function from a unit and the time to its next action
    and what holds it back). *)
From S2P Require Import Prelude GoStr.
From Stdlib Require Import Ascii String.
Open Scope string_scope.
Open Scope Z_scope.
Open Scope list_scope.

(** ** Declarations *)

Inductive Category := OnlineMutable | LongTermEvidence | CompletedHistory | AuditEvidence | Rebuildable | UnknownCategory (s : string).
#[export] Instance Category_eq_dec : EqDecision Category.
Proof. solve_decision. Defined.
Inductive UState := Open | Sealed | Published | Released | Destroyed.
#[export] Instance UState_eq_dec : EqDecision UState.
Proof. solve_decision. Defined.
Inductive Route := Online | Postgres | ObjectParquet | UnknownRoute (s : string).
#[export] Instance Route_eq_dec : EqDecision Route.
Proof. solve_decision. Defined.

(** The column types of rows.go. *)
Definition Types : list string :=
  ["text"; "int2"; "int4"; "int8"; "numeric"; "bool"; "uuid"; "timestamptz"; "date"; "jsonb"; "bytea"; "text[]"].
Definition TypeTimestamptz : string := "timestamptz".

Record Table := MkTable { t_Name : string; t_PK : string; t_Key : list string; t_Columns : gmap string string }.
(** [Table.KeyColumns]. *)
Definition KeyColumns (t : Table) : list string := if decide (t_Key t = []) then [t_PK t] else t_Key t.

Record Child := MkChild { ch_Table : Table; ch_FK : string; ch_Parent : string }.
Definition ch_Name (ch : Child) : string := t_Name (ch_Table ch).
Record Retention := MkRetention { rt_MinDays : Z; rt_MaxDays : Z; rt_Basis : string; rt_Pending : bool }.
Record Class_ := MkClass {
  cl_Name : string; cl_Category : Category; cl_Root : Table; cl_Children : list Child; cl_Group : list string;
  cl_Anchor : string; cl_Created : string; cl_Terminal : string; cl_ResidenceDays : Z; cl_Retention : Retention;
  cl_Locate : list string; cl_Erasable : list string; cl_Routes : list Route; cl_SchemaVersion : string;
  cl_HoldOperation : string; cl_ApproveOperation : string }.

Definition Never : Z := -1.

(** [Class.Tierable]. *)
Definition Tierable (c : Class_) : bool := bool_decide (cl_Category c = CompletedHistory) || bool_decide (cl_Category c = AuditEvidence).

(** A child directly under the root. *)
Definition underRoot (c : Class_) (ch : Child) : bool := bool_decide (ch_Parent ch = "") || bool_decide (ch_Parent ch = t_Name (cl_Root c)).

(** [Class.parent]. *)
Definition parent (c : Class_) (ch : Child) : option Table :=
  if underRoot c ch then Some (cl_Root c)
  else ch_Table <$> List.find (λ o, bool_decide (ch_Name o = ch_Parent ch) && negb (bool_decide (ch_Name o = ch_Name ch))) (cl_Children c).

(** [Class.child]. *)
Definition child (c : Class_) (name : string) : option Child := List.find (λ ch, bool_decide (ch_Name ch = name)) (cl_Children c).

(** [Class.depth]: the loop, from level [d] with [fuel] turns left. *)
Fixpoint depthFrom (c : Class_) (fuel : nat) (d : Z) (ch : Child) : Z :=
  match fuel with
  | O => -1
  | S fuel =>
      if underRoot c ch then d
      else match child c (ch_Parent ch) with None => -1 | Some next => depthFrom c fuel (d + 1) next end
  end.
Definition depth (c : Class_) (ch : Child) : Z := depthFrom c (List.length (cl_Children c)) 1 ch.

(** [Class.byDepth]. *)
Definition deeperFirst (c : Class_) (x y : Child) : Prop := depth c y ≤ depth c x.
#[export] Instance deeperFirst_dec c x y : Decision (deeperFirst c x y).
Proof. unfold deeperFirst. apply _. Defined.
Definition shallowerFirst (c : Class_) (x y : Child) : Prop := depth c x ≤ depth c y.
#[export] Instance shallowerFirst_dec c x y : Decision (shallowerFirst c x y).
Proof. unfold shallowerFirst. apply _. Defined.
Definition byDepth (c : Class_) (deepestFirst : bool) : list Child :=
  if deepestFirst then merge_sort (deeperFirst c) (cl_Children c) else merge_sort (shallowerFirst c) (cl_Children c).

(** A quoted SQL identifier. *)
Fixpoint doubleQuotes (s : string) : string :=
  match s with
  | EmptyString => EmptyString
  | String a s => if decide (a = "034"%char) then String a (String a (doubleQuotes s)) else String a (doubleQuotes s)
  end.
Definition ident (s : string) : string := String "034" (doubleQuotes s ++ String "034" EmptyString)%string.

(** [Class.rootExpr]; it calls itself up the parent chain, [fuel] bounds the levels. *)
Fixpoint rootExpr (c : Class_) (fuel : nat) (ch : Child) (alias : string) : option string :=
  match fuel with
  | O => None
  | S fuel =>
      if underRoot c ch then Some (alias ++ "." ++ ident (ch_FK ch) ++ "::text")%string
      else
        let par := default (MkChild (MkTable "" "" [] ∅) "" "") (child c (ch_Parent ch)) in
        let p := (alias ++ "p")%string in
        inner ← rootExpr c fuel par p;
        Some ("(SELECT " ++ inner ++ " FROM " ++ ident (ch_Name par) ++ " " ++ p ++ " WHERE " ++ p ++ "." ++ ident (t_PK (ch_Table par))
              ++ " = " ++ alias ++ "." ++ ident (ch_FK ch) ++ ")")%string
  end.

(** [Class.Tables]. *)
Definition Tables (c : Class_) : list Table := cl_Root c :: map ch_Table (cl_Children c).

(** ** [Class.Check] *)

Inductive classErr :=
| BadClassName | BadCategory | NeverTiered | ResidenceBelowN | NoRoutes | BadRoute | NoTerminal | BadRetention | NoSchemaVersion
| NoHoldOperation | NoApproveOperation | UniqueRegistry (t : string) | BadTableName (t : string) | NoKey (t : string)
| BadKeyColumn (t k : string) | BadColumn (t c : string) | RootKey | NoForeignKey (ch : string) | ParentKey (ch : string)
| NoParent (ch : string) | ParentCycle (ch : string) | NoRootColumn (c : string) | NotTimestamps | NotErasable (c : string).

Definition when {A} (b : bool) (e : A) : list A := if b then [e] else [].

Definition identStart (a : ascii) : bool :=
  let n := Z.of_N (N_of_ascii a) in bool_decide (97 ≤ n ≤ 122) || bool_decide (n = 95).
Definition identChar (a : ascii) : bool :=
  let n := Z.of_N (N_of_ascii a) in identStart a || bool_decide (48 ≤ n ≤ 57).
(** The expression [plainIdent]. *)
Definition plainIdent (s : string) : bool :=
  match s with EmptyString => false | String a s => identStart a && allChars identChar s end.
Definition hasSpaceOrSlash (s : string) : bool := negb (allChars (λ a, negb (bool_decide (a = " "%char)) && negb (bool_decide (a = "/"%char))) s).

Definition knownCategory (c : Category) : bool := match c with UnknownCategory _ => false | _ => true end.
Definition has (m : gmap string string) (k : string) : bool := bool_decide (is_Some (m !! k)).

Definition checkTier (c : Class_) (n : Z) : list classErr :=
  if Tierable c then
    when (negb (bool_decide (cl_ResidenceDays c = Never)) && bool_decide (cl_ResidenceDays c < n)) ResidenceBelowN
    ++ when (bool_decide (cl_Routes c = [])) NoRoutes
    ++ (r ← cl_Routes c; when (negb (bool_decide (r = Postgres)) && negb (bool_decide (r = ObjectParquet))) BadRoute)
    ++ when (bool_decide (cl_Terminal c = "")) NoTerminal
  else when (negb (bool_decide (cl_ResidenceDays c = 0)) || negb (bool_decide (cl_Routes c = []))) NeverTiered.

Definition checkTable (registries : list string) (t : Table) : list classErr :=
  when (bool_decide (t_Name t ∈ registries)) (UniqueRegistry (t_Name t))
  ++ when (negb (plainIdent (t_Name t))) (BadTableName (t_Name t))
  ++ when (Bool.eqb (bool_decide (t_PK t = "")) (bool_decide (t_Key t = []))) (NoKey (t_Name t))
  ++ (k ← KeyColumns t; when (negb (has (t_Columns t) k) || negb (plainIdent k)) (BadKeyColumn (t_Name t) k))
  ++ ('(col, typ) ← map_to_list (t_Columns t); when (negb (plainIdent col) || negb (bool_decide (typ ∈ Types))) (BadColumn (t_Name t) col)).

Definition checkChild (c : Class_) (ch : Child) : list classErr :=
  when (negb (has (t_Columns (ch_Table ch)) (ch_FK ch))) (NoForeignKey (ch_Name ch))
  ++ match parent c ch with Some p => when (bool_decide (t_PK p = "")) (ParentKey (ch_Name ch)) | None => [] end
  ++ match parent c ch with
     | None => [NoParent (ch_Name ch)]
     | Some _ => when (bool_decide (depth c ch < 0)) (ParentCycle (ch_Name ch))
     end.

Definition Check (c : Class_) (n : Z) (registries : list string) : list classErr :=
  when (bool_decide (cl_Name c = "") || hasSpaceOrSlash (cl_Name c)) BadClassName
  ++ when (negb (knownCategory (cl_Category c))) BadCategory
  ++ checkTier c n
  ++ (let r := cl_Retention c in
      when (negb (rt_Pending r) && (bool_decide (rt_MinDays r ≤ 0) || bool_decide (rt_MaxDays r < rt_MinDays r) || bool_decide (rt_Basis r = "")))
        BadRetention)
  ++ when (bool_decide (cl_SchemaVersion c = "")) NoSchemaVersion
  ++ when (bool_decide (cl_HoldOperation c = "") && (negb (rt_Pending (cl_Retention c)) || negb (bool_decide (cl_Erasable c = [])))) NoHoldOperation
  ++ when (bool_decide (cl_ApproveOperation c = "") && negb (rt_Pending (cl_Retention c))) NoApproveOperation
  ++ (t ← Tables c; checkTable registries t)
  ++ when (bool_decide (t_PK (cl_Root c) = "")) RootKey
  ++ (ch ← cl_Children c; checkChild c ch)
  ++ (col ← cl_Anchor c :: cl_Created c :: cl_Group c ++ cl_Locate c; when (negb (has (t_Columns (cl_Root c)) col)) (NoRootColumn col))
  ++ when (negb (bool_decide (t_Columns (cl_Root c) !! cl_Anchor c = Some TypeTimestamptz))
           || negb (bool_decide (t_Columns (cl_Root c) !! cl_Created c = Some TypeTimestamptz))) NotTimestamps
  ++ (col ← cl_Erasable c; when (negb (existsb (λ t, has (t_Columns t) col) (Tables c))) (NotErasable col)).

(** ** The plan *)

Inductive Action := ActNone | ActSeal | ActTransfer | ActRelease | ActDestroy.
#[export] Instance Action_eq_dec : EqDecision Action.
Proof. solve_decision. Defined.

Definition WhyNotTierable := "not_tierable".
Definition WhyResidenceBelow := "residence_below_n".
Definition WhyNever := "never".
Definition WhyResidence := "residence".
Definition WhyImmutableRoute := "immutable_route".
Definition WhyGrace := "grace".
Definition WhyRecentRecords := "recent_records".
Definition WhyLease := "lease".
Definition WhyNoBackup := "no_backup".
Definition WhyPending := "retention_pending".
Definition WhyHeld := "held".
Definition WhyApproval := "approval".

Definition Day : Z := 24 * Hour.
Definition BlockedAlertAfter : Z := 30 * Day.

Record PlanClass := MkPlanClass { pc_Category : Category; pc_ResidenceDays : Z; pc_RetentionPending : bool; pc_Erasable : bool }.
Record PlanUnit := MkPlanUnit {
  pu_State : UState; pu_AnchorMax : Z; pu_Blockers : list string; pu_RouteImmutable : bool; pu_PublishedAt : Z; pu_NewestCreated : Z;
  pu_OldLeases : Z; pu_BackupAfterPublish : bool; pu_RetentionDue : bool; pu_Approved : bool; pu_Holds : Z }.
Record Decision_ := MkDecision { dc_Action : Action; dc_Reasons : list string; dc_Alert : bool }.

(** [held]. *)
Definition held (action : Action) (why : list string) : Decision_ :=
  match why with [] => MkDecision action [] false | _ => MkDecision ActNone (merge_sort strLe why) false end.

(** [Plan] past its first three returns. *)
Definition planState (now n grace : Z) (c : PlanClass) (u : PlanUnit) : Decision_ :=
  if negb (bool_decide (pu_State u = Open)) && pu_RetentionDue u then
    held ActDestroy (when (pc_RetentionPending c) WhyPending ++ when (bool_decide (0 < pu_Holds u)) WhyHeld
                     ++ when (negb (pu_Approved u)) WhyApproval)
  else match pu_State u with
       | Open =>
           if decide (pc_ResidenceDays c = Never) then MkDecision ActNone [WhyNever] false
           else
             let due := pu_AnchorMax u + int64 (pc_ResidenceDays c * Day) in
             if decide (now < due) then MkDecision ActNone [WhyResidence] false
             else match pu_Blockers u with
                  | [] => MkDecision ActSeal [] false
                  | b => let d := held ActSeal b in
                         MkDecision (dc_Action d) (dc_Reasons d) (bool_decide (due + BlockedAlertAfter ≤ now))
                  end
       | Sealed => if pu_RouteImmutable u && pc_Erasable c then MkDecision ActNone [WhyImmutableRoute] false
                   else MkDecision ActTransfer [] false
       | Published =>
           held ActRelease (when (bool_decide (now < pu_PublishedAt u + grace)) WhyGrace
                            ++ when (bool_decide (now - n < pu_NewestCreated u)) WhyRecentRecords
                            ++ when (bool_decide (0 < pu_OldLeases u)) WhyLease
                            ++ when (negb (pu_BackupAfterPublish u)) WhyNoBackup)
       | _ => MkDecision ActNone [] false
       end.

(** [Plan]. *)
Definition Plan (now n grace : Z) (c : PlanClass) (u : PlanUnit) : Decision_ :=
  if negb (bool_decide (pc_Category c = CompletedHistory)) && negb (bool_decide (pc_Category c = AuditEvidence)) then
    MkDecision ActNone [WhyNotTierable] false
  else if negb (bool_decide (pc_ResidenceDays c = Never)) && bool_decide (int64 (pc_ResidenceDays c * Day) < n) then
    MkDecision ActNone [WhyResidenceBelow] false
  else if decide (pu_State u = Destroyed) then MkDecision ActNone [] false
  else planState now n grace c u.

(** ** Levels *)

(** Steps up from a child to one under the root. *)
Inductive upTo (c : Class_) : nat → Child → Prop :=
| up_root ch : underRoot c ch = true → upTo c 1 ch
| up_next n ch next : underRoot c ch = false → child c (ch_Parent ch) = Some next → upTo c n next → upTo c (S n) ch.

Lemma upTo_unique c n m ch : upTo c n ch → upTo c m ch → n = m.
Proof.
  intros Hn. revert m. induction Hn as [ch Hr|n ch next Hr Hc Hn IH]; intros m Hm; inversion Hm; subst; try congruence.
  f_equal. apply IH. congruence.
Qed.
Lemma depthFrom_up c fuel d ch : 0 < d →
  depthFrom c fuel d ch = -1 ∨ ∃ n, upTo c n ch ∧ (n ≤ fuel)%nat ∧ depthFrom c fuel d ch = d + Z.of_nat n - 1.
Proof.
  revert d ch. induction fuel as [|fuel IH]; intros d ch Hd; cbn; [by left|]. destruct (underRoot c ch) eqn:Hr.
  { right. exists 1%nat. split; [by constructor|]. lia. }
  destruct (child c (ch_Parent ch)) as [next|] eqn:Hc; [|by left].
  destruct (IH (d + 1) next ltac:(lia)) as [?|(n & Hn & Hle & ->)]; [by left|right]. exists (S n).
  split; [by econstructor|]. lia.
Qed.
Lemma depth_up c ch : 0 ≤ depth c ch → ∃ n, upTo c n ch ∧ (n ≤ List.length (cl_Children c))%nat ∧ depth c ch = Z.of_nat n.
Proof.
  unfold depth. intros Hd. destruct (depthFrom_up c (List.length (cl_Children c)) 1 ch ltac:(lia)) as [H|(n & H1 & H2 & H3)]; [lia|].
  exists n. split; [done|]. split; [done|]. lia.
Qed.
Lemma rootExpr_up c n fuel ch alias : upTo c n ch → (n ≤ fuel)%nat → is_Some (rootExpr c fuel ch alias).
Proof.
  intros Hn. revert fuel alias. induction Hn as [ch Hr|n ch next Hr Hc Hn IH]; intros [|fuel] alias Hf; try lia; cbn; rewrite Hr; [done|].
  rewrite Hc. cbn. destruct (IH fuel (alias ++ "p")%string) as [e ->]; [lia|]. by eexists.
Qed.

#[export] Instance deeperFirst_trans c : Transitive (deeperFirst c).
Proof. intros x y z. unfold deeperFirst. lia. Qed.
#[export] Instance deeperFirst_total c : Total (deeperFirst c).
Proof. intros x y. unfold deeperFirst. lia. Qed.

Lemma when_nothing {A} b (e : A) : when b e = [] ↔ b = false.
Proof. by destruct b. Qed.
Lemma bind_nil {A B} (f : A → list B) l : l ≫= f = [] ↔ ∀ x, x ∈ l → f x = [].
Proof.
  induction l as [|a l IH]; [split; [intros _ x ?%elem_of_nil; done|done]|]. cbn. split.
  - intros [Ha Hl]%app_nil x [->|Hx]%elem_of_cons; [done|by apply IH].
  - intros Hx. rewrite (Hx a) by apply list_elem_of_here. apply IH. intros x Hin. apply Hx. by apply list_elem_of_further.
Qed.

Lemma Check_child c n registries ch :
  Check c n registries = [] → ch ∈ cl_Children c → is_Some (parent c ch) ∧ 0 ≤ depth c ch.
Proof.
  unfold Check. intros Hc Hin. do 9 apply app_nil in Hc as [_ Hc]. apply app_nil in Hc as [Hc _].
  rewrite bind_nil in Hc. specialize (Hc ch Hin). unfold checkChild in Hc. do 2 apply app_nil in Hc as [_ Hc].
  destruct (parent c ch); [|done]. split; [done|]. apply when_nothing, bool_decide_eq_false in Hc. lia.
Qed.

(** A declaration that is accepted has levels: the parents of each child lead to the
    root, so the expression of its root key is built, with no more steps than there are
    children; a child is one level below its parent; and the order rows are deleted in
    names every child table before its parent's. *)
Theorem class_levels c n registries ch alias :
  Check c n registries = [] → ch ∈ cl_Children c →
  is_Some (rootExpr c (List.length (cl_Children c)) ch alias) ∧
  (underRoot c ch = true → depth c ch = 1) ∧
  ∀ p, underRoot c ch = false → child c (ch_Parent ch) = Some p → depth c ch = depth c p + 1 ∧
    ∀ i j, byDepth c true !! i = Some ch → byDepth c true !! j = Some p → (i < j)%nat.
Proof.
  intros Hok Hin. destruct (Check_child _ _ _ _ Hok Hin) as [_ Hd]. destruct (depth_up c ch Hd) as (k & Hk & Hle & Hdk).
  split; [by eapply rootExpr_up|]. split.
  { intros Hr. inversion Hk; subst; [by rewrite Hdk|congruence]. }
  intros p Hr Hp. assert (Hpin : p ∈ cl_Children c).
  { unfold child in Hp. apply find_some in Hp as [Hp _]. by apply list_elem_of_In. }
  destruct (Check_child _ _ _ _ Hok Hpin) as [_ Hdp]. destruct (depth_up c p Hdp) as (m & Hm & _ & Hdm).
  assert (k = S m) as -> by (eapply upTo_unique; [exact Hk|by econstructor]).
  split; [lia|]. intros i j Hi Hj. destruct (Nat.lt_trichotomy i j) as [|[->|Hji]]; [done| |].
  - rewrite Hi in Hj. injection Hj as ->. lia.
  - pose proof (sorted_lookup (deeperFirst c) _ j i p ch (StronglySorted_merge_sort (deeperFirst c) _) Hj Hi Hji) as Hs.
    unfold deeperFirst in Hs. lia.
Qed.

(** ** What the plan decides *)

Lemma held_action a why : a ≠ ActNone → dc_Action (held a why) = a ↔ why = [].
Proof. destruct why; cbn; [done|]. intros Hn. split; [by intros <-|done]. Qed.
Lemma held_other a b why : dc_Action (held a why) = b → b = ActNone ∨ b = a.
Proof. destruct why; cbn; intros <-; auto. Qed.

(** The class may be planned at all. *)
Definition plannable (n : Z) (c : PlanClass) : Prop :=
  (pc_Category c = CompletedHistory ∨ pc_Category c = AuditEvidence) ∧ (pc_ResidenceDays c = Never ∨ n ≤ int64 (pc_ResidenceDays c * Day)).
Definition retentionDue (u : PlanUnit) : Prop := pu_State u ≠ Open ∧ pu_RetentionDue u = true.

#[export] Instance plannable_dec n c : Decision (plannable n c).
Proof. unfold plannable. apply _. Defined.
Lemma Plan_gates now n grace c u :
  Plan now n grace c u = planState now n grace c u ∧ plannable n c ∧ pu_State u ≠ Destroyed ∨
  dc_Action (Plan now n grace c u) = ActNone ∧ ¬ (plannable n c ∧ pu_State u ≠ Destroyed).
Proof.
  unfold Plan, plannable. destruct (negb _ && negb _) eqn:Ht.
  { right. split; [done|]. apply andb_true_iff in Ht as [H1%negb_true_iff%bool_decide_eq_false H2%negb_true_iff%bool_decide_eq_false]. naive_solver. }
  destruct (negb _ && bool_decide _) eqn:Hr.
  { right. split; [done|]. apply andb_true_iff in Hr as [H1%negb_true_iff%bool_decide_eq_false H2%bool_decide_eq_true]. intros [[_ [?|?]] _]; [done|lia]. }
  destruct (decide (pu_State u = Destroyed)); [right; split; [done|naive_solver]|left]. apply andb_false_iff in Ht, Hr. split; [done|]. split; [split|done].
  - destruct Ht as [Ht|Ht]; apply negb_false_iff, bool_decide_eq_true in Ht; auto.
  - destruct Hr as [Hr|Hr]; [apply negb_false_iff, bool_decide_eq_true in Hr; auto|apply bool_decide_eq_false in Hr; right; lia].
Qed.
Lemma planState_destroy now n grace c u : retentionDue u →
  planState now n grace c u = held ActDestroy (when (pc_RetentionPending c) WhyPending ++ when (bool_decide (0 < pu_Holds u)) WhyHeld
                                               ++ when (negb (pu_Approved u)) WhyApproval).
Proof. intros [Hs Hd]. unfold planState. by rewrite Hd, bool_decide_false. Qed.
Lemma planState_kept u : ¬ retentionDue u → negb (bool_decide (pu_State u = Open)) && pu_RetentionDue u = false.
Proof. unfold retentionDue. intros Hn. case_bool_decide; [done|]. destruct (pu_RetentionDue u); naive_solver. Qed.
#[export] Instance retentionDue_dec u : Decision (retentionDue u).
Proof. unfold retentionDue. apply _. Defined.

(** The plan acts exactly when nothing holds the unit back: it seals an open unit whose
    residence has passed and that has no blocker; transfers a sealed one unless its route
    cannot be erased from; releases a published one after the grace, with no recent record,
    no older lease and a later backup; and destroys one past its retention that is not
    pending, has no hold and is approved, which comes before everything else. *)
Theorem plan_acts now n grace c u :
  (dc_Action (Plan now n grace c u) = ActSeal ↔
     plannable n c ∧ pu_State u = Open ∧ pc_ResidenceDays c ≠ Never ∧ pu_AnchorMax u + int64 (pc_ResidenceDays c * Day) ≤ now ∧ pu_Blockers u = []) ∧
  (dc_Action (Plan now n grace c u) = ActTransfer ↔
     plannable n c ∧ pu_State u = Sealed ∧ ¬ retentionDue u ∧ (pu_RouteImmutable u = false ∨ pc_Erasable c = false)) ∧
  (dc_Action (Plan now n grace c u) = ActRelease ↔
     plannable n c ∧ pu_State u = Published ∧ ¬ retentionDue u ∧ pu_PublishedAt u + grace ≤ now ∧ pu_NewestCreated u ≤ now - n ∧
     pu_OldLeases u ≤ 0 ∧ pu_BackupAfterPublish u = true) ∧
  (dc_Action (Plan now n grace c u) = ActDestroy ↔
     plannable n c ∧ pu_State u ≠ Destroyed ∧ retentionDue u ∧ pc_RetentionPending c = false ∧ pu_Holds u ≤ 0 ∧ pu_Approved u = true).
Proof.
  destruct (Plan_gates now n grace c u) as [(-> & Hp & Hs)|(-> & Hn)].
  2: { split_and!; (split; [done|intros (? & ? & ?); destruct Hn; split; [done|congruence]]). }
  destruct (decide (retentionDue u)) as [Hd|Hd].
  - rewrite planState_destroy by done. split_and!.
    + split; [intros [?|?]%held_other; done|]. intros (_ & Ho & _). by destruct Hd.
    + split; [intros [?|?]%held_other; done|naive_solver].
    + split; [intros [?|?]%held_other; done|naive_solver].
    + rewrite held_action, !app_nil, !when_nothing, bool_decide_eq_false, negb_false_iff by done. naive_solver lia.
  - unfold planState. rewrite planState_kept by done.
    destruct (pu_State u) eqn:Hst; [..|done].
    + destruct (decide (pc_ResidenceDays c = Never)); [naive_solver|]. cbn zeta. case_decide; [naive_solver lia|].
      destruct (pu_Blockers u) eqn:Hb; naive_solver lia.
    + destruct (pu_RouteImmutable u), (pc_Erasable c); cbn; split_and!; (split; [intros [=]; auto|intros; destruct_and?; done || naive_solver]).
    + split_and!; [split; [intros [?|?]%held_other; done|naive_solver]..| |split; [intros [?|?]%held_other; done|naive_solver]].
      rewrite held_action, !app_nil, !when_nothing, !bool_decide_eq_false, negb_false_iff by done. naive_solver lia.
    + naive_solver.
Qed.

(** An order with its lines, each line with its notes. *)
Definition demoTable (name fk : string) : Table :=
  MkTable name "id" [] (list_to_map ([("id", "uuid"); ("done_at", "timestamptz"); ("created_at", "timestamptz")] ++ when (negb (bool_decide (fk = ""))) (fk, "uuid"))).
Definition demoLine : Child := MkChild (demoTable "line" "order_id") "order_id" "".
Definition demoNote : Child := MkChild (demoTable "note" "line_id") "line_id" "line".
Definition demoClass : Class_ :=
  MkClass "orders" CompletedHistory (demoTable "orders" "") [demoNote; demoLine] [] "done_at" "created_at" "state = 'done'" 90
    (MkRetention 365 730 "contract" false) ["id"] [] [Postgres] "1" "hold" "approve".
Lemma demoClass_ok : Check demoClass 30 ["names"] = [].
Proof. vm_compute. reflexivity. Qed.

Lemma class_levels_witness :
  depth demoClass demoNote = 2 ∧ is_Some (rootExpr demoClass 2 demoNote "t") ∧
  ∀ i j, byDepth demoClass true !! i = Some demoNote → byDepth demoClass true !! j = Some demoLine → (i < j)%nat.
Proof.
  split; [vm_compute; reflexivity|].
  destruct (class_levels demoClass 30 ["names"] demoNote "t" demoClass_ok) as (H1 & _ & H2); [left|].
  split; [exact H1|]. apply (H2 demoLine); vm_compute; reflexivity.
Defined.
