(* ===== verification/TierRows.v ===== *)
(** * Tiering: the unit's digest

    tiering/rows.go, the part that digests: a table's hash over its canonical rows in the
    order of their canonical primary keys, each prefixed by its length in eight bytes
    ([TableHash.Sum]), and the unit's digest over its tables' names, row counts and hashes
    ([UnitDigest]).  A row comes as its canonical primary key and its canonical bytes, as
    [Row] and [PK] give them. *)
From stdpp Require Import pretty.
From S2P Require Import Prelude GoStr Canon CanonProps.
From Stdlib Require Import Ascii String.
Open Scope string_scope.
Open Scope Z_scope.
Open Scope list_scope.

(** [keyed]: the canonical primary key and the canonical row. *)
Definition keyed : Type := string * string.
(** [TableSum]: the table's name, its number of rows and its hash. *)
Definition TableSum : Type := string * (Z * string).

(** [binary.BigEndian.PutUint64]. *)
Fixpoint bigEndian (bytes : nat) (n : Z) : string :=
  match bytes with
  | O => EmptyString
  | S k => String (ascii_of_N (Z.to_N (n / 256 ^ Z.of_nat k mod 256))) (bigEndian k n)
  end.
Definition PutUint64 (n : Z) : string := bigEndian 8 (uint64 n).

Definition frame (row : string) : string := (PutUint64 (Z.of_nat (String.length row)) ++ row)%string.
Fixpoint frames (rows : list string) : string :=
  match rows with [] => EmptyString | r :: rows => (frame r ++ frames rows)%string end.

Section sums.
Context `{Hashes}.

(** [TableHash.Sum]. *)
Definition Sum (rows : list keyed) : string := sha256 (frames (map snd (merge_sort keyLe rows))).

(** A table's sum, as the seal, the copy's verification and the rewriting build it. *)
Definition sumOf (t : string * list keyed) : TableSum := (t.1, (Z.of_nat (List.length t.2), Sum t.2)).

Definition sumEntry (t : TableSum) : value := Obj [("name", Str t.1); ("rows", Str (FormatInt t.2.1)); ("sha256", Str t.2.2)].
(** [UnitDigest]. *)
Definition UnitDigest (class schemaVersion : string) (tables : list TableSum) : option string :=
  Digest "be.tier.unit" 1
    (Obj [("class", Str class); ("schema_version", Str schemaVersion); ("tables", Arr (map sumEntry (merge_sort keyLe tables)))]).

End sums.

(** ** Frames *)

Lemma length_bigEndian k n : String.length (bigEndian k n) = k.
Proof. induction k as [|k IH]; cbn; [done|]. by rewrite IH. Qed.
Lemma byte_inj a b : 0 ≤ a < 256 → 0 ≤ b < 256 → ascii_of_N (Z.to_N a) = ascii_of_N (Z.to_N b) → a = b.
Proof.
  intros Ha Hb He. apply (f_equal N_of_ascii) in He. rewrite !N_ascii_embedding in He by lia. lia.
Qed.
Lemma bigEndian_inj k n m : 0 ≤ n → 0 ≤ m → bigEndian k n = bigEndian k m → n mod 256 ^ Z.of_nat k = m mod 256 ^ Z.of_nat k.
Proof.
  intros Hn Hm. induction k as [|k IH]; [intros _; cbn; by rewrite !Z.mod_1_r|]. cbn [bigEndian]. intros [= Hb Hr].
  apply byte_inj in Hb; [|apply Z.mod_pos_bound; lia..]. specialize (IH Hr).
  replace (256 ^ Z.of_nat (S k)) with (256 ^ Z.of_nat k * 256) by (rewrite Nat2Z.inj_succ, Z.pow_succ_r by lia; lia).
  rewrite !Z.rem_mul_r by (try apply Z.pow_nonzero; lia). lia.
Qed.

(** Go's lengths are [int]s. *)
Definition small (row : string) : Prop := Z.of_nat (String.length row) ≤ int64_max.

Lemma PutUint64_inj n m : 0 ≤ n ≤ int64_max → 0 ≤ m ≤ int64_max → PutUint64 n = PutUint64 m → n = m.
Proof.
  unfold PutUint64, uint64, int64_max. intros Hn Hm He. apply bigEndian_inj in He; [|apply Z.mod_pos_bound; lia..].
  change (256 ^ Z.of_nat 8) with (2 ^ 64) in He. rewrite !Z.mod_mod, !Z.mod_small in He by lia. done.
Qed.
Lemma append_same_length (a b x y : string) : String.length a = String.length b → (a ++ x)%string = (b ++ y)%string → a = b ∧ x = y.
Proof.
  revert b. induction a as [|c a IH]; intros [|d b]; cbn; intros Hl He; try done. injection He as -> He.
  destruct (IH b) as [-> ->]; [lia|done|done].
Qed.
Lemma frames_inj l k : Forall small l → Forall small k → frames l = frames k → l = k.
Proof.
  intros Hl. revert k. induction Hl as [|r l Hr Hl IH]; intros k Hk; destruct Hk as [|q k Hq Hk]; cbn [frames]; try done.
  unfold frame. rewrite !append_assoc_str. intros He.
  apply append_same_length in He as [He1 He2]; [|unfold PutUint64; by rewrite !length_bigEndian]. unfold small in *. apply PutUint64_inj in He1; [|lia..].
  apply append_same_length in He2 as [-> He2]; [|lia]. f_equal. by apply IH.
Qed.

(** ** What a digest says *)

Section binds.
Context `{Hashes}.

(** The rows of a table as the digest orders them. *)
Definition ordered (rows : list keyed) : list string := map snd (merge_sort keyLe rows).

Lemma length_ordered rows : List.length (ordered rows) = List.length rows.
Proof. unfold ordered. rewrite length_map. apply Permutation_length, merge_sort_Permutation. Qed.
Lemma ordered_perm rows : ordered rows ≡ₚ map snd rows.
Proof. unfold ordered. by rewrite merge_sort_Permutation. Qed.

Lemma Sum_equal a b : Forall (small ∘ snd) a → Forall (small ∘ snd) b → Sum a = Sum b →
  ordered a = ordered b ∨ ∃ x y, x ≠ y ∧ sha256 x = sha256 y.
Proof.
  intros Ha Hb He. destruct (decide (frames (ordered a) = frames (ordered b))) as [Hf|Hf]; [left|right; by do 2 eexists].
  apply frames_inj in Hf; [done|..]; rewrite ordered_perm; by apply Forall_fmap.
Qed.
Lemma Sum_perm a b : NoDup (map fst a) → a ≡ₚ b → Sum a = Sum b.
Proof. intros Hn Hp. unfold Sum. by rewrite (sort_unique a b). Qed.

Definition entryNf (t : TableSum) : nf := NObj [("name", NStr t.1); ("rows", NStr (FormatInt t.2.1)); ("sha256", NStr t.2.2)].
Lemma sumEntry_meaning t : meaning (sumEntry t) = Some (entryNf t).
Proof. destruct t as [n [r h]]. reflexivity. Qed.
Lemma entries_meaning l : allOk meaning (map sumEntry l) = Some (map entryNf l).
Proof. induction l as [|t l IH]; [done|]. cbn [map]. unfold allOk in IH |- *. by rewrite sumEntry_meaning, IH. Qed.
Lemma unit_meaning class schema l :
  meaning (Obj [("class", Str class); ("schema_version", Str schema); ("tables", Arr (map sumEntry l))]) =
  Some (NObj [("class", NStr class); ("schema_version", NStr schema); ("tables", NArr (map entryNf l))]).
Proof.
  assert (Ha : meaning (Arr (map sumEntry l)) = Some (NArr (map entryNf l))).
  { change (meaning (Arr (map sumEntry l))) with (items ← allOk meaning (map sumEntry l); Some (NArr items)). by rewrite entries_meaning. }
  remember (Arr (map sumEntry l)) as v eqn:Hv. cbn. rewrite Ha. reflexivity.
Qed.

Lemma FormatInt_inj n m : FormatInt n = FormatInt m → n = m.
Proof.
  assert (Hm : ∀ k x, pretty (Z.to_N k) = String "-" x → False).
  { intros k x He. destruct (pretty_digit (Z.to_N k)) as (a & s & Hp & Ha). rewrite Hp in He. injection He as -> _. by destruct Ha as [? Ha]. }
  unfold FormatInt. do 2 case_decide; intros He.
  - injection He as He. apply (inj pretty) in He. lia.
  - exfalso. by eapply (Hm m).
  - exfalso. by eapply (Hm n).
  - apply (inj pretty) in He. lia.
Qed.
Lemma entryNf_inj t u : entryNf t = entryNf u → t = u.
Proof. destruct t as [n [r h]], u as [n' [r' h']]. unfold entryNf. cbn. by intros [= -> He%FormatInt_inj ->]; subst. Qed.
Lemma map_entryNf_inj l k : map entryNf l = map entryNf k → l = k.
Proof.
  revert k. induction l as [|t l IH]; intros [|u k]; cbn [map]; try done. intros He. injection He as H1 H2 H3 Hr.
  f_equal; [apply entryNf_inj; unfold entryNf; congruence|by apply IH].
Qed.

(** A unit's content: its tables' rows by the tables' names. *)
Definition content : Type := list (string * list keyed).
Definition contentDigest (class schemaVersion : string) (c : content) : option string := UnitDigest class schemaVersion (map sumOf c).
(** The content as the digest orders it. *)
Definition arranged (c : content) : list (string * list string) := map (λ t, (t.1, ordered t.2)) (merge_sort keyLe c).

Definition tableOk (t : string * list keyed) : Prop :=
  validString t.1 = true ∧ Forall (small ∘ snd) t.2.
Definition contentOk (c : content) : Prop := Forall tableOk c.

Lemma sorted_sums c : merge_sort keyLe (map sumOf c) = map sumOf (merge_sort keyLe c).
Proof. by apply (merge_sort_map sumOf keyLe keyLe). Qed.

Lemma sums_equal l k : Forall tableOk l → Forall tableOk k → map sumOf l = map sumOf k →
  map (λ t, (t.1, ordered t.2)) l = map (λ t, (t.1, ordered t.2)) k ∨ ∃ x y, x ≠ y ∧ sha256 x = sha256 y.
Proof.
  intros Hl. revert k. induction Hl as [|[n r] l [_ Ht] Hl IH]; intros k Hk; destruct Hk as [|[n' r'] k [_ Hu] Hk]; cbn [map fst snd]; try done; [by left|].
  intros [= -> _ Hs Hr]. destruct (IH k Hk Hr) as [Hm|?]; [|by right]. destruct (Sum_equal r r' Ht Hu Hs) as [Ho|?]; [left|by right].
  by rewrite Hm, Ho.
Qed.

Lemma contentOk_sorted c : contentOk c → Forall tableOk (merge_sort keyLe c).
Proof. intros Hc. unfold contentOk in Hc. by rewrite merge_sort_Permutation. Qed.
Lemma plain_valid s : allChars numChar s = true → validString s = true.
Proof.
  induction s as [|a s IH]; [done|]. cbn [allChars validString]. intros [Ha Hs]%andb_true_iff.
  rewrite decide_True; [by apply IH|]. revert Ha. destruct a as [[] [] [] [] [] [] [] []]; vm_compute; done.
Qed.
Lemma FormatInt_valid n : validString (FormatInt n) = true.
Proof. apply plain_valid, FormatInt_chars. Qed.
Lemma textOk_sums class schema l : validString class = true → validString schema = true →
  (∀ x, validString (sha256 x) = true) → Forall tableOk l →
  textOk (Obj [("class", Str class); ("schema_version", Str schema); ("tables", Arr (map sumEntry (map sumOf l)))]) = true.
Proof.
  intros Hc Hs Hh Hl. cbn [textOk forallb]. rewrite Hc, Hs.
  match goal with |- context [forallb textOk ?l] => assert (forallb textOk l = true) as ->; [|reflexivity] end. apply forallb_forall.
  intros v ([n [r h]] & <- & Ht)%in_map_iff. apply in_map_iff in Ht as ([n' rs] & [= <- <- <-] & Hin%list_elem_of_In).
  rewrite Forall_forall in Hl. destruct (Hl _ Hin) as [Hn _]. cbn in Hn.
  cbn [textOk sumEntry forallb fst snd]. unfold Sum. rewrite Hn, FormatInt_valid, Hh. reflexivity.
Qed.

Lemma digest_content class class' schema schema' c c' d :
  validString class = true → validString schema = true → validString class' = true → validString schema' = true →
  (∀ x, validString (sha256 x) = true) → contentOk c → contentOk c' →
  contentDigest class schema c = Some d → contentDigest class' schema' c' = Some d →
  (class = class' ∧ schema = schema' ∧ arranged c = arranged c') ∨ ∃ x y, x ≠ y ∧ sha256 x = sha256 y.
Proof.
  intros Hc Hs Hc' Hs' Hh Hok%contentOk_sorted Hok'%contentOk_sorted. unfold contentDigest, UnitDigest. rewrite !sorted_sums. intros Hd Hd'.
  eapply digest_equal in Hd'; [|..|exact Hd]; [|done..|unfold int64_max; lia|unfold int64_max; lia|by apply textOk_sums|by apply textOk_sums].
  destruct Hd' as [(_ & _ & Hm)|?]; [|by right]. rewrite !unit_meaning in Hm. injection Hm as <- <- Hm.
  apply map_entryNf_inj, sums_equal in Hm as [Hm|?]; [left|by right|done..]. split; [done|]. by split.
Qed.
End binds.

Lemma sums_perm `{Hashes} k c : Forall (λ t, NoDup (map fst t.2)) k → Forall2 (λ t t', t.1 = t'.1 ∧ t.2 ≡ₚ t'.2) k c → map sumOf k = map sumOf c.
Proof.
  intros Hk. induction 1 as [|[n r] [n' r'] k c [Hn Hr] Hc IH]; [done|]. apply Forall_cons in Hk as [Ht Hk]. cbn in *. subst n'.
  rewrite IH by done. unfold sumOf. cbn [fst snd]. by rewrite (Sum_perm r r'), Hr.
Qed.

(** C14. The digest of an archive unit says its whole content and nothing else.  Two units
    with the same digest are of the same class and schema version, with the same tables
    and, in each, the same rows in the order of their keys, unless two different texts with
    the same SHA-256 are at hand; and neither the order the tables are summed in nor the
    order the rows are read in changes it. *)
Theorem unit_digest_content `{Hashes} class class' schema schema' c c' d :
  validString class = true → validString schema = true → validString class' = true → validString schema' = true →
  (∀ x, validString (sha256 x) = true) → contentOk c → contentOk c' → contentDigest class schema c = Some d →
  (contentDigest class' schema' c' = Some d →
     (class = class' ∧ schema = schema' ∧ arranged c = arranged c') ∨ ∃ x y, x ≠ y ∧ sha256 x = sha256 y) ∧
  (class = class' → schema = schema' → NoDup (map fst c) → Forall (λ t, NoDup (map fst t.2)) c →
     (∃ k, c ≡ₚ k ∧ Forall2 (λ t t', t.1 = t'.1 ∧ t.2 ≡ₚ t'.2) k c') → contentDigest class' schema' c' = Some d).
Proof.
  intros Hc Hs Hc' Hs' Hh Hok Hok' Hd. split; [intros Hd'; by eapply digest_content|]. intros <- <- Hn Hr (k & Hp & Hk).
  rewrite <- Hd. unfold contentDigest, UnitDigest. rewrite (sort_unique (map sumOf c) (map sumOf c')); [done| |].
  - rewrite map_map. exact Hn.
  - rewrite Hp in Hr. rewrite <- (sums_perm k c') by done. by rewrite Hp.
Qed.

(** ** Units to see it on *)

Fixpoint hexOf (s : string) : string :=
  match s with
  | EmptyString => EmptyString
  | String a s => String (hexDigit (N_of_ascii a / 16)) (String (hexDigit (N_of_ascii a mod 16)) (hexOf s))
  end.
(** A hash in hexadecimal without collisions. *)
Definition hexHashes : Hashes := {| sha256 := hexOf; nfcText s := s |}.

Lemma hexOf_valid s : validString (hexOf s) = true.
Proof.
  induction s as [|a s IH]; [done|]. cbn [hexOf]. revert IH. generalize (hexOf s). intros t Ht.
  destruct a as [[] [] [] [] [] [] [] []]; exact Ht.
Qed.
Lemma unhex_byte a : ascii_of_N (unhex (hexDigit (N_of_ascii a / 16)) * 16 + unhex (hexDigit (N_of_ascii a mod 16))) = a.
Proof. destruct a as [[] [] [] [] [] [] [] []]; reflexivity. Qed.
Lemma hexOf_inj s t : hexOf s = hexOf t → s = t.
Proof.
  revert t. induction s as [|a s IH]; intros [|b t]; cbn [hexOf]; intros He; try done. injection He as H1 H2 He.
  rewrite (IH t He). f_equal. rewrite <- (unhex_byte a), <- (unhex_byte b). by rewrite H1, H2.
Qed.

Definition ordersContent : content := [("orders", [("2", "b"); ("1", "a")]); ("lines", [("7", "x")])].
Definition ordersAgain : content := [("lines", [("7", "x")]); ("orders", [("1", "a"); ("2", "b")])].

Lemma unit_digest_content_witness :
  @contentDigest hexHashes "orders" "1" ordersAgain = @contentDigest hexHashes "orders" "1" ordersContent ∧
  ((("orders" = "orders" ∧ "1" = "1" ∧ arranged ordersContent = arranged ordersAgain)) ∨ ∃ x y, x ≠ y ∧ hexOf x = hexOf y).
Proof.
  assert (Hok : contentOk ordersContent).
  { repeat constructor; vm_compute; done. }
  assert (Hok' : contentOk ordersAgain).
  { repeat constructor; vm_compute; done. }
  destruct (@unit_digest_content hexHashes "orders" "orders" "1" "1" ordersContent ordersAgain
    (default "" (@contentDigest hexHashes "orders" "1" ordersContent)) eq_refl eq_refl eq_refl eq_refl hexOf_valid Hok Hok' eq_refl) as [H1 H2].
  split.
  - rewrite H2; [reflexivity|reflexivity|reflexivity| | |].
    + repeat constructor; set_solver.
    + repeat constructor; set_solver.
    + exists [("lines", [("7", "x")]); ("orders", [("2", "b"); ("1", "a")])]. split; [apply Permutation_swap|].
      repeat constructor.
  - apply H1. vm_compute. reflexivity.
Defined.
