(* ===== verification/TierRead.v ===== *)
(** * Tiering: a unit's rows, read and put together

    The canonical rows of tiering/rows.go with their keys and digest, the aggregates a read
    puts together from a unit's tables (tiering/reads.go [assemble]) and takes apart again
    when it writes the unit anew (tiering/reroute.go [rewrite]), and the checks of a copy
    that need no store (tiering/transfer.go [Verify]).  A row is its canonical columns: what
    [Row] writes and a route gives back; the driver's values are not modelled. *)
From S2P Require Import Prelude GoStr Canon CanonProps TierPlan TierRows.
From Stdlib Require Import Ascii String.
Open Scope string_scope.
Open Scope Z_scope.
Open Scope list_scope.

(** ** Canonical rows *)

Inductive cval := CText (s : string) | CBool (b : bool) | CList (l : list string).
#[export] Instance cval_eq_dec : EqDecision cval.
Proof. solve_decision. Defined.
Definition toValue (v : cval) : value := match v with CText s => Str s | CBool b => Bool b | CList l => Arr (map Str l) end.

Fixpoint spaced (l : list string) : string := match l with [] => "" | [x] => x | x :: l => (x ++ " " ++ spaced l)%string end.
(** [fmt.Sprint] of a canonical value. *)
Definition Sprint (v : cval) : string :=
  match v with CText s => s | CBool true => "true" | CBool false => "false" | CList l => ("[" ++ spaced l ++ "]")%string end.

Notation crow := (gmap string cval).
Notation tables := (gmap string (list (gmap string cval))).
Definition rowsIn (m : tables) (name : string) : list crow := default [] (m !! name).
Definition addRow (name : string) (r : crow) (m : tables) : tables := <[name := rowsIn m name ++ [r]]> m.

(** [Row]. *)
Definition Row (r : crow) : option string := Encode (Obj (prod_map id toValue <$> map_to_list r)).
(** [PK]; a key column that is null is an error. *)
Definition PK (t : Table) (r : crow) : option string :=
  vs ← allOk (λ k, r !! k) (KeyColumns t); Encode (Arr (map toValue vs)).
Definition keyedOf (t : Table) (r : crow) : option keyed := k ← PK t r; b ← Row r; Some (k, b).

Arguments Row _ : simpl never.
Arguments PK _ _ : simpl never.
Arguments keyedOf _ _ : simpl never.

Section digests.
Context `{Hashes}.
(** The sums of a class's tables. *)
Definition tableSum (t : Table) (rows : list crow) : option TableSum := l ← allOk (keyedOf t) rows; Some (sumOf (t_Name t, l)).
Definition tableSums (cl : Class_) (m : tables) : option (list TableSum) := allOk (λ t, tableSum t (rowsIn m (t_Name t))) (Tables cl).
(** [Catalog.digest] and the digest [rewrite] computes: of the rows read. *)
Definition digest (cl : Class_) (m : tables) : option string := sums ← tableSums cl m; UnitDigest (cl_Name cl) (cl_SchemaVersion cl) sums.
End digests.

(** ** Aggregates *)

Record Aggregate := MkAggregate { ag_Root : crow; ag_Children : tables }.

(** [assemble]'s [key]: a value that is missing is an error. *)
Definition keyText (col : string) (r : crow) : option string := Sprint <$> r !! col.

(** [assemble]: the roots (only [want] when it is not empty) and the index of their keys. *)
Fixpoint indexRoots (cl : Class_) (want : string) (rows : list crow) (out : list Aggregate) (index : gmap string nat) :
    option (list Aggregate * gmap string nat) :=
  match rows with
  | [] => Some (out, index)
  | r :: rows =>
      k ← keyText (t_PK (cl_Root cl)) r;
      if negb (bool_decide (want = "")) && negb (bool_decide (k = want)) then indexRoots cl want rows out index
      else indexRoots cl want rows (out ++ [MkAggregate r ∅]) (<[k := List.length out]> index)
  end.

(** The roots of a child table's rows so far: table, then key, to the root's key. *)
Notation rootsOf := (gmap string (gmap string string)).
Definition addChild (name : string) (r : crow) (a : Aggregate) : Aggregate := MkAggregate (ag_Root a) (addRow name r (ag_Children a)).

(** [assemble]: a child's rows. *)
Fixpoint placeRows (cl : Class_) (index : gmap string nat) (ch : Child) (rows : list crow) (st : list Aggregate * rootsOf) :
    option (list Aggregate * rootsOf) :=
  match rows with
  | [] => Some st
  | r :: rows =>
      k ← keyText (ch_FK ch) r;
      match (match child cl (ch_Parent ch) with
             | Some par => default ∅ (st.2 !! ch_Name par) !! k
             | None => Some k
             end) with
      | None => placeRows cl index ch rows st
      | Some k =>
          rootOf ← (if decide (t_PK (ch_Table ch) = "") then Some st.2
                    else own ← keyText (t_PK (ch_Table ch)) r; Some (<[ch_Name ch := <[own := k]> (default ∅ (st.2 !! ch_Name ch))]> st.2));
          let out := match index !! k with Some i => alter (addChild (ch_Name ch) r) i st.1 | None => st.1 end in
          placeRows cl index ch rows (out, rootOf)
      end
  end.
Fixpoint placeChildren (cl : Class_) (index : gmap string nat) (m : tables) (children : list Child) (st : list Aggregate * rootsOf) :
    option (list Aggregate * rootsOf) :=
  match children with
  | [] => Some st
  | ch :: children =>
      st ← placeRows cl index ch (rowsIn m (ch_Name ch)) (st.1, <[ch_Name ch := ∅]> st.2);
      placeChildren cl index m children st
  end.
(** [assemble]. *)
Definition assemble (cl : Class_) (m : tables) (want : string) : option (list Aggregate) :=
  '(out, index) ← indexRoots cl want (rowsIn m (t_Name (cl_Root cl))) [] ∅;
  fst <$> placeChildren cl index m (byDepth cl false) (out, ∅).

(** [rewrite]: an aggregate's rows added to the tables, the root's, then each child's. *)
Definition takeApart (cl : Class_) (m : tables) (a : Aggregate) : tables :=
  foldl (λ m ch, foldl (λ m r, addRow (ch_Name ch) r m) m (rowsIn (ag_Children a) (ch_Name ch))) (addRow (t_Name (cl_Root cl)) (ag_Root a) m)
    (cl_Children cl).
Definition flatten (cl : Class_) (aggs : list Aggregate) : tables := foldl (takeApart cl) ∅ aggs.

(** ** [Verify]: every child's parent is in the unit *)

(** The keys of a table's rows; only of a table that may be a parent. *)
Definition keysOf (t : Table) (rows : list crow) : list string :=
  if decide (t_PK t = "") then [] else map (λ r, match r !! t_PK t with Some v => Sprint v | None => "<nil>" end) rows.
(** The manifest's tables read so far, with their rows. *)
Definition rowsRead (reads : list (Table * list crow)) (name : string) : list string :=
  match List.find (λ p, bool_decide (t_Name p.1 = name)) reads with Some (t, rows) => keysOf t rows | None => [] end.
Definition parented (cl : Class_) (reads : list (Table * list crow)) (t : Table) (rows : list crow) : bool :=
  bool_decide (t_Name t = t_Name (cl_Root cl)) ||
  forallb (λ r,
    match child cl (t_Name t) with
    | None => false
    | Some ch =>
        match r !! ch_FK ch, parent cl ch with
        | Some v, Some p => bool_decide (Sprint v ∈ rowsRead reads (t_Name p))
        | _, _ => false
        end
    end) rows.
(** The columns reads need are in the class's root. *)
Definition located (cl : Class_) : bool := forallb (λ col, has (t_Columns (cl_Root cl)) col) (cl_Locate cl).

(** ** Nothing is lost in between *)

Definition childRows (out : list Aggregate) (name : string) : list crow := out ≫= λ a, rowsIn (ag_Children a) name.

Lemma rowsIn_add n r m n' : rowsIn (addRow n r m) n' = if decide (n = n') then rowsIn m n ++ [r] else rowsIn m n'.
Proof. unfold rowsIn, addRow. case_decide; [subst; by rewrite lookup_insert_eq|by rewrite lookup_insert_ne]. Qed.

Lemma childRows_alter out i n r n' : (i < List.length out)%nat →
  childRows (alter (addChild n r) i out) n' ≡ₚ (if decide (n = n') then [r] else []) ++ childRows out n'.
Proof.
  revert i. induction out as [|a out IH]; intros [|i] Hi; cbn in Hi; try lia; cbn -[rowsIn].
  - unfold addChild. cbn [ag_Children]. rewrite rowsIn_add. case_decide; [subst|done]. rewrite <- (assoc_L (++)). cbn. by rewrite <- Permutation_middle.
  - unfold childRows in IH. rewrite (IH i) by lia. rewrite !(assoc_L (++)). apply Permutation_app_tail, Permutation_app_comm.
Qed.
Lemma roots_alter out i n r : map ag_Root (alter (addChild n r) i out) = map ag_Root out.
Proof. revert i. induction out as [|a out IH]; intros [|i]; cbn; [done..|]. by rewrite IH. Qed.

Lemma keyText_some c r v : r !! c = Some v → keyText c r = Some (Sprint v).
Proof. unfold keyText. by intros ->. Qed.

Definition indexed (out : list Aggregate) (index : gmap string nat) : Prop := ∀ k i, index !! k = Some i → (i < List.length out)%nat.

Lemma indexRoots_all cl rows out index :
  indexed out index → (∀ r, r ∈ rows → is_Some (r !! t_PK (cl_Root cl))) →
  ∃ index', indexRoots cl "" rows out index = Some (out ++ map (λ r, MkAggregate r ∅) rows, index') ∧
    indexed (out ++ map (λ r, MkAggregate r ∅) rows) index' ∧ (∀ k, is_Some (index !! k) → is_Some (index' !! k)) ∧
    ∀ r v, r ∈ rows → r !! t_PK (cl_Root cl) = Some v → is_Some (index' !! Sprint v).
Proof.
  revert out index. induction rows as [|r rows IH]; intros out index Hi Hr.
  { exists index. rewrite app_nil_r. split; [done|]. split; [done|]. split; [done|]. by intros ? ? ?%elem_of_nil. }
  destruct (Hr r (list_elem_of_here _ _)) as [v Hv]. cbn [indexRoots]. rewrite (keyText_some _ _ _ Hv). cbn -[indexRoots].
  destruct (IH (out ++ [MkAggregate r ∅]) (<[Sprint v := List.length out]> index)) as (index' & He & H1 & H2 & H3).
  - intros k i. rewrite length_app. cbn. destruct (decide (k = Sprint v)) as [->|Hk].
    + rewrite lookup_insert_eq. intros [= <-]. lia.
    + rewrite lookup_insert_ne by done. intros ?%Hi. lia.
  - intros q Hq. apply Hr. by apply list_elem_of_further.
  - exists index'. rewrite <- (assoc_L (++)) in He, H1. split; [done|]. split; [done|]. split.
    + intros k Hk. apply H2. destruct (decide (k = Sprint v)) as [->|Hne]; [by rewrite lookup_insert_eq|by rewrite lookup_insert_ne].
    + intros q w [->|Hq]%elem_of_cons Hw; [|by eapply H3]. rewrite Hv in Hw. injection Hw as <-. apply H2. by rewrite lookup_insert_eq.
Qed.

(** The roots of a child's rows are known: those of a child that may be a parent. *)
Definition rootsKnown (index : gmap string nat) (ro : rootsOf) (ch : Child) (rows : list crow) : Prop :=
  t_PK (ch_Table ch) ≠ "" → ∀ r, r ∈ rows →
    ∃ v k, r !! t_PK (ch_Table ch) = Some v ∧ default ∅ (ro !! ch_Name ch) !! Sprint v = Some k ∧ is_Some (index !! k).
(** A row's root is found, by its foreign key. *)
Definition rootFound (cl : Class_) (index : gmap string nat) (ro : rootsOf) (ch : Child) (r : crow) : Prop :=
  ∃ v k, r !! ch_FK ch = Some v ∧ is_Some (index !! k) ∧
    match child cl (ch_Parent ch) with Some par => default ∅ (ro !! ch_Name par) !! Sprint v = Some k | None => k = Sprint v end.

Lemma placeRows_all cl index ch rows seen out ro :
  indexed out index → (∀ r par, r ∈ rows → child cl (ch_Parent ch) = Some par → ch_Name par ≠ ch_Name ch) →
  (∀ r, r ∈ rows → rootFound cl index ro ch r) → (t_PK (ch_Table ch) ≠ "" → ∀ r, r ∈ rows → is_Some (r !! t_PK (ch_Table ch))) →
  rootsKnown index ro ch seen →
  ∃ out' ro', placeRows cl index ch rows (out, ro) = Some (out', ro') ∧ indexed out' index ∧ map ag_Root out' = map ag_Root out ∧
    (∀ n, childRows out' n ≡ₚ (if decide (ch_Name ch = n) then rows else []) ++ childRows out n) ∧
    (∀ n, n ≠ ch_Name ch → ro' !! n = ro !! n) ∧ rootsKnown index ro' ch (seen ++ rows).
Proof.
  revert seen out ro. induction rows as [|r rows IH]; intros seen out ro Hi Hp Hf Hk Hs.
  { exists out, ro. rewrite app_nil_r. split_and!; try done. intros n. by case_decide. }
  destruct (Hf r (list_elem_of_here _ _)) as (v & k & Hv & [i Hki] & Hm). cbn [placeRows]. rewrite (keyText_some _ _ _ Hv). cbn -[placeRows].
  assert (Hl : match child cl (ch_Parent ch) with Some par => default ∅ (ro !! ch_Name par) !! Sprint v | None => Some (Sprint v) end = Some k).
  { destruct (child cl (ch_Parent ch)); [done|by rewrite Hm]. }
  rewrite Hl. rewrite Hki.
  assert (Hro : ∃ ro1, (if decide (t_PK (ch_Table ch) = "") then Some ro
       else own ← keyText (t_PK (ch_Table ch)) r; Some (<[ch_Name ch := <[own := k]> (default ∅ (ro !! ch_Name ch))]> ro)) = Some ro1 ∧
       (∀ n, n ≠ ch_Name ch → ro1 !! n = ro !! n) ∧ rootsKnown index ro1 ch (seen ++ [r])).
  { case_decide as Hpk; [exists ro; split_and!; [done..|]; by intros []|]. destruct (Hk Hpk r (list_elem_of_here _ _)) as [w Hw].
    rewrite (keyText_some _ _ _ Hw). cbn. eexists. split; [done|]. split; [intros n Hn; by rewrite lookup_insert_ne|].
    intros _ q Hq. rewrite lookup_insert_eq. cbn. assert (∃ u, q !! t_PK (ch_Table ch) = Some u ∧ (u = w ∨ q ∈ seen)) as (u & Hu & Hor).
    { apply elem_of_app in Hq as [Hq|Hq%list_elem_of_singleton]; [|subst; eauto]. destruct (Hs Hpk q Hq) as (u & ? & ? & _). eauto. }
    destruct (decide (Sprint u = Sprint w)) as [He|He].
    - exists u, k. rewrite He, lookup_insert_eq. eauto.
    - destruct Hor as [->|Hq']; [done|]. destruct (Hs Hpk q Hq') as (u' & k' & Hu' & Hk' & Hik). rewrite Hu in Hu'. injection Hu' as <-.
      exists u, k'. rewrite lookup_insert_ne by done. eauto. }
  destruct Hro as (ro1 & -> & Hro & Hs1). cbn -[placeRows].
  destruct (IH (seen ++ [r]) (alter (addChild (ch_Name ch) r) i out) ro1) as (out' & ro' & He & H1 & H2 & H3 & H4 & H5).
  - intros k' i'. rewrite length_alter. apply Hi.
  - intros q par Hq. apply Hp with q. by apply list_elem_of_further.
  - intros q Hq. destruct (Hf q) as (v' & k' & ? & ? & Hm'); [by apply list_elem_of_further|]. exists v', k'. split; [done|]. split; [done|].
    destruct (child cl (ch_Parent ch)) as [par|] eqn:Hc; [|done]. rewrite Hro; [done|]. apply (Hp q); [by apply list_elem_of_further|done].
  - intros Hpk q Hq. apply Hk; [done|]. by apply list_elem_of_further.
  - done.
  - exists out', ro'. split; [exact He|]. split; [done|]. split; [by rewrite H2, roots_alter|]. split; [|split].
    + intros n. rewrite H3, childRows_alter by (by eapply Hi). case_decide; [|done]. cbn. by rewrite <- Permutation_middle.
    + intros n Hn. rewrite H4 by done. by apply Hro.
    + by rewrite <- (assoc_L (++)) in H5.
Qed.

(** What a child's rows need of the children placed before it. *)
Definition placeable (cl : Class_) (index : gmap string nat) (m : tables) (before : list Child) (ch : Child) : Prop :=
  (t_PK (ch_Table ch) ≠ "" → ∀ r, r ∈ rowsIn m (ch_Name ch) → is_Some (r !! t_PK (ch_Table ch))) ∧
  ∀ r, r ∈ rowsIn m (ch_Name ch) → ∃ v, r !! ch_FK ch = Some v ∧
    match child cl (ch_Parent ch) with
    | Some par => par ∈ before ∧ t_PK (ch_Table par) ≠ "" ∧
        ∃ q w, q ∈ rowsIn m (ch_Name par) ∧ q !! t_PK (ch_Table par) = Some w ∧ Sprint w = Sprint v
    | None => is_Some (index !! Sprint v)
    end.

Lemma placeChildren_all cl index m rest before out ro :
  indexed out index → NoDup (map ch_Name (before ++ rest)) →
  (∀ pre ch post, rest = pre ++ ch :: post → placeable cl index m (before ++ pre) ch) →
  (∀ ch, ch ∈ before → rootsKnown index ro ch (rowsIn m (ch_Name ch))) →
  ∃ out' ro', placeChildren cl index m rest (out, ro) = Some (out', ro') ∧ map ag_Root out' = map ag_Root out ∧
    ∀ n, childRows out' n ≡ₚ (if decide (n ∈ map ch_Name rest) then rowsIn m n else []) ++ childRows out n.
Proof.
  revert before out ro. induction rest as [|ch rest IH]; intros before out ro Hi Hn Hp Hk.
  { exists out, ro. split; [done|]. split; [done|]. intros n. by rewrite decide_False by apply not_elem_of_nil. }
  destruct (Hp [] ch rest eq_refl) as [Hpk Hfk]. rewrite app_nil_r in Hfk.
  assert (Hne : ∀ c, c ∈ before → ch_Name c ≠ ch_Name ch).
  { intros c Hc He. rewrite map_app in Hn. apply NoDup_app in Hn as (_ & Hn & _).
    apply (Hn (ch_Name c)); [by apply list_elem_of_fmap_2|]. rewrite He. apply list_elem_of_here. }
  assert (Hk' : ∀ c, c ∈ before → rootsKnown index (<[ch_Name ch := ∅]> ro) c (rowsIn m (ch_Name c))).
  { intros c Hc. unfold rootsKnown. rewrite lookup_insert_ne by (intros He; by apply (Hne c Hc)). by apply Hk. }
  destruct (placeRows_all cl index ch (rowsIn m (ch_Name ch)) [] out (<[ch_Name ch := ∅]> ro)) as (out1 & ro1 & He & H1 & H2 & H3 & H4 & H5).
  - done.
  - intros r par Hr Hc. destruct (Hfk r Hr) as (v & _ & Hm). rewrite Hc in Hm. destruct Hm as [Hm _]. by apply Hne.
  - intros r Hr. destruct (Hfk r Hr) as (v & Hv & Hm). unfold rootFound.
    destruct (child cl (ch_Parent ch)) as [par|]; [|by exists v, (Sprint v)].
    destruct Hm as (Hb & Hpp & q & w & Hq & Hw & Hs). destruct (Hk' par Hb Hpp q Hq) as (w' & k & Hw' & Hl & Hik).
    rewrite Hw in Hw'. injection Hw' as <-. rewrite Hs in Hl. by exists v, k.
  - done.
  - intros _ r Hr. by apply elem_of_nil in Hr.
  - cbn -[placeRows]. rewrite He. cbn -[placeRows].
    destruct (IH (before ++ [ch]) out1 ro1) as (out' & ro' & He' & Hr' & Hc').
    + done.
    + by rewrite <- (assoc_L (++)).
    + intros pre c post ->. rewrite <- (assoc_L (++)). apply (Hp (ch :: pre) c post eq_refl).
    + intros c [Hc| ->%list_elem_of_singleton]%elem_of_app; [|exact H5]. unfold rootsKnown. rewrite H4 by (by apply Hne). by apply Hk'.
    + exists out', ro'. split; [exact He'|]. split; [by rewrite Hr'|]. intros n. rewrite Hc', H3. cbn [map].
      rewrite map_app in Hn. apply NoDup_app in Hn as (_ & _ & Hn). cbn in Hn. apply NoDup_cons in Hn as [Hnin _].
      destruct (decide (ch_Name ch = n)) as [<-|Hd].
      * rewrite decide_False by done. rewrite decide_True by apply list_elem_of_here. done.
      * destruct (decide (n ∈ map ch_Name rest)) as [Hin|Hin].
        -- rewrite decide_True by (by apply list_elem_of_further). done.
        -- rewrite decide_False; [done|]. by intros [?|?]%elem_of_cons.
Qed.

Lemma takeChildren_rows kids n chs m : NoDup (map ch_Name chs) →
  rowsIn (foldl (λ m ch, foldl (λ m r, addRow (ch_Name ch) r m) m (rowsIn kids (ch_Name ch))) m chs) n =
  rowsIn m n ++ (if decide (n ∈ map ch_Name chs) then rowsIn kids n else []).
Proof.
  assert (Hone : ∀ name l m n, rowsIn (foldl (λ m r, addRow name r m) m l) n = rowsIn m n ++ (if decide (name = n) then l else [])).
  { intros name l. induction l as [|r l IH]; intros m' n'; cbn; [case_decide; by rewrite app_nil_r|].
    rewrite IH, rowsIn_add. case_decide; [subst; by rewrite <- (assoc_L (++))|done]. }
  revert m. induction chs as [|ch chs IH]; intros m Hn; cbn [foldl map].
  { rewrite decide_False by apply not_elem_of_nil. by rewrite app_nil_r. }
  cbn in Hn. apply NoDup_cons in Hn as [Hnin Hn]. rewrite IH, Hone by done. rewrite <- (assoc_L (++)). f_equal.
  destruct (decide (ch_Name ch = n)) as [<-|Hd].
  - rewrite decide_False by done. rewrite decide_True by apply list_elem_of_here. by rewrite app_nil_r.
  - cbn. destruct (decide (n ∈ map ch_Name chs)) as [Hin|Hin].
    + by rewrite decide_True by (by apply list_elem_of_further).
    + rewrite decide_False; [done|]. by intros [?|?]%elem_of_cons.
Qed.
Definition wellNamed (cl : Class_) : Prop := NoDup (map t_Name (Tables cl)).
Lemma wellNamed_children cl : wellNamed cl → NoDup (map ch_Name (cl_Children cl)) ∧ t_Name (cl_Root cl) ∉ map ch_Name (cl_Children cl).
Proof.
  unfold wellNamed, Tables. cbn. intros [Hr Hn]%NoDup_cons. rewrite map_map in Hr, Hn. done.
Qed.

Lemma takeApart_rows cl m a n : wellNamed cl →
  rowsIn (takeApart cl m a) n = rowsIn m n ++ (if decide (n = t_Name (cl_Root cl)) then [ag_Root a]
                                               else if decide (n ∈ map ch_Name (cl_Children cl)) then rowsIn (ag_Children a) n else []).
Proof.
  intros [Hn Hr]%wellNamed_children. unfold takeApart. rewrite takeChildren_rows, rowsIn_add by done.
  destruct (decide (n = t_Name (cl_Root cl))) as [->|Hd].
  - rewrite decide_True by done. rewrite decide_False by done. by rewrite app_nil_r.
  - by rewrite decide_False by (intros He; by apply Hd).
Qed.
Lemma flatten_rows cl aggs n : wellNamed cl →
  rowsIn (flatten cl aggs) n = if decide (n = t_Name (cl_Root cl)) then map ag_Root aggs
                               else if decide (n ∈ map ch_Name (cl_Children cl)) then childRows aggs n else [].
Proof.
  intros Hw. unfold flatten. assert (Hg : ∀ m, rowsIn (foldl (takeApart cl) m aggs) n = rowsIn m n ++ (if decide (n = t_Name (cl_Root cl)) then map ag_Root aggs
    else if decide (n ∈ map ch_Name (cl_Children cl)) then childRows aggs n else [])).
  { induction aggs as [|a aggs IH]; intros m; cbn [foldl map].
    - unfold childRows. cbn. repeat case_decide; by rewrite app_nil_r.
    - rewrite IH, takeApart_rows by done. rewrite <- (assoc_L (++)). f_equal. repeat case_decide; done. }
  by rewrite Hg.
Qed.

Lemma Check_parent c n registries ch p : Check c n registries = [] → ch ∈ cl_Children c → parent c ch = Some p → t_PK p ≠ "".
Proof.
  unfold Check. intros Hc Hin Hp. do 9 apply app_nil in Hc as [_ Hc]. apply app_nil in Hc as [Hc _].
  rewrite bind_nil in Hc. specialize (Hc ch Hin). unfold checkChild in Hc. apply app_nil in Hc as [_ Hc]. apply app_nil in Hc as [Hc _].
  rewrite Hp in Hc. by apply when_nothing, bool_decide_eq_false in Hc.
Qed.
Lemma Check_named c n registries t : Check c n registries = [] → t ∈ Tables c → t_Name t ≠ "".
Proof.
  unfold Check. intros Hc Hin. do 7 apply app_nil in Hc as [_ Hc]. apply app_nil in Hc as [Hc _].
  rewrite bind_nil in Hc. specialize (Hc t Hin). unfold checkTable in Hc. apply app_nil in Hc as [_ Hc]. apply app_nil in Hc as [Hc _].
  apply when_nothing, negb_false_iff in Hc. by intros He; rewrite He in Hc.
Qed.

(** A unit that [Verify] finds whole: every row has its key, and every child row's parent
    is there. *)
Definition whole (cl : Class_) (m : tables) : Prop :=
  (∀ r, r ∈ rowsIn m (t_Name (cl_Root cl)) → is_Some (r !! t_PK (cl_Root cl))) ∧
  ∀ ch, ch ∈ cl_Children cl →
    (t_PK (ch_Table ch) ≠ "" → ∀ r, r ∈ rowsIn m (ch_Name ch) → is_Some (r !! t_PK (ch_Table ch))) ∧
    ∀ r, r ∈ rowsIn m (ch_Name ch) → ∃ v p q w, r !! ch_FK ch = Some v ∧ parent cl ch = Some p ∧
      q ∈ rowsIn m (t_Name p) ∧ q !! t_PK p = Some w ∧ Sprint w = Sprint v.

Lemma child_some cl name ch : child cl name = Some ch → ch ∈ cl_Children cl ∧ ch_Name ch = name.
Proof. unfold child. intros [Hin He]%find_some. apply bool_decide_eq_true in He. by apply list_elem_of_In in Hin. Qed.
Lemma name_child cl ch o : wellNamed cl → ch ∈ cl_Children cl → o ∈ cl_Children cl → ch_Name ch = ch_Name o → ch = o.
Proof.
  intros [Hn _]%wellNamed_children (i & Hi)%list_elem_of_lookup (j & Hj)%list_elem_of_lookup He.
  assert (i = j) as ->. { eapply NoDup_lookup; [exact Hn| |]; rewrite list_lookup_fmap, ?Hi, ?Hj; cbn; [done|by rewrite He]. }
  congruence.
Qed.
(** The parent of a child, seen from [assemble]. *)
Lemma parent_child cl n registries ch p : Check cl n registries = [] → wellNamed cl → ch ∈ cl_Children cl → parent cl ch = Some p →
  if underRoot cl ch then p = cl_Root cl ∧ child cl (ch_Parent ch) = None
  else ∃ o, child cl (ch_Parent ch) = Some o ∧ ch_Table o = p.
Proof.
  intros Hc Hw Hin. unfold parent. destruct (underRoot cl ch) eqn:Hu.
  - intros [= <-]. split; [done|]. destruct (child cl (ch_Parent ch)) as [o|] eqn:Ho; [exfalso|done].
    apply child_some in Ho as [Hoin Hoe]. unfold underRoot in Hu. apply orb_true_iff in Hu as [Hu%bool_decide_eq_true|Hu%bool_decide_eq_true].
    + apply (Check_named cl n registries (ch_Table o) Hc); [unfold Tables; apply list_elem_of_further; by apply list_elem_of_fmap_2|].
      unfold ch_Name in Hoe. congruence.
    + apply wellNamed_children in Hw as [_ Hw]. apply Hw. rewrite <- Hu, <- Hoe. by apply list_elem_of_fmap_2.
  - destruct (List.find _ (cl_Children cl)) as [o|] eqn:Ho; [|done]. intros [= <-]. apply find_some in Ho as [Hoin%list_elem_of_In He].
    apply andb_true_iff in He as [He%bool_decide_eq_true _]. exists o. split; [|done].
    destruct (child cl (ch_Parent ch)) as [o'|] eqn:Ho'.
    + apply child_some in Ho' as [Hin' He']. f_equal. symmetry. apply (name_child cl); [done..|]. congruence.
    + unfold child in Ho'. eapply find_none in Ho'; [|by apply list_elem_of_In in Hoin; exact Hoin]. cbn in Ho'. by apply bool_decide_eq_false in Ho'.
Qed.

#[export] Instance shallowerFirst_trans c : Transitive (shallowerFirst c).
Proof. intros x y z. unfold shallowerFirst. lia. Qed.
#[export] Instance shallowerFirst_total c : Total (shallowerFirst c).
Proof. intros x y. unfold shallowerFirst. lia. Qed.

Lemma byDepth_perm cl b : byDepth cl b ≡ₚ cl_Children cl.
Proof. destruct b; apply merge_sort_Permutation. Qed.

(** A parent comes before its children. *)
Lemma parent_before cl n registries pre ch post par : Check cl n registries = [] →
  byDepth cl false = pre ++ ch :: post → underRoot cl ch = false → child cl (ch_Parent ch) = Some par → par ∈ pre.
Proof.
  intros Hc Hb Hu Hp. destruct (child_some _ _ _ Hp) as [Hpin _].
  assert (Hch : ch ∈ cl_Children cl). { rewrite <- (byDepth_perm cl false), Hb. apply elem_of_app. right. apply list_elem_of_here. }
  assert (Hd : depth cl ch = depth cl par + 1).
  { destruct (Check_child _ _ _ _ Hc Hch) as [_ H1]. destruct (Check_child _ _ _ _ Hc Hpin) as [_ H2].
    destruct (depth_up cl ch H1) as (k & Hk & _ & ->). destruct (depth_up cl par H2) as (j & Hj & _ & ->).
    assert (k = S j) as -> by (eapply upTo_unique; [exact Hk|by econstructor]). lia. }
  rewrite <- (byDepth_perm cl false), Hb in Hpin. apply elem_of_app in Hpin as [?|Hpin]; [done|exfalso].
  assert (Hs : StronglySorted (shallowerFirst cl) (pre ++ ch :: post)). { rewrite <- Hb. apply (StronglySorted_merge_sort _). }
  apply StronglySorted_app_1_r in Hs. apply StronglySorted_inv in Hs as [_ Hs].
  apply elem_of_cons in Hpin as [->|Hpin]; [lia|]. rewrite Forall_forall in Hs. specialize (Hs par Hpin). unfold shallowerFirst in Hs. lia.
Qed.

Lemma assemble_whole cl n registries m : Check cl n registries = [] → wellNamed cl → whole cl m →
  ∃ aggs, assemble cl m "" = Some aggs ∧ map ag_Root aggs = rowsIn m (t_Name (cl_Root cl)) ∧
    ∀ t, t ∈ Tables cl → rowsIn (flatten cl aggs) (t_Name t) ≡ₚ rowsIn m (t_Name t).
Proof.
  intros Hc Hw [Hroot Hch]. unfold assemble.
  destruct (indexRoots_all cl (rowsIn m (t_Name (cl_Root cl))) [] ∅) as (index & -> & Hi & _ & Hx); [by intros ? ? ?|done|]. cbn [app] in Hi |- *.
  destruct (placeChildren_all cl index m (byDepth cl false) [] (map (λ r, MkAggregate r ∅) (rowsIn m (t_Name (cl_Root cl)))) ∅)
    as (out & ro & He & Hr & Hn).
  - done.
  - cbn [app]. rewrite byDepth_perm. by apply wellNamed_children.
  - intros pre ch post Hb. cbn [app]. assert (Hin : ch ∈ cl_Children cl).
    { rewrite <- (byDepth_perm cl false), Hb. apply elem_of_app. right. apply list_elem_of_here. }
    destruct (Hch ch Hin) as [H1 H2]. split; [done|]. intros r Hr. destruct (H2 r Hr) as (v & p & q & w & Hv & Hp & Hq & Hqw & Hs).
    exists v. split; [done|]. pose proof (parent_child cl n registries ch p Hc Hw Hin Hp) as Hpc. destruct (underRoot cl ch) eqn:Hu.
    + destruct Hpc as [-> ->]. rewrite <- Hs. by eapply Hx.
    + destruct Hpc as (o & Ho & <-). rewrite Ho. split; [by eapply parent_before|]. split; [by eapply Check_parent|]. by exists q, w.
  - by intros ch ?%elem_of_nil.
  - cbn [mbind option_bind]. rewrite He. exists out. split; [done|]. rewrite map_map in Hr. cbn in Hr. rewrite map_id in Hr. split; [done|].
    intros t Ht. rewrite flatten_rows by done. destruct (wellNamed_children cl Hw) as [_ Hnr]. unfold Tables in Ht.
    apply elem_of_cons in Ht as [->|Ht]; [by rewrite decide_True, Hr|].
    apply list_elem_of_fmap in Ht as (ch & -> & Ht). assert (Hin : ch_Name ch ∈ map ch_Name (cl_Children cl)) by (by apply list_elem_of_fmap_2).
    fold (ch_Name ch). rewrite decide_False by (intros He'; by rewrite He' in Hin). rewrite decide_True by done. rewrite Hn, decide_True.
    + assert (childRows (map (λ r, MkAggregate r ∅) (rowsIn m (t_Name (cl_Root cl)))) (ch_Name ch) = []) as ->; [|by rewrite app_nil_r].
      unfold childRows. generalize (rowsIn m (t_Name (cl_Root cl))). intros l. by induction l.
    + by rewrite byDepth_perm.
Qed.

(** C18. Reading a unit and writing it again loses no row and makes none up.  When the tables
    of its checked class have names of their own, and every row of the unit has its key and
    every child row its parent in the unit, which is what the verification of a copy
    checks, the aggregates put together from its tables hold its roots in order, and taken
    apart again they give each table's rows back. *)
Theorem assemble_keeps cl n registries m : Check cl n registries = [] → wellNamed cl → whole cl m →
  ∃ aggs, assemble cl m "" = Some aggs ∧ map ag_Root aggs = rowsIn m (t_Name (cl_Root cl)) ∧
    ∀ t, t ∈ Tables cl → rowsIn (flatten cl aggs) (t_Name t) ≡ₚ rowsIn m (t_Name t).
Proof. apply assemble_whole. Qed.

(** Two orders with lines, the notes of the lines in a table of their own. *)
Definition keyRow (cols : list (string * string)) : crow := list_to_map (prod_map id CText <$> cols).
Definition demoTables : tables := list_to_map
  [("orders", [keyRow [("id", "o1")]; keyRow [("id", "o2")]]);
   ("line", [keyRow [("id", "l2"); ("order_id", "o2")]; keyRow [("id", "l1"); ("order_id", "o1")]]);
   ("note", [keyRow [("id", "n1"); ("line_id", "l1")]; keyRow [("id", "n2"); ("line_id", "l2")]; keyRow [("id", "n3"); ("line_id", "l1")]])].

Lemma demo_whole : whole demoClass demoTables.
Proof.
  assert (Hel : ∀ (P : crow → Prop) l, Forall P l → ∀ r, r ∈ l → P r) by (intros P l; by rewrite Forall_forall).
  split; [apply Hel; repeat constructor; by eexists|]. intros ch [->|[->|?%elem_of_nil]%elem_of_cons]%elem_of_cons; [| |done].
  - split; [intros _; apply Hel; repeat constructor; by eexists|]. apply Hel. repeat constructor.
    + exists (CText "l1"), (ch_Table demoLine), (keyRow [("id", "l1"); ("order_id", "o1")]), (CText "l1"). split_and!; try reflexivity. vm_compute. right. left.
    + exists (CText "l2"), (ch_Table demoLine), (keyRow [("id", "l2"); ("order_id", "o2")]), (CText "l2"). split_and!; try reflexivity. vm_compute. left.
    + exists (CText "l1"), (ch_Table demoLine), (keyRow [("id", "l1"); ("order_id", "o1")]), (CText "l1"). split_and!; try reflexivity. vm_compute. right. left.
  - split; [intros _; apply Hel; repeat constructor; by eexists|]. apply Hel. repeat constructor.
    + exists (CText "o2"), (cl_Root demoClass), (keyRow [("id", "o2")]), (CText "o2"). split_and!; try reflexivity. vm_compute. right. left.
    + exists (CText "o1"), (cl_Root demoClass), (keyRow [("id", "o1")]), (CText "o1"). split_and!; try reflexivity. vm_compute. left.
Qed.
Lemma assemble_keeps_witness :
  ∃ aggs, assemble demoClass demoTables "" = Some aggs ∧ map ag_Root aggs = rowsIn demoTables (t_Name (cl_Root demoClass)) ∧
    ∀ t, t ∈ Tables demoClass → rowsIn (flatten demoClass aggs) (t_Name t) ≡ₚ rowsIn demoTables (t_Name t).
Proof.
  apply (assemble_keeps demoClass 30 ["names"] demoTables demoClass_ok); [|exact demo_whole].
  unfold wellNamed. vm_compute. repeat constructor; set_solver.
Defined.
