(* ===== verification/TierStore.v ===== *)
(** * Tiering: the catalog

    The tables of one member's catalog and the local transactions on them: candidates and
    sealing (tiering/catalog.go), claims and publishing (tiering/transfer.go), the release
    of the online rows (tiering/release.go), holds and approvals (tiering/holds.go),
    destruction (tiering/destroy.go), leases (tiering/reads.go), the write barrier
    (tiering/barrier.go) and the release of replaced versions (tiering/reroute.go).  Each is
    a computation on the store [Cat]; [now] is the transaction's time. *)
From S2P Require Import Prelude GoStr Canon CanonProps TierPlan TierRows TierRead.
From Stdlib Require Import Ascii String.
Open Scope string_scope.
Open Scope Z_scope.
Open Scope list_scope.
Open Scope tx_scope.

(** ** The store *)

(** An online row: the key of the root it hangs from, as [rootExpr] finds it, its canonical
    columns, and, of a root, what the candidates' query reads: the terminal condition, the
    anchor, the creation and the grouping's key. *)
Record Rec := MkRec { r_root : string; r_row : crow; r_terminal : bool; r_anchor : Z; r_created : Z; r_group : string }.

(** be_tier_unit. *)
Record Unit := MkUnit {
  u_class : string; u_grouping : string; u_seq : Z; u_state : UState; u_digest : string; u_members : Z; u_generation : Z;
  u_claim_epoch : option string; u_manifest_version : Z; u_route : Route; u_route_version : option Z; u_published_at : option Z;
  u_anchor_max : option Z; u_newest_created : option Z; u_blocked : option (gmap string (list string)); u_blocked_since : option Z;
  u_destroyed_at : option Z; u_tombstone : option string }.

(** A manifest and its tables and objects; an object's key as its parts ([ObjectKey] writes
    them with slashes between). *)
Inductive file := Part (table : string) (part : nat) | ManifestFile.
#[export] Instance file_eq_dec : EqDecision file.
Proof. solve_decision. Defined.
#[export] Instance file_countable : Countable file.
Proof.
  refine (inj_countable' (λ f, match f with Part t p => Some (t, p) | ManifestFile => None end)
    (λ o, match o with Some (t, p) => Part t p | None => ManifestFile end) _). by intros [].
Defined.
Record okey := MkKey { k_class : string; k_unit : string; k_generation : Z; k_version : Z; k_file : file }.
#[export] Instance okey_eq_dec : EqDecision okey.
Proof. solve_decision. Defined.
#[export] Instance okey_countable : Countable okey.
Proof.
  refine (inj_countable' (λ k, (k_class k, k_unit k, k_generation k, k_version k, k_file k)) (λ '(a, b, c, d, e), MkKey a b c d e) _).
  by intros [].
Defined.
Record ManifestObject := MkManifestObject { mo_Key : okey; mo_Rows : Z; mo_Bytes : Z; mo_SHA256 : string }.
Record ManifestTable := MkManifestTable { mt_Name : string; mt_Rows : Z; mt_Objects : list ManifestObject }.
Record Manifest := MkManifest {
  m_Unit : string; m_Class : string; m_Version : Z; m_Route : Route; m_Generation : Z; m_Epoch : string; m_SchemaVersion : string;
  m_Digest : string; m_Tables : list ManifestTable }.
(** be_tier_manifest. *)
Record ManifestRow := MkManifestRow { mr_route : Route; mr_generation : Z; mr_manifest : Manifest; mr_created_at : Z; mr_superseded_at : option Z }.

(** be_tier_hold and be_tier_approval. *)
Inductive ScopeKind := ScopeUnit | ScopeClass | ScopeRecord | ScopeOther (s : string).
#[export] Instance ScopeKind_eq_dec : EqDecision ScopeKind.
Proof. solve_decision. Defined.
Record Scope := MkScope { sc_Kind : ScopeKind; sc_Value : string }.
Record HoldRow := MkHold { h_scope : Scope; h_source : string; h_reason : string; h_by : string; h_released_at : option Z }.
Record ApprovalRow := MkApproval { a_scope : Scope; a_reason : string; a_by : string; a_withdrawn_at : option Z }.

(** The catalog's tables, the component's tables ([c_online], by name), the warm rows
    (be_tier_row by unit, version and table, each with its canonical key), the roots with
    events not published yet, and the database's epoch. *)
Record Cat := MkCat {
  c_units : gmap string Unit; c_members : gmap (string * string) string; c_online : gmap string (list Rec);
  c_warm : gmap (string * Z * string) (list (string * crow)); c_manifests : gmap (string * Z) ManifestRow; c_version : Z;
  c_leases : gmap string (Z * Z); c_thaws : gmap string Z; c_holds : gmap string HoldRow; c_approvals : gmap string ApprovalRow;
  c_outbox : gset string; c_epoch : string }.

Definition setUnits (f : gmap string Unit → gmap string Unit) (s : Cat) : Cat :=
  MkCat (f (c_units s)) (c_members s) (c_online s) (c_warm s) (c_manifests s) (c_version s) (c_leases s) (c_thaws s) (c_holds s) (c_approvals s)
    (c_outbox s) (c_epoch s).
Definition setMembers f (s : Cat) : Cat :=
  MkCat (c_units s) (f (c_members s)) (c_online s) (c_warm s) (c_manifests s) (c_version s) (c_leases s) (c_thaws s) (c_holds s) (c_approvals s)
    (c_outbox s) (c_epoch s).
Definition setOnline f (s : Cat) : Cat :=
  MkCat (c_units s) (c_members s) (f (c_online s)) (c_warm s) (c_manifests s) (c_version s) (c_leases s) (c_thaws s) (c_holds s) (c_approvals s)
    (c_outbox s) (c_epoch s).
Definition setWarm f (s : Cat) : Cat :=
  MkCat (c_units s) (c_members s) (c_online s) (f (c_warm s)) (c_manifests s) (c_version s) (c_leases s) (c_thaws s) (c_holds s) (c_approvals s)
    (c_outbox s) (c_epoch s).
Definition setManifests f (s : Cat) : Cat :=
  MkCat (c_units s) (c_members s) (c_online s) (c_warm s) (f (c_manifests s)) (c_version s) (c_leases s) (c_thaws s) (c_holds s) (c_approvals s)
    (c_outbox s) (c_epoch s).
Definition bumpVersion (s : Cat) : Cat :=
  MkCat (c_units s) (c_members s) (c_online s) (c_warm s) (c_manifests s) (c_version s + 1) (c_leases s) (c_thaws s) (c_holds s) (c_approvals s)
    (c_outbox s) (c_epoch s).
Definition setLeases f (s : Cat) : Cat :=
  MkCat (c_units s) (c_members s) (c_online s) (c_warm s) (c_manifests s) (c_version s) (f (c_leases s)) (c_thaws s) (c_holds s) (c_approvals s)
    (c_outbox s) (c_epoch s).
Definition setThaws f (s : Cat) : Cat :=
  MkCat (c_units s) (c_members s) (c_online s) (c_warm s) (c_manifests s) (c_version s) (c_leases s) (f (c_thaws s)) (c_holds s) (c_approvals s)
    (c_outbox s) (c_epoch s).
Definition setHolds f (s : Cat) : Cat :=
  MkCat (c_units s) (c_members s) (c_online s) (c_warm s) (c_manifests s) (c_version s) (c_leases s) (c_thaws s) (f (c_holds s)) (c_approvals s)
    (c_outbox s) (c_epoch s).
Definition setApprovals f (s : Cat) : Cat :=
  MkCat (c_units s) (c_members s) (c_online s) (c_warm s) (c_manifests s) (c_version s) (c_leases s) (c_thaws s) (c_holds s) (f (c_approvals s))
    (c_outbox s) (c_epoch s).

(** The updates of a unit's row. *)
Definition setBlocked (blocked : gmap string (list string)) (since : option Z) (u : Unit) : Unit :=
  MkUnit (u_class u) (u_grouping u) (u_seq u) (u_state u) (u_digest u) (u_members u) (u_generation u) (u_claim_epoch u) (u_manifest_version u)
    (u_route u) (u_route_version u) (u_published_at u) (u_anchor_max u) (u_newest_created u) (Some blocked)
    (match u_blocked_since u with Some t => Some t | None => since end) (u_destroyed_at u) (u_tombstone u).
Definition setSealed (members : Z) (digest : string) (anchor created : option Z) (u : Unit) : Unit :=
  MkUnit (u_class u) (u_grouping u) (u_seq u) Sealed digest members (u_generation u) (u_claim_epoch u) (u_manifest_version u)
    (u_route u) (u_route_version u) (u_published_at u) anchor created None None (u_destroyed_at u) (u_tombstone u).
Definition setClaimed (epoch : string) (u : Unit) : Unit :=
  MkUnit (u_class u) (u_grouping u) (u_seq u) (u_state u) (u_digest u) (u_members u) (u_generation u + 1) (Some epoch) (u_manifest_version u)
    (u_route u) (u_route_version u) (u_published_at u) (u_anchor_max u) (u_newest_created u) (u_blocked u) (u_blocked_since u)
    (u_destroyed_at u) (u_tombstone u).
Definition setPublished (now : Z) (route : Route) (version routeVersion : Z) (u : Unit) : Unit :=
  MkUnit (u_class u) (u_grouping u) (u_seq u) Published (u_digest u) (u_members u) (u_generation u) (u_claim_epoch u) version
    route (Some routeVersion) (Some now) (u_anchor_max u) (u_newest_created u) (u_blocked u) (u_blocked_since u) (u_destroyed_at u) (u_tombstone u).
Definition setRewritten (route : Route) (version : Z) (digest : string) (routeVersion : Z) (u : Unit) : Unit :=
  MkUnit (u_class u) (u_grouping u) (u_seq u) (u_state u) digest (u_members u) (u_generation u) (u_claim_epoch u) version
    route (if decide (u_route u = route) then u_route_version u else Some routeVersion) (u_published_at u) (u_anchor_max u) (u_newest_created u)
    (u_blocked u) (u_blocked_since u) (u_destroyed_at u) (u_tombstone u).
Definition setState (state : UState) (u : Unit) : Unit :=
  MkUnit (u_class u) (u_grouping u) (u_seq u) state (u_digest u) (u_members u) (u_generation u) (u_claim_epoch u) (u_manifest_version u)
    (u_route u) (u_route_version u) (u_published_at u) (u_anchor_max u) (u_newest_created u) (u_blocked u) (u_blocked_since u)
    (u_destroyed_at u) (u_tombstone u).
Definition setDestroyed (now : Z) (basis : string) (u : Unit) : Unit :=
  MkUnit (u_class u) (u_grouping u) (u_seq u) Destroyed (u_digest u) (u_members u) (u_generation u) (u_claim_epoch u) (u_manifest_version u)
    (u_route u) (u_route_version u) (u_published_at u) (u_anchor_max u) (u_newest_created u) (u_blocked u) (u_blocked_since u)
    (Some now) (Some basis).
Definition setDigest (digest : string) (u : Unit) : Unit :=
  MkUnit (u_class u) (u_grouping u) (u_seq u) (u_state u) digest (u_members u) (u_generation u) (u_claim_epoch u) (u_manifest_version u)
    (u_route u) (u_route_version u) (u_published_at u) (u_anchor_max u) (u_newest_created u) (u_blocked u) (u_blocked_since u)
    (u_destroyed_at u) (u_tombstone u).

(** ** The deployment *)

(** The classes, the configuration and the cold store; what is not the repository's: the
    order of the roots' keys in the database, the defaults of the columns the catalog does
    not write in a new unit, the Parquet files and the manifest's text. *)
Class Deploy := {
  dp_Classes : gmap string Class_; dp_Residence : gmap string Z; dp_MaxMembers : Z; dp_Batch : Z; dp_Parts : Z; dp_N : Z; dp_Grace : Z;
  dp_OrphanAge : Z; dp_Store : bool; dp_Evidence : bool;
  rootLe : string → string → Prop; rootLe_dec :: RelDecision rootLe;
  firstGeneration : Z; firstVersion : Z;
  WriteParquet : Table → list crow → option string; ReadParquet : Table → string → option (list crow);
  ManifestText : Manifest → string }.

Inductive tierErr :=
| NoClass | StaysOnline | BlockerFailed | EncodeFailed | NoRow | ScanNull | Stale | NoStore | BadRouteErr | Exists | Missing | NotVerified
| Unavailable | NoRouteToRead | OpenUnit | NoEvidence | RecordSealed | Denied | RequestInvalid | NotFoundErr | PlanChanged | Online_ | HeldErr | Dangling | NeedsEraseJob.

Section catalog.
Context `{Hashes, Deploy}.

Notation ctx := (tx Cat tierErr).

(** [Catalog.class]. *)
Definition class_ (name : string) : option (Class_ * Z) :=
  cl ← dp_Classes !! name;
  if Tierable cl then Some (cl, default (cl_ResidenceDays cl) (dp_Residence !! name)) else None.

Definition ofOption {A} (e : tierErr) (o : option A) : ctx A := match o with Some a => tret a | None => tfail e end.
Definition ensure (b : bool) (e : tierErr) : ctx () := if b then tret () else tfail e.
Definition unitRow (unit : string) : ctx Unit := s <~ tget; ofOption NoRow (c_units s !! unit).
Definition putUnit (unit : string) (u : Unit) : ctx () := tmod (setUnits (insert unit u)).

(** ** Candidates and sealing *)

Definition onlineRows (s : Cat) (table : string) : list Rec := default [] (c_online s !! table).

(** [candidates], with the grouping's condition of [Seal]. *)
Definition candidate (now : Z) (class : string) (days : Z) (g : string) (s : Cat) (r : Rec) : Prop :=
  r_terminal r = true ∧ r_anchor r ≤ now - days * Day ∧ c_members s !! (class, r_root r) = None ∧ r_group r = g.
#[global] Instance candidate_dec now class days g s r : Decision (candidate now class days g s r).
Proof. unfold candidate. apply _. Defined.
Definition DefaultMaxMembers : Z := 100000.
Definition maxMembers : Z := if decide (dp_MaxMembers ≤ 0) then DefaultMaxMembers else dp_MaxMembers.
(** The roots a seal takes, in the order of their keys. *)
Definition sealRoots (now : Z) (class : string) (cl : Class_) (days : Z) (g : string) (s : Cat) : list string :=
  take (Z.to_nat maxMembers) (merge_sort rootLe (map r_root (filter (candidate now class days g s) (onlineRows s (t_Name (cl_Root cl)))))).

(** [openUnit]. *)
Definition isOpen (class grouping : string) (u : Unit) : bool :=
  bool_decide (u_class u = class) && bool_decide (u_grouping u = grouping) && bool_decide (u_state u = Open).
Definition nextSeq (class grouping : string) (s : Cat) : Z :=
  1 + foldr Z.max 0 (map (λ p, u_seq p.2) (filter (λ p : string * Unit, u_class p.2 = class ∧ u_grouping p.2 = grouping) (map_to_list (c_units s)))).
Definition openUnit (id class grouping : string) : ctx string :=
  s <~ tget;
  match List.find (λ p, isOpen class grouping p.2) (map_to_list (c_units s)) with
  | Some (id, _) => tret id
  | None =>
      ensure (bool_decide (c_units s !! id = None)) Exists ;~
      putUnit id (MkUnit class grouping (nextSeq class grouping s) Open "" 0 firstGeneration None firstVersion Online None None None None None None None None) ;~
      tret id
  end.

(** [slices.Compact] of a sorted list. *)
Fixpoint compact (l : list string) : list string :=
  match l with
  | [] => []
  | a :: l' => match l' with [] => [a] | b :: _ => if decide (a = b) then compact l' else a :: compact l' end
  end.
Definition WhyEventsPending : string := "events_pending".
(** [Catalog.blockers]: [answers] is what each of the module's blockers answers. *)
Definition blockers (roots : list string) (answers : list (gmap string (list string))) (s : Cat) : gmap string (list string) :=
  let pending := list_to_map (map (λ r, (r, [WhyEventsPending])) (filter (λ r, r ∈ c_outbox s) roots)) in
  (λ l, compact (sortStrings l)) <$> foldl (union_with (λ a b, Some (a ++ b))) pending answers.

(** The rows of the class's tables under some roots. *)
Definition rowsUnder (cl : Class_) (roots : list string) (s : Cat) : tables :=
  list_to_map (map (λ t, (t_Name t, map r_row (filter (λ r, r_root r ∈ roots) (onlineRows s (t_Name t))))) (Tables cl)).
Definition maxOf (f : Rec → Z) (cl : Class_) (roots : list string) (s : Cat) : option Z :=
  match map f (filter (λ r, r_root r ∈ roots) (onlineRows s (t_Name (cl_Root cl)))) with [] => None | a :: l => Some (foldr Z.max a l) end.

Record SealResult := MkSealResult { sr_Unit : string; sr_Members : Z; sr_Digest : string; sr_Blocked : gmap string (list string) }.
(** [Seal]; [answers] is [None] when a blocker fails. *)
Definition Seal (now : Z) (id class g : string) (answers : option (list (gmap string (list string)))) : ctx SealResult :=
  '(cl, days) <~ ofOption NoClass (class_ class);
  ensure (negb (bool_decide (days = Never))) StaysOnline ;~
  unit <~ openUnit id class g;
  s <~ tget;
  let roots := sealRoots now class cl days g s in
  if decide (roots = []) then tret (MkSealResult unit 0 "" ∅)
  else
    answers <~ ofOption BlockerFailed answers;
    let blocked := blockers roots answers s in
    u <~ unitRow unit;
    if decide (blocked = ∅) then
      tmod (setMembers (λ m, list_to_map (map (λ r, ((class, r), unit)) roots) ∪ m)) ;~
      digest <~ ofOption EncodeFailed (digest cl (rowsUnder cl roots s));
      let n := Z.of_nat (List.length roots) in
      putUnit unit (setSealed n digest (maxOf r_anchor cl roots s) (maxOf r_created cl roots s) u) ;~
      tret (MkSealResult unit n digest ∅)
    else
      putUnit unit (setBlocked blocked ((λ a, a + days * Day) <$> maxOf r_anchor cl roots s) u) ;~
      tret (MkSealResult unit 0 "" blocked).

(** ** Claims and publishing *)

Record Claim := MkClaim {
  cm_Unit : string; cm_Class : string; cm_Epoch : string; cm_Generation : Z; cm_Digest : string; cm_Was : string; cm_State : UState;
  cm_Base : Z; cm_Version : Z }.
Definition withDigest (d : string) (c : Claim) : Claim :=
  MkClaim (cm_Unit c) (cm_Class c) (cm_Epoch c) (cm_Generation c) d (cm_Was c) (cm_State c) (cm_Base c) (cm_Version c).

(** [claim]. *)
Definition claim (unit : string) (states : list UState) : ctx Claim :=
  u <~ unitRow unit;
  ensure (bool_decide (u_state u ∈ states)) Stale ;~
  s <~ tget;
  let u' := setClaimed (c_epoch s) u in
  putUnit unit u' ;~
  tret (MkClaim unit (u_class u) (c_epoch s) (u_generation u') (u_digest u) (u_digest u) (u_state u) (u_manifest_version u) (u_manifest_version u + 1)).

(** The conditions of [publish]. *)
Definition current (s : Cat) (u : Unit) (c : Claim) (m : Manifest) : bool :=
  bool_decide (u_state u = cm_State c) && bool_decide (u_manifest_version u = cm_Base c) && bool_decide (u_generation u = cm_Generation c) &&
  bool_decide (u_claim_epoch u = Some (cm_Epoch c)) && bool_decide (cm_Epoch c = c_epoch s) && bool_decide (u_digest u = cm_Was c) &&
  bool_decide (m_Digest m = cm_Digest c).
(** [publish] without the work a caller adds. *)
Definition publish (now : Z) (c : Claim) (m : Manifest) : ctx () :=
  u <~ unitRow (cm_Unit c);
  s <~ tget;
  ensure (current s u c m) Stale ;~
  tmod (setManifests (insert (cm_Unit c, m_Version m) (MkManifestRow (m_Route m) (cm_Generation c) m now None))) ;~
  tmod bumpVersion ;~
  s <~ tget;
  putUnit (cm_Unit c) (if decide (u_state u = Sealed) then setPublished now (m_Route m) (m_Version m) (c_version s) u
                       else setRewritten (m_Route m) (m_Version m) (m_Digest m) (c_version s) u).

(** ** Releasing the online rows *)

Definition zeroClass : Class_ :=
  MkClass "" (UnknownCategory "") (MkTable "" "" [] ∅) [] [] "" "" "" 0 (MkRetention 0 0 "" false) [] [] [] "" "" "".
(** [c.Classes[name]]: the zero class when there is none. *)
Definition classOf (name : string) : Class_ := default zeroClass (dp_Classes !! name).

(** The leases taken before a route version that still run. *)
Definition oldLeases (now routeVersion : Z) (s : Cat) : Z :=
  Z.of_nat (size (filter (λ p : string * (Z * Z), p.2.1 < routeVersion ∧ now < p.2.2) (c_leases s))).

(** [releaseReasons]; [backup] is when the latest backup finished. *)
Definition releaseReasons (now : Z) (class : string) (publishedAt newestCreated routeVersion : Z) (backup : option Z) (s : Cat) : list string :=
  let cl := classOf class in
  let backed := match backup with Some f => bool_decide (publishedAt < f) | None => false end in
  dc_Reasons (Plan now dp_N dp_Grace (MkPlanClass (cl_Category cl) (cl_ResidenceDays cl) false false)
    (MkPlanUnit Published 0 [] false publishedAt newestCreated (oldLeases now routeVersion s) backed false false 0)).
(** [Release]: its deciding transaction. *)
Definition releaseDecide (now : Z) (unit : string) (backup : option Z) : ctx (string * list string) :=
  u <~ unitRow unit;
  publishedAt <~ ofOption ScanNull (u_published_at u);
  newestCreated <~ ofOption ScanNull (u_newest_created u);
  ensure (bool_decide (u_state u = Published)) Stale ;~
  s <~ tget;
  tret (u_class u, releaseReasons now (u_class u) publishedAt newestCreated (default 0 (u_route_version u)) backup s).

(** The roots of a unit's members. *)
Definition rootsIn (unit : string) (s : Cat) : list string :=
  map (λ p, p.1.2) (filter (λ p : string * string * string, p.2 = unit) (map_to_list (c_members s))).
Definition ReleaseBatch : Z := 10000.
Definition releaseBatch : Z := if decide (dp_Batch ≤ 0) then ReleaseBatch else dp_Batch.

(** Up to [n] of the rows under [roots] go: what is left, and how many went. *)
Fixpoint dropUnder (roots : list string) (n : nat) (rows : list Rec) : list Rec * nat :=
  match rows with
  | [] => ([], O)
  | r :: rows =>
      match n with
      | O => (r :: rows, O)
      | S n' =>
          if decide (r_root r ∈ roots) then let '(l, k) := dropUnder roots n' rows in (l, S k)
          else let '(l, k) := dropUnder roots n rows in (r :: l, k)
      end
  end.
Definition deleteFrom (unit table : string) : ctx nat :=
  s <~ tget;
  let '(rest, gone) := dropUnder (rootsIn unit s) (Z.to_nat releaseBatch) (onlineRows s table) in
  tmod (setOnline (insert table rest)) ;~
  tret gone.
Fixpoint deleteFirst (unit : string) (tables : list string) : ctx bool :=
  match tables with
  | [] => tret true
  | t :: tables => n <~ deleteFrom unit t; if decide (n = O) then deleteFirst unit tables else tret false
  end.
(** [deleteOnline]: one turn of its loop; whether it was the last. *)
Definition deleteTurn (unit : string) (cl : Class_) (last : ctx ()) : ctx bool :=
  finished <~ deleteFirst unit (map ch_Name (byDepth cl true) ++ [t_Name (cl_Root cl)]);
  if finished : bool then last ;~ tret true else tret false.
(** [Release]: what the last turn adds. *)
Definition releaseLast (unit : string) : ctx () :=
  u <~ unitRow unit;
  (if decide (u_state u = Published) then putUnit unit (setState Released u) else tret ()) ;~
  tmod bumpVersion.

(** ** Holds, approvals, destruction *)

(** SQL's LIKE. *)
Fixpoint like (p s : string) : bool :=
  match p with
  | EmptyString => bool_decide (s = "")
  | String "%" p => (fix any (s : string) : bool := like p s || match s with EmptyString => false | String _ s => any s end) s
  | String "_" p => match s with EmptyString => false | String _ s => like p s end
  | String "\" (String c p) => match s with EmptyString => false | String a s => bool_decide (a = c) && like p s end
  | String c p => match s with EmptyString => false | String a s => bool_decide (a = c) && like p s end
  end.

(** [holdsOn] and [approvedFor]. *)
Definition holdCovers (unit class : string) (s : Cat) (h : HoldRow) : Prop :=
  h_released_at h = None ∧
  match sc_Kind (h_scope h) with
  | ScopeUnit => sc_Value (h_scope h) = unit
  | ScopeClass => sc_Value (h_scope h) = class
  | ScopeRecord => sc_Value (h_scope h) ∈ map (λ r, (class ++ "/" ++ r)%string) (rootsIn unit s)
  | ScopeOther _ => False
  end.
#[global] Instance holdCovers_dec unit class s h : Decision (holdCovers unit class s h).
Proof. unfold holdCovers. destruct (sc_Kind (h_scope h)); apply _. Defined.
Definition holdsOn (unit class : string) (s : Cat) : Z := Z.of_nat (size (filter (λ p : string * HoldRow, holdCovers unit class s p.2) (c_holds s))).
Definition approvalCovers (unit class : string) (a : ApprovalRow) : Prop :=
  a_withdrawn_at a = None ∧
  match sc_Kind (a_scope a) with ScopeUnit => sc_Value (a_scope a) = unit | ScopeClass => sc_Value (a_scope a) = class | _ => False end.
#[global] Instance approvalCovers_dec unit class a : Decision (approvalCovers unit class a).
Proof. unfold approvalCovers. destruct (sc_Kind (a_scope a)); apply _. Defined.
Definition approvedFor (unit class : string) (s : Cat) : bool :=
  bool_decide (filter (λ p : string * ApprovalRow, approvalCovers unit class p.2) (c_approvals s) ≠ ∅).

(** [scopeOf]. *)
Definition scopeOf (class : string) (sc : Scope) (record : bool) : ctx () :=
  s <~ tget;
  match sc_Kind sc with
  | ScopeClass => ensure (bool_decide (sc_Value sc = class)) RequestInvalid
  | ScopeUnit => ensure (bool_decide (u_class <$> c_units s !! sc_Value sc = Some class)) NotFoundErr
  | ScopeRecord =>
      ensure (record && HasPrefix (sc_Value sc) (class ++ "/") && negb (bool_decide (sc_Value sc = (class ++ "/")%string))) RequestInvalid
  | ScopeOther _ => tfail RequestInvalid
  end.
Definition HoldSources : list string := ["legal"; "audit"; "dispute"].
(** [Hold], [LiftHold], [Approve], [Withdraw]; [who] is the principal the class's operation
    is allowed to, none when it is refused. *)
Definition Hold (id class : string) (who : option string) (sc : Scope) (source reason : string) : ctx () :=
  ofOption NotFoundErr (dp_Classes !! class) ;~
  who <~ ofOption Denied who;
  ensure (bool_decide (source ∈ HoldSources) && negb (bool_decide (reason = ""))) RequestInvalid ;~
  scopeOf class sc true ;~
  tmod (setHolds (insert id (MkHold sc source reason who None))).
Definition liftable (class : string) (s : Cat) (h : HoldRow) : bool :=
  let sc := h_scope h in
  bool_decide (h_released_at h = None) &&
  (bool_decide (sc_Value sc = class) ||
   (bool_decide (sc_Kind sc = ScopeUnit) && bool_decide (u_class <$> c_units s !! sc_Value sc = Some class)) ||
   (bool_decide (sc_Kind sc = ScopeRecord) && like (class ++ "/%") (sc_Value sc))).
Definition LiftHold (now : Z) (class id : string) (who : option string) : ctx () :=
  ofOption NotFoundErr (dp_Classes !! class) ;~
  who <~ ofOption Denied who;
  s <~ tget;
  h <~ ofOption NotFoundErr (c_holds s !! id);
  ensure (liftable class s h) NotFoundErr ;~
  tmod (setHolds (insert id (MkHold (h_scope h) (h_source h) (h_reason h) (h_by h) (Some now)))).
Definition Approve (id class : string) (who : option string) (sc : Scope) (reason : string) : ctx () :=
  ofOption NotFoundErr (dp_Classes !! class) ;~
  who <~ ofOption Denied who;
  ensure (negb (bool_decide (reason = ""))) RequestInvalid ;~
  scopeOf class sc false ;~
  tmod (setApprovals (insert id (MkApproval sc reason who None))).
Definition Withdraw (now : Z) (class id : string) (who : option string) : ctx () :=
  ofOption NotFoundErr (dp_Classes !! class) ;~
  who <~ ofOption Denied who;
  s <~ tget;
  a <~ ofOption NotFoundErr (c_approvals s !! id);
  let sc := a_scope a in
  ensure (bool_decide (a_withdrawn_at a = None) &&
    (bool_decide (sc_Value sc = class) ||
     (bool_decide (sc_Kind sc = ScopeUnit) && bool_decide (u_class <$> c_units s !! sc_Value sc = Some class)))) NotFoundErr ;~
  tmod (setApprovals (insert id (MkApproval sc (a_reason a) (a_by a) (Some now)))).

Definition WhyNotDue : string := "retention_not_due".
Definition due (now : Z) (cl : Class_) (u : Unit) : bool :=
  match u_anchor_max u with Some a => bool_decide (a + int64 (rt_MinDays (cl_Retention cl) * Day) ≤ now) | None => false end.
(** [destroyReasons]. *)
Definition destroyReasons (now : Z) (unit : string) (u : Unit) (s : Cat) : list string :=
  let cl := classOf (u_class u) in
  if negb (rt_Pending (cl_Retention cl)) && negb (due now cl u) then [WhyNotDue]
  else
    let d := Plan now dp_N dp_Grace
      (MkPlanClass (cl_Category cl) (cl_ResidenceDays cl) (rt_Pending (cl_Retention cl)) (negb (bool_decide (cl_Erasable cl = []))))
      (MkPlanUnit (u_state u) 0 [] false 0 0 0 false true (approvedFor unit (u_class u) s) (holdsOn unit (u_class u) s)) in
    if decide (dc_Action d = ActDestroy) then []
    else match dc_Reasons d with [] => [WhyNotDue] | why => why end.
(** [markDestroyed]. *)
Definition markDestroyed (now : Z) (unit basis : string) (u : Unit) : ctx () :=
  putUnit unit (setDestroyed now basis u) ;~ tmod bumpVersion.
(** [Destroy]: its first transaction; [None]: destroyed already. *)
Definition destroyReady (now : Z) (unit : string) : ctx (Unit * list string) :=
  u <~ unitRow unit;
  if decide (u_state u = Destroyed ∨ u_state u = Open) then tret (u, [])
  else s <~ tget; tret (u, destroyReasons now unit u s).
(** [Destroy]: the deciding transaction, and the basis the intent was written with. *)
Definition destroyDecide (now : Z) (unit basis : string) : ctx (list string) :=
  u <~ unitRow unit;
  if decide (u_state u = Destroyed ∨ u_state u = Open) then tret [WhyNotDue]
  else
    s <~ tget;
    match destroyReasons now unit u s with
    | [] => markDestroyed now unit basis u ;~ tret []
    | why => tret why
    end.
(** [Replays]: a recorded destruction that a full recovery executes again, without the
    business preconditions. *)
Definition replayDestruction (now : Z) (unit basis : string) : ctx () :=
  s <~ tget;
  u <~ ofOption Dangling (c_units s !! unit);
  if decide (u_state u = Destroyed) then tret () else markDestroyed now unit basis u.
(** [purge]: the warm rows and the thawed copy. *)
Definition purgeRows (unit : string) : ctx () :=
  tmod (setThaws (delete unit)) ;~
  tmod (setWarm (filter (λ p : string * Z * string * list (string * crow), p.1.1.1 ≠ unit))).

(** ** Leases *)

Definition LeaseTTL : Z := 15 * Minute.
(** [Snapshot], [Renew], [End]. *)
Definition Snapshot (now : Z) (id : string) : ctx Z :=
  s <~ tget;
  tmod (setLeases (insert id (c_version s, now + LeaseTTL))) ;~
  tret (c_version s).
Definition Renew (now : Z) (id : string) : ctx () :=
  s <~ tget;
  match c_leases s !! id with
  | Some (v, e) => if decide (now < e) then tmod (setLeases (insert id (v, now + LeaseTTL))) else tfail PlanChanged
  | None => tfail PlanChanged
  end.
Definition End_ (id : string) : ctx () := tmod (setLeases (delete id)).
(** [OnlineExclusion]: the roots an online query leaves out, and [ColdUnits]. *)
Definition excluded (version : Z) (class root : string) (s : Cat) : bool :=
  match c_members s !! (class, root) with
  | None => false
  | Some unit =>
      match c_units s !! unit with
      | None => false
      | Some u => (negb (bool_decide (u_route u = Online)) && match u_route_version u with Some v => bool_decide (v ≤ version) | None => false end)
                  || bool_decide (u_state u = Destroyed)
      end
  end.
Definition cold (version : Z) (class : string) (u : Unit) : Prop :=
  u_class u = class ∧ u_route u ≠ Online ∧ (∃ v, u_route_version u = Some v ∧ v ≤ version) ∧ (u_state u = Published ∨ u_state u = Released).
#[global] Instance cold_dec version class u : Decision (cold version class u).
Proof.
  unfold cold. assert (Decision (∃ v, u_route_version u = Some v ∧ v ≤ version)); [|apply _].
  destruct (u_route_version u) as [v|]; [destruct (decide (v ≤ version)); [left; eauto|right; intros (? & [= ->] & ?); done]|right; by intros (? & ? & _)].
Defined.
Definition ColdUnits (version : Z) (class : string) (s : Cat) : list string :=
  sortStrings (map fst (filter (λ p : string * Unit, cold version class p.2) (map_to_list (c_units s)))).

(** ** The copies' rows *)

(** [copyRows]. *)
Definition copyRows (c : Claim) (t : Table) (rows : list crow) : ctx () :=
  keyed <~ ofOption EncodeFailed (allOk (λ r, '(k, _) ← keyedOf t r; Some (k, r)) rows);
  tmod (setWarm (insert (cm_Unit c, cm_Version c, t_Name t) keyed)).

(** [readUnit] of transfer.go: the unit's tables under the roots of its members. *)
Definition readOnline (cl : Class_) (unit : string) (s : Cat) : tables :=
  rowsUnder cl (map (λ p, p.1.2) (filter (λ p : string * string * string, p.1.1 = cl_Name cl ∧ p.2 = unit) (map_to_list (c_members s)))) s.

Definition OrphanWindow : Z := 7 * Day.
(** The window of [CleanupJob]. *)
Definition orphanWindow : Z := if decide (dp_OrphanAge = 0) then OrphanWindow else dp_OrphanAge.
(** [cleanOrphans]: the manifests it reads first, and the warm rows it deletes last. *)
Definition namedIn (class unit : string) (s : Cat) : list (string * Z * Z) :=
  map (λ p, (p.1.1, mr_generation p.2, p.1.2))
    (filter (λ p : string * Z * ManifestRow, (unit = "" ∨ p.1.1 = unit) ∧ u_class <$> c_units s !! p.1.1 = Some class) (map_to_list (c_manifests s))).
Definition orphanRows (class unit : string) (s : Cat) (p : string * Z * string * list (string * crow)) : Prop :=
  let '(u, v, _) := p.1 in
  (unit = "" ∨ u = unit) ∧ 0 ≤ v ∧ c_manifests s !! (u, v) = None ∧
  match c_units s !! u with Some x => u_class x = class ∧ v ≠ u_manifest_version x + 1 | None => False end.
#[global] Instance orphanRows_dec class unit s p : Decision (orphanRows class unit s p).
Proof. unfold orphanRows. destruct p as [[[u v] t] l]. cbn. destruct (c_units s !! u); apply _. Defined.
Definition thawOver (now : Z) (class unit : string) (s : Cat) (u : string) : Prop :=
  (unit = "" ∨ u = unit) ∧ u_class <$> c_units s !! u = Some class ∧ match c_thaws s !! u with Some e => e ≤ now | None => False end.
#[global] Instance thawOver_dec now class unit s u : Decision (thawOver now class unit s u).
Proof. unfold thawOver. destruct (c_thaws s !! u); apply _. Defined.
Definition deleteOrphans (now : Z) (class unit : string) : ctx () :=
  s <~ tget;
  tmod (setWarm (filter (λ p : string * Z * string * list (string * crow), ¬ orphanRows class unit s p ∧ ¬ (p.1.1.2 = -1 ∧ thawOver now class unit s p.1.1.1)))) ;~
  tmod (setThaws (filter (λ p : string * Z, ¬ thawOver now class unit s p.1))).

(** [ReleaseOld]: the versions a newer one replaced and why their data stays, and the
    transaction that deletes one. *)
Definition oldsOf (unit : string) (cur : Z) (s : Cat) : list (Z * Route * Z) :=
  map (λ p, (p.1.2, mr_route p.2, mr_generation p.2))
    (filter (λ p : string * Z * ManifestRow, p.1.1 = unit ∧ p.1.2 < cur ∧ mr_superseded_at p.2 = None) (map_to_list (c_manifests s))).
Definition oldsDecide (now : Z) (unit : string) (backup : option Z) : ctx (string * list (Z * Route * Z) * list string) :=
  u <~ unitRow unit;
  ensure (bool_decide (u_state u = Published ∨ u_state u = Released)) NoRow ;~
  s <~ tget;
  m <~ ofOption NoRow (c_manifests s !! (unit, u_manifest_version u));
  let why := when (bool_decide (now < mr_created_at m + dp_Grace)) WhyGrace
             ++ when (bool_decide (0 < oldLeases now (default 0 (u_route_version u)) s)) WhyLease
             ++ when (match backup with Some f => bool_decide (f ≤ mr_created_at m) | None => true end) WhyNoBackup in
  tret (u_class u, oldsOf unit (u_manifest_version u) s, why).
Definition deleteOld (now : Z) (unit : string) (v : Z) : ctx () :=
  tmod (setWarm (filter (λ p : string * Z * string * list (string * crow), ¬ (p.1.1.1 = unit ∧ p.1.1.2 = v)))) ;~
  tmod (setManifests (alter (λ m, MkManifestRow (mr_route m) (mr_generation m) (mr_manifest m) (mr_created_at m) (Some now)) (unit, v))).

(** ** Erasing *)

(** [nullOnline]; the exports it voids are not modelled. *)
Definition eraseRow (cols : list string) (r : crow) : crow := filter (λ p : string * cval, p.1 ∉ cols) r.
Definition eraseIn (cl : Class_) (root : string) (online : gmap string (list Rec)) (t : Table) : gmap string (list Rec) :=
  let cols := filter (λ col, has (t_Columns t) col) (cl_Erasable cl) in
  alter (map (λ r, if decide (r_root r = root)
                   then MkRec (r_root r) (eraseRow cols (r_row r)) (r_terminal r) (r_anchor r) (r_created r) (r_group r) else r)) (t_Name t) online.
Definition nullOnline (cl : Class_) (root : string) : ctx () := tmod (setOnline (λ o, foldl (eraseIn cl root) o (Tables cl))).
(** [eraseSealed], [held] the holds its conclusion counts ([redo]: it concludes nothing). *)
Definition concludeErasure (redo : bool) (unit class : string) : ctx () :=
  if redo then tret () else s <~ tget; ensure (bool_decide (holdsOn unit class s = 0)) HeldErr.
Definition eraseSealed (redo : bool) (cl : Class_) (unit root : string) : ctx () :=
  nullOnline cl root ;~
  s <~ tget;
  d <~ ofOption EncodeFailed (digest cl (rowsUnder cl (rootsIn unit s) s));
  match c_units s !! unit with
  | Some u => if decide (u_state u = Sealed) then putUnit unit (setDigest d u) else tfail Stale
  | None => tfail Stale
  end ;~
  concludeErasure redo unit (cl_Name cl).
(** [replayErasure]: a recorded erasure that a full recovery executes again; the erase job
    it leaves for a published or released unit, by class, record and basis. *)
Definition replayErasure (enqueue : bool) (class root basis : string) : ctx (option (string * string * string)) :=
  cl <~ ofOption Dangling (dp_Classes !! class);
  ensure (negb (bool_decide (root = ""))) Dangling ;~
  s <~ tget;
  match unit ← c_members s !! (class, root); u ← c_units s !! unit; Some (unit, u) with
  | None => nullOnline cl root ;~ tret None
  | Some (unit, u) =>
      match u_state u with
      | Open => nullOnline cl root ;~ tret None
      | Destroyed => tret None
      | Sealed => eraseSealed true cl unit root ;~ tret None
      | Published | Released => if enqueue : bool then tret (Some (class, root, basis)) else tfail NeedsEraseJob
      end
  end.
(** [eraseAgain]: what it adds to the publish. *)
Definition eraseAlso (redo : bool) (cl : Class_) (unit root : string) (c : Claim) : ctx () :=
  tmod (setWarm (filter (λ p : string * Z * string * list (string * crow), ¬ (p.1.1.1 = unit ∧ p.1.1.2 = -1)))) ;~
  tmod (setThaws (delete unit)) ;~
  (if decide (cm_State c = Published) then nullOnline cl root else tret ()) ;~
  concludeErasure redo unit (cl_Name cl).
(** [eraseAgain]: the edit of an aggregate. *)
Definition eraseAggregate (cl : Class_) (root : string) (a : Aggregate) : Aggregate :=
  if decide (match ag_Root a !! t_PK (cl_Root cl) with Some v => Sprint v | None => "<nil>" end = root)
  then MkAggregate (eraseRow (cl_Erasable cl) (ag_Root a)) (map (eraseRow (cl_Erasable cl)) <$> ag_Children a) else a.

(** ** The write barrier *)

(** What a component's transaction does to a row of a table, the rows by their places. *)
Inductive rowOp := InsertRow (t : string) (r : Rec) | UpdateRow (t : string) (i : nat) (r : Rec) | DeleteRow (t : string) (i : nat).
(** be_tier_barrier for a row of a class. *)
Definition barred (class : string) (s : Cat) (r : Rec) : bool :=
  match c_members s !! (class, r_root r) with
  | None => false
  | Some unit => match c_units s !! unit with Some u => negb (bool_decide (u_state u = Open)) | None => false end
  end.
(** The classes with a trigger on a table. *)
Definition triggers (t : string) : list string :=
  map fst (filter (λ p : string * Class_, Tierable p.2 = true ∧ t ∈ map t_Name (Tables p.2)) (map_to_list dp_Classes)).
Definition barrier (t : string) (rows : list Rec) : ctx () :=
  s <~ tget;
  ensure (negb (existsb (λ class, existsb (barred class s) rows) (triggers t))) RecordSealed.
Definition writeRow (op : rowOp) : ctx () :=
  s <~ tget;
  match op with
  | InsertRow t r => barrier t [r] ;~ tmod (setOnline (insert t (onlineRows s t ++ [r])))
  | UpdateRow t i r =>
      match onlineRows s t !! i with
      | Some old => barrier t [old; r] ;~ tmod (setOnline (insert t (<[i := r]> (onlineRows s t))))
      | None => tret ()
      end
  | DeleteRow t i =>
      match onlineRows s t !! i with
      | Some old => barrier t [old] ;~ tmod (setOnline (insert t (delete i (onlineRows s t))))
      | None => tret ()
      end
  end.
(** A component's transaction. *)
Fixpoint Write (ops : list rowOp) : ctx () := match ops with [] => tret () | op :: ops => writeRow op ;~ Write ops end.

End catalog.
