(* ===== verification/TierSys.v ===== *)
(** * Tiering: workers over the catalog and the cold store

    The parts of the tiering that take several transactions, as processes that share the
    catalog and the object store, each transaction and each call of the store one step:
    the transfer (tiering/transfer.go [Transfer], [Copy], [Verify]), the reading of a unit
    from its route (tiering/reads.go [routeOf], [readUnitRoute], [Thaw]), writing a unit
    again (tiering/reroute.go [rewrite], [ReleaseOld]; tiering/erase.go), the release
    (tiering/release.go), destruction and purge (tiering/destroy.go) and the orphans'
    cleanup.  A process that runs into an error ends there; its job starts it again. *)
From S2P Require Import Prelude GoStr Canon CanonProps TierPlan TierRows TierRead TierStore.
From Stdlib Require Import Ascii String.
Open Scope string_scope.
Open Scope Z_scope.
Open Scope list_scope.
Open Scope tx_scope.

(** The cold store: each object's bytes and when it was written. *)
Notation objects := (gmap okey (string * Z)).

(** A unit's route as [routeOf] reads it; [ur_thaw]: its thawed copy is alive. *)
Record unitRoute := MkUnitRoute { ur_id : string; ur_class : string; ur_state : UState; ur_route : Route; ur_version : Z; ur_thaw : bool }.

(** What the publish of a claim adds: an erasure's part. *)
Notation erasure := (option (bool * string)).

(** What a reading of a unit's route is for. *)
Inductive goal :=
| Rewrite (c : Claim) (route : option Route) (e : erasure)
| Thawing (ttl : Z)
| Reading (root : string).

Inductive copyItem := CopyTable (t : Table) (rows : list crow) | CopyPart (t : Table) (total : Z) (part : nat) (rows : list crow).
Inductive verifyItem := GetObject (t : Table) (o : ManifestObject) | QueryRows (t : Table) | EndTable (t : Table) (rows : Z).

(** Why online rows are deleted. *)
Inductive deletion := Releasing | Purging | Continuing.
#[export] Instance deletion_eq_dec : EqDecision deletion.
Proof. solve_decision. Defined.

Inductive proc :=
| TransferRead (c : Claim)
| RouteOf (unit : string) (g : goal)
| ReadManifest (u : unitRoute) (g : goal)
| ReadWarm (u : unitRoute) (version : Z) (g : goal)
| ReadObjects (u : unitRoute) (todo : list (Table * ManifestObject)) (acc : tables) (g : goal)
| Copying (c : Claim) (m : Manifest) (todo : list copyItem) (e : erasure)
| PutManifest (c : Claim) (m : Manifest) (e : erasure)
| Verifying (c : Claim) (m : Manifest) (todo : list verifyItem) (acc : list (string * crow)) (reads : list (Table * list (string * crow))) (e : erasure)
| Publishing (c : Claim) (m : Manifest) (e : erasure)
| PutThaw (unit class : string) (ttl : Z) (aggs : list Aggregate)
| DeletingOnline (unit class : string) (d : deletion)
| PurgeRows (unit class : string)
| PurgeList (unit class : string)
| DeletingObjects (todo : list okey)
| DestroyDecide (unit : string) (class basis : string)
| EraseStep (redo : bool) (class unit root : string) (fromSealed : bool)
| DeletingOld (unit class : string) (olds : list (Z * Route * Z)) (keys : option (list okey))
| CleanList (class unit : string) (window : Z) (named : list (string * Z * Z))
| CleanObjects (class unit : string) (window : Z) (named : list (string * Z * Z)) (todo : list (okey * Z))
| Ended (r : res tierErr (list Aggregate)).

Section steps.
Context `{Hashes, Deploy}.

(** ** Reading a unit's route *)

(** [routeOf]. *)
Definition routeOf (now : Z) (unit : string) : tx Cat tierErr unitRoute :=
  u <~ unitRow unit;
  s <~ tget;
  tret (MkUnitRoute unit (u_class u) (u_state u) (u_route u) (u_manifest_version u)
          (match c_thaws s !! unit with Some e => bool_decide (now < e) | None => false end)).

Definition thawVersion : Z := -1.
(** The rows of a version in the warm route, by table. *)
Definition warmRows (unit : string) (version : Z) (s : Cat) : tables :=
  list_to_map (map (λ p, (p.1.2, map snd p.2))
    (filter (λ p : string * Z * string * list (string * crow), p.1.1 = (unit, version) ∧ p.2 ≠ []) (map_to_list (c_warm s)))).

(** The table of a class by its name ([tableOf]). *)
Definition tableOf (cl : Class_) (name : string) : option Table := List.find (λ t, bool_decide (t_Name t = name)) (Tables cl).

(** The objects a manifest names, each with its table. *)
Definition objectsOf (cl : Class_) (m : Manifest) : option (list (Table * ManifestObject)) :=
  l ← allOk (λ mt, t ← tableOf cl (mt_Name mt); Some (map (pair t) (mt_Objects mt))) (m_Tables m); Some (List.concat l).

(** [copyTables]: the manifest it starts with, and what it writes. *)
Definition startManifest (c : Claim) (cl : Class_) (route : Route) : Manifest :=
  MkManifest (cm_Unit c) (cm_Class c) (cm_Version c) route (cm_Generation c) (cm_Epoch c) (cl_SchemaVersion cl) (cm_Digest c) [].
Definition PartRows : Z := 200000.
Definition partRows : nat := Z.to_nat (if decide (dp_Parts ≤ 0) then PartRows else dp_Parts).
(** The parts of a table: one at least; [fuel] bounds them. *)
Fixpoint partsOf (fuel : nat) (t : Table) (total : Z) (part : nat) (rows : list crow) : list copyItem :=
  match fuel with
  | O => []
  | S fuel =>
      CopyPart t total part (take partRows rows) ::
      match drop partRows rows with [] => [] | rest => partsOf fuel t total (S part) rest end
  end.
Definition copyItems (cl : Class_) (route : Route) (m : tables) : list copyItem :=
  Tables cl ≫= λ t,
    let rows := rowsIn m (t_Name t) in
    match route with
    | ObjectParquet => partsOf (S (List.length rows)) t (Z.of_nat (List.length rows)) 0 rows
    | _ => [CopyTable t rows]
    end.
(** [Copy] and [copyTables]: what comes after the rows are read. *)
Definition startCopy (c : Claim) (route : Route) (m : tables) (e : erasure) : proc :=
  let cl := classOf (cm_Class c) in
  match route with
  | ObjectParquet => if dp_Store then Copying c (startManifest c cl route) (copyItems cl route m) e else Ended (Err NoStore)
  | Postgres => Copying c (startManifest c cl route) (copyItems cl route m) e
  | _ => Ended (Err BadRouteErr)
  end.

Definition editOf (cl : Class_) (e : erasure) (a : Aggregate) : Aggregate :=
  match e with Some (_, root) => eraseAggregate cl root a | None => a end.
(** What the reader does with the unit's tables: [assemble] them, then its goal; a [Get]
    answers the one aggregate, and never that there is none. *)
Definition withTables (u : unitRoute) (m : tables) (g : goal) : proc :=
  let cl := classOf (ur_class u) in
  match g with
  | Reading root =>
      match assemble cl m root with
      | Some aggs => if decide (root = "") then Ended (Ok aggs) else match aggs with a :: _ => Ended (Ok [a]) | [] => Ended (Err Unavailable) end
      | None => Ended (Err EncodeFailed)
      end
  | Thawing ttl => match assemble cl m "" with Some aggs => PutThaw (ur_id u) (ur_class u) ttl aggs | None => Ended (Err EncodeFailed) end
  | Rewrite c route e =>
      match assemble cl m "" with
      | None => Ended (Err EncodeFailed)
      | Some aggs =>
          let m' := flatten cl (map (editOf cl e) aggs) in
          match digest cl m' with
          | None => Ended (Err EncodeFailed)
          | Some d => startCopy (withDigest d c) (default (ur_route u) route) m' e
          end
      end
  end.

(** ** Verifying a copy *)

Definition verifyItems (cl : Class_) (m : Manifest) : option (list verifyItem) :=
  l ← allOk (λ mt, t ← tableOf cl (mt_Name mt);
               Some (match m_Route m with
                     | ObjectParquet => map (GetObject t) (mt_Objects mt)
                     | Postgres => [QueryRows t]
                     | _ => []
                     end ++ [EndTable t (mt_Rows mt)])) (m_Tables m);
  Some (List.concat l).
Definition readSum (p : Table * list (string * crow)) : option TableSum :=
  l ← allOk (λ '(k, r), b ← Row r; Some (k, b)) p.2; Some (sumOf (t_Name p.1, l)).
(** The end of [Verify]: parents, the columns reads need, the digest. *)
Definition verified (cl : Class_) (m : Manifest) (reads : list (Table * list (string * crow))) : bool :=
  let rs := map (λ p, (p.1, map snd p.2)) reads in
  forallb (λ p, parented cl rs p.1 p.2) rs && located cl &&
  bool_decide ((sums ← allOk readSum reads; UnitDigest (cl_Name cl) (m_SchemaVersion m) sums) = Some (m_Digest m)).
Definition startVerify (c : Claim) (m : Manifest) (e : erasure) : proc :=
  match verifyItems (classOf (m_Class m)) m with Some items => Verifying c m items [] [] e | None => Ended (Err NotVerified) end.
(** The objects the manifest names are what they were written as: [store] answers. *)
Definition getRows (o : objects) (t : Table) (mo : ManifestObject) : res tierErr (list (string * crow)) :=
  match o !! mo_Key mo with
  | None => Err Missing
  | Some (data, _) =>
      if decide (Z.of_nat (String.length data) = mo_Bytes mo ∧ sha256 data = mo_SHA256 mo) then
        match rows ← ReadParquet t data; allOk (λ r, '(k, _) ← keyedOf t r; Some (k, r)) rows with Some l => Ok l | None => Err NotVerified end
      else Err NotVerified
  end.

(** [publish] with what the caller adds. *)
Definition publishAlso (now : Z) (c : Claim) (m : Manifest) (e : erasure) : tx Cat tierErr () :=
  publish now c m ;~
  match e with Some (redo, root) => eraseAlso redo (classOf (cm_Class c)) (cm_Unit c) root c | None => tret () end.

(** [Thaw]'s transaction. *)
Definition putThaw (now : Z) (unit class : string) (ttl : Z) (aggs : list Aggregate) : tx Cat tierErr () :=
  let cl := classOf class in
  let m := flatten cl aggs in
  rows <~ ofOption EncodeFailed (allOk (λ t, l ← allOk (λ r, '(k, _) ← keyedOf t r; Some (k, r)) (rowsIn m (t_Name t)); Some (t_Name t, l)) (Tables cl));
  tmod (setWarm (λ w, list_to_map (map (λ p, ((unit, thawVersion, p.1), p.2)) rows) ∪
                      filter (λ p : string * Z * string * list (string * crow), ¬ (p.1.1 = (unit, thawVersion))) w)) ;~
  tmod (setThaws (insert unit (now + ttl))).

(** ** The steps *)

Definition result : Type := Cat * objects * proc.
Definition runTx {A} (c : tx Cat tierErr A) (k : A → proc) (s : Cat) (o : objects) : result :=
  match c s with Ok (a, s') => (s', o, k a) | Err e => (s, o, Ended (Err e)) end.
Definition fails (e : tierErr) (s : Cat) (o : objects) : result := (s, o, Ended (Err e)).

Definition addTable (m : Manifest) (mt : ManifestTable) : Manifest :=
  MkManifest (m_Unit m) (m_Class m) (m_Version m) (m_Route m) (m_Generation m) (m_Epoch m) (m_SchemaVersion m) (m_Digest m) (m_Tables m ++ [mt]).
(** An object of the table being written: part 0 adds the table. *)
Fixpoint addLast (l : list ManifestTable) (mo : ManifestObject) : list ManifestTable :=
  match l with
  | [] => []
  | [mt] => [MkManifestTable (mt_Name mt) (mt_Rows mt) (mt_Objects mt ++ [mo])]
  | mt :: l => mt :: addLast l mo
  end.
Definition addObject (m : Manifest) (t : Table) (total : Z) (part : nat) (mo : ManifestObject) : Manifest :=
  match part with
  | O => addTable m (MkManifestTable (t_Name t) total [mo])
  | _ => MkManifest (m_Unit m) (m_Class m) (m_Version m) (m_Route m) (m_Generation m) (m_Epoch m) (m_SchemaVersion m) (m_Digest m)
           (addLast (m_Tables m) mo)
  end.

(** Under a claim's prefix. *)
Definition keyOf (c : Claim) (f : file) : okey := MkKey (cm_Class c) (cm_Unit c) (cm_Generation c) (cm_Version c) f.

Definition lastTurn (unit : string) (d : deletion) : tx Cat tierErr () := match d with Releasing => releaseLast unit | _ => tret () end.

(** The objects of a unit, of one of its versions, of a class. *)
Definition unitKeys (class unit : string) (o : objects) : list okey :=
  filter (λ k, k_class k = class ∧ k_unit k = unit) (map fst (map_to_list o)).
Definition versionKeys (class unit : string) (generation version : Z) (o : objects) : list okey :=
  filter (λ k, k_class k = class ∧ k_unit k = unit ∧ k_generation k = generation ∧ k_version k = version) (map fst (map_to_list o)).
Definition listed (class unit : string) (o : objects) : list (okey * Z) :=
  map (λ p, (p.1, p.2.2)) (filter (λ p : okey * (string * Z), k_class p.1 = class ∧ (unit = "" ∨ k_unit p.1 = unit)) (map_to_list o)).

Definition stepRead (now : Z) (s : Cat) (o : objects) (u : unitRoute) (g : goal) : result :=
  match c_manifests s !! (ur_id u, ur_version u) with
  | None => fails NoRow s o
  | Some mr =>
      if ur_thaw u then (s, o, ReadWarm u thawVersion g)
      else match ur_route u with
           | Postgres => (s, o, ReadWarm u (ur_version u) g)
           | ObjectParquet =>
               if dp_Store then match objectsOf (classOf (ur_class u)) (mr_manifest mr) with
                                | Some todo => (s, o, ReadObjects u todo ∅ g)
                                | None => fails Unavailable s o
                                end
               else fails Unavailable s o
           | _ => fails NoRouteToRead s o
           end
  end.
Definition stepVerify (s : Cat) (o : objects) (c : Claim) (m : Manifest) (todo : list verifyItem) (acc : list (string * crow))
    (reads : list (Table * list (string * crow))) (e : erasure) : result :=
  match todo with
  | [] => if verified (classOf (m_Class m)) m reads then (s, o, Publishing c m e) else fails NotVerified s o
  | GetObject t mo :: todo => match getRows o t mo with Ok l => (s, o, Verifying c m todo (acc ++ l) reads e) | Err x => fails x s o end
  | QueryRows t :: todo => (s, o, Verifying c m todo (acc ++ default [] (c_warm s !! (m_Unit m, m_Version m, t_Name t))) reads e)
  | EndTable t rows :: todo =>
      if decide (Z.of_nat (List.length acc) = rows) then (s, o, Verifying c m todo [] (reads ++ [(t, acc)]) e) else fails NotVerified s o
  end.
Definition stepCopy (now : Z) (s : Cat) (o : objects) (c : Claim) (m : Manifest) (todo : list copyItem) (e : erasure) : result :=
  match todo with
  | [] => (s, o, match m_Route m with ObjectParquet => PutManifest c m e | _ => startVerify c m e end)
  | CopyTable t rows :: todo =>
      runTx (copyRows c t rows) (λ _, Copying c (addTable m (MkManifestTable (t_Name t) (Z.of_nat (List.length rows)) [])) todo e) s o
  | CopyPart t total part rows :: todo =>
      match WriteParquet t rows with
      | None => fails EncodeFailed s o
      | Some data =>
          let k := keyOf c (Part (t_Name t) part) in
          match o !! k with
          | Some _ => fails Exists s o
          | None => (s, <[k := (data, now)]> o,
                     Copying c (addObject m t total part (MkManifestObject k (Z.of_nat (List.length rows)) (Z.of_nat (String.length data)) (sha256 data))) todo e)
          end
      end
  end.
Definition stepOld (now : Z) (s : Cat) (o : objects) (unit class : string) (olds : list (Z * Route * Z)) (keys : option (list okey)) : result :=
  match olds, keys with
  | [], _ => (s, o, Ended (Ok []))
  | (v, r, g) :: _, None =>
      match r with
      | ObjectParquet => if dp_Store then (s, o, DeletingOld unit class olds (Some (versionKeys class unit g v o))) else fails NoStore s o
      | _ => (s, o, DeletingOld unit class olds (Some []))
      end
  | _, Some (k :: ks) => (s, delete k o, DeletingOld unit class olds (Some ks))
  | (v, _, _) :: olds, Some [] => runTx (deleteOld now unit v) (λ _, DeletingOld unit class olds None) s o
  end.

(** One step of a process at a time. *)
Definition stepProc (now : Z) (s : Cat) (o : objects) (p : proc) : result :=
  match p with
  | TransferRead c =>
      let cl := classOf (cm_Class c) in
      (s, o, startCopy c (default (UnknownRoute "") (head (cl_Routes cl))) (readOnline cl (cm_Unit c) s) None)
  | RouteOf unit g =>
      runTx (routeOf now unit)
        (λ u, match g with
              | Reading _ => ReadManifest u g
              | Thawing _ => if decide (ur_route u = Online) then Ended (Err Online_)
                             else ReadManifest (MkUnitRoute (ur_id u) (ur_class u) (ur_state u) (ur_route u) (ur_version u) false) g
              | Rewrite _ _ _ => ReadManifest (MkUnitRoute (ur_id u) (ur_class u) (ur_state u) (ur_route u) (ur_version u) false) g
              end) s o
  | ReadManifest u g => stepRead now s o u g
  | ReadWarm u v g =>
      let m := warmRows (ur_id u) v s in
      if decide (m = ∅) then fails Unavailable s o else (s, o, withTables u m g)
  | ReadObjects u [] acc g => (s, o, withTables u acc g)
  | ReadObjects u ((t, mo) :: todo) acc g =>
      match o !! mo_Key mo with
      | None => fails Unavailable s o
      | Some (data, _) =>
          if decide (sha256 data = mo_SHA256 mo) then
            match ReadParquet t data with
            | None => fails Unavailable s o
            | Some rows => (s, o, ReadObjects u todo (foldl (λ m r, addRow (t_Name t) r m) acc rows) g)
            end
          else fails Unavailable s o
      end
  | Copying c m todo e => stepCopy now s o c m todo e
  | PutManifest c m e =>
      match o !! keyOf c ManifestFile with
      | Some _ => fails Exists s o
      | None => (s, <[keyOf c ManifestFile := (ManifestText m, now)]> o, startVerify c m e)
      end
  | Verifying c m todo acc reads e => stepVerify s o c m todo acc reads e
  | Publishing c m e => runTx (publishAlso now c m e) (λ _, Ended (Ok [])) s o
  | PutThaw unit class ttl aggs => runTx (putThaw now unit class ttl aggs) (λ _, Ended (Ok [])) s o
  | DeletingOnline unit class d =>
      runTx (deleteTurn unit (classOf class) (lastTurn unit d))
        (λ fin : bool, if fin then match d with Purging => PurgeRows unit class | _ => Ended (Ok []) end else DeletingOnline unit class d) s o
  | PurgeRows unit class => runTx (purgeRows unit) (λ _, if dp_Store then PurgeList unit class else Ended (Ok [])) s o
  | PurgeList unit class => (s, o, DeletingObjects (unitKeys (cl_Name (classOf class)) unit o))
  | DeletingObjects [] => (s, o, Ended (Ok []))
  | DeletingObjects (k :: todo) => (s, delete k o, DeletingObjects todo)
  | DestroyDecide unit class basis =>
      runTx (destroyDecide now unit basis) (λ why, match why with [] => DeletingOnline unit class Purging | _ => Ended (Ok []) end) s o
  | EraseStep redo class unit root fromSealed =>
      if fromSealed : bool then runTx (eraseSealed redo (classOf class) unit root) (λ _, Ended (Ok [])) s o
      else runTx (claim unit [Published; Released]) (λ c, RouteOf unit (Rewrite c None (Some (redo, root)))) s o
  | DeletingOld unit class olds keys => stepOld now s o unit class olds keys
  | CleanList class unit window named =>
      if dp_Store then (s, o, CleanObjects class unit window named (listed class unit o))
      else runTx (deleteOrphans now class unit) (λ _, Ended (Ok [])) s o
  | CleanObjects class unit window named [] => runTx (deleteOrphans now class unit) (λ _, Ended (Ok [])) s o
  | CleanObjects class unit window named ((k, at_) :: todo) =>
      if decide ((k_unit k, k_generation k, k_version k) ∈ named ∨ now - at_ < window) then (s, o, CleanObjects class unit window named todo)
      else (s, delete k o, CleanObjects class unit window named todo)
  | Ended r => (s, o, Ended r)
  end.

(** ** What starts a process *)

Inductive start :=
| StTransfer (unit : string) | StReroute (unit : string) (route : Route) | StErase (redo : bool) (class root : string) | StThaw (unit : string) (ttl : Z)
| StRelease (unit : string) (backup : option Z) | StContinue (unit : string) | StDestroy (unit : string) | StOld (unit : string) (backup : option Z)
| StClean (class unit : string) | StGet (class root : string) | StReadUnit (lease unit : string).

(** [Get]: the transaction that finds the unit. *)
Definition getFind (now : Z) (class root : string) : tx Cat tierErr (option unitRoute) :=
  s <~ tget;
  match c_members s !! (class, root) with
  | None => tret None
  | Some unit => u <~ routeOf now unit; tret (Some u)
  end.
(** [erase]: the transaction that finds the unit and its holds. *)
Definition eraseFind (class root : string) : tx Cat tierErr (option (string * Unit * Z)) :=
  s <~ tget;
  match c_members s !! (class, root) with
  | None => tret None
  | Some unit => u <~ unitRow unit; tret (Some (unit, u, holdsOn unit class s))
  end.
Definition eraseStart (redo : bool) (class root : string) (found : option (string * Unit * Z)) : proc :=
  match found with
  | None => Ended (Ok [])
  | Some (unit, u, holds) =>
      match u_state u with
      | Open | Destroyed => Ended (Ok [])
      | st => if negb redo && bool_decide (0 < holds) then Ended (Err HeldErr)
              else if negb redo && negb dp_Evidence then Ended (Err NoEvidence)
              else EraseStep redo class unit root (bool_decide (st = Sealed))
      end
  end.
Definition startProc (now : Z) (s : Cat) (o : objects) (st : start) : result :=
  match st with
  | StTransfer unit => runTx (claim unit [Sealed]) TransferRead s o
  | StReroute unit route => runTx (claim unit [Published; Released]) (λ c, RouteOf unit (Rewrite c (Some route) None)) s o
  | StErase redo class root =>
      match dp_Classes !! class with
      | None => fails NotFoundErr s o
      | Some cl => if decide (cl_Erasable cl = []) then fails RequestInvalid s o else runTx (eraseFind class root) (eraseStart redo class root) s o
      end
  | StThaw unit ttl => (s, o, RouteOf unit (Thawing ttl))
  | StRelease unit backup =>
      runTx (releaseDecide now unit backup) (λ '(class, why), match why with [] => DeletingOnline unit class Releasing | _ => Ended (Ok []) end) s o
  | StContinue unit =>
      match c_units s !! unit with
      | Some u => if decide (u_state u = Released) then (s, o, DeletingOnline unit (u_class u) Continuing) else (s, o, Ended (Ok []))
      | None => (s, o, Ended (Ok []))
      end
  | StDestroy unit =>
      runTx (destroyReady now unit)
        (λ '(u, why),
           match u_state u with
           | Destroyed => DeletingOnline unit (u_class u) Purging
           | Open => Ended (Err OpenUnit)
           | _ => match why with
                  | [] => if dp_Evidence then DestroyDecide unit (u_class u) (rt_Basis (cl_Retention (classOf (u_class u)))) else Ended (Err NoEvidence)
                  | _ => Ended (Ok [])
                  end
           end) s o
  | StOld unit backup =>
      runTx (oldsDecide now unit backup) (λ '(class, olds, why), match why with [] => DeletingOld unit class olds None | _ => Ended (Ok []) end) s o
  | StClean class unit => (s, o, CleanList class unit orphanWindow (namedIn class unit s))
  | StGet class root =>
      runTx (getFind now class root)
        (λ u, match u with
              | Some u => if decide (ur_state u = Destroyed) then Ended (Err NotFoundErr)
                          else if decide (ur_route u = Online) then Ended (Ok []) else ReadManifest u (Reading root)
              | None => Ended (Ok [])
              end) s o
  | StReadUnit lease unit => runTx (Renew now lease) (λ _, RouteOf unit (Reading "")) s o
  end.

(** The time a process has: the timeouts of the jobs. *)
Definition limitOf (st : start) : Z :=
  match st with StClean _ _ | StDestroy _ | StContinue _ => 6 * Hour | _ => Hour end.

(** ** Runs *)

Record World := MkWorld { w_cat : Cat; w_objects : objects; w_now : Z; w_procs : gmap nat (Z * proc) }.
Definition isErase (st : start) : bool := match st with StErase _ _ _ => true | _ => false end.

(** What the database holds: text in UTF-8, rows Go can hold. *)
Definition rowOk (r : crow) : Prop :=
  textOk (Obj (prod_map id toValue <$> map_to_list r)) = true ∧ ∀ b, Row r = Some b → small b.
Definition opOk (op : rowOp) : Prop := match op with InsertRow _ r | UpdateRow _ _ r => rowOk (r_row r) | DeleteRow _ _ => True end.

(** [erasing]: whether erasures run; [recorded]: the destructions, by unit and basis, that
    a full recovery executes again. *)
Inductive wstep (erasing : bool) (recorded : list (string * string)) : World → World → Prop :=
| st_tick s o now now' ps : now ≤ now' → wstep erasing recorded (MkWorld s o now ps) (MkWorld s o now' ps)
| st_write s o now ps ops : Forall opOk ops → wstep erasing recorded (MkWorld s o now ps) (MkWorld (after (Write ops) s) o now ps)
| st_outbox s o now ps out : wstep erasing recorded (MkWorld s o now ps)
    (MkWorld (MkCat (c_units s) (c_members s) (c_online s) (c_warm s) (c_manifests s) (c_version s) (c_leases s) (c_thaws s) (c_holds s)
                (c_approvals s) out (c_epoch s)) o now ps)
| st_seal s o now ps id class g answers : wstep erasing recorded (MkWorld s o now ps) (MkWorld (after (Seal now id class g answers) s) o now ps)
| st_hold s o now ps id class who sc source reason :
    wstep erasing recorded (MkWorld s o now ps) (MkWorld (after (Hold id class who sc source reason) s) o now ps)
| st_lift s o now ps id class who : wstep erasing recorded (MkWorld s o now ps) (MkWorld (after (LiftHold now class id who) s) o now ps)
| st_approve s o now ps id class who sc reason : wstep erasing recorded (MkWorld s o now ps) (MkWorld (after (Approve id class who sc reason) s) o now ps)
| st_withdraw s o now ps id class who : wstep erasing recorded (MkWorld s o now ps) (MkWorld (after (Withdraw now class id who) s) o now ps)
| st_snapshot s o now ps id : wstep erasing recorded (MkWorld s o now ps) (MkWorld (after (Snapshot now id) s) o now ps)
| st_renew s o now ps id : wstep erasing recorded (MkWorld s o now ps) (MkWorld (after (Renew now id) s) o now ps)
| st_end s o now ps id : wstep erasing recorded (MkWorld s o now ps) (MkWorld (after (End_ id) s) o now ps)
| st_start s o now ps i st deadline s' o' p : (isErase st = true → erasing = true) → ps !! i = None → deadline ≤ now + limitOf st →
    startProc now s o st = (s', o', p) → wstep erasing recorded (MkWorld s o now ps) (MkWorld s' o' now (<[i := (deadline, p)]> ps))
| st_proc s o now ps i deadline p s' o' p' : ps !! i = Some (deadline, p) → now ≤ deadline → stepProc now s o p = (s', o', p') →
    wstep erasing recorded (MkWorld s o now ps) (MkWorld s' o' now (<[i := (deadline, p')]> ps))
| st_replay s o now ps unit basis : (unit, basis) ∈ recorded →
    wstep erasing recorded (MkWorld s o now ps) (MkWorld (after (replayDestruction now unit basis) s) o now ps)
| st_replay_erasure s o now ps enqueue class root basis : erasing = true →
    wstep erasing recorded (MkWorld s o now ps) (MkWorld (after (replayErasure enqueue class root basis) s) o now ps)
| st_crash s o now ps i : wstep erasing recorded (MkWorld s o now ps) (MkWorld s o now (delete i ps)).

End steps.
