(* ===== verification/TierSame.v ===== *)
(** * Tiering: the same content

    When two tables hold the same rows, and what the digest, the verification and the
    reading of a copy say about it. *)
From S2P Require Import Prelude GoStr Canon CanonProps TierPlan TierRows TierRead TierStore TierSys.
From Stdlib Require Import Ascii String.
Open Scope string_scope.
Open Scope Z_scope.
Open Scope list_scope.

(** ** Rows *)

Lemma map_inj {A B} (f : A → B) `{!Inj (=) (=) f} l k : map f l = map f k → l = k.
Proof. revert k. induction l as [|a l IH]; intros [|b k]; cbn; try done. intros [= ->%(inj f) He]. f_equal. by apply IH. Qed.

Lemma toValue_inj v w : meaning (toValue v) = meaning (toValue w) → v = w.
Proof.
  assert (Hl : ∀ l, meaning (Arr (map Str l)) = Some (NArr (map NStr l))).
  { intros l. change (meaning (Arr (map Str l))) with (items ← allOk meaning (map Str l); Some (NArr items)).
    assert (allOk meaning (map Str l) = Some (map NStr l)) as ->; [|done]. induction l as [|a l IH]; [done|]. cbn [map]. unfold allOk in *. by rewrite IH. }
  destruct v as [s|b|l], w as [s'|b'|l']; cbn [toValue]; rewrite ?Hl; cbn; intros [= He]; subst; try done. f_equal.
  revert l' He. induction l as [|a l IH]; intros [|b l']; cbn; try done. intros [= -> He]. f_equal. by apply IH.
Qed.
Lemma toValue_meaning v : is_Some (meaning (toValue v)).
Proof.
  destruct v as [s|b|l]; cbn; [by eexists..|]. change (is_Some (items ← allOk meaning (map Str l); Some (NArr items))).
  assert (allOk meaning (map Str l) = Some (map NStr l)) as ->; [|by eexists]. induction l as [|a l IH]; [done|]. cbn [map]. unfold allOk in *. by rewrite IH.
Qed.

Definition colMeaning (p : string * cval) : string * nf := (p.1, default (NBool true) (meaning (toValue p.2))).
Lemma row_members l : allOk (λ '(k, x), t ← meaning x; Some (k, t)) (prod_map id toValue <$> l) = Some (map colMeaning l).
Proof.
  induction l as [|[k v] l IH]; [done|]. cbn [fmap list_fmap map]. unfold allOk in *. cbn. rewrite IH. unfold colMeaning. cbn.
  by destruct (toValue_meaning v) as [n ->].
Qed.
Lemma row_meaning (l : list (string * cval)) : meaning (Obj (prod_map id toValue <$> l)) = Some (NObj (merge_sort keyLe (map colMeaning l))).
Proof.
  transitivity (members ← allOk (λ '(k, x), t ← meaning x; Some (k, t)) (prod_map id toValue <$> l); Some (NObj (merge_sort keyLe members))); [done|].
  by rewrite row_members.
Qed.
Lemma map_perm_inj {A B} (f : A → B) `{!Inj (=) (=) f} l k : map f l ≡ₚ map f k → l ≡ₚ k.
Proof. intros (l3 & He & Hp)%Permutation_map_inv. apply (map_inj f) in He as ->. by symmetry. Qed.
Lemma Row_inj r r' b : rowOk r → rowOk r' → Row r = Some b → Row r' = Some b → r = r'.
Proof.
  intros [Hr _] [Hr' _] H1 H2. unfold Row in *. pose proof (encoding_equal _ _ _ Hr Hr' H1 H2) as Hm. rewrite !row_meaning in Hm. injection Hm as Hm. assert (Hp : map colMeaning (map_to_list r') ≡ₚ map colMeaning (map_to_list r)).
  { rewrite <- (merge_sort_Permutation keyLe (map colMeaning (map_to_list r'))), Hm. by rewrite merge_sort_Permutation. }
  apply map_to_list_inj. symmetry. clear -Hp. assert (Hinj : Inj (=) (=) colMeaning).
  { intros [k v] [k' v']. unfold colMeaning. cbn. intros [= -> He]. f_equal. apply toValue_inj.
    destruct (toValue_meaning v) as [n Hn], (toValue_meaning v') as [n' Hn']. rewrite Hn, Hn' in *. cbn in He. by subst. }
  by apply (map_perm_inj colMeaning).
Qed.

(** ** Equal digests *)

(** A content of rows: the bytes of each row under its table's name. *)
Definition rowsContent (R : list (string * list crow)) (c : content) : Prop :=
  Forall2 (λ p q, p.1 = q.1 ∧ Forall2 (λ r k, Row r = Some k.2) p.2 q.2) R c.

Lemma rows_bytes l k : Forall2 (λ r (k : keyed), Row r = Some k.2) l k → map Row l = map Some (map snd k).
Proof. induction 1 as [|r x l k Hr _ IH]; [done|]. cbn [map]. by rewrite Hr, IH. Qed.
Lemma rows_bytes_inj l l' b : Forall rowOk l → Forall rowOk l' → map Row l = map Some b → map Row l' = map Some b → l = l'.
Proof.
  intros Hl. revert l' b. induction Hl as [|r l Hr Hl IH]; intros l' b Hl' Hb Hb'; destruct b as [|x b]; try done.
  - by destruct l'.
  - destruct l' as [|r' l']; [done|]. cbn [map] in Hb, Hb'. injection Hb as Hx Hb. injection Hb' as Hx' Hb'. apply Forall_cons in Hl' as [Hr' Hl'].
    f_equal; [by eapply Row_inj|by eapply IH].
Qed.
Lemma bytes_perm l l' k k' : Forall rowOk l → Forall rowOk l' → Forall2 (λ r (k : keyed), Row r = Some k.2) l k →
  Forall2 (λ r (k : keyed), Row r = Some k.2) l' k' → map snd k ≡ₚ map snd k' → l ≡ₚ l'.
Proof.
  intros Hl Hl' Hk%rows_bytes Hk'%rows_bytes Hp. assert (Hm : map Row l ≡ₚ map Row l') by (by rewrite Hk, Hk', Hp).
  apply Permutation_map_inv in Hm as (l3 & He & Hp'). rewrite Hp'. rewrite Hk in He.
  assert (l = l3) as ->; [|done]. eapply rows_bytes_inj; [done|by rewrite <- Hp'|done|done].
Qed.

Lemma content_same R R' c c' : rowsContent R c → rowsContent R' c' → Forall (λ p, Forall rowOk p.2) R → Forall (λ p, Forall rowOk p.2) R' →
  arranged c = arranged c' → ∀ n l, (n, l) ∈ R → ∃ l', (n, l') ∈ R' ∧ l ≡ₚ l'.
Proof.
  intros HR HR' Hok Hok' Ha n l Hin. rewrite Forall_forall in Hok, Hok'.
  apply list_elem_of_lookup in Hin as [i Hi]. destruct (Forall2_lookup_l _ _ _ _ _ HR Hi) as ([n' k] & Hk & [Hn Hl]). cbn in Hn, Hl. subst n'.
  assert (Hin : (n, ordered k) ∈ arranged c').
  { rewrite <- Ha. unfold arranged. apply list_elem_of_fmap. exists (n, k). split; [done|]. rewrite merge_sort_Permutation. by eapply list_elem_of_lookup_2. }
  unfold arranged in Hin. apply list_elem_of_fmap in Hin as ([n' k'] & [= <- Ho] & Hin). rewrite merge_sort_Permutation in Hin.
  apply list_elem_of_lookup in Hin as [j Hj]. destruct (Forall2_lookup_r _ _ _ _ _ HR' Hj) as ([n' l'] & Hl' & [Hn' Hll]). cbn in Hn', Hll. subst n'.
  exists l'. split; [by eapply list_elem_of_lookup_2|]. eapply bytes_perm; [..|exact Hl|exact Hll|].
  - eapply (Hok (n, l)). by eapply list_elem_of_lookup_2.
  - eapply (Hok' (n, l')). by eapply list_elem_of_lookup_2.
  - by rewrite <- (ordered_perm k), <- (ordered_perm k'), Ho.
Qed.

Lemma allOk_step {A B} (f : A → option B) a l :
  allOk f (a :: l) = match f a, allOk f l with Some y, Some k => Some (y :: k) | _, _ => None end.
Proof. reflexivity. Qed.
Lemma allOk_iff {A B} (f : A → option B) l k : allOk f l = Some k ↔ Forall2 (λ a b, f a = Some b) l k.
Proof.
  revert k. induction l as [|a l IH]; intros k.
  - split; [intros [= <-]; constructor|by inversion 1].
  - rewrite allOk_step. split.
    + destruct (f a) eqn:Hf; [|done]. destruct (allOk f l) eqn:Hl; [|done]. intros [= <-]. constructor; [done|by apply IH].
    + inversion 1 as [|? b ? k' Hf Hl]; subst. apply IH in Hl. by rewrite Hf, Hl.
Qed.

(** The tables of a class with their rows, and a list of tables read back. *)
Definition classRows (cl : Class_) (m : tables) : list (string * list crow) := map (λ t, (t_Name t, rowsIn m (t_Name t))) (Tables cl).
Definition readRows (reads : list (Table * list (string * crow))) : list (string * list crow) := map (λ p, (t_Name p.1, map snd p.2)) reads.

Section digests.
Context `{Hashes}.

Lemma keyedOf_row t r k : keyedOf t r = Some k → Row r = Some k.2 ∧ PK t r = Some k.1.
Proof. unfold keyedOf. destruct (PK t r) as [k'|]; [|done]. cbn [mbind option_bind]. destruct (Row r) as [b|]; [|done]. by intros [= <-]. Qed.

Lemma digest_rows cl m d : digest cl m = Some d →
  ∃ c, rowsContent (classRows cl m) c ∧ contentDigest (cl_Name cl) (cl_SchemaVersion cl) c = Some d ∧
    ∀ t r, t ∈ Tables cl → r ∈ rowsIn m (t_Name t) → is_Some (PK t r).
Proof.
  unfold digest, tableSums. destruct (allOk _ (Tables cl)) as [sums|] eqn:Hs; cbn; [|done]. intros Hd. apply allOk_iff in Hs.
  assert (∃ c, rowsContent (classRows cl m) c ∧ map sumOf c = sums ∧ ∀ t r, t ∈ Tables cl → r ∈ rowsIn m (t_Name t) → is_Some (PK t r)) as (c & Hc & <- & Hk).
  { unfold classRows. clear Hd. induction Hs as [|t sum ts sums Ht Hs (c & Hc & He & Hk)].
    { exists []. split; [constructor|]. split; [done|]. by intros ? ? ?%elem_of_nil. }
    unfold tableSum in Ht. destruct (allOk (keyedOf t) _) as [l|] eqn:Hl; cbn in Ht; [|done]. injection Ht as <-. apply allOk_iff in Hl.
    exists ((t_Name t, l) :: c). split; [|split].
    - constructor; [|done]. split; [done|]. eapply Forall2_impl; [exact Hl|]. intros r k ?%keyedOf_row. naive_solver.
    - cbn. by rewrite He.
    - intros t' r [->|Ht']%elem_of_cons Hr; [|by eapply Hk]. apply list_elem_of_lookup in Hr as [i Hi].
      destruct (Forall2_lookup_l _ _ _ _ _ Hl Hi) as (k & _ & Hkk%keyedOf_row). naive_solver. }
  exists c. split; [done|]. by split.
Qed.
Lemma reads_content reads sums : allOk readSum reads = Some sums → ∃ c, rowsContent (readRows reads) c ∧ map sumOf c = sums.
Proof.
  intros Hs%allOk_iff. unfold readRows. induction Hs as [|[t l] sum reads sums Ht Hs (c & Hc & He)]; [exists []; split; [constructor|done]|].
  unfold readSum in Ht. destruct (allOk _ _) as [k|] eqn:Hl; cbn in Ht; [|done]. injection Ht as <-. apply allOk_iff in Hl. cbn [snd] in Hl.
  exists ((t_Name t, k) :: c). split; [|cbn; by rewrite He]. constructor; [|done]. split; [done|]. cbn. clear -Hl.
  induction Hl as [|[p r] [p' b] l k Hr _ IH]; cbn [map]; [constructor|]. constructor; [|done].
  cbv beta iota in Hr. cbn [snd]. destruct (Row r) as [x|]; [|done]. cbn in Hr. injection Hr as _ ->. done.
Qed.
Lemma rowsContent_small R c : rowsContent R c → Forall (λ p, Forall rowOk p.2) R → (∀ p, p ∈ R → validString p.1 = true) → contentOk c.
Proof.
  intros Hc. unfold contentOk. induction Hc as [|[n l] [n' k] R c [Hn Hl] _ IH]; intros Hok Hv; [constructor|]. cbn in Hn. subst n'.
  apply Forall_cons in Hok as [Ho Hok]. constructor; [|apply IH; [done|]; intros p Hp; apply Hv; by apply list_elem_of_further].
  split; [apply (Hv (n, l)); apply list_elem_of_here|]. cbn in *. clear -Hl Ho. induction Hl as [|r x l k Hr _ IH]; [constructor|].
  apply Forall_cons in Ho as [[_ Hs] Ho]. constructor; [by apply Hs|by apply IH].
Qed.
End digests.

(** ** The deployment's laws *)

(** A checked configuration: every class passes its check, with its tables its own and its
    texts in UTF-8; the hash is taken to have no collisions; what a Parquet file gives is
    canonical; the grace and the orphans' window outlast the jobs. *)
Class TierOk `{Hashes, Deploy} : Prop := {
  ok_name name cl : dp_Classes !! name = Some cl → cl_Name cl = name;
  ok_check name cl : dp_Classes !! name = Some cl → ∃ n registries, Check cl n registries = [];
  ok_named name cl : dp_Classes !! name = Some cl → wellNamed cl;
  ok_text name cl : dp_Classes !! name = Some cl →
    validString name = true ∧ validString (cl_SchemaVersion cl) = true ∧ ∀ t, t ∈ Tables cl → validString (t_Name t) = true;
  ok_apart n n' cl cl' t t' : dp_Classes !! n = Some cl → dp_Classes !! n' = Some cl' → n ≠ n' → t ∈ Tables cl → t' ∈ Tables cl' → t_Name t ≠ t_Name t';
  ok_sha_text x : validString (sha256 x) = true;
  ok_sha_inj x y : sha256 x = sha256 y → x = y;
  ok_parquet t data rows : ReadParquet t data = Some rows → Forall rowOk rows;
  ok_grace : Hour < dp_Grace;
  ok_window : 7 * Hour < orphanWindow;
  ok_version : 0 ≤ firstVersion }.

Lemma Check_key c n registries t : Check c n registries = [] → t ∈ Tables c → t_PK t ≠ "" → KeyColumns t = [t_PK t].
Proof.
  unfold Check. intros Hc Hin Hpk. do 7 apply app_nil in Hc as [_ Hc]. apply app_nil in Hc as [Hc _].
  rewrite bind_nil in Hc. specialize (Hc t Hin). unfold checkTable in Hc. do 2 apply app_nil in Hc as [_ Hc]. apply app_nil in Hc as [Hc _].
  apply when_nothing in Hc. rewrite bool_decide_false in Hc by done. unfold KeyColumns. case_decide as Hk; [done|]. by rewrite bool_decide_false in Hc.
Qed.
Lemma Check_root c n registries : Check c n registries = [] → t_PK (cl_Root c) ≠ "".
Proof.
  unfold Check. intros Hc. do 8 apply app_nil in Hc as [_ Hc]. apply app_nil in Hc as [Hc _]. by apply when_nothing, bool_decide_eq_false in Hc.
Qed.
Lemma PK_some c n registries t r : Check c n registries = [] → t ∈ Tables c → t_PK t ≠ "" → is_Some (PK t r) → is_Some (r !! t_PK t).
Proof.
  intros Hc Ht Hpk. unfold PK. rewrite (Check_key _ _ _ _ Hc Ht Hpk). rewrite allOk_step. destruct (r !! t_PK t); [done|]. by intros [? ?].
Qed.
Lemma table_named cl t t' : wellNamed cl → t ∈ Tables cl → t' ∈ Tables cl → t_Name t = t_Name t' → t = t'.
Proof.
  unfold wellNamed. intros Hn (i & Hi)%list_elem_of_lookup (j & Hj)%list_elem_of_lookup He.
  assert (i = j) as ->. { eapply NoDup_lookup; [exact Hn| |]; rewrite list_lookup_fmap, ?Hi, ?Hj; cbn; [done|by rewrite He]. }
  congruence.
Qed.

(** The same rows in every table of a class. *)
Definition sameTables (cl : Class_) (a b : tables) : Prop := ∀ t, t ∈ Tables cl → rowsIn a (t_Name t) ≡ₚ rowsIn b (t_Name t).
#[export] Instance sameTables_equiv cl : Equivalence (sameTables cl).
Proof.
  split; [by intros a t|intros a b Hs t Ht; symmetry; by apply Hs|intros a b c H1 H2 t Ht].
  transitivity (rowsIn b (t_Name t)); [by apply H1|by apply H2].
Qed.
Definition tablesOk (cl : Class_) (m : tables) : Prop := ∀ t, t ∈ Tables cl → Forall rowOk (rowsIn m (t_Name t)).
Lemma tablesOk_same cl a b : sameTables cl a b → tablesOk cl a → tablesOk cl b.
Proof. intros Hs Ha t Ht. pose proof (Hs t Ht) as Hp. rewrite <- Hp. by apply Ha. Qed.
Lemma whole_same cl a b : sameTables cl a b → whole cl a → (∀ ch p, ch ∈ cl_Children cl → parent cl ch = Some p → p ∈ Tables cl) → whole cl b.
Proof.
  intros Hs [H1 H2] Hp. assert (Hr : cl_Root cl ∈ Tables cl) by apply list_elem_of_here. split; [intros r; rewrite <- (Hs _ Hr); apply H1|].
  intros ch Hch. assert (Ht : ch_Table ch ∈ Tables cl) by (apply list_elem_of_further; by apply list_elem_of_fmap_2).
  destruct (H2 ch Hch) as [H3 H4]. split; [intros Hpk r; unfold ch_Name; rewrite <- (Hs _ Ht); by apply H3|].
  intros r. unfold ch_Name. rewrite <- (Hs _ Ht). intros Hrin. destruct (H4 r Hrin) as (v & p & q & w & ? & Hpar & Hq & ? & ?).
  exists v, p, q, w. rewrite <- (Hs p) by (by eapply Hp). done.
Qed.
Lemma parent_table cl ch p : parent cl ch = Some p → p ∈ Tables cl.
Proof.
  unfold parent. destruct (underRoot cl ch); [intros [= <-]; apply list_elem_of_here|].
  destruct (List.find _ _) as [o|] eqn:Ho; [|done]. intros [= <-]. apply find_some in Ho as [Ho _]. apply list_elem_of_further, list_elem_of_fmap_2.
  by apply list_elem_of_In.
Qed.

Section laws.
Context {HH : Hashes} {DD : Deploy} {OK : TierOk}.

Lemma digest_reads name cl m reads sums d : dp_Classes !! name = Some cl → tablesOk cl m → Forall (λ p, Forall rowOk (map snd p.2)) reads →
  Forall (λ p, p.1 ∈ Tables cl) reads → digest cl m = Some d → allOk readSum reads = Some sums →
  UnitDigest (cl_Name cl) (cl_SchemaVersion cl) sums = Some d →
  (∀ t, t ∈ Tables cl → ∃ l, (t, l) ∈ reads ∧ rowsIn m (t_Name t) ≡ₚ map snd l) ∧
  (∀ t l, (t, l) ∈ reads → rowsIn m (t_Name t) ≡ₚ map snd l) ∧ map (λ p, t_Name p.1) reads ≡ₚ map t_Name (Tables cl).
Proof.
  intros Hcl Hm Hr Ht Hd Hs Hu. destruct (digest_rows _ _ _ Hd) as (c & Hc & Hcd & _). destruct (reads_content _ _ Hs) as (c' & Hc' & <-).
  destruct (ok_text _ _ Hcl) as (Hn & Hv & Htn). pose proof (ok_name _ _ Hcl) as Hnm. rewrite Forall_forall in Ht.
  assert (Hok : Forall (λ p, Forall rowOk p.2) (classRows cl m)).
  { apply Forall_forall. intros p (t & -> & Hin)%list_elem_of_fmap. by apply Hm. }
  assert (Hok' : Forall (λ p, Forall rowOk p.2) (readRows reads)).
  { apply Forall_forall. intros p ([t l] & -> & Hin)%list_elem_of_fmap. rewrite Forall_forall in Hr. by apply (Hr (t, l)). }
  destruct (digest_content (cl_Name cl) (cl_Name cl) (cl_SchemaVersion cl) (cl_SchemaVersion cl) c c' d) as [(_ & _ & Ha)|(x & y & Hne & He)].
  1-4: by rewrite ?Hnm. 1: apply ok_sha_text.
  - eapply rowsContent_small; [exact Hc|done|]. intros p (t & -> & Hin)%list_elem_of_fmap. by apply Htn.
  - eapply rowsContent_small; [exact Hc'|done|]. intros p ([t l] & -> & Hin)%list_elem_of_fmap. apply Htn. by apply (Ht (t, l)).
  - done.
  - done.
  - assert (H2 : ∀ t l, (t, l) ∈ reads → rowsIn m (t_Name t) ≡ₚ map snd l).
    { intros t l Hin. destruct (content_same _ _ _ _ Hc' Hc Hok' Hok (eq_sym Ha) (t_Name t) (map snd l)) as (l' & Hl' & Hp).
      - apply list_elem_of_fmap. by exists (t, l).
      - apply list_elem_of_fmap in Hl' as (t' & [= Hn' ->] & Ht'). rewrite Hn'. by symmetry. }
    split; [|split; [done|]].
    2: { assert (Hf : ∀ R c, rowsContent R c → map fst R = map fst c) by (intros R k; induction 1 as [|p q R k [He _] _ IH]; [done|]; cbn; by rewrite He, IH).
      apply Hf in Hc, Hc'. unfold classRows, readRows in Hc, Hc'. rewrite map_map in Hc, Hc'.
      etransitivity; [apply reflexive_eq; exact Hc'|]. etransitivity; [|apply reflexive_eq; symmetry; exact Hc].
      assert (Hg : ∀ k, map fst (arranged k) ≡ₚ map fst k) by (intros k; unfold arranged; rewrite map_map; cbn; by rewrite merge_sort_Permutation).
      by rewrite <- (Hg c), <- (Hg c'), Ha. }
    intros t Hin. destruct (content_same _ _ _ _ Hc Hc' Hok Hok' Ha (t_Name t) (rowsIn m (t_Name t))) as (l' & Hl' & Hp).
    + apply list_elem_of_fmap. by exists t.
    + apply list_elem_of_fmap in Hl' as ([t' l] & [= Hn' ->] & Hl'). exists l. split; [|done].
      assert (t = t') as ->; [|done]. eapply table_named; [by eapply ok_named|done|by apply (Ht (t', l))|done].
  - destruct Hne. by apply ok_sha_inj.
Qed.

(** A verified copy is the content its digest was taken of, and that content is whole. *)
Lemma verified_whole name cl m man reads : dp_Classes !! name = Some cl → tablesOk cl m → Forall (λ p, Forall rowOk (map snd p.2)) reads →
  Forall (λ p, p.1 ∈ Tables cl) reads → digest cl m = Some (m_Digest man) → m_SchemaVersion man = cl_SchemaVersion cl → verified cl man reads = true →
  (∀ t, t ∈ Tables cl → ∃ l, (t, l) ∈ reads ∧ rowsIn m (t_Name t) ≡ₚ map snd l) ∧
  (∀ t l, (t, l) ∈ reads → rowsIn m (t_Name t) ≡ₚ map snd l) ∧ map (λ p, t_Name p.1) reads ≡ₚ map t_Name (Tables cl) ∧ whole cl m.
Proof.
  intros Hcl Hm Hr Ht Hd Hsv Hv. unfold verified in Hv. apply andb_true_iff in Hv as [[Hpar _]%andb_true_iff Hdg%bool_decide_eq_true].
  destruct (allOk readSum reads) as [sums|] eqn:Hs; [|done]. cbn in Hdg. rewrite Hsv in Hdg.
  destruct (digest_reads _ _ _ _ _ _ Hcl Hm Hr Ht Hd Hs Hdg) as (H1 & H2 & H3). split; [done|]. split; [done|]. split; [done|].
  destruct (ok_check _ _ Hcl) as (n & regs & Hc). destruct (digest_rows _ _ _ Hd) as (_ & _ & _ & Hpk).
  assert (Hw : wellNamed cl) by (by eapply ok_named). split.
  { intros r Hin. eapply PK_some; [exact Hc|apply list_elem_of_here|by eapply Check_root|]. by apply Hpk; [apply list_elem_of_here|]. }
  intros ch Hch. assert (Htc : ch_Table ch ∈ Tables cl) by (apply list_elem_of_further; by apply list_elem_of_fmap_2). split.
  { intros Hp r Hin. eapply PK_some; [exact Hc|done|done|]. by apply Hpk. }
  intros r Hin. destruct (H1 _ Htc) as (l & Hl & Hp). unfold ch_Name in Hin. rewrite Hp in Hin.
  apply forallb_forall with (x := (ch_Table ch, map snd l)) in Hpar; [|apply list_elem_of_In, list_elem_of_fmap; by exists (ch_Table ch, l)].
  unfold parented in Hpar. apply orb_true_iff in Hpar as [Hroot%bool_decide_eq_true|Hall].
  { exfalso. apply wellNamed_children in Hw as [_ Hw]. apply Hw. cbn in Hroot. rewrite <- Hroot. by apply (list_elem_of_fmap_2 ch_Name). }
  cbn [fst snd] in Hall. apply forallb_forall with (x := r) in Hall; [|by apply list_elem_of_In].
  destruct (child cl (t_Name (ch_Table ch))) as [ch'|] eqn:Hc'; [|done]. apply child_some in Hc' as [Hin' Hn'].
  assert (ch' = ch) as -> by (by eapply name_child). destruct (r !! ch_FK ch) as [v|] eqn:Hv; [|done]. destruct (parent cl ch) as [p|] eqn:Hpc; [|done].
  apply bool_decide_eq_true in Hall. unfold rowsRead in Hall. destruct (List.find _ _) as [[t rows]|] eqn:Hf; [|by apply elem_of_nil in Hall].
  apply find_some in Hf as [Hfin He]. cbn in He. apply bool_decide_eq_true in He. apply list_elem_of_In, list_elem_of_fmap in Hfin as ([t0 l0] & [= -> ->] & Hl0).
  unfold keysOf in Hall. case_decide as Hkey; [by apply elem_of_nil in Hall|]. apply list_elem_of_fmap in Hall as (q & Hq & Hqin).
  assert (Htt : t0 ∈ Tables cl) by (rewrite Forall_forall in Ht; by apply (Ht (t0, l0))). rewrite <- (H2 t0 l0 Hl0) in Hqin.
  assert (t0 = p) as -> by (eapply table_named; [done|done|by eapply parent_table|done]).
  destruct (PK_some _ _ _ p q Hc Htt Hkey (Hpk p q Htt Hqin)) as [w Hw']. rewrite Hw' in Hq. by exists v, p, q, w.
Qed.
End laws.
