(* ===== verification/TierInv.v ===== *)
(** * Tiering: copies of a unit and what their readers get

    The invariant of the tiering's runs: the copies of a unit in the warm route and on the
    object store against the content it was sealed with, and what each process knows. *)
From S2P Require Import Prelude GoStr Canon CanonProps TierPlan TierRows TierRead TierStore TierSys TierSame.
From Stdlib Require Import Ascii String.
Open Scope string_scope.
Open Scope Z_scope.
Open Scope list_scope.

Section copies.
Context {HH : Hashes} {DD : Deploy}.

(** ** Reading a copy back *)

(** What [ReadObjects] gathers when the store stands still. *)
Fixpoint readAll (o : objects) (todo : list (Table * ManifestObject)) (acc : tables) : option tables :=
  match todo with
  | [] => Some acc
  | (t, mo) :: todo =>
      '(data, _) ← o !! mo_Key mo;
      if decide (sha256 data = mo_SHA256 mo) then rows ← ReadParquet t data; readAll o todo (foldl (λ m r, addRow (t_Name t) r m) acc rows) else None
  end.
Lemma readAll_app o a b acc : readAll o (a ++ b) acc = m ← readAll o a acc; readAll o b m.
Proof.
  revert acc. induction a as [|[t mo] a IH]; intros acc; [done|]. cbn. destruct (o !! mo_Key mo) as [[data lm]|]; cbn; [|done].
  case_decide; [|done]. destruct (ReadParquet t data); cbn; [apply IH|done].
Qed.
Lemma readAll_keys o o' todo acc : (∀ t mo, (t, mo) ∈ todo → o' !! mo_Key mo = o !! mo_Key mo) → readAll o' todo acc = readAll o todo acc.
Proof.
  revert acc. induction todo as [|[t mo] todo IH]; intros acc Hk; [done|]. cbn. rewrite (Hk t mo) by apply list_elem_of_here.
  destruct (o !! mo_Key mo) as [[data lm]|]; cbn; [|done]. case_decide; [|done]. destruct (ReadParquet t data); cbn; [|done].
  apply IH. intros t' mo' Hin. apply (Hk t' mo'). by apply list_elem_of_further.
Qed.

(** What [Verifying] gathers from objects. *)
Fixpoint replay (o : objects) (items : list verifyItem) (acc : list (string * crow)) (reads : list (Table * list (string * crow))) :
    option (list (string * crow) * list (Table * list (string * crow))) :=
  match items with
  | [] => Some (acc, reads)
  | GetObject t mo :: items => match getRows o t mo with Ok l => replay o items (acc ++ l) reads | Err _ => None end
  | QueryRows _ :: _ => None
  | EndTable t rows :: items => if decide (Z.of_nat (List.length acc) = rows) then replay o items [] (reads ++ [(t, acc)]) else None
  end.
Lemma replay_app o a b acc reads : replay o (a ++ b) acc reads = '(acc, reads) ← replay o a acc reads; replay o b acc reads.
Proof.
  revert acc reads. induction a as [|[t mo|t|t n] a IH]; intros acc reads; cbn; [done| | |].
  - destruct (getRows o t mo); [apply IH|done].
  - done.
  - case_decide; [apply IH|done].
Qed.
Definition itemKey (i : verifyItem) : option okey := match i with GetObject _ mo => Some (mo_Key mo) | _ => None end.
Lemma replay_keys o o' items acc reads : (∀ i k, i ∈ items → itemKey i = Some k → o' !! k = o !! k) → replay o' items acc reads = replay o items acc reads.
Proof.
  revert acc reads. induction items as [|i items IH]; intros acc reads Hk; [done|].
  assert (Hk' : ∀ j k, j ∈ items → itemKey j = Some k → o' !! k = o !! k) by (intros j k Hj; apply Hk; by apply list_elem_of_further).
  destruct i as [t mo|t|t n]; cbn; [|done|].
  - unfold getRows. rewrite (Hk (GetObject t mo) (mo_Key mo)) by (done || apply list_elem_of_here). destruct (o !! mo_Key mo) as [[data lm]|]; [|done].
    case_decide; [|done]. destruct (_ ≫= _); [|done]. by apply IH.
  - case_decide; [|done]. by apply IH.
Qed.

Lemma getRows_ok o t mo l : getRows o t mo = Ok l →
  ∃ data lm, o !! mo_Key mo = Some (data, lm) ∧ sha256 data = mo_SHA256 mo ∧ ReadParquet t data = Some (map snd l).
Proof.
  unfold getRows. destruct (o !! mo_Key mo) as [[data lm]|]; [|done]. case_decide as Hd; [|done]. destruct (ReadParquet t data) as [rows|] eqn:Hr; [|done].
  cbn. destruct (allOk _ rows) as [k|] eqn:Hk; [|done]. intros [= <-]. exists data, lm. split; [done|]. split; [by destruct Hd|]. rewrite Hr. f_equal.
  apply allOk_iff in Hk. clear -Hk. induction Hk as [|r [p q] rows k Hr _ IH]; [done|]. cbn. rewrite IH. f_equal.
  destruct (keyedOf t r) as [[? ?]|]; [|done]. cbn in Hr. by injection Hr.
Qed.

Definition rowsNamed (reads : list (Table * list (string * crow))) (n : string) : list crow :=
  reads ≫= λ p, if decide (t_Name p.1 = n) then map snd p.2 else [].
Lemma rowsIn_addRows n l m n' : rowsIn (foldl (λ m r, addRow n r m) m l) n' = rowsIn m n' ++ (if decide (n = n') then l else []).
Proof.
  revert m. induction l as [|r l IH]; intros m; cbn; [case_decide; by rewrite app_nil_r|].
  rewrite IH, rowsIn_add. case_decide; [subst; by rewrite <- (assoc_L (++))|done].
Qed.

(** The objects of one table. *)
Lemma replay_table o t mos rest acc reads r : replay o (map (GetObject t) mos ++ rest) acc reads = Some r →
  ∃ l, replay o rest (acc ++ l) reads = Some r ∧
    ∀ m, ∃ m', readAll o (map (pair t) mos) m = Some m' ∧ ∀ n, rowsIn m' n = rowsIn m n ++ (if decide (t_Name t = n) then map snd l else []).
Proof.
  revert acc. induction mos as [|mo mos IH]; intros acc; cbn [map app replay].
  { intros Hr. exists []. rewrite app_nil_r. split; [done|]. intros m. exists m. split; [done|]. intros n. case_decide; by rewrite app_nil_r. }
  destruct (getRows o t mo) as [l|] eqn:Hg; [|done]. intros (l' & Hr & Hm)%IH. destruct (getRows_ok _ _ _ _ Hg) as (data & lm & Hk & Hs & Hp).
  exists (l ++ l'). rewrite (assoc_L (++)). split; [done|]. intros m. cbn [readAll]. rewrite Hk. cbn. rewrite decide_True by done. rewrite Hp. cbn.
  destruct (Hm (foldl (λ m r, addRow (t_Name t) r m) m (map snd l))) as (m' & He & Hn). exists m'. split; [done|]. intros n.
  rewrite Hn, rowsIn_addRows. rewrite <- (assoc_L (++)). f_equal. case_decide; [|done]. by rewrite map_app.
Qed.

Definition tableItems (route : Route) (t : Table) (mt : ManifestTable) : list verifyItem :=
  match route with ObjectParquet => map (GetObject t) (mt_Objects mt) | Postgres => [QueryRows t] | _ => [] end ++ [EndTable t (mt_Rows mt)].

Lemma replay_tables o cl mts ts reads0 r :
  Forall2 (λ mt t, tableOf cl (mt_Name mt) = Some t) mts ts →
  replay o (List.concat (zip_with (tableItems ObjectParquet) ts mts)) [] reads0 = Some r →
  ∃ reads, r = ([], reads0 ++ reads) ∧ map fst reads = ts ∧
    ∀ m, ∃ m', readAll o (List.concat (zip_with (λ t mt, map (pair t) (mt_Objects mt)) ts mts)) m = Some m' ∧
      ∀ n, rowsIn m' n = rowsIn m n ++ rowsNamed reads n.
Proof.
  intros Hts. revert reads0. induction Hts as [|mt t mts ts Ht Hts IH]; intros reads0; cbn.
  { intros [= <-]. exists []. rewrite app_nil_r. split; [done|]. split; [done|]. intros m. exists m. split; [done|]. intros n. by rewrite app_nil_r. }
  unfold tableItems at 1. rewrite <- (assoc_L (++)). intros (l & Hr & Hm)%replay_table. cbn [app replay] in Hr. case_decide; [|done].
  destruct (IH _ Hr) as (reads & -> & Hf & Hm'). exists ((t, l) :: reads). split; [by rewrite <- (assoc_L (++))|]. split; [cbn; by rewrite Hf|].
  intros m. destruct (Hm m) as (m1 & H1 & Hn1). destruct (Hm' m1) as (m2 & H2 & Hn2). exists m2. rewrite readAll_app, H1. split; [done|].
  intros n. rewrite Hn2, Hn1. by rewrite <- (assoc_L (++)).
Qed.
End copies.

Section verified.
Context {HH : Hashes} {DD : Deploy} {OK : TierOk}.

Lemma items_tables cl man items : verifyItems cl man = Some items →
  ∃ ts, Forall2 (λ mt t, tableOf cl (mt_Name mt) = Some t) (m_Tables man) ts ∧ items = List.concat (zip_with (tableItems (m_Route man)) ts (m_Tables man)) ∧
    objectsOf cl man = Some (List.concat (zip_with (λ t mt, map (pair t) (mt_Objects mt)) ts (m_Tables man))).
Proof.
  unfold verifyItems, objectsOf. destruct (allOk _ (m_Tables man)) as [l|] eqn:Hl; [|done]. cbn [mbind option_bind]. intros [= <-]. apply allOk_iff in Hl.
  assert (∃ ts, Forall2 (λ mt t, tableOf cl (mt_Name mt) = Some t) (m_Tables man) ts ∧ l = zip_with (tableItems (m_Route man)) ts (m_Tables man) ∧
    allOk (λ mt, t ← tableOf cl (mt_Name mt); Some (map (pair t) (mt_Objects mt))) (m_Tables man) =
      Some (zip_with (λ t mt, map (pair t) (mt_Objects mt)) ts (m_Tables man))) as (ts & H1 & -> & H2).
  { induction Hl as [|mt i mts l Hm _ (ts & H1 & -> & H2)]; [by exists []|]. destruct (tableOf cl (mt_Name mt)) as [t|] eqn:Ht; [|done].
    cbn in Hm. injection Hm as <-. exists (t :: ts). split; [by constructor|]. split; [done|]. rewrite allOk_step, Ht, H2. done. }
  exists ts. split; [done|]. split; [done|]. rewrite H2. done.
Qed.
Lemma tableOf_some cl n t : tableOf cl n = Some t → t ∈ Tables cl ∧ t_Name t = n.
Proof. unfold tableOf. intros [Hin He]%find_some. apply bool_decide_eq_true in He. by apply list_elem_of_In in Hin. Qed.

Definition readsOk (reads : list (Table * list (string * crow))) : Prop := Forall (λ p, Forall rowOk (map snd p.2)) reads.
Lemma replay_rows o items acc reads acc' reads' : replay o items acc reads = Some (acc', reads') → Forall rowOk (map snd acc) → readsOk reads →
  Forall rowOk (map snd acc') ∧ readsOk reads'.
Proof.
  revert acc reads. induction items as [|[t mo|t|t n] items IH]; intros acc reads; cbn; [by intros [= <- <-]| |done|].
  - destruct (getRows o t mo) as [l|] eqn:Hg; [|done]. intros Hr Ha Hs. apply (IH _ _ Hr); [|done]. rewrite map_app. apply Forall_app. split; [done|].
    destruct (getRows_ok _ _ _ _ Hg) as (data & _ & _ & _ & Hp). by eapply ok_parquet.
  - case_decide; [|done]. intros Hr Ha Hs. apply (IH _ _ Hr); [constructor|]. apply Forall_app. split; [done|]. by constructor.
Qed.

Lemma rowsNamed_one reads t l : NoDup (map (λ p, t_Name p.1) reads) → (t, l) ∈ reads → rowsNamed reads (t_Name t) = map snd l.
Proof.
  induction reads as [|[t' l'] reads IH]; [intros _ Hin; by apply elem_of_nil in Hin|]. cbn. intros [Hn Hnd]%NoDup_cons [Heq|Hin]%elem_of_cons.
  - injection Heq as <- <-. rewrite decide_True by done. unfold rowsNamed in *.
    assert (Hno : ∀ k : list (Table * list (string * crow)), t_Name t ∉ map (λ p, t_Name p.1) k → k ≫= (λ p, if decide (t_Name p.1 = t_Name t) then map snd p.2 else []) = []).
    { induction k as [|q k IHk]; [done|]. cbn. intros Hk. rewrite decide_False; [apply IHk|]; intros Hx; apply Hk; [by apply list_elem_of_further|rewrite Hx; apply list_elem_of_here]. }
    by rewrite Hno, app_nil_r.
  - rewrite decide_False; [by apply IH|]. intros He. apply Hn. rewrite He. apply (list_elem_of_fmap_2 (λ p, t_Name p.1) _ (t, l) Hin).
Qed.

(** A copy on the object store that was verified reads back as the content. *)
Lemma object_copied name cl C man items o a reads :
  dp_Classes !! name = Some cl → tablesOk cl C → digest cl C = Some (m_Digest man) → m_SchemaVersion man = cl_SchemaVersion cl → m_Route man = ObjectParquet →
  verifyItems cl man = Some items → replay o items [] [] = Some (a, reads) → verified cl man reads = true →
  whole cl C ∧ ∃ todo m', objectsOf cl man = Some todo ∧ readAll o todo ∅ = Some m' ∧ sameTables cl m' C.
Proof.
  intros Hcl Hm Hd Hsv Hr Hi Hp Hv. destruct (items_tables _ _ _ Hi) as (ts & Hts & -> & Ho). rewrite Hr in Hp.
  destruct (replay_rows _ _ _ _ _ _ Hp) as [_ Hok]; [constructor|constructor|].
  destruct (replay_tables _ _ _ _ _ _ Hts Hp) as (reads' & [= _ ->] & Hf & Hread). cbn [app] in Hv, Hok.
  assert (Hin : Forall (λ p, p.1 ∈ Tables cl) reads').
  { apply Forall_forall. intros p Hp'. assert (Hpt : p.1 ∈ ts) by (rewrite <- Hf; by apply (list_elem_of_fmap_2 fst)).
    apply list_elem_of_lookup in Hpt as [i Hpi]. destruct (Forall2_lookup_r _ _ _ _ _ Hts Hpi) as (mt & _ & Ht). by apply tableOf_some in Ht as [? _]. }
  destruct (verified_whole name cl C man reads' Hcl Hm Hok Hin Hd Hsv Hv) as (H1 & H2 & H3 & Hw). split; [done|].
  destruct (Hread ∅) as (m' & Hm' & Hn). exists (List.concat (zip_with (λ t mt, map (pair t) (mt_Objects mt)) ts (m_Tables man))), m'. split; [done|].
  split; [done|]. intros t Ht. rewrite Hn. cbn [app]. destruct (H1 t Ht) as (l & Hl & ->). unfold rowsIn at 1. rewrite lookup_empty. cbn [default app].
  rewrite (rowsNamed_one reads' t l); [done| |done]. rewrite H3. by eapply ok_named.
Qed.

(** The warm rows of a version. *)
Lemma warmRows_in id v s n : rowsIn (warmRows id v s) n = map snd (default [] (c_warm s !! (id, v, n))).
Proof.
  unfold rowsIn, warmRows.
  set (L := filter (λ p : string * Z * string * list (string * crow), p.1.1 = (id, v) ∧ p.2 ≠ []) (map_to_list (c_warm s))).
  assert (Hnd : NoDup (map fst (map (λ p : string * Z * string * list (string * crow), (p.1.2, map snd p.2)) L))).
  { rewrite map_map. apply NoDup_fmap_2_strong; [|apply NoDup_filter, NoDup_map_to_list].
    intros [[iv n1] l1] [[iv' n2] l2] [[H1 _] H2%elem_of_map_to_list]%list_elem_of_filter [[H3 _] H4%elem_of_map_to_list]%list_elem_of_filter.
    cbn in *. intros ->. subst. congruence. }
  destruct (c_warm s !! (id, v, n)) as [l|] eqn:Hw.
  - destruct l as [|x l].
    + rewrite not_elem_of_list_to_map_1; [done|]. rewrite map_map. intros ([[iv n'] l'] & Hn & Hin)%list_elem_of_fmap. cbn in Hn. subst n'.
      apply list_elem_of_filter in Hin as [[Hiv Hl] Hin%elem_of_map_to_list]. cbn in Hiv, Hl. subst iv. rewrite Hw in Hin. by injection Hin as <-.
    + rewrite (elem_of_list_to_map_1 _ n (map snd (x :: l))); [done|done|]. apply list_elem_of_fmap. exists (id, v, n, x :: l). split; [done|].
      apply list_elem_of_filter. split; [done|]. by apply elem_of_map_to_list.
  - rewrite not_elem_of_list_to_map_1; [done|]. rewrite map_map. intros ([[iv n'] l'] & Hn & Hin)%list_elem_of_fmap. cbn in Hn. subst n'.
    apply list_elem_of_filter in Hin as [[Hiv _] Hin%elem_of_map_to_list]. cbn in Hiv. subst iv. by rewrite Hw in Hin.
Qed.
End verified.

(** ** The invariant *)

Section inv.
Context {HH : Hashes} {DD : Deploy} {OK : TierOk}.
(** The content each unit was sealed with. *)
Variable C : string → tables.

(** Sealed and not destroyed. *)
Definition past (u : Unit) : Prop := u_state u ≠ Open ∧ u_state u ≠ Destroyed.
Definition clOf (u : Unit) : Class_ := classOf (u_class u).

Definition warmCopy (s : Cat) (id : string) (v : Z) (cl : Class_) (m : tables) : Prop :=
  ∀ t, t ∈ Tables cl → ∃ l, c_warm s !! (id, v, t_Name t) = Some l ∧ map snd l ≡ₚ rowsIn m (t_Name t).
Definition objectCopy (o : objects) (cl : Class_) (man : Manifest) (m : tables) : Prop :=
  ∃ todo m', objectsOf cl man = Some todo ∧ readAll o todo ∅ = Some m' ∧ sameTables cl m' m.
Definition copyOk (s : Cat) (o : objects) (cl : Class_) (id : string) (v : Z) (mr : ManifestRow) : Prop :=
  match mr_route mr with
  | Postgres => warmCopy s id v cl (C id)
  | ObjectParquet => objectCopy o cl (mr_manifest mr) (C id)
  | _ => False
  end.
(** The objects of a manifest are under its prefix. *)
Definition manKeys (man : Manifest) : Prop := ∀ mt mo, mt ∈ m_Tables man → mo ∈ mt_Objects mt →
  k_class (mo_Key mo) = m_Class man ∧ k_unit (mo_Key mo) = m_Unit man ∧ k_generation (mo_Key mo) = m_Generation man ∧ k_version (mo_Key mo) = m_Version man.
Definition contentKnown (cl : Class_) (m : tables) (d : string) : Prop := ∃ m', sameTables cl m' m ∧ digest cl m' = Some d.

Record manifestOk (s : Cat) (o : objects) (now : Z) (id : string) (u : Unit) (v : Z) (mr : ManifestRow) : Prop := {
  mk_version : firstVersion < v ≤ u_manifest_version u;
  mk_generation : mr_generation mr ≤ u_generation u;
  mk_created : mr_created_at mr ≤ now;
  mk_head : m_Unit (mr_manifest mr) = id ∧ m_Class (mr_manifest mr) = u_class u ∧ m_Generation (mr_manifest mr) = mr_generation mr ∧
            m_Version (mr_manifest mr) = v ∧ manKeys (mr_manifest mr);
  mk_next : v < u_manifest_version u → ∃ mr', c_manifests s !! (id, v + 1) = Some mr' ∧ mr_created_at mr ≤ mr_created_at mr';
  mk_copy : copyOk s o (clOf u) id v mr ∨ ∃ mr', c_manifests s !! (id, v + 1) = Some mr' ∧ mr_created_at mr' + dp_Grace ≤ now }.

Record unitOk (s : Cat) (o : objects) (now : Z) (id : string) (u : Unit) : Prop := {
  uo_class : dp_Classes !! u_class u = Some (clOf u);
  uo_rows : tablesOk (clOf u) (C id) ∧ Tierable (clOf u) = true;
  uo_digest : contentKnown (clOf u) (C id) (u_digest u);
  uo_version : firstVersion ≤ u_manifest_version u;
  uo_sealed : u_state u = Sealed → sameTables (clOf u) (readOnline (clOf u) id s) (C id) ∧ u_published_at u = None ∧ ∀ v, c_manifests s !! (id, v) = None;
  uo_published : u_state u ≠ Sealed → whole (clOf u) (C id) ∧
    (∃ pa, u_published_at u = Some pa ∧ pa ≤ now ∧ (now < pa + dp_Grace → sameTables (clOf u) (readOnline (clOf u) id s) (C id) ∧ u_state u = Published)) ∧
    ∃ mr, c_manifests s !! (id, u_manifest_version u) = Some mr ∧ mr_route mr = u_route u;
  uo_manifests : ∀ v mr, c_manifests s !! (id, v) = Some mr → manifestOk s o now id u v mr;
  uo_warm : ∀ v t l, 0 ≤ v → t ∈ Tables (clOf u) → c_warm s !! (id, v, t_Name t) = Some l → map snd l ≡ₚ rowsIn (C id) (t_Name t) }.

(** A unit that is open, or none. *)
Definition freshOk (s : Cat) (id : string) : Prop :=
  (∀ class r, c_members s !! (class, r) ≠ Some id) ∧ (∀ v t, 0 ≤ v → c_warm s !! (id, v, t) = None) ∧ (∀ v, c_manifests s !! (id, v) = None).
Definition isFresh (s : Cat) (id : string) : Prop := ∀ u, c_units s !! id = Some u → u_state u = Open.

Record catOk (s : Cat) (o : objects) (now : Z) : Prop := {
  co_units : ∀ id u, c_units s !! id = Some u → past u → unitOk s o now id u;
  co_fresh : ∀ id, isFresh s id → freshOk s id;
  co_open : ∀ id u, c_units s !! id = Some u → u_state u = Open → firstVersion ≤ u_manifest_version u ∧ u_published_at u = None;
  co_members : ∀ class r id, c_members s !! (class, r) = Some id → ∃ u, c_units s !! id = Some u ∧ u_class u = class;
  co_online : ∀ t r, r ∈ onlineRows s t → rowOk (r_row r);
  co_created : ∀ id v mr, c_manifests s !! (id, v) = Some mr → mr_created_at mr ≤ now }.

(** ** What the processes know *)

Definition pastUnit (s : Cat) (id : string) (u : Unit) : Prop := c_units s !! id = Some u ∧ past u.

Record claimOk (s : Cat) (now d : Z) (c : Claim) : Prop := {
  cl_unit : ∃ u, c_units s !! cm_Unit c = Some u ∧ u_state u ≠ Open ∧ cm_Class c = u_class u ∧ cm_Base c ≤ u_manifest_version u ∧
            cm_Generation c ≤ u_generation u ∧ (cm_State c ≠ Sealed → u_state u ≠ Sealed);
  cl_version : cm_Version c = cm_Base c + 1 ∧ firstVersion ≤ cm_Base c ∧ cm_State c ≠ Destroyed;
  cl_deadline : d ≤ now + Hour;
  cl_later : ∀ v mr, cm_Base c < v → c_manifests s !! (cm_Unit c, v) = Some mr → d ≤ mr_created_at mr + Hour }.
Definition live (s : Cat) (c : Claim) : Prop :=
  ∃ u, pastUnit s (cm_Unit c) u ∧ u_generation u = cm_Generation c ∧ u_manifest_version u = cm_Base c.
Definition digestFor (s : Cat) (c : Claim) : Prop := ∀ u, pastUnit s (cm_Unit c) u → contentKnown (clOf u) (C (cm_Unit c)) (cm_Digest c).
Definition manFor (c : Claim) (m : Manifest) : Prop :=
  m_Unit m = cm_Unit c ∧ m_Class m = cm_Class c ∧ m_Version m = cm_Version c ∧ m_Generation m = cm_Generation c ∧ m_Digest m = cm_Digest c ∧
  m_SchemaVersion m = cl_SchemaVersion (classOf (cm_Class c)) ∧ (m_Route m = Postgres ∨ m_Route m = ObjectParquet) ∧ manKeys m.
Definition present (s : Cat) (c : Claim) : Prop :=
  ∀ t, t ∈ Tables (classOf (cm_Class c)) → is_Some (c_warm s !! (cm_Unit c, cm_Version c, t_Name t)).
Definition itemFor (s : Cat) (c : Claim) (i : copyItem) : Prop :=
  match i with
  | CopyTable t rows => t ∈ Tables (classOf (cm_Class c)) ∧ ∀ u, pastUnit s (cm_Unit c) u → rows ≡ₚ rowsIn (C (cm_Unit c)) (t_Name t)
  | CopyPart _ _ _ _ => True
  end.
Definition workOk (s : Cat) (now d : Z) (c : Claim) (m : Manifest) (e : erasure) : Prop :=
  e = None ∧ claimOk s now d c ∧ digestFor s c ∧ manFor c m.
(** A reader for a rewriting: the version it reads is still there. *)
Definition readerOk (s : Cat) (now d : Z) (u : unitRoute) (g : goal) : Prop :=
  match g with
  | Rewrite c _ e => e = None ∧ claimOk s now d c ∧ cm_State c ≠ Sealed ∧ ur_id u = cm_Unit c ∧ ur_class u = cm_Class c ∧ ur_thaw u = false ∧
      ∀ x, pastUnit s (ur_id u) x → ∃ mr, c_manifests s !! (ur_id u, ur_version u) = Some mr ∧ mr_route mr = ur_route u ∧
        ∀ mr', c_manifests s !! (ur_id u, ur_version u + 1) = Some mr' → d ≤ mr_created_at mr' + Hour
  | _ => True
  end.
Definition isRewrite (g : goal) : Prop := match g with Rewrite _ _ _ => True | _ => False end.
Definition procOk (s : Cat) (o : objects) (now d : Z) (p : proc) : Prop :=
  match p with
  | TransferRead c => claimOk s now d c ∧ digestFor s c ∧
      ∀ u pa, pastUnit s (cm_Unit c) u → u_published_at u = Some pa → d ≤ pa + Hour
  | RouteOf unit (Rewrite c _ e) => e = None ∧ claimOk s now d c ∧ cm_State c ≠ Sealed ∧ cm_Unit c = unit
  | ReadManifest u g => readerOk s now d u g
  | ReadWarm u v g => readerOk s now d u g ∧ (isRewrite g → v = ur_version u ∧ ur_route u = Postgres)
  | ReadObjects u todo acc g => readerOk s now d u g ∧ (isRewrite g → ur_route u = ObjectParquet ∧
      (now ≤ d → ∀ x, pastUnit s (ur_id u) x → ∃ mr done, c_manifests s !! (ur_id u, ur_version u) = Some mr ∧
         objectsOf (clOf x) (mr_manifest mr) = Some (done ++ todo) ∧ readAll o done ∅ = Some acc))
  | Copying c m todo e => workOk s now d c m e ∧ (∀ i, i ∈ todo → itemFor s c i) ∧
      (m_Route m = Postgres → live s c →
         ∀ t, t ∈ Tables (classOf (cm_Class c)) → is_Some (c_warm s !! (cm_Unit c, cm_Version c, t_Name t)) ∨ ∃ rows, CopyTable t rows ∈ todo)
  | PutManifest c m e => workOk s now d c m e ∧ m_Route m = ObjectParquet
  | Verifying c m todo acc reads e => workOk s now d c m e ∧
      (now ≤ d → live s c → ∃ done, verifyItems (classOf (cm_Class c)) m = Some (done ++ todo) ∧
         (m_Route m = Postgres → present s c ∧ Forall rowOk (map snd acc) ∧ readsOk reads ∧ Forall (λ p, p.1 ∈ Tables (classOf (cm_Class c))) reads) ∧
         (m_Route m = ObjectParquet → replay o done [] [] = Some (acc, reads)))
  | Publishing c m e => workOk s now d c m e ∧
      (now ≤ d → live s c → whole (classOf (cm_Class c)) (C (cm_Unit c)) ∧ (m_Route m = Postgres → present s c) ∧
         (m_Route m = ObjectParquet → objectCopy o (classOf (cm_Class c)) m (C (cm_Unit c))))
  | DeletingOnline unit class del => ∃ u, c_units s !! unit = Some u ∧ class = u_class u ∧ u_state u ≠ Open ∧
      (past u → (u_state u ≠ Sealed ∧ del ≠ Purging) ∧ ∀ pa, u_published_at u = Some pa → pa + dp_Grace ≤ now)
  | PurgeRows unit _ | PurgeList unit _ => ∃ u, c_units s !! unit = Some u ∧ u_state u = Destroyed
  | DeletingObjects todo => ∀ k, k ∈ todo → ∃ u, c_units s !! k_unit k = Some u ∧ u_state u = Destroyed
  | DestroyDecide unit class _ => ∃ u, c_units s !! unit = Some u ∧ class = u_class u ∧ u_state u ≠ Open
  | EraseStep _ _ _ _ _ => False
  | DeletingOld unit class olds keys => ∃ u, c_units s !! unit = Some u ∧ u_state u ≠ Open ∧
      (past u → ∀ v r g, (v, r, g) ∈ olds → ∃ mr', c_manifests s !! (unit, v + 1) = Some mr' ∧ mr_created_at mr' + dp_Grace ≤ now) ∧
      match keys with Some ks => ∀ k, k ∈ ks → k_unit k = unit ∧ ∃ v r g olds', olds = (v, r, g) :: olds' ∧ k_version k = v | None => True end
  | CleanList class unit window named | CleanObjects class unit window named _ => window = orphanWindow ∧ d ≤ now + 6 * Hour ∧
      (∀ id u v mr, pastUnit s id u → u_class u = class → unit = "" ∨ id = unit → c_manifests s !! (id, v) = Some mr →
         (id, mr_generation mr, v) ∈ named ∨ d ≤ mr_created_at mr + 6 * Hour) ∧
      match p with CleanObjects _ _ _ _ todo => ∀ k a, (k, a) ∈ todo → k_class k = class ∧ (unit = "" ∨ k_unit k = unit) | _ => True end
  | _ => True
  end.

(** ** When objects were written *)

Definition goalClaim (g : goal) : option Claim := match g with Rewrite c _ _ => Some c | _ => None end.
Definition claimOf (p : proc) : option Claim :=
  match p with
  | TransferRead c | Copying c _ _ _ | PutManifest c _ _ | Verifying c _ _ _ _ _ | Publishing c _ _ => Some c
  | RouteOf _ g | ReadManifest _ g | ReadWarm _ _ g | ReadObjects _ _ _ g => goalClaim g
  | _ => None
  end.
Definition listing (p : proc) : list (okey * Z) := match p with CleanObjects _ _ _ _ todo => todo | _ => [] end.
Definition stampOk (s : Cat) (ps : gmap nat (Z * proc)) (k : okey) (a : Z) : Prop :=
  (∃ u, c_units s !! k_unit k = Some u ∧ u_state u ≠ Open ∧ k_generation k ≤ u_generation u) ∧
  (∀ v mr, c_manifests s !! (k_unit k, v) = Some mr → mr_generation mr = k_generation k → mr_created_at mr ≤ a + Hour) ∧
  ∀ i d p c, ps !! i = Some (d, p) → claimOf p = Some c → cm_Unit c = k_unit k → cm_Generation c = k_generation k → d ≤ a + Hour.

Record worldOk (w : World) : Prop := {
  wo_cat : catOk (w_cat w) (w_objects w) (w_now w);
  wo_procs : ∀ i d p, w_procs w !! i = Some (d, p) → procOk (w_cat w) (w_objects w) (w_now w) d p;
  wo_objects : ∀ k data a, w_objects w !! k = Some (data, a) → stampOk (w_cat w) (w_procs w) k a;
  wo_listed : ∀ i d p k a, w_procs w !! i = Some (d, p) → (k, a) ∈ listing p → stampOk (w_cat w) (w_procs w) k a }.
End inv.
