(* ===== verification/TierKept.v ===== *)
(** * Tiering: moves that keep the invariant

    Time passes, the catalog moves on, objects come and go, processes are replaced: what of
    this keeps the invariant of [TierInv]; then the runs of the catalog's transactions,
    claims and the copies' rows. *)
From S2P Require Import Prelude GoStr Canon CanonProps TierPlan TierRows TierRead TierStore TierSys TierSame TierInv.
From Stdlib Require Import Ascii String.
Open Scope string_scope.
Open Scope Z_scope.
Open Scope list_scope.

Section frames.
Context {HH : Hashes} {DD : Deploy} {OK : TierOk}.
Variable C : string → tables.

(** ** Time *)

Lemma copyOk_time s o now now' id u v mr : now ≤ now' → manifestOk C s o now id u v mr → manifestOk C s o now' id u v mr.
Proof.
  intros Hle [H1 H2 H3 H4 H5 H6]. constructor; [done|done|lia|done|done|]. destruct H6 as [H6|(mr' & Hm & Hg)]; [by left|right]. exists mr'. split; [done|lia].
Qed.
Lemma unitOk_time s o now now' id u : now ≤ now' → unitOk C s o now id u → unitOk C s o now' id u.
Proof.
  intros Hle [H1 H2 H3 H4 H5 H6 H7 H8]. constructor; [done..| | |done].
  - intros Hs. destruct (H6 Hs) as (Hw & (pa & Hp & Hpa & Hg) & Hm). split; [done|]. split; [|done]. exists pa. split; [done|]. split; [lia|].
    intros Hlt. apply Hg. lia.
  - intros v mr Hm. eapply copyOk_time; [done|]. by apply H7.
Qed.
Lemma claimOk_time s now now' d c : now ≤ now' → claimOk s now d c → claimOk s now' d c.
Proof. intros Hle [H1 H2 H3 H4]. constructor; [done|done|lia|done]. Qed.
Lemma workOk_time s now now' d c m e : now ≤ now' → workOk C s now d c m e → workOk C s now' d c m e.
Proof. intros Hle (H1 & H2 & H3 & H4). split; [done|]. split; [by eapply claimOk_time|]. done. Qed.
Lemma readerOk_time s now now' d u g : now ≤ now' → readerOk s now d u g → readerOk s now' d u g.
Proof. intros Hle. destruct g; cbn; [|done..]. intros (H1 & H2 & H3). split; [done|]. split; [by eapply claimOk_time|done]. Qed.
Lemma procOk_time s o now now' d p : now ≤ now' → procOk C s o now d p → procOk C s o now' d p.
Proof.
  intros Hle. destruct p; cbn; try done.
  - intros (H1 & H2 & H3). split; [by eapply claimOk_time|done].
  - destruct g; [|done..]. intros (H1 & H2 & H3). split; [done|]. split; [by eapply claimOk_time|done].
  - by apply readerOk_time.
  - intros [H1 H2]. split; [by eapply readerOk_time|done].
  - intros [H1 H2]. split; [by eapply readerOk_time|]. intros Hr. destruct (H2 Hr) as [H3 H4]. split; [done|]. intros Hd. apply H4. lia.
  - intros (H1 & H2). split; [by eapply workOk_time|done].
  - intros (H1 & H2). split; [by eapply workOk_time|done].
  - intros (H1 & H2). split; [by eapply workOk_time|]. intros Hd. apply H2. lia.
  - intros (H1 & H2). split; [by eapply workOk_time|]. intros Hd. apply H2. lia.
  - intros (u & H1 & H2 & H3 & H4). exists u. split_and!; [done..|]. intros Hp. destruct (H4 Hp) as [H5 H6]. split; [done|]. intros pa Hpa. specialize (H6 pa Hpa). lia.
  - intros (u & H1 & H2 & H3 & H4). exists u. split_and!; [done..| |done]. intros Hp v r g Hin. destruct (H3 Hp v r g Hin) as (mr & ? & ?). exists mr. split; [done|lia].
  - intros (H1 & H2 & H3). split; [done|]. split; [lia|done].
  - intros (H1 & H2 & H3). split; [done|]. split; [lia|done].
Qed.
Lemma world_tick s o now now' ps : now ≤ now' → worldOk C (MkWorld s o now ps) → worldOk C (MkWorld s o now' ps).
Proof.
  intros Hle [[H1 H2 H3 H4 H5 H5'] H6 H7 H8]. constructor; cbn in *; [constructor; try done|..]; try done.
  - intros id u Hu Hp. eapply unitOk_time; [done|]. by apply H1.
  - intros id v mr Hm. specialize (H5' id v mr Hm). lia.
  - intros i d p Hi. eapply procOk_time; [done|]. by eapply H6.
Qed.

(** ** The catalog moves on *)

Definition sameRow (a b : ManifestRow) : Prop :=
  mr_route a = mr_route b ∧ mr_generation a = mr_generation b ∧ mr_manifest a = mr_manifest b ∧ mr_created_at a = mr_created_at b.
Definition onwards (now : Z) (u u' : Unit) : Prop :=
  u_class u' = u_class u ∧ u_generation u ≤ u_generation u' ∧ u_manifest_version u ≤ u_manifest_version u' ∧ (u_state u ≠ Open → u_state u' ≠ Open) ∧
  (u_state u = Destroyed → u_state u' = Destroyed) ∧ (u_state u ≠ Open → u_state u ≠ Sealed → u_state u' ≠ Sealed) ∧
  ∀ pa, u_published_at u' = Some pa → u_published_at u = Some pa ∨ (pa = now ∧ u_state u = Sealed).
Record adv (now : Z) (s s' : Cat) : Prop := {
  ad_unit : ∀ id u, c_units s !! id = Some u → ∃ u', c_units s' !! id = Some u' ∧ onwards now u u';
  ad_man : ∀ id v mr, c_manifests s !! (id, v) = Some mr → ∃ mr', c_manifests s' !! (id, v) = Some mr' ∧ sameRow mr mr';
  ad_new : ∀ id v mr', c_manifests s' !! (id, v) = Some mr' →
    (∃ mr, c_manifests s !! (id, v) = Some mr ∧ sameRow mr mr') ∨
    (c_manifests s !! (id, v) = None ∧ mr_created_at mr' = now ∧ ∃ u, c_units s !! id = Some u ∧ u_manifest_version u < v);
  ad_keep : ∀ id u', pastUnit s' id u' → ∀ t,
    is_Some (c_warm s !! (id, u_manifest_version u' + 1, t)) → is_Some (c_warm s' !! (id, u_manifest_version u' + 1, t)) }.

Lemma onwards_refl now u : onwards now u u.
Proof. unfold onwards. split_and!; (done || lia || auto). Qed.

Section adv.
Context (now : Z) (s s' : Cat) (o : objects) (Hadv : adv now s s') (Hcat : catOk C s o now).

Lemma past_back id u u' : c_units s !! id = Some u → u_state u ≠ Open → pastUnit s' id u' → pastUnit s id u ∧ u_class u' = u_class u ∧ onwards now u u'.
Proof.
  intros Hu Ho [Hu' [Hp1 Hp2]]. destruct (ad_unit _ _ _ Hadv _ _ Hu) as (x & Hx & Hon). rewrite Hu' in Hx. injection Hx as <-.
  split; [|split; [apply Hon|done]]. split; [done|]. split; [done|]. intros Hd. apply Hp2. by apply Hon.
Qed.
Lemma man_back id v mr' : c_manifests s' !! (id, v) = Some mr' → (∃ mr, c_manifests s !! (id, v) = Some mr ∧ sameRow mr mr') ∨
  mr_created_at mr' = now.
Proof. intros Hm. destruct (ad_new _ _ _ Hadv _ _ _ Hm) as [?|(_ & ? & _)]; auto. Qed.

Lemma claimOk_adv d c : claimOk s now d c → claimOk s' now d c.
Proof.
  intros [(u & Hu & Ho & Hc & Hb & Hg & Hs) H2 H3 H4]. destruct (ad_unit _ _ _ Hadv _ _ Hu) as (u' & Hu' & On). destruct On as (E1 & E2 & E3 & E4 & E5 & E6 & _).
  constructor; [|done|done|].
  - exists u'. split; [done|]. split; [by apply E4|]. split; [congruence|]. split; [lia|]. split; [lia|]. intros Hst. apply E6; [done|]. by apply Hs.
  - intros v mr' Hv Hm. destruct (man_back _ _ _ Hm) as [(mr & Hmr & _ & _ & _ & <-)| ->]; [by eapply H4|lia].
Qed.
Lemma claim_past d c u' : claimOk s now d c → pastUnit s' (cm_Unit c) u' → ∃ u, pastUnit s (cm_Unit c) u ∧ u_class u' = u_class u ∧ u_class u = cm_Class c ∧ onwards now u u'.
Proof. intros [(u & Hu & Ho & Hc & _) _ _ _] Hp. destruct (past_back _ _ _ Hu Ho Hp) as (H1 & H2 & H3). by exists u. Qed.
Lemma digestFor_adv d c : claimOk s now d c → digestFor C s c → digestFor C s' c.
Proof.
  intros Hc Hd u' Hp. destruct (claim_past _ _ _ Hc Hp) as (u & Hu & He & _). unfold clOf. rewrite He. by apply Hd.
Qed.
Lemma live_adv d c : claimOk s now d c → live s' c → live s c.
Proof.
  intros Hc (u' & Hp & Hg & Hv). destruct (claim_past _ _ _ Hc Hp) as (u & Hu & _ & _ & On). destruct On as (_ & E2 & E3 & _).
  destruct Hc as [(x & Hx & _ & _ & Hb & Hgx & _) _ _ _]. destruct Hu as [Hu Hpu]. rewrite Hu in Hx. injection Hx as <-.
  exists u. split; [done|]. split; lia.
Qed.
Lemma warm_adv d c t : claimOk s now d c → live s' c → is_Some (c_warm s !! (cm_Unit c, cm_Version c, t)) → is_Some (c_warm s' !! (cm_Unit c, cm_Version c, t)).
Proof.
  intros [_ [Hv _] _ _] (u' & Hp & _ & Hb). rewrite Hv, <- Hb. by apply (ad_keep _ _ _ Hadv).
Qed.
Lemma workOk_adv d c m e : workOk C s now d c m e → workOk C s' now d c m e.
Proof. intros (H1 & H2 & H3 & H4). split; [done|]. split; [by apply claimOk_adv|]. split; [by eapply digestFor_adv|done]. Qed.
Lemma readerOk_adv d u g : readerOk s now d u g → readerOk s' now d u g.
Proof.
  destruct g as [c route e|ttl|root]; cbn; [|done..]. intros (H1 & H2 & H3 & H4 & H5 & H6 & H7). split; [done|]. split; [by apply claimOk_adv|].
  split_and!; [done..|]. intros x' Hx. rewrite H4 in Hx. destruct (claim_past _ _ _ H2 Hx) as (x & Hxs & _). rewrite H4 in H7 |- *.
  destruct (H7 x Hxs) as (mr & Hm & Hr & Hn). destruct (ad_man _ _ _ Hadv _ _ _ Hm) as (mr' & Hm' & Hs). exists mr'. split; [done|].
  split; [destruct Hs as [<- _]; done|]. intros mr2 Hm2. destruct (man_back _ _ _ Hm2) as [(mr1 & Hm1 & _ & _ & _ & <-)| ->]; [by apply Hn|].
  destruct H2 as [_ _ ? _]. lia.
Qed.

Lemma man_unit id v mr : c_manifests s !! (id, v) = Some mr → ∃ u, c_units s !! id = Some u ∧ u_state u ≠ Open.
Proof.
  intros Hm. destruct (c_units s !! id) as [u|] eqn:Hu.
  - exists u. split; [done|]. intros Ho. destruct (co_fresh _ _ _ _ Hcat id) as (_ & _ & Hn); [intros x Hx; by simplify_eq|]. by rewrite Hn in Hm.
  - exfalso. destruct (co_fresh _ _ _ _ Hcat id) as (_ & _ & Hn); [intros x Hx; by simplify_eq|]. by rewrite Hn in Hm.
Qed.
Lemma named_adv d class unit (named : list (string * Z * Z)) :
  d ≤ now + 6 * Hour →
  (∀ id u v mr, pastUnit s id u → u_class u = class → unit = "" ∨ id = unit → c_manifests s !! (id, v) = Some mr →
     (id, mr_generation mr, v) ∈ named ∨ d ≤ mr_created_at mr + 6 * Hour) →
  ∀ id u v mr, pastUnit s' id u → u_class u = class → unit = "" ∨ id = unit → c_manifests s' !! (id, v) = Some mr →
     (id, mr_generation mr, v) ∈ named ∨ d ≤ mr_created_at mr + 6 * Hour.
Proof.
  intros Hd Hn id u' v mr' Hp Hc Hid Hm. destruct (man_back _ _ _ Hm) as [(mr & Hmr & _ & Hg & _ & Hcr)| ->]; [|right; lia].
  destruct (man_unit _ _ _ Hmr) as (u & Hu & Ho). destruct (past_back _ _ _ Hu Ho Hp) as (Hpu & He & _). rewrite <- Hg, <- Hcr.
  apply (Hn id u v mr Hpu); [congruence|done|done].
Qed.

Lemma procOk_adv d p : procOk C s o now d p → procOk C s' o now d p.
Proof.
  destruct p; cbn [procOk]; try done.
  - intros (H1 & H2 & H3). split; [by apply claimOk_adv|]. split; [by eapply digestFor_adv|]. intros u' pa Hp Hpa.
    destruct (claim_past _ _ _ H1 Hp) as (u & Hu & _ & _ & On). destruct On as (_ & _ & _ & _ & _ & _ & On).
    destruct (On pa Hpa) as [Hpa'|[-> _]]; [by eapply H3|]. by destruct H1 as [_ _ ? _].
  - destruct g; [|done..]. intros (H1 & H2 & H3). split; [done|]. split; [by apply claimOk_adv|done].
  - by apply readerOk_adv.
  - intros [H1 H2]. split; [by apply readerOk_adv|done].
  - intros [H1 H2]. split; [by apply readerOk_adv|]. intros Hr. destruct (H2 Hr) as [H3 H4]. split; [done|]. intros Hd x' Hx.
    destruct g as [c route e|ttl|root]; [|done..]. cbn in H1. destruct H1 as (_ & H5 & _ & H6 & _). rewrite H6 in Hx.
    destruct (claim_past _ _ _ H5 Hx) as (x & Hxs & He & _). rewrite <- H6 in Hxs. destruct (H4 Hd x Hxs) as (mr & done & Hm & Ho & Hra).
    destruct (ad_man _ _ _ Hadv _ _ _ Hm) as (mr' & Hm' & _ & _ & Hman & _). exists mr', done. unfold clOf in *. rewrite He, <- Hman. done.
  - intros (H1 & H2 & H3). split; [by apply workOk_adv|]. destruct H1 as (_ & Hc & _). split.
    + intros i Hi. specialize (H2 i Hi). destruct i as [t rows|]; [|done]. destruct H2 as [Ht Hr]. split; [done|]. intros u' Hp.
      destruct (claim_past _ _ _ Hc Hp) as (u & Hu & _). by eapply Hr.
    + intros Hr Hl t Ht. destruct (H3 Hr (live_adv _ _ Hc Hl) t Ht) as [Hw|?]; [left|by right]. by eapply warm_adv.
  - intros (H1 & H2). split; [by apply workOk_adv|done].
  - intros (H1 & H2). split; [by apply workOk_adv|]. destruct H1 as (_ & Hc & _). intros Hd Hl.
    destruct (H2 Hd (live_adv _ _ Hc Hl)) as (done & Hv & Hpg & Hob). exists done. split; [done|]. split; [|done].
    intros Hr. destruct (Hpg Hr) as (Hpr & Hrest). split; [|done]. intros t Ht. eapply warm_adv; [done|done|]. by apply Hpr.
  - intros (H1 & H2). split; [by apply workOk_adv|]. destruct H1 as (_ & Hc & _). intros Hd Hl.
    destruct (H2 Hd (live_adv _ _ Hc Hl)) as (Hw & Hpg & Hob). split; [done|]. split; [|done]. intros Hr t Ht. eapply warm_adv; [done|done|]. by apply Hpg.
  - intros (u & Hu & Hc & Ho & Hp). destruct (ad_unit _ _ _ Hadv _ _ Hu) as (u' & Hu' & On). pose proof On as (E1 & E2 & E3 & E4 & E5 & E6 & E7).
    exists u'. split; [done|]. split; [congruence|]. split; [by apply E4|]. intros Hpu'.
    destruct (past_back _ _ _ Hu Ho (conj Hu' Hpu')) as ([_ Hpu] & _). destruct (Hp Hpu) as [[Hs Hdel] Hpa]. split; [split; [by apply E6|done]|].
    intros pa Hq. destruct (E7 pa Hq) as [?|[_ ?]]; [by apply Hpa|done].
  - intros (u & Hu & Hd). destruct (ad_unit _ _ _ Hadv _ _ Hu) as (u' & Hu' & (_ & _ & _ & _ & E5 & _)). exists u'. split; [done|]. by apply E5.
  - intros (u & Hu & Hd). destruct (ad_unit _ _ _ Hadv _ _ Hu) as (u' & Hu' & (_ & _ & _ & _ & E5 & _)). exists u'. split; [done|]. by apply E5.
  - intros Hk k Hin. destruct (Hk k Hin) as (u & Hu & Hd). destruct (ad_unit _ _ _ Hadv _ _ Hu) as (u' & Hu' & (_ & _ & _ & _ & E5 & _)). exists u'.
    split; [done|]. by apply E5.
  - intros (u & Hu & Hc & Ho). destruct (ad_unit _ _ _ Hadv _ _ Hu) as (u' & Hu' & (E1 & _ & _ & E4 & _)). exists u'. split; [done|]. split; [congruence|by apply E4].
  - intros (u & Hu & Ho & Hp & Hk). destruct (ad_unit _ _ _ Hadv _ _ Hu) as (u' & Hu' & (_ & _ & _ & E4 & _)). exists u'. split; [done|].
    split; [by apply E4|]. split; [|done]. intros Hpu' v r g Hin. destruct (past_back _ _ _ Hu Ho (conj Hu' Hpu')) as ([_ Hpu] & _).
    destruct (Hp Hpu v r g Hin) as (mr & Hm & Hg). destruct (ad_man _ _ _ Hadv _ _ _ Hm) as (mr' & Hm' & _ & _ & _ & Hc'). exists mr'.
    by rewrite <- Hc'.
  - intros (H1 & H2 & H3 & H4). split; [done|]. split; [done|]. split; [|done]. by apply named_adv.
  - intros (H1 & H2 & H3 & H4). split; [done|]. split; [done|]. split; [|done]. by apply named_adv.
Qed.

Lemma stampOk_adv ps k a : stampOk s ps k a →
  (∀ v mr', c_manifests s !! (k_unit k, v) = None → c_manifests s' !! (k_unit k, v) = Some mr' → mr_generation mr' = k_generation k → now ≤ a + Hour) →
  stampOk s' ps k a.
Proof.
  intros ((u & Hu & Ho & Hg) & H2 & H3) Hnew. destruct (ad_unit _ _ _ Hadv _ _ Hu) as (u' & Hu' & (_ & E2 & _ & E4 & _)). split.
  { exists u'. split; [done|]. split; [by apply E4|]. lia. }
  split; [|done]. intros v mr' Hm Hgen. destruct (ad_new _ _ _ Hadv _ _ _ Hm) as [(mr & Hmr & _ & Hg' & _ & <-)|(Hnone & -> & _)].
  - eapply H2; [done|congruence].
  - by eapply Hnew.
Qed.
End adv.

(** A transaction that moves the catalog on. *)
Lemma world_cat now s s' o ps : worldOk C (MkWorld s o now ps) → adv now s s' → catOk C s' o now →
  (∀ id v mr', c_manifests s !! (id, v) = None → c_manifests s' !! (id, v) = Some mr' →
     ∃ i d p c, ps !! i = Some (d, p) ∧ claimOf p = Some c ∧ cm_Unit c = id ∧ cm_Generation c = mr_generation mr' ∧ now ≤ d) →
  worldOk C (MkWorld s' o now ps).
Proof.
  intros [H1 H2 H3 H4] Hadv Hcat Hnew. cbn in *.
  assert (Hst : ∀ k a, stampOk s ps k a → stampOk s' ps k a).
  { intros k a Hk. apply (stampOk_adv now s s' Hadv); [done|]. intros v mr' Hn Hm Hg. destruct (Hnew _ _ _ Hn Hm) as (i & d & p & c & Hi & Hc & Hcu & Hcg & Hd).
    destruct Hk as (_ & _ & Hk). assert (d ≤ a + Hour) by (eapply Hk; [done|done|done|congruence]). lia. }
  constructor; cbn; [done|..].
  - intros i d p Hi. eapply procOk_adv; [done|done|]. by eapply H2.
  - intros k data a Hk. apply Hst. by eapply H3.
  - intros i d p k a Hi Hk. apply Hst. by eapply H4.
Qed.

(** ** A process is replaced *)

(** An object that is there or that a cleanup has listed. *)
Definition recorded (o : objects) (ps : gmap nat (Z * proc)) (k : okey) (a : Z) : Prop :=
  (∃ data, o !! k = Some (data, a)) ∨ ∃ i d p, ps !! i = Some (d, p) ∧ (k, a) ∈ listing p.
Lemma recorded_stamp s o now ps k a : worldOk C (MkWorld s o now ps) → recorded o ps k a → stampOk s ps k a.
Proof. intros [_ _ H3 H4] [[data Hk]|(i & d & p & Hi & Hk)]; [by eapply H3|by eapply H4]. Qed.
Lemma world_proc now s o ps i d p' : worldOk C (MkWorld s o now ps) → procOk C s o now d p' →
  (∀ c, claimOf p' = Some c → (∃ p c0, ps !! i = Some (d, p) ∧ claimOf p = Some c0 ∧ cm_Unit c0 = cm_Unit c ∧ cm_Generation c0 = cm_Generation c) ∨
     (∀ k a, recorded o ps k a → k_unit k = cm_Unit c → k_generation k < cm_Generation c)) →
  (∀ k a, (k, a) ∈ listing p' → recorded o ps k a) →
  worldOk C (MkWorld s o now (<[i := (d, p')]> ps)).
Proof.
  intros Hw Hp Hc Hl.
  assert (Hst : ∀ k a, recorded o ps k a → stampOk s (<[i := (d, p')]> ps) k a).
  { intros k a Hk. pose proof (recorded_stamp _ _ _ _ _ _ Hw Hk) as (Hu & Hm & Hpr). split; [done|]. split; [done|]. intros j d' q c Hj Hcq Hcu Hcg.
    destruct (decide (i = j)) as [<-|Hij].
    - rewrite lookup_insert_eq in Hj. injection Hj as <- <-. destruct (Hc c Hcq) as [(p & c0 & Hip & Hcp & E1 & E2)|Hlt].
      + eapply Hpr; [done|done|congruence|congruence].
      + specialize (Hlt k a Hk (eq_sym Hcu)). lia.
    - rewrite lookup_insert_ne in Hj by done. by eapply Hpr. }
  destruct Hw as [H1 H2 H3 H4]. cbn in *. constructor; cbn; [done|..].
  - intros j d' q Hj. destruct (decide (i = j)) as [<-|Hij]; [rewrite lookup_insert_eq in Hj; by injection Hj as <- <-|].
    rewrite lookup_insert_ne in Hj by done. by eapply H2.
  - intros k data a Hk. apply Hst. left. by exists data.
  - intros j d' q k a Hj Hk. apply Hst. destruct (decide (i = j)) as [<-|Hij]; [rewrite lookup_insert_eq in Hj; injection Hj as <- <-; by apply Hl|].
    rewrite lookup_insert_ne in Hj by done. right. by exists j, d', q.
Qed.
Lemma world_crash now s o ps i : worldOk C (MkWorld s o now ps) → worldOk C (MkWorld s o now (delete i ps)).
Proof.
  intros [H1 H2 H3 H4]. cbn in *.
  assert (Hst : ∀ k a, stampOk s ps k a → stampOk s (delete i ps) k a).
  { intros k a (Hu & Hm & Hpr). split; [done|]. split; [done|]. intros j d q c [_ Hj]%lookup_delete_Some. by eapply Hpr. }
  constructor; cbn; [done|..].
  - intros j d q [_ Hj]%lookup_delete_Some. by eapply H2.
  - intros k data a Hk. apply Hst. by eapply H3.
  - intros j d q k a [_ Hj]%lookup_delete_Some Hk. apply Hst. by eapply H4.
Qed.
End frames.

Section store.
Context {HH : Hashes} {DD : Deploy} {OK : TierOk}.
Variable C : string → tables.

(** ** The object store *)

Lemma Hour_pos : 0 < Hour.
Proof. by vm_compute. Qed.

Lemma proc_claim s o now d p c : procOk C s o now d p → claimOf p = Some c → claimOk s now d c.
Proof.
  destruct p; cbn [procOk claimOf]; try done.
  - intros (? & _) [= <-]. done.
  - destruct g; cbn; [|done..]. intros (_ & ? & _) [= <-]. done.
  - destruct g; cbn; [|done..]. intros (_ & ? & _) [= <-]. done.
  - destruct g; cbn; [|done..]. intros ((_ & ? & _) & _) [= <-]. done.
  - destruct g; cbn; [|done..]. intros ((_ & ? & _) & _) [= <-]. done.
  - intros ((_ & ? & _) & _) [= <-]. done.
  - intros ((_ & ? & _) & _) [= <-]. done.
  - intros ((_ & ? & _) & _) [= <-]. done.
  - intros ((_ & ? & _) & _) [= <-]. done.
Qed.

Lemma readAll_mono (o o' : objects) todo acc m : o ⊆ o' → readAll o todo acc = Some m → readAll o' todo acc = Some m.
Proof.
  intros Hs. revert acc. induction todo as [|[t mo] todo IH]; intros acc; [done|]. cbn. destruct (o !! mo_Key mo) as [[data lm]|] eqn:Hk; cbn; [|done].
  rewrite (lookup_weaken _ _ _ _ Hk Hs). cbn. case_decide; [|done]. destruct (ReadParquet t data); cbn; [apply IH|done].
Qed.
Lemma replay_mono (o o' : objects) items acc reads r : o ⊆ o' → replay o items acc reads = Some r → replay o' items acc reads = Some r.
Proof.
  intros Hs. revert acc reads. induction items as [|[t mo|t|t n] items IH]; intros acc reads; cbn; [done| |done|].
  - unfold getRows. destruct (o !! mo_Key mo) as [[data lm]|] eqn:Hk; [|done]. rewrite (lookup_weaken _ _ _ _ Hk Hs). case_decide; [|done].
    destruct (_ ≫= _); [apply IH|done].
  - case_decide; [apply IH|done].
Qed.
Lemma objectCopy_mono (o o' : objects) cl man m : o ⊆ o' → objectCopy o cl man m → objectCopy o' cl man m.
Proof. intros Hs (todo & m' & H1 & H2 & H3). exists todo, m'. split; [done|]. split; [by eapply readAll_mono|done]. Qed.

Lemma unitOk_copies s o o' now id u : unitOk C s o now id u →
  (∀ v mr, c_manifests s !! (id, v) = Some mr → mr_route mr = ObjectParquet → objectCopy o (clOf u) (mr_manifest mr) (C id) →
     objectCopy o' (clOf u) (mr_manifest mr) (C id) ∨ ∃ mr', c_manifests s !! (id, v + 1) = Some mr' ∧ mr_created_at mr' + dp_Grace ≤ now) →
  unitOk C s o' now id u.
Proof.
  intros [H1 H2 H3 H4 H5 H6 H7 H8] Hc. constructor; [done..| |done]. intros v mr Hm. destruct (H7 v mr Hm) as [M1 M2 M3 M4 M5 M6].
  constructor; [done..|]. destruct M6 as [M6|?]; [|by right]. unfold copyOk in *. destruct (mr_route mr) eqn:Hr; try (by left). by eapply Hc.
Qed.

Lemma world_put now s o ps k data i d p c : worldOk C (MkWorld s o now ps) → o !! k = None → ps !! i = Some (d, p) → claimOf p = Some c →
  k_unit k = cm_Unit c → k_generation k = cm_Generation c → worldOk C (MkWorld s (<[k := (data, now)]> o) now ps).
Proof.
  intros [H1 H2 H3 H4] Hk Hi Hc Hku Hkg. cbn in *. assert (Hsub : o ⊆ <[k := (data, now)]> o) by (by apply insert_subseteq).
  constructor; cbn.
  - destruct H1 as [C1 C2 C3 C4 C5 C6]. constructor; try done. intros id u Hu Hp. eapply unitOk_copies; [by apply C1|].
    intros v mr Hm Hr Ho. left. by eapply objectCopy_mono.
  - intros j d' q Hj. specialize (H2 j d' q Hj). destruct q; try exact H2; cbn [procOk] in *.
    + destruct H2 as [R1 R2]. split; [done|]. intros Hr. destruct (R2 Hr) as [R3 R4]. split; [done|]. intros Hd x Hx.
      destruct (R4 Hd x Hx) as (mr & done & ? & ? & ?). exists mr, done. split; [done|]. split; [done|]. by eapply readAll_mono.
    + destruct H2 as [W1 W2]. split; [done|]. intros Hd Hl. destruct (W2 Hd Hl) as (done & ? & ? & Hrep). exists done. split; [done|]. split; [done|].
      intros Hr. eapply replay_mono; [done|]. by apply Hrep.
    + destruct H2 as [W1 W2]. split; [done|]. intros Hd Hl. destruct (W2 Hd Hl) as (? & ? & Hrep). split; [done|]. split; [done|].
      intros Hr. eapply objectCopy_mono; [done|]. by apply Hrep.
  - intros k' data' a Hk'. destruct (decide (k = k')) as [<-|Hne].
    + rewrite lookup_insert_eq in Hk'. injection Hk' as <- <-. destruct (proc_claim _ _ _ _ _ _ (H2 _ _ _ Hi) Hc) as [(u & Hu & Ho & _ & _ & Hg & _) _ _ _]. split.
      { exists u. rewrite Hku, Hkg. done. }
      split; [intros v mr Hm _; pose proof (co_created _ _ _ _ H1 _ _ _ Hm); pose proof Hour_pos; lia|].
      intros j d' q c' Hj Hcq _ _. destruct (proc_claim _ _ _ _ _ _ (H2 _ _ _ Hj) Hcq). lia.
    + rewrite lookup_insert_ne in Hk' by done. by eapply H3.
  - done.
Qed.

(** An object nobody needs any more. *)
Definition unneeded (s : Cat) (ps : gmap nat (Z * proc)) (now : Z) (k : okey) : Prop :=
  (∀ u v mr, pastUnit s (k_unit k) u → c_manifests s !! (k_unit k, v) = Some mr → mr_generation mr = k_generation k → v = k_version k → u_class u = k_class k →
     ∃ mr', c_manifests s !! (k_unit k, v + 1) = Some mr' ∧ mr_created_at mr' + dp_Grace ≤ now) ∧
  ∀ i d p c, ps !! i = Some (d, p) → claimOf p = Some c → cm_Unit c = k_unit k → cm_Generation c = k_generation k → cm_Version c = k_version k → now ≤ d → ¬ live s c.

Lemma objectsOf_named cl man todo t mo : objectsOf cl man = Some todo → (t, mo) ∈ todo → ∃ mt, mt ∈ m_Tables man ∧ mo ∈ mt_Objects mt.
Proof.
  unfold objectsOf. destruct (allOk _ (m_Tables man)) as [l|] eqn:Hl; [|done]. cbn [mbind option_bind]. intros [= <-]. apply allOk_iff in Hl.
  intros Hin. apply list_elem_of_In, in_concat in Hin as (x & Hx & Hin). apply list_elem_of_In, list_elem_of_lookup in Hx as [i Hx].
  destruct (Forall2_lookup_r _ _ _ _ _ Hl Hx) as (mt & Hmt & He). destruct (tableOf cl (mt_Name mt)); [|done]. cbn in He. injection He as <-.
  apply list_elem_of_In, list_elem_of_fmap in Hin as (mo' & [= _ <-] & Hin). exists mt. split; [by eapply list_elem_of_lookup_2|done].
Qed.
Lemma verifyItems_named cl man items i k : verifyItems cl man = Some items → i ∈ items → itemKey i = Some k →
  ∃ mt mo, mt ∈ m_Tables man ∧ mo ∈ mt_Objects mt ∧ mo_Key mo = k.
Proof.
  unfold verifyItems. destruct (allOk _ (m_Tables man)) as [l|] eqn:Hl; [|done]. cbn [mbind option_bind]. intros [= <-]. apply allOk_iff in Hl.
  intros Hin Hk. apply list_elem_of_In, in_concat in Hin as (x & Hx & Hin). apply list_elem_of_In, list_elem_of_lookup in Hx as [j Hx].
  destruct (Forall2_lookup_r _ _ _ _ _ Hl Hx) as (mt & Hmt & He). destruct (tableOf cl (mt_Name mt)); [|done]. cbn [mbind option_bind] in He. injection He as <-.
  apply list_elem_of_In, elem_of_app in Hin as [Hin|Hin%list_elem_of_singleton]; [|by subst].
  exists mt. destruct (m_Route man); try (by apply elem_of_nil in Hin).
  - apply list_elem_of_singleton in Hin. by subst.
  - apply list_elem_of_fmap in Hin as (mo & -> & Hmo). injection Hk as <-. exists mo. split; [by eapply list_elem_of_lookup_2|done].
Qed.

Lemma world_delete now s o ps k : worldOk C (MkWorld s o now ps) → unneeded s ps now k → worldOk C (MkWorld s (delete k o) now ps).
Proof.
  intros [H1 H2 H3 H4] [F1 F2]. cbn in *.
  assert (Hread : ∀ id u v mr todo acc, pastUnit s id u → c_manifests s !! (id, v) = Some mr →
    (∀ t mo, (t, mo) ∈ todo → ∃ mt, mt ∈ m_Tables (mr_manifest mr) ∧ mo ∈ mt_Objects mt) →
    readAll (delete k o) todo acc = readAll o todo acc ∨ ∃ mr', c_manifests s !! (id, v + 1) = Some mr' ∧ mr_created_at mr' + dp_Grace ≤ now).
  { intros id u v mr todo acc Hp Hm Hn. destruct (uo_manifests _ _ _ _ _ _ (co_units _ _ _ _ H1 _ _ (proj1 Hp) (proj2 Hp)) _ _ Hm) as [_ _ _ (E1 & E2 & E3 & E4 & E5) _ _].
    destruct (decide (List.Exists (λ q : Table * ManifestObject, mo_Key q.2 = k) todo)) as [He|He].
    - right. apply Exists_exists in He as ([t mo] & Hin & <-). destruct (Hn t mo Hin) as (mt & Hmt & Hmo). destruct (E5 mt mo Hmt Hmo) as (K1 & K2 & K3 & K4).
      cbn [snd] in *. assert (Hid : k_unit (mo_Key mo) = id) by congruence. rewrite <- Hid. eapply (F1 u); [by rewrite Hid|by rewrite Hid|congruence|congruence|congruence].
    - left. apply readAll_keys. intros t mo Hin. rewrite lookup_delete_ne; [done|]. intros Heq. apply He. apply Exists_exists. by exists (t, mo). }
  constructor; cbn.
  - destruct H1 as [C1 C2 C3 C4 C5 C6]. constructor; try done. intros id u Hu Hp. eapply unitOk_copies; [by apply C1|].
    intros v mr Hm Hr (todo & m' & O1 & O2 & O3). destruct (Hread id u v mr todo ∅ (conj Hu Hp) Hm) as [He|?]; [by intros; eapply objectsOf_named| |by right].
    left. exists todo, m'. by rewrite He.
  - intros j d' q Hj. specialize (H2 j d' q Hj). destruct q; try exact H2; cbn [procOk] in *.
    + destruct H2 as [R1 R2]. split; [done|]. intros Hr. destruct (R2 Hr) as [R3 R4]. split; [done|]. intros Hd x Hx.
      destruct (R4 Hd x Hx) as (mr & done & Hm & Ho & Hra). exists mr, done. split; [done|]. split; [done|].
      destruct (Hread _ x _ mr done ∅ Hx Hm) as [->|(mr' & Hm' & Hg)]; [|done|].
      * intros t mo Hin. eapply objectsOf_named; [exact Ho|]. apply elem_of_app. by left.
      * exfalso. destruct g as [c route e|ttl|root]; [|done..]. cbn in R1. destruct R1 as (_ & _ & _ & _ & _ & _ & R1).
        destruct (R1 x Hx) as (_ & _ & _ & Hn). specialize (Hn mr' Hm'). pose proof ok_grace. lia.
    + destruct H2 as [W1 W2]. split; [done|]. intros Hd Hl. destruct (W2 Hd Hl) as (done & Hv & Hpg & Hrep). exists done. split; [done|]. split; [done|].
      intros Hr. rewrite <- (Hrep Hr). apply replay_keys. intros it k' Hit Hk'. rewrite lookup_delete_ne; [done|]. intros ->.
      destruct W1 as (_ & _ & _ & (M1 & M2 & M3 & M4 & _ & _ & _ & M5)).
      destruct (verifyItems_named _ _ _ it k' Hv) as (mt & mo & Hmt & Hmo & <-); [apply elem_of_app; by left|done|].
      destruct (M5 mt mo Hmt Hmo) as (K1 & K2 & K3 & K4). eapply (F2 j); [exact Hj|done|congruence|congruence|congruence|done|done].
    + destruct H2 as [W1 W2]. split; [done|]. intros Hd Hl. destruct (W2 Hd Hl) as (? & ? & Hrep). split; [done|]. split; [done|].
      intros Hr. destruct (Hrep Hr) as (todo & m' & O1 & O2 & O3). exists todo, m'. split; [done|]. split; [|done]. rewrite <- O2. apply readAll_keys.
      intros t mo Hin. rewrite lookup_delete_ne; [done|]. intros ->. destruct W1 as (_ & _ & _ & (M1 & M2 & M3 & M4 & _ & _ & _ & M5)).
      destruct (objectsOf_named _ _ _ _ _ O1 Hin) as (mt & Hmt & Hmo). destruct (M5 mt mo Hmt Hmo) as (K1 & K2 & K3 & K4).
      eapply (F2 j); [exact Hj|done|congruence|congruence|congruence|done|done].
  - intros k' data a [_ Hk']%lookup_delete_Some. by eapply H3.
  - done.
Qed.
End store.

Section txs.
Context {HH : Hashes} {DD : Deploy} {OK : TierOk}.
Variable C : string → tables.

(** ** A unit's online rows *)

Definition under (s : Cat) (cl : Class_) (id : string) (t : Table) : list Rec :=
  filter (λ r, c_members s !! (cl_Name cl, r_root r) = Some id) (onlineRows s (t_Name t)).

Lemma rowsUnder_in cl roots s t : wellNamed cl → t ∈ Tables cl →
  rowsIn (rowsUnder cl roots s) (t_Name t) = map r_row (filter (λ r, r_root r ∈ roots) (onlineRows s (t_Name t))).
Proof.
  intros Hw Ht. unfold rowsUnder, rowsIn.
  rewrite (elem_of_list_to_map_1 _ (t_Name t) (map r_row (filter (λ r, r_root r ∈ roots) (onlineRows s (t_Name t))))); [done| |].
  - rewrite map_map. exact Hw.
  - apply list_elem_of_fmap. by exists t.
Qed.
Lemma readOnline_in cl id s t : wellNamed cl → t ∈ Tables cl → rowsIn (readOnline cl id s) (t_Name t) = map r_row (under s cl id t).
Proof.
  intros Hw Ht. unfold readOnline. rewrite rowsUnder_in by done. f_equal. unfold under. apply list_filter_iff. intros r. split.
  - intros ([[c x] y] & Hx & Hin)%list_elem_of_fmap. cbn in Hx. apply list_elem_of_filter in Hin as [[H1 H2] Hin%elem_of_map_to_list].
    cbn in *. by subst.
  - intros Hm. apply list_elem_of_fmap. exists (cl_Name cl, r_root r, id). split; [done|]. apply list_elem_of_filter. split; [done|]. by apply elem_of_map_to_list.
Qed.

Lemma classOf_some name cl : dp_Classes !! name = Some cl → classOf name = cl.
Proof. unfold classOf. by intros ->. Qed.
Lemma online_same s s' cl id : wellNamed cl → (∀ t, t ∈ Tables cl → under s' cl id t = under s cl id t) →
  sameTables cl (readOnline cl id s) (C id) → sameTables cl (readOnline cl id s') (C id).
Proof. intros Hw Hu Hs t Ht. rewrite readOnline_in, Hu, <- readOnline_in by done. by apply Hs. Qed.

(** ** A unit out of the way *)

Lemma unitOk_view s s' o now id u : unitOk C s o now id u → (∀ v t, c_warm s' !! (id, v, t) = c_warm s !! (id, v, t)) →
  (∀ v, c_manifests s' !! (id, v) = c_manifests s !! (id, v)) → (∀ t, t ∈ Tables (clOf u) → under s' (clOf u) id t = under s (clOf u) id t) →
  unitOk C s' o now id u.
Proof.
  intros [H1 H2 H3 H4 H5 H6 H7 H8] Hw Hm Hu. pose proof (ok_named _ _ H1) as Hwn. constructor; [done..| | | |].
  - intros Hs. destruct (H5 Hs) as (E1 & E2 & E3). split; [by eapply online_same|]. split; [done|]. intros v. by rewrite Hm.
  - intros Hs. destruct (H6 Hs) as (E1 & (pa & E2 & E3 & E4) & (mr & E5 & E6)). split; [done|]. split; [|exists mr; by rewrite Hm].
    exists pa. split; [done|]. split; [done|]. intros Hlt. destruct (E4 Hlt) as [E7 E8]. split; [by eapply online_same|done].
  - intros v mr Hmr. rewrite Hm in Hmr. destruct (H7 v mr Hmr) as [M1 M2 M3 M4 M5 M6]. constructor; [done..| |].
    + rewrite Hm. done.
    + destruct M6 as [M6|M6]; [left|right; by rewrite Hm]. unfold copyOk in *. destruct (mr_route mr); try done. intros t Ht. rewrite Hw. by apply M6.
  - intros v t l. rewrite Hw. by apply H8.
Qed.

Section one.
Context (s s' : Cat) (o : objects) (now : Z) (id : string) (Hcat : catOk C s o now).
Context (Hunits : ∀ i, i ≠ id → c_units s' !! i = c_units s !! i) (Hwarm : ∀ i v t, i ≠ id → c_warm s' !! (i, v, t) = c_warm s !! (i, v, t))
  (Hmans : ∀ i v, i ≠ id → c_manifests s' !! (i, v) = c_manifests s !! (i, v)).

Lemma catOk_one :
  (∀ class r i, i ≠ id → c_members s' !! (class, r) = Some i ↔ c_members s !! (class, r) = Some i) →
  (∀ i u t, i ≠ id → pastUnit s i u → t ∈ Tables (clOf u) → under s' (clOf u) i t = under s (clOf u) i t) →
  (∀ u, c_units s' !! id = Some u → past u → unitOk C s' o now id u) → (isFresh s' id → freshOk s' id) →
  (∀ u, c_units s' !! id = Some u → u_state u = Open → firstVersion ≤ u_manifest_version u ∧ u_published_at u = None) →
  (∀ class r, c_members s' !! (class, r) = Some id → ∃ u, c_units s' !! id = Some u ∧ u_class u = class) →
  (∀ t r, r ∈ onlineRows s' t → rowOk (r_row r)) → (∀ v mr, c_manifests s' !! (id, v) = Some mr → mr_created_at mr ≤ now) →
  catOk C s' o now.
Proof.
  intros Hmem Hund Hid Hfr Hop Hmid Hon Hcr. destruct Hcat as [C1 C2 C3 C4 C5 C6]. constructor.
  - intros i u Hu Hp. destruct (decide (i = id)) as [->|Hne]; [by apply Hid|]. rewrite Hunits in Hu by done. eapply unitOk_view; [by apply C1|..].
    + intros v t. by apply Hwarm.
    + intros v. by apply Hmans.
    + intros t Ht. apply Hund; [done|by split|done].
  - intros i Hf. destruct (decide (i = id)) as [->|Hne]; [by apply Hfr|]. destruct (C2 i) as (F1 & F2 & F3); [intros u Hu; apply Hf; by rewrite Hunits|].
    split; [intros class r Hm; apply Hmem in Hm; [by eapply F1|done]|]. split; [intros v t; rewrite Hwarm by done; apply F2|intros v; by rewrite Hmans].
  - intros i u Hu Ho. destruct (decide (i = id)) as [->|Hne]; [by apply Hop|]. rewrite Hunits in Hu by done. by eapply C3.
  - intros class r i Hm. destruct (decide (i = id)) as [->|Hne]; [by eapply Hmid|]. apply Hmem in Hm; [|done]. rewrite Hunits by done. by eapply C4.
  - done.
  - intros i v mr Hm. destruct (decide (i = id)) as [->|Hne]; [by eapply Hcr|]. rewrite Hmans in Hm by done. by eapply C6.
Qed.
Lemma adv_one :
  (∀ u, c_units s !! id = Some u → ∃ u', c_units s' !! id = Some u' ∧ onwards now u u') →
  (∀ v mr, c_manifests s !! (id, v) = Some mr → ∃ mr', c_manifests s' !! (id, v) = Some mr' ∧ sameRow mr mr') →
  (∀ v mr', c_manifests s' !! (id, v) = Some mr' → (∃ mr, c_manifests s !! (id, v) = Some mr ∧ sameRow mr mr') ∨
    (c_manifests s !! (id, v) = None ∧ mr_created_at mr' = now ∧ ∃ u, c_units s !! id = Some u ∧ u_manifest_version u < v)) →
  (∀ u', pastUnit s' id u' → ∀ t, is_Some (c_warm s !! (id, u_manifest_version u' + 1, t)) → is_Some (c_warm s' !! (id, u_manifest_version u' + 1, t))) →
  adv now s s'.
Proof.
  intros H1 H2 H3 H4. constructor.
  - intros i u Hu. destruct (decide (i = id)) as [->|Hne]; [by apply H1|]. exists u. rewrite Hunits by done. split; [done|apply onwards_refl].
  - intros i v mr Hm. destruct (decide (i = id)) as [->|Hne]; [by apply H2|]. exists mr. rewrite Hmans by done. done.
  - intros i v mr Hm. destruct (decide (i = id)) as [->|Hne]; [by apply H3|]. rewrite Hmans in Hm by done. left. by exists mr.
  - intros i u Hp t. destruct (decide (i = id)) as [->|Hne]; [by apply H4|]. by rewrite Hwarm.
Qed.
End one.

(** Nothing a unit's state rests on changes. *)
Definition core (s s' : Cat) : Prop :=
  c_units s' = c_units s ∧ c_members s' = c_members s ∧ c_online s' = c_online s ∧ c_warm s' = c_warm s ∧ c_manifests s' = c_manifests s.
Lemma core_under s s' cl id t : core s s' → under s' cl id t = under s cl id t.
Proof. intros (_ & E2 & E3 & _). unfold under, onlineRows. by rewrite E2, E3. Qed.
Lemma adv_core now s s' : core s s' → adv now s s'.
Proof.
  intros (E1 & E2 & E3 & E4 & E5). constructor; unfold pastUnit; rewrite ?E1, ?E4, ?E5; [| | |done].
  - intros id u Hu. exists u. split; [done|apply onwards_refl].
  - intros id v mr Hm. by exists mr.
  - intros id v mr Hm. left. by exists mr.
Qed.
Lemma catOk_core s s' o now : core s s' → catOk C s o now → catOk C s' o now.
Proof.
  intros Hc [C1 C2 C3 C4 C5 C6]. pose proof Hc as (E1 & E2 & E3 & E4 & E5). constructor; unfold isFresh, freshOk, onlineRows in *; rewrite ?E1, ?E2, ?E3, ?E4, ?E5; try done.
  intros id u Hu Hp. eapply unitOk_view; [by apply C1|by rewrite E4|by rewrite E5|]. intros t Ht. by apply core_under.
Qed.
Lemma world_core s s' o now ps : core s s' → worldOk C (MkWorld s o now ps) → worldOk C (MkWorld s' o now ps).
Proof.
  intros Hc Hw. eapply world_cat; [done|by apply adv_core|eapply catOk_core; [done|apply Hw]|].
  intros id v mr Hn Hm. destruct Hc as (_ & _ & _ & _ & E5). rewrite E5 in Hm. congruence.
Qed.
End txs.

Section runs.
Context {HH : Hashes} {DD : Deploy}.
Lemma unitRow_ok id s u s' : unitRow id s = Ok (u, s') ↔ s' = s ∧ c_units s !! id = Some u.
Proof. unfold unitRow. rewrite tbind_get. destruct (c_units s !! id); cbn; split; [intros [= -> ->]; done|by intros [-> [= ->]]|done|by intros [_ ?]]. Qed.
Lemma ensure_ok b e s x s' : ensure b e s = Ok (x, s') ↔ s' = s ∧ b = true.
Proof. destruct x. unfold ensure. destruct b; cbn; split; [by intros [= ->]|by intros [-> _]|done|by intros [_ ?]]. Qed.
Lemma ofOption_ok {A} e (v : option A) s x s' : ofOption e v s = Ok (x, s') ↔ s' = s ∧ v = Some x.
Proof. destruct v; cbn; split; [by intros [= -> ->]|by intros [-> [= ->]]|done|by intros [_ ?]]. Qed.
End runs.

(** Inversion of a run of the catalog's transactions. *)
Ltac inv_cat :=
  inv_tx; repeat match goal with
  | H : unitRow _ _ = Ok _ |- _ => apply unitRow_ok in H as [-> ?]
  | H : ensure _ _ _ = Ok _ |- _ => apply ensure_ok in H as [-> ?]
  | H : ofOption _ _ _ = Ok _ |- _ => apply ofOption_ok in H as [-> ?]
  | H : bool_decide _ = true |- _ => apply bool_decide_eq_true in H
  end.

Section moves.
Context {HH : Hashes} {DD : Deploy} {OK : TierOk}.
Variable C : string → tables.

(** ** Claims *)

Lemma claim_ok unit states s c s' : claim unit states s = Ok (c, s') → ∃ u, c_units s !! unit = Some u ∧ u_state u ∈ states ∧
  s' = setUnits (insert unit (setClaimed (c_epoch s) u)) s ∧
  c = MkClaim unit (u_class u) (c_epoch s) (u_generation u + 1) (u_digest u) (u_digest u) (u_state u) (u_manifest_version u) (u_manifest_version u + 1).
Proof. unfold claim, putUnit. intros Hc. inv_cat. eexists. split_and!; done. Qed.

(** The same unit, later. *)
Lemma unitOk_later s o now id u u' : unitOk C s o now id u → u_class u' = u_class u → u_state u' = u_state u → u_digest u' = u_digest u →
  u_generation u ≤ u_generation u' → u_manifest_version u' = u_manifest_version u → u_route u' = u_route u → u_published_at u' = u_published_at u →
  unitOk C s o now id u'.
Proof.
  intros [H1 H2 H3 H4 H5 H6 H7 H8] Ec Es Ed Eg Ev Er Ep. assert (Hcl : clOf u' = clOf u) by (unfold clOf; by rewrite Ec).
  constructor; rewrite ?Hcl, ?Es, ?Ed, ?Ev, ?Er, ?Ep; try done; [by rewrite Ec|].
  intros v mr Hm. destruct (H7 v mr Hm) as [M1 M2 M3 M4 M5 M6]. constructor; rewrite ?Ev, ?Ec, ?Hcl; try done. lia.
Qed.

Section unitOnly.
(** Only a unit's row changes. *)
Context (s : Cat) (o : objects) (now : Z) (id : string) (u u' : Unit) (Hcat : catOk C s o now) (Hu : c_units s !! id = Some u) (Hon : onwards now u u').
Let s' := setUnits (insert id u') s.
Lemma units_other i : i ≠ id → c_units s' !! i = c_units s !! i.
Proof. intros Hi. unfold s'. cbn. by rewrite lookup_insert_ne. Qed.
Lemma units_self : c_units s' !! id = Some u'.
Proof. unfold s'. cbn. by rewrite lookup_insert_eq. Qed.

Lemma adv_unit : adv now s s'.
Proof.
  apply (adv_one s s' now id); [apply units_other|done|done|..].
  - intros x Hx. rewrite Hu in Hx. injection Hx as <-. exists u'. split; [apply units_self|done].
  - intros v mr Hm. by exists mr.
  - intros v mr Hm. left. by exists mr.
  - done.
Qed.
Lemma catOk_unit : (past u' → unitOk C s' o now id u') → (u_state u' = Open → u_state u = Open ∧ u_manifest_version u' = u_manifest_version u ∧ u_published_at u' = u_published_at u) →
  catOk C s' o now.
Proof.
  intros Hp Ho. eapply (catOk_one C s s' o now id); [done|apply units_other|done|done|done|done|..].
  - intros x Hx. rewrite units_self in Hx. injection Hx as <-. done.
  - intros Hf. specialize (Hf u' units_self). destruct (Ho Hf) as [Hopen _]. apply (co_fresh _ _ _ _ Hcat id). intros x Hx. rewrite Hu in Hx. by injection Hx as <-.
  - intros x Hx Hox. rewrite units_self in Hx. injection Hx as <-. destruct (Ho Hox) as (E1 & -> & ->). by apply (co_open _ _ _ _ Hcat id u).
  - intros class r Hm. destruct (co_members _ _ _ _ Hcat _ _ _ Hm) as (x & Hx & He). rewrite Hu in Hx. injection Hx as <-. exists u'.
    split; [apply units_self|]. destruct Hon as [-> _]. done.
  - apply Hcat.
  - intros v mr. apply (co_created _ _ _ _ Hcat).
Qed.
End unitOnly.

Lemma onwards_claimed now e u : onwards now u (setClaimed e u).
Proof. unfold onwards. cbn. split_and!; (done || lia || auto). Qed.
Lemma claim_keeps unit states s c s' o now : catOk C s o now → claim unit states s = Ok (c, s') → Open ∉ states → adv now s s' ∧ catOk C s' o now.
Proof.
  intros Hcat (u & Hu & Hin & -> & _)%claim_ok Hno. assert (Hop : u_state u ≠ Open) by (intros He; by rewrite He in Hin).
  split; [apply (adv_unit s now unit u); [done|apply onwards_claimed]|]. apply (catOk_unit s o now unit u); [done|done|apply onwards_claimed| |done].
  intros Hp. apply (unitOk_later _ _ _ _ u); try done; [|cbn; lia]. eapply unitOk_view; [apply (co_units _ _ _ _ Hcat unit u); done|done..].
Qed.

(** ** Copies in the warm route *)

Definition warmSet (s : Cat) (w : gmap (string * Z * string) (list (string * crow))) : Cat := setWarm (λ _, w) s.
(** Only warm rows change. *)
Lemma adv_warm s w now :
  (∀ id u t, pastUnit s id u → is_Some (c_warm s !! (id, u_manifest_version u + 1, t)) → is_Some (w !! (id, u_manifest_version u + 1, t))) →
  adv now s (warmSet s w).
Proof.
  intros Hk. constructor.
  - intros id u Hu. exists u. split; [done|apply onwards_refl].
  - intros id v mr Hm. by exists mr.
  - intros id v mr Hm. left. by exists mr.
  - intros id u Hp t. by apply (Hk id u t).
Qed.
Lemma catOk_warm s w o now : catOk C s o now →
  (∀ id u v t l, pastUnit s id u → 0 ≤ v → t ∈ Tables (clOf u) → w !! (id, v, t_Name t) = Some l → map snd l ≡ₚ rowsIn (C id) (t_Name t)) →
  (∀ id u v mr t, pastUnit s id u → c_manifests s !! (id, v) = Some mr → is_Some (c_warm s !! (id, v, t)) → is_Some (w !! (id, v, t)) ∨
     ∃ mr', c_manifests s !! (id, v + 1) = Some mr' ∧ mr_created_at mr' + dp_Grace ≤ now) →
  (∀ id v t, isFresh s id → 0 ≤ v → w !! (id, v, t) = None) → catOk C (warmSet s w) o now.
Proof.
  intros Hcat W1 W2 Hfr. destruct Hcat as [C1 C2 C3 C4 C5 C6]. constructor; try done.
  - intros id u Hu Hp. assert (Hpu : pastUnit s id u) by done. destruct (C1 id u Hu Hp) as [H1 H2 H3 H4 H5 H6 H7 H8].
    constructor; [done..| |intros v t l; by apply W1]. intros v mr Hm. destruct (H7 v mr Hm) as [M1 M2 M3 M4 M5 M6]. constructor; [done..|].
    destruct M6 as [M6|?]; [|by right]. unfold copyOk in *. destruct (mr_route mr); try (by left).
    destruct (decide (Forall (λ t, is_Some (w !! (id, v, t_Name t))) (Tables (clOf u)))) as [Ha|Ha].
    + left. intros t Ht. rewrite Forall_forall in Ha. destruct (Ha t Ht) as [l Hl]. exists l. split; [done|].
      apply (W1 id u v t l); [done|pose proof ok_version; lia|done|done].
    + right. apply not_Forall_Exists in Ha; [|apply _]. apply Exists_exists in Ha as (t & Ht & Hno). destruct (M6 t Ht) as (l & Hl & _).
      destruct (W2 id u v mr (t_Name t) Hpu Hm) as [?|?]; [by eexists|done|done].
  - intros id Hf. destruct (C2 id Hf) as (F1 & _ & F3). split; [done|]. split; [|done]. intros v t Hv. by apply Hfr.
Qed.

Lemma copyRows_ok c t rows s x s' : copyRows c t rows s = Ok (x, s') →
  ∃ l, map snd l = rows ∧ s' = warmSet s (<[(cm_Unit c, cm_Version c, t_Name t) := l]> (c_warm s)).
Proof.
  unfold copyRows. intros Hc. inv_cat. eexists. split; [|done]. apply allOk_iff in H. clear -H.
  induction H as [|r [k q] rows l Hr _ IH]; [done|]. cbn. rewrite IH. f_equal. destruct (keyedOf t r) as [[? ?]|]; [|done]. cbn in Hr. by injection Hr.
Qed.
Lemma copyRows_keeps c t rows s x s' o now d : catOk C s o now → claimOk s now d c → copyRows c t rows s = Ok (x, s') → itemFor C s c (CopyTable t rows) →
  adv now s s' ∧ catOk C s' o now.
Proof.
  intros Hcat Hc (l & <- & ->)%copyRows_ok [Ht Hrows]. set (k := (cm_Unit c, cm_Version c, t_Name t)).
  assert (Hmono : ∀ k', is_Some (c_warm s !! k') → is_Some (<[k := l]> (c_warm s) !! k')).
  { intros k' Hk. destruct (decide (k = k')) as [<-|Hne]; [by rewrite lookup_insert_eq|by rewrite lookup_insert_ne]. }
  split; [apply adv_warm; auto|]. apply catOk_warm; [done|..].
  - intros id u v t' l' Hp Hv Ht' Hl. destruct (decide (k = (id, v, t_Name t'))) as [He|Hne].
    + rewrite <- He, lookup_insert_eq in Hl. injection Hl as <-. unfold k in He. injection He as <- _ <-. by apply (Hrows u).
    + rewrite lookup_insert_ne in Hl by done. eapply (uo_warm _ _ _ _ _ _ (co_units _ _ _ _ Hcat id u (proj1 Hp) (proj2 Hp))); done.
  - intros id u v mr t' _ _ Hw. left. auto.
  - intros id v t' Hf Hv. rewrite lookup_insert_ne; [by apply (co_fresh _ _ _ _ Hcat id Hf)|]. unfold k. intros [= <- _ _].
    destruct Hc as [(u & Hu & Ho & _) _ _ _]. by apply Ho, Hf.
Qed.

(** Rows are deleted, none that a copy needs. *)
Lemma filter_keeps s o now P `{!∀ p, Decision (P p)} : catOk C s o now →
  (∀ id u v t l, pastUnit s id u → 0 ≤ v → c_warm s !! (id, v, t) = Some l → v = u_manifest_version u + 1 → P (id, v, t, l)) →
  (∀ id u v mr t l, pastUnit s id u → c_manifests s !! (id, v) = Some mr → c_warm s !! (id, v, t) = Some l → P (id, v, t, l) ∨
     ∃ mr', c_manifests s !! (id, v + 1) = Some mr' ∧ mr_created_at mr' + dp_Grace ≤ now) →
  adv now s (warmSet s (filter P (c_warm s))) ∧ catOk C (warmSet s (filter P (c_warm s))) o now.
Proof.
  intros Hcat HP HM. split.
  - apply adv_warm. intros id u t Hp [l Hl]. exists l. apply map_lookup_filter_Some. split; [done|]. apply (HP id u); [done| |done|done].
    pose proof ok_version; pose proof (uo_version _ _ _ _ _ _ (co_units _ _ _ _ Hcat id u (proj1 Hp) (proj2 Hp))); lia.
  - apply catOk_warm; [done|..].
    + intros id u v t l Hp Hv Ht [Hl _]%map_lookup_filter_Some. by eapply (uo_warm _ _ _ _ _ _ (co_units _ _ _ _ Hcat id u (proj1 Hp) (proj2 Hp))).
    + intros id u v mr t Hp Hm [l Hl]. destruct (HM id u v mr t l Hp Hm Hl) as [?|?]; [left|by right]. exists l. by apply map_lookup_filter_Some.
    + intros id v t Hf Hv. apply map_lookup_filter_None. left. by apply (co_fresh _ _ _ _ Hcat id Hf).
Qed.
End moves.
