(* ===== verification/TierForward.v ===== *)
(** * Tiering: units only move forward

    In every run, erasures included: a unit's state moves only forward, its class and its
    members stay, and it is destroyed only when its retention allows it. *)
From S2P Require Import Prelude GoStr Canon CanonProps TierPlan TierRows TierRead TierStore TierSys TierSame TierInv TierKept.
From Stdlib Require Import Ascii String.
Open Scope string_scope.
Open Scope Z_scope.
Open Scope list_scope.

Definition rank (st : UState) : Z := match st with Open => 0 | Sealed => 1 | Published => 2 | Released => 3 | Destroyed => 4 end.

Section forward.
Context {HH : Hashes} {DD : Deploy}.

(** ** One transaction *)

Definition forward (u u' : Unit) : Prop :=
  u_class u' = u_class u ∧ u_grouping u' = u_grouping u ∧ u_seq u' = u_seq u ∧ rank (u_state u) ≤ rank (u_state u') ∧ u_generation u ≤ u_generation u' ∧
  (u_state u = Destroyed → u_destroyed_at u' = u_destroyed_at u ∧ u_tombstone u' = u_tombstone u).
Record moved (now : Z) (s s' : Cat) : Prop := {
  mv_units : ∀ id u, c_units s !! id = Some u → ∃ u', c_units s' !! id = Some u' ∧ forward u u' ∧
    (u_state u' = Destroyed → u_state u = Destroyed ∨ u_state u ≠ Open ∧ destroyReasons now id u s = []);
  mv_new : ∀ id u', c_units s !! id = None → c_units s' !! id = Some u' → u_state u' ≠ Destroyed;
  mv_members : c_members s ⊆ c_members s' }.

Lemma forward_refl u : forward u u.
Proof. unfold forward. split_and!; (done || lia). Qed.
Lemma forward_trans a b c : forward a b → forward b c → forward a c.
Proof.
  intros (A1 & A2 & A3 & A4 & A5 & A6) (B1 & B2 & B3 & B4 & B5 & B6). unfold forward. split_and!; try congruence; try lia. intros Hd.
  assert (Hb : u_state b = Destroyed) by (rewrite Hd in A4; by destruct (u_state b)). destruct (A6 Hd), (B6 Hb). split; congruence.
Qed.
Lemma moved_same now s s' : c_units s' = c_units s → c_members s' = c_members s → moved now s s'.
Proof.
  intros E1 E2. constructor; rewrite ?E1, ?E2; [|congruence|done]. intros id u Hu. exists u. split; [done|]. split; [apply forward_refl|by left].
Qed.
Lemma moved_refl now s : moved now s s.
Proof. by apply moved_same. Qed.
Lemma moved_unit now s s' id u u' : c_units s !! id = Some u → c_units s' = <[id := u']> (c_units s) → c_members s' = c_members s → forward u u' →
  (u_state u' = Destroyed → u_state u = Destroyed ∨ u_state u ≠ Open ∧ destroyReasons now id u s = []) → moved now s s'.
Proof.
  intros Hu E1 E2 Hf Hd. constructor; rewrite ?E1, ?E2; [| |done].
  - intros i x Hx. destruct (decide (id = i)) as [<-|Hne]; [simplify_eq; exists u'; by rewrite lookup_insert_eq|]. exists x. rewrite lookup_insert_ne by done.
    split; [done|]. split; [apply forward_refl|by left].
  - intros i x Hn. rewrite lookup_insert_ne; [congruence|]. intros <-. congruence.
Qed.

(** A transaction that leaves units and members alone. *)
Definition idle {A} (c : tx Cat tierErr A) : Prop := ∀ s a s', c s = Ok (a, s') → c_units s' = c_units s ∧ c_members s' = c_members s.
Lemma idle_bind {A B} (c : tx Cat tierErr A) (k : A → tx Cat tierErr B) : idle c → (∀ a, idle (k a)) → idle (tbind c k).
Proof. intros Hc Hk s b s' (a & s1 & H1 & H2)%tbind_ok. destruct (Hc _ _ _ H1) as [<- <-]. by eapply Hk. Qed.
Lemma idle_ret {A} (a : A) : idle (tret a).
Proof. by intros s x s' [= _ <-]. Qed.
Lemma idle_fail {A} e : idle (tfail (A:=A) e).
Proof. by intros s x s'. Qed.
Lemma idle_get : idle tget.
Proof. by intros s x s' [= _ <-]. Qed.
Lemma idle_mod f : (∀ s, c_units (f s) = c_units s ∧ c_members (f s) = c_members s) → idle (tmod f).
Proof. intros Hf s x s' [= _ <-]. apply Hf. Qed.
Lemma idle_ensure b e : idle (ensure b e).
Proof. by intros s x s' [-> _]%ensure_ok. Qed.
Lemma idle_option {A} e (v : option A) : idle (ofOption e v).
Proof. by intros s x s' [-> _]%ofOption_ok. Qed.
Lemma idle_row id : idle (unitRow id).
Proof. by intros s x s' [-> _]%unitRow_ok. Qed.
Lemma idle_if {A} (b : bool) (c k : tx Cat tierErr A) : idle c → idle k → idle (if b then c else k).
Proof. by destruct b. Qed.
End forward.

#[export] Hint Resolve idle_bind idle_ret idle_fail idle_get idle_mod idle_ensure idle_option idle_row idle_if : sdk.
(** A transaction built from parts that are idle. *)
Ltac idle := repeat first
  [ apply idle_bind | apply idle_ret | apply idle_fail | apply idle_get | apply idle_ensure | apply idle_option | apply idle_row
  | apply idle_mod; (done || (intros; done)) | progress intros | case_match | case_decide ]; try done.

Section txs.
Context {HH : Hashes} {DD : Deploy}.

Lemma writeRow_idle op : idle (writeRow op).
Proof. unfold writeRow, barrier. idle. Qed.
Lemma Write_idle ops : idle (Write ops).
Proof. induction ops as [|op ops IH]; cbn [Write]; [apply idle_ret|]. apply idle_bind; [apply writeRow_idle|done]. Qed.
Lemma scopeOf_idle class sc b : idle (scopeOf class sc b).
Proof. unfold scopeOf. idle. Qed.
Lemma holds_idle now id class who sc source reason : idle (Hold id class who sc source reason) ∧ idle (LiftHold now class id who) ∧
  idle (Approve id class who sc reason) ∧ idle (Withdraw now class id who).
Proof. pose proof (scopeOf_idle class sc). unfold Hold, LiftHold, Approve, Withdraw. split_and!; idle. Qed.
Lemma leases_idle now id : idle (Snapshot now id) ∧ idle (Renew now id) ∧ idle (End_ id).
Proof. unfold Snapshot, Renew, End_. split_and!; idle. Qed.
Lemma deleteFirst_idle unit ts : idle (deleteFirst unit ts).
Proof. induction ts as [|t ts IH]; cbn [deleteFirst]; unfold deleteFrom; idle. Qed.
Lemma nullOnline_idle cl root : idle (nullOnline cl root).
Proof. unfold nullOnline. idle. Qed.
Lemma conclude_idle redo unit class : idle (concludeErasure redo unit class).
Proof. unfold concludeErasure. idle. Qed.
Lemma eraseAlso_idle redo cl unit root c : idle (eraseAlso redo cl unit root c).
Proof. pose proof (conclude_idle redo). pose proof nullOnline_idle. unfold eraseAlso. idle. Qed.
Lemma rows_idle now unit class ttl aggs v c t rows : idle (putThaw now unit class ttl aggs) ∧ idle (purgeRows unit) ∧ idle (deleteOrphans now class unit) ∧
  idle (deleteOld now unit v) ∧ idle (copyRows c t rows) ∧ idle (routeOf now unit).
Proof. unfold putThaw, purgeRows, deleteOrphans, deleteOld, copyRows, routeOf. split_and!; idle. Qed.
Lemma decides_idle now unit backup class root : idle (releaseDecide now unit backup) ∧ idle (destroyReady now unit) ∧ idle (oldsDecide now unit backup) ∧
  idle (getFind now class root) ∧ idle (eraseFind class root).
Proof. unfold releaseDecide, destroyReady, oldsDecide, getFind, eraseFind, routeOf. split_and!; idle. Qed.

Lemma claim_moves now unit states s c s' : claim unit states s = Ok (c, s') → moved now s s'.
Proof.
  intros (u & Hu & _ & -> & _)%claim_ok. apply (moved_unit now s _ unit u (setClaimed (c_epoch s) u)); [done..| |by left].
  unfold forward. cbn. split_and!; (done || lia).
Qed.
Lemma publishAlso_moves now c m e s x s' : publishAlso now c m e s = Ok (x, s') → moved now s s'.
Proof.
  unfold publishAlso. intros Hp. inv_cat. match goal with H : publish _ _ _ s = Ok (_, ?s1) |- _ => rename H into Hpub; rename s1 into sp end.
  assert (c_units s' = c_units sp ∧ c_members s' = c_members sp) as [E1 E2].
  { destruct e as [[redo root]|]; [|inv_cat; done]. by eapply eraseAlso_idle. }
  unfold publish, putUnit in Hpub. inv_cat. match goal with H : c_units s !! cm_Unit c = Some ?u |- _ => rename u into w; rename H into Hu end.
  eapply (moved_unit now s s' (cm_Unit c) w); [done|rewrite E1; cbn; done|done| |].
  - case_decide as Hs; unfold forward; cbn; rewrite ?Hs; split_and!; (done || lia).
  - case_decide as Hs; cbn; [done|]. by left.
Qed.
Lemma destroy_moves now unit basis s why s' : destroyDecide now unit basis s = Ok (why, s') → moved now s s'.
Proof.
  unfold destroyDecide, markDestroyed, putUnit. intros Hd. inv_cat. case_decide as Hs; inv_cat; [apply moved_refl|].
  match goal with H : c_units s !! unit = Some ?u |- _ => rename u into w; rename H into Hu end. assert (Hn : u_state w ≠ Destroyed ∧ u_state w ≠ Open) by (split; intros He; apply Hs; auto).
  destruct (destroyReasons now unit w s) eqn:Hr; inv_cat; [|apply moved_refl]. apply (moved_unit now s _ unit w (setDestroyed now basis w)); [done|done|done| |].
  - unfold forward. cbn. split_and!; try done; try lia; [by destruct (u_state w)|intros He; by destruct Hn].
  - intros _. right. by destruct Hn.
Qed.
Lemma turn_moves now unit cl del s b s' : deleteTurn unit cl (lastTurn unit del) s = Ok (b, s') → moved now s s'.
Proof.
  unfold deleteTurn. intros Ht. inv_cat. match goal with H : deleteFirst _ _ s = Ok (?f, ?s1) |- _ => rename s1 into s2; rename f into fin; apply deleteFirst_idle in H as [E1 E2] end.
  destruct fin; inv_cat; [|by apply moved_same]. destruct del; cbn [lastTurn] in *; [|inv_cat; by apply moved_same..]. unfold releaseLast, putUnit in *. inv_cat.
  match goal with H : c_units s2 !! unit = Some ?u |- _ => rename u into w; rename H into Hu end. match goal with H : (if _ then _ else _) _ = Ok _ |- _ => revert H end.
  case_decide as Hs; intros Hl; inv_cat; [|by apply moved_same]. rewrite E1 in Hu. apply (moved_unit now s _ unit w (setState Released w)); [done|cbn; by rewrite E1|done| |done].
  unfold forward. cbn. rewrite Hs. split_and!; (done || lia).
Qed.
Lemma eraseSealed_moves now redo cl unit root s x s' : eraseSealed redo cl unit root s = Ok (x, s') → moved now s s'.
Proof.
  unfold eraseSealed. intros He. inv_cat. match goal with H : nullOnline _ _ s = Ok (_, ?s1) |- _ => rename s1 into sn; apply nullOnline_idle in H as [E1 E2] end.
  apply conclude_idle in He as [F1 F2]. match goal with H : (match _ with Some _ => _ | None => _ end) sn = Ok _ |- _ => rename H into Hm end.
  rewrite E1 in Hm. destruct (c_units s !! unit) as [u|] eqn:Hu; [|by inv_cat]. case_decide as Hs; unfold putUnit in Hm; inv_cat.
  eapply (moved_unit now s s' unit u); [done|rewrite F1; cbn; rewrite E1; done|rewrite F2; cbn; by rewrite E2| |].
  - unfold forward. cbn. split_and!; (done || lia).
  - by left.
Qed.
Lemma openUnit_fresh now id class g s unit s1 : openUnit id class g s = Ok (unit, s1) → moved now s s1 ∧ ∃ u, c_units s1 !! unit = Some u ∧ u_state u = Open.
Proof.
  unfold openUnit, putUnit. intros Ho. inv_cat. destruct (List.find _ _) as [[i u]|] eqn:Hf; inv_cat.
  - split; [apply moved_refl|]. apply find_some in Hf as [Hin Hop]. apply list_elem_of_In, elem_of_map_to_list in Hin. exists u. unfold isOpen in Hop. cbn in Hop.
    apply andb_true_iff in Hop as [_ Hs]. by apply bool_decide_eq_true in Hs.
  - split; [|eexists; rewrite lookup_insert_eq; done]. constructor; cbn; [| |done].
    + intros i u Hu. exists u. rewrite lookup_insert_ne by (intros <-; congruence). split; [done|]. split; [apply forward_refl|by left].
    + intros i u Hn [[_ <-]|[_ Hu]]%lookup_insert_Some; [done|congruence].
Qed.
End txs.

Section runs.
Context {HH : Hashes} {DD : Deploy}.

(** After a move, a unit that is open is filled or blocked. *)
Lemma moved_open now s s1 s' id u u' : moved now s s1 → c_units s1 !! id = Some u → c_units s' = <[id := u']> (c_units s1) → c_members s1 ⊆ c_members s' →
  forward u u' → u_state u' ≠ Destroyed → moved now s s'.
Proof.
  intros [M1 M2 M3] Hu E1 E2 Hf Hd. constructor; rewrite ?E1; [| |by transitivity (c_members s1)].
  - intros i x Hx. destruct (M1 i x Hx) as (y & Hy & Hxy & Hdy). destruct (decide (id = i)) as [<-|Hne].
    + simplify_eq. exists u'. rewrite lookup_insert_eq. split; [done|]. split; [by eapply forward_trans|done].
    + exists y. by rewrite lookup_insert_ne.
  - intros i x Hn. destruct (decide (id = i)) as [<-|Hne]; [rewrite lookup_insert_eq; by intros [= <-]|]. rewrite lookup_insert_ne by done. by apply M2.
Qed.
Lemma candidates_free now class cl days g s r : r ∈ sealRoots now class cl days g s → c_members s !! (class, r) = None.
Proof.
  unfold sealRoots. intros Hr%elem_of_take. destruct Hr as (i & Hr & _). apply list_elem_of_lookup_2 in Hr. rewrite merge_sort_Permutation in Hr.
  apply list_elem_of_fmap in Hr as (x & -> & [(_ & _ & ? & _) _]%list_elem_of_filter). done.
Qed.
Lemma Seal_moves now id class g answers s x s' : Seal now id class g answers s = Ok (x, s') → moved now s s'.
Proof.
  intros Hs. unfold Seal, putUnit in Hs. inv_cat. destruct v as [cl days]. inv_cat.
  match goal with H : openUnit _ _ _ _ = Ok (?a, ?b) |- _ => rename a into unit; rename b into sn; apply (openUnit_fresh now) in H as [Hm (u & Hu & Ho)] end.
  case_decide as Hr; inv_cat; [done|]. case_decide as Hb; inv_cat.
  - simplify_eq.
    eapply (moved_open now s sn); [done|exact Hu|cbn; done| | |done].
    + cbn. apply map_union_subseteq_r, map_disjoint_spec. intros [c r] a b Ha Hb'. apply elem_of_list_to_map_2, list_elem_of_fmap in Ha as (r' & [= -> -> _] & Hin).
      apply candidates_free in Hin. congruence.
    + unfold forward. cbn. rewrite Ho. split_and!; (done || lia).
  - simplify_eq.
    eapply (moved_open now s sn); [done|exact Hu|cbn; done|done| |cbn; by rewrite Ho]. unfold forward. cbn. rewrite Ho. split_and!; (done || lia).
Qed.

(** ** Every step *)

Lemma runTx_moves {A} now (c : tx Cat tierErr A) k s o s' o' p : (∀ a s1, c s = Ok (a, s1) → moved now s s1) → runTx c k s o = (s', o', p) → moved now s s'.
Proof. unfold runTx. intros Hc. destruct (c s) as [[a s1]|]; intros [= <- <- <-]; [by eapply Hc|apply moved_refl]. Qed.
Lemma idle_moves {A} now (c : tx Cat tierErr A) s a s1 : idle c → c s = Ok (a, s1) → moved now s s1.
Proof. intros Hi Hc. apply Hi in Hc as [? ?]. by apply moved_same. Qed.
Lemma after_moves {A} now (c : tx Cat tierErr A) s : (∀ a s1, c s = Ok (a, s1) → moved now s s1) → moved now s (after c s).
Proof. intros Hc. destruct (after_cases c s) as [->|(a & s' & H & ->)]; [apply moved_refl|by eapply Hc]. Qed.

Lemma startProc_moves now s o st s' o' p : startProc now s o st = (s', o', p) → moved now s s'.
Proof.
  pose proof (λ unit backup class root, decides_idle now unit backup class root) as Hi. destruct st; cbn [startProc].
  - apply runTx_moves. intros a s1. apply claim_moves.
  - apply runTx_moves. intros a s1. apply claim_moves.
  - destruct (dp_Classes !! class); [|intros [= <- <- <-]; apply moved_refl]. case_decide; [intros [= <- <- <-]; apply moved_refl|].
    apply runTx_moves. intros a s1. apply idle_moves. apply (Hi "" None).
  - intros [= <- <- <-]. apply moved_refl.
  - apply runTx_moves. intros a s1. apply idle_moves. apply (Hi unit backup "" "").
  - destruct (c_units s !! unit); [case_decide|]; intros [= <- <- <-]; apply moved_refl.
  - apply runTx_moves. intros a s1. apply idle_moves. apply (Hi unit None "" "").
  - apply runTx_moves. intros a s1. apply idle_moves. apply (Hi unit backup "" "").
  - intros [= <- <- <-]. apply moved_refl.
  - apply runTx_moves. intros a s1. apply idle_moves. apply (Hi "" None class root).
  - apply runTx_moves. intros a s1. apply idle_moves. apply leases_idle.
Qed.
Lemma stepProc_moves now s o p s' o' p' : stepProc now s o p = (s', o', p') → moved now s s'.
Proof.
  assert (Hi : ∀ unit class ttl aggs v c t rows, idle (putThaw now unit class ttl aggs) ∧ idle (purgeRows unit) ∧ idle (deleteOrphans now class unit) ∧
    idle (deleteOld now unit v) ∧ idle (copyRows c t rows) ∧ idle (routeOf now unit)) by (intros; apply rows_idle).
  set (c0 := MkClaim "" "" "" 0 "" "" Open 0 0). set (t0 := cl_Root zeroClass).
  destruct p; cbn [stepProc]; try (intros [= <- <- <-]; apply moved_refl).
  - apply runTx_moves. intros a s1. apply idle_moves. apply (Hi unit "" 0 [] 0 c0 t0 []).
  - unfold stepRead, fails. repeat case_match; intros [= <- <- <-]; apply moved_refl.
  - unfold fails. case_decide; intros [= <- <- <-]; apply moved_refl.
  - unfold fails. destruct todo as [|[t mo] todo]; repeat case_match; intros [= <- <- <-]; apply moved_refl.
  - unfold stepCopy, fails. destruct todo as [|[t rows|t total part rows] todo]; [intros [= <- <- <-]; apply moved_refl| |].
    + apply runTx_moves. intros a s1. apply idle_moves. apply (Hi "" "" 0 [] 0 c t rows).
    + repeat case_match; intros [= <- <- <-]; apply moved_refl.
  - unfold fails. case_match; intros [= <- <- <-]; apply moved_refl.
  - unfold stepVerify, fails. repeat case_match; intros [= <- <- <-]; apply moved_refl.
  - apply runTx_moves. intros a s1. apply publishAlso_moves.
  - apply runTx_moves. intros a s1. apply idle_moves. apply (Hi unit class ttl aggs 0 c0 t0 []).
  - apply runTx_moves. intros a s1. apply turn_moves.
  - apply runTx_moves. intros a s1. apply idle_moves. apply (Hi unit "" 0 [] 0 c0 t0 []).
  - destruct todo; intros [= <- <- <-]; apply moved_refl.
  - apply runTx_moves. intros a s1. apply destroy_moves.
  - destruct fromSealed; apply runTx_moves; intros a s1; [apply eraseSealed_moves|apply claim_moves].
  - unfold stepOld, fails. destruct olds as [|[[v r] g] olds]; [intros [= <- <- <-]; apply moved_refl|]. destruct keys as [[|k ks]|].
    + apply runTx_moves. intros a s1. apply idle_moves. apply (Hi unit "" 0 [] v c0 t0 []).
    + intros [= <- <- <-]. apply moved_refl.
    + repeat case_match; intros [= <- <- <-]; apply moved_refl.
  - case_match; [intros [= <- <- <-]; apply moved_refl|]. apply runTx_moves. intros a s1. apply idle_moves. apply (Hi unit class 0 [] 0 c0 t0 []).
  - destruct todo as [|[k a] todo]; [|case_decide; intros [= <- <- <-]; apply moved_refl].
    apply runTx_moves. intros a s1. apply idle_moves. apply (Hi unit class 0 [] 0 c0 t0 []).
Qed.
(** A replayed destruction turns its unit destroyed, whatever its state. *)
Lemma replay_ok now unit basis s x s' : replayDestruction now unit basis s = Ok (x, s') → s' = s ∨
  ∃ u, c_units s !! unit = Some u ∧ u_state u ≠ Destroyed ∧ s' = bumpVersion (setUnits (insert unit (setDestroyed now basis u)) s).
Proof. unfold replayDestruction, markDestroyed, putUnit. intros Hd. inv_cat. case_decide as Hs; inv_cat; [by left|right]. by eexists. Qed.
Lemma replayErasure_moves now enqueue class root basis s x s' : replayErasure enqueue class root basis s = Ok (x, s') → moved now s s'.
Proof.
  unfold replayErasure. intros He. inv_cat. assert (Hn : ∀ cl y s1, nullOnline cl root s = Ok (y, s1) → moved now s s1).
  { intros cl y s1 Hx. apply nullOnline_idle in Hx as [E1 E2]. by apply moved_same. }
  repeat case_match; inv_cat; try apply moved_refl; [eauto..|by eapply eraseSealed_moves|eauto].
Qed.
(** What a replayed destruction does to a catalog. *)
Definition replayed (recorded : list (string * string)) (now : Z) (s s' : Cat) : Prop :=
  ∃ unit basis u, (unit, basis) ∈ recorded ∧ c_units s !! unit = Some u ∧ u_state u ≠ Destroyed ∧
    s' = bumpVersion (setUnits (insert unit (setDestroyed now basis u)) s).
Lemma wstep_moves erasing recorded w w' : wstep erasing recorded w w' →
  moved (w_now w) (w_cat w) (w_cat w') ∨ replayed recorded (w_now w) (w_cat w) (w_cat w').
Proof.
  destruct 1 as [| | | | | | | | | | | | |s o now ps unit basis Hin| |]; cbn [w_cat w_now]; try (left; apply moved_refl); try (left; by apply moved_same).
  all: try (match type of Hin with _ => idtac end; destruct (after_cases (replayDestruction now unit basis) s) as [->|(a & s' & Ho & ->)];
    [left; apply moved_refl|]; apply replay_ok in Ho as [->|(u & Hu & Hs & ->)]; [left; apply moved_refl|right; by exists unit, basis, u]).
  all: left; try (apply after_moves; intros a s1).
  - apply idle_moves, Write_idle.
  - apply Seal_moves.
  - apply idle_moves, (holds_idle 0 id class who sc source reason).
  - apply idle_moves, (holds_idle now id class who (MkScope ScopeUnit "") "" "").
  - apply idle_moves, (holds_idle 0 id class who sc "" reason).
  - apply idle_moves, (holds_idle now id class who (MkScope ScopeUnit "") "" "").
  - apply idle_moves, leases_idle.
  - by eapply startProc_moves.
  - by eapply stepProc_moves.
  - apply replayErasure_moves.
Qed.
(** Every step, a replay too, moves units only forward and keeps their members. *)
Lemma wstep_forward erasing recorded w w' : wstep erasing recorded w w' →
  (∀ id u, c_units (w_cat w) !! id = Some u → ∃ u', c_units (w_cat w') !! id = Some u' ∧ forward u u') ∧ c_members (w_cat w) ⊆ c_members (w_cat w').
Proof.
  intros [[M1 _ M3]|(unit & basis & u0 & _ & Hu0 & Hs0 & ->)]%wstep_moves.
  - split; [|done]. intros id u Hu. destruct (M1 id u Hu) as (u' & Hu' & Hf & _). by exists u'.
  - split; [|done]. intros id u Hu. cbn. destruct (decide (unit = id)) as [<-|Hne].
    + simplify_eq. eexists. rewrite lookup_insert_eq. split; [done|]. unfold forward. cbn. split_and!; try done; try lia. by destruct (u_state u0).
    + exists u. rewrite lookup_insert_ne by done. split; [done|apply forward_refl].
Qed.
Lemma run_forward erasing recorded w w' : rtc (wstep erasing recorded) w w' →
  (∀ id u, c_units (w_cat w) !! id = Some u → ∃ u', c_units (w_cat w') !! id = Some u' ∧ forward u u') ∧ c_members (w_cat w) ⊆ c_members (w_cat w').
Proof.
  induction 1 as [w|w1 w2 w3 Hs _ [IH1 IH2]]; [split; [|done]; intros id u Hu; exists u; split; [done|apply forward_refl]|].
  apply wstep_forward in Hs as [M1 M3]. split; [|by transitivity (c_members (w_cat w2))]. intros id u Hu. destruct (M1 id u Hu) as (u1 & Hu1 & F1).
  destruct (IH1 id u1 Hu1) as (u2 & Hu2 & F2). exists u2. split; [done|by eapply forward_trans].
Qed.

(** C17. Units only move forward.  In every run, whatever the interleaving of the component's
    transactions, seals, transfers, reroutes, erasures, releases, destructions, replays
    of a recovery and crashes,
    a unit keeps its class, its grouping and its number, its state only moves from open
    to sealed, published, released and destroyed, its generation never falls, and the
    tombstone of a destroyed unit stays; a record that is a member of a unit stays one. *)
Theorem units_forward erasing recorded w w' id u : rtc (wstep erasing recorded) w w' → c_units (w_cat w) !! id = Some u →
  (∃ u', c_units (w_cat w') !! id = Some u' ∧ u_class u' = u_class u ∧ u_grouping u' = u_grouping u ∧ u_seq u' = u_seq u ∧
     rank (u_state u) ≤ rank (u_state u') ∧ u_generation u ≤ u_generation u' ∧
     (u_state u = Destroyed → u_destroyed_at u' = u_destroyed_at u ∧ u_tombstone u' = u_tombstone u)) ∧
  ∀ class r, c_members (w_cat w) !! (class, r) = Some id → c_members (w_cat w') !! (class, r) = Some id.
Proof. intros [H1 H2]%run_forward Hu. split; [by apply H1|]. intros class r Hm. by eapply lookup_weaken. Qed.

(** ** Destruction *)

Lemma destroyReasons_none now id u s : destroyReasons now id u s = [] →
  let cl := classOf (u_class u) in
  rt_Pending (cl_Retention cl) = false ∧ due now cl u = true ∧ approvedFor id (u_class u) s = true ∧ holdsOn id (u_class u) s = 0.
Proof.
  cbv zeta. unfold destroyReasons. set (cl := classOf (u_class u)). destruct (negb _ && negb _) eqn:Hp; [done|].
  set (pu := MkPlanUnit _ _ _ _ _ _ _ _ _ _ _). set (pc := MkPlanClass _ _ _ _). case_decide as Ha; [|destruct (dc_Reasons _); done]. intros _.
  destruct (Plan_gates now dp_N dp_Grace pc pu) as [(He & _ & Hnd)|[He _]]; [|congruence]. rewrite He in Ha.
  assert (Hdue : retentionDue pu ∨ u_state u = Open).
  { destruct (decide (u_state u = Open)); [by right|left]. by split. }
  destruct Hdue as [Hdue|Hopen].
  - rewrite (planState_destroy _ _ _ _ _ Hdue) in Ha. apply held_action in Ha; [|done]. apply app_nil in Ha as [H1 [H2 H3]%app_nil].
    apply when_nothing in H1, H2, H3. cbn in H1, H2, H3. apply negb_false_iff in H3. apply bool_decide_eq_false in H2.
    rewrite H1 in Hp. cbn in Hp. apply negb_false_iff in Hp. split_and!; try done. assert (0 ≤ holdsOn id (u_class u) s) by (unfold holdsOn; lia). lia.
  - exfalso. unfold planState in Ha. cbn in Ha. rewrite Hopen in Ha. cbn in Ha. repeat case_decide; cbn in Ha; done.
Qed.

(** C16. Nothing is destroyed against its retention.  When a step of any run leaves a unit
    destroyed that was not, the unit was sealed before it, its class's retention is not
    pending and has run out for the unit's latest anchor, an approval covers the unit or
    its class, and no hold does: none on the unit, on the class or on one of its records.
    The one exception is a full recovery that executes again a destruction recorded for
    this very unit (Replays): it checks none of this, by design. *)
Theorem destroyed_allowed erasing recorded w w' id u' :
  wstep erasing recorded w w' → c_units (w_cat w') !! id = Some u' → u_state u' = Destroyed →
  ∃ u, c_units (w_cat w) !! id = Some u ∧ (u_state u = Destroyed ∨
    (∃ basis, (id, basis) ∈ recorded ∧ u' = setDestroyed (w_now w) basis u) ∨
    let cl := classOf (u_class u) in
    u_state u ≠ Open ∧ rt_Pending (cl_Retention cl) = false ∧ due (w_now w) cl u = true ∧ approvedFor id (u_class u) (w_cat w) = true ∧
    ∀ hid h, c_holds (w_cat w) !! hid = Some h → ¬ holdCovers id (u_class u) (w_cat w) h).
Proof.
  intros Hst Hu' Hd. apply wstep_moves in Hst as [[M1 M2 _]|(unit & basis & u & Hin & Hu & Hs & Hw)]; [|rewrite Hw in Hu'; cbn in Hu';
    apply lookup_insert_Some in Hu' as [[<- <-]|[_ Hu']]; [exists u; split; [done|]; right; left; by exists basis|exists u'; split; [done|by left]]].
  destruct (c_units (w_cat w) !! id) as [u|] eqn:Hu; [|by destruct (M2 id u' Hu Hu')]. exists u. split; [done|].
  destruct (M1 id u Hu) as (x & Hx & _ & Hdx). assert (x = u') as -> by congruence. destruct (Hdx Hd) as [?|[Ho Hr]]; [by left|right; right].
  destruct (destroyReasons_none _ _ _ _ Hr) as (H1 & H2 & H3 & H4). cbv zeta. split_and!; try done. intros hid h Hh Hc.
  unfold holdsOn in H4. assert (Hz : size (filter (λ p : string * HoldRow, holdCovers id (u_class u) (w_cat w) p.2) (c_holds (w_cat w))) = 0%nat) by lia.
  apply map_size_empty_inv in Hz. assert (Hin : filter (λ p : string * HoldRow, holdCovers id (u_class u) (w_cat w) p.2) (c_holds (w_cat w)) !! hid = Some h).
  { apply map_lookup_filter_Some. done. }
  rewrite Hz in Hin. by rewrite lookup_empty in Hin.
Qed.
End runs.
