(* ===== verification/TierMove.v ===== *)
(** * Tiering: each transaction keeps the invariant

    Purging, releasing replaced versions, the orphans' rows, thawing, publishing and the
    deletion of online rows; the component's own transactions, which the write barrier
    keeps away from the rows of sealed units; and the sealing, which fixes a unit's
    content. *)
From S2P Require Import Prelude GoStr Canon CanonProps TierPlan TierRows TierRead TierStore TierSys TierSame TierInv TierKept TierForward.
From Stdlib Require Import Ascii String.
Open Scope string_scope.
Open Scope Z_scope.
Open Scope list_scope.

Section warm.
Context {HH : Hashes} {DD : Deploy} {OK : TierOk}.
Variable C : string → tables.

(** No manifest appears. *)
Lemma world_same now s s' o ps : worldOk C (MkWorld s o now ps) → adv now s s' → catOk C s' o now → c_manifests s' = c_manifests s →
  worldOk C (MkWorld s' o now ps).
Proof. intros Hw Ha Hc Hm. eapply world_cat; [done..|]. intros id v mr. rewrite Hm. congruence. Qed.

Lemma world_filter s o now ps P `{!∀ p, Decision (P p)} : worldOk C (MkWorld s o now ps) →
  (∀ id u v t l, pastUnit s id u → 0 ≤ v → c_warm s !! (id, v, t) = Some l → v = u_manifest_version u + 1 → P (id, v, t, l)) →
  (∀ id u v mr t l, pastUnit s id u → c_manifests s !! (id, v) = Some mr → c_warm s !! (id, v, t) = Some l → P (id, v, t, l) ∨
     ∃ mr', c_manifests s !! (id, v + 1) = Some mr' ∧ mr_created_at mr' + dp_Grace ≤ now) →
  worldOk C (MkWorld (setWarm (filter P) s) o now ps).
Proof.
  intros Hw H1 H2. destruct (filter_keeps C s o now P) as [Ha Hc]; [apply Hw|done|done|]. by eapply (world_same _ s (warmSet s (filter P (c_warm s)))).
Qed.

(** A unit's row of the manifests keeps all but the time it was superseded at. *)
Lemma manifest_alter s o now ps (f : ManifestRow → ManifestRow) k : (∀ m, sameRow m (f m)) → worldOk C (MkWorld s o now ps) →
  worldOk C (MkWorld (setManifests (alter f k) s) o now ps).
Proof.
  intros Hf Hw. set (s' := setManifests (alter f k) s).
  assert (Hfw : ∀ j mr, c_manifests s !! j = Some mr → ∃ mr', c_manifests s' !! j = Some mr' ∧ sameRow mr mr').
  { intros j mr Hm. unfold s'. cbn. destruct (decide (k = j)) as [<-|Hne]; [rewrite lookup_alter_eq, Hm|rewrite lookup_alter_ne by done]; eauto.
    by exists mr. }
  assert (Hbw : ∀ j mr', c_manifests s' !! j = Some mr' → ∃ mr, c_manifests s !! j = Some mr ∧ sameRow mr mr').
  { intros j mr'. unfold s'. cbn. destruct (decide (k = j)) as [<-|Hne]; [rewrite lookup_alter_eq|rewrite lookup_alter_ne by done].
    - destruct (c_manifests s !! k) as [mr|]; [|done]. intros [= <-]. eauto.
    - intros Hm. by exists mr'. }
  assert (Hn : ∀ j, c_manifests s !! j = None → c_manifests s' !! j = None).
  { intros j Hj. destruct (c_manifests s' !! j) as [mr'|] eqn:Hm; [|done]. destruct (Hbw _ _ Hm) as (? & ? & _). congruence. }
  eapply world_cat; [done| | |].
  - constructor.
    + intros id u Hu. exists u. split; [done|apply onwards_refl].
    + intros id v. apply Hfw.
    + intros id v mr' Hm. left. by apply Hbw.
    + done.
  - destruct (wo_cat _ _ Hw) as [C1 C2 C3 C4 C5 C6]. cbn in *. constructor; try done.
    + intros id u Hu Hp. destruct (C1 id u Hu Hp) as [H1 H2 H3 H4 H5 H6 H7 H8]. constructor; try done.
      * intros Hs. destruct (H5 Hs) as (? & ? & Hnone). split; [done|]. split; [done|]. intros v. apply Hn, Hnone.
      * intros Hs. destruct (H6 Hs) as (? & ? & (mr & Hm & Hr)). split; [done|]. split; [done|]. destruct (Hfw _ _ Hm) as (mr' & Hm' & (E & _)).
        exists mr'. split; [done|congruence].
      * intros v mr' Hm'. destruct (Hbw _ _ Hm') as (mr & Hm & (E1 & E2 & E3 & E4)). destruct (H7 v mr Hm) as [M1 M2 M3 M4 M5 M6].
        assert (Hnext : ∀ x, c_manifests s !! (id, v + 1) = Some x → ∃ y, c_manifests s' !! (id, v + 1) = Some y ∧ mr_created_at y = mr_created_at x).
        { intros x Hx. destruct (Hfw _ _ Hx) as (y & Hy & (_ & _ & _ & E)). exists y. by rewrite E. }
        constructor; rewrite <- ?E2, <- ?E3, <- ?E4; try done.
        -- intros Hlt. destruct (M5 Hlt) as (x & Hx & Hle). destruct (Hnext x Hx) as (y & Hy & E). exists y. split; [done|lia].
        -- destruct M6 as [M6|(x & Hx & Hle)]; [left|right].
           ++ unfold copyOk in *. rewrite <- E1, <- E3. done.
           ++ destruct (Hnext x Hx) as (y & Hy & E). exists y. split; [done|lia].
    + intros id Hf'. destruct (C2 id Hf') as (F1 & F2 & F3). split; [done|]. split; [done|]. intros v. apply Hn, F3.
    + intros id v mr' Hm'. destruct (Hbw _ _ Hm') as (mr & Hm & (_ & _ & _ & E4)). rewrite <- E4. by eapply C6.
  - intros id v mr' Hno Hm. rewrite Hn in Hm by done. done.
Qed.

Lemma purge_world unit u s x s' o now ps : worldOk C (MkWorld s o now ps) → c_units s !! unit = Some u → u_state u = Destroyed →
  purgeRows unit s = Ok (x, s') → worldOk C (MkWorld s' o now ps).
Proof.
  unfold purgeRows. intros Hw Hu Hd Hp. inv_cat. assert (Hno : ∀ i x, pastUnit s i x → i ≠ unit) by (intros i y [Hy [_ Hz]] ->; simplify_eq).
  apply (world_filter (setThaws (delete unit) s)).
  - eapply world_core; [|done]. done.
  - intros id y v t l Hp _ _ _. by eapply Hno.
  - intros id y v mr t l Hp _ _. left. by eapply Hno.
Qed.

Lemma old_world unit v u s x s' o now ps : worldOk C (MkWorld s o now ps) → c_units s !! unit = Some u →
  (past u → ∃ mr', c_manifests s !! (unit, v + 1) = Some mr' ∧ mr_created_at mr' + dp_Grace ≤ now) →
  deleteOld now unit v s = Ok (x, s') → worldOk C (MkWorld s' o now ps).
Proof.
  unfold deleteOld. intros Hw Hu Hg Hp. inv_cat. apply manifest_alter; [done|]. apply world_filter; [done|..].
  - intros id y w t l [Hy Hpy] _ _ Hv [E1 E2]. cbn in E1, E2. simplify_eq. destruct (Hg Hpy) as (mr & Hm & _).
    destruct (mk_version _ _ _ _ _ _ _ _ (uo_manifests _ _ _ _ _ _ (co_units _ _ _ _ (wo_cat _ _ Hw) unit u Hu Hpy) _ _ Hm)). lia.
  - intros id y w mr t l [Hy Hpy] _ _. destruct (decide (id = unit ∧ w = v)) as [[-> ->]|?]; [|by left]. right. simplify_eq. by apply Hg.
Qed.

Lemma orphans_world class unit s x s' o now ps : worldOk C (MkWorld s o now ps) → deleteOrphans now class unit s = Ok (x, s') →
  worldOk C (MkWorld s' o now ps).
Proof.
  unfold deleteOrphans. intros Hw Hp. inv_cat.
  apply (world_core C (setWarm (filter (λ p : string * Z * string * list (string * crow),
    ¬ orphanRows class unit s p ∧ ¬ (p.1.1.2 = -1 ∧ thawOver now class unit s p.1.1.1))) s)); [done|]. apply world_filter; [done|..].
  - intros id y v t l [Hy Hpy] Hv _ ->. cbn. split; [|intros [? _]; lia]. unfold orphanRows. cbn. rewrite Hy. intros (_ & _ & _ & _ & ?). done.
  - intros id y v mr t l [Hy Hpy] Hm _. left.
    destruct (mk_version _ _ _ _ _ _ _ _ (uo_manifests _ _ _ _ _ _ (co_units _ _ _ _ (wo_cat _ _ Hw) id y Hy Hpy) _ _ Hm)). pose proof ok_version.
    cbn. split; [|intros [? _]; lia]. unfold orphanRows. cbn. rewrite Hm. by intros (_ & _ & ? & _).
Qed.

Lemma thaw_world unit class ttl aggs s x s' o now ps : worldOk C (MkWorld s o now ps) → putThaw now unit class ttl aggs s = Ok (x, s') →
  worldOk C (MkWorld s' o now ps).
Proof.
  unfold putThaw. intros Hw Hp. inv_cat. rename v into rs.
  set (g := λ p : string * list (string * crow), ((unit, thawVersion, p.1), p.2)).
  set (w := (list_to_map (map g rs) : gmap _ _) ∪ filter (λ p : string * Z * string * list (string * crow), ¬ (p.1.1 = (unit, thawVersion))) (c_warm s)).
  assert (Hsame : ∀ id v t, 0 ≤ v → w !! (id, v, t) = c_warm s !! (id, v, t)).
  { intros id v t Hv. unfold w. rewrite lookup_union_r.
    - destruct (c_warm s !! (id, v, t)) as [l|] eqn:Hl; [apply map_lookup_filter_Some; split; [done|]|apply map_lookup_filter_None; by left].
      cbn. unfold thawVersion. intros [= -> ->]. lia.
    - apply not_elem_of_list_to_map_1. rewrite map_map. intros (q & Hq & _)%list_elem_of_fmap. unfold g, thawVersion in Hq. cbn in Hq. injection Hq as _ -> _. lia. }
  pose proof (wo_cat _ _ Hw) as Hcat. cbn in Hcat. eapply world_core; [|apply (world_same now s (warmSet s w) o ps); [done| | |done]]; [done|..].
  - apply adv_warm. intros id u t Hpu. rewrite Hsame; [done|]. pose proof ok_version. pose proof (uo_version _ _ _ _ _ _ (co_units _ _ _ _ Hcat id u (proj1 Hpu) (proj2 Hpu))). lia.
  - apply catOk_warm; [done|..].
    + intros id u v t l Hpu Hv Ht. rewrite Hsame by done. by apply (uo_warm _ _ _ _ _ _ (co_units _ _ _ _ Hcat id u (proj1 Hpu) (proj2 Hpu))).
    + intros id u v mr t Hpu Hm. rewrite Hsame; [by left|].
      destruct (mk_version _ _ _ _ _ _ _ _ (uo_manifests _ _ _ _ _ _ (co_units _ _ _ _ Hcat id u (proj1 Hpu) (proj2 Hpu)) _ _ Hm)). pose proof ok_version. lia.
    + intros id v t Hf Hv. rewrite Hsame by done. by apply (co_fresh _ _ _ _ Hcat id Hf).
Qed.
End warm.

Section rows.
Context {HH : Hashes} {DD : Deploy} {OK : TierOk}.
Variable C : string → tables.

(** ** Destruction *)

Lemma destroy_ok now unit basis s why s' : destroyDecide now unit basis s = Ok (why, s') → s' = s ∧ why ≠ [] ∨
  ∃ u, c_units s !! unit = Some u ∧ u_state u ≠ Open ∧ s' = bumpVersion (setUnits (insert unit (setDestroyed now basis u)) s).
Proof.
  unfold destroyDecide, markDestroyed, putUnit. intros Hd. inv_cat. case_decide as Hs; inv_cat; [by left|].
  destruct (destroyReasons now unit _ _) eqn:Hr; inv_cat; [right|by left]. eexists. split_and!; [done| |done]. intros He. apply Hs. by right.
Qed.
Lemma world_destroyed now unit basis s u o ps : worldOk C (MkWorld s o now ps) → c_units s !! unit = Some u →
  worldOk C (MkWorld (bumpVersion (setUnits (insert unit (setDestroyed now basis u)) s)) o now ps).
Proof.
  intros Hw Hu. assert (Hon : onwards now u (setDestroyed now basis u)) by (unfold onwards; cbn; split_and!; (done || lia || auto)).
  eapply world_core; [|eapply (world_same C now s (setUnits (insert unit (setDestroyed now basis u)) s)); [done|..]]; [done|..].
  - by apply (adv_unit s now unit u).
  - apply (catOk_unit C s o now unit u); [apply Hw|done|done|by intros [_ ?]|done].
  - done.
Qed.
Lemma destroy_world now unit basis s why s' o ps : worldOk C (MkWorld s o now ps) → destroyDecide now unit basis s = Ok (why, s') →
  worldOk C (MkWorld s' o now ps).
Proof. intros Hw [[-> _]|(u & Hu & Ho & ->)]%destroy_ok; [done|]. by apply world_destroyed. Qed.

(** ** Deleting online rows *)

Lemma dropUnder_keeps roots n rows l k : dropUnder roots n rows = (l, k) →
  filter (λ r, r_root r ∉ roots) l = filter (λ r, r_root r ∉ roots) rows ∧ ∀ r, r ∈ l → r ∈ rows.
Proof.
  revert n l k. induction rows as [|r rows IH]; intros n l k; cbn [dropUnder]; [by intros [= <- _]|]. destruct n as [|n]; [by intros [= <- _]|].
  case_decide as Hr.
  - destruct (dropUnder roots n rows) as [l' k'] eqn:Hd. intros [= <- _]. destruct (IH _ _ _ Hd) as [E1 E2]. rewrite filter_cons_False by (intros Hx; by apply Hx).
    split; [done|]. intros x Hx. apply list_elem_of_further. by apply E2.
  - destruct (dropUnder roots (S n) rows) as [l' k'] eqn:Hd. intros [= <- _]. destruct (IH _ _ _ Hd) as [E1 E2]. rewrite !filter_cons_True by done.
    split; [by rewrite E1|]. intros x [->|Hx]%elem_of_cons; [apply list_elem_of_here|]. apply list_elem_of_further. by apply E2.
Qed.

(** Only rows under a unit's roots are gone, and only from some tables. *)
Record dropped (names : list string) (unit : string) (s s' : Cat) : Prop := {
  dr_same : c_units s' = c_units s ∧ c_members s' = c_members s ∧ c_warm s' = c_warm s ∧ c_manifests s' = c_manifests s;
  dr_rows : ∀ t, filter (λ r, r_root r ∉ rootsIn unit s) (onlineRows s' t) = filter (λ r, r_root r ∉ rootsIn unit s) (onlineRows s t);
  dr_sub : ∀ t r, r ∈ onlineRows s' t → r ∈ onlineRows s t;
  dr_other : ∀ t, t ∉ names → onlineRows s' t = onlineRows s t }.
Lemma dropped_refl names unit s : dropped names unit s s.
Proof. constructor; done. Qed.
Lemma dropped_roots names unit s s' : dropped names unit s s' → rootsIn unit s' = rootsIn unit s.
Proof. intros [(_ & E & _) _ _ _]. unfold rootsIn. by rewrite E. Qed.
Lemma dropped_trans names unit s1 s2 s3 : dropped names unit s1 s2 → dropped names unit s2 s3 → dropped names unit s1 s3.
Proof.
  intros H1 H2. pose proof (dropped_roots _ _ _ _ H1) as Hr. destruct H1 as [(A1 & A2 & A3 & A4) B1 C1 D1], H2 as [(A1' & A2' & A3' & A4') B2 C2 D2].
  constructor; [split_and!; congruence|..].
  - intros t. rewrite <- B1. rewrite Hr in B2. apply B2.
  - auto.
  - intros t Ht. rewrite D2, D1; done.
Qed.
Lemma deleteFrom_drops names unit t s n s' : t ∈ names → deleteFrom unit t s = Ok (n, s') → dropped names unit s s'.
Proof.
  unfold deleteFrom. intros Ht Hd. inv_cat. destruct (dropUnder _ _ _) as [rest gone] eqn:Hr. inv_cat. destruct (dropUnder_keeps _ _ _ _ _ Hr) as [E1 E2].
  assert (Hl : ∀ t', onlineRows (setOnline (insert t rest) s) t' = if decide (t = t') then rest else onlineRows s t').
  { intros t'. unfold onlineRows. cbn. case_decide as He; [subst; by rewrite lookup_insert_eq|by rewrite lookup_insert_ne]. }
  constructor; [done|..]; intros t'; rewrite Hl; case_decide as He; subst; try done.
Qed.
Lemma deleteFirst_drops names unit ts s b s' : (∀ t, t ∈ ts → t ∈ names) → deleteFirst unit ts s = Ok (b, s') → dropped names unit s s'.
Proof.
  revert s. induction ts as [|t ts IH]; intros s Hin; cbn [deleteFirst]; intros Hd; inv_cat; [apply dropped_refl|].
  match goal with H : deleteFrom _ _ _ = Ok (?n, ?s1) |- _ => pose proof (deleteFrom_drops names _ _ _ _ _ (Hin t (list_elem_of_here _ _)) H) as H1 end.
  case_decide; inv_cat; [|done]. eapply dropped_trans; [exact H1|]. apply IH; [|done]. intros t' Ht'. apply Hin. by apply list_elem_of_further.
Qed.


Lemma filter_both {A} (P Q : A → Prop) `{!∀ x, Decision (P x)} `{!∀ x, Decision (Q x)} (l l' : list A) :
  filter Q l = filter Q l' → (∀ x, P x → Q x) → filter P l = filter P l'.
Proof.
  intros He Hi. assert (Hf : ∀ k : list A, filter P k = filter P (filter Q k)).
  { intros k. rewrite list_filter_filter. apply list_filter_iff. intros x. split; [|by intros []]. intros HP. split; auto. }
  by rewrite (Hf l), (Hf l'), He.
Qed.
Lemma rootsIn_spec unit s r : r ∈ rootsIn unit s → ∃ class, c_members s !! (class, r) = Some unit.
Proof.
  unfold rootsIn. intros ([[c x] y] & Hx & Hin)%list_elem_of_fmap. cbn in Hx. subst x. apply list_elem_of_filter in Hin as [Hy Hin%elem_of_map_to_list].
  cbn in Hy. subst y. by exists c.
Qed.

(** The tables of another class are apart, those of a class that is not known too. *)
Lemma tables_apart n n' cl t : dp_Classes !! n = Some cl → t ∈ Tables cl → n ≠ n' → t_Name t ∉ map t_Name (Tables (classOf n')).
Proof.
  intros Hn Ht Hne (t' & He & Ht')%list_elem_of_fmap. unfold classOf in Ht'. destruct (dp_Classes !! n') as [cl'|] eqn:Hn'; cbn [default] in Ht'.
  - by eapply (ok_apart n n').
  - destruct (ok_check _ _ Hn) as (k & regs & Hc). apply list_elem_of_singleton in Ht'. subst t'. by eapply Check_named.
Qed.
Lemma dropped_under unit x s s' o now i u t : catOk C s o now → c_units s !! unit = Some x → dropped (map t_Name (Tables (classOf (u_class x)))) unit s s' →
  i ≠ unit → pastUnit s i u → t ∈ Tables (clOf u) → under s' (clOf u) i t = under s (clOf u) i t.
Proof.
  intros Hcat Hx [(_ & E2 & _) Hr _ Ho] Hne [Hu Hp] Ht. pose proof (uo_class _ _ _ _ _ _ (co_units _ _ _ _ Hcat i u Hu Hp)) as Hcl.
  unfold under. rewrite E2. destruct (decide (u_class u = u_class x)) as [Hc|Hc].
  - eapply filter_both; [apply Hr|]. intros r Hm (class & Hm')%rootsIn_spec. destruct (co_members _ _ _ _ Hcat _ _ _ Hm') as (y & Hy & <-). simplify_eq.
    rewrite (ok_name _ _ Hcl) in Hm. rewrite <- Hc in Hm'. congruence.
  - rewrite Ho; [done|]. by eapply tables_apart.
Qed.

(** What rows are deleted for. *)
Lemma dropped_world unit u s s' o now ps : worldOk C (MkWorld s o now ps) → c_units s !! unit = Some u → u_state u ≠ Open →
  (past u → u_state u ≠ Sealed ∧ ∀ pa, u_published_at u = Some pa → pa + dp_Grace ≤ now) → dropped (map t_Name (Tables (classOf (u_class u)))) unit s s' →
  worldOk C (MkWorld s' o now ps).
Proof.
  intros Hw Hu Ho Hp Hd. pose proof Hd as [(E1 & E2 & E3 & E4) _ Hsub _]. pose proof (wo_cat _ _ Hw) as Hcat. cbn in Hcat. eapply (world_same C now s); [done| | |done].
  - constructor; unfold pastUnit; rewrite ?E1, ?E3, ?E4; [| | |done].
    + intros id x Hx. exists x. split; [done|apply onwards_refl].
    + intros id v mr Hm. by exists mr.
    + intros id v mr Hm. left. by exists mr.
  - apply (catOk_one C s s' o now unit Hcat); rewrite ?E1, ?E2, ?E3, ?E4; try done.
    + intros i x t Hne Hpx Ht. by eapply dropped_under.
    + intros x Hx Hpx. simplify_eq. destruct (Hp Hpx) as [Hns Hpa]. destruct (co_units _ _ _ _ Hcat _ _ Hu Hpx) as [H1 H2 H3 H4 H5 H6 H7 H8].
      constructor; rewrite ?E4; try done.
      * intros Hs. destruct (H6 Hs) as (W & (pa & P1 & P2 & _) & M). split; [done|]. split; [|done]. exists pa. split; [done|]. split; [done|].
        specialize (Hpa pa P1). lia.
      * intros v mr Hm. destruct (H7 v mr Hm) as [M1 M2 M3 M4 M5 M6]. constructor; rewrite ?E4; try done. destruct M6 as [M6|M6]; [left|by right].
        unfold copyOk, warmCopy in *. by rewrite E3.
      * by rewrite E3.
    + intros Hf. destruct Ho. apply Hf. by rewrite E1.
    + intros x Hx Hox. simplify_eq.
    + intros class r. apply (co_members _ _ _ _ Hcat).
    + intros t r Hr. by eapply (co_online _ _ _ _ Hcat), Hsub.
    + intros v mr. apply (co_created _ _ _ _ Hcat).
Qed.

Lemma deleteTurn_drops unit cl last s b s' : deleteTurn unit cl last s = Ok (b, s') →
  ∃ s1, dropped (map t_Name (Tables cl)) unit s s1 ∧ (b = false ∧ s' = s1 ∨ b = true ∧ last s1 = Ok (tt, s')).
Proof.
  unfold deleteTurn. intros Hd. inv_cat. match goal with H : deleteFirst _ _ _ = Ok (?n, ?s1) |- _ => exists s1;
    eapply (deleteFirst_drops (map t_Name (Tables cl))) in H end.
  - split; [done|]. match type of Hd with (if ?b then _ else _) _ = _ => destruct b end; inv_cat; [|by left]. right. by destruct v.
  - intros t [Ht|Ht%list_elem_of_singleton]%elem_of_app; [|subst; apply list_elem_of_here]. apply list_elem_of_fmap in Ht as (ch & -> & Hch).
    rewrite byDepth_perm in Hch. apply list_elem_of_further. apply (list_elem_of_fmap_2 t_Name _ (ch_Table ch)). by apply list_elem_of_fmap_2.
Qed.
Lemma turn_world unit u d s b s' o now ps : worldOk C (MkWorld s o now ps) → c_units s !! unit = Some u → u_state u ≠ Open →
  (past u → u_state u ≠ Sealed ∧ ∀ pa, u_published_at u = Some pa → pa + dp_Grace ≤ now) →
  deleteTurn unit (classOf (u_class u)) (lastTurn unit d) s = Ok (b, s') →
  worldOk C (MkWorld s' o now ps) ∧ ∃ u', c_units s' !! unit = Some u' ∧ u_class u' = u_class u ∧ u_published_at u' = u_published_at u ∧
    (u_state u' = u_state u ∨ u_state u = Published ∧ u_state u' = Released).
Proof.
  intros Hw Hu Ho Hp (s1 & Hd & Hb)%deleteTurn_drops. pose proof (dropped_world _ _ _ _ _ _ _ Hw Hu Ho Hp Hd) as Hw1.
  pose proof Hd as [(E1 & _) _ _ _]. rewrite <- E1 in Hu. destruct Hb as [[-> ->]|[-> Hl]]; [split; [done|]; exists u; auto|].
  destruct d; cbn [lastTurn] in Hl; [|unfold tret in Hl; injection Hl as <-; split; [done|]; exists u; auto..].
  unfold releaseLast, putUnit in Hl. inv_cat. match goal with H : (if _ then _ else _) _ = Ok _ |- _ => revert H end. case_decide as Hst; intros Hl; inv_cat.
  - assert (Hon : onwards now u (setState Released u)) by (unfold onwards; cbn; rewrite Hst; split_and!; (done || lia || auto)).
    assert (Hpu : past u) by (split; congruence). destruct (Hp Hpu) as [Hns Hpa]. pose proof (wo_cat _ _ Hw1) as Hcat. cbn in Hcat. split.
    + eapply world_core; [|eapply (world_same C now s1 (setUnits (insert unit (setState Released u)) s1)); [done|by apply (adv_unit s1 now unit u)| |done]]; [done|].
      apply (catOk_unit C s1 o now unit u); [done|done|done| |done]. intros _.
      destruct (co_units _ _ _ _ Hcat _ _ Hu Hpu) as [H1 H2 H3 H4 H5 H6 H7 H8]. constructor; try done.
      * intros _. destruct (H6 Hns) as (W & (pa & P1 & P2 & _) & M). split; [done|]. split; [|done]. exists pa. split; [done|]. split; [done|].
        specialize (Hpa pa P1). lia.
      * intros v mr Hm. destruct (H7 v mr Hm) as [M1 M2 M3 M4 M5 M6]. by constructor.
    + exists (setState Released u). cbn. rewrite lookup_insert_eq. split_and!; [done..|by right].
  - split; [eapply (world_core C); [|exact Hw1]; done|]. exists u. auto.
Qed.
End rows.

(** ** Publishing *)

Section publish.
Context {HH : Hashes} {DD : Deploy} {OK : TierOk}.
Variable C : string → tables.

Definition publishedUnit (now : Z) (m : Manifest) (version : Z) (u : Unit) : Unit :=
  if decide (u_state u = Sealed) then setPublished now (m_Route m) (m_Version m) version u else setRewritten (m_Route m) (m_Version m) (m_Digest m) version u.
Definition publishedRow (now : Z) (c : Claim) (m : Manifest) : ManifestRow := MkManifestRow (m_Route m) (cm_Generation c) m now None.
Definition publishedCat (now : Z) (c : Claim) (m : Manifest) (u : Unit) (s : Cat) : Cat :=
  setUnits (insert (cm_Unit c) (publishedUnit now m (c_version s + 1) u))
    (bumpVersion (setManifests (insert (cm_Unit c, m_Version m) (publishedRow now c m)) s)).
Lemma publish_ok now c m s x s' : publish now c m s = Ok (x, s') →
  ∃ u, c_units s !! cm_Unit c = Some u ∧ current s u c m = true ∧ s' = publishedCat now c m u s.
Proof. unfold publish, putUnit. intros Hp. inv_cat. eexists. split; [done|]. by split. Qed.

Section published.
Context (now d : Z) (c : Claim) (m : Manifest) (u : Unit) (s : Cat) (o : objects) (Hcat : catOk C s o now).
Context (Hwork : workOk C s now d c m None) (Hd : now ≤ d) (Hu : c_units s !! cm_Unit c = Some u) (Hcur : current s u c m = true).
Context (Hwhole : live s c → whole (classOf (cm_Class c)) (C (cm_Unit c)) ∧ (m_Route m = Postgres → present s c) ∧
         (m_Route m = ObjectParquet → objectCopy o (classOf (cm_Class c)) m (C (cm_Unit c)))).
Let s' := publishedCat now c m u s.
Let u' := publishedUnit now m (c_version s + 1) u.
Let id := cm_Unit c.

Lemma current_facts : past u ∧ u_manifest_version u + 1 = m_Version m ∧ u_generation u = cm_Generation c ∧ m_Digest m = cm_Digest c ∧
  cm_Class c = u_class u ∧ live s c ∧ (m_Route m = Postgres ∨ m_Route m = ObjectParquet) ∧ firstVersion ≤ u_manifest_version u.
Proof.
  unfold current in Hcur. repeat (apply andb_true_iff in Hcur as [Hcur ?]). repeat match goal with H : bool_decide _ = true |- _ => apply bool_decide_eq_true in H end.
  destruct Hwork as (_ & [(x & Hx & Ho & Hc & _ & _ & _) (Hv & Hf & Hst) _ _] & _ & (_ & _ & M3 & _ & M5 & _ & M7 & _)). rewrite Hu in Hx. injection Hx as <-.
  assert (Hp : past u) by (split; congruence). split_and!; try done; [lia|exists u; by split_and!|lia].
Qed.
Lemma fresh_version : c_manifests s !! (id, m_Version m) = None.
Proof.
  destruct current_facts as (Hp & Hv & _). destruct (c_manifests s !! (id, m_Version m)) as [mr|] eqn:Hm; [|done].
  destruct (mk_version _ _ _ _ _ _ _ _ (uo_manifests _ _ _ _ _ _ (co_units _ _ _ _ Hcat id u Hu Hp) _ _ Hm)). lia.
Qed.
Lemma published_fields : u_class u' = u_class u ∧ u_generation u' = u_generation u ∧ u_manifest_version u' = m_Version m ∧ u_route u' = m_Route m ∧
  u_state u' ≠ Sealed ∧ u_state u' ≠ Open ∧ u_state u' ≠ Destroyed ∧
  (u_state u = Sealed ∧ u_published_at u' = Some now ∧ u_state u' = Published ∧ u_digest u' = u_digest u ∨
   u_state u ≠ Sealed ∧ u_published_at u' = u_published_at u ∧ u_state u' = u_state u ∧ u_digest u' = m_Digest m).
Proof.
  destruct current_facts as ([Hp1 Hp2] & _). unfold u', publishedUnit. case_decide as Hs; cbn; split_and!; try done; [by left|by right].
Qed.
Lemma published_onwards : onwards now u u'.
Proof.
  destruct current_facts as ([Hp1 Hp2] & Hv & _), published_fields as (E1 & E2 & E3 & E4 & E5 & E6 & E7 & E8). unfold onwards. split_and!; try done; try lia.
  intros pa Hpa. destruct E8 as [(Hs & Hn & _)|(_ & Hn & _)]; rewrite Hn in Hpa; [|by left]. right. by injection Hpa.
Qed.
Lemma published_self : c_units s' !! id = Some u'.
Proof. unfold s', publishedCat, id, u'. cbn. by rewrite lookup_insert_eq. Qed.
Lemma published_mans v : c_manifests s' !! (id, v) = if decide (v = m_Version m) then Some (publishedRow now c m) else c_manifests s !! (id, v).
Proof. unfold s', publishedCat. cbn. case_decide as He; [subst v; by rewrite lookup_insert_eq|rewrite lookup_insert_ne; [done|congruence]]. Qed.
Lemma published_others i v : i ≠ id → c_manifests s' !! (i, v) = c_manifests s !! (i, v).
Proof. intros Hi. unfold s', publishedCat, id in *. cbn. rewrite lookup_insert_ne; [done|congruence]. Qed.
Lemma published_units i : i ≠ id → c_units s' !! i = c_units s !! i.
Proof. intros Hi. unfold s', publishedCat, id in *. cbn. by rewrite lookup_insert_ne. Qed.

Lemma published_adv : adv now s s'.
Proof.
  destruct current_facts as (Hp & Hv & _). apply (adv_one s s' now id); [apply published_units|done|apply published_others|..|done].
  - intros x Hx. unfold id in Hx. rewrite Hu in Hx. injection Hx as <-. exists u'. split; [apply published_self|apply published_onwards].
  - intros v mr Hm. rewrite published_mans. case_decide as He; [subst v; by rewrite fresh_version in Hm|]. by exists mr.
  - intros v mr. rewrite published_mans. case_decide as He; [|intros Hm; left; by exists mr]. intros [= <-]. right. subst v. split; [apply fresh_version|].
    split; [done|]. exists u. split; [done|lia].
Qed.
Lemma published_manifest v mr : c_manifests s' !! (id, v) = Some mr → manifestOk C s' o now id u' v mr.
Proof.
  destruct current_facts as (Hp & Hv & Hg & _ & Hc & Hl & Hr & Hf), published_fields as (E1 & E2 & E3 & _).
  destruct (co_units _ _ _ _ Hcat id u Hu Hp) as [_ _ _ _ _ _ H7 H8]. assert (Hcl : clOf u' = clOf u) by (unfold clOf; by rewrite E1).
  destruct (Hwhole Hl) as (_ & Hpr & Hob). unfold present in Hpr. rewrite Hc in Hpr, Hob. rewrite published_mans. case_decide as He.
  - intros [= <-]. subst v. constructor; unfold publishedRow; cbn; rewrite ?E1, ?E2, ?E3; try lia.
    + destruct Hwork as (_ & _ & _ & (M1 & M2 & M3 & M4 & _ & _ & _ & M5)). split_and!; try done. congruence.
    + left. rewrite Hcl. unfold copyOk. cbn. destruct Hr as [Hr|Hr]; rewrite Hr; [|by apply Hob]. intros t Ht.
      destruct Hwork as (_ & _ & _ & (_ & _ & M3 & _)). specialize (Hpr Hr). rewrite <- M3 in Hpr. destruct (Hpr t Ht) as [l Hlk]. exists l. split; [done|].
      apply (H8 (m_Version m) t); [pose proof ok_version; lia|done|done].
  - intros Hm. destruct (H7 v mr Hm) as [M1 M2 M3 M4 M5 M6]. constructor; rewrite ?E1, ?E2, ?E3, ?Hcl; try done; [lia| |].
    + intros Hlt. rewrite published_mans. case_decide as Hv'; [exists (publishedRow now c m); by split|apply M5; lia].
    + destruct M6 as [M6|(mr' & Hm' & Hg')]; [by left|right]. exists mr'. rewrite published_mans. case_decide as Hv'; [|done].
      rewrite Hv' in Hm'. by rewrite fresh_version in Hm'.
Qed.
Lemma published_unit : unitOk C s' o now id u'.
Proof.
  destruct current_facts as (Hp & Hv & Hg & Hdg & Hc & Hl & Hr & Hf), published_fields as (E1 & E2 & E3 & E4 & E5 & E6 & E7 & E8).
  pose proof (co_units _ _ _ _ Hcat id u Hu Hp) as [H1 H2 H3 H4 H5 H6 H7 H8]. assert (Hcl : clOf u' = clOf u) by (unfold clOf; by rewrite E1).
  constructor; rewrite ?Hcl, ?E1, ?E3; try done; [|lia| |apply published_manifest].
  - destruct E8 as [(_ & _ & _ & ->)|(_ & _ & _ & ->)]; [done|]. rewrite Hdg. destruct Hwork as (_ & _ & Hdf & _). apply (Hdf u). by split.
  - intros _. destruct (Hwhole Hl) as (Hwh & _). rewrite Hc in Hwh. split; [done|]. split.
    + destruct E8 as [(Hs & -> & -> & _)|(Hs & -> & -> & _)]; [|by apply H6]. exists now. split; [done|]. split; [lia|]. intros _. split; [|done]. by apply H5.
    + exists (publishedRow now c m). rewrite published_mans, decide_True by done. by rewrite E4.
Qed.
Lemma published_cat : catOk C s' o now.
Proof.
  destruct current_facts as (Hp & _), published_fields as (E1 & _ & _ & _ & _ & E6 & _).
  assert (Hself : ∀ x, c_units s' !! id = Some x → x = u') by (intros x; rewrite published_self; by intros [= <-]).
  apply (catOk_one C s s' o now id Hcat); [apply published_units|done|apply published_others|done|done|..].
  - intros x ->%Hself _. apply published_unit.
  - intros Hf. destruct E6. apply Hf, published_self.
  - by intros x ->%Hself Ho.
  - intros class r Hm. destruct (co_members _ _ _ _ Hcat class r id Hm) as (x & Hx & <-). unfold id in Hx. rewrite Hu in Hx. injection Hx as <-.
    exists u'. split; [apply published_self|done].
  - apply (co_online _ _ _ _ Hcat).
  - intros v mr. rewrite published_mans. case_decide; [by intros [= <-]|apply (co_created _ _ _ _ Hcat)].
Qed.
End published.

Lemma publish_world i d c m s x s' o now ps : worldOk C (MkWorld s o now ps) → ps !! i = Some (d, Publishing c m None) → now ≤ d →
  publishAlso now c m None s = Ok (x, s') → worldOk C (MkWorld s' o now ps).
Proof.
  unfold publishAlso. intros Hw Hi Hd Hp. inv_cat. match goal with H : publish _ _ _ _ = Ok _ |- _ => destruct (publish_ok _ _ _ _ _ _ H) as (u & Hu & Hcur & ->) end.
  destruct (wo_procs _ _ Hw _ _ _ Hi) as [Hwork Hwh]. specialize (Hwh Hd). pose proof (wo_cat _ _ Hw) as Hcat. cbn in Hcat, Hwork, Hwh.
  eapply world_cat; [done|by eapply published_adv|by eapply published_cat|]. intros id n mr' Hn Hm.
  destruct (decide (id = cm_Unit c)) as [->|Hne]; [|rewrite published_others in Hm by done; congruence].
  rewrite published_mans in Hm. case_decide; [|congruence]. injection Hm as <-. by exists i, d, (Publishing c m None), c.
Qed.
End publish.

Section write.
Context {HH : Hashes} {DD : Deploy} {OK : TierOk}.
Variable C : string → tables.

Lemma world_online s on o now ps : worldOk C (MkWorld s o now ps) → let s' := setOnline (λ _, on) s in
  (∀ i u t, pastUnit s i u → t ∈ Tables (clOf u) → under s' (clOf u) i t = under s (clOf u) i t) → (∀ t r, r ∈ onlineRows s' t → rowOk (r_row r)) →
  worldOk C (MkWorld s' o now ps).
Proof.
  intros Hw s' Hu Hr. pose proof (wo_cat _ _ Hw) as [C1 C2 C3 C4 C5 C6]. apply (world_same C now s); [done| | |done].
  - constructor; [|intros id v mr Hm; by exists mr|intros id v mr Hm; left; by exists mr|done]. intros id u Hx. exists u. split; [done|apply onwards_refl].
  - constructor; try done. intros id u Hx Hp. eapply unitOk_view; [by apply C1|done|done|]. intros t Ht. by apply Hu.
Qed.

Lemma filter_insert_out {A} (P : A → Prop) `{!∀ x, Decision (P x)} (l : list A) i old r : l !! i = Some old → ¬ P old → ¬ P r → filter P (<[i := r]> l) = filter P l.
Proof.
  intros Hi Ho Hr. rewrite (insert_take_drop l i r) by (by eapply lookup_lt_Some). rewrite <- (take_drop_middle l i old Hi) at 3.
  by rewrite !filter_app, !filter_cons_False.
Qed.
Lemma filter_delete_out {A} (P : A → Prop) `{!∀ x, Decision (P x)} (l : list A) i old : l !! i = Some old → ¬ P old → filter P (delete i l) = filter P l.
Proof. intros Hi Ho. rewrite delete_take_drop. rewrite <- (take_drop_middle l i old Hi) at 3. by rewrite !filter_app, filter_cons_False. Qed.

(** The barrier: no row of a sealed unit. *)
Lemma barrier_ok t rows s x s' : barrier t rows s = Ok (x, s') → s' = s ∧ ∀ r class, r ∈ rows → class ∈ triggers t → barred class s r = false.
Proof.
  unfold barrier. intros Hb. inv_cat. split; [done|]. apply negb_true_iff in H. intros r class Hr Hc. destruct (barred class s r) eqn:Hx; [|done].
  assert (existsb (λ class, existsb (barred class s) rows) (triggers t) = true); [|congruence]. apply existsb_exists. exists class.
  split; [by apply list_elem_of_In|]. apply existsb_exists. exists r. split; [by apply list_elem_of_In|done].
Qed.
Lemma trigger_in class cl t : dp_Classes !! class = Some cl → Tierable cl = true → t ∈ Tables cl → class ∈ triggers (t_Name t).
Proof.
  intros Hc Ht Hin. unfold triggers. apply list_elem_of_fmap. exists (class, cl). split; [done|]. apply list_elem_of_filter.
  split; [|by apply elem_of_map_to_list]. split; [done|]. by apply list_elem_of_fmap_2.
Qed.
Lemma barred_not s o now (rows : list Rec) t i u r : catOk C s o now → pastUnit s i u → t ∈ Tables (clOf u) →
  (∀ r class, r ∈ rows → class ∈ triggers (t_Name t) → barred class s r = false) → r ∈ rows → c_members s !! (cl_Name (clOf u), r_root r) ≠ Some i.
Proof.
  intros Hcat [Hu [Hp1 Hp2]] Ht Hb Hr Hm. destruct (co_units _ _ _ _ Hcat _ _ Hu) as [Hc [_ Hti] _ _ _ _ _ _]; [done|].
  specialize (Hb r (u_class u) Hr (trigger_in _ _ _ Hc Hti Ht)). unfold barred in Hb. rewrite (ok_name _ _ Hc) in Hm. rewrite Hm, Hu in Hb.
  apply negb_false_iff, bool_decide_eq_true in Hb. done.
Qed.

Lemma onlineRows_set s t l t' : onlineRows (setOnline (insert t l) s) t' = if decide (t = t') then l else onlineRows s t'.
Proof. unfold onlineRows. cbn. case_decide as He; [subst; by rewrite lookup_insert_eq|by rewrite lookup_insert_ne]. Qed.

(** A row's write changes only rows the barrier let pass. *)
Lemma rows_world s o now ps t (l rows : list Rec) : worldOk C (MkWorld s o now ps) → (∀ r class, r ∈ rows → class ∈ triggers t → barred class s r = false) →
  (∀ P (HP : ∀ x : Rec, Decision (P x)), (∀ r, r ∈ rows → ¬ P r) → filter P l = filter P (onlineRows s t)) → (∀ r, r ∈ l → rowOk (r_row r)) →
  worldOk C (MkWorld (setOnline (insert t l) s) o now ps).
Proof.
  intros Hw Hb Hf Hr. pose proof (wo_cat _ _ Hw) as Hcat. cbn in Hcat. apply (world_online s (<[t := l]> (c_online s))); [done|..].
  - intros i u t' Hp Ht. unfold under. change (onlineRows (setOnline (λ _, <[t:=l]> (c_online s)) s)) with (onlineRows (setOnline (insert t l) s)).
    rewrite onlineRows_set. case_decide as He; [|done]. subst t. apply Hf. intros r Hin. by eapply barred_not.
  - intros t' r. change (onlineRows (setOnline (λ _, <[t:=l]> (c_online s)) s)) with (onlineRows (setOnline (insert t l) s)). rewrite onlineRows_set.
    case_decide; [apply Hr|]. apply (co_online _ _ _ _ Hcat).
Qed.
Lemma row_world op s x s' o now ps : worldOk C (MkWorld s o now ps) → opOk op → writeRow op s = Ok (x, s') → worldOk C (MkWorld s' o now ps).
Proof.
  intros Hw Hop. pose proof (co_online _ _ _ _ (wo_cat _ _ Hw)) as Hon. cbn in Hon. unfold writeRow. intros Hr. inv_cat. destruct op as [t r|t i r|t i].
  - inv_cat. match goal with H : barrier _ _ _ = Ok _ |- _ => apply barrier_ok in H as [-> Hb] end. eapply rows_world; [done|exact Hb|..].
    + intros P HP Hn. rewrite filter_app, filter_cons_False, filter_nil, app_nil_r; [done|]. apply Hn. apply list_elem_of_here.
    + intros r' [Hin|Hin%list_elem_of_singleton]%elem_of_app; [by eapply Hon|by subst].
  - destruct (onlineRows s t !! i) as [old|] eqn:Hi; inv_cat; [|done]. match goal with H : barrier _ _ _ = Ok _ |- _ => apply barrier_ok in H as [-> Hb] end.
    eapply rows_world; [done|exact Hb|..].
    + intros P HP Hn. eapply filter_insert_out; [done|apply Hn; apply list_elem_of_here|]. apply Hn. by apply list_elem_of_further, list_elem_of_here.
    + intros r' (j & Hj)%list_elem_of_lookup. destruct (decide (i = j)) as [<-|Hne].
      * rewrite list_lookup_insert_eq in Hj by (by eapply lookup_lt_Some). by injection Hj as <-.
      * rewrite list_lookup_insert_ne in Hj by done. eapply Hon. by eapply list_elem_of_lookup_2.
  - destruct (onlineRows s t !! i) as [old|] eqn:Hi; inv_cat; [|done]. match goal with H : barrier _ _ _ = Ok _ |- _ => apply barrier_ok in H as [-> Hb] end.
    eapply rows_world; [done|exact Hb|..].
    + intros P HP Hn. eapply filter_delete_out; [done|apply Hn; apply list_elem_of_here].
    + intros r' Hin. eapply Hon. by eapply list_elem_of_delete_inv.
Qed.
Lemma write_world ops s x s' o now ps : worldOk C (MkWorld s o now ps) → Forall opOk ops → Write ops s = Ok (x, s') → worldOk C (MkWorld s' o now ps).
Proof.
  intros Hw Hops. revert s Hw. induction Hops as [|op ops Hop Hops IH]; intros s Hw; cbn [Write]; intros Hr; inv_cat; [done|].
  eapply IH; [|exact Hr]. by eapply row_world.
Qed.
End write.

(** ** The content of units that are not sealed is free *)

Section ext.
Context {HH : Hashes} {DD : Deploy} {OK : TierOk}.
Context (C C' : string → tables) (s : Cat) (Hext : ∀ i u, pastUnit s i u → C' i = C i).

Lemma unitOk_ext o now id u : C' id = C id → unitOk C s o now id u → unitOk C' s o now id u.
Proof.
  intros He [H1 H2 H3 H4 H5 H6 H7 H8]. constructor; rewrite ?He; try done. intros v mr Hm. destruct (H7 v mr Hm) as [M1 M2 M3 M4 M5 M6].
  constructor; try done. destruct M6 as [M6|?]; [left|by right]. unfold copyOk in *. by rewrite He.
Qed.
Lemma workOk_ext now d c m e : workOk C s now d c m e → workOk C' s now d c m e.
Proof. intros (H1 & H2 & H3 & H4). split; [done|]. split; [done|]. split; [|done]. intros u Hu. rewrite (Hext _ _ Hu). by apply H3. Qed.
Lemma procOk_ext o now d p : procOk C s o now d p → procOk C' s o now d p.
Proof.
  destruct p; cbn [procOk]; try done.
  - intros (H1 & H2 & H3). split; [done|]. split; [|done]. intros u Hu. rewrite (Hext _ _ Hu). by apply H2.
  - intros (H1 & H2 & H3). split; [by apply workOk_ext|]. split; [|done]. intros i Hi. specialize (H2 i Hi). destruct i; [|done]. destruct H2 as [H4 H5].
    split; [done|]. intros u Hu. rewrite (Hext _ _ Hu). by eapply H5.
  - intros (H1 & H2). split; [by apply workOk_ext|done].
  - intros (H1 & H2). split; [by apply workOk_ext|done].
  - intros (H1 & H2). split; [by apply workOk_ext|]. intros Hd Hl. pose proof Hl as (u & Hu & _). rewrite (Hext _ _ Hu). by apply H2.
Qed.
Lemma world_ext o now ps : worldOk C (MkWorld s o now ps) → worldOk C' (MkWorld s o now ps).
Proof.
  intros [[C1 C2 C3 C4 C5 C6] H2 H3 H4]. cbn in *. constructor; cbn; try done.
  - constructor; try done. intros id u Hu Hp. apply unitOk_ext; [by apply (Hext id u)|]. by apply C1.
  - intros i d p Hi. apply procOk_ext. by eapply H2.
Qed.
End ext.

(** ** Sealing *)

Section seal.
Context {HH : Hashes} {DD : Deploy} {OK : TierOk}.

Lemma openUnit_ok id class g s unit s1 : openUnit id class g s = Ok (unit, s1) → ∃ u, c_units s1 !! unit = Some u ∧ u_state u = Open ∧ u_class u = class ∧
  (s1 = s ∨ c_units s !! unit = None ∧ s1 = setUnits (insert unit u) s ∧ u_manifest_version u = firstVersion ∧ u_published_at u = None).
Proof.
  unfold openUnit, putUnit. intros Ho. inv_cat. destruct (List.find _ _) as [[i u]|] eqn:Hf; inv_cat.
  - apply find_some in Hf as [Hin Hop]. apply list_elem_of_In, elem_of_map_to_list in Hin. exists u. unfold isOpen in Hop. cbn in Hop.
    apply andb_true_iff in Hop as [[Hc _]%andb_true_iff Hs]. apply bool_decide_eq_true in Hc, Hs. auto.
  - eexists. rewrite lookup_insert_eq. split; [done|]. split; [done|]. split; [done|]. by right.
Qed.
Lemma openUnit_world C id class g s unit s1 o now ps : worldOk C (MkWorld s o now ps) → openUnit id class g s = Ok (unit, s1) → worldOk C (MkWorld s1 o now ps).
Proof.
  intros Hw (u & Hu & Ho & Hc & [->|(Hn & -> & Hv & Hp)])%openUnit_ok; [done|]. pose proof (wo_cat _ _ Hw) as Hcat. cbn in Hcat.
  assert (Hne : ∀ i, i ≠ unit → c_units (setUnits (insert unit u) s) !! i = c_units s !! i) by (intros i Hi; cbn; by rewrite lookup_insert_ne).
  assert (Hfr : freshOk s unit) by (apply (co_fresh _ _ _ _ Hcat); intros x Hx; congruence).
  assert (Hself : ∀ x, c_units (setUnits (insert unit u) s) !! unit = Some x → x = u) by (intros x; cbn; rewrite lookup_insert_eq; by intros [= <-]).
  apply (world_same C now s); [done|apply (adv_one s _ now unit); try done| |done].
  - intros x Hx. congruence.
  - intros v mr Hm. by exists mr.
  - intros v mr Hm. left. by exists mr.
  - apply (catOk_one C s _ o now unit Hcat); try done.
    + intros x ->%Hself [? _]. done.
    + intros x ->%Hself _. by rewrite Hv.
    + intros cl r Hm. by destruct Hfr as [F1 _], (F1 cl r).
    + apply (co_online _ _ _ _ Hcat).
    + intros v mr. apply (co_created _ _ _ _ Hcat).
Qed.
Lemma blocked_world C unit u s o now ps b since : worldOk C (MkWorld s o now ps) → c_units s !! unit = Some u →
  u_state u = Open → worldOk C (MkWorld (setUnits (insert unit (setBlocked b since u)) s) o now ps).
Proof.
  intros Hw Hu Ho. assert (Hon : onwards now u (setBlocked b since u)) by (unfold onwards; cbn; split_and!; (done || lia || auto)).
  apply (world_same C now s); [done|by apply (adv_unit s now unit u)| |done]. apply (catOk_unit C s o now unit u); [apply Hw|done|done|by intros []|done].
Qed.

Section sealed.
Context (C : string → tables) (s : Cat) (o : objects) (now : Z) (Hcat : catOk C s o now).
Context (unit class : string) (cl : Class_) (roots : list string) (d : string) (n : Z) (am cm : option Z) (u : Unit).
Context (Hcl : dp_Classes !! class = Some cl) (Hti : Tierable cl = true) (Hu : c_units s !! unit = Some u) (Ho : u_state u = Open) (Huc : u_class u = class).
Context (Hroots : ∀ r, r ∈ roots → c_members s !! (class, r) = None) (Hd : digest cl (rowsUnder cl roots s) = Some d).
Context (HC : C unit = rowsUnder cl roots s).
Let u' := setSealed n d am cm u.
Let s' := setUnits (insert unit u') (setMembers (λ m, list_to_map (map (λ r, ((class, r), unit)) roots) ∪ m) s).

Lemma sealed_members c r : c_members s' !! (c, r) = if decide (c = class ∧ r ∈ roots) then Some unit else c_members s !! (c, r).
Proof.
  unfold s'. cbn. case_decide as Hin.
  - destruct Hin as [-> Hin]. apply lookup_union_Some_l. apply elem_of_list_to_map_1'.
    + intros i (r' & [= _ ->] & _)%list_elem_of_fmap. done.
    + apply list_elem_of_fmap. by exists r.
  - apply lookup_union_r. apply not_elem_of_list_to_map_1. rewrite map_map. intros (r' & He & Hr')%list_elem_of_fmap. cbn in He. injection He as -> ->. by apply Hin.
Qed.
Lemma sealed_fresh : freshOk s unit.
Proof. apply (co_fresh _ _ _ _ Hcat). intros x Hx. by simplify_eq. Qed.
Lemma sealed_iff c r i : i ≠ unit → c_members s' !! (c, r) = Some i ↔ c_members s !! (c, r) = Some i.
Proof. intros Hi. rewrite sealed_members. case_decide as Hin; [|done]. destruct Hin as [-> Hin]. rewrite (Hroots r Hin). split; [intros [= ->]; done|done]. Qed.
Lemma sealed_under t : under s' cl unit t = filter (λ r, r_root r ∈ roots) (onlineRows s (t_Name t)).
Proof.
  unfold under. change (onlineRows s') with (onlineRows s). apply list_filter_iff. intros r. rewrite (ok_name _ _ Hcl), sealed_members.
  case_decide as Hin; [naive_solver|]. destruct sealed_fresh as [F1 _]. split; [intros Hm; by apply F1 in Hm|]. intros Hr. destruct Hin. done.
Qed.
Lemma sealed_onwards : onwards now u u'.
Proof. unfold onwards. cbn. split_and!; try done; try lia; try congruence. intros pa ->. by left. Qed.
Lemma sealed_self x : c_units s' !! unit = Some x → x = u'.
Proof. unfold s'. cbn. rewrite lookup_insert_eq. by intros [= <-]. Qed.
Lemma sealed_units i : i ≠ unit → c_units s' !! i = c_units s !! i.
Proof. intros Hi. unfold s'. cbn. by rewrite lookup_insert_ne. Qed.
Lemma sealed_unit : unitOk C s' o now unit u'.
Proof.
  destruct sealed_fresh as (F1 & F2 & F3), (co_open _ _ _ _ Hcat unit u Hu Ho) as [Hv Hp]. pose proof (ok_named _ _ Hcl) as Hwn.
  assert (Hc : clOf u' = cl) by (unfold clOf; cbn; rewrite Huc; by apply classOf_some). constructor; rewrite ?Hc; try done.
  - cbn. by rewrite Huc.
  - split; [|done]. intros t Ht. rewrite HC, rowsUnder_in by done. apply Forall_forall. intros x (r & -> & [_ Hin]%list_elem_of_filter)%list_elem_of_fmap.
    by eapply (co_online _ _ _ _ Hcat).
  - exists (C unit). split; [done|]. by rewrite HC.
  - intros _. split; [|by split]. intros t Ht. rewrite readOnline_in, sealed_under, HC, rowsUnder_in by done. done.
  - intros v mr Hm. cbn in Hm. by rewrite F3 in Hm.
  - intros v t l Hv0 _ Hw. cbn in Hw. by rewrite F2 in Hw.
Qed.
Lemma sealed_cat : catOk C s' o now.
Proof.
  apply (catOk_one C s s' o now unit Hcat); [apply sealed_units|done|done|intros c r i; apply sealed_iff|..].
  - intros i x t Hi Hp Ht. unfold under. change (onlineRows s') with (onlineRows s). apply list_filter_iff. intros r. by apply sealed_iff.
  - intros x ->%sealed_self _. apply sealed_unit.
  - intros Hf. specialize (Hf u'). unfold s' in Hf. cbn in Hf. rewrite lookup_insert_eq in Hf. by specialize (Hf eq_refl).
  - by intros x ->%sealed_self Hop.
  - intros c r. rewrite sealed_members. case_decide as Hin; [|intros Hm; by destruct sealed_fresh as [F1 _], (F1 c r)]. destruct Hin as [-> _]. intros _.
    exists u'. unfold s'. cbn. by rewrite lookup_insert_eq.
  - apply (co_online _ _ _ _ Hcat).
  - intros v mr. apply (co_created _ _ _ _ Hcat).
Qed.
Lemma sealed_adv : adv now s s'.
Proof.
  apply (adv_one s s' now unit); [apply sealed_units|done|done|..|done].
  - intros x Hx. simplify_eq. exists u'. split; [unfold s'; cbn; by rewrite lookup_insert_eq|apply sealed_onwards].
  - intros v mr Hm. by exists mr.
  - intros v mr Hm. left. by exists mr.
Qed.
End sealed.

Lemma seal_world C now id class g answers s x s' o ps : worldOk C (MkWorld s o now ps) → Seal now id class g answers s = Ok (x, s') →
  ∃ C', worldOk C' (MkWorld s' o now ps) ∧ ∀ i u, c_units s !! i = Some u → u_state u ≠ Open → C' i = C i.
Proof.
  intros Hw Hs. unfold Seal, putUnit in Hs. inv_cat. destruct v as [cl days]. unfold class_ in H. destruct (dp_Classes !! class) as [cl'|] eqn:Hcl; [|done].
  cbn [mbind option_bind] in H. destruct (Tierable cl') eqn:Hti; [|done]. injection H as -> <-. inv_cat.
  match goal with H : openUnit _ _ _ _ = Ok (?a, ?b) |- _ => rename a into unit; rename b into s1; rename H into Ho end.
  pose proof (openUnit_world C _ _ _ _ _ _ _ _ _ Hw Ho) as Hw1. apply openUnit_ok in Ho as (u & Hu & Hop & Huc & Hs1).
  assert (Hold : ∀ i x, c_units s !! i = Some x → u_state x ≠ Open → i ≠ unit).
  { intros i x' Hx Hxo ->. destruct Hs1 as [->|(Hn & _)]; congruence. }
  case_decide as Hr; inv_cat; [by exists C|]. case_decide as Hb; inv_cat.
  - match goal with H : digest _ _ = Some ?d |- _ => rename H into Hd end. simplify_eq.
    match type of Hd with digest _ (rowsUnder _ ?r _) = _ => set (roots := r) in * end. set (C' := λ i, if decide (i = unit) then rowsUnder cl roots s1 else C i).
    exists C'. split; [|intros i y Hy Hyo; unfold C'; rewrite decide_False; [done|by eapply Hold]].
    assert (Hw2 : worldOk C' (MkWorld s1 o now ps)).
    { eapply world_ext; [|exact Hw1]. intros i y [Hy [Hyo _]]. unfold C'. rewrite decide_False; [done|]. intros ->. congruence. }
    pose proof (wo_cat _ _ Hw2) as Hcat. cbn in Hcat. assert (Hfree : ∀ r, r ∈ roots → c_members s1 !! (u_class u, r) = None) by (intros r; apply candidates_free).
    apply (world_same C' now s1); [done|by eapply sealed_adv| |done]. eapply sealed_cat; try done. unfold C'. by rewrite decide_True.
  - simplify_eq. exists C. split; [|done]. by apply blocked_world.
Qed.
End seal.
