(* ===== verification/TierStart.v ===== *)
(** * Tiering: what starts a process keeps the invariant

    Each of the starts of [TierSys]: the transaction it begins with and what the process it
    leaves knows. *)
From S2P Require Import Prelude GoStr Canon CanonProps TierPlan TierRows TierRead TierStore TierSys TierSame TierInv TierKept TierMove.
From Stdlib Require Import Ascii String.
Open Scope string_scope.
Open Scope Z_scope.
Open Scope list_scope.

Section starts.
Context {HH : Hashes} {DD : Deploy} {OK : TierOk}.
Variable C : string → tables.

(** A process that claims nothing and lists nothing. *)
Definition quiet (p : proc) : Prop := claimOf p = None ∧ listing p = [].
Lemma world_quiet now s o ps i d p : worldOk C (MkWorld s o now ps) → quiet p → procOk C s o now d p → worldOk C (MkWorld s o now (<[i := (d, p)]> ps)).
Proof. intros Hw [Hc Hl] Hp. apply world_proc; [done|done| |]; [rewrite Hc; done|rewrite Hl]. by intros k a ?%elem_of_nil. Qed.
Lemma world_ended now s o ps i d r : worldOk C (MkWorld s o now ps) → worldOk C (MkWorld s o now (<[i := (d, Ended r)]> ps)).
Proof. intros Hw. by apply world_quiet. Qed.

(** ** Claims *)

Section claimed.
Context (s : Cat) (o : objects) (now d : Z) (ps : gmap nat (Z * proc)) (Hw : worldOk C (MkWorld s o now ps)) (Hd : d ≤ now + Hour).
Context (unit : string) (u : Unit) (Hu : c_units s !! unit = Some u) (Hp : past u).
Let s' := setUnits (insert unit (setClaimed (c_epoch s) u)) s.
Let c := MkClaim unit (u_class u) (c_epoch s) (u_generation u + 1) (u_digest u) (u_digest u) (u_state u) (u_manifest_version u) (u_manifest_version u + 1).

Lemma claimed_claim : claimOk s' now d c.
Proof.
  destruct Hp as [Hp1 Hp2]. pose proof (co_units _ _ _ _ (wo_cat _ _ Hw) unit u Hu Hp) as Hok. constructor; cbn; [|split; [done|split; [apply Hok|done]]|done|].
  - exists (setClaimed (c_epoch s) u). rewrite lookup_insert_eq. split_and!; cbn; (done || lia || auto).
  - intros v mr Hv Hm. destruct (mk_version _ _ _ _ _ _ _ _ (uo_manifests _ _ _ _ _ _ Hok _ _ Hm)). lia.
Qed.
Lemma claimed_self x : pastUnit s' unit x → x = setClaimed (c_epoch s) u.
Proof. intros [Hx _]. unfold s' in Hx. cbn in Hx. rewrite lookup_insert_eq in Hx. by injection Hx. Qed.
Lemma claimed_digest : digestFor C s' c.
Proof.
  intros x Hx. cbn in Hx. rewrite (claimed_self x Hx). apply (uo_digest _ _ _ _ _ _ (co_units _ _ _ _ (wo_cat _ _ Hw) unit u Hu Hp)).
Qed.
Lemma claimed_new k a : recorded o ps k a → k_unit k = cm_Unit c → k_generation k < cm_Generation c.
Proof.
  intros Hr Hk. destruct (recorded_stamp _ _ _ _ _ _ _ Hw Hr) as ((x & Hx & _ & Hg) & _). rewrite Hk in Hx. cbn in Hx. simplify_eq. cbn. lia.
Qed.
End claimed.

Lemma claim_world unit states s c s' o now ps : worldOk C (MkWorld s o now ps) → claim unit states s = Ok (c, s') → Open ∉ states → worldOk C (MkWorld s' o now ps).
Proof.
  intros Hw Hc Ho. destruct (claim_keeps C _ _ _ _ _ _ _ (wo_cat _ _ Hw) Hc Ho) as [Ha Hcat]. apply (world_same C now s); [done|done|done|].
  by apply claim_ok in Hc as (u & _ & _ & -> & _).
Qed.
Lemma transfer_world unit s c s' o now d ps i : worldOk C (MkWorld s o now ps) → d ≤ now + Hour → claim unit [Sealed] s = Ok (c, s') →
  worldOk C (MkWorld s' o now (<[i := (d, TransferRead c)]> ps)).
Proof.
  intros Hw Hd Hc. pose proof (claim_world _ _ _ _ _ _ _ _ Hw Hc ltac:(set_solver)) as Hw'. apply claim_ok in Hc as (u & Hu & Hst%list_elem_of_singleton & -> & ->).
  assert (Hp : past u) by (split; congruence). apply world_proc; [done| | |by intros k a ?%elem_of_nil].
  - cbn [procOk]. split; [by eapply claimed_claim|]. split; [by eapply claimed_digest|]. intros x pa Hx. cbn in Hx. rewrite (claimed_self _ _ _ _ Hx). cbn.
    destruct (uo_sealed _ _ _ _ _ _ (co_units _ _ _ _ (wo_cat _ _ Hw) unit u Hu Hp) Hst) as (_ & -> & _). done.
  - intros c [= <-]. right. by eapply claimed_new.
Qed.
Lemma reroute_world unit route s c s' o now d ps i : worldOk C (MkWorld s o now ps) → d ≤ now + Hour → claim unit [Published; Released] s = Ok (c, s') →
  worldOk C (MkWorld s' o now (<[i := (d, RouteOf unit (Rewrite c route None))]> ps)).
Proof.
  intros Hw Hd Hc. pose proof (claim_world _ _ _ _ _ _ _ _ Hw Hc ltac:(set_solver)) as Hw'. apply claim_ok in Hc as (u & Hu & Hst & -> & ->).
  assert (Hs : u_state u ≠ Sealed ∧ past u) by (apply elem_of_cons in Hst as [Hst|Hst%list_elem_of_singleton]; split_and!; try split; congruence). destruct Hs as [Hns Hp]. apply world_proc; [done| | |by intros k a ?%elem_of_nil].
  - cbn [procOk]. split; [done|]. split; [by eapply claimed_claim|]. done.
  - intros c [= <-]. right. by eapply claimed_new.
Qed.

(** ** Releases *)

Lemma plan_released now n grace c u : pu_State u = Published → pu_RetentionDue u = false → dc_Reasons (Plan now n grace c u) = [] → pu_PublishedAt u + grace ≤ now.
Proof.
  intros Hs Hr. unfold Plan. destruct (negb _ && negb _); [done|]. destruct (negb _ && bool_decide _); [done|]. rewrite decide_False by congruence.
  unfold planState. rewrite Hr, andb_false_r, Hs. case_bool_decide as Hb; [|lia]. cbn [when app].
  match goal with |- dc_Reasons (held _ (_ :: ?l)) = [] → _ => generalize l end. intros l He. change (merge_sort strLe (WhyGrace :: l) = []) in He.
  exfalso. apply (not_elem_of_nil WhyGrace). rewrite <- He, merge_sort_Permutation. apply list_elem_of_here.
Qed.
Lemma release_ok now unit backup s r s' : releaseDecide now unit backup s = Ok (r, s') → s' = s ∧ ∃ u pa, c_units s !! unit = Some u ∧ u_state u = Published ∧
  u_published_at u = Some pa ∧ r.1 = u_class u ∧ (r.2 = [] → pa + dp_Grace ≤ now).
Proof.
  unfold releaseDecide. intros Hr. inv_cat. split; [done|]. eexists _, _. split; [done|]. split; [done|]. split; [done|]. split; [done|]. intros He.
  by apply plan_released in He.
Qed.

(** ** Replaced versions *)

Lemma created_mono s o now id u v w mr mr' : unitOk C s o now id u → c_manifests s !! (id, v) = Some mr → c_manifests s !! (id, w) = Some mr' → v ≤ w →
  mr_created_at mr ≤ mr_created_at mr'.
Proof.
  intros Hok Hm Hm' Hle. assert (∃ n, w = v + Z.of_nat n) as [n ->] by (exists (Z.to_nat (w - v)); lia). clear Hle.
  revert v mr Hm Hm'. induction n as [|n IH]; intros v mr Hm Hm'.
  { rewrite Z.add_0_r in Hm'. by simplify_eq. }
  destruct (mk_version _ _ _ _ _ _ _ _ (uo_manifests _ _ _ _ _ _ Hok _ _ Hm')).
  destruct (mk_next _ _ _ _ _ _ _ _ (uo_manifests _ _ _ _ _ _ Hok _ _ Hm)) as (x & Hx & Hle); [lia|]. etransitivity; [exact Hle|].
  apply (IH (v + 1)); [done|]. by replace (v + 1 + Z.of_nat n) with (v + Z.of_nat (S n)) by lia.
Qed.
Lemma olds_ok now unit backup s r s' o ps : worldOk C (MkWorld s o now ps) → oldsDecide now unit backup s = Ok (r, s') → s' = s ∧ ∃ u, c_units s !! unit = Some u ∧
  u_state u ≠ Open ∧ (r.2 = [] → past u → ∀ v rt g, (v, rt, g) ∈ r.1.2 → ∃ mr', c_manifests s !! (unit, v + 1) = Some mr' ∧ mr_created_at mr' + dp_Grace ≤ now).
Proof.
  unfold oldsDecide. intros Hw Hr. inv_cat. match goal with H : _ ∨ _ |- _ => rename H into Hst end. split; [done|]. eexists. split; [done|].
  split; [by destruct Hst; congruence|]. cbn [fst snd]. intros Hwhy Hp w rt g Hin.
  apply app_nil in Hwhy as [Hg _]. apply when_nothing, bool_decide_eq_false in Hg. unfold oldsOf in Hin.
  apply list_elem_of_fmap in Hin as ([[i v'] mr] & [= <- _ _] & [(Hi & Hlt & _) Hin%elem_of_map_to_list]%list_elem_of_filter). cbn in Hi, Hlt, Hin. subst i.
  match goal with H : c_units s !! unit = Some ?u |- _ => pose proof (co_units _ _ _ _ (wo_cat _ _ Hw) unit u H Hp) as Hok end.
  destruct (mk_next _ _ _ _ _ _ _ _ (uo_manifests _ _ _ _ _ _ Hok _ _ Hin) Hlt) as (x & Hx & _). exists x. split; [done|].
  match goal with H : c_manifests _ !! (unit, u_manifest_version _) = Some ?y |- _ => pose proof (created_mono _ _ _ _ _ _ _ _ _ Hok Hx H) end. lia.
Qed.

(** ** Every start *)

Lemma start_world now s o ps i st d s' o' p : worldOk C (MkWorld s o now ps) → isErase st = false → d ≤ now + limitOf st →
  startProc now s o st = (s', o', p) → worldOk C (MkWorld s' o' now (<[i := (d, p)]> ps)).
Proof.
  intros Hw He Hd. pose proof (wo_cat _ _ Hw) as Hcat. cbn in Hcat. destruct st; cbn [startProc limitOf] in *; try done; unfold runTx.
  - destruct (claim _ _ s) as [[c s1]|] eqn:Hc; intros [= <- <- <-]; [by eapply transfer_world|by apply world_ended].
  - destruct (claim _ _ s) as [[c s1]|] eqn:Hc; intros [= <- <- <-]; [by eapply reroute_world|by apply world_ended].
  - intros [= <- <- <-]. by apply world_quiet.
  - destruct (releaseDecide _ _ _ s) as [[[class why] s1]|] eqn:Hr; intros [= <- <- <-]; [|by apply world_ended].
    apply release_ok in Hr as (-> & u & pa & Hu & Hs & Hpa & Hcl & Hwhy). cbn in Hcl, Hwhy. destruct why; [|by apply world_ended]. apply world_quiet; [done|done|].
    cbn. exists u. split_and!; [done|done|congruence|]. intros _. split; [split; congruence|]. intros pa' Hpa'. simplify_eq. by apply Hwhy.
  - destruct (c_units s !! unit) as [u|] eqn:Hu; [|intros [= <- <- <-]; by apply world_ended]. case_decide as Hs; intros [= <- <- <-]; [|by apply world_ended].
    apply world_quiet; [done|done|]. cbn. exists u. split_and!; [done|done|congruence|]. intros Hp. split; [split; congruence|]. intros pa Hpa.
    destruct (uo_published _ _ _ _ _ _ (co_units _ _ _ _ Hcat unit u Hu Hp)) as (_ & (pa' & Hpa' & _ & Hg) & _); [congruence|]. assert (pa' = pa) as -> by congruence.
    destruct (decide (now < pa + dp_Grace)) as [Hlt|]; [|lia]. destruct (Hg Hlt). congruence.
  - unfold destroyReady. destruct (tbind _ _ s) as [[[u why] s1]|] eqn:Hr; intros [= <- <- <-]; [|by apply world_ended]. inv_cat.
    assert (s1 = s ∧ v = u) as [-> ->]. { case_decide; inv_cat; done. } clear Hr.
    destruct (u_state u) eqn:Hst; try (by apply world_ended); try (destruct why; [|by apply world_ended]; destruct dp_Evidence; [|by apply world_ended]).
    all: apply world_quiet; [done|done|]; cbn; exists u; split_and!; [done|done|congruence|..].
    intros [_ Hx]. by rewrite Hst in Hx.
  - destruct (oldsDecide _ _ _ s) as [[[[class olds] why] s1]|] eqn:Hr; intros [= <- <- <-]; [|by apply world_ended].
    destruct (olds_ok _ _ _ _ _ _ _ _ Hw Hr) as (-> & u & Hu & Ho & Hold). cbn [fst snd] in Hold. destruct why; [|by apply world_ended].
    apply world_quiet; [done|done|]. cbn. exists u. split_and!; [done|done| |done]. by apply Hold.
  - intros [= <- <- <-]. apply world_quiet; [done|done|]. cbn. split; [done|]. split; [lia|]. split; [|done]. intros id u v mr [Hu _] Hc Hid Hm. left.
    unfold namedIn. apply list_elem_of_fmap. exists (id, v, mr). split; [done|]. apply list_elem_of_filter. split; [|by apply elem_of_map_to_list].
    cbn. split; [done|]. rewrite Hu. cbn. by rewrite Hc.
  - unfold getFind. destruct (tbind _ _ s) as [[u s1]|] eqn:Hr; intros [= <- <- <-]; [|by apply world_ended]. inv_cat.
    assert (s1 = s) as ->. { destruct (c_members s !! (class, root)); unfold routeOf in *; inv_cat; done. }
    destruct u as [u|]; [|by apply world_ended]. case_decide; [by apply world_ended|]. case_decide; [by apply world_ended|]. by apply world_quiet.
  - unfold Renew. destruct (tbind _ _ s) as [[u s1]|] eqn:Hr; intros [= <- <- <-]; [|by apply world_ended]. inv_cat.
    destruct (c_leases s !! lease) as [[v e]|]; [|done]. case_decide; inv_cat. apply world_quiet; [|done|done].
    apply (world_core C s); done.
Qed.
End starts.
