(* ===== verification/TierStep.v ===== *)
(** * Tiering: every step of a process keeps the invariant

    Copies begun from what was read, their verification, and then each step of [stepProc]. *)
From S2P Require Import Prelude GoStr Canon CanonProps TierPlan TierRows TierRead TierStore TierSys TierSame TierInv TierKept TierMove TierStart.
From Stdlib Require Import Ascii String.
Open Scope string_scope.
Open Scope Z_scope.
Open Scope list_scope.

Section copying.
Context {HH : Hashes} {DD : Deploy} {OK : TierOk}.
Variable C : string → tables.

(** ** A copy begins *)

Definition contentFor (s : Cat) (id : string) (m : tables) : Prop := ∀ x, pastUnit s id x → sameTables (clOf x) m (C id).

Lemma partsOf_tables fuel t total part rows t' rows' : CopyTable t' rows' ∉ partsOf fuel t total part rows.
Proof.
  revert part rows. induction fuel as [|fuel IH]; intros part rows; cbn [partsOf]; [apply not_elem_of_nil|].
  intros [?|Hin]%elem_of_cons; [done|]. destruct (drop partRows rows); [by apply elem_of_nil in Hin|]. by eapply IH.
Qed.
Lemma copyItems_table cl route m t rows : CopyTable t rows ∈ copyItems cl route m → t ∈ Tables cl ∧ rows = rowsIn m (t_Name t).
Proof.
  unfold copyItems. intros (t' & Hin & Ht')%list_elem_of_bind. destruct route; try (apply list_elem_of_singleton in Hin; by injection Hin as -> ->).
  by apply partsOf_tables in Hin.
Qed.
Lemma copyItems_all cl m t : t ∈ Tables cl → CopyTable t (rowsIn m (t_Name t)) ∈ copyItems cl Postgres m.
Proof. intros Ht. unfold copyItems. apply list_elem_of_bind. exists t. split; [apply list_elem_of_here|done]. Qed.
Lemma claim_class s now d c x : claimOk s now d c → pastUnit s (cm_Unit c) x → classOf (cm_Class c) = clOf x.
Proof. intros [(u & Hu & _ & Hc & _) _ _ _] [Hx _]. unfold clOf. simplify_eq. by rewrite Hc. Qed.

Lemma startCopy_ok s o now d c route m : claimOk s now d c → digestFor C s c → contentFor s (cm_Unit c) m → procOk C s o now d (startCopy c route m None).
Proof.
  intros Hc Hdf Hm. assert (Hgo : route = Postgres ∨ route = ObjectParquet →
    procOk C s o now d (Copying c (startManifest c (classOf (cm_Class c)) route) (copyItems (classOf (cm_Class c)) route m) None)).
  { intros Hr. cbn [procOk]. split; [|split].
    - split; [done|]. split; [done|]. split; [done|]. unfold manFor. cbn. split_and!; try done. by intros mt mo ?%elem_of_nil.
    - intros i Hi. destruct i as [t rows|]; [|done]. apply copyItems_table in Hi as [Ht ->]. split; [done|]. intros u Hu. apply Hm in Hu as Hs.
      rewrite <- (claim_class _ _ _ _ _ Hc Hu) in Hs. by apply Hs.
    - intros Hrt _ t Ht. cbn in Hrt. subst route. right. eexists. by apply copyItems_all. }
  unfold startCopy. destruct route; try done; [apply Hgo; by left|]. destruct dp_Store; [|done]. apply Hgo. by right.
Qed.
Lemma startCopy_claim c route m e c' : claimOf (startCopy c route m e) = Some c' → c' = c.
Proof. unfold startCopy. destruct route; try done; [by intros [= <-]|]. destruct dp_Store; [by intros [= <-]|done]. Qed.
Lemma startCopy_listing c route m e : listing (startCopy c route m e) = [].
Proof. unfold startCopy. destruct route; try done. by destruct dp_Store. Qed.

(** What the aggregates of a whole content give back. *)
Lemma assembled_same cl name m m0 aggs : dp_Classes !! name = Some cl → whole cl m0 → sameTables cl m m0 → assemble cl m "" = Some aggs →
  sameTables cl (flatten cl aggs) m0.
Proof.
  intros Hcl Hwh Hs Ha. destruct (ok_check _ _ Hcl) as (n & regs & Hc). pose proof (ok_named _ _ Hcl) as Hn.
  assert (Hw : whole cl m) by (eapply whole_same; [symmetry; exact Hs|done|intros ch p _; apply parent_table]).
  destruct (assemble_whole cl n regs m Hc Hn Hw) as (out & Ho & _ & Hf). rewrite Ha in Ho. injection Ho as <-. intros t Ht. rewrite (Hf t Ht). by apply Hs.
Qed.

(** A unit's past version that the reader of a rewriting still finds. *)
Lemma reader_copy s o now d u c route e x : catOk C s o now → readerOk s now d u (Rewrite c route e) → now ≤ d → pastUnit s (ur_id u) x →
  ∃ mr, c_manifests s !! (ur_id u, ur_version u) = Some mr ∧ mr_route mr = ur_route u ∧ copyOk C s o (clOf x) (ur_id u) (ur_version u) mr ∧ whole (clOf x) (C (ur_id u)).
Proof.
  intros Hcat (_ & Hc & Hst & Hid & _ & _ & Hr) Hd Hx. destruct (Hr x Hx) as (mr & Hm & Hrt & Hn). exists mr. split; [done|]. split; [done|].
  pose proof (co_units _ _ _ _ Hcat _ _ (proj1 Hx) (proj2 Hx)) as Hok. split.
  - destruct (mk_copy _ _ _ _ _ _ _ _ (uo_manifests _ _ _ _ _ _ Hok _ _ Hm)) as [?|(mr' & Hm' & Hg)]; [done|]. specialize (Hn mr' Hm'). pose proof ok_grace. lia.
  - apply (uo_published _ _ _ _ _ _ Hok). destruct Hc as [(y & Hy & _ & _ & _ & _ & Hs) _ _ _]. rewrite <- Hid in Hy. destruct Hx as [Hx _]. simplify_eq. by apply Hs.
Qed.

(** ** The tables of a version are read *)

Lemma withTables_ok s o now d u m g : catOk C s o now → readerOk s now d u g → now ≤ d →
  (isRewrite g → ∀ x, pastUnit s (ur_id u) x → sameTables (clOf x) m (C (ur_id u))) →
  procOk C s o now d (withTables u m g).
Proof.
  intros Hcat Hr Hd Hm. destruct g as [c route e|ttl|root]; cbn [withTables].
  - pose proof Hr as (-> & Hc & Hst & Hid & Hcl & _). destruct (assemble _ m "") as [aggs|] eqn:Ha; [|done].
    destruct (digest _ _) as [dg|] eqn:Hdg; [|done]. rewrite (map_ext _ id (λ a, eq_refl)), map_id in *.
    assert (Hcont : contentFor s (cm_Unit c) (flatten (classOf (ur_class u)) aggs)).
    { intros x Hx. rewrite <- Hid in Hx |- *. destruct (reader_copy _ _ _ _ _ _ _ _ _ Hcat Hr Hd Hx) as (_ & _ & _ & _ & Hwh).
      rewrite Hid in Hx. pose proof (claim_class _ _ _ _ _ Hc Hx) as Hcx. rewrite <- Hcl in Hcx. rewrite Hcx in Ha |- *. rewrite <- Hid in Hx.
      eapply assembled_same; [apply (uo_class _ _ _ _ _ _ (co_units _ _ _ _ Hcat _ _ (proj1 Hx) (proj2 Hx)))|done| |exact Ha]. by apply Hm. }
    apply startCopy_ok.
    + destruct Hc as [H1 H2 H3 H4]. by constructor.
    + intros x Hx. cbn in Hx |- *. exists (flatten (classOf (ur_class u)) aggs). split; [by apply Hcont|].
      rewrite <- (claim_class _ _ _ _ _ Hc Hx), <- Hcl. done.
    + done.
  - by destruct (assemble _ _ _).
  - destruct (assemble _ _ _) as [aggs|]; [|done]. case_decide; [done|]. by destruct aggs.
Qed.
Lemma withTables_claim u m g c' : claimOf (withTables u m g) = Some c' → ∃ c, goalClaim g = Some c ∧ cm_Unit c' = cm_Unit c ∧ cm_Generation c' = cm_Generation c.
Proof.
  destruct g as [c route e|ttl|root]; cbn [withTables]; destruct (assemble _ _ _) as [aggs|]; try done; [|case_decide; [done|]; by destruct aggs].
  destruct (digest _ _); [|done]. intros ->%startCopy_claim. by exists c.
Qed.
Lemma withTables_listing u m g : listing (withTables u m g) = [].
Proof.
  destruct g; cbn [withTables]; destruct (assemble _ _ _) as [aggs|]; try done; [|case_decide; [done|]; by destruct aggs].
  destruct (digest _ _); [|done]. apply startCopy_listing.
Qed.
End copying.

(** ** Copying and verifying *)

Section verifying.
Context {HH : Hashes} {DD : Deploy} {OK : TierOk}.
Variable C : string → tables.

Lemma verifyItems_kinds cl m items i : verifyItems cl m = Some items → i ∈ items →
  match i with GetObject _ _ => m_Route m = ObjectParquet | QueryRows t => m_Route m = Postgres ∧ t ∈ Tables cl | EndTable t _ => t ∈ Tables cl end.
Proof.
  intros (ts & Hts & -> & _)%items_tables Hi. apply list_elem_of_In, in_concat in Hi as (x & Hx & Hi). apply list_elem_of_In in Hx, Hi.
  apply list_elem_of_lookup in Hx as [j Hj]. apply lookup_zip_with_Some in Hj as (t & mt & -> & Ht & Hmt).
  pose proof (Forall2_lookup_lr _ _ _ _ _ _ Hts Hmt Ht) as [Hin _]%tableOf_some. unfold tableItems in Hi.
  apply elem_of_app in Hi as [Hi|Hi%list_elem_of_singleton]; [|by subst]. destruct (m_Route m); try (by apply elem_of_nil in Hi).
  - apply list_elem_of_singleton in Hi. by subst.
  - by apply list_elem_of_fmap in Hi as (mo & -> & _).
Qed.

Lemma startVerify_ok s o now d c m : workOk C s now d c m None → (m_Route m = Postgres → live s c → present s c) → procOk C s o now d (startVerify c m None).
Proof.
  intros Hw Hp. unfold startVerify. destruct (verifyItems _ m) as [items|] eqn:Hi; [|done]. cbn [procOk]. split; [done|]. intros _ Hl. exists [].
  pose proof Hw as (_ & _ & _ & (_ & Hc & _)). rewrite Hc in Hi. split; [done|]. split; [|done]. intros Hr. split; [by apply Hp|]. split; [constructor|]. split; constructor.
Qed.
Lemma startVerify_claim c m e c' : claimOf (startVerify c m e) = Some c' → c' = c.
Proof. unfold startVerify. destruct (verifyItems _ _); [by intros [= <-]|done]. Qed.
Lemma startVerify_listing c m e : listing (startVerify c m e) = [].
Proof. unfold startVerify. by destruct (verifyItems _ _). Qed.

Lemma manFor_table c m t n : manFor c m → manFor c (addTable m (MkManifestTable t n [])).
Proof.
  intros (M1 & M2 & M3 & M4 & M5 & M6 & M7 & M8). unfold manFor. cbn. split_and!; try done. intros mt mo [Hin|Hin%list_elem_of_singleton]%elem_of_app.
  - by apply M8.
  - subst mt. cbn. by intros ?%elem_of_nil.
Qed.
Lemma addLast_in l mo mt x : mt ∈ addLast l mo → x ∈ mt_Objects mt → x = mo ∨ ∃ mt', mt' ∈ l ∧ x ∈ mt_Objects mt'.
Proof.
  induction l as [|a l IH]; [by intros ?%elem_of_nil|]. cbn [addLast]. destruct l as [|b l].
  - intros ->%list_elem_of_singleton. cbn. intros [Hx|Hx%list_elem_of_singleton]%elem_of_app; [right|by left]. exists a. split; [apply list_elem_of_here|done].
  - intros [->|Hin]%elem_of_cons Hx; [right; exists a; split; [apply list_elem_of_here|done]|]. destruct (IH Hin Hx) as [?|(mt' & ? & ?)]; [by left|right].
    exists mt'. split; [by apply list_elem_of_further|done].
Qed.
Lemma manFor_object c m t total part mo : manFor c m → k_class (mo_Key mo) = cm_Class c → k_unit (mo_Key mo) = cm_Unit c →
  k_generation (mo_Key mo) = cm_Generation c → k_version (mo_Key mo) = cm_Version c → manFor c (addObject m t total part mo).
Proof.
  intros (M1 & M2 & M3 & M4 & M5 & M6 & M7 & M8) K1 K2 K3 K4. assert (Hk : k_class (mo_Key mo) = m_Class m ∧ k_unit (mo_Key mo) = m_Unit m ∧
    k_generation (mo_Key mo) = m_Generation m ∧ k_version (mo_Key mo) = m_Version m) by (split_and!; congruence).
  unfold addObject. destruct part as [|part]; unfold manFor; cbn; split_and!; try done; intros mt x; cbn.
  - intros [Hin|Hin%list_elem_of_singleton]%elem_of_app; [by apply M8|]. subst mt. cbn. by intros ->%list_elem_of_singleton.
  - intros Hin Hx. destruct (addLast_in _ _ _ _ Hin Hx) as [->|(mt' & ? & ?)]; [done|by eapply M8].
Qed.

(** A verified copy publishes the content. *)
Lemma verified_ok s o now d c m acc reads : catOk C s o now → procOk C s o now d (Verifying c m [] acc reads None) → verified (classOf (m_Class m)) m reads = true →
  procOk C s o now d (Publishing c m None).
Proof.
  intros Hcat [Hw Hv] Hver. cbn [procOk]. split; [done|]. intros Hd Hl. destruct (Hv Hd Hl) as (done_ & Hi & Hpg & Hob). rewrite app_nil_r in Hi.
  pose proof Hw as (_ & Hc & Hdf & (M1 & M2 & _ & _ & M5 & M6 & M7 & _)). rewrite M2 in Hver. destruct Hl as (u & Hu & _). pose proof (claim_class _ _ _ _ _ Hc Hu) as Hcl.
  pose proof (co_units _ _ _ _ Hcat _ _ (proj1 Hu) (proj2 Hu)) as Hok. destruct (uo_rows _ _ _ _ _ _ Hok) as [Hrows _]. pose proof (uo_class _ _ _ _ _ _ Hok) as Hname.
  destruct (Hdf u Hu) as (m0 & Hs & Hdg). rewrite <- M5 in Hdg. rewrite Hcl in *. assert (Hr0 : tablesOk (clOf u) m0) by (eapply tablesOk_same; [symmetry; exact Hs|done]).
  assert (Hwh : whole (clOf u) m0 → whole (clOf u) (C (cm_Unit c))) by (intros Hx; eapply whole_same; [exact Hs|exact Hx|intros ch p _; apply parent_table]).
  destruct M7 as [Hr|Hr].
  - destruct (Hpg Hr) as (Hp & _ & Hro & Hin). destruct (verified_whole _ _ _ _ _ Hname Hr0 Hro Hin Hdg M6 Hver) as (_ & _ & _ & Hx). split; [by apply Hwh|].
    split; [done|]. congruence.
  - destruct (object_copied _ _ _ _ _ _ _ _ Hname Hr0 Hdg M6 Hr Hi (Hob Hr) Hver) as [Hx (todo & m' & O1 & O2 & O3)]. split; [by apply Hwh|].
    split; [congruence|]. intros _. exists todo, m'. split; [done|]. split; [done|]. by transitivity m0.
Qed.

Lemma verify_step s o now d c m i todo acc reads s' o' p : catOk C s o now → procOk C s o now d (Verifying c m (i :: todo) acc reads None) →
  stepVerify s o c m (i :: todo) acc reads None = (s', o', p) → s' = s ∧ o' = o ∧ procOk C s o now d p ∧ (∀ c', claimOf p = Some c' → c' = c) ∧ listing p = [].
Proof.
  intros Hcat [Hw Hv].
  assert (Hgo : ∀ acc' reads', (∀ done_, verifyItems (classOf (cm_Class c)) m = Some (done_ ++ i :: todo) → live s c →
      (m_Route m = Postgres → Forall rowOk (map snd acc) → readsOk reads → Forall (λ p, p.1 ∈ Tables (classOf (cm_Class c))) reads →
         Forall rowOk (map snd acc') ∧ readsOk reads' ∧ Forall (λ p, p.1 ∈ Tables (classOf (cm_Class c))) reads') ∧
      (m_Route m = ObjectParquet → replay o [i] acc reads = Some (acc', reads'))) → procOk C s o now d (Verifying c m todo acc' reads' None)).
  { intros acc' reads' Hstep. cbn [procOk]. split; [done|]. intros Hd Hl. destruct (Hv Hd Hl) as (done_ & Hi & Hpg & Hob). exists (done_ ++ [i]).
    rewrite <- (assoc_L (++)). split; [done|]. destruct (Hstep done_ Hi Hl) as [S1 S2]. split.
    - intros Hr. destruct (Hpg Hr) as (P1 & P2 & P3 & P4). split; [done|]. by apply S1.
    - intros Hr. rewrite replay_app, (Hob Hr). by apply S2. }
  unfold stepVerify. destruct i as [t mo|t|t n].
  - destruct (getRows o t mo) as [l|] eqn:Hg; intros [= <- <- <-]; split_and!; try done; [|by intros c' [= <-]]. apply Hgo. intros done_ Hi Hl. split.
    + intros Hr Ha _ _. pose proof (verifyItems_kinds _ _ _ (GetObject t mo) Hi ltac:(apply elem_of_app; right; apply list_elem_of_here)) as Hk. cbn in Hk. congruence.
    + intros _. cbn. by rewrite Hg.
  - intros [= <- <- <-]. split_and!; try done; [|by intros c' [= <-]]. apply Hgo. intros done_ Hi Hl.
    destruct (verifyItems_kinds _ _ _ (QueryRows t) Hi ltac:(apply elem_of_app; right; apply list_elem_of_here)) as [Hrt Ht]. split; [|congruence].
    intros _ Ha Hrd Hin. split; [|done]. rewrite map_app. apply Forall_app. split; [done|]. destruct Hw as (_ & Hc & _ & (M1 & _ & M3 & _)). rewrite M1, M3.
    destruct (c_warm s !! (cm_Unit c, cm_Version c, t_Name t)) as [l|] eqn:Hl'; [|constructor]. cbn [default]. destruct Hl as (u & Hu & _).
    pose proof (co_units _ _ _ _ Hcat _ _ (proj1 Hu) (proj2 Hu)) as Hok. rewrite (claim_class _ _ _ _ _ Hc Hu) in Ht. destruct (cl_version _ _ _ _ Hc) as (E & F & _).
    pose proof (uo_warm _ _ _ _ _ _ Hok (cm_Version c) t l ltac:(pose proof ok_version; lia) Ht Hl') as Hp. rewrite Hp. by apply (uo_rows _ _ _ _ _ _ Hok).
  - case_decide as Hn; intros [= <- <- <-]; split_and!; try done; [|by intros c' [= <-]]. apply Hgo. intros done_ Hi Hl. split.
    + intros Hr Ha Hrd Hin. split; [constructor|]. split; [apply Forall_app; split; [done|]; by constructor|]. apply Forall_app. split; [done|]. constructor; [|done].
      apply (verifyItems_kinds _ _ _ (EndTable t n) Hi). apply elem_of_app. right. apply list_elem_of_here.
    + intros _. cbn. by rewrite decide_True.
Qed.
End verifying.

Section step.
Context {HH : Hashes} {DD : Deploy} {OK : TierOk}.
Variable C : string → tables.
Context (s : Cat) (o : objects) (now : Z) (ps : gmap nat (Z * proc)) (i : nat) (d : Z).

(** A process goes on under the claim it has. *)
Lemma world_next s' o' p p' : worldOk C (MkWorld s' o' now ps) → ps !! i = Some (d, p) → procOk C s' o' now d p' →
  (∀ c', claimOf p' = Some c' → ∃ c, claimOf p = Some c ∧ cm_Unit c = cm_Unit c' ∧ cm_Generation c = cm_Generation c') → listing p' = [] →
  worldOk C (MkWorld s' o' now (<[i := (d, p')]> ps)).
Proof.
  intros Hw Hi Hp Hc Hl. apply world_proc; [done|done| |rewrite Hl; by intros k a ?%elem_of_nil]. intros c' Hc'. left.
  destruct (Hc c' Hc') as (c & ? & ? & ?). by exists p, c.
Qed.

Context (Hw : worldOk C (MkWorld s o now ps)) (Hd : now ≤ d).
Lemma world_catOk : catOk C s o now.
Proof. apply Hw. Qed.

Lemma read_step u g : ps !! i = Some (d, ReadManifest u g) → ∀ s' o' p, stepRead now s o u g = (s', o', p) → worldOk C (MkWorld s' o' now (<[i := (d, p)]> ps)).
Proof.
  intros Hi s' o' p. pose proof (wo_procs _ _ Hw _ _ _ Hi) as Hr. cbn [procOk w_cat w_objects w_now] in Hr. unfold stepRead.
  destruct (c_manifests s !! (ur_id u, ur_version u)) as [mr|] eqn:Hm; [|intros [= <- <- <-]; by apply world_ended].
  assert (Hthaw : isRewrite g → ur_thaw u = false) by (destruct g; [|done..]; by destruct Hr as (_ & _ & _ & _ & _ & ? & _)).
  assert (Hcl : ∀ p', claimOf p' = goalClaim g → ∀ c', claimOf p' = Some c' → ∃ c, claimOf (ReadManifest u g) = Some c ∧ cm_Unit c = cm_Unit c' ∧ cm_Generation c = cm_Generation c')
    by (intros p' He c' Hc; exists c'; rewrite <- Hc, He; done).
  destruct (ur_thaw u).
  { intros [= <- <- <-]. eapply world_next; [done|done| |by apply Hcl|done]. cbn [procOk]. split; [done|]. intros Hx. by specialize (Hthaw Hx). }
  destruct (ur_route u) eqn:Hrt; try (intros [= <- <- <-]; by apply world_ended).
  - intros [= <- <- <-]. eapply world_next; [done|done| |by apply Hcl|done]. cbn [procOk]. done.
  - destruct dp_Store; [|intros [= <- <- <-]; by apply world_ended]. destruct (objectsOf _ _) as [todo|] eqn:Ho; intros [= <- <- <-]; [|by apply world_ended].
    eapply world_next; [done|done| |by apply Hcl|done]. cbn [procOk]. split; [done|]. intros Hx. split; [done|]. intros _ x Hpx. exists mr, []. split; [done|]. split; [|done].
    destruct g as [c route e|ttl|root]; [|done..]. destruct Hr as (_ & Hc & _ & Hid & Hclass & _). rewrite Hid in Hpx. rewrite <- (claim_class _ _ _ _ _ Hc Hpx), <- Hclass. done.
Qed.

Lemma tables_step p u m g : ps !! i = Some (d, p) → claimOf p = goalClaim g → readerOk s now d u g →
  (isRewrite g → ∀ x, pastUnit s (ur_id u) x → sameTables (clOf x) m (C (ur_id u))) → worldOk C (MkWorld s o now (<[i := (d, withTables u m g)]> ps)).
Proof.
  intros Hi Hc Hr Hm. eapply world_next; [done|done|apply withTables_ok; [apply Hw|done..]| |apply withTables_listing].
  intros c' (c & Hg & E1 & E2)%withTables_claim. exists c. rewrite Hc. done.
Qed.
Lemma warm_step u v g : ps !! i = Some (d, ReadWarm u v g) → worldOk C (MkWorld s o now (<[i := (d, withTables u (warmRows (ur_id u) v s) g)]> ps)).
Proof.
  intros Hi. destruct (wo_procs _ _ Hw _ _ _ Hi) as [Hr Hv]. cbn [w_cat w_now] in Hr, Hv. eapply tables_step; [exact Hi|done|done|]. intros Hx x Hpx. destruct (Hv Hx) as [-> Hrt].
  destruct g as [c route e|ttl|root]; [|done..]. destruct (reader_copy _ _ _ _ _ _ _ _ _ _ world_catOk Hr Hd Hpx) as (mr & _ & Hmr & Hcp & _).
  unfold copyOk in Hcp. rewrite Hmr, Hrt in Hcp. intros t Ht. rewrite warmRows_in. destruct (Hcp t Ht) as (l & -> & Hp). done.
Qed.
Lemma objects_step u acc g : ps !! i = Some (d, ReadObjects u [] acc g) → worldOk C (MkWorld s o now (<[i := (d, withTables u acc g)]> ps)).
Proof.
  intros Hi. destruct (wo_procs _ _ Hw _ _ _ Hi) as [Hr Hv]. cbn [w_cat w_now w_objects] in Hr, Hv. eapply tables_step; [exact Hi|done|done|]. intros Hx x Hpx. destruct (Hv Hx) as [Hrt Hdn].
  destruct (Hdn Hd x Hpx) as (mr & done_ & Hm & Ho & Hra). rewrite app_nil_r in Ho.
  destruct g as [c route e|ttl|root]; [|done..]. destruct (reader_copy _ _ _ _ _ _ _ _ _ _ world_catOk Hr Hd Hpx) as (mr' & Hm' & Hmr & Hcp & _).
  cbn [w_cat] in Hm'. assert (mr' = mr) as -> by congruence. unfold copyOk in Hcp. rewrite Hmr, Hrt in Hcp. destruct Hcp as (todo & m' & O1 & O2 & O3).
  rewrite Ho in O1. injection O1 as <-. cbn [w_objects] in O2. rewrite Hra in O2. by injection O2 as <-.
Qed.
Lemma object_step u t mo todo acc g data a rows : ps !! i = Some (d, ReadObjects u ((t, mo) :: todo) acc g) → o !! mo_Key mo = Some (data, a) →
  sha256 data = mo_SHA256 mo → ReadParquet t data = Some rows →
  worldOk C (MkWorld s o now (<[i := (d, ReadObjects u todo (foldl (λ m r, addRow (t_Name t) r m) acc rows) g)]> ps)).
Proof.
  intros Hi Hk Hs Hp. destruct (wo_procs _ _ Hw _ _ _ Hi) as [Hr Hv]. cbn [w_cat w_now w_objects] in Hr, Hv. eapply world_next; [done|exact Hi| |intros c' Hc'; by exists c'|done].
  cbn [procOk]. split; [done|]. intros Hx. destruct (Hv Hx) as [Hrt Hdn]. split; [done|]. intros Hd' x Hpx. destruct (Hdn Hd' x Hpx) as (mr & done_ & Hm & Ho & Hra).
  exists mr, (done_ ++ [(t, mo)]). rewrite <- (assoc_L (++)). split; [done|]. split; [done|]. rewrite readAll_app, Hra. cbn. rewrite Hk. cbn. rewrite decide_True by done. by rewrite Hp.
Qed.

Lemma copyTable_step c m t rows todo x s' : ps !! i = Some (d, Copying c m (CopyTable t rows :: todo) None) → copyRows c t rows s = Ok (x, s') →
  worldOk C (MkWorld s' o now (<[i := (d, Copying c (addTable m (MkManifestTable (t_Name t) (Z.of_nat (List.length rows)) [])) todo None)]> ps)).
Proof.
  intros Hi Hc. pose proof (wo_procs _ _ Hw _ _ _ Hi) as ((_ & Hcl & _) & Hit & _). cbn [w_cat w_now] in Hcl, Hit.
  destruct (copyRows_keeps C _ _ _ _ _ _ _ _ _ world_catOk Hcl Hc (Hit _ (list_elem_of_here _ _))) as [Ha Hcat].
  apply copyRows_ok in Hc as (l & _ & ->). set (s' := warmSet _ _) in *.
  assert (Hw' : worldOk C (MkWorld s' o now ps)) by (by apply (world_same C now s)).
  destruct (wo_procs _ _ Hw' _ _ _ Hi) as ((_ & H2 & H3 & H4) & Hit' & Hpr). cbn [w_cat w_now] in *. eapply world_next; [done|done| |intros c' Hc'; by exists c'|done].
  cbn [procOk]. split; [split; [done|]; split; [done|]; split; [done|by apply manFor_table]|]. split.
  - intros j Hj. apply Hit'. by apply list_elem_of_further.
  - intros Hr Hl t' Ht'. destruct (Hpr Hr Hl t' Ht') as [?|(rows' & Hin)]; [by left|]. apply elem_of_cons in Hin as [[= -> ->]|Hin]; [left|right; by exists rows'].
    unfold s'. cbn. by rewrite lookup_insert_eq.
Qed.
Lemma copyPart_step c m t total part rows todo data : ps !! i = Some (d, Copying c m (CopyPart t total part rows :: todo) None) →
  let k := keyOf c (Part (t_Name t) part) in o !! k = None →
  worldOk C (MkWorld s (<[k := (data, now)]> o) now
    (<[i := (d, Copying c (addObject m t total part (MkManifestObject k (Z.of_nat (List.length rows)) (Z.of_nat (String.length data)) (sha256 data))) todo None)]> ps)).
Proof.
  intros Hi k Hk. assert (Hw' : worldOk C (MkWorld s (<[k := (data, now)]> o) now ps)) by (by eapply world_put).
  destruct (wo_procs _ _ Hw' _ _ _ Hi) as ((_ & H2 & H3 & H4) & Hit' & Hpr). cbn [w_cat w_now] in *. eapply world_next; [done|done| |intros c' Hc'; by exists c'|done].
  cbn [procOk]. split; [split; [done|]; split; [done|]; split; [done|by apply manFor_object]|]. split.
  - intros j Hj. apply Hit'. by apply list_elem_of_further.
  - intros Hr Hl t' Ht'. destruct part; cbn in Hr; (destruct (Hpr Hr Hl t' Ht') as [?|(rows' & Hin)]; [by left|right; exists rows'; by apply elem_of_cons in Hin as [|]]).
Qed.
Lemma copied_step c m : ps !! i = Some (d, Copying c m [] None) →
  worldOk C (MkWorld s o now (<[i := (d, match m_Route m with ObjectParquet => PutManifest c m None | _ => startVerify c m None end)]> ps)).
Proof.
  intros Hi. pose proof (wo_procs _ _ Hw _ _ _ Hi) as (H1 & _ & Hpr). cbn [w_cat w_now] in H1, Hpr.
  assert (Hpres : m_Route m = Postgres → live s c → present s c).
  { intros Hr Hl t Ht. destruct (Hpr Hr Hl t Ht) as [?|(rows & ?%elem_of_nil)]; done. }
  destruct (m_Route m) eqn:Hr; (eapply world_next; [done|done| | |]).
  all: try (apply startVerify_ok; [done|by rewrite Hr]); try apply startVerify_listing; try (intros c' ->%startVerify_claim; by exists c).
  - done.
  - intros c' [= <-]. by exists c.
  - done.
Qed.
Lemma putManifest_step c m : ps !! i = Some (d, PutManifest c m None) → o !! keyOf c ManifestFile = None →
  worldOk C (MkWorld s (<[keyOf c ManifestFile := (ManifestText m, now)]> o) now (<[i := (d, startVerify c m None)]> ps)).
Proof.
  intros Hi Hk. assert (Hw' : worldOk C (MkWorld s (<[keyOf c ManifestFile := (ManifestText m, now)]> o) now ps)) by (by eapply world_put).
  destruct (wo_procs _ _ Hw' _ _ _ Hi) as [H1 H2]. cbn [w_cat w_now] in *. eapply world_next; [done|done|apply startVerify_ok; [done|congruence]| |apply startVerify_listing].
  intros c' ->%startVerify_claim. by exists c.
Qed.
End step.

Section deleting.
Context {HH : Hashes} {DD : Deploy} {OK : TierOk}.
Variable C : string → tables.
Context (s : Cat) (o : objects) (now : Z) (ps : gmap nat (Z * proc)) (i : nat) (d : Z).
Context (Hw : worldOk C (MkWorld s o now ps)) (Hd : now ≤ d).

Lemma destroyed_unneeded k u : c_units s !! k_unit k = Some u → u_state u = Destroyed → unneeded s ps now k.
Proof.
  intros Hu Hs. split.
  - intros x v mr [Hx [_ Hp]] _ _ _ _. congruence.
  - intros j d' p c _ _ Hc _ _ _ (x & [Hx [_ Hp]] & _). rewrite Hc in Hx. congruence.
Qed.
Lemma old_unneeded unit v u k : c_units s !! unit = Some u → k_unit k = unit → k_version k = v →
  (past u → ∃ mr', c_manifests s !! (unit, v + 1) = Some mr' ∧ mr_created_at mr' + dp_Grace ≤ now) → unneeded s ps now k.
Proof.
  intros Hu <- <- Hg. split.
  - intros x w mr [Hx Hp] _ _ -> _. simplify_eq. by apply Hg.
  - intros j d' p c Hj Hc Hcu _ Hcv _ (x & [Hx Hp] & _ & Hb). rewrite Hcu in Hx. simplify_eq. destruct (Hg Hp) as (mr & Hm & _).
    destruct (mk_version _ _ _ _ _ _ _ _ (uo_manifests _ _ _ _ _ _ (co_units _ _ _ _ (wo_cat _ _ Hw) _ _ Hu Hp) _ _ Hm)).
    destruct (cl_version _ _ _ _ (proc_claim _ _ _ _ _ _ _ (wo_procs _ _ Hw _ _ _ Hj) Hc)) as [E _]. cbn in *. lia.
Qed.
Lemma orphan_unneeded class unit window named k a todo : ps !! i = Some (d, CleanObjects class unit window named ((k, a) :: todo)) →
  ¬ ((k_unit k, k_generation k, k_version k) ∈ named ∨ now - a < window) → unneeded s ps now k.
Proof.
  intros Hi Hno. destruct (wo_procs _ _ Hw _ _ _ Hi) as (-> & Hdl & Hnamed & Htodo). cbn [w_cat w_now] in *. pose proof ok_window as Hwin. pose proof Hour_pos.
  destruct (wo_listed _ _ Hw _ _ _ k a Hi (list_elem_of_here _ _)) as (_ & Hman & Hcl). cbn [w_cat w_procs] in *.
  destruct (Htodo k a (list_elem_of_here _ _)) as [Hkc Hku]. assert (Hfar : orphanWindow ≤ now - a) by (destruct (decide (now - a < orphanWindow)); [destruct Hno; by right|lia]). split.
  - intros u v mr Hp Hm Hg Hv Hc. exfalso. destruct (Hnamed (k_unit k) u v mr Hp) as [Hin|Hlate]; [congruence|done|done|..].
    + apply Hno. left. by rewrite <- Hg, <- Hv.
    + pose proof (Hman v mr Hm Hg). lia.
  - intros j d' p c Hj Hc E1 E2 _ Hd' _. pose proof (Hcl j d' p c Hj Hc E1 E2). lia.
Qed.

Lemma online_step unit class del b s' : ps !! i = Some (d, DeletingOnline unit class del) → deleteTurn unit (classOf class) (lastTurn unit del) s = Ok (b, s') →
  worldOk C (MkWorld s' o now (<[i := (d, if b : bool then match del with Purging => PurgeRows unit class | _ => Ended (Ok []) end else DeletingOnline unit class del)]> ps)).
Proof.
  intros Hi Ht. destruct (wo_procs _ _ Hw _ _ _ Hi) as (u & Hu & -> & Ho & Hp). cbn [w_cat w_now] in *.
  assert (Hp' : past u → u_state u ≠ Sealed ∧ ∀ pa, u_published_at u = Some pa → pa + dp_Grace ≤ now) by (intros Hx; destruct (Hp Hx) as [[? _] ?]; done).
  destruct (turn_world C _ _ _ _ _ _ _ _ _ Hw Hu Ho Hp' Ht) as [Hw' (u' & Hu' & E1 & E2 & E3)].
  assert (Hpu : past u' → past u) by (intros [P1 P2]; split; [done|]; destruct E3 as [<-|[-> _]]; done).
  destruct b; [|].
  - destruct del; [by apply world_ended| |by apply world_ended]. apply world_quiet; [done|done|]. cbn. exists u'. split; [done|].
    assert (Hdst : u_state u = Destroyed) by (destruct (decide (u_state u = Destroyed)); [done|]; destruct Hp as [[_ ?] _]; done).
    destruct E3 as [->|[? _]]; congruence.
  - apply world_quiet; [done|done|]. cbn. exists u'. split; [done|]. split; [done|]. split; [destruct E3 as [->|[_ ->]]; done|]. rewrite E2. intros Hx.
    destruct (Hp (Hpu Hx)) as [[P1 P2] P3]. split; [|done]. split; [|done]. destruct E3 as [->|[_ ->]]; done.
Qed.
Lemma old_step unit class olds keys s' o' p : ps !! i = Some (d, DeletingOld unit class olds keys) → stepOld now s o unit class olds keys = (s', o', p) →
  worldOk C (MkWorld s' o' now (<[i := (d, p)]> ps)).
Proof.
  intros Hi. pose proof (wo_procs _ _ Hw _ _ _ Hi) as (u & Hu & Ho & Hg & Hk). cbn [w_cat w_now] in *. unfold stepOld.
  destruct olds as [|[[v r] g] olds]; [intros [= <- <- <-]; by apply world_ended|]. assert (Hv : (v, r, g) ∈ (v, r, g) :: olds) by apply list_elem_of_here.
  destruct keys as [[|k ks]|].
  - unfold runTx. destruct (deleteOld now unit v s) as [[x s1]|] eqn:Hdel; intros [= <- <- <-]; [|by apply world_ended].
    assert (Hw' : worldOk C (MkWorld s1 o now ps)) by (eapply old_world; [exact Hw|exact Hu| |exact Hdel]; intros Hp; by eapply Hg).
    apply world_quiet; [done|done|]. destruct (wo_procs _ _ Hw' _ _ _ Hi) as (u1 & Hu1 & Ho1 & Hg1 & _). exists u1. split_and!; [done|done| |done].
    intros Hp v' r' g' Hin. eapply (Hg1 Hp v' r' g'). by apply list_elem_of_further.
  - intros [= <- <- <-]. destruct (Hk k (list_elem_of_here _ _)) as (Hku & v0 & r0 & g0 & olds0 & [= <- <- <- <-] & Hkv).
    assert (Hw' : worldOk C (MkWorld s (delete k o) now ps)) by (apply world_delete; [done|]; eapply old_unneeded; [exact Hu|done|done|]; intros Hp; by eapply Hg).
    apply world_quiet; [done|done|]. exists u. split_and!; [done|done|done|]. intros k' Hk'. apply Hk. by apply list_elem_of_further.
  - assert (Hnext : ∀ ks, (∀ k, k ∈ ks → k_unit k = unit ∧ k_version k = v) →
      worldOk C (MkWorld s o now (<[i := (d, DeletingOld unit class ((v, r, g) :: olds) (Some ks))]> ps))).
    { intros ks Hks. apply world_quiet; [done|done|]. exists u. split_and!; [done|done|done|]. intros k Hin. destruct (Hks k Hin) as [? ?]. split; [done|].
      by exists v, r, g, olds. }
    destruct r; try (intros [= <- <- <-]; apply Hnext; by intros k ?%elem_of_nil).
    destruct dp_Store; intros [= <- <- <-]; [|by apply world_ended]. apply Hnext. unfold versionKeys. intros k [(_ & ? & _ & ?) _]%list_elem_of_filter. done.
Qed.
Lemma clean_step class unit window named k a todo : ps !! i = Some (d, CleanObjects class unit window named ((k, a) :: todo)) → ∀ o', worldOk C (MkWorld s o' now ps) →
  worldOk C (MkWorld s o' now (<[i := (d, CleanObjects class unit window named todo)]> ps)).
Proof.
  intros Hi o' Hw'. pose proof (wo_procs _ _ Hw' _ _ _ Hi) as (H1 & H2 & H3 & H4). cbn [w_cat w_now] in *. apply world_proc; [done| |done|].
  - cbn [procOk]. split_and!; [done..|]. intros k' a' Hin. apply (H4 k' a'). by apply list_elem_of_further.
  - intros k' a' Hin. right. eexists i, d, _. split; [exact Hi|]. cbn. by apply list_elem_of_further.
Qed.
Lemma list_step class unit window named : ps !! i = Some (d, CleanList class unit window named) →
  worldOk C (MkWorld s o now (<[i := (d, CleanObjects class unit window named (listed class unit o))]> ps)).
Proof.
  intros Hi. pose proof (wo_procs _ _ Hw _ _ _ Hi) as (H1 & H2 & H3 & _). cbn [w_cat w_now] in *.
  assert (Hl : ∀ k a, (k, a) ∈ listed class unit o → (∃ data, o !! k = Some (data, a)) ∧ k_class k = class ∧ (unit = "" ∨ k_unit k = unit)).
  { intros k a Hin. unfold listed in Hin. apply list_elem_of_fmap in Hin as ([k' [data a']] & [= -> ->] & [Hc Hin%elem_of_map_to_list]%list_elem_of_filter). split; [by exists data|done]. }
  apply world_proc; [done| |done|].
  - cbn [procOk]. split_and!; [done..|]. intros k a Hin. by destruct (Hl k a Hin) as [_ ?].
  - intros k a Hin. left. by destruct (Hl k a Hin) as [? _].
Qed.
End deleting.

(** ** Every step *)

Section run.
Context {HH : Hashes} {DD : Deploy} {OK : TierOk}.
Variable C : string → tables.

Lemma transfer_step s o now ps i d c : worldOk C (MkWorld s o now ps) → ps !! i = Some (d, TransferRead c) → now ≤ d →
  let cl := classOf (cm_Class c) in
  worldOk C (MkWorld s o now (<[i := (d, startCopy c (default (UnknownRoute "") (head (cl_Routes cl))) (readOnline cl (cm_Unit c) s) None)]> ps)).
Proof.
  intros Hw Hi Hd cl. destruct (wo_procs _ _ Hw _ _ _ Hi) as (H1 & H2 & H3). cbn [w_cat w_now w_objects] in *. eapply world_next; [done|exact Hi| | |apply startCopy_listing].
  - apply startCopy_ok; [done|done|]. intros x Hx. unfold cl. rewrite (claim_class _ _ _ _ _ H1 Hx).
    pose proof (co_units _ _ _ _ (wo_cat _ _ Hw) _ _ (proj1 Hx) (proj2 Hx)) as Hok. destruct (decide (u_state x = Sealed)) as [Hs|Hs]; [by apply (uo_sealed _ _ _ _ _ _ Hok)|].
    destruct (uo_published _ _ _ _ _ _ Hok Hs) as (_ & (pa & Hpa & _ & Hg) & _). apply Hg. pose proof (H3 x pa Hx Hpa). pose proof ok_grace. cbn. lia.
  - intros c' ->%startCopy_claim. by exists c.
Qed.
Lemma route_step s o now ps i d unit g u s1 : worldOk C (MkWorld s o now ps) → ps !! i = Some (d, RouteOf unit g) → routeOf now unit s = Ok (u, s1) →
  worldOk C (MkWorld s1 o now (<[i := (d, match g with
    | Reading _ => ReadManifest u g
    | Thawing _ => if decide (ur_route u = Online) then Ended (Err Online_)
                   else ReadManifest (MkUnitRoute (ur_id u) (ur_class u) (ur_state u) (ur_route u) (ur_version u) false) g
    | Rewrite _ _ _ => ReadManifest (MkUnitRoute (ur_id u) (ur_class u) (ur_state u) (ur_route u) (ur_version u) false) g
    end)]> ps)).
Proof.
  intros Hw Hi Hr. pose proof (wo_procs _ _ Hw _ _ _ Hi) as Hp. pose proof (wo_cat _ _ Hw) as Hcat. cbn [w_cat w_now w_objects] in Hp, Hcat. unfold routeOf in Hr. inv_cat.
  destruct g as [c route e|ttl|root].
  - destruct Hp as (-> & H2 & H3 & <-). eapply world_next; [done|exact Hi| |intros c' Hc'; by exists c'|done]. cbn [procOk readerOk ur_id ur_class ur_thaw ur_route ur_version].
    match goal with H : c_units s !! cm_Unit c = Some ?u |- _ => rename H into Hu; set (x := u) in * end.
    destruct (cl_unit _ _ _ _ H2) as (y & Hy & Hyo & Hyc & _ & _ & Hys). assert (y = x) as -> by congruence.
    split_and!; try done. intros z Hz. assert (z = x) as -> by (destruct Hz; congruence). pose proof (co_units _ _ _ _ Hcat _ _ (proj1 Hz) (proj2 Hz)) as Hok.
    destruct (uo_published _ _ _ _ _ _ Hok (Hys H3)) as (_ & _ & (mr & Hm & Hmr)). exists mr. split; [done|]. split; [done|]. intros mr' Hm'.
    destruct (mk_version _ _ _ _ _ _ _ _ (uo_manifests _ _ _ _ _ _ Hok _ _ Hm')). lia.
  - case_decide; [by apply world_ended|]. by apply world_quiet.
  - by apply world_quiet.
Qed.
Lemma proc_world s o now ps i d p s' o' p' : worldOk C (MkWorld s o now ps) → ps !! i = Some (d, p) → now ≤ d → stepProc now s o p = (s', o', p') →
  worldOk C (MkWorld s' o' now (<[i := (d, p')]> ps)).
Proof.
  intros Hw Hi Hd. pose proof (wo_procs _ _ Hw _ _ _ Hi) as Hp. cbn [w_cat w_now w_objects] in Hp. pose proof (wo_cat _ _ Hw) as Hcat. cbn [w_cat w_now w_objects] in Hcat.
  destruct p; cbn [stepProc]; unfold runTx.
  - intros [= <- <- <-]. by apply transfer_step.
  - destruct (routeOf now unit s) as [[u s1]|] eqn:Hr; intros [= <- <- <-]; [|by apply world_ended]. by eapply route_step.
  - intros Hs. by eapply read_step.
  - case_decide; intros [= <- <- <-]; [by apply world_ended|]. by eapply warm_step.
  - destruct todo as [|[t mo] todo]; [intros [= <- <- <-]; by eapply objects_step|]. destruct (o !! mo_Key mo) as [[data a]|] eqn:Hk; [|intros [= <- <- <-]; by apply world_ended].
    case_decide; [|intros [= <- <- <-]; by apply world_ended]. destruct (ReadParquet t data) eqn:Hr; intros [= <- <- <-]; [|by apply world_ended]. by eapply object_step.
  - pose proof Hp as ((-> & _) & _). unfold stepCopy, runTx. destruct todo as [|[t rows|t total part rows] todo].
    + intros [= <- <- <-]. by apply copied_step.
    + destruct (copyRows c t rows s) as [[x s1]|] eqn:Hc; intros [= <- <- <-]; [|by apply world_ended]. by eapply copyTable_step.
    + destruct (WriteParquet t rows) as [data|]; [|intros [= <- <- <-]; by apply world_ended].
      destruct (o !! keyOf c (Part (t_Name t) part)) eqn:Hk; intros [= <- <- <-]; [by apply world_ended|]. by apply copyPart_step.
  - pose proof Hp as ((-> & _) & _). destruct (o !! keyOf c ManifestFile) eqn:Hk; intros [= <- <- <-]; [by apply world_ended|]. by apply putManifest_step.
  - pose proof Hp as ((-> & _) & _). destruct todo as [|it todo].
    + cbn [stepVerify]. destruct (verified _ m reads) eqn:Hv; intros [= <- <- <-]; [|by apply world_ended].
      eapply world_next; [done|exact Hi|by eapply verified_ok|intros c' [= <-]; by exists c|done].
    + intros Hs. destruct (verify_step _ _ _ _ _ _ _ _ _ _ _ _ _ _ Hcat Hp Hs) as (-> & -> & Hp' & Hc' & Hl'). eapply world_next; [done|exact Hi|done| |done].
      intros c' ->%Hc'. by exists c.
  - pose proof Hp as ((-> & _) & _). destruct (publishAlso now c m None s) as [[x s1]|] eqn:Hpub; intros [= <- <- <-]; [|by apply world_ended].
    apply world_ended. by eapply publish_world.
  - destruct (putThaw now unit class ttl aggs s) as [[x s1]|] eqn:Ht; intros [= <- <- <-]; [|by apply world_ended]. apply world_ended. by eapply thaw_world.
  - destruct (deleteTurn _ _ _ s) as [[b s1]|] eqn:Ht; intros [= <- <- <-]; [|by apply world_ended]. by eapply online_step.
  - destruct (purgeRows unit s) as [[x s1]|] eqn:Ht; intros [= <- <- <-]; [|by apply world_ended]. destruct Hp as (u & Hu & Hdst).
    pose proof (purge_world C _ _ _ _ _ _ _ _ Hw Hu Hdst Ht) as Hw'. destruct dp_Store; [|by apply world_ended]. apply world_quiet; [done|done|].
    apply (wo_procs _ _ Hw' _ _ _ Hi).
  - intros [= <- <- <-]. destruct Hp as (u & Hu & Hdst). apply world_quiet; [done|done|]. cbn [procOk]. unfold unitKeys. intros k [[_ ->] _]%list_elem_of_filter. by exists u.
  - destruct todo as [|k todo]; intros [= <- <- <-]; [by apply world_ended|]. destruct (Hp k (list_elem_of_here _ _)) as (u & Hu & Hdst).
    apply world_quiet; [|done|intros k' Hk'; apply Hp; by apply list_elem_of_further]. apply world_delete; [done|]. by eapply destroyed_unneeded.
  - destruct (destroyDecide now unit basis s) as [[why s1]|] eqn:Ht; intros [= <- <- <-]; [|by apply world_ended]. pose proof (destroy_world C _ _ _ _ _ _ _ _ Hw Ht) as Hw'.
    destruct why; [|by apply world_ended]. apply destroy_ok in Ht as [[_ ?]|(u & Hu & Ho & ->)]; [done|]. destruct Hp as (y & Hy & -> & _). assert (y = u) as -> by congruence.
    apply world_quiet; [done|done|]. exists (setDestroyed now basis u). split; [cbn; by rewrite lookup_insert_eq|]. split; [done|]. split; [done|]. by intros [_ ?].
  - done.
  - intros Hs. by eapply old_step.
  - destruct dp_Store; [intros [= <- <- <-]; by apply list_step|]. destruct (deleteOrphans now class unit s) as [[x s1]|] eqn:Ht; intros [= <- <- <-]; [|by apply world_ended].
    apply world_ended. by eapply orphans_world.
  - destruct todo as [|[k a] todo].
    + destruct (deleteOrphans now class unit s) as [[x s1]|] eqn:Ht; intros [= <- <- <-]; [|by apply world_ended]. apply world_ended. by eapply orphans_world.
    + case_decide as Hk; intros [= <- <- <-]; [by eapply clean_step|]. eapply clean_step; [exact Hi|].
      apply world_delete; [done|]. by eapply orphan_unneeded.
  - intros [= <- <- <-]. by apply world_ended.
Qed.
End run.
