(* ===== verification/TierArchive.v ===== *)
(** * Tiering: what is archived is kept

    Every step of a run without erasures keeps the invariant of [TierInv]; so a unit that
    was sealed and is not destroyed reads back as it was sealed.  Runs of concrete
    deployments, as witnesses and as examples. *)
From S2P Require Import Prelude GoStr Canon CanonProps TierPlan TierRows TierRead TierStore TierSys TierSame TierInv TierKept TierForward TierMove TierStart TierStep.
From Stdlib Require Import Ascii String.
Open Scope string_scope.
Open Scope Z_scope.
Open Scope list_scope.

Section kept.
Context {HH : Hashes} {DD : Deploy} {OK : TierOk}.

(** ** Every step keeps the invariant *)

Definition kept (C C' : string → tables) (s : Cat) : Prop := ∀ i u, c_units s !! i = Some u → u_state u ≠ Open → C' i = C i.

Lemma after_world C {A} (c : tx Cat tierErr A) s o now ps : worldOk C (MkWorld s o now ps) → (∀ x s', c s = Ok (x, s') → worldOk C (MkWorld s' o now ps)) →
  worldOk C (MkWorld (after c s) o now ps).
Proof. intros Hw Hc. destruct (after_cases c s) as [->|(x & s' & H & ->)]; [done|by eapply Hc]. Qed.
Lemma scopeOf_same class sc b s x s' : scopeOf class sc b s = Ok (x, s') → s' = s.
Proof. unfold scopeOf. intros H. inv_cat. destruct (sc_Kind sc); inv_cat; done. Qed.
Lemma hold_core id class who sc source reason s x s' : Hold id class who sc source reason s = Ok (x, s') → core s s'.
Proof. unfold Hold. intros H. inv_cat. match goal with H : scopeOf _ _ _ _ = Ok _ |- _ => apply scopeOf_same in H as -> end. done. Qed.
Lemma lift_core now class id who s x s' : LiftHold now class id who s = Ok (x, s') → core s s'.
Proof. unfold LiftHold. intros H. inv_cat. done. Qed.
Lemma approve_core id class who sc reason s x s' : Approve id class who sc reason s = Ok (x, s') → core s s'.
Proof. unfold Approve. intros H. inv_cat. match goal with H : scopeOf _ _ _ _ = Ok _ |- _ => apply scopeOf_same in H as -> end. done. Qed.
Lemma withdraw_core now class id who s x s' : Withdraw now class id who s = Ok (x, s') → core s s'.
Proof. unfold Withdraw. intros H. inv_cat. done. Qed.
Lemma renew_core now id s x s' : Renew now id s = Ok (x, s') → core s s'.
Proof. unfold Renew. intros H. inv_cat. destruct (c_leases s !! id) as [[v e]|]; [|done]. case_decide; by inv_cat. Qed.

Lemma wstep_world recorded C w w' : wstep false recorded w w' → worldOk C w → ∃ C', worldOk C' w' ∧ kept C C' (w_cat w).
Proof.
  intros Hs Hw. assert (Hsame : worldOk C w' → ∃ C', worldOk C' w' ∧ kept C C' (w_cat w)) by (intros Hx; by exists C).
  assert (Hcore : ∀ A (c : tx Cat tierErr A) s o now ps, worldOk C (MkWorld s o now ps) → (∀ x s', c s = Ok (x, s') → core s s') → worldOk C (MkWorld (after c s) o now ps)).
  { intros A c s o now ps Hx Hc. apply after_world; [done|]. intros x s' H%Hc. by apply (world_core C s). }
  destruct Hs.
  - apply Hsame. by apply (world_tick C s o now).
  - apply Hsame, after_world; [done|]. intros y s'. by apply write_world.
  - apply Hsame. by apply (world_core C s).
  - destruct (after_cases (Seal now id class g answers) s) as [He|(y & s' & H & He)]; rewrite He in *; [by apply Hsame|]. by eapply seal_world.
  - apply Hsame, Hcore; [done|]. intros y s'. apply hold_core.
  - apply Hsame, Hcore; [done|]. intros y s'. apply lift_core.
  - apply Hsame, Hcore; [done|]. intros y s'. apply approve_core.
  - apply Hsame, Hcore; [done|]. intros y s'. apply withdraw_core.
  - apply Hsame. by apply (world_core C s).
  - apply Hsame, Hcore; [done|]. intros y s'. apply renew_core.
  - apply Hsame. by apply (world_core C s).
  - apply Hsame. eapply start_world; [done| |done|done]. by destruct (isErase st); [discriminate H|].
  - apply Hsame. by eapply proc_world.
  - apply Hsame, after_world; [done|]. intros y s' [->|(u & Hu & _ & ->)]%replay_ok; [done|]. by apply world_destroyed.
  - done.
  - apply Hsame. by apply world_crash.
Qed.
Lemma run_world recorded C w w' : rtc (wstep false recorded) w w' → worldOk C w → ∃ C', worldOk C' w' ∧ kept C C' (w_cat w).
Proof.
  intros Hr. revert C. induction Hr as [w|w1 w2 w3 Hs Hr IH]; intros C Hw; [by exists C|]. destruct (wstep_world _ _ _ _ Hs Hw) as (C2 & Hw2 & Hk2).
  destruct (IH C2 Hw2) as (C3 & Hw3 & Hk3). exists C3. split; [done|]. intros i u Hu Ho. rewrite <- (Hk2 i u Hu Ho).
  apply wstep_forward in Hs as [M1 _]. destruct (M1 i u Hu) as (u' & Hu' & (_ & _ & _ & Hrk & _)). apply (Hk3 i u' Hu'). intros Ho'. rewrite Ho' in Hrk.
  by destruct (u_state u).
Qed.

(** ** The beginning *)

(** A catalog just made, the component's rows as they may be. *)
Definition begins (w : World) : Prop :=
  c_units (w_cat w) = ∅ ∧ c_members (w_cat w) = ∅ ∧ c_warm (w_cat w) = ∅ ∧ c_manifests (w_cat w) = ∅ ∧ w_objects w = ∅ ∧ w_procs w = ∅ ∧
  ∀ t r, r ∈ onlineRows (w_cat w) t → rowOk (r_row r).
Lemma begins_world w : begins w → worldOk (λ _, ∅) w.
Proof.
  destruct w as [s o now ps]. intros (E1 & E2 & E3 & E4 & E5 & E6 & Hr). cbn in *. subst o ps. constructor; cbn; [|by intros i d p..|by intros i d p k a].
  constructor; unfold isFresh, freshOk; rewrite ?E1, ?E2, ?E3, ?E4; try done; try (by intros id u); try (by intros id v mr).
Qed.

(** ** Reading a unit *)

(** The tables a unit's rows are in now: online, in the warm route, on the object store
    ([readUnit] of transfer.go while it is sealed, [readUnitRoute] from then on). *)
Definition contentAt (w : World) (id : string) : option tables :=
  let s := w_cat w in
  u ← c_units s !! id;
  let cl := classOf (u_class u) in
  match u_state u with
  | Sealed => Some (readOnline cl id s)
  | Published | Released =>
      mr ← c_manifests s !! (id, u_manifest_version u);
      match u_route u with
      | Postgres => Some (warmRows id (u_manifest_version u) s)
      | ObjectParquet => todo ← objectsOf cl (mr_manifest mr); readAll (w_objects w) todo ∅
      | _ => None
      end
  | _ => None
  end.
Lemma content_at C w id u : worldOk C w → pastUnit (w_cat w) id u → ∃ m, contentAt w id = Some m ∧ sameTables (clOf u) m (C id).
Proof.
  intros Hw Hp. pose proof (co_units _ _ _ _ (wo_cat _ _ Hw) id u (proj1 Hp) (proj2 Hp)) as Hok. destruct Hp as [Hu [Ho Hd]]. unfold contentAt. rewrite Hu. cbn [mbind option_bind].
  assert (Hpub : u_state u ≠ Sealed → ∃ m, (mr ← c_manifests (w_cat w) !! (id, u_manifest_version u);
      match u_route u with
      | Postgres => Some (warmRows id (u_manifest_version u) (w_cat w))
      | ObjectParquet => todo ← objectsOf (classOf (u_class u)) (mr_manifest mr); readAll (w_objects w) todo ∅
      | _ => None
      end) = Some m ∧ sameTables (clOf u) m (C id)).
  { intros Hs. destruct (uo_published _ _ _ _ _ _ Hok Hs) as (_ & _ & (mr & Hm & Hr)). rewrite Hm. cbn [mbind option_bind].
    destruct (mk_copy _ _ _ _ _ _ _ _ (uo_manifests _ _ _ _ _ _ Hok _ _ Hm)) as [Hc|(mr' & Hm' & _)].
    - unfold copyOk in Hc. rewrite Hr in Hc. destruct (u_route u); try done.
      + eexists. split; [done|]. intros t Ht. rewrite warmRows_in. destruct (Hc t Ht) as (l & -> & Hl). done.
      + destruct Hc as (todo & m' & H1 & H2 & H3). exists m'. fold (clOf u). rewrite H1. done.
    - destruct (mk_version _ _ _ _ _ _ _ _ (uo_manifests _ _ _ _ _ _ Hok _ _ Hm')). lia. }
  destruct (u_state u) eqn:Hst; try done; [|by apply Hpub|by apply Hpub]. eexists. split; [done|]. by apply (uo_sealed _ _ _ _ _ _ Hok).
Qed.

(** C6. What is archived is kept.  Take any run from an empty catalog in which no erasure
    runs: any interleaving of the component's transactions, seals, transfers, reroutes,
    thaws, releases of online rows, releases of replaced versions, cleanups of orphans,
    holds, approvals, destructions of other units, leases,
    replays of recorded destructions, and of crashes and repeats of
    all of these.  From the moment a unit is sealed, and as long as it is not destroyed,
    its rows can be read where its route says, and each table has exactly the rows it had
    when the unit was sealed.  This rests on a checked configuration, a hash without
    collisions, a grace longer than an hour and an orphans' window longer than seven. *)
Theorem archive_kept recorded w0 w w' id u u' : begins w0 → rtc (wstep false recorded) w0 w → rtc (wstep false recorded) w w' →
  c_units (w_cat w) !! id = Some u → u_state u ≠ Open → c_units (w_cat w') !! id = Some u' → u_state u' ≠ Destroyed →
  u_class u' = u_class u ∧ ∃ m m', contentAt w id = Some m ∧ contentAt w' id = Some m' ∧
    ∀ t, t ∈ Tables (classOf (u_class u)) → rowsIn m' (t_Name t) ≡ₚ rowsIn m (t_Name t).
Proof.
  intros Hb Hr Hr' Hu Ho Hu' Hd'. destruct (run_world _ _ _ _ Hr (begins_world _ Hb)) as (C & Hw & _). destruct (run_world _ _ _ _ Hr' Hw) as (C' & Hw' & Hk).
  destruct (run_forward _ _ _ _ Hr') as [Hf _]. destruct (Hf id u Hu) as (x & Hx & (Hc & _ & _ & Hrk & _)). assert (x = u') as -> by congruence. split; [done|].
  assert (Hd : u_state u ≠ Destroyed) by (intros Hd; rewrite Hd in Hrk; by destruct (u_state u')).
  assert (Ho' : u_state u' ≠ Open) by (intros Ho'; rewrite Ho' in Hrk; by destruct (u_state u)).
  destruct (content_at _ _ id u Hw) as (m & Hm & Hs); [by split|]. destruct (content_at _ _ id u' Hw') as (m' & Hm' & Hs'); [by split|]. exists m, m'. split; [done|]. split; [done|].
  rewrite (Hk id u Hu Ho) in Hs'. unfold clOf in Hs, Hs'. rewrite Hc in Hs'. intros t Ht. rewrite (Hs t Ht). by apply Hs'.
Qed.
End kept.
