(* ===== verification/TierDemo.v ===== *)
(** * Tiering: runs of a deployment

    A deployment of orders with their lines and notes, an executable form of the runs, and
    the runs that show what the theorems on tiering speak of. *)
From S2P Require Import Prelude GoStr Canon CanonProps TierPlan TierRows TierRead TierStore TierSys TierSame TierInv TierKept TierForward TierMove TierStart TierStep TierArchive.
From Stdlib Require Import Ascii String.
Open Scope string_scope.
Open Scope Z_scope.
Open Scope list_scope.

(** ** Runs as programs *)

Inductive cmd :=
| Tick (dt : Z) | DoSeal (id class g : string) | DoHold (id class who : string) (sc : Scope) | DoLift (id class who : string) | DoApprove (id class who : string) (sc : Scope)
| DoSnapshot (id : string) | Start (i : nat) (st : start) | Step (i : nat) (n : nat).

Section exec.
Context {HH : Hashes} {DD : Deploy}.

Fixpoint steps (n i : nat) (w : World) : World :=
  match n with
  | O => w
  | S n =>
      match w_procs w !! i with
      | Some (d, p) =>
          if decide (w_now w ≤ d) then
            let '(s', o', p') := stepProc (w_now w) (w_cat w) (w_objects w) p in steps n i (MkWorld s' o' (w_now w) (<[i := (d, p')]> (w_procs w)))
          else w
      | None => w
      end
  end.
Definition exec1 (c : cmd) (w : World) : World :=
  let '(MkWorld s o now ps) := w in
  match c with
  | Tick dt => if decide (0 ≤ dt) then MkWorld s o (now + dt) ps else w
  | DoSeal id class g => MkWorld (after (Seal now id class g (Some [])) s) o now ps
  | DoHold id class who sc => MkWorld (after (Hold id class (Some who) sc "legal" "case") s) o now ps
  | DoLift id class who => MkWorld (after (LiftHold now class id (Some who)) s) o now ps
  | DoApprove id class who sc => MkWorld (after (Approve id class (Some who) sc "due") s) o now ps
  | DoSnapshot id => MkWorld (after (Snapshot now id) s) o now ps
  | Start i st =>
      if decide (ps !! i = None) then let '(s', o', p) := startProc now s o st in MkWorld s' o' now (<[i := (now + limitOf st, p)]> ps) else w
  | Step i n => steps n i w
  end.
Definition exec (cs : list cmd) (w : World) : World := foldl (λ w c, exec1 c w) w cs.
Definition mild (c : cmd) : bool := match c with Start _ st => negb (isErase st) | _ => true end.

Lemma steps_run erasing recorded n i w : rtc (wstep erasing recorded) w (steps n i w).
Proof.
  revert w. induction n as [|n IH]; intros [s o now ps]; cbn [steps w_procs w_now w_cat w_objects]; [done|]. destruct (ps !! i) as [[d p]|] eqn:Hi; [|done].
  case_decide; [|done]. destruct (stepProc now s o p) as [[s' o'] p'] eqn:Hs. eapply rtc_l; [|apply IH]. by eapply st_proc.
Qed.
Lemma exec1_run erasing recorded c w : mild c || erasing = true → rtc (wstep erasing recorded) w (exec1 c w).
Proof.
  destruct w as [s o now ps]. intros Hm. destruct c; cbn [exec1]; try (apply rtc_once; by constructor).
  - case_decide; [|done]. apply rtc_once. constructor. lia.
  - case_decide; [|done]. destruct (startProc now s o st) as [[s' o'] p] eqn:Hs. apply rtc_once. eapply st_start; [|done|done|done].
    intros He. cbn in Hm. rewrite He in Hm. done.
  - apply steps_run.
Qed.
Lemma exec_run erasing recorded cs w : forallb (λ c, mild c || erasing) cs = true → rtc (wstep erasing recorded) w (exec cs w).
Proof.
  revert w. induction cs as [|c cs IH]; intros w; [done|]. cbn [forallb exec foldl]. intros [H1 H2]%andb_true_iff. etransitivity; [by apply exec1_run|]. by apply IH.
Qed.
End exec.

(** ** The deployment *)

Definition demoRec (root : string) (cols : list (string * string)) : Rec := MkRec root (keyRow cols) true 0 0 "".
(** Two orders with lines and notes. *)
Definition demoOnline : gmap string (list Rec) := list_to_map
  [("orders", [demoRec "o1" [("id", "o1")]; demoRec "o2" [("id", "o2")]]);
   ("line", [demoRec "o2" [("id", "l2"); ("order_id", "o2")]; demoRec "o1" [("id", "l1"); ("order_id", "o1")]]);
   ("note", [demoRec "o1" [("id", "n1"); ("line_id", "l1")]; demoRec "o2" [("id", "n2"); ("line_id", "l2")]; demoRec "o1" [("id", "n3"); ("line_id", "l1")]])].
Definition demoCat : Cat := MkCat ∅ ∅ demoOnline ∅ ∅ 1 ∅ ∅ ∅ ∅ ∅ "e1".
Definition demoWorld : World := MkWorld demoCat ∅ (100 * Day) ∅.

(** The files of the tables that come up: a table's rows online, and as reading a copy
    gives them back. *)
Definition demoAgain : tables := match assemble demoClass demoTables "" with Some aggs => flatten demoClass aggs | None => ∅ end.
Definition demoWrite (t : Table) (rows : list crow) : option string :=
  if decide (rows = rowsIn demoTables (t_Name t)) then Some "a" else if decide (rows = rowsIn demoAgain (t_Name t)) then Some "b" else None.
Definition demoRead (t : Table) (data : string) : option (list crow) :=
  if decide (data = "a") then Some (rowsIn demoTables (t_Name t)) else if decide (data = "b") then Some (rowsIn demoAgain (t_Name t)) else None.
Definition demoDeploy : Deploy := {|
  dp_Classes := {[ "orders" := demoClass ]}; dp_Residence := ∅; dp_MaxMembers := 0; dp_Batch := 0; dp_Parts := 0; dp_N := 30 * Day; dp_Grace := Day;
  dp_OrphanAge := 0; dp_Store := true; dp_Evidence := true; rootLe := strLe; rootLe_dec := strLe_dec; firstGeneration := 0; firstVersion := 0;
  WriteParquet := demoWrite; ReadParquet := demoRead; ManifestText m := m_Digest m |}.
#[local] Existing Instance hexHashes.
#[local] Existing Instance demoDeploy.

Definition demoSeal : list cmd := [DoSeal "u1" "orders" ""].
Definition demoMoves : list cmd :=
  [Start 1 (StTransfer "u1"); Step 1 20; Tick (2 * Day); Start 2 (StRelease "u1" (Some (102 * Day))); Step 2 20;
   Start 3 (StReroute "u1" ObjectParquet); Step 3 40; Tick (2 * Day); Start 4 (StOld "u1" (Some (104 * Day))); Step 4 20; Start 5 (StClean "orders" ""); Step 5 20].

(** The configuration is checked. *)
Definition rowFine (r : crow) : bool :=
  textOk (Obj (prod_map id toValue <$> map_to_list r)) && match Row r with Some b => bool_decide (Z.of_nat (String.length b) ≤ int64_max) | None => true end.
Lemma rowFine_ok r : rowFine r = true → rowOk r.
Proof.
  unfold rowFine, rowOk, small. intros [H1 H2]%andb_true_iff. split; [done|]. intros b Hb. rewrite Hb in H2. by apply bool_decide_eq_true in H2.
Qed.
Lemma tablesFine (m : tables) n r : forallb (λ p, forallb rowFine p.2) (map_to_list m) = true → r ∈ rowsIn m n → rowOk r.
Proof.
  intros Hf Hr. unfold rowsIn in Hr. destruct (m !! n) as [l|] eqn:Hl; [|by apply elem_of_nil in Hr]. apply elem_of_map_to_list in Hl.
  rewrite forallb_forall in Hf. apply list_elem_of_In in Hl. specialize (Hf _ Hl). rewrite forallb_forall in Hf. apply rowFine_ok, Hf. by apply list_elem_of_In.
Qed.
Lemma onlineFine (m : gmap string (list Rec)) n r : forallb (λ p, forallb (λ x, rowFine (r_row x)) p.2) (map_to_list m) = true → r ∈ default [] (m !! n) → rowOk (r_row r).
Proof.
  intros Hf Hr. destruct (m !! n) as [l|] eqn:Hl; [|by apply elem_of_nil in Hr]. apply elem_of_map_to_list in Hl.
  rewrite forallb_forall in Hf. apply list_elem_of_In in Hl. specialize (Hf _ Hl). rewrite forallb_forall in Hf. apply rowFine_ok, (Hf r). by apply list_elem_of_In.
Qed.
#[local] Instance demoOk : TierOk.
Proof.
  assert (Hone : ∀ n cl, dp_Classes !! n = Some cl → n = "orders" ∧ cl = demoClass).
  { intros n cl Hn. change (({[ "orders" := demoClass ]} : gmap string Class_) !! n = Some cl) in Hn. by apply lookup_singleton_Some in Hn as [<- <-]. }
  constructor.
  - by intros n cl [-> ->]%Hone.
  - intros n cl [-> ->]%Hone. exists 30, ["names"]. exact demoClass_ok.
  - intros n cl [-> ->]%Hone. unfold wellNamed. vm_compute. repeat constructor; set_solver.
  - intros n cl [-> ->]%Hone. split; [done|]. split; [done|]. intros t Ht. apply elem_of_cons in Ht as [->|[->|[->|?%elem_of_nil]%elem_of_cons]%elem_of_cons]; done.
  - intros n n' cl cl' t t' [-> ->]%Hone [-> ->]%Hone. done.
  - intros x. apply hexOf_valid.
  - intros x y. apply hexOf_inj.
  - intros t data rows. cbn. unfold demoRead. case_decide; [|case_decide; [|done]]; intros [= <-]; apply Forall_forall; intros r; apply tablesFine; vm_compute; reflexivity.
  - vm_compute. reflexivity.
  - vm_compute. reflexivity.
  - done.
Qed.
Lemma demo_begins : begins demoWorld.
Proof. unfold begins. split_and!; try done. intros t r. apply onlineFine. vm_compute. reflexivity. Qed.

(** A unit is sealed, transferred, its online rows released, then rerouted to the object
    store, the replaced version released and the orphans cleaned up. *)
Lemma archive_kept_witness :
  let w := exec demoSeal demoWorld in let w' := exec demoMoves w in
  onlineRows (w_cat w') "note" = [] ∧ c_warm (w_cat w') = ∅ ∧
  ∃ m m', contentAt w "u1" = Some m ∧ contentAt w' "u1" = Some m' ∧
    ∀ t, t ∈ Tables demoClass → rowsIn m' (t_Name t) ≡ₚ rowsIn m (t_Name t).
Proof.
  cbv zeta. split; [vm_compute; reflexivity|]. split; [vm_compute; reflexivity|].
  destruct (c_units (w_cat (exec demoSeal demoWorld)) !! "u1") as [u|] eqn:Hu; [|vm_compute in Hu; discriminate Hu].
  destruct (c_units (w_cat (exec demoMoves (exec demoSeal demoWorld))) !! "u1") as [u'|] eqn:Hu'; [|vm_compute in Hu'; discriminate Hu'].
  assert (Hc : u_class u = "orders") by (vm_compute in Hu; injection Hu as <-; reflexivity).
  assert (Ho : u_state u ≠ Open) by (vm_compute in Hu; injection Hu as <-; discriminate).
  assert (Hd : u_state u' ≠ Destroyed) by (vm_compute in Hu'; injection Hu' as <-; discriminate).
  destruct (archive_kept [] demoWorld (exec demoSeal demoWorld) (exec demoMoves (exec demoSeal demoWorld)) "u1" u u' demo_begins) as [_ Hk];
    [by apply exec_run|by apply exec_run|exact Hu|exact Ho|exact Hu'|exact Hd|]. rewrite Hc in Hk. exact Hk.
Defined.
Lemma units_forward_witness :
  let w := exec demoSeal demoWorld in let w' := exec demoMoves w in
  (∃ u', c_units (w_cat w') !! "u1" = Some u' ∧ u_class u' = "orders") ∧ c_members (w_cat w') !! ("orders", "o2") = Some "u1".
Proof.
  cbv zeta. destruct (c_units (w_cat (exec demoSeal demoWorld)) !! "u1") as [u|] eqn:Hu; [|vm_compute in Hu; discriminate Hu].
  assert (Hc : u_class u = "orders") by (vm_compute in Hu; injection Hu as <-; reflexivity).
  destruct (units_forward false [] (exec demoSeal demoWorld) (exec demoMoves (exec demoSeal demoWorld)) "u1" u) as [(u' & Hu' & Hcl & _) Hm];
    [by apply exec_run|exact Hu|]. split; [exists u'; split; [exact Hu'|congruence]|]. apply Hm. vm_compute. reflexivity.
Defined.
(** Retention over and approved: the unit is destroyed. *)
Definition demoDestroy : list cmd := [Tick (400 * Day); DoApprove "a1" "orders" "eve" (MkScope ScopeUnit "u1"); Start 6 (StDestroy "u1")].
Lemma destroyed_allowed_witness :
  let w := exec demoDestroy (exec demoMoves (exec demoSeal demoWorld)) in
  u_state <$> c_units (w_cat (exec1 (Step 6 1) w)) !! "u1" = Some Destroyed ∧ approvedFor "u1" "orders" (w_cat w) = true.
Proof.
  cbv zeta. set (w := exec demoDestroy (exec demoMoves (exec demoSeal demoWorld))).
  assert (Hst : wstep false [] w (exec1 (Step 6 1) w)).
  { destruct (w_procs w !! 6%nat) as [[d p]|] eqn:Hp; [|vm_compute in Hp; discriminate Hp].
    destruct (stepProc (w_now w) (w_cat w) (w_objects w) p) as [[s' o'] p'] eqn:Hs. assert (Hd : w_now w ≤ d) by (vm_compute in Hp; injection Hp as <- _; vm_compute; discriminate).
    assert (He : exec1 (Step 6 1) w = MkWorld s' o' (w_now w) (<[6%nat := (d, p')]> (w_procs w))).
    { destruct w as [s o now ps]. cbn [w_now w_cat w_objects w_procs] in *. cbn [exec1 steps w_procs w_now w_cat w_objects]. rewrite Hp, decide_True by done. by rewrite Hs. }
    rewrite He. destruct w as [s o now ps]. eapply st_proc; [exact Hp|exact Hd|exact Hs]. }
  destruct (c_units (w_cat (exec1 (Step 6 1) w)) !! "u1") as [u'|] eqn:Hu'; [|vm_compute in Hu'; discriminate Hu'].
  assert (Hd' : u_state u' = Destroyed) by (vm_compute in Hu'; injection Hu' as <-; reflexivity). split; [cbn; by rewrite Hd'|].
  destruct (destroyed_allowed false [] w (exec1 (Step 6 1) w) "u1" u' Hst Hu' Hd') as (u & Hu & [Hx|[(basis & Hin & _)|(_ & _ & _ & Ha & _)]]).
  - exfalso. vm_compute in Hu. injection Hu as <-. discriminate Hx.
  - by apply elem_of_nil in Hin.
  - assert (Hc : u_class u = "orders") by (vm_compute in Hu; injection Hu as <-; reflexivity). by rewrite Hc in Ha.
Defined.
