(* ===== verification/TierFaults.v ===== *)
(** * Tiering: runs that go wrong

    Three runs of the tiering in which it does not do what its comments say: an erased
    value that comes back, a unit a snapshot does not see, and a hold another class lifts. *)
From S2P Require Import Prelude GoStr Canon CanonProps TierPlan TierRows TierRead TierStore TierSys TierSame TierInv TierKept TierForward TierMove TierStart TierStep TierArchive TierDemo.
From Stdlib Require Import Ascii String.
Open Scope string_scope.
Open Scope Z_scope.
Open Scope list_scope.
#[local] Existing Instance hexHashes.

(** ** An erased value comes back *)

(** Orders with the customer's name, which can be erased. *)
Definition nameTable : Table := MkTable "orders" "id" [] (list_to_map [("id", "uuid"); ("name", "text"); ("done_at", "timestamptz"); ("created_at", "timestamptz")]).
Definition nameClass : Class_ :=
  MkClass "orders" CompletedHistory nameTable [] [] "done_at" "created_at" "state = 'done'" 90 (MkRetention 365 730 "contract" false) ["id"] ["name"] [Postgres] "1" "hold" "approve".
Definition nameDeploy : Deploy := {|
  dp_Classes := {[ "orders" := nameClass ]}; dp_Residence := ∅; dp_MaxMembers := 0; dp_Batch := 0; dp_Parts := 0; dp_N := 30 * Day; dp_Grace := Day;
  dp_OrphanAge := 0; dp_Store := true; dp_Evidence := true; rootLe := strLe; rootLe_dec := strLe_dec; firstGeneration := 0; firstVersion := 0;
  WriteParquet _ _ := None; ReadParquet _ _ := None; ManifestText m := m_Digest m |}.
Definition nameOnline : gmap string (list Rec) := list_to_map
  [("orders", [demoRec "o1" [("id", "o1"); ("name", "Ann")]; demoRec "o2" [("id", "o2"); ("name", "Bob")]])].
Definition nameWorld : World := MkWorld (MkCat ∅ ∅ nameOnline ∅ ∅ 1 ∅ ∅ ∅ ∅ ∅ "e1") ∅ (100 * Day) ∅.
Section names.
#[local] Existing Instance nameDeploy.
(** The unit is published.  The erasure of o2 starts and reads; that of o1 runs to its end. *)
Definition nameErased : list cmd :=
  [DoSeal "u1" "orders" ""; Start 1 (StTransfer "u1"); Step 1 20;
   Start 2 (StErase false "orders" "o2"); Step 2 4; Start 3 (StErase false "orders" "o1"); Step 3 20].
(** The first erasure goes on, is refused at the publish and starts again. *)
Definition nameStale : list cmd := [Step 2 20; Start 4 (StErase false "orders" "o2"); Step 4 20].
(** The names the unit's route gives. *)
Definition namesAt (w : World) : list (option cval) :=
  map (λ r, r !! "name") (rowsIn (default ∅ (contentAt w "u1")) "orders").
Definition outcome (i : nat) (w : World) : option proc := snd <$> w_procs w !! i.

(** The rows of the warm route are kept by unit and version, not by generation: an erasure
    that a newer one overtook writes its copy over the one that was published, with the
    value the other erased, and its next attempt publishes it. *)
Lemma erased_returns :
  let w := exec nameErased nameWorld in let w' := exec nameStale w in
  rtc (wstep true []) nameWorld w ∧ rtc (wstep true []) w w' ∧
  outcome 3 w = Some (Ended (Ok [])) ∧ namesAt w = [None; Some (CText "Bob")] ∧
  outcome 2 w' = Some (Ended (Err Stale)) ∧ outcome 4 w' = Some (Ended (Ok [])) ∧ namesAt w' = [Some (CText "Ann"); None].
Proof. cbv zeta. split; [by apply exec_run|]. split; [by apply exec_run|]. vm_compute. done. Qed.

End names.

(** ** A unit a snapshot does not see *)

Section cold.
#[local] Existing Instance demoDeploy.

Definition coldRelease : list cmd :=
  [DoSeal "u1" "orders" ""; Start 1 (StTransfer "u1"); Step 1 20; Tick (2 * Day); Start 2 (StRelease "u1" (Some (102 * Day))); Step 2 20; DoSnapshot "l1"].
Definition coldReroute : list cmd := [Start 3 (StReroute "u1" ObjectParquet); Step 3 40].
(** The units a snapshot reads from their routes are those whose route's last change it
    knows: a unit released before the snapshot and rerouted under it is in none of its
    parts, its rows not online and the unit not among the cold ones. *)
Lemma rerouted_unseen :
  let w := exec coldRelease demoWorld in let w' := exec coldReroute w in let v := default 0 (fst <$> c_leases (w_cat w) !! "l1") in
  rtc (wstep false []) demoWorld w ∧ rtc (wstep false []) w w' ∧ is_Some (c_leases (w_cat w') !! "l1") ∧
  ColdUnits v "orders" (w_cat w) = ["u1"] ∧ ColdUnits v "orders" (w_cat w') = [] ∧ onlineRows (w_cat w') "orders" = [] ∧
  u_state <$> c_units (w_cat w') !! "u1" = Some Released.
Proof. cbv zeta. split; [by apply exec_run|]. split; [by apply exec_run|]. split; [vm_compute; by eexists|]. vm_compute. done. Qed.

End cold.

(** ** A hold another class lifts *)

Definition classNamed (name : string) : Class_ :=
  MkClass name CompletedHistory (demoTable name "") [] [] "done_at" "created_at" "state = 'done'" 90 (MkRetention 365 730 "contract" false) ["id"] [] [Postgres] "1" "hold" "approve".
Definition twoDeploy : Deploy := {|
  dp_Classes := list_to_map [("a_b", classNamed "a_b"); ("axb", classNamed "axb")]; dp_Residence := ∅; dp_MaxMembers := 0; dp_Batch := 0; dp_Parts := 0;
  dp_N := 30 * Day; dp_Grace := Day; dp_OrphanAge := 0; dp_Store := true; dp_Evidence := true; rootLe := strLe; rootLe_dec := strLe_dec;
  firstGeneration := 0; firstVersion := 0; WriteParquet _ _ := None; ReadParquet _ _ := None; ManifestText m := m_Digest m |}.
Definition holdWorld : World := MkWorld (MkCat ∅ ∅ ∅ ∅ ∅ 1 ∅ ∅ ∅ ∅ ∅ "e1") ∅ 7 ∅.
Section holds.
#[local] Existing Instance twoDeploy.
(** The records of a class are found with LIKE, where an underscore stands for any
    character: whoever may lift the holds of a_b lifts one on a record of axb. *)
Lemma lifted_across :
  let w := exec [DoHold "h1" "axb" "judge" (MkScope ScopeRecord "axb/o1"); DoLift "h1" "a_b" "clerk"] holdWorld in
  rtc (wstep false []) holdWorld w ∧ h_scope <$> c_holds (w_cat w) !! "h1" = Some (MkScope ScopeRecord "axb/o1") ∧
  (h_released_at <$> c_holds (w_cat w) !! "h1") = Some (Some 7).
Proof. cbv zeta. split; [by apply exec_run|]. vm_compute. done. Qed.
End holds.
